(* ===== verification/_CoqProject ===== *)
-Q . S2P
Prelude.v
Sql.v
GoStd.v
GoJson.v
GoTime.v
GoUnmarshal.v
GoQuote.v
GoFloat.v
GoHttp.v
GoText.v
Schema.v
Policy.v
Registry.v
Binding.v
BindingStore.v
Resolver.v
PlanStore.v
SnapCache.v
ResolveService.v
Events.v
OutboxFleet.v
Evidence.v
EvidenceLog.v
EvidencePack.v
ArchiveLog.v
ExitPack.v
Mmr.v
ExitDrill.v
ChainVerify.v
Metrics.v
Auth.v
Gateway.v
Ops.v
WorkerProc.v
ApiProc.v
WorkerStart.v
System.v
Contract.v
ContractLint.v
DevTools.v
