(* ===== verification/Prelude.v ===== *)
(** * SAOAF control plane: a verification library

    The program is the control plane of a sovereign AI fabric (Go, PostgreSQL).
    Hubs submit signed snapshots of what their providers offer; operators
    publish capability bindings that tie a capability to a provider's snapshot
    and profile for a scope of requests; policy sets decide which requests are
    eligible; a resolve turns a request into a resource plan with a limited
    lifetime.  Every change of state commits with an audit row
    (saoaf.change_record) and an event (saoaf.outbox_event).  A worker publishes
    the events; the evidence consumer indexes the published ones, and the
    archive process packs the records into write-once objects.  Exit packages
    and exit drills document how a vendor can be left, and an offline checker
    decides whether a drill's evidence is complete.  The router adapter
    correlates plans with routing decisions; metrics and read APIs show what is
    stored.  All shared state is in the database: components meet in its
    tables.

    ** Files, in dependency order

    Foundations.

    - [Prelude]: notation, the [bools] rewrite database, tactics and generic
      list lemmas.
    - [Sql]: the monad of the store operations.  A [World] is a database, a
      schedule of failures and a clock; [stmt] is one statement, [tx] one
      transaction, rolled back on an error.  Rules for running an operation
      ([.._inr] on success, the [fails_in] rules on errors), for histories of
      calls, and for a component that also has process memory ([zoom]).
    - [GoStd]: regular expressions with a denotation and a derivative matcher,
      SHA-256, int64, and the parts of [strings] in use.
    - [GoJson], [GoUnmarshal]: [json.Marshal] and its injectivity,
      [json.Unmarshal], and that decoding undoes encoding.
    - [GoTime]: durations, the calendar, the RFC 3339 text of an instant
      printed and parsed.  [GoQuote]: the format [%q] and how far it is
      unambiguous.  [GoFloat]: binary64, bit by bit, on the Standard Library's
      [SpecFloat].  [GoHttp]: headers, bodies, and the script of replies a
      client gets ([Net]).
    - [Schema]: the rows and constraints of src/migrations.

    Components of src/internal, and what src/cmd makes of them.

    - [Policy] (policy): module [Cel] is sandbox.go and eval.go, [PolicySet]
      set.go, [PolicyStore] store.go.
    - [Registry] (registry): [RegDomain] is domain.go, [RegStore] store.go,
      [Ingest] snapshotapi.go.
    - [Binding] (binding/domain.go) and [BindingStore] (binding/store.go).
    - [Resolver], [PlanStore], [SnapCache], [ResolveService] (resolver:
      domain.go; store.go; cache.go and loader.go; service.go and httpapi.go).
    - [Events] (events): envelopes, transports, worker, consumer.
      [OutboxFleet]: several such workers over one outbox.
    - [Evidence] (evidence): the index and its consumer.  [EvidenceLog]: the
      index while workers publish and other consumers ingest.
    - [EvidencePack] (evidencepack): packs, their store, the archive process
      and the object store adapter.  [ArchiveLog]: all of it running at once.
    - [ExitPack] (exitpack): the domain, the store, and its operations
      interleaved at their reads and writes.
    - [Mmr] (mmr): the router contract, correlations, routing modes.
    - [ExitDrill] (exitdrill): the state machine, its store, the worker.
    - [ChainVerify] (exitdrillverify and cmd/exit-chain-verify).
    - [Metrics] (metrics): extraction, formula v1, the ledger.
    - [Auth] (platform/authn, authz, approval, workload) and [Gateway]
      (platform/middleware, httpapi/admin.go, audit; the publish hook of
      cmd/control-plane-api).
    - [Ops] (ops and hub): the read APIs.
    - [WorkerProc] (platform/worker, httpapi/health.go, the archive loop of
      cmd/control-plane-worker).
    - [ApiProc] (cmd/control-plane-api, with MountAdmin, hub.Mount, ops.Mount and
      MountResolver): which routes an environment opens, and their gates.
    - [WorkerStart] (cmd/control-plane-worker): module [Start] is its main with
      the transport's and the object store's constructors, [AdminSurface] its
      admin router.
    - [System]: the policy adapter of cmd/control-plane-api, and what the
      components do together.

    Tools of src/tools, which run at build time or beside the program.

    - [GoText]: more of package strings, and word boundaries in regular
      expressions.
    - [Contract] (contractlint/breaking.go): the gate against breaking changes
      of the contracts.  [ContractLint] (contractlint/main.go): module [Tree] is
      the file tree, [Lint] the validation and the two scans.
    - [DevTools]: [Boundary] (boundarycheck), [License] (licensecheck),
      [Migrator] (migrator), the last as processes that compete for a lock.

    A definition has the name of the Go function it translates.  A module
    [...Props] holds the theorems of its file with their witnesses.

    ** How components meet

    A component sees another through the tables or through a type class.
    [EventTransport], with laws [LawfulTransport], is what the outbox worker
    needs of a transport; the NATS transport implements it over [NatsClient],
    whose laws are the documented meaning of an acknowledgement.  [ObjectStore],
    with [WormStore] (an object is not overwritten), is what the archive process
    needs; the MinIO adapter implements it over [MinioClient] with
    [LockedBucket].  [Chi] picks the route of a request, or answers 404 or
    405.  [Jwt] says what the options handed to golang-jwt promise.
    [Jsonb], [JsonbStrings] and [PgTime] are PostgreSQL's texts of jsonb values
    and timestamps, [RowChoice] and [Reads] with [ReadsLaws] which row or order
    it takes where the statement leaves it open, [MapOrder] the order of a
    range over a Go map.  A theorem whose witness needs such a class has an
    instance of it next to the witness.

    ** What the theorems show

    - Policy: the sandbox admits exactly the expressions all of whose calls are
      on the allow list ([checkCalls_sound_complete], [Evaluate_sandboxed]);
      any sequence of domain operations keeps one active revision and frozen
      contents ([policy_set_lifecycle]), the stored activation refines the
      domain's ([ActivateRevision_refines], [policy_store_history]); a digest
      identifies the content ([CanonicalDigest_identifies]).
    - Registry: active pointers name published snapshots of their provider
      under every history ([registry_pointers_published]); what each ingest
      answer says of the database ([handleIngest_outcome]); forbidden fields
      are found at any depth ([forbidden_fields_any_depth]); transitions are
      compare-and-swap ([TransitionProvider_cas]).
    - Binding: the overlap test decides whether two scopes admit a common
      request ([Overlaps_iff_common_request]); under every history the live
      bindings of a slot do not overlap, each key has one active revision, and
      changes pair with audit rows and events ([binding_store_history]);
      publish, its retry and each transition branch by branch
      ([Publish_effect], [Publish_cas], [Publish_retry], [transition_effect]).
    - Resolver: validation is the contract ([ValidateRequest_contract]); the
      digests identify what they digest ([RequestDigest_identifies],
      [Fingerprint_identifies]); plans are created once per idempotency key
      with their items, audit row and event, also when another caller commits
      between the lookup and the insert ([plan_store_history],
      [CreatePlan_effect]); the cache serves only what the loader returned and
      only inside its validity ([cache_serves]); every item of a returned plan
      is justified by the binding, snapshot and profile it names
      ([Resolve_justified]), the order of the requirements does not matter
      ([Resolve_order_irrelevant]); who may read a plan
      ([handleGetPlan_access]).  The binding admits the caller by tenant and
      region: the code does not look at the factories and agents of a scope
      ([other_agents_binding]).  An error leaves the database unchanged and is a
      database error or one of the specification's table ([Resolve_error]), with
      one exception, a 500 when the new plan's id is taken ([id_taken]).
    - Outbox: under every interleaving of workers, crashes and producers rows
      are kept and what is PUBLISHED was accepted ([fleet_history]); a
      DrainOnce is a sequence of the fleet's steps ([DrainOnce_refines]); the
      loop drains the backlog ([Run_drains]).
    - Evidence: one faithful record per published event, whatever interleaves
      ([evidence_history]); no forbidden word is ever stored ([red_line]); what
      a batch does ([IngestBatch_effect]); the loop catches up
      ([Run_catches_up]); what a repair does ([RepairQuarantined_reclassifies]).
    - Archive: records are linked once, to verified packs whose objects persist
      ([archive_history]); a tick of the process is such a history
      ([ArchiveOnce_refines]); recovery ends ([Recover_terminal]).
    - Exit packs: verified content is frozen and a vendor has one active pack,
      with operations interleaved at their reads and writes
      ([exitpack_history]); an export reads back and verifies
      ([export_roundtrip]); the races of Validate ([Validate_reverts_active]).
    - Drills: audit rows are a path of the matrix, approval is by another
      person, CLOSED needs evidence ([drill_history]); RunDrill ends and
      succeeds ([RunDrill_terminates], [RunDrill_succeeds]).  The checker
      decides exactly whether the tables hold the evidence ([verify_exact]),
      and what exit status 0 means over reachable databases ([go_means]).
    - Router adapter: the modes of any scopes move along legal audited
      transitions, correlations are unique ([mode_history], [SetMode_spec]).  A
      trail is told by tenant and entity together, since scopes may share an
      entity id ([shared_entity]).
    - Metrics: neither row order nor map order matters
      ([ComputeV1_deterministic]); the exact threshold of the coverage alert,
      float64 included ([coverage_alert]); a recomputation changes only
      timestamps ([PersistResults_effect], [ledger_history]).
    - Platform: what an accepted token has passed ([Validate_sound]); what has
      to hold for the publish endpoint to change the database: the token
      accepted at the clock of the request, a token in the subject's bucket at
      the time it is drawn ([admitted]), decision and approval; and what each
      answer says ([publish_authorised], [publish_answers]); the burst of the
      rate limiter ([RateLimit_burst]).
    - Read APIs: a confined caller is shown rows of its tenant and environments
      only ([reads_confined]); pages neither repeat nor skip
      ([metrics_pages]); what is answered when statements fail
      ([failing_reads]).
    - Processes: behind the routes of the API process, whatever its environment,
      a handler runs only for a request [admitted] with the route's scope
      ([served_behind_gates]), and mounting does not panic ([main_no_panic]);
      what a worker runs for its environment ([worker_wired]), when it panics at
      start ([worker_panics]) and what its unguarded admin routes can change
      ([admin_changes_only_pause]); the archive loop of the worker is a sequence
      of steps of the archive system and returns only when cancelled
      ([archive_loop_refines]);
      a plan of the configured API was allowed by the activated policy
      revision, requirement by requirement ([resolve_enforces_policy]); a
      snapshot that came in through the ingest endpoint can not be resolved,
      because its profiles are not stored ([ingested_never_resolve]).
    - Tools: the breaking-change gate passes exactly the compatible revisions
      ([cmdBreaking_passes]) and hands git only harmless arguments
      ([cmdBreaking_git_args]); what a pass of validate says
      ([validate_passes]), which names the scans can not miss
      ([noun_segment_refused], [deployable_passes], [sync_passes]); modules that
      pass the boundary check stay apart, transitively ([modules_apart]); what
      is on the allow lists ([license_passes]); one migration runs at a time as
      long as no session is lost ([one_migrator]).

    ** Conventions

    - Errors are the code's error values without their message texts; an HTTP
      answer is its status and error code, without message text and request id.
      An answer of the read APIs is a value with the columns shown.
    - Instants are integers (nanoseconds).  A text of an instant, where the
      code makes or reads one, is modelled.  PostgreSQL's rounding to
      microseconds is not, except where a component's result depends on it (the
      interface [PgTime]).  Durations are int64 where the code computes with
      them; AddDate is in UTC.
    - Integers of the code are int64 and wrap; float64 is exact to the bit.
    - The clock of a [World] is read by the statement and may differ from one
      operation to the next in a history.  Calls of a transport, an object
      store or another service, sleeps and ticks of a loop let time pass.
    - A transaction is atomic.  Advisory locks and [FOR UPDATE] are statements
      without an effect on the data; a drive lock of a drill is a key held.
      Where the code reads outside the transaction that writes (CreatePlan,
      the exit packs, the evidence scan), the halves are separate steps and
      other callers' commits come in between.
    - A failure schedule decides, statement by statement, whether the database
      is reachable; theorems hold for every schedule.  A failed statement
      inside a transaction aborts it ([refuse_next]).  Reading the rows of a
      SELECT takes one fault per row.
    - A query whose row order is not specified takes the rows in table order,
      except where a result depends on it: there the order is a parameter.
      Identity columns draw from one counter, so ids of a table increase but
      have gaps.  The range of PostgreSQL's INT columns is not modelled.
    - ChainVerify and Ops read the tables of several components side by side;
      other writers between two of their statements are not modelled.
    - HTTP: the replies of other services are a script of the environment.  A
      body that repeats an array member with null elements is not modelled, nor
      an approval base URL with a percent sign or an instant written with
      escapes.
    - A number outside the float64 range is an error wherever it stands in a JSON
      text, also in a member no field of a struct takes, which encoding/json
      would skip.
    - Cached loads run one at a time: singleflight's coalescing is not modelled.
    - Fuel: [runes] (UTF-8 decoding) has the length of the string, of which it
      consumes at least one byte per step; [unmarshal] and [first_value] have
      twice the length and one, since a step consumes a byte or closes a
      nesting; the SHA-256 block loop has the number of words of the padded
      message, sixteen of which it consumes per step; RunDrill has the attempts
      left and one, [RunDrill_terminates] says why that is enough; Recover has
      two, since a second pass finds nothing.  Loops without an end of their
      own take their turns or wake-ups as a list.  Every other recursion is
      structural.
    - Parameters: Unicode normalisation ([Normalizer]: idempotent), the decimal
      text of non-string constraint values ([Printer]), cel-go's parser,
      checker and evaluator, the executor of a drill step, certificate chain
      verification, url.Parse, text collation, the order of jsonb dimensions,
      the JSON text of a float, the printable runes of [%q], hashtext, error
      texts where they are stored, the text of the uptime, goose's table.
    - The tools see a file tree whose entries may be unreadable and which has no
      symbolic links, a git and a go command that answer anything, and decoders
      of YAML that are parameters; so are the JSON Schema library, the texts of
      floats and instants, and the lower case of letters beyond ASCII
      ([CaseMap]).  Messages are constructors with the values they print.

    ** Not modelled

    Connection pools and their settings, flags, HTTP servers, signal handling,
    the start and stop of goroutines, the warm-up at start and the console
    output of the commands: input and output around the modelled operations.
    Test helpers (sortRows) are not part of the program.

    The scripts under src/tools/phase0 and src/scripts, the web
    interface and the deployment files are not part of the Go program. *)

From stdpp Require Export base list strings sorting gmap.
From Stdlib Require Export ZArith Lia.

Declare Scope saoaf_scope.
Delimit Scope saoaf_scope with saoaf.
Open Scope string_scope.
Open Scope list_scope.
Open Scope Z_scope.
Open Scope saoaf_scope.

(** String equality as the Go [==] on strings: byte-wise, boolean. *)
Notation "a =s b" := (String.eqb a b) (at level 70, no associativity) : saoaf_scope.

(** Go's [for _, x := range xs { if x == v { return true } }; return false]. *)
Definition str_mem (v : string) (xs : list string) : bool :=
  existsb (fun x => x =s v) xs.

(** ** Automation: booleans to propositions *)

Create Rewrite HintDb bools.

#[export] Hint Rewrite andb_true_iff orb_true_iff negb_true_iff negb_false_iff
  andb_false_iff orb_false_iff
  String.eqb_eq String.eqb_neq Z.eqb_eq Z.eqb_neq Z.leb_le Z.leb_gt
  Z.ltb_lt Z.ltb_ge Bool.eqb_true_iff : bools.

Ltac b2p := autorewrite with bools in *.

Ltac destruct_and_hyps :=
  repeat match goal with
  | H : _ /\ _ |- _ => destruct H
  | H : exists _, _ |- _ => destruct H
  end.

(** Case split on the scrutinee of every [match]/[if] of the goal. *)
Ltac split_match :=
  repeat match goal with
  | |- context [match ?x with _ => _ end] => destruct x eqn:?; simpl in *
  end.

(** The same in a hypothesis, discarding the branches that do not fit. *)
Ltac split_match_in H :=
  repeat match type of H with
  | context [match ?x with _ => _ end] =>
      destruct x eqn:?; simpl in H; try discriminate H
  end.

(** Evaluates the decisions between constants. *)
Ltac eval_decisions :=
  repeat match goal with
  | |- context [bool_decide (?a = ?b)] =>
      let v := eval vm_compute in (bool_decide (a = b)) in
      match v with
      | true => change (bool_decide (a = b)) with true
      | false => change (bool_decide (a = b)) with false
      end
  end.

Lemma str_eqb_refl s : (s =s s) = true.
Proof. apply String.eqb_refl. Qed.

#[export] Hint Rewrite str_eqb_refl : bools.

Lemma str_mem_spec v xs : str_mem v xs = true <-> v ∈ xs.
Proof.
  unfold str_mem. rewrite existsb_exists. split.
  - intros (x & Hin & Heq). b2p. subst. by apply list_elem_of_In.
  - intros H. exists v. split; [by apply list_elem_of_In|apply str_eqb_refl].
Qed.

Lemma str_mem_false v xs : str_mem v xs = false <-> v ∉ xs.
Proof.
  rewrite <- str_mem_spec. destruct (str_mem v xs); split; congruence.
Qed.

(** ** Errors

    One type for every error value a modelled function returns.  Messages are
    not modelled: no caller branches on them.  [ETyped s r] is a typed error
    (binding.StoreError, *.ValidationError, *.ErrTyped) with the sentinel it
    unwraps to ([""] when it has none) and its reason code; [EHttp] is
    resolver.ResolveError. *)

Inductive sqlerr : Type :=
| Fault                        (* connection, statement or commit failure *)
| Unique (constraint : string) (* 23505 with the violated constraint *)
| CheckViolation               (* 23514: CHECK constraint or immutability trigger *)
| ForeignKey                   (* 23503 *)
| BadInput                     (* 22P02, 2201W: a value the type or clause refuses *)
| NoRows.                      (* pgx.ErrNoRows *)

Inductive err : Type :=
| ESql (e : sqlerr)
| ETyped (sentinel reason : string)
| EHttp (code : string) (status : Z) (details : list (string * list string)).

#[export] Instance sqlerr_eq_dec : EqDecision sqlerr.
Proof. solve_decision. Defined.
#[export] Instance err_eq_dec : EqDecision err.
Proof. solve_decision. Defined.

(** ** Sorting strings: [sort.Strings] orders by bytes *)

Definition sort_strings (l : list string) : list string := merge_sort String.le l.

Lemma sort_strings_perm l : sort_strings l ≡ₚ l.
Proof. apply merge_sort_Permutation. Qed.

Lemma sort_strings_sorted l : Sorted String.le (sort_strings l).
Proof. apply (Sorted_merge_sort String.le). Qed.

(** Two permutations of one multiset of strings sort to the same list. *)
Lemma sort_strings_unique l1 l2 : l1 ≡ₚ l2 -> sort_strings l1 = sort_strings l2.
Proof.
  intros H. apply (Sorted_unique String.le); try apply sort_strings_sorted.
  by rewrite !sort_strings_perm.
Qed.

Lemma sort_strings_id l : Sorted String.le l -> sort_strings l = l.
Proof.
  intros H. apply (Sorted_unique String.le); auto using sort_strings_sorted.
  apply sort_strings_perm.
Qed.

Lemma elem_of_sort_strings x l : x ∈ sort_strings l <-> x ∈ l.
Proof. by rewrite sort_strings_perm. Qed.

(** ** Finite sequences of steps *)

Section Star.
Context {S : Type} (step : S -> S -> Prop).

Inductive star : S -> S -> Prop :=
| star_refl s : star s s
| star_next s1 s2 s3 : star s1 s2 -> step s2 s3 -> star s1 s3.

Lemma star_invariant (I : S -> Prop) s s' :
  (forall a b, I a -> step a b -> I b) -> I s -> star s s' -> I s'.
Proof. intros Hstep Hs Hst. induction Hst; eauto. Qed.

Lemma star_trans s1 s2 s3 : star s1 s2 -> star s2 s3 -> star s1 s3.
Proof. intros H12 H23. induction H23; eauto using star. Qed.

Lemma star_one s1 s2 : step s1 s2 -> star s1 s2.
Proof. intros. eapply star_next; [apply star_refl|done]. Qed.
End Star.

#[export] Hint Constructors star : core.
#[export] Hint Resolve star_one : core.
