(* ===== verification/Sql.v ===== *)
(** * Statements, transactions and failures

    The control plane keeps all its state in PostgreSQL.  A store operation is
    a sequence of statements, some of them between [Begin] and [Commit]; every
    statement may fail, and an operation that returns without committing is
    rolled back ([defer tx.Rollback]).  This file is the state and error monad
    the store components are written in: a [World] holds the database, the
    schedule of failures still to come and the clock; [stmt] runs one
    statement, [tx] one transaction.  Transactions are atomic here: the code's
    own protection against interleaving (compare-and-swap updates, advisory
    locks, unique indexes) is in the statements. *)

From S2P Require Import Prelude.

Record World (DB : Type) : Type := MkWorld {
  store : DB;
  faults : list bool; (* true = the next statement fails *)
  clock : Z;          (* now() and time.Now(), nanoseconds *)
}.
Arguments MkWorld {DB}.
Arguments store {DB}.
Arguments faults {DB}.
Arguments clock {DB}.

Definition set_store {DB} (d : DB) (w : World DB) : World DB :=
  MkWorld d (faults w) (clock w).
Definition pop_fault {DB} (w : World DB) : World DB :=
  MkWorld (store w) (tail (faults w)) (clock w).
Definition failing {DB} (w : World DB) : bool := hd false (faults w).

Definition M (DB A : Type) : Type := World DB -> (err + A) * World DB.

(** How a transaction body leaves its function: [Commit] is
    [return tx.Commit(ctx)], [Rollback] a nil return that leaves the deferred
    rollback to end the transaction. *)
Inductive exit (A : Type) : Type :=
| Commit (a : A)
| Rollback (a : A).
Arguments Commit {A}.
Arguments Rollback {A}.

Section Monad.
Context {DB : Type}.

Definition ret {A} (a : A) : M DB A := fun w => (inr a, w).
Definition throw {A} (e : err) : M DB A := fun w => (inl e, w).
Definition bind {A B} (m : M DB A) (k : A -> M DB B) : M DB B :=
  fun w => match m w with
           | (inl e, w') => (inl e, w')
           | (inr a, w') => k a w'
           end.

(** One statement.  A failed statement changes nothing. *)
Definition stmt {A} (f : DB -> sqlerr + A * DB) : M DB A :=
  fun w =>
    let w0 := pop_fault w in
    if failing w then (inl (ESql Fault), w0)
    else match f (store w0) with
         | inl e => (inl (ESql e), w0)
         | inr (a, d) => (inr a, set_store d w0)
         end.

Definition query {A} (f : DB -> A) : M DB A := stmt (fun d => inr (f d, d)).
(** [QueryRow(...).Scan]: no row is [pgx.ErrNoRows]. *)
Definition query_row {A} (f : DB -> option A) : M DB A :=
  stmt (fun d => match f d with Some a => inr (a, d) | None => inl NoRows end).
Definition exec (f : DB -> DB) : M DB unit := stmt (fun d => inr (tt, f d)).
(** [Exec] whose [RowsAffected] is used. *)
Definition exec_n (f : DB -> Z * DB) : M DB Z := stmt (fun d => inr (f d)).
(** [INSERT]: refused with the violated constraint. *)
Definition insert_row (f : DB -> sqlerr + DB) : M DB unit :=
  stmt (fun d => match f d with inl e => inl e | inr d' => inr (tt, d') end).

Definition now : M DB Z := fun w => (inr (clock w), w).
(** [pgx.Connect], [Pool.Acquire], [Begin]: no effect of their own. *)
Definition connect : M DB unit := query (fun _ => tt).

(** [if err != nil { return h(err) }] *)
Definition catch {A} (m : M DB A) (h : err -> M DB A) : M DB A :=
  fun w => match m w with
           | (inl e, w') => h e w'
           | r => r
           end.

(** [Begin] ... [defer Rollback] ... [Commit]. *)
Definition tx {A} (body : M DB (exit A)) : M DB A :=
  bind connect (fun _ w =>
    match body w with
    | (inl e, w1) => (inl e, set_store (store w) w1)
    | (inr (Rollback a), w1) => (inr a, set_store (store w) w1)
    | (inr (Commit a), w1) =>
        if failing w1 then (inl (ESql Fault), set_store (store w) (pop_fault w1))
        else (inr a, pop_fault w1)
    end).

(** After an error inside a transaction PostgreSQL refuses its next statement. *)
Definition refuse_next : M DB unit :=
  fun w => (inr tt, MkWorld (store w) (true :: faults w) (clock w)).

Definition when (b : bool) (m : M DB unit) : M DB unit := if b then m else ret tt.
(** [if b { return e }] *)
Definition guard (b : bool) (e : err) : M DB unit := if b then throw e else ret tt.

Fixpoint for_each {X} (l : list X) (f : X -> M DB unit) : M DB unit :=
  match l with
  | [] => ret tt
  | x :: l' => bind (f x) (fun _ => for_each l' f)
  end.

Definition run {A} (m : M DB A) (w : World DB) : (err + A) * World DB := m w.
End Monad.

Notation "'let!' x ':=' m 'in' k" := (bind m (fun x => k))
  (at level 10, x strict pattern, m at level 100, k at level 200,
   format "'[v' 'let!'  x  ':='  m  'in' '/' k ']'") : saoaf_scope.
Notation "m ';!' k" := (bind m (fun _ => k))
  (at level 199, right associativity, format "'[v' m  ';!' '/' k ']'") : saoaf_scope.

(** ** Tables

    A table is the list of its rows in insertion order. *)

Definition rows_where {R} (p : R -> bool) (t : list R) : list R := List.filter p t.
Definition first_where {R} (p : R -> bool) (t : list R) : option R := List.find p t.
Definition any_where {R} (p : R -> bool) (t : list R) : bool := existsb p t.
Definition count_where {R} (p : R -> bool) (t : list R) : Z :=
  Z.of_nat (length (List.filter p t)).
Definition update_where {R} (p : R -> bool) (f : R -> R) (t : list R) : list R :=
  List.map (fun r => if p r then f r else r) t.
(** [ORDER BY key DESC LIMIT 1] *)
Fixpoint max_by {R} (key : R -> Z) (t : list R) : option R :=
  match t with
  | [] => None
  | r :: t' => match max_by key t' with
               | Some r' => if key r' >? key r then Some r' else Some r
               | None => Some r
               end
  end.
(** [COALESCE(MAX(key), 0)] *)
Definition max_of {R} (key : R -> Z) (t : list R) : Z :=
  fold_right (fun r m => Z.max (key r) m) 0 t.

(** ** Laws of the monad *)

Section Laws.
Context {DB : Type}.

Lemma bind_inr {A B} (m : M DB A) (k : A -> M DB B) w b w2 :
  bind m k w = (inr b, w2) ->
  exists a w1, m w = (inr a, w1) /\ k a w1 = (inr b, w2).
Proof. unfold bind. destruct (m w) as [[e|a] w1]; intros H; [discriminate|eauto]. Qed.

Lemma stmt_inr {A} (f : DB -> sqlerr + A * DB) w a w' :
  stmt f w = (inr a, w') ->
  f (store w) = inr (a, store w') /\ clock w' = clock w.
Proof.
  unfold stmt, pop_fault. destruct (failing w); [discriminate|]. simpl.
  destruct (f (store w)) as [e|[a' d]]; intros H; [discriminate|].
  injection H as -> <-. done.
Qed.

Lemma query_inr {A} (f : DB -> A) w a w' :
  query f w = (inr a, w') -> a = f (store w) /\ store w' = store w /\ clock w' = clock w.
Proof. intros H. apply stmt_inr in H as [H ?]. injection H as <- ->. done. Qed.

Lemma query_row_inr {A} (f : DB -> option A) w a w' :
  query_row f w = (inr a, w') ->
  f (store w) = Some a /\ store w' = store w /\ clock w' = clock w.
Proof.
  intros H. apply stmt_inr in H as [H ?].
  destruct (f (store w)); [|discriminate]. injection H as -> ->. done.
Qed.

Lemma exec_inr (f : DB -> DB) w a w' :
  exec f w = (inr a, w') -> store w' = f (store w) /\ clock w' = clock w.
Proof. intros H. apply stmt_inr in H as [H ?]. by injection H as _ <-. Qed.

Lemma exec_n_inr (f : DB -> Z * DB) w n w' :
  exec_n f w = (inr n, w') -> f (store w) = (n, store w') /\ clock w' = clock w.
Proof. intros H. apply stmt_inr in H as [H ?]. by injection H as ->. Qed.

Lemma insert_row_inr (f : DB -> sqlerr + DB) w a w' :
  insert_row f w = (inr a, w') -> f (store w) = inr (store w') /\ clock w' = clock w.
Proof.
  intros H. apply stmt_inr in H as [H ?].
  destruct (f (store w)); [discriminate|]. by injection H as _ ->.
Qed.

Lemma connect_inr w a w' :
  connect (DB := DB) w = (inr a, w') -> store w' = store w /\ clock w' = clock w.
Proof. intros H. apply query_inr in H. tauto. Qed.

Lemma connect_inl w e w' : connect (DB := DB) w = (inl e, w') -> store w' = store w.
Proof. unfold connect, query, stmt. destruct (failing w); [by intros [= _ <-]|done]. Qed.

Lemma exec_inl (f : DB -> DB) w e w' : exec f w = (inl e, w') -> store w' = store w.
Proof. unfold exec, stmt. destruct (failing w); [by intros [= _ <-]|done]. Qed.
Lemma exec_n_inl (f : DB -> Z * DB) w e w' : exec_n f w = (inl e, w') -> store w' = store w.
Proof. unfold exec_n, stmt. destruct (failing w); [by intros [= _ <-]|]. simpl. by destruct (f _). Qed.
Lemma query_row_inl {A} (f : DB -> option A) w e w' :
  query_row f w = (inl e, w') -> store w' = store w.
Proof.
  unfold query_row, stmt. destruct (failing w); [by intros [= _ <-]|]. simpl.
  destruct (f (store w)); [discriminate|]. by intros [= _ <-].
Qed.

Lemma ret_inr {A} (a b : A) (w w' : World DB) :
  ret a w = (inr b, w') -> b = a /\ w' = w.
Proof. intros H. by injection H as -> ->. Qed.

Lemma guard_inr b e (w w' : World DB) u :
  guard b e w = (inr u, w') -> b = false /\ w' = w.
Proof. unfold guard. destruct b; intros H; [discriminate|]. by injection H as _ ->. Qed.

Lemma now_inr (w w' : World DB) t : now w = (inr t, w') -> t = clock w /\ w' = w.
Proof. intros H. by injection H as <- ->. Qed.

(** A transaction commits its body's database or leaves the old one. *)
Lemma tx_inr {A} (body : M DB (exit A)) w a w' :
  tx body w = (inr a, w') ->
  exists w0, store w0 = store w /\ clock w0 = clock w /\
    ((exists w1, body w0 = (inr (Commit a), w1) /\ store w' = store w1) \/
     (exists w1, body w0 = (inr (Rollback a), w1) /\ store w' = store w)).
Proof.
  intros H. unfold tx in H. apply bind_inr in H as (u & w0 & Hc & H).
  apply connect_inr in Hc as [Hs Hcl]. exists w0. repeat split; auto.
  destruct (body w0) as [[e|[b|b]] w1] eqn:Hb; [discriminate| |].
  - destruct (failing w1); [discriminate|]. injection H as -> <-. left. eauto.
  - injection H as -> <-. right. exists w1. split; [done|]. simpl. by rewrite Hs.
Qed.

Lemma tx_inl {A} (body : M DB (exit A)) w e w' :
  tx body w = (inl e, w') -> store w' = store w.
Proof.
  unfold tx, bind. destruct (connect w) as [[e0|u] w0] eqn:Hc.
  - intros H. injection H as <- <-. unfold connect, query, stmt in Hc.
    destruct (failing w); [by injection Hc as <- <-|discriminate].
  - apply connect_inr in Hc as [Hs _].
    destruct (body w0) as [[e1|[b|b]] w1] eqn:Hb; [| |discriminate].
    + intros H. injection H as <- <-. by simpl.
    + destruct (failing w1); [|discriminate]. intros H. injection H as <- <-. by simpl.
Qed.
Lemma connect_tx_inl {A} (body : M DB (exit A)) w e w' :
  bind connect (fun _ => tx body) w = (inl e, w') -> store w' = store w.
Proof.
  unfold bind at 1. destruct (connect w) as [[ec|u] w0] eqn:Ec.
  - intros [= _ <-]. by apply connect_inl in Ec.
  - apply connect_inr in Ec as [Ec _]. intros H. apply tx_inl in H. congruence.
Qed.
End Laws.

(** Inverts the successful run of a monadic program, statement by statement. *)
Ltac inv_run1 :=
  match goal with
  | H : bind _ _ _ = (inr _, _) |- _ =>
      let a := fresh "a" in let w := fresh "w" in let E := fresh "E" in
      apply bind_inr in H as (a & w & E & H)
  | H : ret _ _ = (inr _, _) |- _ => apply ret_inr in H as [? ?]; subst
  | H : throw _ _ = (inr _, _) |- _ => discriminate H
  | H : guard _ _ _ = (inr _, _) |- _ => apply guard_inr in H as [? ?]; subst
  | H : now _ = (inr _, _) |- _ => apply now_inr in H as [? ?]; subst
  | H : query _ _ = (inr _, _) |- _ => apply query_inr in H as (? & ? & ?)
  | H : query_row _ _ = (inr _, _) |- _ => apply query_row_inr in H as (? & ? & ?)
  | H : exec _ _ = (inr _, _) |- _ => apply exec_inr in H as (? & ?)
  | H : exec_n _ _ = (inr _, _) |- _ => apply exec_n_inr in H as (? & ?)
  | H : insert_row _ _ = (inr _, _) |- _ => apply insert_row_inr in H as (? & ?)
  | H : connect _ = (inr _, _) |- _ => apply connect_inr in H as (? & ?)
  end.
Ltac inv_run := repeat inv_run1.

(** ** Process state beside the database

    A service keeps state of its own (a cache) next to the database: reads and
    writes of it are not statements and do not fail; [zoom] runs a store
    operation on the database inside. *)

Section Process.
Context {S : Type}.

Definition gets {A} (f : S -> A) : M S A := fun w => (inr (f (store w)), w).
Definition modify (f : S -> S) : M S unit := fun w => (inr tt, set_store (f (store w)) w).
(** [v, err := m] *)
Definition attempt {A} (m : M S A) : M S (err + A) :=
  fun w => let (r, w') := m w in (inr r, w').
Definition zoom {DB A} (get : S -> DB) (put : DB -> S -> S) (m : M DB A) : M S A :=
  fun w => let (r, w') := m (MkWorld (get (store w)) (faults w) (clock w)) in
           (r, MkWorld (put (store w') (store w)) (faults w') (clock w')).

Lemma gets_inr {A} (f : S -> A) w a w' : gets f w = (inr a, w') -> a = f (store w) /\ w' = w.
Proof. intros H. by injection H as <- ->. Qed.
Lemma modify_inr f w u w' : modify f w = (inr u, w') -> w' = set_store (f (store w)) w.
Proof. intros H. by injection H as _ <-. Qed.
Lemma attempt_inr {A} (m : M S A) w r w' : attempt m w = (inr r, w') -> m w = (r, w').
Proof. unfold attempt. destruct (m w). by intros [= -> ->]. Qed.
Lemma zoom_run {DB A} (get : S -> DB) put (m : M DB A) w r w' :
  zoom get put m w = (r, w') ->
  exists v v', store v = get (store w) /\ clock v = clock w /\ m v = (r, v') /\
    store w' = put (store v') (store w) /\ clock w' = clock v'.
Proof.
  unfold zoom. destruct (m _) as [x v'] eqn:E. intros [= -> <-].
  exists (MkWorld (get (store w)) (faults w) (clock w)), v'. done.
Qed.
End Process.

(** ** Operations that keep a property of the database

    [keeps I m]: however the failures fall, [m] takes a database satisfying
    [I] to one satisfying [I], whether it returns a value or an error. *)

Section Keeps.
Context {DB : Type} (I : DB -> Prop).

Definition keeps {A} (m : M DB A) : Prop :=
  forall w, I (store w) -> I (store (m w).2).

Lemma keeps_ret {A} (a : A) : keeps (ret a).
Proof. by intros w. Qed.
Lemma keeps_throw {A} e : keeps (throw (A := A) e).
Proof. by intros w. Qed.
Lemma keeps_now : keeps now.
Proof. by intros w. Qed.

Lemma keeps_bind {A B} (m : M DB A) (k : A -> M DB B) :
  keeps m -> (forall a, keeps (k a)) -> keeps (bind m k).
Proof.
  intros Hm Hk w Hw. specialize (Hm w Hw). unfold bind.
  destruct (m w) as [[e|a] w1]; simpl in *; [done|]. by apply Hk.
Qed.

Lemma keeps_stmt {A} (f : DB -> sqlerr + A * DB) :
  (forall d a d', I d -> f d = inr (a, d') -> I d') -> keeps (stmt f).
Proof.
  intros Hf w Hw. unfold stmt. destruct (failing w); [done|]. simpl.
  destruct (f (store w)) as [e|[a d]] eqn:E; simpl; eauto.
Qed.

Lemma keeps_query {A} (f : DB -> A) : keeps (query f).
Proof. apply keeps_stmt. intros d a d' Hd H. by injection H as _ <-. Qed.
Lemma keeps_query_row {A} (f : DB -> option A) : keeps (query_row f).
Proof.
  apply keeps_stmt. intros d a d' Hd H. destruct (f d); [|discriminate].
  by injection H as _ <-.
Qed.
Lemma keeps_connect : keeps connect.
Proof. apply keeps_query. Qed.
Lemma keeps_exec f : (forall d, I d -> I (f d)) -> keeps (exec f).
Proof. intros Hf. apply keeps_stmt. intros d a d' Hd H. injection H as _ <-. auto. Qed.
Lemma keeps_exec_n f : (forall d, I d -> I (f d).2) -> keeps (exec_n f).
Proof.
  intros Hf. apply keeps_stmt. intros d a d' Hd H. injection H as H.
  specialize (Hf d Hd). by rewrite H in Hf.
Qed.
Lemma keeps_insert_row f : (forall d d', I d -> f d = inr d' -> I d') -> keeps (insert_row f).
Proof.
  intros Hf. apply keeps_stmt. intros d a d' Hd H.
  destruct (f d) eqn:E; [discriminate|]. injection H as _ <-. eauto.
Qed.

Lemma keeps_catch {A} (m : M DB A) h :
  keeps m -> (forall e, keeps (h e)) -> keeps (catch m h).
Proof.
  intros Hm Hh w Hw. specialize (Hm w Hw). unfold catch.
  destruct (m w) as [[e|a] w1]; simpl in *; [by apply Hh|done].
Qed.

(** Inside a transaction [I] may be broken; what commits must restore it. *)
Lemma keeps_tx {A} (body : M DB (exit A)) :
  (forall w w' a, I (store w) -> body w = (inr (Commit a), w') -> I (store w')) ->
  keeps (tx body).
Proof.
  intros Hb w Hw. destruct (tx body w) as [[e|a] w'] eqn:E; simpl.
  - apply tx_inl in E. by rewrite E.
  - apply tx_inr in E as (w0 & Hs & _ & [(w1 & Hbody & ->)|(w1 & _ & ->)]); [|done].
    eapply Hb; [|apply Hbody]. by rewrite Hs.
Qed.

(** When every statement of the body keeps [I]. *)
Lemma keeps_tx_body {A} (body : M DB (exit A)) : keeps body -> keeps (tx body).
Proof.
  intros Hb. apply keeps_tx. intros w w' a Hw Hr. specialize (Hb w Hw). by rewrite Hr in Hb.
Qed.

Lemma keeps_refuse_next : keeps refuse_next.
Proof. by intros w. Qed.
Lemma keeps_guard b e : keeps (guard b e).
Proof. unfold guard. destruct b; [apply keeps_throw|apply keeps_ret]. Qed.
Lemma keeps_when b m : keeps m -> keeps (when b m).
Proof. unfold when. destruct b; [done|intros; apply keeps_ret]. Qed.
Lemma keeps_for_each {X} (l : list X) f : (forall x, keeps (f x)) -> keeps (for_each l f).
Proof.
  intros Hf. induction l as [|x l IH]; simpl; [apply keeps_ret|].
  by apply keeps_bind.
Qed.
End Keeps.

Create HintDb keeps.
#[export] Hint Resolve keeps_ret keeps_throw keeps_now keeps_query keeps_query_row
  keeps_connect keeps_guard keeps_when keeps_for_each keeps_bind keeps_catch : keeps.

(** Walks a program down to the statements that write. *)
Ltac keeps_walk :=
  repeat lazymatch goal with
  | |- keeps _ (ret _) => apply keeps_ret
  | |- keeps _ (throw _) => apply keeps_throw
  | |- keeps _ now => apply keeps_now
  | |- keeps _ (query _) => apply keeps_query
  | |- keeps _ (query_row _) => apply keeps_query_row
  | |- keeps _ connect => apply keeps_connect
  | |- keeps _ (guard _ _) => apply keeps_guard
  | |- keeps _ (bind _ _) => apply keeps_bind; [|intros ?]
  | |- keeps _ (catch _ _) => apply keeps_catch; [|intros ?]
  | |- keeps _ (when _ _) => apply keeps_when
  | |- keeps _ (for_each _ _) => apply keeps_for_each; intros ?
  | |- keeps _ (match ?x with _ => _ end) => destruct x eqn:?
  end.

(** ** Programs in which no time passes *)

Section Timeless.
Context {DB : Type}.

Definition timeless {A} (m : M DB A) : Prop := forall w, clock (m w).2 = clock w.

Lemma timeless_ret {A} (a : A) : timeless (ret a).
Proof. by intros w. Qed.
Lemma timeless_now : timeless now.
Proof. by intros w. Qed.
Lemma timeless_bind {A B} (m : M DB A) (k : A -> M DB B) :
  timeless m -> (forall a, timeless (k a)) -> timeless (bind m k).
Proof.
  intros Hm Hk w. specialize (Hm w). unfold bind.
  destruct (m w) as [[e|a] w1]; simpl in *; [done|]. by rewrite Hk.
Qed.
Lemma timeless_stmt {A} (f : DB -> sqlerr + A * DB) : timeless (stmt f).
Proof.
  intros w. unfold stmt. destruct (failing w); [done|]. simpl.
  by destruct (f (store w)) as [e|[a d]].
Qed.
Lemma timeless_query_row {A} (f : DB -> option A) : timeless (query_row f).
Proof. apply timeless_stmt. Qed.
Lemma timeless_insert_row f : timeless (insert_row f).
Proof. apply timeless_stmt. Qed.
Lemma timeless_refuse_next : timeless refuse_next.
Proof. by intros w. Qed.
Lemma timeless_catch {A} (m : M DB A) h :
  timeless m -> (forall e, timeless (h e)) -> timeless (catch m h).
Proof.
  intros Hm Hh w. specialize (Hm w). unfold catch.
  destruct (m w) as [[e|a] w1]; simpl in *; [by rewrite Hh|done].
Qed.
Lemma timeless_for_each {X} (l : list X) f :
  (forall x, timeless (f x)) -> timeless (for_each l f).
Proof. intros Hf. induction l; simpl; [apply timeless_ret|by apply timeless_bind]. Qed.
Lemma timeless_tx {A} (body : M DB (exit A)) : timeless body -> timeless (tx body).
Proof.
  intros Hb. apply timeless_bind; [apply timeless_stmt|]. intros _ w. specialize (Hb w).
  destruct (body w) as [[e|[a|a]] w1]; simpl in *; [done| |done]. by destruct (failing w1).
Qed.
End Timeless.

Ltac timeless_walk :=
  repeat lazymatch goal with
  | |- timeless (ret _) => apply timeless_ret
  | |- timeless now => apply timeless_now
  | |- timeless refuse_next => apply timeless_refuse_next
  | |- timeless (catch _ _) => apply timeless_catch; [|intros ?]
  | |- timeless (query_row _) => apply timeless_stmt
  | |- timeless (insert_row _) => apply timeless_stmt
  | |- timeless (stmt _) => apply timeless_stmt
  | |- timeless (bind _ _) => apply timeless_bind; [|intros ?]
  | |- timeless (for_each _ _) => apply timeless_for_each; intros ?
  | |- timeless (tx _) => apply timeless_tx
  | |- timeless connect => apply timeless_stmt
  | |- timeless (query _) => apply timeless_stmt
  | |- timeless (exec _) => apply timeless_stmt
  | |- timeless (exec_n _) => apply timeless_stmt
  | |- timeless (match ?x with _ => _ end) => destruct x
  end.

(** ** Programs that do not turn the clock back *)

Section Advances.
Context {DB : Type}.

Definition advances {A} (m : M DB A) : Prop := forall w, clock w <= clock (m w).2.

Lemma advances_run {A} (m : M DB A) w r w' : advances m -> m w = (r, w') -> clock w <= clock w'.
Proof. intros Hm H. specialize (Hm w). by rewrite H in Hm. Qed.
Lemma timeless_advances {A} (m : M DB A) : timeless m -> advances m.
Proof. intros Hm w. by rewrite Hm. Qed.
Lemma advances_stmt {A} (f : DB -> sqlerr + A * DB) : advances (stmt f).
Proof. apply timeless_advances, timeless_stmt. Qed.
Lemma advances_throw {A} e : advances (throw (A := A) e).
Proof. by intros w. Qed.
Lemma advances_bind {A B} (m : M DB A) (k : A -> M DB B) :
  advances m -> (forall a, advances (k a)) -> advances (bind m k).
Proof.
  intros Hm Hk w. specialize (Hm w). unfold bind.
  destruct (m w) as [[e|a] w1]; simpl in *; [done|]. specialize (Hk a w1). lia.
Qed.
Lemma advances_catch {A} (m : M DB A) h :
  advances m -> (forall e, advances (h e)) -> advances (catch m h).
Proof.
  intros Hm Hh w. specialize (Hm w). unfold catch.
  destruct (m w) as [[e|a] w1]; simpl in *; [specialize (Hh e w1); lia|done].
Qed.
Lemma advances_guard b e : advances (guard b e).
Proof. intros w. by destruct b. Qed.
Lemma advances_attempt {A} (m : M DB A) : advances m -> advances (attempt m).
Proof. intros Hm w. specialize (Hm w). unfold attempt. by destruct (m w). Qed.
Lemma advances_tx {A} (body : M DB (exit A)) : advances body -> advances (tx body).
Proof.
  intros Hb. apply advances_bind; [apply advances_stmt|]. intros _ w. specialize (Hb w).
  destruct (body w) as [[e|[a|a]] w1]; simpl in *; [done| |done]. by destruct (failing w1).
Qed.
End Advances.
Lemma advances_zoom {S DB A} (get : S -> DB) put (m : M DB A) : advances m -> advances (zoom get put m).
Proof.
  intros Hm w. specialize (Hm (MkWorld (get (store w)) (faults w) (clock w))).
  unfold zoom. by destruct (m _).
Qed.

Ltac advances_walk :=
  repeat lazymatch goal with
  | |- advances (throw _) => apply advances_throw
  | |- advances (guard _ _) => apply advances_guard
  | |- advances (bind _ _) => apply advances_bind; [|intros ?]
  | |- advances (catch _ _) => apply advances_catch; [|intros ?]
  | |- advances (attempt _) => apply advances_attempt
  | |- advances (zoom _ _ _) => apply advances_zoom
  | |- advances (tx _) => apply advances_tx
  | |- advances (query_row _) => apply advances_stmt
  | |- advances (insert_row _) => apply advances_stmt
  | |- advances (stmt _) => apply advances_stmt
  | |- advances connect => apply advances_stmt
  | |- advances (query _) => apply advances_stmt
  | |- advances (exec _) => apply advances_stmt
  | |- advances (exec_n _) => apply advances_stmt
  | |- advances (match ?x with _ => _ end) => destruct x
  | |- advances (ret _) => by intros ?
  | |- advances now => by intros ?
  | |- advances (gets _) => by intros ?
  | |- advances (modify _) => by intros ?
  end.

(** ** The errors of a program

    [fails_in Q m]: every error [m] returns satisfies [Q], however the failures
    fall. *)

Section Fails.
Context {DB : Type} (Q : err -> Prop).

Definition fails_in {A} (m : M DB A) : Prop := forall w e w', m w = (inl e, w') -> Q e.

Lemma fails_ret {A} (a : A) : fails_in (ret a).
Proof. by intros w e w' H. Qed.
Lemma fails_now : fails_in now.
Proof. by intros w e w' H. Qed.
Lemma fails_throw {A} e : Q e -> fails_in (throw (A := A) e).
Proof. intros He w e' w' H. by injection H as <- _. Qed.
Lemma fails_guard b e : Q e -> fails_in (guard b e).
Proof. intros He. unfold guard. destruct b; [by apply fails_throw|apply fails_ret]. Qed.
Lemma fails_bind {A B} (m : M DB A) (k : A -> M DB B) :
  fails_in m -> (forall a, fails_in (k a)) -> fails_in (bind m k).
Proof.
  intros Hm Hk w e w'. unfold bind. destruct (m w) as [[e'|a] w1] eqn:E.
  - intros [= <- _]. by eapply Hm.
  - apply Hk.
Qed.
Lemma fails_catch {A} (m : M DB A) h : (forall e, fails_in (h e)) -> fails_in (catch m h).
Proof.
  intros Hh w e w'. unfold catch. destruct (m w) as [[e'|a] w1]; [apply Hh|discriminate].
Qed.
Lemma fails_catch_with {A} (m : M DB A) h :
  fails_in m -> (forall e, Q e -> fails_in (h e)) -> fails_in (catch m h).
Proof.
  intros Hm Hh w e w'. unfold catch. destruct (m w) as [[e'|a] w1] eqn:E; [|discriminate].
  apply Hh. by eapply Hm.
Qed.
Lemma fails_stmt {A} (f : DB -> sqlerr + A * DB) : (forall e, Q (ESql e)) -> fails_in (stmt f).
Proof.
  intros HQ w e w'. unfold stmt. destruct (failing w); [by intros [= <- _]|]. simpl.
  destruct (f (store w)) as [e'|[a d]]; [by intros [= <- _]|discriminate].
Qed.
Lemma fails_for_each {X} (l : list X) f : (forall x, fails_in (f x)) -> fails_in (for_each l f).
Proof. intros Hf. induction l; simpl; [apply fails_ret|by apply fails_bind]. Qed.
Lemma fails_tx {A} (body : M DB (exit A)) :
  (forall e, Q (ESql e)) -> fails_in body -> fails_in (tx body).
Proof.
  intros HQ Hb. unfold tx. apply fails_bind; [by apply fails_stmt|]. intros _ w e w'.
  destruct (body w) as [[e'|[a|a]] w1] eqn:E; [|destruct (failing w1); [|discriminate]|discriminate].
  - intros [= <- _]. by eapply Hb.
  - by intros [= <- _].
Qed.
End Fails.

Lemma fails_zoom {S DB A} (Q : err -> Prop) (get : S -> DB) put (m : M DB A) :
  fails_in Q m -> fails_in Q (zoom get put m).
Proof. intros Hm w e w' Hr. apply zoom_run in Hr as (v & v' & _ & _ & Hv & _). by eapply Hm. Qed.

(** Walks a program down to the errors it throws. *)
Ltac fails_walk :=
  repeat lazymatch goal with
  | |- fails_in _ (ret _) => apply fails_ret
  | |- fails_in _ (throw _) => apply fails_throw
  | |- fails_in _ now => apply fails_now
  | |- fails_in _ (guard _ _) => apply fails_guard
  | |- fails_in _ (bind _ _) => apply fails_bind; [|intros ?]
  | |- fails_in _ (catch _ _) => apply fails_catch; intros ?
  | |- fails_in _ (zoom _ _ _) => apply fails_zoom
  | |- fails_in _ (for_each _ _) => apply fails_for_each; intros ?
  | |- fails_in _ (tx _) => apply fails_tx
  | |- fails_in _ connect => apply fails_stmt
  | |- fails_in _ (query _) => apply fails_stmt
  | |- fails_in _ (query_row _) => apply fails_stmt
  | |- fails_in _ (insert_row _) => apply fails_stmt
  | |- fails_in _ (stmt _) => apply fails_stmt
  | |- fails_in _ (match ?x with _ => _ end) => destruct x eqn:?
  end.

(** ** Tables: lemmas *)

Section Tables.
Context {R : Type}.
Implicit Types (t : list R) (p q : R -> bool).

Lemma first_where_some p t r : first_where p t = Some r -> r ∈ t /\ p r = true.
Proof. intros H. apply find_some in H as [? ?]. split; [by apply list_elem_of_In|done]. Qed.

Lemma first_where_none p t r : first_where p t = None -> r ∈ t -> p r = false.
Proof. intros H Hin. apply list_elem_of_In in Hin. by apply (find_none p t H). Qed.

Lemma any_where_spec p t : any_where p t = true <-> exists r, r ∈ t /\ p r = true.
Proof.
  unfold any_where. rewrite existsb_exists.
  split; intros (r & ? & ?); exists r; by rewrite ?list_elem_of_In in *.
Qed.

Lemma any_where_false p t : any_where p t = false <-> forall r, r ∈ t -> p r = false.
Proof.
  split.
  - intros H r Hr. destruct (p r) eqn:E; [|done].
    assert (any_where p t = true) by (apply any_where_spec; eauto). congruence.
  - intros H. destruct (any_where p t) eqn:E; [|done].
    apply any_where_spec in E as (r & Hr & Hp). rewrite H in Hp; done.
Qed.

Lemma elem_of_rows_where p t r : r ∈ rows_where p t <-> r ∈ t /\ p r = true.
Proof. unfold rows_where. by rewrite !list_elem_of_In, filter_In. Qed.

Lemma elem_of_update_where p f t r :
  r ∈ update_where p f t <->
  (exists r0, r0 ∈ t /\ p r0 = true /\ r = f r0) \/ (r ∈ t /\ p r = false).
Proof.
  unfold update_where. rewrite list_elem_of_In, in_map_iff. split.
  - intros (r0 & H & Hin). apply list_elem_of_In in Hin.
    destruct (p r0) eqn:E; subst; eauto.
  - intros [(r0 & Hin & Hp & ->)|[Hin Hp]]; apply list_elem_of_In in Hin.
    + exists r0. by rewrite Hp.
    + exists r. by rewrite Hp.
Qed.

Lemma length_update_where p f t : length (update_where p f t) = length t.
Proof. unfold update_where. by rewrite length_map. Qed.

Lemma lookup_update_where p f t i r :
  t !! i = Some r -> update_where p f t !! i = Some (if p r then f r else r).
Proof.
  intros Hi. unfold update_where. revert i Hi.
  induction t as [|x t IH]; intros [|i] Hi; simpl in *; [done..|by injection Hi as ->|auto].
Qed.

Lemma first_where_app p t t' :
  first_where p (t ++ t') =
  match first_where p t with Some r => Some r | None => first_where p t' end.
Proof.
  unfold first_where. induction t as [|x t IH]; simpl; [done|]. by destruct (p x).
Qed.

Lemma rows_where_app p t t' : rows_where p (t ++ t') = rows_where p t ++ rows_where p t'.
Proof. apply List.filter_app. Qed.
Lemma rows_where_length p t : (length (rows_where p t) <= length t)%nat.
Proof using. apply filter_length_le. Qed.
#[export] Instance rows_where_perm p : Proper ((≡ₚ) ==> (≡ₚ)) (rows_where p).
Proof using.
  intros t t' Ht. induction Ht; unfold rows_where in *; simpl;
    [done|by destruct (p x); rewrite ?IHHt| |by etrans].
  destruct (p x), (p y); try done. apply perm_swap.
Qed.
Lemma rows_where_none p t : (forall r, r ∈ t -> p r = false) -> rows_where p t = [].
Proof.
  intros H. induction t as [|x t IH]; [done|]. unfold rows_where. simpl.
  rewrite (H x) by constructor. apply IH. intros r Hr. apply H. by constructor.
Qed.

Lemma update_where_none p f t :
  (forall r, r ∈ t -> p r = false) -> update_where p f t = t.
Proof.
  intros H. unfold update_where. rewrite <- (map_id t) at 2. apply map_ext_in.
  intros r Hr. rewrite H; [done|by apply list_elem_of_In].
Qed.

Lemma count_where_zero p t : count_where p t = 0 <-> forall r, r ∈ t -> p r = false.
Proof.
  unfold count_where. split.
  - intros H r Hr. destruct (p r) eqn:E; [|done].
    assert (In r (List.filter p t)) as Hf
      by (apply filter_In; by rewrite <- list_elem_of_In).
    destruct (List.filter p t); [by destruct Hf|simpl in H; lia].
  - intros H. induction t as [|r t IH]; [done|]. simpl.
    rewrite (H r) by constructor. apply IH. intros r' Hr'. apply H. by constructor.
Qed.

Lemma count_where_pos p t : 0 <= count_where p t.
Proof. unfold count_where. lia. Qed.

Lemma max_by_some (key : R -> Z) t r :
  max_by key t = Some r -> r ∈ t /\ forall r', r' ∈ t -> key r' <= key r.
Proof.
  revert r. induction t as [|x t IH]; intros r H; [discriminate|]. simpl in H.
  destruct (max_by key t) as [y|] eqn:E.
  - destruct (IH y eq_refl) as [Hy Hmax].
    destruct (key y >? key x) eqn:Hc; injection H as <-; split; try by constructor.
    all: intros r' Hr'; apply elem_of_cons in Hr' as [->|Hr'];
      try specialize (Hmax _ Hr'); lia.
  - injection H as <-. split; [constructor|]. intros r' Hr'.
    destruct t as [|z t]; [|simpl in E; destruct (max_by key t); [destruct (_ >? _)|]; discriminate].
    apply list_elem_of_singleton in Hr' as ->. lia.
Qed.

Lemma max_by_none (key : R -> Z) t : max_by key t = None <-> t = [].
Proof.
  split; [|by intros ->]. destruct t as [|x t]; [done|]. simpl.
  destruct (max_by key t); [destruct (_ >? _)|]; discriminate.
Qed.

Lemma max_of_ge (key : R -> Z) t r : r ∈ t -> key r <= max_of key t.
Proof. intros H. induction H; simpl; lia. Qed.

Lemma max_of_nonneg (key : R -> Z) t : 0 <= max_of key t.
Proof. induction t; simpl; lia. Qed.
End Tables.

(** *** Rows without an order

    A query without ORDER BY, or with ties in it, gives its rows in an order of
    the plan: QueryRow takes the first of them. *)
Class RowChoice := {
  choose : forall {A : Type}, list A -> option A;
  choose_elem : forall A (l : list A) x, choose l = Some x -> x ∈ l;
  choose_none : forall A (l : list A), choose l = None -> l = [];
}.
#[export] Instance first_row : RowChoice.
Proof.
  refine {| choose A l := head l |}.
  - intros A [|y l] x H; [done|]. injection H as ->. left.
  - by intros A [|y l].
Defined.

Lemma lookup_map {A B} (f : A -> B) (l : list A) i : List.map f l !! i = f <$> l !! i.
Proof. revert i. induction l as [|x l IH]; intros [|i]; simpl; auto. Qed.

(** ** Unique indexes

    [unique_on p key t]: no two rows of [t] that satisfy the index predicate
    [p] have the same key. *)

Section UniqueIndex.
Context {R K : Type} (keyb : K -> K -> bool)
  (keyb_spec : forall a b, keyb a b = true <-> a = b).
Implicit Types (p : R -> bool) (key : R -> K).

Fixpoint unique_on p key (t : list R) : bool :=
  match t with
  | [] => true
  | r :: t' =>
      (negb (p r) || negb (existsb (fun r' => p r' && keyb (key r) (key r')) t'))
      && unique_on p key t'
  end.

Definition clashes p key (t : list R) (r : R) : bool :=
  p r && existsb (fun r' => p r' && keyb (key r') (key r)) t.

(** Two rows of the index with one key are the same row. *)
Definition indexed p key (t : list R) : Prop :=
  forall i j r r', t !! i = Some r -> t !! j = Some r' ->
    p r = true -> p r' = true -> key r = key r' -> i = j.

Lemma unique_on_spec p key t : unique_on p key t = true <-> indexed p key t.
Proof using keyb_spec.
  unfold indexed. induction t as [|r t IH]; simpl.
  - split; [|done]. intros _ i j r r' Hi. by rewrite lookup_nil in Hi.
  - rewrite andb_true_iff, IH, orb_true_iff, !negb_true_iff. split.
    + intros [Hr Ht] i j a b Hi Hj Ha Hb Hk.
      assert (Hx : forall k c, t !! k = Some c -> p r = true -> p c = true -> key r = key c -> False).
      { intros k c Hkc Hpr Hpc Hkk. destruct Hr as [Hr|Hr]; [congruence|].
        assert (true = false); [|done]. rewrite <- Hr. symmetry. apply existsb_exists.
        exists c. split; [apply list_elem_of_In; by eapply list_elem_of_lookup_2|].
        rewrite Hpc. simpl. by apply keyb_spec. }
      destruct i as [|i], j as [|j]; simpl in *.
      * done.
      * injection Hi as ->. exfalso. eauto.
      * injection Hj as ->. exfalso. eauto.
      * f_equal. eauto.
    + intros H. split.
      * destruct (p r) eqn:Hpr; [right|by left].
        destruct (existsb _ t) eqn:E; [|done].
        apply existsb_exists in E as (c & Hin & Hc). b2p. destruct Hc as [Hpc Hk].
        apply keyb_spec in Hk. apply list_elem_of_In, list_elem_of_lookup_1 in Hin as [k Hin].
        specialize (H 0%nat (S k) r c eq_refl Hin Hpr Hpc Hk). discriminate.
      * intros i j a b Hi Hj Ha Hb Hk.
        specialize (H (S i) (S j) a b Hi Hj Ha Hb Hk). lia.
Qed.

Lemma clashes_false p key t r :
  clashes p key t r = false <->
  (p r = true -> forall r', r' ∈ t -> p r' = true -> key r' <> key r).
Proof using keyb_spec.
  unfold clashes. destruct (p r); simpl; [|split; [done|auto]].
  split.
  - intros H _ r' Hin Hp Hk. assert (true = false); [|done]. rewrite <- H. symmetry.
    apply existsb_exists. exists r'. split; [by apply list_elem_of_In|].
    rewrite Hp. simpl. by apply keyb_spec.
  - intros H. destruct (existsb _ t) eqn:E; [|done].
    apply existsb_exists in E as (c & Hin & Hc). b2p. destruct Hc as [Hpc Hk].
    apply keyb_spec in Hk. exfalso. apply (H eq_refl c); auto. by apply list_elem_of_In.
Qed.

Lemma indexed_add p key t r :
  indexed p key t -> (p r = true -> forall r', r' ∈ t -> p r' = true -> key r' <> key r) ->
  indexed p key (t ++ [r]).
Proof using.
  intros Ht Hr i j a b Hi Hj Ha Hb Hk.
  apply lookup_app_Some in Hi as [Hi|[Hli Hi]], Hj as [Hj|[Hlj Hj]].
  all: try (apply list_lookup_singleton_Some in Hi as [Hi <-]).
  all: try (apply list_lookup_singleton_Some in Hj as [Hj <-]).
  - eauto.
  - exfalso. eapply (Hr Hb a); eauto. by eapply list_elem_of_lookup_2.
  - exfalso. eapply (Hr Ha b); eauto. by eapply list_elem_of_lookup_2.
  - lia.
Qed.
Lemma indexed_snoc p key t r :
  indexed p key t -> clashes p key t r = false -> indexed p key (t ++ [r]).
Proof using keyb_spec. intros Ht Hc. apply indexed_add; [done|]. by apply clashes_false. Qed.

(** An update that moves rows neither into the index nor between keys. *)
Lemma indexed_update p key q f t :
  indexed p key t ->
  (forall r, r ∈ t -> q r = true -> p (f r) = true -> p r = true /\ key (f r) = key r) ->
  indexed p key (update_where q f t).
Proof using.
  intros Ht Hf i j a b Hi Hj Ha Hb Hk. unfold update_where in *.
  rewrite lookup_map in Hi, Hj.
  destruct (t !! i) as [a0|] eqn:Ei; [|discriminate].
  destruct (t !! j) as [b0|] eqn:Ej; [|discriminate].
  simpl in Hi, Hj. injection Hi as <-. injection Hj as <-.
  assert (Hx : forall k c, t !! k = Some c -> p (if q c then f c else c) = true ->
    p c = true /\ key (if q c then f c else c) = key c).
  { intros k c Hc Hp. destruct (q c) eqn:Hq; [|done].
    apply Hf; auto. by eapply list_elem_of_lookup_2. }
  destruct (Hx _ _ Ei Ha) as [Ha0 Hka], (Hx _ _ Ej Hb) as [Hb0 Hkb].
  eapply Ht; eauto. congruence.
Qed.

Lemma indexed_elem p key t r r' :
  indexed p key t -> r ∈ t -> r' ∈ t -> p r = true -> p r' = true -> key r = key r' -> r = r'.
Proof using.
  intros Ht Hr Hr' Hp Hp' Hk.
  apply list_elem_of_lookup_1 in Hr as [i Hi], Hr' as [j Hj].
  assert (i = j) as -> by (eapply Ht; eauto). congruence.
Qed.
End UniqueIndex.

(** Keys. *)
Definition pair_eqb {A B} (ea : A -> A -> bool) (eb : B -> B -> bool) (x y : A * B) : bool :=
  ea x.1 y.1 && eb x.2 y.2.

Lemma pair_eqb_spec {A B} (ea : A -> A -> bool) (eb : B -> B -> bool) :
  (forall a b, ea a b = true <-> a = b) -> (forall a b, eb a b = true <-> a = b) ->
  forall x y, pair_eqb ea eb x y = true <-> x = y.
Proof.
  intros Ha Hb [a b] [a' b']. unfold pair_eqb. simpl.
  rewrite andb_true_iff, Ha, Hb. split; [by intros [-> ->]|]. by intros [= -> ->].
Qed.

(** ** Runs without failures *)

Section NoFaults.
Context {DB : Type}.
Implicit Types (d : DB) (t : Z).

Lemma stmt_ok {A} (f : DB -> sqlerr + A * DB) d t :
  stmt f (MkWorld d [] t) =
  match f d with
  | inl e => (inl (ESql e), MkWorld d [] t)
  | inr (a, d') => (inr a, MkWorld d' [] t)
  end.
Proof. unfold stmt. simpl. by destruct (f d) as [e|[a d']]. Qed.
Lemma query_ok {A} (f : DB -> A) d t :
  query f (MkWorld d [] t) = (inr (f d), MkWorld d [] t).
Proof. done. Qed.
Lemma query_row_ok {A} (f : DB -> option A) d t :
  query_row f (MkWorld d [] t) =
  match f d with
  | Some a => (inr a, MkWorld d [] t)
  | None => (inl (ESql NoRows), MkWorld d [] t)
  end.
Proof. unfold query_row. rewrite stmt_ok. by destruct (f d). Qed.
Lemma exec_ok (f : DB -> DB) d t :
  exec f (MkWorld d [] t) = (inr tt, MkWorld (f d) [] t).
Proof. done. Qed.
Lemma exec_n_ok (f : DB -> Z * DB) d t :
  exec_n f (MkWorld d [] t) = (inr (f d).1, MkWorld (f d).2 [] t).
Proof. unfold exec_n. rewrite stmt_ok. by destruct (f d). Qed.
Lemma insert_row_ok (f : DB -> sqlerr + DB) d t :
  insert_row f (MkWorld d [] t) =
  match f d with
  | inl e => (inl (ESql e), MkWorld d [] t)
  | inr d' => (inr tt, MkWorld d' [] t)
  end.
Proof. unfold insert_row. rewrite stmt_ok. by destruct (f d). Qed.
Lemma tx_ok {A} (body : M DB (exit A)) d t :
  tx body (MkWorld d [] t) =
  match body (MkWorld d [] t) with
  | (inl e, w1) => (inl e, set_store d w1)
  | (inr (Rollback a), w1) => (inr a, set_store d w1)
  | (inr (Commit a), w1) =>
      if failing w1 then (inl (ESql Fault), set_store d (pop_fault w1))
      else (inr a, pop_fault w1)
  end.
Proof. done. Qed.
End NoFaults.

(** Runs a program statement by statement when nothing fails. *)
Ltac run_ok :=
  repeat first
    [ rewrite tx_ok | rewrite query_row_ok | rewrite query_ok | rewrite exec_ok
    | rewrite exec_n_ok | rewrite insert_row_ok | rewrite stmt_ok
    | progress (cbv beta iota delta [bind ret throw now guard when connect catch])
    | progress cbn [fst snd store faults clock set_store pop_fault failing hd tl] ].

(** A lookup after an update of columns it does not depend on. *)
Lemma first_where_update {R} (p q : R -> bool) f t :
  (forall r, p (f r) = p r) ->
  first_where p (update_where q f t) =
  (fun r => if q r then f r else r) <$> first_where p t.
Proof.
  intros Hf. unfold first_where, update_where. induction t as [|r t IH]; simpl; [done|].
  destruct (q r) eqn:Hq; rewrite ?Hf; destruct (p r) eqn:Hp; simpl; rewrite ?Hq; auto.
Qed.

Lemma indexed_map {R K} (p : R -> bool) (key : R -> K) (g : R -> R) t :
  indexed (fun r => p (g r)) (fun r => key (g r)) t -> indexed p key (List.map g t).
Proof.
  intros H i j a b Hi Hj Ha Hb Hk. rewrite lookup_map in Hi, Hj.
  destruct (t !! i) as [a0|] eqn:Ei; [|discriminate].
  destruct (t !! j) as [b0|] eqn:Ej; [|discriminate].
  injection Hi as <-. injection Hj as <-. eauto.
Qed.
