(* ===== verification/GoStd.v ===== *)
(** * The parts of Go's standard library the sources use

    [digestPattern] is the digest format two packages and four tables check.
    [Regex]: the regular expressions of the sources, as abstract syntax with a
    denotation ([lang]) and an executable matcher by derivatives, proved
    equal.  The matcher covers the two shapes in use: [^r$] ([match_full]) and
    an unanchored search ([match_string]), and a search anchored at the start
    ([match_prefix]).
    [Sha256]: [crypto/sha256.Sum256] and [hex.EncodeToString].
    [Int64]: two's-complement wrap-around of Go's [int64].
    [GoString]: [strings.TrimSpace], [HasPrefix], [TrimPrefix], [Split], ... *)

From S2P Require Import Prelude.
From stdpp Require Export pretty.
From Stdlib Require Export Ascii.
Open Scope string_scope.
Open Scope list_scope.
Open Scope Z_scope.
Open Scope saoaf_scope.

Definition bytes_of_string (s : string) : list ascii := String.list_ascii_of_string s.

(** ** Regular expressions *)

Module Regex.

Inductive re : Type :=
| RNone
| REps
| RSet (f : ascii -> bool)
| RSeq (r1 r2 : re)
| RAlt (r1 r2 : re)
| RStar (r : re).

Inductive lang : re -> list ascii -> Prop :=
| l_eps : lang REps []
| l_set f c : f c = true -> lang (RSet f) [c]
| l_seq r1 r2 s1 s2 : lang r1 s1 -> lang r2 s2 -> lang (RSeq r1 r2) (s1 ++ s2)
| l_alt_l r1 r2 s : lang r1 s -> lang (RAlt r1 r2) s
| l_alt_r r1 r2 s : lang r2 s -> lang (RAlt r1 r2) s
| l_star_nil r : lang (RStar r) []
| l_star_app r s1 s2 : lang r s1 -> lang (RStar r) s2 -> lang (RStar r) (s1 ++ s2).

#[local] Hint Constructors lang : core.

(** Constructors that drop the dead branches derivatives leave. *)
Definition seq (r1 r2 : re) : re :=
  match r1, r2 with
  | RNone, _ | _, RNone => RNone
  | REps, _ => r2
  | _, _ => RSeq r1 r2
  end.
Definition alt (r1 r2 : re) : re :=
  match r1, r2 with
  | RNone, _ => r2
  | _, RNone => r1
  | _, _ => RAlt r1 r2
  end.

Fixpoint nullable (r : re) : bool :=
  match r with
  | RNone | RSet _ => false
  | REps | RStar _ => true
  | RSeq r1 r2 => nullable r1 && nullable r2
  | RAlt r1 r2 => nullable r1 || nullable r2
  end.

Fixpoint deriv (c : ascii) (r : re) : re :=
  match r with
  | RNone | REps => RNone
  | RSet f => if f c then REps else RNone
  | RSeq r1 r2 =>
      if nullable r1 then alt (seq (deriv c r1) r2) (deriv c r2)
      else seq (deriv c r1) r2
  | RAlt r1 r2 => alt (deriv c r1) (deriv c r2)
  | RStar r1 => seq (deriv c r1) (RStar r1)
  end.

(** [^r$] *)
Fixpoint full (r : re) (s : list ascii) : bool :=
  match s with
  | [] => nullable r
  | c :: s' => full (deriv c r) s'
  end.
(** A prefix of [s] matches. *)
Fixpoint here (r : re) (s : list ascii) : bool :=
  nullable r || match s with
                | [] => false
                | c :: s' => here (deriv c r) s'
                end.
(** Some substring of [s] matches: [Regexp.MatchString]. *)
Fixpoint anywhere (r : re) (s : list ascii) : bool :=
  here r s || match s with
              | [] => false
              | _ :: s' => anywhere r s'
              end.

Definition match_full (r : re) (s : string) : bool := full r (bytes_of_string s).
Definition match_prefix (r : re) (s : string) : bool := here r (bytes_of_string s).
Definition match_string (r : re) (s : string) : bool := anywhere r (bytes_of_string s).

Lemma lang_none s : lang RNone s <-> False.
Proof. split; [inversion 1|done]. Qed.
Lemma lang_eps s : lang REps s <-> s = [].
Proof. split; [by inversion 1|by intros ->]. Qed.
Lemma lang_set f s : lang (RSet f) s <-> exists c, s = [c] /\ f c = true.
Proof. split; [inversion 1; eauto|by intros (c & -> & ?); auto]. Qed.
Lemma lang_alt r1 r2 s : lang (RAlt r1 r2) s <-> lang r1 s \/ lang r2 s.
Proof. split; [inversion 1; auto|intros [?|?]; auto]. Qed.
Lemma lang_seq r1 r2 s :
  lang (RSeq r1 r2) s <-> exists s1 s2, s = s1 ++ s2 /\ lang r1 s1 /\ lang r2 s2.
Proof. split; [inversion 1; eauto 6|intros (? & ? & -> & ? & ?); auto]. Qed.

Lemma lang_seq_smart r1 r2 s : lang (seq r1 r2) s <-> lang (RSeq r1 r2) s.
Proof.
  assert (Hr : forall r, lang (RSeq r RNone) s <-> lang RNone s).
  { intros r. rewrite lang_seq, lang_none. split; [|done].
    intros (? & ? & _ & _ & H). by apply lang_none in H. }
  assert (Hl : forall r, lang (RSeq RNone r) s <-> lang RNone s).
  { intros r. rewrite lang_seq, lang_none. split; [|done].
    intros (? & ? & _ & H & _). by apply lang_none in H. }
  assert (He : lang (RSeq REps r2) s <-> lang r2 s).
  { rewrite lang_seq. split.
    - intros (? & ? & -> & H & ?). apply lang_eps in H as ->. done.
    - intros. exists [], s. auto. }
  destruct r1, r2; simpl; rewrite ?Hl, ?Hr, ?He; done.
Qed.

Lemma lang_alt_smart r1 r2 s : lang (alt r1 r2) s <-> lang (RAlt r1 r2) s.
Proof. rewrite lang_alt. destruct r1, r2; simpl; rewrite ?lang_alt, ?lang_none; tauto. Qed.

Lemma nullable_spec r : nullable r = true <-> lang r [].
Proof.
  induction r as [| |f|r1 IH1 r2 IH2|r1 IH1 r2 IH2|r1 IH]; simpl.
  - by rewrite lang_none.
  - by rewrite lang_eps.
  - rewrite lang_set. split; [done|by intros (? & ? & _)].
  - rewrite andb_true_iff, IH1, IH2, lang_seq. split.
    + intros [? ?]. by exists [], [].
    + intros (s1 & s2 & H & ? & ?). symmetry in H. apply app_eq_nil in H as [-> ->]. done.
  - by rewrite orb_true_iff, IH1, IH2, lang_alt.
  - split; auto.
Qed.

Lemma lang_star_cons r c s :
  lang (RStar r) (c :: s) <->
  exists s1 s2, s = s1 ++ s2 /\ lang r (c :: s1) /\ lang (RStar r) s2.
Proof.
  split.
  - intros H. remember (RStar r) as r' eqn:Er. remember (c :: s) as s' eqn:Es.
    induction H as [| | | | | |r0 s1 s2 H1 _ H2 IH]; try discriminate.
    injection Er as ->. destruct s1 as [|c1 s1]; simpl in Es; [by apply IH|].
    injection Es as -> <-. eauto.
  - intros (s1 & s2 & -> & H1 & H2). change (c :: s1 ++ s2) with ((c :: s1) ++ s2). auto.
Qed.

Lemma deriv_spec c r s : lang (deriv c r) s <-> lang r (c :: s).
Proof.
  revert s. induction r as [| |f|r1 IH1 r2 IH2|r1 IH1 r2 IH2|r1 IH]; intros s; simpl.
  - by rewrite !lang_none.
  - by rewrite lang_none, lang_eps.
  - rewrite lang_set. destruct (f c) eqn:E.
    + rewrite lang_eps. split; [intros ->; eauto|intros (? & H & _); by injection H].
    + rewrite lang_none. split; [done|].
      intros (c' & H & Hf). injection H as <- ->. congruence.
  - assert (Hd : lang (RSeq (deriv c r1) r2) s <->
                 exists s1 s2, s = s1 ++ s2 /\ lang r1 (c :: s1) /\ lang r2 s2).
    { rewrite lang_seq. by setoid_rewrite IH1. }
    assert (Hs : lang (RSeq r1 r2) (c :: s) <->
                 (lang r1 [] /\ lang r2 (c :: s)) \/ lang (RSeq (deriv c r1) r2) s).
    { rewrite Hd, lang_seq. split.
      - intros ([|c1 s1] & s2 & H & H1 & H2); simpl in H.
        + subst. auto.
        + injection H as <- ->. eauto 6.
      - intros [[? ?]|(s1 & s2 & -> & ? & ?)]; [by exists [], (c :: s)|].
        by exists (c :: s1), s2. }
    rewrite Hs, <- nullable_spec, <- IH2. destruct (nullable r1).
    + rewrite lang_alt_smart, lang_alt, lang_seq_smart. tauto.
    + rewrite lang_seq_smart. split; [auto|intros [[? _]|?]; done].
  - by rewrite lang_alt_smart, !lang_alt, IH1, IH2.
  - rewrite lang_seq_smart, lang_star_cons, lang_seq. by setoid_rewrite IH.
Qed.

Lemma full_spec r s : full r s = true <-> lang r s.
Proof.
  revert r. induction s as [|c s IH]; intros r; simpl.
  - apply nullable_spec.
  - by rewrite IH, deriv_spec.
Qed.

Lemma here_spec r s : here r s = true <-> exists s1 s2, s = s1 ++ s2 /\ lang r s1.
Proof.
  revert r. induction s as [|c s IH]; intros r; simpl; rewrite orb_true_iff, nullable_spec.
  - split; [intros [?|?]; [by exists [], []|done]|].
    intros (s1 & s2 & H & ?). symmetry in H. apply app_eq_nil in H as [-> ->]. auto.
  - rewrite IH. setoid_rewrite deriv_spec. split.
    + intros [?|(s1 & s2 & -> & ?)]; [by exists [], (c :: s)|by exists (c :: s1), s2].
    + intros ([|c1 s1] & s2 & H & ?); simpl in H; [auto|].
      injection H as <- ->. eauto.
Qed.

Lemma anywhere_spec r s :
  anywhere r s = true <-> exists s0 s1 s2, s = s0 ++ s1 ++ s2 /\ lang r s1.
Proof.
  induction s as [|c s IH]; simpl; rewrite orb_true_iff.
  - assert (Hn : here r [] = true <-> lang r []).
    { rewrite here_spec. split.
      - intros (s1 & s2 & H & ?). symmetry in H. by apply app_eq_nil in H as [-> _].
      - intros. by exists [], []. }
    change (nullable r || false) with (here r []). rewrite Hn. split.
    + intros [?|?]; [by exists [], [], []|done].
    + intros (s0 & s1 & s2 & H & ?). symmetry in H.
      apply app_eq_nil in H as [_ H]. apply app_eq_nil in H as [-> _]. auto.
  - rewrite IH. change (nullable r || here (deriv c r) s) with (here r (c :: s)).
    rewrite here_spec. split.
    + intros [(s1 & s2 & H & ?)|(s0 & s1 & s2 & -> & ?)].
      * exists [], s1, s2. by rewrite H.
      * by exists (c :: s0), s1, s2.
    + intros ([|c0 s0] & s1 & s2 & H & ?); simpl in H; [eauto|].
      injection H as <- ->. right. eauto.
Qed.

(** *** Building expressions *)

Definition char (c : ascii) : re := RSet (fun x => Ascii.eqb x c).
Fixpoint word (s : string) : re :=
  match s with
  | EmptyString => REps
  | String c s' => RSeq (char c) (word s')
  end.
Fixpoint alts (rs : list re) : re :=
  match rs with
  | [] => RNone
  | [r] => r
  | r :: rs' => RAlt r (alts rs')
  end.
Definition opt (r : re) : re := RAlt REps r.
Definition plus (r : re) : re := RSeq r (RStar r).
Fixpoint times (n : nat) (r : re) : re :=
  match n with
  | O => REps
  | S n' => RSeq r (times n' r)
  end.
(** [r{0,n}] *)
Fixpoint up_to (n : nat) (r : re) : re :=
  match n with
  | O => REps
  | S n' => opt (RSeq r (up_to n' r))
  end.
Definition is_in (s : string) (c : ascii) : bool :=
  existsb (Ascii.eqb c) (bytes_of_string s).
Definition one_of (s : string) : re := RSet (is_in s).
Definition in_range (lo hi : ascii) (c : ascii) : bool :=
  (N_of_ascii lo <=? N_of_ascii c)%N && (N_of_ascii c <=? N_of_ascii hi)%N.
Definition between (lo hi : ascii) : re := RSet (in_range lo hi).
Definition digit : ascii -> bool := in_range "0" "9".
Definition lower_alpha : ascii -> bool := in_range "a" "z".
Definition hex_lower (c : ascii) : bool := digit c || in_range "a" "f" c.

(** [(?i)]: case folding is Unicode's, so [s] also matches U+017F and [k]
    U+212A. *)
Definition fold_letter (c : ascii) : re :=
  let up := if lower_alpha c then ascii_of_N (N_of_ascii c - 32) else c in
  alts
    ([char c; char up] ++
     (if Ascii.eqb c "s" then [word (String "197" (String "191" ""))] else []) ++
     (if Ascii.eqb c "k" then [word (String "226" (String "132" (String "170" "")))] else [])).
Fixpoint fold_word (s : string) : re :=
  match s with
  | EmptyString => REps
  | String c s' => RSeq (fold_letter c) (fold_word s')
  end.

Lemma lang_word s l : lang (word s) l <-> l = bytes_of_string s.
Proof.
  revert l. induction s as [|c s IH]; intros l; simpl; [by rewrite lang_eps|].
  rewrite lang_seq. unfold char. setoid_rewrite lang_set. setoid_rewrite IH. split.
  - intros (? & ? & -> & (c' & -> & Hc) & ->). apply Ascii.eqb_eq in Hc as ->. done.
  - intros ->. exists [c], (bytes_of_string s). repeat split; auto.
    exists c. by rewrite Ascii.eqb_refl.
Qed.

Lemma lang_times_set n f l :
  lang (times n (RSet f)) l <-> length l = n /\ Forall (fun c => f c = true) l.
Proof.
  revert l. induction n as [|n IH]; intros l; simpl.
  - rewrite lang_eps. split; [by intros ->|]. intros [? _]. by apply nil_length_inv.
  - rewrite lang_seq. setoid_rewrite lang_set. setoid_rewrite IH. split.
    + intros (? & l2 & -> & (c & -> & Hc) & <- & Hl). split; [done|]. by constructor.
    + intros [Hl Hf]. destruct l as [|c l]; [done|]. inversion Hf; subst.
      exists [c], l. repeat split; eauto.
Qed.
End Regex.

(** ** Bytes of a string as numbers, hexadecimal *)

Definition byte_val (c : ascii) : Z := Z.of_N (N_of_ascii c).
Definition bytes_val (s : string) : list Z := map byte_val (bytes_of_string s).

Definition hexdigit (n : Z) : ascii :=
  ascii_of_N (Z.to_N (if n <? 10 then 48 + n else 87 + n)).

Lemma hexdigit_hex n : 0 <= n < 16 -> Regex.hex_lower (hexdigit n) = true.
Proof.
  intros H. assert (E : exists k, (k < 16)%nat /\ n = Z.of_nat k).
  { exists (Z.to_nat n). lia. }
  destruct E as (k & Hk & ->). clear H. revert k Hk.
  refine (fun k => _). do 16 (destruct k as [|k]; [reflexivity|]). intros Hk. lia.
Qed.

(** ** crypto/sha256 *)

Module Sha256.

Definition mask (z : Z) : Z := Z.land z 4294967295.
Definition add (a b : Z) : Z := mask (a + b).
Definition rotr (n x : Z) : Z :=
  Z.lor (Z.shiftr x n) (mask (Z.shiftl x (32 - n))).
Definition not32 (x : Z) : Z := Z.lxor x 4294967295.
Definition ch (x y z : Z) : Z := Z.lxor (Z.land x y) (Z.land (not32 x) z).
Definition maj (x y z : Z) : Z :=
  Z.lxor (Z.lxor (Z.land x y) (Z.land x z)) (Z.land y z).
Definition bsig0 x := Z.lxor (Z.lxor (rotr 2 x) (rotr 13 x)) (rotr 22 x).
Definition bsig1 x := Z.lxor (Z.lxor (rotr 6 x) (rotr 11 x)) (rotr 25 x).
Definition ssig0 x := Z.lxor (Z.lxor (rotr 7 x) (rotr 18 x)) (Z.shiftr x 3).
Definition ssig1 x := Z.lxor (Z.lxor (rotr 17 x) (rotr 19 x)) (Z.shiftr x 10).

(** The constants: the first 32 fractional bits of the cube roots (of the
    square roots, for the initial state) of the first primes. *)
Definition is_prime (n : Z) : bool :=
  forallb (fun d => negb (n mod d =? 0)) (map Z.of_nat (List.seq 2 (Z.to_nat n - 2))).
Definition first_primes : list Z :=
  List.filter is_prime (map Z.of_nat (List.seq 2 310)).
(** The largest [r < 2^bits] with [r^3 <= n]. *)
Fixpoint cube_root (bits : nat) (r n : Z) : Z :=
  match bits with
  | O => r
  | S b => let r' := r + 2 ^ Z.of_nat b in cube_root b (if r' ^ 3 <=? n then r' else r) n
  end.
Definition K : list Z :=
  Eval vm_compute in map (fun p => mask (cube_root 36 0 (p * 2 ^ 96))) first_primes.
Definition initial : list Z :=
  Eval vm_compute in map (fun p => mask (Z.sqrt (p * 2 ^ 64))) (firstn 8 first_primes).

Record regs : Type := Regs { ra : Z; rb : Z; rc : Z; rd : Z; re : Z; rf : Z; rg : Z; rh : Z }.
Definition H0 : regs :=
  match initial with
  | [a; b; c; d; e; f; g; h] => Regs a b c d e f g h
  | _ => Regs 0 0 0 0 0 0 0 0
  end.

Definition round (s : regs) (kw : Z * Z) : regs :=
  let t1 := add (add (rh s) (bsig1 (re s)))
                (add (ch (re s) (rf s) (rg s)) (add kw.1 kw.2)) in
  let t2 := add (bsig0 (ra s)) (maj (ra s) (rb s) (rc s)) in
  Regs (add t1 t2) (ra s) (rb s) (rc s) (add (rd s) t1) (re s) (rf s) (rg s).

Definition at_ (l : list Z) (i : nat) : Z := nth i l 0.
(** The message schedule, newest word first. *)
Fixpoint extend (n : nat) (w : list Z) : list Z :=
  match n with
  | O => w
  | S n' => extend n' (add (add (ssig1 (at_ w 1)) (at_ w 6))
                           (add (ssig0 (at_ w 14)) (at_ w 15)) :: w)
  end.
Definition schedule (ws : list Z) : list Z := rev (extend 48 (rev ws)).

Definition block (s : regs) (ws : list Z) : regs :=
  let t := fold_left round (combine K (schedule ws)) s in
  Regs (add (ra s) (ra t)) (add (rb s) (rb t)) (add (rc s) (rc t)) (add (rd s) (rd t))
       (add (re s) (re t)) (add (rf s) (rf t)) (add (rg s) (rg t)) (add (rh s) (rh t)).

Definition be64 (n : Z) : list Z :=
  map (fun i => Z.land (Z.shiftr n (8 * i)) 255) [7; 6; 5; 4; 3; 2; 1; 0].
Definition pad (bs : list Z) : list Z :=
  let n := Z.of_nat (length bs) in
  bs ++ [128] ++ repeat 0 (Z.to_nat ((55 - n) mod 64)) ++ be64 (8 * n).
Fixpoint words (bs : list Z) : list Z :=
  match bs with
  | a :: b :: c :: d :: bs' =>
      Z.lor (Z.lor (Z.shiftl a 24) (Z.shiftl b 16)) (Z.lor (Z.shiftl c 8) d) :: words bs'
  | _ => []
  end.
Fixpoint blocks (fuel : nat) (s : regs) (ws : list Z) : regs :=
  match fuel, ws with
  | S fuel', _ :: _ => blocks fuel' (block s (take 16 ws)) (drop 16 ws)
  | _, _ => s
  end.
Definition sum256 (bs : list Z) : regs :=
  let ws := words (pad bs) in blocks (length ws) H0 ws.

(** The state is eight words of 32 bits. *)
Definition word32 (z : Z) : Prop := 0 <= z < 2 ^ 32.
Definition regs32 (s : regs) : Prop :=
  Forall word32 [ra s; rb s; rc s; rd s; re s; rf s; rg s; rh s].
Lemma add_word32 a b : word32 (add a b).
Proof.
  unfold word32, add, mask. change 4294967295 with (Z.ones 32). rewrite Z.land_ones by lia.
  by apply Z.mod_pos_bound.
Qed.
Lemma blocks_regs32 fuel s ws : regs32 s -> regs32 (blocks fuel s ws).
Proof.
  revert s ws. induction fuel as [|fuel IH]; intros s [|w ws] Hs; [done..|].
  apply IH. repeat constructor; apply add_word32.
Qed.
Lemma sum256_regs32 bs : regs32 (sum256 bs).
Proof.
  apply blocks_regs32. apply Forall_forall. intros z Hz.
  assert (H : forallb (fun z => (0 <=? z) && (z <? 2 ^ 32))
                [ra H0; rb H0; rc H0; rd H0; re H0; rf H0; rg H0; rh H0] = true) by (vm_compute; reflexivity).
  rewrite forallb_forall in H. apply list_elem_of_In, H in Hz. unfold word32. b2p. lia.
Qed.

Definition hex32 (x : Z) : string :=
  String.string_of_list_ascii
    (map (fun i => hexdigit (Z.land (Z.shiftr x (4 * i)) 15)) [7; 6; 5; 4; 3; 2; 1; 0]).
Definition hex_regs (s : regs) : string :=
  hex32 (ra s) +:+ hex32 (rb s) +:+ hex32 (rc s) +:+ hex32 (rd s) +:+
  hex32 (re s) +:+ hex32 (rf s) +:+ hex32 (rg s) +:+ hex32 (rh s).

(** [sum := sha256.Sum256([]byte(s)); hex.EncodeToString(sum[:])] *)
Definition sha256_hex (s : string) : string := hex_regs (sum256 (bytes_val s)).

Example sha256_empty :
  sha256_hex "" = "e3b0c44298fc1c149afbf4c8996fb92427ae41e4649b934ca495991b7852b855".
Proof. vm_compute. reflexivity. Qed.
Example sha256_abc :
  sha256_hex "abc" = "ba7816bf8f01cfea414140de5dae2223b00361a396177a9cb410ff61f20015ad".
Proof. vm_compute. reflexivity. Qed.
Example sha256_two_blocks :
  sha256_hex "abcdbcdecdefdefgefghfghighijhijkijkljklmklmnlmnomnopnopq" =
  "248d6a61d20638b8e5c026930c3e6039a33ce45964ff2167f6ecedd419db06c1".
Proof. vm_compute. reflexivity. Qed.

(** Every digest is 64 lower-case hexadecimal digits. *)
Lemma bytes_of_app a b : bytes_of_string (a +:+ b) = bytes_of_string a ++ bytes_of_string b.
Proof. induction a as [|c a IH]; simpl; [done|]. by rewrite IH. Qed.
Lemma bytes_of_list l : bytes_of_string (String.string_of_list_ascii l) = l.
Proof. apply String.list_ascii_of_string_of_list_ascii. Qed.

Lemma hex32_hex x :
  length (bytes_of_string (hex32 x)) = 8%nat /\
  Forall (fun c => Regex.hex_lower c = true) (bytes_of_string (hex32 x)).
Proof.
  unfold hex32. rewrite bytes_of_list. split; [done|].
  apply Forall_map, Forall_true. intros i. apply hexdigit_hex.
  change 15 with (Z.ones 4). rewrite Z.land_ones by lia. apply Z.mod_pos_bound. lia.
Qed.

Lemma sha256_hex_digits s :
  length (bytes_of_string (sha256_hex s)) = 64%nat /\
  Forall (fun c => Regex.hex_lower c = true) (bytes_of_string (sha256_hex s)).
Proof.
  unfold sha256_hex, hex_regs. rewrite !bytes_of_app, !length_app, !Forall_app.
  repeat match goal with |- context [hex32 ?x] =>
    let H := fresh in let F := fresh in
    destruct (hex32_hex x) as [H F]; rewrite ?H; revert F; generalize (hex32 x); intros ? ?
  end. auto 20.
Qed.
End Sha256.
Export Sha256 (sha256_hex).
#[global] Opaque sha256_hex.

(** ["sha256:" + hex.EncodeToString(sum[:])] *)
Definition sha256_digest (s : string) : string := "sha256:" +:+ sha256_hex s.

Lemma append_inj_l p a b : p +:+ a = p +:+ b -> a = b.
Proof. induction p as [|c p IH]; simpl; [done|]. intros H. injection H as H. auto. Qed.

Lemma sha256_digest_inj a b : sha256_digest a = sha256_digest b -> sha256_hex a = sha256_hex b.
Proof. apply append_inj_l. Qed.

(** [^sha256:[0-9a-f]{64}$] *)
Definition digestPattern : Regex.re :=
  Regex.RSeq (Regex.word "sha256:") (Regex.times 64 (Regex.RSet Regex.hex_lower)).

Lemma digestPattern_spec s :
  Regex.match_full digestPattern s = true <->
  exists h, s = "sha256:" +:+ h /\ String.length h = 64%nat /\
            Forall (fun c => Regex.hex_lower c = true) (bytes_of_string h).
Proof.
  unfold Regex.match_full. rewrite Regex.full_spec. unfold digestPattern.
  rewrite Regex.lang_seq. setoid_rewrite Regex.lang_word. setoid_rewrite Regex.lang_times_set.
  assert (Hlen : forall h, length (bytes_of_string h) = String.length h).
  { induction h as [|c h IH]; simpl; auto. }
  split.
  - intros (s1 & s2 & H & -> & Hl & Hf). exists (String.string_of_list_ascii s2).
    split; [|rewrite <- Hlen, Sha256.bytes_of_list; done].
    apply (f_equal String.string_of_list_ascii) in H.
    unfold bytes_of_string at 1 in H. rewrite String.string_of_list_ascii_of_string in H.
    rewrite H. clear. generalize "sha256:" as p. intros p.
    induction p as [|c p IH]; [done|]. exact (f_equal (String c) IH).
  - intros (h & -> & Hl & Hf). exists (bytes_of_string "sha256:"), (bytes_of_string h).
    rewrite Sha256.bytes_of_app, Hlen. done.
Qed.

Lemma sha256_digest_matches s : Regex.match_full digestPattern (sha256_digest s) = true.
Proof.
  apply digestPattern_spec. exists (sha256_hex s). split; [done|].
  destruct (Sha256.sha256_hex_digits s) as [H ?]. split; [|done]. rewrite <- H.
  generalize (sha256_hex s) as h. induction h as [|c h IH]; simpl; auto.
Qed.

(** ** int64 *)

Module Int64.
Definition min : Z := - 2 ^ 63.
Definition max : Z := 2 ^ 63 - 1.
Definition wrap (z : Z) : Z := (z + 2 ^ 63) mod 2 ^ 64 - 2 ^ 63.
Definition fits (z : Z) : bool := (min <=? z) && (z <=? max).

Lemma wrap_id z : min <= z <= max -> wrap z = z.
Proof. unfold wrap, min, max. intros H. rewrite Z.mod_small; lia. Qed.
Lemma wrap_fits z : min <= wrap z <= max.
Proof.
  unfold wrap, min, max. pose proof (Z.mod_pos_bound (z + 2 ^ 63) (2 ^ 64) ltac:(lia)). lia.
Qed.
End Int64.

(** ** Package strings *)

Module GoString.
Definition len (s : string) : Z := Z.of_nat (String.length s).

Fixpoint has_prefix (s p : string) {struct p} : bool :=
  match p, s with
  | EmptyString, _ => true
  | String a p', String b s' => Ascii.eqb a b && has_prefix s' p'
  | _, _ => false
  end.
Fixpoint drop (n : nat) (s : string) : string :=
  match n, s with
  | S n', String _ s' => drop n' s'
  | _, _ => s
  end.
Definition trim_prefix (s p : string) : string :=
  if has_prefix s p then drop (String.length p) s else s.

(** [strings.Contains] *)
Fixpoint contains (s sub : string) {struct s} : bool :=
  has_prefix s sub || match s with
                      | EmptyString => false
                      | String _ s' => contains s' sub
                      end.

(** [strings.Split(s, string(sep))] for a one-byte separator. *)
Fixpoint split_at (sep : ascii) (s : string) : list string :=
  match s with
  | EmptyString => [EmptyString]
  | String c s' =>
      if Ascii.eqb c sep then EmptyString :: split_at sep s'
      else match split_at sep s' with
           | w :: ws => String c w :: ws
           | [] => [String c EmptyString]
           end
  end.
(** [strings.Join] *)
Definition join (sep : string) (l : list string) : string := String.concat sep l.

(** [unicode.IsSpace] on the bytes of ASCII. *)
Definition is_space (c : ascii) : bool :=
  existsb (fun n => Nat.eqb (nat_of_ascii c) n) [9; 10; 11; 12; 13; 32]%nat.
Fixpoint trim_left (s : string) : string :=
  match s with
  | String c s' => if is_space c then trim_left s' else s
  | EmptyString => s
  end.
Definition rev_string (s : string) : string :=
  String.string_of_list_ascii (rev (bytes_of_string s)).
(** [strings.TrimSpace], for the ASCII white space. *)
Definition trim_space (s : string) : string :=
  rev_string (trim_left (rev_string (trim_left s))).

Lemma has_prefix_spec s p : has_prefix s p = true <-> exists t, s = p +:+ t.
Proof.
  revert s. induction p as [|a p IH]; intros s; simpl.
  - split; [intros _; by exists s|done].
  - destruct s as [|b s]; simpl.
    + split; [done|]. intros [t H]. discriminate.
    + rewrite andb_true_iff, Ascii.eqb_eq, IH. split.
      * intros [-> [t ->]]. by exists t.
      * intros [t H]. injection H as -> ->. eauto.
Qed.

Lemma drop_app p t : drop (String.length p) (p +:+ t) = t.
Proof. induction p as [|a p IH]; simpl; [by destruct t|done]. Qed.

Lemma trim_prefix_app p t : trim_prefix (p +:+ t) p = t.
Proof.
  unfold trim_prefix. replace (has_prefix (p +:+ t) p) with true.
  - apply drop_app.
  - symmetry. apply has_prefix_spec. by exists t.
Qed.
End GoString.

(** ** JSON values, as encoding/json decodes into [any] or keeps in jsonb *)

#[warnings="-register-all,-automation"]
Inductive json : Type :=
| JNull
| JBool (b : bool)
| JNum (lit : string)
| JStr (s : string)
| JArr (l : list json)
| JObj (fields : list (string * json)).
