(* ===== verification/GoJson.v ===== *)
(** * encoding/json

    [marshal] is [json.Marshal] on the values the sources encode: strings are
    escaped as [encoding/json] escapes them (quote, backslash, control bytes,
    [<], [>], [&], U+2028, U+2029; a byte that is not UTF-8 becomes the escape
    of U+FFFD), objects print their fields in the order given (a struct's
    field order, a map's sorted keys).  [marshal_inj]: on values whose strings
    are UTF-8 and whose number literals are numbers, equal encodings come from
    equal values, so a digest of the encoding identifies the value up to a
    collision of the hash. *)

From S2P Require Import Prelude GoStd.

Definition chars := list ascii.

(** ** UTF-8 *)

Definition cont (c : ascii) : bool := Regex.in_range "128" "191" c.
Definition in_b (lo hi : Z) (c : ascii) : bool := (lo <=? byte_val c) && (byte_val c <=? hi).

(** Length of the UTF-8 sequence [s] starts with, 0 when it is not one
    ([utf8.DecodeRune]). *)
Definition utf8_len (s : chars) : nat :=
  match s with
  | [] => 0
  | a :: t =>
      if in_b 0 127 a then 1
      else match t with
      | b :: t2 =>
          if in_b 194 223 a && cont b then 2
          else match t2 with
          | c :: t3 =>
              if ((in_b 224 224 a && in_b 160 191 b) || (in_b 225 236 a && cont b) ||
                  (in_b 237 237 a && in_b 128 159 b) || (in_b 238 239 a && cont b)) && cont c
              then 3
              else match t3 with
              | d :: _ =>
                  if ((in_b 240 240 a && in_b 144 191 b) || (in_b 241 243 a && cont b) ||
                      (in_b 244 244 a && in_b 128 143 b)) && cont c && cont d
                  then 4 else 0
              | [] => 0
              end
          | [] => 0
          end
      | [] => 0
      end
  end%nat.

(** The runes of a string; [None] is a byte that starts no UTF-8 sequence. *)
Fixpoint runes (fuel : nat) (s : chars) : list (option chars) :=
  match fuel, s with
  | S fuel', _ :: s' =>
      match utf8_len s with
      | O => None :: runes fuel' s'
      | n => Some (take n s) :: runes fuel' (drop n s)
      end
  | _, _ => []
  end.
Definition runes_of (s : string) : list (option chars) :=
  let cs := bytes_of_string s in runes (length cs) cs.
Definition valid_utf8 (s : string) : bool :=
  forallb (fun r => match r with Some _ => true | None => false end) (runes_of s).

(** ** Strings *)

Definition txt (s : string) : chars := bytes_of_string s.
Definition esc_byte (c : ascii) : chars :=
  if Ascii.eqb c "034" then txt "\" ++ [c]
  else if Ascii.eqb c "\" then txt "\\"
  else if Ascii.eqb c "008" then txt "\b"
  else if Ascii.eqb c "012" then txt "\f"
  else if Ascii.eqb c "010" then txt "\n"
  else if Ascii.eqb c "013" then txt "\r"
  else if Ascii.eqb c "009" then txt "\t"
  else if (byte_val c <? 32) || Regex.is_in "<>&" c
  then txt "\u00" ++ [hexdigit (Z.shiftr (byte_val c) 4); hexdigit (Z.land (byte_val c) 15)]
  else [c].
Definition esc_rune (r : option chars) : chars :=
  match r with
  | None => txt "\ufffd"
  | Some [c] => esc_byte c
  | Some cs =>
      if bool_decide (cs = ["226"; "128"; "168"]%char) then txt "\u2028"
      else if bool_decide (cs = ["226"; "128"; "169"]%char) then txt "\u2029"
      else cs
  end.
Definition quote : chars := ["034"%char].
Definition enc_string (s : string) : chars :=
  quote ++ concat (map esc_rune (runes_of s)) ++ quote.

(** ** Values *)

(** Items printed one after the other with commas between. *)
Definition commas {X} (f : X -> chars) : list X -> chars :=
  fix go l := match l with
              | [] => []
              | [x] => f x
              | x :: l' => f x ++ txt "," ++ go l'
              end.
Fixpoint enc (j : json) : chars :=
  match j with
  | JNull => txt "null"
  | JBool b => txt (if b then "true" else "false")
  | JNum lit => txt lit
  | JStr s => enc_string s
  | JArr l => txt "[" ++ commas enc l ++ txt "]"
  | JObj fs =>
      txt "{" ++ commas (fun kv => enc_string kv.1 ++ txt ":" ++ enc kv.2) fs ++ txt "}"
  end.
Definition marshal (j : json) : string := String.string_of_list_ascii (enc j).

(** [[]string]: nil prints as [null], an allocated slice as a list. *)
Definition jstrings (l : list string) : json := JArr (map JStr l).
Definition jstrings_nil (l : list string) : json :=
  match l with [] => JNull | _ => jstrings l end.
(** An [int] in decimal. *)
Definition dec (z : Z) : string := pretty z.

(** ** Encoding is injective *)

(** Reads back one string body up to its closing quote. *)
Definition unescape (c : ascii) : option ascii :=
  if Ascii.eqb c "b" then Some "008"%char else if Ascii.eqb c "f" then Some "012"%char
  else if Ascii.eqb c "n" then Some "010"%char else if Ascii.eqb c "r" then Some "013"%char
  else if Ascii.eqb c "t" then Some "009"%char else Some c.
Definition unhex (c : ascii) : Z := if Regex.digit c then byte_val c - 48 else byte_val c - 87.
Definition cons_bytes (cs : chars) (r : option (chars * chars)) : option (chars * chars) :=
  match r with Some (x, t) => Some (cs ++ x, t) | None => None end.
Fixpoint unquote (s : chars) : option (chars * chars) :=
  match s with
  | [] => None
  | c :: s1 =>
      if Ascii.eqb c "034" then Some ([], s1)
      else if Ascii.eqb c "\" then
        match s1 with
        | [] => None
        | e :: s2 =>
            if Ascii.eqb e "u" then
              match s2 with
              | h1 :: h2 :: h3 :: h4 :: s3 =>
                  if Ascii.eqb h1 "2"
                  then cons_bytes ["226"; "128"; if Ascii.eqb h4 "8" then "168" else "169"]%char
                                  (unquote s3)
                  else cons_bytes [ascii_of_N (Z.to_N (16 * unhex h3 + unhex h4))] (unquote s3)
              | _ => None
              end
            else match unescape e with
                 | Some c' => cons_bytes [c'] (unquote s2)
                 | None => None
                 end
        end
      else cons_bytes [c] (unquote s1)
  end.

Lemma unquote_byte c t :
  (byte_val c <? 128) = true -> unquote (esc_byte c ++ t) = cons_bytes [c] (unquote t).
Proof.
  intros H. destruct c as [[] [] [] [] [] [] [] []]; try discriminate H; reflexivity.
Qed.

Lemma unquote_raw cs t :
  Forall (fun c => (128 <=? byte_val c) = true) cs ->
  unquote (cs ++ t) = cons_bytes cs (unquote t).
Proof.
  induction 1 as [|c cs Hc Hcs IH].
  - simpl. by destruct (unquote t) as [[]|].
  - simpl.
    replace (Ascii.eqb c "034") with false.
    2:{ symmetry. destruct (Ascii.eqb_spec c "034"); [subst; discriminate Hc|done]. }
    replace (Ascii.eqb c "\") with false.
    2:{ symmetry. destruct (Ascii.eqb_spec c "\"); [subst; discriminate Hc|done]. }
    rewrite IH. by destruct (unquote t) as [[]|].
Qed.

(** A rune is one ASCII byte or bytes above 127. *)
Lemma utf8_rune s n :
  utf8_len s = S n ->
  (exists c, take (S n) s = [c] /\ (byte_val c <? 128) = true) \/
  ((2 <= length (take (S n) s))%nat /\
   Forall (fun c => (128 <=? byte_val c) = true) (take (S n) s)).
Proof.
  assert (Hin : forall lo hi c, in_b lo hi c = true -> lo <= byte_val c <= hi).
  { unfold in_b. intros. b2p. lia. }
  assert (Hc : forall c, cont c = true -> 128 <= byte_val c).
  { unfold cont, Regex.in_range, byte_val. intros c H. apply andb_true_iff in H as [H _].
    apply N.leb_le in H. change (N_of_ascii "128") with 128%N in H. lia. }
  assert (Hb : forall c, 128 <= byte_val c -> (128 <=? byte_val c) = true).
  { intros. by apply Z.leb_le. }
  unfold utf8_len. destruct s as [|a t]; [discriminate|].
  destruct (in_b 0 127 a) eqn:Ha.
  { intros H. injection H as <-. left. exists a. apply Hin in Ha. split; [done|lia]. }
  intros H. right. revert H.
  destruct t as [|b t2]; [discriminate|].
  destruct (in_b 194 223 a && cont b) eqn:E2.
  { intros H. injection H as <-. apply andb_true_iff in E2 as [E1 E2].
    apply Hin in E1. apply Hc in E2. simpl. split; [lia|].
    repeat constructor; apply Hb; lia. }
  destruct t2 as [|c t3]; [discriminate|].
  match goal with |- context [if ?x then 3%nat else _] => destruct x eqn:E3 end.
  { intros H. injection H as <-. simpl. split; [lia|]. b2p.
    assert (Hab : 128 <= byte_val a /\ 128 <= byte_val b).
    { destruct E3 as [[[[[]|[]]|[]]|[]] _];
        repeat match goal with
        | H : in_b _ _ _ = true |- _ => apply Hin in H
        | H : cont _ = true |- _ => apply Hc in H
        end; lia. }
    destruct E3 as [_ E3]. apply Hc in E3. repeat constructor; apply Hb; lia. }
  destruct t3 as [|d t4]; [discriminate|].
  match goal with |- context [if ?x then 4%nat else _] => destruct x eqn:E4 end; [|discriminate].
  intros H. injection H as <-. simpl. split; [lia|]. b2p.
  assert (Hab : 128 <= byte_val a /\ 128 <= byte_val b).
  { destruct E4 as [[[[[]|[]]|[]] _] _];
      repeat match goal with
      | H : in_b _ _ _ = true |- _ => apply Hin in H
      | H : cont _ = true |- _ => apply Hc in H
      end; lia. }
  destruct E4 as [[_ E4] E5]. apply Hc in E4. apply Hc in E5. repeat constructor; apply Hb; lia.
Qed.

Lemma unquote_rune cs t :
  (2 <= length cs)%nat -> Forall (fun c => (128 <=? byte_val c) = true) cs ->
  unquote (esc_rune (Some cs) ++ t) = cons_bytes cs (unquote t).
Proof.
  intros Hl Hf. destruct cs as [|a [|b cs]]; [simpl in Hl; lia..|].
  unfold esc_rune. case_bool_decide as E1; [by rewrite E1|].
  case_bool_decide as E2; [by rewrite E2|]. by apply unquote_raw.
Qed.

Lemma unquote_runes fuel s t :
  (length s <= fuel)%nat ->
  forallb (fun r => match r with Some _ => true | None => false end) (runes fuel s) = true ->
  unquote (concat (map esc_rune (runes fuel s)) ++ quote ++ t) = Some (s, t).
Proof.
  revert s. induction fuel as [|fuel IH]; intros s Hl Hv.
  { by destruct s; [|simpl in Hl; lia]. }
  destruct s as [|c s]; [done|].
  change (runes (S fuel) (c :: s)) with
    (match utf8_len (c :: s) with
     | O => None :: runes fuel s
     | n => Some (take n (c :: s)) :: runes fuel (drop n (c :: s))
     end) in *.
  destruct (utf8_len (c :: s)) as [|n] eqn:En; [discriminate Hv|].
  apply utf8_rune in En. cbv iota in Hv |- *.
  set (hd := take (S n) (c :: s)) in *. set (tl := drop (S n) (c :: s)) in *.
  assert (Hs : hd ++ tl = c :: s) by apply (take_drop (S n)).
  assert (Htl : (length tl <= fuel)%nat).
  { subst tl. rewrite length_drop. simpl in Hl |- *. lia. }
  simpl in Hv. specialize (IH tl Htl Hv). cbn [map concat].
  change (take (S n) (c :: s)) with hd. change (drop (S n) (c :: s)) with tl.
  rewrite <- app_assoc.
  assert (E : forall r, unquote (esc_rune (Some hd) ++ r) = cons_bytes hd (unquote r)).
  { intros r. destruct En as [(c0 & -> & Hc)|[H2 Hf]].
    - by apply unquote_byte.
    - by apply unquote_rune. }
  rewrite E, IH. cbn [cons_bytes]. by rewrite Hs.
Qed.

Lemma enc_string_prefix s1 s2 t1 t2 :
  valid_utf8 s1 = true -> valid_utf8 s2 = true ->
  enc_string s1 ++ t1 = enc_string s2 ++ t2 -> s1 = s2 /\ t1 = t2.
Proof.
  unfold enc_string, valid_utf8, runes_of. intros H1 H2 H.
  rewrite <- !app_assoc in H. simpl in H. injection H as H.
  apply (f_equal unquote) in H.
  change ("034"%char :: ?t) with (quote ++ t) in H.
  rewrite !unquote_runes in H by done. injection H as H <-. split; [|done].
  apply (f_equal String.string_of_list_ascii) in H.
  unfold bytes_of_string in H. by rewrite !String.string_of_list_ascii_of_string in H.
Qed.

(** Values whose strings are UTF-8 and whose number literals are numbers. *)
Definition num_char (c : ascii) : bool := Regex.digit c || Regex.is_in "+-.eE" c.
Definition num_lit (s : string) : bool :=
  match s with
  | String c _ => (Regex.digit c || Ascii.eqb c "-") && forallb num_char (bytes_of_string s)
  | EmptyString => false
  end.
Fixpoint well_formed (j : json) : bool :=
  match j with
  | JNull | JBool _ => true
  | JNum lit => num_lit lit
  | JStr s => valid_utf8 s
  | JArr l => forallb well_formed l
  | JObj fs => forallb (fun kv => valid_utf8 kv.1 && well_formed kv.2) fs
  end.

(** What follows a value: nothing, a comma, a closing bracket or the newline
    [json.Encoder] adds. *)
Definition delimiter (c : ascii) : bool := Regex.is_in ",]}" c || Ascii.eqb c "010".
Definition delimited (t : chars) : bool :=
  match t with [] => true | c :: _ => delimiter c end.

Lemma num_prefix l1 l2 t1 t2 :
  forallb num_char l1 = true -> forallb num_char l2 = true ->
  delimited t1 = true -> delimited t2 = true ->
  l1 ++ t1 = l2 ++ t2 -> l1 = l2 /\ t1 = t2.
Proof.
  assert (Hd : forall c, num_char c = true -> delimiter c = true -> False).
  { intros c. destruct c as [[] [] [] [] [] [] [] []]; discriminate. }
  revert l2. induction l1 as [|a l1 IH]; intros [|b l2] H1 H2 D1 D2 H; simpl in *; b2p.
  - done.
  - subst t1. destruct (Hd b); tauto.
  - subst t2. destruct (Hd a); tauto.
  - injection H as -> H. destruct (IH l2) as [-> ->]; tauto.
Qed.

(** Induction over values and the values nested in them. *)
Section JsonInd.
Context (P : json -> Prop)
  (Hnull : P JNull) (Hbool : forall b, P (JBool b)) (Hnum : forall l, P (JNum l))
  (Hstr : forall s, P (JStr s))
  (Harr : forall l, Forall P l -> P (JArr l))
  (Hobj : forall fs, Forall (fun kv => P kv.2) fs -> P (JObj fs)).
Fixpoint json_ind_nested (j : json) : P j :=
  match j with
  | JNull => Hnull
  | JBool b => Hbool b
  | JNum l => Hnum l
  | JStr s => Hstr s
  | JArr l => Harr l ((fix go l : Forall P l := match l with
                                   | [] => Forall_nil_2 _
                                   | x :: l' => Forall_cons_2 _ _ _ (json_ind_nested x) (go l')
                                   end) l)
  | JObj fs => Hobj fs ((fix go l : Forall (fun kv => P kv.2) l := match l with
                                     | [] => Forall_nil_2 _
                                     | kv :: l' => Forall_cons_2 _ kv _ (json_ind_nested kv.2) (go l')
                                     end) fs)
  end.
End JsonInd.

(** Decodability from the left, up to a delimiter. *)
Definition decodable {X} (f : X -> chars) (ok : X -> bool) (x : X) : Prop :=
  forall y t1 t2, ok x = true -> ok y = true -> delimited t1 = true -> delimited t2 = true ->
    f x ++ t1 = f y ++ t2 -> x = y /\ t1 = t2.

(** A list of decodable items, none of which starts with the closing bracket. *)
Lemma commas_prefix {X} (f : X -> chars) (ok : X -> bool) (close : ascii) l1 l2 t1 t2 :
  Regex.is_in "]}" close = true ->
  (forall x t, ok x = true -> exists c r, f x ++ t = c :: r /\ c <> close) ->
  Forall (decodable f ok) l1 -> forallb ok l1 = true -> forallb ok l2 = true ->
  commas f l1 ++ [close] ++ t1 = commas f l2 ++ [close] ++ t2 -> l1 = l2 /\ t1 = t2.
Proof.
  intros Hclose Hhd Hf. revert l2.
  assert (Hdel : forall t, delimited (close :: t) = true).
  { intros t. simpl. destruct close as [[] [] [] [] [] [] [] []]; try discriminate Hclose; done. }
  assert (Hcomma : forall t t', ","%char :: t = close :: t' -> False).
  { intros t t' H. injection H as <- _. discriminate Hclose. }
  assert (Hstep : forall x l t, commas f (x :: l) ++ [close] ++ t =
    f x ++ match l with [] => close :: t | _ => txt "," ++ commas f l ++ [close] ++ t end).
  { intros x l t. simpl. destruct l; [done|]. by rewrite <- !app_assoc. }
  assert (Htail : forall (l : list X) (t : chars), delimited
    (match l with [] => close :: t | _ => txt "," ++ commas f l ++ [close] ++ t end) = true).
  { intros [|? ?] t; [apply Hdel|done]. }
  induction Hf as [|x l1 Hx Hf IH]; intros [|y l2] H1 H2 H; cbn [forallb] in H1, H2; b2p.
  - simpl in H. injection H as ->. done.
  - rewrite Hstep in H. destruct H2 as [Hy _].
    edestruct (Hhd y) as (c & r & E & Hne); [done|]. rewrite E in H. injection H as H _. congruence.
  - rewrite Hstep in H. destruct H1 as [Hy _].
    edestruct (Hhd x) as (c & r & E & Hne); [done|]. rewrite E in H. injection H as H _. congruence.
  - rewrite !Hstep in H. destruct_and_hyps.
    apply Hx in H as [-> H]; [|auto..].
    destruct l1 as [|x1 l1], l2 as [|y1 l2].
    + injection H as ->. done.
    + exfalso. symmetry in H. by apply Hcomma in H.
    + exfalso. by apply Hcomma in H.
    + apply app_inv_head in H. destruct (IH (y1 :: l2)) as [-> ->]; auto.
Qed.

(** How an encoding starts. *)
Definition kind (c : ascii) : Z :=
  if Ascii.eqb c "n" then 0 else if Ascii.eqb c "t" then 1 else if Ascii.eqb c "f" then 2
  else if Ascii.eqb c "034" then 3 else if Ascii.eqb c "[" then 4
  else if Ascii.eqb c "{" then 5 else if Regex.digit c || Ascii.eqb c "-" then 6 else 7.
Definition kind_of (j : json) : Z :=
  match j with
  | JNull => 0 | JBool true => 1 | JBool false => 2 | JStr _ => 3
  | JArr _ => 4 | JObj _ => 5 | JNum _ => 6
  end.
Lemma enc_kind j t : well_formed j = true -> exists c r, enc j ++ t = c :: r /\ kind c = kind_of j.
Proof.
  destruct j as [|[]|lit|s|l|fs]; intros H; try (eexists _, _; split; [reflexivity|done]).
  destruct lit as [|c lit]; [discriminate|]. eexists c, _. split; [reflexivity|].
  simpl in H. apply andb_true_iff in H as [H _]. revert H.
  destruct c as [[] [] [] [] [] [] [] []]; intros H; try discriminate H; reflexivity.
Qed.

Lemma enc_decodable j : decodable enc well_formed j.
Proof.
  assert (Hk : forall a b t1 t2, well_formed a = true -> well_formed b = true ->
    enc a ++ t1 = enc b ++ t2 -> kind_of a = kind_of b).
  { intros a b t1 t2 Ha Hb H.
    destruct (enc_kind a t1 Ha) as (c & r & E & <-), (enc_kind b t2 Hb) as (c' & r' & E' & <-).
    rewrite E, E' in H. by injection H as -> _. }
  assert (Hclose : forall c x t, well_formed x = true -> kind c = 7 ->
    exists c' r, enc x ++ t = c' :: r /\ c' <> c).
  { intros c x t Hx Hc. destruct (enc_kind x t Hx) as (c' & r & E & Hk').
    exists c', r. split; [done|]. intros ->. rewrite Hk' in Hc. by destruct x as [|[]| | | |]. }
  induction j as [|b|lit|s|l IH|fs IH] using json_ind_nested;
    intros y t1 t2 Hx Hy D1 D2 H; pose proof (Hk _ _ _ _ Hx Hy H) as K;
    try (destruct b); destruct y as [|[]|lit2|s2|l2|fs2]; try discriminate K.
  - apply app_inv_head in H. done.
  - apply app_inv_head in H. done.
  - apply app_inv_head in H. done.
  - assert (Hn : forall l, num_lit l = true -> forallb num_char (bytes_of_string l) = true).
    { intros [|c l'] Hl; [done|]. cbn [num_lit] in Hl. by apply andb_true_iff in Hl as [_ ?]. }
    cbn [enc] in H. unfold txt in H.
    apply num_prefix in H as [H ->]; auto. split; [|done]. f_equal.
    apply (f_equal String.string_of_list_ascii) in H.
    unfold bytes_of_string in H. by rewrite !String.string_of_list_ascii_of_string in H.
  - apply enc_string_prefix in H as [-> ->]; auto.
  - cbn [enc] in H. rewrite <- !app_assoc in H. apply app_inv_head in H.
    apply (commas_prefix _ well_formed) in H as [-> ->]; auto.
  - cbn [enc] in H. rewrite <- !app_assoc in H. apply app_inv_head in H.
    apply (commas_prefix _ (fun kv => valid_utf8 kv.1 && well_formed kv.2)) in H as [-> ->]; auto.
    1: intros [k v] t Hwx; by eexists _, _.
    eapply Forall_impl; [exact IH|]. intros [k v] Hv [k2 v2] u1 u2 H1 H2 E1 E2 E.
    cbn [fst snd] in *. b2p. destruct_and_hyps. rewrite <- !app_assoc in E.
    apply enc_string_prefix in E as [-> E]; auto. apply app_inv_head in E.
    apply Hv in E as [-> ->]; auto.
Qed.

Lemma marshal_inj j1 j2 :
  well_formed j1 = true -> well_formed j2 = true -> marshal j1 = marshal j2 -> j1 = j2.
Proof.
  intros H1 H2 H. apply (f_equal bytes_of_string) in H. unfold marshal, bytes_of_string in H.
  rewrite !String.list_ascii_of_string_of_list_ascii in H.
  apply (enc_decodable j1 j2 [] []); auto. by rewrite !app_nil_r.
Qed.

(** String lists. *)
Lemma jstrings_wf l : well_formed (jstrings l) = forallb valid_utf8 l.
Proof. induction l as [|x l IH]; [done|]. simpl in *. by rewrite IH. Qed.

Lemma jstrings_inj l1 l2 : jstrings l1 = jstrings l2 -> l1 = l2.
Proof.
  intros [= H]. revert l2 H. induction l1 as [|a l1 IH]; intros [|b l2] H; try done.
  injection H as -> H. f_equal. auto.
Qed.

Lemma jstrings_nil_wf l : forallb valid_utf8 l = true -> well_formed (jstrings_nil l) = true.
Proof. destruct l as [|x l]; [done|]. unfold jstrings_nil. by rewrite jstrings_wf. Qed.

Lemma jstrings_nil_inj l1 l2 : jstrings_nil l1 = jstrings_nil l2 -> l1 = l2.
Proof. destruct l1 as [|x l1], l2 as [|y l2]; try done. apply jstrings_inj. Qed.

Lemma forallb_sorted (f : string -> bool) l : forallb f (sort_strings l) = forallb f l.
Proof.
  apply eq_true_iff_eq. rewrite !forallb_forall.
  setoid_rewrite <- list_elem_of_In. by setoid_rewrite elem_of_sort_strings.
Qed.

(** ** Numbers *)

Lemma dec_inj a b : dec a = dec b -> a = b.
Proof. apply (inj pretty). Qed.

(** Decimal numerals hold digits and a sign. *)
Lemma pretty_N_char_num n : num_char (pretty_N_char n) = true.
Proof.
  unfold pretty_N_char. repeat match goal with |- context [match ?x with _ => _ end] => destruct x end; done.
Qed.
Lemma pretty_N_go_num n s :
  forallb num_char (bytes_of_string s) = true ->
  forallb num_char (bytes_of_string (pretty_N_go n s)) = true.
Proof.
  revert s. induction (N.lt_wf_0 n) as [n _ IH]; intros s Hs.
  destruct (decide (n = 0)%N) as [->|Hn]; [by rewrite pretty_N_go_0|].
  rewrite pretty_N_go_step by lia. apply IH; [apply N.div_lt; lia|].
  simpl. by rewrite pretty_N_char_num.
Qed.
Lemma dec_num z : forallb num_char (bytes_of_string (dec z)) = true.
Proof.
  assert (Hn : forall n : N, forallb num_char (bytes_of_string (pretty n)) = true).
  { intros n. unfold pretty, pretty_N. destruct (decide _); [done|]. by apply pretty_N_go_num. }
  unfold dec, pretty, pretty_Z. destruct z; [done|apply Hn|]. simpl. apply Hn.
Qed.
