(* ===== verification/GoTime.v ===== *)
(** * Go's time: durations and the text of an instant

    An instant is the number of nanoseconds since 1970-01-01T00:00:00Z, a
    duration an int64 number of nanoseconds.  [rfc3339_nano] is
    [t.UTC().Format(time.RFC3339Nano)], [parse_rfc3339_nano]
    [time.Parse] with that layout.  [civil_of_days] computes the calendar
    date of a day number. *)

From S2P Require Import Prelude GoStd GoJson.

Module GoTime.

Definition Nanosecond : Z := 1.
Definition Millisecond : Z := 1000000.
Definition Second : Z := 1000000000.
Definition Minute : Z := 60 * Second.
Definition Hour : Z := 60 * Minute.

(** [int(d.Seconds())], [d.Milliseconds()]: truncated towards zero.  (Seconds
    goes through a float64, exact for durations below 48 days.) *)
Definition Seconds (d : Z) : Z := Z.quot d Second.
Definition Milliseconds (d : Z) : Z := Z.quot d Millisecond.

(** ** Calendar

    Eras of 400 years, each of 146097 days, with years that begin in March. *)

Record civil : Type := Civil { year : Z; month : Z; day : Z }.

Definition year_of_era (doe : Z) : Z :=
  (doe - doe / 1460 + doe / 36524 - doe / 146096) / 365.
Definition days_before_year (yoe : Z) : Z := 365 * yoe + yoe / 4 - yoe / 100.
Definition civil_of_era (doe : Z) : civil :=
  let yoe := year_of_era doe in
  let doy := doe - days_before_year yoe in
  let mp := (5 * doy + 2) / 153 in
  let m := if mp <? 10 then mp + 3 else mp - 9 in
  Civil (yoe + (if m <=? 2 then 1 else 0)) m (doy - (153 * mp + 2) / 5 + 1).
Definition civil_of_days (n : Z) : civil :=
  let z := n + 719468 in
  let c := civil_of_era (z mod 146097) in
  Civil (year c + 400 * (z / 146097)) (month c) (day c).

(** ** Text *)

Fixpoint zeros (n : nat) : string :=
  match n with O => EmptyString | S n' => String "0" (zeros n') end.
(** A decimal number padded with zeros to [w] digits. *)
Definition pad (w : nat) (n : Z) : string :=
  let s := dec n in zeros (w - String.length s) +:+ s.
Fixpoint trim_zeros (s : list ascii) : list ascii :=
  match s with "0"%char :: s' => trim_zeros s' | _ => s end.
(** The fraction of a second: nine digits without trailing zeros, or nothing. *)
Definition fraction (ns : Z) : string :=
  if ns =? 0 then ""
  else "." +:+ String.string_of_list_ascii
                 (rev (trim_zeros (rev (bytes_of_string (pad 9 ns))))).
Definition rfc3339_nano (t : Z) : string :=
  let s := t / Second in
  let c := civil_of_days (s / 86400) in
  let r := s mod 86400 in
  pad 4 (year c) +:+ "-" +:+ pad 2 (month c) +:+ "-" +:+ pad 2 (day c) +:+ "T" +:+
  pad 2 (r / 3600) +:+ ":" +:+ pad 2 (r / 60 mod 60) +:+ ":" +:+ pad 2 (r mod 60) +:+
  fraction (t mod Second) +:+ "Z".

(** [t.UTC().Format(time.RFC3339)]: seconds, the rest dropped. *)
Definition rfc3339 (t : Z) : string := rfc3339_nano (t / Second * Second).
(** [t.AddDate(0, 0, n)] in UTC. *)
Definition add_days (n t : Z) : Z := t + n * (24 * Hour).

Example rfc3339_seconds : rfc3339 1709210096120000000 = "2024-02-29T12:34:56Z".
Proof. vm_compute. reflexivity. Qed.
Example rfc3339_epoch : rfc3339_nano 0 = "1970-01-01T00:00:00Z".
Proof. vm_compute. reflexivity. Qed.
Example rfc3339_century : rfc3339_nano (-2203977600 * Second) = "1900-02-28T00:00:00Z"
  /\ rfc3339_nano ((-2203977600 + 86400) * Second) = "1900-03-01T00:00:00Z".
Proof. split; vm_compute; reflexivity. Qed.
Example rfc3339_leap : rfc3339_nano 1709210096120000000 = "2024-02-29T12:34:56.12Z".
Proof. vm_compute. reflexivity. Qed.

(** ** Parsing: [time.Parse(time.RFC3339Nano, s)]

    The year is four digits; month, day, minute and second are two; an hour may
    be one digit; a fraction may follow the seconds after a period or comma,
    read up to nine digits; the zone is [Z] or a signed hh:mm. *)

Definition digit_val (c : ascii) : option Z :=
  if Regex.digit c then Some (byte_val c - 48) else None.
(** Exactly [n] digits. *)
Fixpoint fixed_num (n : nat) (acc : Z) (s : list ascii) : option (Z * list ascii) :=
  match n, s with
  | O, _ => Some (acc, s)
  | S n', c :: s' => d ← digit_val c; fixed_num n' (10 * acc + d) s'
  | _, [] => None
  end.
(** [getnum(s, false)]: two digits, or one. *)
Definition loose_num (s : list ascii) : option (Z * list ascii) :=
  match fixed_num 2 0 s with
  | Some r => Some r
  | None => fixed_num 1 0 s
  end.
Definition literal (c : ascii) (s : list ascii) : option (list ascii) :=
  match s with
  | x :: s' => if Ascii.eqb x c then Some s' else None
  | [] => None
  end.
Definition in_range (lo hi n : Z) : option unit := if (lo <=? n) && (n <=? hi) then Some tt else None.
Fixpoint digits_of (s : list ascii) : list Z * list ascii :=
  match s with
  | c :: s' => match digit_val c with
               | Some d => let (ds, t) := digits_of s' in (d :: ds, t)
               | None => ([], s)
               end
  | [] => ([], [])
  end.
(** The fraction in nanoseconds: its first nine digits. *)
Definition parse_fraction (s : list ascii) : Z * list ascii :=
  match s with
  | c :: (c1 :: _) as s' =>
      if Regex.is_in ".," c && Regex.digit c1 then
        let (ds, t) := digits_of s' in
        let kept := take 9 ds in
        (fold_left (fun n d => 10 * n + d) kept 0 * 10 ^ (9 - Z.of_nat (length kept)), t)
      else (0, s)
  | _ => (0, s)
  end.
(** The offset of the zone in seconds; nothing may follow it. *)
Definition parse_zone (s : list ascii) : option Z :=
  match s with
  | c :: s' =>
      if Ascii.eqb c "Z" then match s' with [] => Some 0 | _ => None end
      else
        '(h, s1) ← fixed_num 2 0 s';
        s2 ← literal ":" s1;
        '(m, s3) ← fixed_num 2 0 s2;
        _ ← in_range 0 24 h; _ ← in_range 0 60 m;
        match s3 with
        | [] => if Ascii.eqb c "+" then Some (3600 * h + 60 * m)
                else if Ascii.eqb c "-" then Some (- (3600 * h + 60 * m)) else None
        | _ => None
        end
  | [] => None
  end.
Definition leap (y : Z) : bool := (y mod 4 =? 0) && (negb (y mod 100 =? 0) || (y mod 400 =? 0)).
Definition days_in (y m : Z) : Z :=
  if m =? 2 then (if leap y then 29 else 28)
  else if (m =? 4) || (m =? 6) || (m =? 9) || (m =? 11) then 30 else 31.
Definition days_of_civil (c : civil) : Z :=
  let y := if month c <=? 2 then year c - 1 else year c in
  let mp := if month c <=? 2 then month c + 9 else month c - 3 in
  146097 * (y / 400) + days_before_year (y mod 400) + (153 * mp + 2) / 5 + day c - 1 - 719468.
Definition parse_rfc3339_zone (text : string) : option (Z * Z) :=
  '(y, s) ← fixed_num 4 0 (bytes_of_string text);
  s ← literal "-" s; '(mo, s) ← fixed_num 2 0 s; _ ← in_range 1 12 mo;
  s ← literal "-" s; '(d, s) ← fixed_num 2 0 s;
  s ← literal "T" s; '(h, s) ← loose_num s; _ ← in_range 0 23 h;
  s ← literal ":" s; '(mi, s) ← fixed_num 2 0 s; _ ← in_range 0 59 mi;
  s ← literal ":" s; '(se, s) ← fixed_num 2 0 s; _ ← in_range 0 59 se;
  let (ns, s) := parse_fraction s in
  off ← parse_zone s;
  _ ← in_range 1 (days_in y mo) d;
  Some ((86400 * days_of_civil (Civil y mo d) + 3600 * h + 60 * mi + se - off) * Second + ns, off).
Definition parse_rfc3339_nano (text : string) : option Z := fst <$> parse_rfc3339_zone text.

(** [t.Format(time.RFC3339)] in a zone [off] seconds east of UTC, whole minutes. *)
Definition zone_text (off : Z) : string :=
  if off =? 0 then "Z"
  else (if off <? 0 then "-" else "+") +:+ pad 2 (Z.abs off / 3600) +:+ ":" +:+ pad 2 (Z.abs off / 60 mod 60).
Definition rfc3339_in (off t : Z) : string :=
  let s := t / Second + off in
  let c := civil_of_days (s / 86400) in
  let r := s mod 86400 in
  pad 4 (year c) +:+ "-" +:+ pad 2 (month c) +:+ "-" +:+ pad 2 (day c) +:+ "T" +:+
  pad 2 (r / 3600) +:+ ":" +:+ pad 2 (r / 60 mod 60) +:+ ":" +:+ pad 2 (r mod 60) +:+ zone_text off.
Example rfc3339_zone :
  (fun p => rfc3339_in p.2 p.1) <$> parse_rfc3339_zone "2024-02-29T14:34:56.7-03:30" = Some "2024-02-29T14:34:56-03:30".
Proof. vm_compute. reflexivity. Qed.

Example parse_leap : parse_rfc3339_nano "2024-02-29T12:34:56.12Z" = Some 1709210096120000000.
Proof. vm_compute. reflexivity. Qed.
Example parse_offset :
  parse_rfc3339_nano "2024-02-29T14:34:56,12+02:00" = Some 1709210096120000000.
Proof. vm_compute. reflexivity. Qed.
Example parse_refused :
  map parse_rfc3339_nano ["2023-02-29T12:34:56Z"; "2024-02-29 12:34:56+00"; "2024-02-29T12:34:56"]
  = [None; None; None].
Proof. vm_compute. reflexivity. Qed.

(** What parses has a T after the date. *)
Lemma parse_has_T text t : parse_rfc3339_nano text = Some t -> "T"%char ∈ bytes_of_string text.
Proof.
  assert (Hfix : forall n acc s r, fixed_num n acc s = Some r -> forall c, c ∈ r.2 -> c ∈ s).
  { induction n as [|n IH]; intros acc s r H c Hc; [by injection H as <-|].
    destruct s as [|x s]; [discriminate|]. simpl in H. destruct (digit_val x); [|discriminate].
    right. by eapply IH. }
  assert (Hlit : forall c s s', literal c s = Some s' -> c ∈ s /\ forall x, x ∈ s' -> x ∈ s).
  { intros c [|x s] s' H; [discriminate|]. simpl in H. destruct (Ascii.eqb x c) eqn:E; [|discriminate].
    apply Ascii.eqb_eq in E as ->. injection H as <-. split; [left|]. intros y Hy. by right. }
  unfold parse_rfc3339_nano. rewrite fmap_Some. intros (p & H & _). unfold parse_rfc3339_zone in H.
  apply bind_Some in H as ([y s1] & E1 & H). apply bind_Some in H as (s2 & E2 & H).
  apply bind_Some in H as ([mo s3] & E3 & H). apply bind_Some in H as (u & _ & H).
  apply bind_Some in H as (s4 & E4 & H). apply bind_Some in H as ([d s5] & E5 & H).
  apply bind_Some in H as (s6 & E6 & _). apply Hlit in E6 as [E6 _].
  apply (Hfix _ _ _ _ E1), (proj2 (Hlit _ _ _ E2)), (Hfix _ _ _ _ E3), (proj2 (Hlit _ _ _ E4)),
    (Hfix _ _ _ _ E5), E6.
Qed.

End GoTime.
