(* ===== verification/GoUnmarshal.v ===== *)
(** * json.Unmarshal

    [unmarshal] is [json.Unmarshal] into an empty interface, on the bytes of a
    document: the JSON grammar as encoding/json scans it (white space, nesting
    up to 10000), strings unquoted (escapes, surrogate pairs, U+FFFD for a byte
    that is no UTF-8), an error for a number outside the float64 range.  The
    value keeps a number's literal and an object's members in the order
    written, repeated names included.  [unmarshal_marshal]: decoding undoes
    [marshal]. *)

From S2P Require Import Prelude GoStd GoJson.

(** ** Strings *)

Definition is_ws : ascii -> bool := Regex.is_in (String " " (String "009" (String "010" (String "013" "")))).
Fixpoint skip_ws (s : chars) : chars :=
  match s with
  | c :: s' => if is_ws c then skip_ws s' else s
  | [] => []
  end.

Definition hex_value (c : ascii) : option Z :=
  if Regex.digit c then Some (byte_val c - 48)
  else if Regex.in_range "a" "f" c then Some (byte_val c - 87)
  else if Regex.in_range "A" "F" c then Some (byte_val c - 55)
  else None.
Definition hex4 (s : chars) : option (Z * chars) :=
  match s with
  | a :: b :: c :: d :: s' =>
      match hex_value a, hex_value b, hex_value c, hex_value d with
      | Some x, Some y, Some z, Some w => Some (4096 * x + 256 * y + 16 * z + w, s')
      | _, _, _, _ => None
      end
  | _ => None
  end.
Definition byte_of (z : Z) : ascii := ascii_of_N (Z.to_N z).
(** [utf8.AppendRune] *)
Definition utf8_enc (r : Z) : chars :=
  if r <? 128 then [byte_of r]
  else if r <? 2048 then [byte_of (192 + r / 64); byte_of (128 + r mod 64)]
  else if r <? 65536
  then [byte_of (224 + r / 4096); byte_of (128 + r / 64 mod 64); byte_of (128 + r mod 64)]
  else [byte_of (240 + r / 262144); byte_of (128 + r / 4096 mod 64);
        byte_of (128 + r / 64 mod 64); byte_of (128 + r mod 64)].
Definition replacement : chars := utf8_enc 65533.
Definition surrogate (r : Z) : bool := (55296 <=? r) && (r <? 57344).
(** [utf16.DecodeRune] *)
Definition surrogate_pair (r1 r2 : Z) : option Z :=
  if (55296 <=? r1) && (r1 <? 56320) && (56320 <=? r2) && (r2 <? 57344)
  then Some ((r1 - 55296) * 1024 + (r2 - 56320) + 65536) else None.
Definition simple_escape (c : ascii) : option ascii :=
  if Ascii.eqb c "034" then Some "034"%char else if Ascii.eqb c "\" then Some "\"%char
  else if Ascii.eqb c "/" then Some "/"%char else if Ascii.eqb c "b" then Some "008"%char
  else if Ascii.eqb c "f" then Some "012"%char else if Ascii.eqb c "n" then Some "010"%char
  else if Ascii.eqb c "r" then Some "013"%char else if Ascii.eqb c "t" then Some "009"%char
  else None.
(** What a [\u] escape stands for, and what follows it. *)
Definition unicode_escape (s : chars) : option (chars * chars) :=
  match hex4 s with
  | None => None
  | Some (r, s') =>
      if surrogate r then
        match s' with
        | "\"%char :: "u"%char :: s2 =>
            match hex4 s2 with
            | Some (r2, s3) =>
                match surrogate_pair r r2 with
                | Some r3 => Some (utf8_enc r3, s3)
                | None => Some (replacement, s')
                end
            | None => Some (replacement, s')
            end
        | _ => Some (replacement, s')
        end
      else Some (utf8_enc r, s')
  end.
(** The text of a string up to its closing quote, and what follows. *)
Fixpoint str_body (n : nat) (s : chars) : option (chars * chars) :=
  match n, s with
  | S n', c :: s1 =>
      if Ascii.eqb c "034" then Some ([], s1)
      else if Ascii.eqb c "\" then
        match s1 with
        | e :: s2 =>
            if Ascii.eqb e "u" then
              match unicode_escape s2 with
              | Some (cs, s3) => cons_bytes cs (str_body n' s3)
              | None => None
              end
            else match simple_escape e with
                 | Some c' => cons_bytes [c'] (str_body n' s2)
                 | None => None
                 end
        | [] => None
        end
      else if byte_val c <? 32 then None
      else match utf8_len s with
           | O => cons_bytes replacement (str_body n' s1)
           | k => cons_bytes (take k s) (str_body n' (drop k s))
           end
  | _, _ => None
  end.
Definition str_lit (s : chars) : option (string * chars) :=
  match str_body (S (length s)) s with
  | Some (cs, t) => Some (String.string_of_list_ascii cs, t)
  | None => None
  end.

(** ** Numbers *)

Fixpoint span_digits (s : chars) : chars * chars :=
  match s with
  | c :: s' => if Regex.digit c then let (a, b) := span_digits s' in (c :: a, b) else ([], s)
  | [] => ([], [])
  end.
Definition digits_val (ds : chars) : Z := fold_left (fun n c => 10 * n + (byte_val c - 48)) ds 0.
(** The parts of a literal: digits before and after the point, exponent. *)
Record number : Type := Number { nu_int : chars; nu_frac : chars; nu_exp : Z; nu_text : chars }.
Definition scan_int (s : chars) : option (chars * chars) :=
  match s with
  | c :: s' => if Ascii.eqb c "0" then Some ([c], s')
               else if Regex.digit c then Some (span_digits s) else None
  | [] => None
  end.
Definition scan_frac (s : chars) : option (chars * chars) :=
  match s with
  | c :: s' => if Ascii.eqb c "." then
                 match span_digits s' with
                 | ([], _) => None
                 | (ds, t) => Some (ds, t)
                 end
               else Some ([], s)
  | [] => Some ([], [])
  end.
Definition scan_exp (s : chars) : option (Z * chars) :=
  match s with
  | c :: s' =>
      if Ascii.eqb c "e" || Ascii.eqb c "E" then
        let (neg, s2) := match s' with
                         | "-"%char :: t => (true, t)
                         | "+"%char :: t => (false, t)
                         | _ => (false, s')
                         end in
        match span_digits s2 with
        | ([], _) => None
        | (ds, t) => Some ((if neg : bool then - digits_val ds else digits_val ds), t)
        end
      else Some (0, s)
  | [] => Some (0, [])
  end.
Definition scan_number (s : chars) : option (number * chars) :=
  let s1 := match s with "-"%char :: t => t | _ => s end in
  match scan_int s1 with
  | None => None
  | Some (int, s2) =>
      match scan_frac s2 with
      | None => None
      | Some (frac, s3) =>
          match scan_exp s3 with
          | None => None
          | Some (e, s4) => Some (Number int frac e (take (length s - length s4) s), s4)
          end
      end
  end.
(** [strconv.ParseFloat] does not report ErrRange: the value rounds to a
    finite float64. *)
Definition float_bound : Z := 2 ^ 1024 - 2 ^ 970.
Definition float_fits (x : number) : bool :=
  let m := digits_val (nu_int x ++ nu_frac x) in
  let e := nu_exp x - Z.of_nat (length (nu_frac x)) in
  let magnitude := Z.of_nat (String.length (dec m)) + e in
  if (m =? 0) || (magnitude <? 0) then true
  else if 400 <? magnitude then false
  else if 0 <=? e then m * 10 ^ e <? float_bound
  else m <? float_bound * 10 ^ (- e).

(** ** Values *)

Definition maxNestingDepth : Z := 10000.
Definition lit_value (w : string) (j : json) (s : chars) : option (json * chars) :=
  let cs := txt w in
  if bool_decide (take (length cs) s = cs) then Some (j, drop (length cs) s) else None.

Fixpoint value (n : nat) (depth : Z) (s : chars) {struct n} : option (json * chars) :=
  match n, s with
  | S n', c :: s1 =>
      if Ascii.eqb c "{" then
        if maxNestingDepth <? depth + 1 then None
        else match skip_ws s1 with
             | "}"%char :: t => Some (JObj [], t)
             | s2 => match members n' (depth + 1) s2 with
                     | Some (fs, t) => Some (JObj fs, t)
                     | None => None
                     end
             end
      else if Ascii.eqb c "[" then
        if maxNestingDepth <? depth + 1 then None
        else match skip_ws s1 with
             | "]"%char :: t => Some (JArr [], t)
             | s2 => match elements n' (depth + 1) s2 with
                     | Some (l, t) => Some (JArr l, t)
                     | None => None
                     end
             end
      else if Ascii.eqb c "034" then
        match str_lit s1 with
        | Some (x, t) => Some (JStr x, t)
        | None => None
        end
      else if Ascii.eqb c "t" then lit_value "true" (JBool true) s
      else if Ascii.eqb c "f" then lit_value "false" (JBool false) s
      else if Ascii.eqb c "n" then lit_value "null" JNull s
      else match scan_number s with
           | Some (x, t) =>
               if float_fits x then Some (JNum (String.string_of_list_ascii (nu_text x)), t) else None
           | None => None
           end
  | _, _ => None
  end
(** The members of an object from the first name to the closing brace. *)
with members (n : nat) (depth : Z) (s : chars) {struct n} : option (list (string * json) * chars) :=
  match n, s with
  | S n', c :: s1 =>
      if negb (Ascii.eqb c "034") then None
      else match str_lit s1 with
      | None => None
      | Some (k, s2) =>
          match skip_ws s2 with
          | ":"%char :: s3 =>
              match value n' depth (skip_ws s3) with
              | None => None
              | Some (v, s4) =>
                  match skip_ws s4 with
                  | "}"%char :: t => Some ([(k, v)], t)
                  | ","%char :: s5 =>
                      match members n' depth (skip_ws s5) with
                      | Some (fs, t) => Some ((k, v) :: fs, t)
                      | None => None
                      end
                  | _ => None
                  end
              end
          | _ => None
          end
      end
  | _, _ => None
  end
with elements (n : nat) (depth : Z) (s : chars) {struct n} : option (list json * chars) :=
  match n with
  | O => None
  | S n' =>
      match value n' depth s with
      | None => None
      | Some (v, s4) =>
          match skip_ws s4 with
          | "]"%char :: t => Some ([v], t)
          | ","%char :: s5 =>
              match elements n' depth (skip_ws s5) with
              | Some (l, t) => Some (v :: l, t)
              | None => None
              end
          | _ => None
          end
      end
  end.

(** [json.Unmarshal(data, &v)] for [var v any]; [None] is an error.  Every
    call consumes a byte or follows one that did, so twice the length is
    enough fuel. *)
Definition unmarshal (data : string) : option json :=
  let s := skip_ws (txt data) in
  match value (S (2 * length s)) 0 s with
  | Some (j, t) => match skip_ws t with [] => Some j | _ => None end
  | None => None
  end.

Example unmarshal_object :
  unmarshal (" {" +:+ String "034" ("a\u0062\ud83d\ude00" +:+ String "034" " : [1, -2.5e3 ,true,null] } "))
  = Some (JObj [(("ab" +:+ String.string_of_list_ascii ["240"; "159"; "152"; "128"]%char)%string,
                 JArr [JNum "1"; JNum "-2.5e3"; JBool true; JNull])]).
Proof. vm_compute. reflexivity. Qed.
Example unmarshal_errors :
  map unmarshal [""; "01"; "1."; "[1,]"; "{]"; "nul"; "1 2"; "1e309"; "[1e400]"] = repeat None 9
  /\ map (fun s => bool_decide (unmarshal s = None)) ["1.7976931348623157e308"; "0e999"; "1e-999"; " null "]
     = repeat false 4.
Proof. split; vm_compute; reflexivity. Qed.

(** ** Decoding what was encoded

    [unmarshal_marshal]: a value whose strings are UTF-8, whose numbers are
    int64 and that is not nested too deep is what its encoding decodes to. *)

(** *** Strings *)

Lemma str_body_byte n c r :
  (byte_val c <? 128) = true -> str_body (S n) (esc_byte c ++ r) = cons_bytes [c] (str_body n r).
Proof.
  intros Hc. destruct c as [[] [] [] [] [] [] [] []]; try discriminate Hc; reflexivity.
Qed.
(** The length of a sequence is decided by its own bytes. *)
Lemma utf8_len_take s n r : utf8_len s = S n -> utf8_len (take (S n) s ++ r) = S n.
Proof.
  unfold utf8_len. destruct s as [|a t]; [discriminate|].
  destruct (in_b 0 127 a) eqn:E1; [intros [= <-]; simpl; by rewrite E1|].
  destruct t as [|b t2]; [discriminate|].
  destruct (in_b 194 223 a && cont b) eqn:E2; [intros [= <-]; simpl; by rewrite E1, E2|].
  destruct t2 as [|c t3]; [discriminate|].
  match goal with |- context [if ?x then 3%nat else _] => destruct x eqn:E3 end;
    [intros [= <-]; simpl; by rewrite E1, E2, E3|].
  destruct t3 as [|d t4]; [discriminate|].
  match goal with |- context [if ?x then 4%nat else _] => destruct x eqn:E4 end; [|discriminate].
  intros [= <-]. simpl. by rewrite E1, E2, E3, E4.
Qed.
Lemma utf8_len_le s : (utf8_len s <= length s)%nat.
Proof.
  unfold utf8_len. repeat match goal with
    | |- context [match ?x with _ => _ end] => is_var x; destruct x
    | |- context [if ?x then _ else _] => destruct x
    end; simpl; lia.
Qed.
Lemma str_body_rune n s k r :
  utf8_len s = S k -> (2 <= length (take (S k) s))%nat ->
  Forall (fun c => (128 <=? byte_val c) = true) (take (S k) s) ->
  str_body (S n) (esc_rune (Some (take (S k) s)) ++ r) = cons_bytes (take (S k) s) (str_body n r).
Proof.
  intros Hk Hl Hf. pose proof (utf8_len_take s k r Hk) as Hu.
  assert (Hcs : length (take (S k) s) = S k).
  { pose proof (utf8_len_le s). rewrite length_take. lia. }
  set (cs := take (S k) s) in *. destruct cs as [|a [|b cs']] eqn:E; [simpl in Hl; lia..|].
  unfold esc_rune. case_bool_decide as E1; [by rewrite E1|].
  case_bool_decide as E2; [by rewrite E2|].
  set (l := a :: b :: cs') in *. change (l ++ r) with (a :: (b :: cs') ++ r) at 1.
  cbn [str_body]. apply Forall_cons in Hf as [Ha _].
  replace (Ascii.eqb a "034") with false by (by destruct a as [[] [] [] [] [] [] [] []]).
  replace (Ascii.eqb a "\") with false by (by destruct a as [[] [] [] [] [] [] [] []]).
  replace (byte_val a <? 32) with false by (symmetry; lia).
  change (a :: (b :: cs') ++ r) with (l ++ r). rewrite Hu, <- Hcs.
  by rewrite take_app_length, drop_app_length.
Qed.

Lemma str_body_runes fuel s n t :
  (length s <= fuel)%nat ->
  forallb (fun r => match r with Some _ => true | None => false end) (runes fuel s) = true ->
  (length (concat (map esc_rune (runes fuel s)) ++ quote ++ t) <= n)%nat ->
  str_body n (concat (map esc_rune (runes fuel s)) ++ quote ++ t) = Some (s, t).
Proof.
  revert s n. induction fuel as [|fuel IH]; intros s n Hl Hv Hn.
  { destruct s; [|simpl in Hl; lia]. by destruct n; [simpl in Hn; lia|]. }
  destruct s as [|c s]; [by destruct n; [simpl in Hn; lia|]|].
  change (runes (S fuel) (c :: s)) with
    (match utf8_len (c :: s) with
     | O => None :: runes fuel s
     | n => Some (take n (c :: s)) :: runes fuel (drop n (c :: s))
     end) in *.
  destruct (utf8_len (c :: s)) as [|k] eqn:En; [discriminate Hv|]. cbv iota in Hv, Hn |- *.
  pose proof En as Er. apply utf8_rune in Er.
  set (hd := take (S k) (c :: s)) in *. set (tl := drop (S k) (c :: s)) in *.
  assert (Hs : hd ++ tl = c :: s) by apply (take_drop (S k)).
  assert (Htl : (length tl <= fuel)%nat).
  { subst tl. rewrite length_drop. simpl in Hl |- *. lia. }
  simpl in Hv. cbn [map concat] in Hn |- *.
  change (take (S k) (c :: s)) with hd in Hn |- *. change (drop (S k) (c :: s)) with tl in Hn |- *.
  rewrite <- app_assoc in Hn |- *. rewrite length_app in Hn.
  assert (Hpos : (1 <= length (esc_rune (Some hd)))%nat).
  { destruct Er as [(c0 & -> & _)|[H2 _]].
    - by destruct c0 as [[] [] [] [] [] [] [] []]; simpl; lia.
    - destruct hd as [|x [|y l]]; [simpl in H2; lia..|]. unfold esc_rune.
      repeat case_bool_decide; simpl; lia. }
  destruct n as [|n]; [lia|].
  assert (E : forall r, str_body (S n) (esc_rune (Some hd) ++ r) = cons_bytes hd (str_body n r)).
  { intros r. destruct Er as [(c0 & -> & Hc)|[H2 Hf]]; [by apply str_body_byte|].
    by apply str_body_rune. }
  rewrite E, IH by (done || lia). cbn [cons_bytes]. by rewrite Hs.
Qed.

Lemma str_lit_enc s t :
  valid_utf8 s = true ->
  str_lit (concat (map esc_rune (runes_of s)) ++ quote ++ t) = Some (s, t).
Proof.
  intros Hv. unfold str_lit, runes_of. unfold valid_utf8, runes_of in Hv. cbv zeta in *.
  rewrite str_body_runes by (done || lia).
  unfold bytes_of_string. by rewrite String.string_of_list_ascii_of_string.
Qed.

(** *** Integers *)

Definition int64_lit (s : string) : Prop := exists z, s = dec z /\ - 2 ^ 63 <= z < 2 ^ 63.

Lemma span_digits_app ds t :
  forallb Regex.digit ds = true -> delimited t = true -> span_digits (ds ++ t) = (ds, t).
Proof.
  intros Hd Ht. induction ds as [|c ds IH]; simpl in *.
  - destruct t as [|c t]; [done|]. simpl in *.
    by destruct c as [[] [] [] [] [] [] [] []]; try discriminate Ht.
  - apply andb_true_iff in Hd as [-> Hd]. by rewrite IH.
Qed.

(** The digits of a positive number. *)
Lemma pretty_N_go_digits n s :
  (0 < n)%N ->
  exists c l, txt (pretty_N_go n s) = c :: l ++ txt s /\ Ascii.eqb c "0" = false /\
    forallb Regex.digit (c :: l) = true /\ digits_val (c :: l) = Z.of_N n /\
    forall k, Z.of_N n < 10 ^ k -> Z.of_nat (length (c :: l)) <= k.
Proof.
  revert s. induction (N.lt_wf_0 n) as [n _ IH]; intros s Hn. rewrite pretty_N_go_step by lia.
  pose proof (N.mod_lt n 10 ltac:(done)) as Hm. pose proof (N.div_mod n 10 ltac:(done)) as Hdm.
  assert (Hch : Regex.digit (pretty_N_char (n mod 10)) = true /\ byte_val (pretty_N_char (n mod 10)) - 48 = Z.of_N (n mod 10) /\
                (n mod 10 <> 0 -> Ascii.eqb (pretty_N_char (n mod 10)) "0" = false)%N).
  { set (m := (n mod 10)%N) in *. clearbody m.
    assert (m = 0 \/ m = 1 \/ m = 2 \/ m = 3 \/ m = 4 \/ m = 5 \/ m = 6 \/ m = 7 \/ m = 8 \/ m = 9)%N
      as Hcases by lia.
    destruct Hcases as [->|[->|[->|[->|[->|[->|[->|[->|[->| ->]]]]]]]]]; split; try done; by split. }
  destruct Hch as (Hd & Hv & Hz). set (ch := pretty_N_char (n mod 10)) in *.
  destruct (decide (n / 10 = 0)%N) as [H0|H0].
  - rewrite H0, pretty_N_go_0. exists ch, []. split; [done|]. split; [apply Hz; lia|].
    split; [simpl; by rewrite Hd|]. split; [unfold digits_val; cbn [fold_left]; lia|].
    intros k Hk. simpl. destruct (Z.le_gt_cases 1 k); [done|].
    assert (10 ^ k <= 1); [|lia]. destruct (Z.eq_dec k 0) as [->|]; [done|].
    rewrite Z.pow_neg_r by lia. lia.
  - destruct (IH (n / 10)%N) with (s := String ch s) as (c & l & E & Hc & Hl & Hval & Hlen);
      [apply N.div_lt; lia|lia|].
    exists c, (l ++ [ch]). split; [rewrite E; simpl; by rewrite <- app_assoc|]. split; [done|].
    split; [|split].
    + change (c :: l ++ [ch]) with ((c :: l) ++ [ch]). rewrite forallb_app, Hl. simpl. by rewrite Hd.
    + change (c :: l ++ [ch]) with ((c :: l) ++ [ch]). unfold digits_val in *.
      rewrite fold_left_app, Hval. cbn [fold_left]. rewrite Hv. lia.
    + intros k Hk. change (c :: l ++ [ch]) with ((c :: l) ++ [ch]). rewrite length_app.
      specialize (Hlen (k - 1)). simpl length at 2. cut (Z.of_nat (length (c :: l)) <= k - 1); [lia|].
      apply Hlen. assert (0 < k).
      { destruct (Z.lt_ge_cases 0 k); [done|]. exfalso. assert (10 ^ k <= 1); [|lia].
        destruct (Z.eq_dec k 0) as [->|]; [done|]. rewrite Z.pow_neg_r by lia. lia. }
      replace (10 ^ k) with (10 * 10 ^ (k - 1)) in Hk.
      { assert (Hq : Z.of_N n = 10 * Z.of_N (n / 10) + Z.of_N (n mod 10)) by lia.
        revert Hk Hq. generalize (10 ^ (k - 1)), (n / 10)%N, (n mod 10)%N. clear. intros. lia. }
      rewrite <- Z.pow_succ_r by lia. f_equal. lia.
Qed.

Lemma scan_digits c l t z :
  forallb Regex.digit (c :: l) = true -> (Ascii.eqb c "0" = true -> l = []) ->
  delimited t = true -> digits_val (c :: l) = z -> z <= 2 ^ 63 ->
  Z.of_nat (length (txt (dec z))) <= 20 ->
  exists e, scan_exp t = Some (e, t) /\ e = 0 /\ scan_frac t = Some ([], t) /\
    scan_int ((c :: l) ++ t) = Some (c :: l, t) /\
    forall text, float_fits (Number (c :: l) [] 0 text) = true.
Proof.
  intros Hd H0 Ht Hv Hz Hlen. exists 0. split; [|split; [done|split; [|split]]].
  - destruct t as [|x t]; [done|]. simpl in Ht |- *.
    by destruct x as [[] [] [] [] [] [] [] []]; try discriminate Ht.
  - destruct t as [|x t]; [done|]. simpl in Ht |- *.
    by destruct x as [[] [] [] [] [] [] [] []]; try discriminate Ht.
  - simpl. destruct (Ascii.eqb c "0") eqn:E; [by rewrite (H0 eq_refl)|].
    simpl in Hd. apply andb_true_iff in Hd as [-> Hd]. by rewrite span_digits_app.
  - intros text. unfold float_fits. cbn [nu_int nu_frac nu_exp length]. rewrite app_nil_r, Hv.
    change (Z.of_nat 0) with 0. rewrite Z.sub_0_r, Z.add_0_r.
    destruct (_ || _); [done|]. replace (String.length (dec z)) with (length (txt (dec z))).
    2:{ unfold txt, bytes_of_string. clear. induction (dec z) as [|x s IH]; simpl; [done|by rewrite IH]. }
    destruct (Z.ltb_spec 400 (Z.of_nat (length (txt (dec z))))); [lia|]. cbn [Z.leb Z.compare].
    apply Z.ltb_lt. rewrite Z.pow_0_r, Z.mul_1_r. unfold float_bound.
    assert (2 ^ 63 < 2 ^ 1024 - 2 ^ 970) by (vm_compute; reflexivity). lia.
Qed.

Lemma scan_number_dec z t :
  - 2 ^ 63 <= z < 2 ^ 63 -> delimited t = true ->
  exists x, scan_number (txt (dec z) ++ t) = Some (x, t) /\ nu_text x = txt (dec z) /\
            float_fits x = true.
Proof.
  intros Hz Ht.
  assert (Hdig : forall n : N, Z.of_N n <= 2 ^ 63 -> exists c l,
    txt (pretty n) = c :: l /\ forallb Regex.digit (c :: l) = true /\
    (Ascii.eqb c "0" = true -> l = []) /\ digits_val (c :: l) = Z.of_N n /\
    Z.of_nat (length (txt (pretty n))) <= 20).
  { intros n Hn. unfold pretty, pretty_N. destruct (decide (n = 0)%N) as [->|Hp].
    { by eexists _, _. }
    destruct (pretty_N_go_digits n "") as (c & l & E & Hc & Hd & Hv & Hlen); [lia|].
    rewrite app_nil_r in E. exists c, l. rewrite E. split; [done|]. split; [done|].
    split; [congruence|]. split; [done|]. apply Hlen.
    assert (2 ^ 63 < 10 ^ 20) by (vm_compute; reflexivity). lia. }
  assert (Hgo : forall n : N, Z.of_N n <= 2 ^ 63 -> exists c l,
    txt (pretty n) = c :: l /\ Regex.digit c = true /\
    scan_int ((c :: l) ++ t) = Some (c :: l, t) /\ scan_frac t = Some ([], t) /\
    scan_exp t = Some (0, t) /\ forall text, float_fits (Number (c :: l) [] 0 text) = true).
  { intros n Hn. destruct (Hdig n Hn) as (c & l & E & Hd & H0 & Hv & Hlen). exists c, l.
    destruct (scan_digits c l t (Z.of_N n) Hd H0 Ht Hv Hn) as (e & He & -> & Hf & Hi & Hfit).
    { unfold dec, pretty, pretty_Z. destruct n; [done|]. simpl. exact Hlen. }
    apply andb_true_iff in Hd as [Hd _]. done. }
  assert (Htk : forall u : chars, take (length (u ++ t) - length t) (u ++ t) = u).
  { intros u. rewrite length_app. replace (length u + length t - length t)%nat with (length u) by lia.
    by rewrite take_app_length. }
  destruct (decide (0 <= z)) as [Hp|Hp].
  - destruct (Hgo (Z.to_N z)) as (c & l & E & Hc & Hi & Hf & He & Hfit); [lia|].
    assert (Et : txt (dec z) = c :: l).
    { rewrite <- E. unfold dec, pretty, pretty_Z. by destruct z; [| |lia]. }
    rewrite Et. unfold scan_number. cbv zeta.
    match goal with |- context [scan_int ?m] => replace m with ((c :: l) ++ t)
      by (by destruct c as [[] [] [] [] [] [] [] []]; try discriminate Hc) end.
    rewrite Hi, Hf, He. eexists. split; [reflexivity|]. split; [apply (Htk (c :: l))|apply Hfit].
  - destruct (Hgo (Z.to_N (- z))) as (c & l & E & Hc & Hi & Hf & He & Hfit); [lia|].
    assert (Et : txt (dec z) = "-"%char :: c :: l).
    { rewrite <- E. unfold dec, pretty, pretty_Z. by destruct z; [lia|lia|]. }
    rewrite Et. unfold scan_number. cbv zeta. change (("-"%char :: c :: l) ++ t) with ("-"%char :: (c :: l) ++ t).
    cbv iota. rewrite Hi, Hf, He. eexists. split; [reflexivity|].
    split; [apply (Htk ("-"%char :: c :: l))|apply Hfit].
Qed.

Lemma num_lit_txt s :
  num_lit s = match txt s with
              | [] => false
              | c :: _ => (Regex.digit c || Ascii.eqb c "-") && forallb num_char (txt s)
              end.
Proof. by destruct s. Qed.
Lemma dec_num_lit z : num_lit (dec z) = true.
Proof.
  assert (Hp : forall p, exists c l, txt (pretty (N.pos p)) = c :: l /\ Regex.digit c = true).
  { intros p. destruct (pretty_N_go_digits (N.pos p) "") as (c & l & E & _ & Hd & _); [lia|].
    exists c, (l ++ txt ""). split; [exact E|]. simpl in Hd. by apply andb_true_iff in Hd as [? _]. }
  rewrite num_lit_txt. pose proof (dec_num z) as Hn. change (bytes_of_string (dec z)) with (txt (dec z)) in Hn.
  destruct z as [|p|p]; [done| |exact Hn]. change (dec (Z.pos p)) with (pretty (N.pos p)) in *.
  destruct (Hp p) as (c & l & E & Hc). rewrite E in *. rewrite Hc. exact Hn.
Qed.

(** *** Values *)

(** Nested at most [n] deep. *)
Fixpoint within (n : Z) (j : json) : bool :=
  match j with
  | JArr l => (0 <? n) && forallb (within (n - 1)) l
  | JObj fs => (0 <? n) && forallb (fun kv => within (n - 1) kv.2) fs
  | _ => true
  end.
(** The number literals of a value. *)
Fixpoint numbers (j : json) : list string :=
  match j with
  | JNum s => [s]
  | JArr l => concat (map numbers l)
  | JObj fs => concat (map (fun kv => numbers kv.2) fs)
  | _ => []
  end.
Definition int64s (j : json) : Prop := forall s, s ∈ numbers j -> int64_lit s.

Lemma skip_first c r : is_ws c = false -> skip_ws (c :: r) = c :: r.
Proof. intros Hc. simpl. by rewrite Hc. Qed.
Lemma enc_first j : well_formed j = true ->
  exists c r, enc j = c :: r /\ is_ws c = false /\ Ascii.eqb c "]" = false /\ kind c = kind_of j.
Proof.
  intros Hw. destruct (enc_kind j [] Hw) as (c & r & E & Hk). rewrite app_nil_r in E.
  exists c, r. split; [done|]. rewrite <- Hk.
  assert (kind c <> 7) by (rewrite Hk; by destruct j as [|[]| | | |]).
  destruct c as [[] [] [] [] [] [] [] []]; done.
Qed.

Definition read_back (j : json) : Prop := forall n d t,
  well_formed j = true -> int64s j -> within (maxNestingDepth - d) j = true ->
  delimited t = true -> (2 * length (enc j) + 1 <= n)%nat -> value n d (enc j ++ t) = Some (j, t).

Lemma commas_cons {X} (f : X -> chars) x l close (t : chars) :
  commas f (x :: l) ++ close :: t =
  f x ++ match l with [] => close :: t | _ => ","%char :: commas f l ++ close :: t end.
Proof. destruct l; [done|]. cbn [commas]. rewrite <- app_assoc. done. Qed.
Lemma length_commas {X} (f : X -> chars) x l :
  length (commas f (x :: l)) =
  (length (f x) + match l with [] => 0 | _ => S (length (commas f l)) end)%nat.
Proof. destruct l; simpl; [lia|]. rewrite !length_app. simpl. lia. Qed.
Lemma int64s_elem l : int64s (JArr l) -> forall x, x ∈ l -> int64s x.
Proof.
  intros H x Hx s Hs. apply H. simpl. apply list_elem_of_In, in_concat. exists (numbers x).
  split; [apply in_map; by apply list_elem_of_In|by apply list_elem_of_In].
Qed.
Lemma int64s_member fs : int64s (JObj fs) -> forall kv, kv ∈ fs -> int64s kv.2.
Proof.
  intros H x Hx s Hs. apply H. simpl. apply list_elem_of_In, in_concat. exists (numbers x.2).
  split; [apply (in_map (fun kv => numbers kv.2)); by apply list_elem_of_In|by apply list_elem_of_In].
Qed.

Lemma enc_skip j t : well_formed j = true -> skip_ws (enc j ++ t) = enc j ++ t.
Proof. intros Hw. destruct (enc_first j Hw) as (c & r & -> & Hc & _). by apply skip_first. Qed.

Lemma elements_enc l : Forall read_back l -> forall n d t,
  l <> [] -> forallb well_formed l = true -> (forall x, x ∈ l -> int64s x) ->
  forallb (within (maxNestingDepth - d)) l = true ->
  (2 * S (length (commas enc l)) <= n)%nat ->
  elements n d (commas enc l ++ "]"%char :: t) = Some (l, t).
Proof.
  induction 1 as [|x l Hx Hl IH]; [done|]. intros n d t _ Hw Hi Hd Hn.
  rewrite length_commas in Hn. destruct n as [|n]; [lia|]. rewrite commas_cons.
  cbn [forallb] in Hw, Hd. apply andb_true_iff in Hw as [Hwx Hw], Hd as [Hdx Hd].
  cbn [elements]. rewrite Hx; [| |apply Hi; left| | |lia]; [|done|done|by destruct l].
  destruct l as [|y l]; [done|]. rewrite skip_first by done. cbv iota.
  replace (skip_ws (commas enc (y :: l) ++ "]"%char :: t)) with (commas enc (y :: l) ++ "]"%char :: t).
  2:{ rewrite commas_cons, enc_skip; [done|]. simpl in Hw. by apply andb_true_iff in Hw as [? _]. }
  rewrite IH; [done|done|done| |done|lia]. intros z Hz. apply Hi. by right.
Qed.

Definition enc_member (kv : string * json) : chars := enc_string kv.1 ++ txt ":" ++ enc kv.2.
Lemma members_enc fs : Forall (fun kv => read_back kv.2) fs -> forall n d t,
  fs <> [] -> forallb (fun kv => valid_utf8 kv.1 && well_formed kv.2) fs = true ->
  (forall kv, kv ∈ fs -> int64s kv.2) ->
  forallb (fun kv => within (maxNestingDepth - d) kv.2) fs = true ->
  (2 * S (length (commas enc_member fs)) <= n)%nat ->
  members n d (commas enc_member fs ++ "}"%char :: t) = Some (fs, t).
Proof.
  induction 1 as [|[k v] fs Hx Hl IH]; [done|]. intros n d t _ Hw Hi Hd Hn.
  rewrite length_commas in Hn. destruct n as [|n]; [lia|]. rewrite commas_cons.
  cbn [forallb fst snd] in Hw, Hd. apply andb_true_iff in Hw as [Hwx Hw], Hd as [Hdx Hd].
  apply andb_true_iff in Hwx as [Hk Hv].
  unfold enc_member at 1. unfold enc_string, quote at 1. cbn [fst snd]. rewrite <- !app_assoc.
  cbn [app members]. change (negb (Ascii.eqb "034" "034")) with false. cbv iota.
  change (["034"%char] ++ ?x) with (quote ++ x).
  rewrite str_lit_enc by done. cbn [app txt bytes_of_string String.list_ascii_of_string].
  rewrite skip_first by done. cbv iota. rewrite enc_skip by done.
  unfold enc_member at 1 in Hn. cbn [fst snd] in Hn. rewrite !length_app in Hn. cbn [snd] in Hx.
  rewrite Hx; [|done|by apply (Hi (k, v)); left|done|by destruct fs|lia].
  destruct fs as [|y fs]; [done|]. rewrite skip_first by done. cbv iota.
  replace (skip_ws (commas enc_member (y :: fs) ++ "}"%char :: t))
    with (commas enc_member (y :: fs) ++ "}"%char :: t) by (by rewrite commas_cons).
  rewrite IH; [done|done|done| |done|lia]. intros z Hz. apply Hi. by right.
Qed.

Lemma value_enc j : read_back j.
Proof.
  induction j as [|b|lit|s|l IH|fs IH] using json_ind_nested; intros n d t Hw Hi Hd Ht Hn;
    (destruct n as [|n]; [lia|]).
  - cbn. unfold lit_value. by rewrite bool_decide_eq_true_2.
  - destruct b; cbn; unfold lit_value; by rewrite bool_decide_eq_true_2.
  - destruct (Hi lit) as (z & -> & Hz); [left|]. destruct (scan_number_dec z t Hz Ht) as (x & E & Ex & Hx).
    destruct (enc_first _ Hw) as (c & r & Ec & _ & _ & Hk). cbn [enc kind_of] in Ec, Hk |- *.
    rewrite Ec in E |- *. cbn [app value] in E |- *.
    rewrite E, Hx, Ex. unfold txt, bytes_of_string. rewrite String.string_of_list_ascii_of_string.
    by destruct c as [[] [] [] [] [] [] [] []]; try discriminate Hk.
  - cbn [enc]. unfold enc_string. rewrite <- !app_assoc. unfold quote at 1. cbn [app value].
    change (Ascii.eqb "034" "{") with false. change (Ascii.eqb "034" "[") with false.
    change (Ascii.eqb "034" "034") with true. cbv iota. by rewrite str_lit_enc.
  - cbn [enc within well_formed] in *. apply andb_true_iff in Hd as [Hp Hd]. apply Z.ltb_lt in Hp.
    rewrite !length_app in Hn. rewrite <- !app_assoc.
    cbn [app txt bytes_of_string String.list_ascii_of_string length] in *. cbn [value].
    change (Ascii.eqb "[" "{") with false. change (Ascii.eqb "[" "[") with true. cbv iota.
    destruct (Z.ltb_spec maxNestingDepth (d + 1)); [lia|].
    destruct l as [|x l]; [done|]. cbn [app txt bytes_of_string String.list_ascii_of_string] in *.
    assert (He : elements n (d + 1) (commas enc (x :: l) ++ "]"%char :: t) = Some (x :: l, t)).
    { apply elements_enc; [done|done|done|by apply int64s_elem| |simpl in Hn |- *; lia].
      by rewrite Z.sub_add_distr. }
    assert (Hwx : well_formed x = true) by (simpl in Hw; by apply andb_true_iff in Hw as [? _]).
    destruct (enc_first x Hwx) as (c & r & Ec & Hc & Hb & _).
    assert (Hs : exists r', commas enc (x :: l) ++ "]"%char :: t = c :: r').
    { rewrite commas_cons, Ec. by eexists. }
    destruct Hs as [r' Hs]. rewrite Hs in *. rewrite skip_first by done. clear Ec Hs.
    by destruct c as [[] [] [] [] [] [] [] []]; try discriminate Hb; rewrite He.
  - cbn [enc within well_formed] in *. apply andb_true_iff in Hd as [Hp Hd]. apply Z.ltb_lt in Hp.
    change (fun kv => enc_string kv.1 ++ txt ":" ++ enc kv.2) with enc_member in *.
    rewrite !length_app in Hn. rewrite <- !app_assoc.
    cbn [app txt bytes_of_string String.list_ascii_of_string length] in *. cbn [value].
    change (Ascii.eqb "{" "{") with true. cbv iota.
    destruct (Z.ltb_spec maxNestingDepth (d + 1)); [lia|].
    destruct fs as [|x fs]; [done|].
    assert (He : members n (d + 1) (commas enc_member (x :: fs) ++ "}"%char :: t) = Some (x :: fs, t)).
    { apply members_enc; [done|done|done|by apply int64s_member| |simpl in Hn |- *; lia].
      by rewrite Z.sub_add_distr. }
    assert (Hs : exists r', commas enc_member (x :: fs) ++ "}"%char :: t = "034"%char :: r').
    { rewrite commas_cons. by eexists. }
    destruct Hs as [r' Hs]. rewrite Hs in *. rewrite skip_first by done. cbv iota. by rewrite He.
Qed.

Lemma unmarshal_marshal j :
  well_formed j = true -> int64s j -> within maxNestingDepth j = true ->
  unmarshal (marshal j) = Some j.
Proof.
  intros Hw Hi Hd. unfold unmarshal, marshal, txt, bytes_of_string.
  rewrite String.list_ascii_of_string_of_list_ascii. pose proof (enc_skip j [] Hw) as Hs.
  rewrite app_nil_r in Hs. rewrite Hs. pose proof (value_enc j (S (2 * length (enc j))) 0 []) as Hv.
  rewrite app_nil_r in Hv. rewrite Hv; [done|done|done|by rewrite Z.sub_0_r|done|lia].
Qed.
