(* ===== verification/GoQuote.v ===== *)
(** * strconv.Quote

    The format [%q] of fmt.  [quote] scans the runes of a string: a quote and a
    backslash are escaped, printable runes are kept, control bytes, bytes that
    start no rune and other runes become escapes.  Which runes above ASCII are
    printable is a table of the unicode package, a parameter.  A quoted text
    followed by anything determines the string and what follows
    ([quote_prefix]), so texts built of quoted fields are unambiguous. *)

From S2P Require Import Prelude GoStd GoJson GoUnmarshal.

Module GoQuote.

(** The code point of a rune of two to four bytes. *)
Definition rune_val (r : chars) : Z :=
  match map byte_val r with
  | [a; b] => (a - 192) * 64 + (b - 128)
  | [a; b; c] => (a - 224) * 4096 + (b - 128) * 64 + (c - 128)
  | [a; b; c; d] => (a - 240) * 262144 + (b - 128) * 4096 + (c - 128) * 64 + (d - 128)
  | _ => 0
  end.
(** [n] hexadecimal digits. *)
Fixpoint hex_digits (n : nat) (z : Z) : chars :=
  match n with
  | O => []
  | S n' => hex_digits n' (z / 16) ++ [hexdigit (z mod 16)]
  end.
Definition quote_byte (c : ascii) : chars :=
  let b := byte_val c in
  if b =? 34 then txt "\" ++ [c]
  else if b =? 92 then txt "\\"
  else if (32 <=? b) && (b <? 127) then [c]
  else if b =? 7 then txt "\a"
  else if b =? 8 then txt "\b"
  else if b =? 12 then txt "\f"
  else if b =? 10 then txt "\n"
  else if b =? 13 then txt "\r"
  else if b =? 9 then txt "\t"
  else if b =? 11 then txt "\v"
  else txt "\x" ++ hex_digits 2 b.
Definition quote_wide (r : chars) : chars :=
  if rune_val r <? 65536 then txt "\u" ++ hex_digits 4 (rune_val r)
  else txt "\U" ++ hex_digits 8 (rune_val r).

Section Print.
(** unicode.IsPrint above ASCII, on the bytes of a rune. *)
Context (is_print : chars -> bool).

Fixpoint quote_body (fuel : nat) (s : chars) : chars :=
  match fuel, s with
  | S fuel', c :: s' =>
      match utf8_len s with
      | O => txt "\x" ++ hex_digits 2 (byte_val c) ++ quote_body fuel' s'
      | S O => quote_byte c ++ quote_body fuel' s'
      | n => let r := take n s in
             (if is_print r then r else quote_wide r) ++ quote_body fuel' (drop n s)
      end
  | _, _ => []
  end.
Definition quote_chars (s : string) : chars :=
  let cs := bytes_of_string s in ["034"%char] ++ quote_body (length cs) cs ++ ["034"%char].
Definition quote (s : string) : string := String.string_of_list_ascii (quote_chars s).
End Print.

(** ** Reading a quoted text *)

Fixpoint read_hex (n : nat) (acc : Z) (s : chars) : option (Z * chars) :=
  match n, s with
  | O, _ => Some (acc, s)
  | S n', c :: s' =>
      match hex_value c with Some v => read_hex n' (16 * acc + v) s' | None => None end
  | S _, [] => None
  end.
Definition letter (k : ascii) : ascii :=
  byte_of (if Ascii.eqb k "a" then 7 else if Ascii.eqb k "b" then 8 else if Ascii.eqb k "f" then 12
           else if Ascii.eqb k "n" then 10 else if Ascii.eqb k "r" then 13 else if Ascii.eqb k "t" then 9
           else if Ascii.eqb k "v" then 11 else byte_val k).
Fixpoint unquote (fuel : nat) (s : chars) : option (chars * chars) :=
  match fuel, s with
  | S f, c :: t =>
      if byte_val c =? 34 then Some ([], t)
      else if byte_val c =? 92 then
        match t with
        | [] => None
        | k :: t' =>
            let escape n (out : Z -> chars) :=
              match read_hex n 0 t' with
              | Some (z, t2) => cons_bytes (out z) (unquote f t2)
              | None => None
              end in
            if Ascii.eqb k "x" then escape 2%nat (fun z => [byte_of z])
            else if Ascii.eqb k "u" then escape 4%nat utf8_enc
            else if Ascii.eqb k "U" then escape 8%nat utf8_enc
            else cons_bytes [letter k] (unquote f t')
        end
      else cons_bytes [c] (unquote f t)
  | _, _ => None
  end.

Lemma byte_of_val c : byte_of (byte_val c) = c.
Proof. unfold byte_of, byte_val. by rewrite N2Z.id, ascii_N_embedding. Qed.
Lemma byte_val_range c : 0 <= byte_val c < 256.
Proof. unfold byte_val. pose proof (N_ascii_bounded c). lia. Qed.
Lemma hex_value_digit n : 0 <= n < 16 -> hex_value (hexdigit n) = Some n.
Proof.
  intros H. assert (E : exists k, (k < 16)%nat /\ n = Z.of_nat k) by (exists (Z.to_nat n); lia).
  destruct E as (k & Hk & ->). do 16 (destruct k as [|k]; [reflexivity|]). lia.
Qed.
Lemma read_hex_app n m acc s : read_hex (n + m) acc s =
  match read_hex n acc s with Some (z, t) => read_hex m z t | None => None end.
Proof.
  revert acc s. induction n as [|n IH]; intros acc s; [done|]. simpl.
  destruct s as [|c s]; [done|]. destruct (hex_value c); [apply IH|done].
Qed.
Lemma read_hex_digits n z acc t :
  0 <= z < 16 ^ Z.of_nat n -> read_hex n acc (hex_digits n z ++ t) = Some (acc * 16 ^ Z.of_nat n + z, t).
Proof.
  revert z acc t. induction n as [|n IH]; intros z acc t Hz.
  { change (16 ^ Z.of_nat 0) with 1 in *. simpl. do 2 f_equal. lia. }
  rewrite Nat2Z.inj_succ, Z.pow_succ_r in * by lia.
  pose proof (Z.div_mod z 16 ltac:(lia)). pose proof (Z.mod_pos_bound z 16 ltac:(lia)).
  replace (S n) with (n + 1)%nat by lia. rewrite read_hex_app.
  replace (n + 1)%nat with (S n) by lia. cbn [hex_digits]. rewrite <- app_assoc, IH.
  - cbn [app read_hex]. rewrite hex_value_digit by done. do 2 f_equal. lia.
  - split; [apply Z.div_pos; lia|apply Z.div_lt_upper_bound; lia].
Qed.
Lemma length_hex_digits n z : length (hex_digits n z) = n.
Proof. revert z. induction n as [|n IH]; intros z; simpl; [done|]. rewrite length_app, IH. simpl. lia. Qed.

(** The bytes of a rune from its code point. *)
Lemma split64 x y : 0 <= y < 64 -> (x * 64 + y) / 64 = x /\ (x * 64 + y) mod 64 = y.
Proof.
  intros H. rewrite Z.add_comm. rewrite Z.div_add, Z.mod_add by lia.
  rewrite Z.div_small, Z.mod_small by lia. lia.
Qed.
Lemma in_b_range lo hi c : in_b lo hi c = true -> lo <= byte_val c <= hi.
Proof. unfold in_b. rewrite andb_true_iff, !Z.leb_le. done. Qed.
Lemma cont_range c : cont c = true -> 128 <= byte_val c < 192.
Proof.
  unfold cont, Regex.in_range, byte_val. rewrite andb_true_iff, !N.leb_le.
  change (N_of_ascii "128") with 128%N. change (N_of_ascii "191") with 191%N. lia.
Qed.
Lemma enc_two a b :
  194 <= byte_val a <= 223 -> 128 <= byte_val b < 192 -> utf8_enc (rune_val [a; b]) = [a; b].
Proof.
  intros Ha Hb. unfold utf8_enc. cbn [rune_val map]. set (x := byte_val a) in *. set (y := byte_val b) in *.
  destruct (split64 (x - 192) (y - 128) ltac:(lia)) as [Ed Em].
  replace ((x - 192) * 64 + (y - 128) <? 128) with false by lia.
  replace ((x - 192) * 64 + (y - 128) <? 2048) with true by lia. rewrite Ed, Em.
  replace (192 + (x - 192)) with x by lia. replace (128 + (y - 128)) with y by lia.
  unfold x, y. by rewrite !byte_of_val.
Qed.
Lemma enc_three a b c :
  224 <= byte_val a <= 239 -> 128 <= byte_val b < 192 -> 128 <= byte_val c < 192 ->
  (byte_val a = 224 -> 160 <= byte_val b) -> utf8_enc (rune_val [a; b; c]) = [a; b; c] /\ rune_val [a; b; c] < 65536.
Proof.
  intros Ha Hb Hc Hl. unfold utf8_enc. cbn [rune_val map].
  set (x := byte_val a) in *. set (y := byte_val b) in *. set (z := byte_val c) in *.
  set (r := (x - 224) * 4096 + (y - 128) * 64 + (z - 128)).
  assert (Er : r = ((x - 224) * 64 + (y - 128)) * 64 + (z - 128)) by (unfold r; lia).
  destruct (split64 ((x - 224) * 64 + (y - 128)) (z - 128) ltac:(lia)) as [Ed Em].
  destruct (split64 (x - 224) (y - 128) ltac:(lia)) as [Ed2 Em2].
  assert (Hr : 2048 <= r < 65536) by (unfold r; lia).
  replace (r <? 128) with false by lia. replace (r <? 2048) with false by lia.
  replace (r <? 65536) with true by lia. replace (r / 4096) with (r / 64 / 64) by (rewrite Z.div_div by lia; done).
  rewrite Er, Ed, Em, Ed2, Em2.
  replace (224 + (x - 224)) with x by lia. replace (128 + (y - 128)) with y by lia.
  replace (128 + (z - 128)) with z by lia. unfold x, y, z. rewrite !byte_of_val. split; [done|lia].
Qed.
Lemma enc_four a b c d :
  240 <= byte_val a <= 244 -> 128 <= byte_val b < 192 -> 128 <= byte_val c < 192 -> 128 <= byte_val d < 192 ->
  (byte_val a = 240 -> 144 <= byte_val b) ->
  utf8_enc (rune_val [a; b; c; d]) = [a; b; c; d] /\ 65536 <= rune_val [a; b; c; d] < 4294967296.
Proof.
  intros Ha Hb Hc Hd Hl. unfold utf8_enc. cbn [rune_val map].
  set (x := byte_val a) in *. set (y := byte_val b) in *. set (z := byte_val c) in *. set (w := byte_val d) in *.
  set (r := (x - 240) * 262144 + (y - 128) * 4096 + (z - 128) * 64 + (w - 128)).
  assert (Er : r = (((x - 240) * 64 + (y - 128)) * 64 + (z - 128)) * 64 + (w - 128)) by (unfold r; lia).
  destruct (split64 (((x - 240) * 64 + (y - 128)) * 64 + (z - 128)) (w - 128) ltac:(lia)) as [Ed Em].
  destruct (split64 ((x - 240) * 64 + (y - 128)) (z - 128) ltac:(lia)) as [Ed2 Em2].
  destruct (split64 (x - 240) (y - 128) ltac:(lia)) as [Ed3 Em3].
  assert (Hr : 65536 <= r < 4294967296) by (unfold r; lia).
  replace (r <? 128) with false by lia. replace (r <? 2048) with false by lia.
  replace (r <? 65536) with false by lia.
  replace (r / 262144) with (r / 64 / 64 / 64) by (rewrite !Z.div_div by lia; done).
  replace (r / 4096) with (r / 64 / 64) by (rewrite Z.div_div by lia; done).
  rewrite Er, Ed, Em, Ed2, Em2, Ed3, Em3.
  replace (240 + (x - 240)) with x by lia. replace (128 + (y - 128)) with y by lia.
  replace (128 + (z - 128)) with z by lia. replace (128 + (w - 128)) with w by lia.
  unfold x, y, z, w. rewrite !byte_of_val. split; [done|lia].
Qed.
Lemma rune_enc s n :
  utf8_len s = S (S n) -> utf8_enc (rune_val (take (S (S n)) s)) = take (S (S n)) s /\
  0 <= rune_val (take (S (S n)) s) < 4294967296.
Proof.
  unfold utf8_len. destruct s as [|a t]; [discriminate|].
  destruct (in_b 0 127 a) eqn:Ha; [discriminate|]. destruct t as [|b t2]; [discriminate|].
  destruct (in_b 194 223 a && cont b) eqn:E2.
  { intros [= <-]. apply andb_true_iff in E2 as [E1 E2]. apply in_b_range in E1. apply cont_range in E2.
    change (take 2 (a :: b :: t2)) with [a; b]. split; [by apply enc_two|]. cbn [rune_val map]. lia. }
  destruct t2 as [|c t3]; [discriminate|].
  match goal with |- context [if ?x then 3%nat else _] => destruct x eqn:E3 end.
  { intros [= <-]. change (take 3 (a :: b :: c :: t3)) with [a; b; c]. rewrite andb_true_iff, !orb_true_iff, !andb_true_iff in E3. destruct E3 as [E3 Ec].
    apply cont_range in Ec.
    assert (H3 : 224 <= byte_val a <= 239 /\ 128 <= byte_val b < 192 /\ (byte_val a = 224 -> 160 <= byte_val b)).
    { destruct E3 as [[[[E E']|[E E']]|[E E']]|[E E']]; apply in_b_range in E;
        first [apply in_b_range in E'|apply cont_range in E']; lia. }
    destruct H3 as (H1 & H2 & H3). destruct (enc_three a b c H1 H2 Ec H3) as [He Hr]. split; [done|].
    cbn [rune_val map] in *. lia. }
  destruct t3 as [|d t4]; [discriminate|].
  match goal with |- context [if ?x then 4%nat else _] => destruct x eqn:E4 end; [|discriminate].
  intros [= <-]. change (take 4 (a :: b :: c :: d :: t4)) with [a; b; c; d]. rewrite !andb_true_iff, !orb_true_iff, !andb_true_iff in E4.
  destruct E4 as [[E4 Ec] Ed]. apply cont_range in Ec, Ed.
  assert (H4 : 240 <= byte_val a <= 244 /\ 128 <= byte_val b < 192 /\ (byte_val a = 240 -> 144 <= byte_val b)).
  { destruct E4 as [[[E E']|[E E']]|[E E']]; apply in_b_range in E;
      first [apply in_b_range in E'|apply cont_range in E']; lia. }
  destruct H4 as (H1 & H2 & H3). destruct (enc_four a b c d H1 H2 Ec Ed H3) as [He Hr]. split; [done|]. lia.
Qed.

(** ** A quoted text is read back *)

(** One escape or raw byte of the text is read as [s]. *)
Definition reads (out s : chars) : Prop :=
  (1 <= length out)%nat /\ forall n r, unquote (S n) (out ++ r) = cons_bytes s (unquote n r).
Lemma reads_hex k (n : nat) z s :
  (k = "x" /\ n = 2%nat /\ s = [byte_of z] \/ k = "u" /\ n = 4%nat /\ s = utf8_enc z \/
   k = "U" /\ n = 8%nat /\ s = utf8_enc z)%char ->
  0 <= z < 16 ^ Z.of_nat n -> reads ("\"%char :: k :: hex_digits n z) s.
Proof.
  intros H Hz. split; [simpl; lia|]. intros m r.
  assert (E : read_hex n 0 (hex_digits n z ++ r) = Some (z, r)) by (rewrite read_hex_digits; done).
  cbn [app unquote]. change (byte_val "\" =? 34) with false. change (byte_val "\" =? 92) with true. cbv iota.
  destruct H as [(-> & -> & ->)|[(-> & -> & ->)|(-> & -> & ->)]]; cbv zeta;
    rewrite E; reflexivity.
Qed.
Lemma reads_byte c : (byte_val c <? 128) = true -> reads (quote_byte c) [c].
Proof.
  intros Hc.
  destruct c as [[] [] [] [] [] [] [] []]; try discriminate Hc;
    (split; [vm_compute; lia|]; intros n r; reflexivity).
Qed.
Lemma reads_bad c : reads (txt "\x" ++ hex_digits 2 (byte_val c)) [c].
Proof.
  rewrite <- (byte_of_val c) at 2. apply reads_hex; [by left|]. apply byte_val_range.
Qed.

Section Read.
Context (is_print : chars -> bool).

Lemma unquote_high cs n r :
  Forall (fun c => (128 <=? byte_val c) = true) cs ->
  unquote (length cs + n) (cs ++ r) = cons_bytes cs (unquote n r).
Proof using.
  induction 1 as [|c cs Hc Hcs IH]; [simpl; by destruct (unquote n r) as [[]|]|].
  cbn [length Nat.add app unquote]. apply Z.leb_le in Hc.
  replace (byte_val c =? 34) with false by lia. replace (byte_val c =? 92) with false by lia.
  rewrite IH. by destruct (unquote n r) as [[]|].
Qed.
(** Enough fuel is enough. *)
Lemma quote_body_reads f s n t :
  (length s <= f)%nat -> (length (quote_body is_print f s) < n)%nat ->
  unquote n (quote_body is_print f s ++ "034"%char :: t) = Some (s, t).
Proof using.
  revert s n. induction f as [|f IH]; intros s n Hl Hn.
  { destruct s; [|simpl in Hl; lia]. destruct n; [simpl in Hn; lia|done]. }
  destruct s as [|c s]; [destruct n; [simpl in Hn; lia|done]|].
  cbn [quote_body] in *. destruct (utf8_len (c :: s)) as [|[|k]] eqn:En.
  - rewrite app_assoc in Hn |- *. rewrite <- app_assoc. destruct (reads_bad c) as [H1 H2].
    rewrite length_app in Hn. destruct n as [|n]; [lia|]. rewrite H2, IH; [done|simpl in Hl; lia|lia].
  - destruct (utf8_rune _ _ En) as [(c0 & E & Hc)|[H _]]; [|simpl in H; lia].
    injection E as <-. destruct (reads_byte _ Hc) as [H1 H2]. rewrite length_app in Hn. rewrite <- app_assoc.
    destruct n as [|n]; [lia|]. rewrite H2, IH; [done|simpl in Hl; lia|lia].
  - set (hd := take (S (S k)) (c :: s)) in *. set (tl := drop (S (S k)) (c :: s)) in *.
    assert (Hs : hd ++ tl = c :: s) by apply (take_drop (S (S k))).
    assert (Htl : (length tl <= f)%nat) by (unfold tl; rewrite length_drop; simpl in Hl |- *; lia).
    destruct (utf8_rune _ _ En) as [(c0 & E & _)|[Hge Hf]].
    { exfalso. pose proof (f_equal (@length ascii) E) as El. pose proof (utf8_len_le (c :: s)).
      rewrite length_take in El. simpl length in El at 2. lia. }
    fold hd in Hge, Hf. rewrite length_app in Hn. rewrite <- app_assoc. destruct (is_print hd).
    + replace n with (length hd + (n - length hd))%nat by lia. rewrite unquote_high by done.
      rewrite IH by lia. cbn [cons_bytes]. by rewrite Hs.
    + destruct (rune_enc _ _ En) as [He Hr]. fold hd in He, Hr.
      assert (Hw : reads (quote_wide hd) hd).
      { unfold quote_wide. destruct (Z.ltb_spec (rune_val hd) 65536).
        - apply (reads_hex "u" 4); [right; left; by rewrite He|lia].
        - apply (reads_hex "U" 8); [right; right; by rewrite He|lia]. }
      destruct Hw as [H1 H2]. destruct n as [|n]; [lia|]. rewrite H2, IH by lia. cbn [cons_bytes]. by rewrite Hs.
Qed.

(** Quoted texts are self-delimiting. *)
Lemma quote_prefix s1 s2 t1 t2 :
  quote_chars is_print s1 ++ t1 = quote_chars is_print s2 ++ t2 -> s1 = s2 /\ t1 = t2.
Proof using.
  unfold quote_chars. intros H. rewrite <- !app_assoc in H. cbn [app] in H. injection H as H.
  set (n := S (length (quote_body is_print (length (bytes_of_string s1)) (bytes_of_string s1)) +
               length (quote_body is_print (length (bytes_of_string s2)) (bytes_of_string s2)))).
  apply (f_equal (unquote n)) in H. rewrite !quote_body_reads in H by lia.
  injection H as H <-. split; [|done].
  apply (f_equal String.string_of_list_ascii) in H. unfold bytes_of_string in H.
  by rewrite !String.string_of_list_ascii_of_string in H.
Qed.
End Read.
End GoQuote.
