(* ===== verification/GoFloat.v ===== *)
(** * float64

    IEEE 754 binary64 on the specification of the Standard Library
    ([SpecFloat], mantissa of 53 bits, exponents up to 1024): the conversion of
    an int, and the sum, difference, quotient and comparisons the sources use.
    The quotient of two ints below 2^53 is below one half exactly when the
    numbers say so ([below_half]); below 2^53 ints are compared and counted
    down exactly ([FloatInts]). *)

From Stdlib Require Import SpecFloat.
From S2P Require Import Prelude.

Module Float64.

Definition t : Type := spec_float.
(** [float64(n)] *)
Definition of_int (n : Z) : t := binary_normalize 53 1024 n 0 false.
Definition div (a b : t) : t := SFdiv 53 1024 a b.
Definition add (a b : t) : t := SFadd 53 1024 a b.
Definition sub (a b : t) : t := SFsub 53 1024 a b.
Definition lt (a b : t) : bool := SFltb a b.
Definition le (a b : t) : bool := SFleb a b.
(** The constant 0.5. *)
Definition half : t := S754_finite false 4503599627370496 (-53).
(** The constant 1. *)
Definition one : t := S754_finite false 4503599627370496 (-52).
Definition quotient (a b : Z) : t := div (of_int a) (of_int b).

(** ** Digits and shifts *)

Lemma digits_size p : digits2_pos p = Pos.size p.
Proof. induction p as [p IH|p IH|]; simpl; by rewrite ?IH. Qed.
Lemma digits_bounds p n : 0 < n -> 2 ^ (n - 1) <= Z.pos p < 2 ^ n -> Z.pos (digits2_pos p) = n.
Proof.
  intros Hn [H1 H2]. rewrite digits_size.
  pose proof (Pos.size_gt p) as Hg. pose proof (Pos.size_le p) as Hl.
  apply Pos2Z.pos_lt_pos in Hg. apply Pos2Z.pos_le_pos in Hl.
  rewrite Pos2Z.inj_pow in Hg, Hl. rewrite (Pos2Z.inj_xO p) in Hl.
  assert (Z.pos (Pos.size p) - 1 < n).
  { apply (Z.pow_lt_mono_r_iff 2); [lia..|].
    assert (2 ^ Z.pos (Pos.size p) = 2 * 2 ^ (Z.pos (Pos.size p) - 1))
      by (rewrite <- Z.pow_succ_r by lia; f_equal; lia). lia. }
  assert (n - 1 < Z.pos (Pos.size p)) by (apply (Z.pow_lt_mono_r_iff 2); lia). lia.
Qed.
Lemma iter_xO p d : Z.pos (Pos.iter xO p d) = Z.pos p * 2 ^ Z.pos d.
Proof.
  induction d as [|d IH] using Pos.peano_ind; [simpl; lia|].
  rewrite Pos.iter_succ, Pos2Z.inj_xO, IH, Pos2Z.inj_succ, Z.pow_succ_r by lia. lia.
Qed.
Lemma loc_record m l : loc_of_shr_record (shr_record_of_loc m l) = l.
Proof. by destruct l as [|[]]. Qed.
Lemma record_m m l : shr_m (shr_record_of_loc m l) = m.
Proof. by destruct l as [|[]]. Qed.

(** A normalised mantissa. *)
Definition normal (m : Z) : Prop := 2 ^ 52 <= m < 2 ^ 53.
Lemma normal_digits p : normal (Z.pos p) -> Z.pos (digits2_pos p) = 53.
Proof. intros H. apply digits_bounds; [lia|exact H]. Qed.
Lemma round_even_bounds q l : q <= round_nearest_even q l <= q + 1.
Proof. destruct l as [|[]]; simpl; try destruct (Z.even q); lia. Qed.

(** Exponents far from the limits of the format. *)
Definition mid (e : Z) : Prop := -200 <= e <= 200.

(** A mantissa of 53 bits is kept. *)
Lemma shr_keep p e l :
  normal (Z.pos p) -> mid e -> shr_fexp 53 1024 (Z.pos p) e l = (shr_record_of_loc (Z.pos p) l, e).
Proof.
  intros Hp He. unfold shr_fexp. cbn [Zdigits2]. rewrite normal_digits by done.
  unfold fexp, emin, mid in *. replace (Z.max _ _ - e) with 0 by lia. done.
Qed.
Lemma round_done p e l :
  normal (Z.pos p) -> normal (round_nearest_even (Z.pos p) l) -> mid e ->
  binary_round_aux 53 1024 false (Z.pos p) e l =
  S754_finite false (Z.to_pos (round_nearest_even (Z.pos p) l)) e.
Proof.
  intros Hp Hr He. unfold binary_round_aux. rewrite shr_keep, record_m, loc_record by done.
  destruct (round_nearest_even (Z.pos p) l) as [|q|q] eqn:E; [destruct Hr; lia| |destruct Hr; lia].
  rewrite shr_keep by done. cbn [shr_record_of_loc shr_m]. unfold mid in He.
  by replace (e <=? 1024 - 53) with true by lia.
Qed.
(** A mantissa of 54 bits loses one. *)
Lemma shr_half p e l :
  2 ^ 53 <= Z.pos p < 2 ^ 54 -> mid e ->
  shr_fexp 53 1024 (Z.pos p) e l = (shr_1 (shr_record_of_loc (Z.pos p) l), e + 1).
Proof.
  intros Hp He. unfold shr_fexp. cbn [Zdigits2]. rewrite (digits_bounds p 54) by (lia || done).
  unfold fexp, emin, mid in *. replace (Z.max _ _ - e) with 1 by lia. done.
Qed.
Lemma shr_1_m p l : 2 <= Z.pos p -> shr_m (shr_1 (shr_record_of_loc (Z.pos p) l)) = Z.pos p / 2.
Proof.
  intros Hp. pose proof (Z.div2_div (Z.pos p)) as Hd.
  destruct p as [p|p|]; [| |lia]; rewrite <- Hd; by destruct l as [|[]].
Qed.
Lemma round_half p e l m :
  2 ^ 53 <= Z.pos p < 2 ^ 54 -> mid e -> mid (e + 1) ->
  m = round_nearest_even (Z.pos p / 2) (loc_of_shr_record (shr_1 (shr_record_of_loc (Z.pos p) l))) ->
  normal m -> binary_round_aux 53 1024 false (Z.pos p) e l = S754_finite false (Z.to_pos m) (e + 1).
Proof.
  intros Hp He He1 Hm Hr. unfold binary_round_aux. rewrite shr_half, shr_1_m, <- Hm by (done || lia).
  destruct m as [|q|q]; [destruct Hr; lia| |destruct Hr; lia].
  rewrite shr_keep by done. cbn [shr_record_of_loc shr_m]. unfold mid in He1.
  by replace (e + 1 <=? 1024 - 53) with true by lia.
Qed.

(** ** Ints *)

Lemma of_int_normal a :
  0 < a < 2 ^ 53 ->
  exists m k, of_int a = S754_finite false m (- k) /\ Z.pos m = a * 2 ^ k /\
    normal (Z.pos m) /\ 0 <= k <= 52.
Proof.
  intros Ha. destruct a as [|p|p]; [lia| |lia]. set (d := Z.pos (digits2_pos p)).
  assert (Hd : 2 ^ (d - 1) <= Z.pos p < 2 ^ d).
  { unfold d. rewrite digits_size. pose proof (Pos.size_gt p) as Hg. pose proof (Pos.size_le p) as Hl.
    apply Pos2Z.pos_lt_pos in Hg. apply Pos2Z.pos_le_pos in Hl.
    rewrite Pos2Z.inj_pow in Hg, Hl. rewrite (Pos2Z.inj_xO p) in Hl.
    assert (2 ^ Z.pos (Pos.size p) = 2 * 2 ^ (Z.pos (Pos.size p) - 1))
      by (rewrite <- Z.pow_succ_r by lia; f_equal; lia). lia. }
  assert (Hd1 : 1 <= d <= 53).
  { split; [unfold d; lia|]. assert (d - 1 < 53); [|lia]. apply (Z.pow_lt_mono_r_iff 2); lia. }
  assert (Hn : normal (Z.pos p * 2 ^ (53 - d))).
  { unfold normal. replace (2 ^ 52) with (2 ^ (d - 1) * 2 ^ (53 - d)) by (rewrite <- Z.pow_add_r by lia; f_equal; lia).
    replace (2 ^ 53) with (2 ^ d * 2 ^ (53 - d)) by (rewrite <- Z.pow_add_r by lia; f_equal; lia).
    pose proof (Z.pow_pos_nonneg 2 (53 - d)). nia. }
  assert (Hs : exists m, shl_align p 0 (fexp 53 1024 (d + 0)) = (m, - (53 - d)) /\
                         Z.pos m = Z.pos p * 2 ^ (53 - d)).
  { unfold shl_align, fexp, emin. replace (Z.max _ _ - 0) with (- (53 - d)) by lia.
    destruct (53 - d) as [|k|k] eqn:E; [|exists (Pos.iter xO p k)|lia].
    - exists p. split; [done|]. rewrite Z.pow_0_r. lia.
    - cbn [Z.opp]. split; [|apply iter_xO]. f_equal. lia. }
  destruct Hs as (m & Hs & Hm). exists m, (53 - d). rewrite <- Hm in *.
  split; [|split; [done|split; [done|lia]]].
  unfold of_int, binary_normalize, binary_round. fold d. rewrite Hs.
  rewrite round_done; [done|done|done|unfold mid; lia].
Qed.

(** ** The quotient *)

Lemma div_core m1 e1 m2 e2 :
  normal (Z.pos m1) -> normal (Z.pos m2) -> -52 <= e1 <= 0 -> -52 <= e2 <= 0 ->
  SFdiv_core_binary 53 1024 (Z.pos m1) e1 (Z.pos m2) e2 =
  (Z.pos m1 * 2 ^ 53 / Z.pos m2, e1 - e2 - 53, new_location (Z.pos m2) (Z.pos m1 * 2 ^ 53 mod Z.pos m2)).
Proof.
  intros H1 H2 E1 E2. unfold SFdiv_core_binary. cbn [Zdigits2]. rewrite !normal_digits by done.
  unfold fexp, emin. replace (Z.min _ _) with (e1 - e2 - 53) by lia.
  replace (e1 - e2 - (e1 - e2 - 53)) with 53 by lia. rewrite Z.shiftl_mul_pow2 by lia.
  pose proof (Z.div_eucl_eq (Z.pos m1 * 2 ^ 53) (Z.pos m2)). unfold Z.div, Z.modulo.
  by destruct (Z.div_eucl _ _).
Qed.

(** The quotient of normalised mantissas never rounds up to a power of two. *)
Lemma div_small a b :
  normal a -> normal b -> a < b -> 2 ^ 52 <= a * 2 ^ 53 / b <= 2 ^ 53 - 2.
Proof.
  unfold normal. intros Ha Hb Hab. split.
  - apply Z.div_le_lower_bound; lia.
  - assert (a * 2 ^ 53 / b < 2 ^ 53 - 1) by (apply Z.div_lt_upper_bound; lia). lia.
Qed.
Lemma div_large a b :
  normal a -> normal b -> b <= a ->
  2 ^ 53 <= a * 2 ^ 53 / b <= 2 ^ 54 - 4 \/ (a * 2 ^ 53 / b = 2 ^ 54 - 2 /\ a * 2 ^ 53 mod b = 0) \/
  a * 2 ^ 53 / b = 2 ^ 54 - 3.
Proof.
  unfold normal. intros Ha Hb Hab.
  pose proof (Z.div_mod (a * 2 ^ 53) b ltac:(lia)) as Hq. pose proof (Z.mod_pos_bound (a * 2 ^ 53) b ltac:(lia)).
  assert (2 ^ 53 <= a * 2 ^ 53 / b) by (apply Z.div_le_lower_bound; lia).
  set (q := a * 2 ^ 53 / b) in *. set (r := a * 2 ^ 53 mod b) in *.
  assert (q < 2 ^ 54 - 1).
  { apply Z.div_lt_upper_bound; lia. }
  destruct (Z.eq_dec q (2 ^ 54 - 2)) as [E|E]; [right; left|lia]. split; [done|]. rewrite E in Hq. lia.
Qed.
Lemma quotient_exponent m1 e1 m2 e2 :
  normal (Z.pos m1) -> normal (Z.pos m2) -> -52 <= e1 <= 0 -> -52 <= e2 <= 0 ->
  exists m, normal (Z.pos m) /\
    div (S754_finite false m1 e1) (S754_finite false m2 e2) =
    S754_finite false m (if Z.pos m1 <? Z.pos m2 then e1 - e2 - 53 else e1 - e2 - 52).
Proof.
  intros H1 H2 E1 E2. unfold div, SFdiv. rewrite div_core by done. cbn [xorb].
  set (l := new_location _ _). set (q := Z.pos m1 * 2 ^ 53 / Z.pos m2) in *.
  assert (Hm : mid (e1 - e2 - 53) /\ mid (e1 - e2 - 53 + 1)) by (unfold mid; lia). destruct Hm as [Hm Hm1].
  destruct (Z.ltb_spec (Z.pos m1) (Z.pos m2)) as [Hlt|Hge].
  - pose proof (div_small _ _ H1 H2 Hlt) as Hq. fold q in Hq.
    pose proof (round_even_bounds q l) as Hr. exists (Z.to_pos (round_nearest_even q l)).
    destruct q as [|p|p]; [lia| |lia]. split; [unfold normal; lia|]. apply round_done; [unfold normal; lia..|done].
  - pose proof (div_large _ _ H1 H2 Hge) as Hq. fold q in Hq.
    assert (Hn : normal (round_nearest_even (q / 2) (loc_of_shr_record (shr_1 (shr_record_of_loc q l))))).
    { pose proof (round_even_bounds (q / 2) (loc_of_shr_record (shr_1 (shr_record_of_loc q l)))) as Hr.
      pose proof (Z.div_mod q 2). pose proof (Z.mod_pos_bound q 2).
      unfold normal. destruct Hq as [Hq|[[Hq Hz]|Hq]]; [lia| |lia].
      assert (El : l = loc_Exact) by (unfold l, new_location, new_location_even, new_location_odd;
        rewrite Hz; by destruct (Z.even _)).
      rewrite El, Hq. vm_compute. by split. }
    assert (Hq' : 2 ^ 53 <= q < 2 ^ 54) by lia.
    exists (Z.to_pos (round_nearest_even (q / 2) (loc_of_shr_record (shr_1 (shr_record_of_loc q l))))).
    destruct q as [|p|p]; [lia| |lia]. split.
    + rewrite Z2Pos.id; [exact Hn|]. destruct Hn as [Hn _]. revert Hn. apply Z.lt_le_trans. reflexivity.
    + replace (e1 - e2 - 52) with (e1 - e2 - 53 + 1) by lia.
      exact (round_half p (e1 - e2 - 53) l _ Hq' Hm Hm1 eq_refl Hn).
Qed.

Lemma compare_cont_Eq p q : Pos.compare_cont Eq p q = Pos.compare p q.
Proof. done. Qed.
Lemma below_half_normal m e :
  normal (Z.pos m) -> lt (S754_finite false m e) half = (e <? -53).
Proof.
  intros [Hm _]. change (2 ^ 52) with 4503599627370496 in Hm. unfold lt, SFltb, half. cbn [SFcompare].
  destruct (Z.compare_spec e (-53)) as [E|E|E]; [|lia..].
  rewrite E, (compare_cont_Eq m). revert Hm. generalize 4503599627370496%positive as h. intros h Hm.
  destruct (Pos.compare_spec m h); [done|lia|done].
Qed.

(** Ints below 2^53: the quotient is below the float 0.5 exactly when twice
    the numerator is below the denominator. *)
Lemma below_half a b :
  0 <= a < 2 ^ 53 -> 0 < b < 2 ^ 53 -> lt (quotient a b) half = (2 * a <? b).
Proof.
  intros Ha Hb. destruct (of_int_normal b Hb) as (m2 & k2 & E2 & Hm2 & N2 & K2).
  unfold quotient. rewrite E2. destruct (Z.eq_dec a 0) as [->|Hne].
  { cbn. symmetry. apply Z.ltb_lt. lia. }
  destruct (of_int_normal a ltac:(lia)) as (m1 & k1 & E1 & Hm1 & N1 & K1). rewrite E1.
  destruct (quotient_exponent m1 (- k1) m2 (- k2) N1 N2 ltac:(lia) ltac:(lia)) as (m & Hm & ->).
  rewrite below_half_normal by done. unfold normal in *. apply eq_true_iff_eq. rewrite !Z.ltb_lt.
  assert (Hs : 2 * a < b <-> Z.pos m1 * 2 ^ (k2 + 1) < Z.pos m2 * 2 ^ k1).
  { clear - Hm1 Hm2 K1 K2. rewrite Hm1, Hm2. replace (a * 2 ^ k1 * 2 ^ (k2 + 1)) with (2 * a * (2 ^ k1 * 2 ^ k2))
      by (rewrite Z.pow_add_r by lia; lia).
    replace (b * 2 ^ k2 * 2 ^ k1) with (b * (2 ^ k1 * 2 ^ k2)) by lia.
    pose proof (Z.pow_pos_nonneg 2 k1 ltac:(lia) ltac:(lia)). pose proof (Z.pow_pos_nonneg 2 k2 ltac:(lia) ltac:(lia)).
    set (P := 2 ^ k1 * 2 ^ k2). assert (0 < P) by (unfold P; nia). clearbody P. split; nia. }
  rewrite Hs.
  set (x := Z.pos m1) in *. set (y := Z.pos m2) in *. clearbody x y.
  clear - Hs N1 N2 K1 K2. change (2 ^ 52) with 4503599627370496 in *. change (2 ^ 53) with 9007199254740992 in *.
  destruct (Z.lt_ge_cases k1 (k2 + 1)) as [Hk|Hk].
  - replace (k2 + 1) with (k1 + (k2 + 1 - k1)) by lia. rewrite Z.pow_add_r by lia.
    assert (2 <= 2 ^ (k2 + 1 - k1)) by (change 2 with (2 ^ 1) at 1; apply Z.pow_le_mono_r; lia).
    pose proof (Z.pow_pos_nonneg 2 k1 ltac:(lia) ltac:(lia)).
    set (P := 2 ^ (k2 + 1 - k1)) in *. set (Q := 2 ^ k1) in *. clearbody P Q.
    assert (y < x * P) by nia. assert (y * Q < x * P * Q) by nia.
    destruct (Z.ltb_spec x y); split; lia.
  - assert (E : 2 ^ k1 = 2 ^ (k2 + 1) * 2 ^ (k1 - (k2 + 1))) by (rewrite <- Z.pow_add_r by lia; f_equal; lia).
    rewrite E. clear E.
    pose proof (Z.pow_pos_nonneg 2 (k2 + 1) ltac:(lia) ltac:(lia)) as Hp.
    destruct (Z.eq_dec k1 (k2 + 1)) as [Ek|Ek].
    + replace (k1 - (k2 + 1)) with 0 by lia. rewrite Z.pow_0_r. set (P := 2 ^ (k2 + 1)) in *. clearbody P.
      destruct (Z.ltb_spec x y); split; try lia; nia.
    + assert (2 <= 2 ^ (k1 - (k2 + 1))) by (change 2 with (2 ^ 1) at 1; apply Z.pow_le_mono_r; lia).
      set (P := 2 ^ (k2 + 1)) in *. set (Q := 2 ^ (k1 - (k2 + 1))) in *. clearbody P Q.
      assert (x < y * Q) by nia. assert (x * P < y * (P * Q)) by nia.
      destruct (Z.ltb_spec x y); split; lia.
Qed.
End Float64.

(** ** Ints as floats: comparison and counting down *)

Module FloatInts.
Import Float64.

Lemma compare_normal m1 k1 m2 k2 a b :
  Z.pos m1 = a * 2 ^ k1 -> Z.pos m2 = b * 2 ^ k2 -> normal (Z.pos m1) -> normal (Z.pos m2) ->
  0 <= k1 -> 0 <= k2 ->
  SFcompare (S754_finite false m1 (- k1)) (S754_finite false m2 (- k2)) = Some (a ?= b).
Proof.
  unfold normal. intros E1 E2 N1 N2 K1 K2. cbn [SFcompare].
  assert (Hlt : forall x y j k, 2 ^ 52 <= x * 2 ^ j < 2 ^ 53 -> 2 ^ 52 <= y * 2 ^ k < 2 ^ 53 ->
                  0 <= k -> k < j -> x < y).
  { intros x y j k Hx Hy Hk Hj. replace j with (k + (j - k)) in Hx by lia.
    rewrite Z.pow_add_r in Hx by lia.
    assert (2 <= 2 ^ (j - k)) by (change 2 with (2 ^ 1) at 1; apply Z.pow_le_mono_r; lia).
    pose proof (Z.pow_pos_nonneg 2 k ltac:(lia) ltac:(lia)).
    set (P := 2 ^ k) in *. set (Q := 2 ^ (j - k)) in *. clearbody P Q.
    destruct (Z.lt_ge_cases x y) as [|Hge]; [done|exfalso].
    assert (y * P <= x * P) by nia. assert (x * P * 2 <= x * P * Q) by nia.
    replace (x * (P * Q)) with (x * P * Q) in Hx by ring. lia. }
  rewrite E1 in N1. rewrite E2 in N2.
  destruct (Z.compare_spec (- k1) (- k2)) as [E|E|E].
  - assert (k1 = k2) as <- by lia. rewrite (compare_cont_Eq m1). f_equal.
    change ((m1 ?= m2)%positive) with (Z.pos m1 ?= Z.pos m2). rewrite E1, E2.
    pose proof (Z.pow_pos_nonneg 2 k1 ltac:(lia) ltac:(lia)).
    symmetry. apply Zmult_compare_compat_r. by apply Z.lt_gt.
  - f_equal. symmetry. apply Z.compare_lt_iff. by apply (Hlt a b k1 k2); lia.
  - f_equal. symmetry. apply Z.compare_gt_iff. by apply (Hlt b a k2 k1); lia.
Qed.
Lemma of_int_0 : of_int 0 = S754_zero false.
Proof. done. Qed.
Lemma compare_of_int a b :
  0 <= a < 2 ^ 53 -> 0 <= b < 2 ^ 53 -> SFcompare (of_int a) (of_int b) = Some (a ?= b).
Proof.
  intros Ha Hb. destruct (Z.eq_dec a 0) as [->|Ha0], (Z.eq_dec b 0) as [->|Hb0].
  - done.
  - destruct (of_int_normal b ltac:(lia)) as (m & k & -> & _). rewrite of_int_0. simpl.
    destruct b; [lia|done|lia].
  - destruct (of_int_normal a ltac:(lia)) as (m & k & -> & _). rewrite of_int_0. simpl.
    destruct a; [lia|done|lia].
  - destruct (of_int_normal a ltac:(lia)) as (m1 & k1 & -> & E1 & N1 & K1).
    destruct (of_int_normal b ltac:(lia)) as (m2 & k2 & -> & E2 & N2 & K2).
    apply compare_normal; auto; lia.
Qed.
Lemma lt_of_int a b : 0 <= a < 2 ^ 53 -> 0 <= b < 2 ^ 53 -> lt (of_int a) (of_int b) = (a <? b).
Proof. intros Ha Hb. unfold lt, SFltb, Z.ltb. rewrite compare_of_int by done. by destruct (a ?= b). Qed.
Lemma le_of_int a b : 0 <= a < 2 ^ 53 -> 0 <= b < 2 ^ 53 -> le (of_int a) (of_int b) = (a <=? b).
Proof. intros Ha Hb. unfold le, SFleb, Z.leb. rewrite compare_of_int by done. by destruct (a ?= b). Qed.
Lemma one_int : one = of_int 1.
Proof. reflexivity. Qed.

(** Nothing is added in no time. *)
Lemma add_nothing n r : 0 <= n < 2 ^ 53 -> 0 < r < 2 ^ 53 -> add (of_int n) (quotient 0 r) = of_int n.
Proof.
  intros Hn Hr. unfold quotient. destruct (of_int_normal r Hr) as (m & k & -> & _). rewrite of_int_0.
  simpl. destruct (Z.eq_dec n 0) as [->|Hne]; [done|].
  destruct (of_int_normal n ltac:(lia)) as (m1 & k1 & -> & _). done.
Qed.

(** *** Shifting out zeros *)

Lemma shr_1_even m : shr_1 (Build_shr_record (Z.pos (xO m)) false false) = Build_shr_record (Z.pos m) false false.
Proof. done. Qed.
Lemma iter_pos_iter {A} (f : A -> A) p x : SpecFloat.iter_pos f p x = Pos.iter f x p.
Proof.
  revert x. induction p as [p IH|p IH|]; intros x; simpl; rewrite ?IH; [|done..].
  by rewrite <- Pos.iter_swap, <- Pos.iter_swap.
Qed.
Lemma shr_exact j : forall m, Pos.iter shr_1 (Build_shr_record (Z.pos (Pos.iter xO m j)) false false) j =
                              Build_shr_record (Z.pos m) false false.
Proof.
  induction j as [|j IH] using Pos.peano_ind; intros m; [done|].
  assert (E : Pos.iter xO m (Pos.succ j) = xO (Pos.iter xO m j)) by apply Pos.iter_succ.
  rewrite E, Pos.iter_succ_r, shr_1_even. apply IH.
Qed.
Lemma round_exact m j e :
  normal (Z.pos m) -> mid e -> mid (e + Z.pos j) -> fexp 53 1024 (Z.pos (digits2_pos (Pos.iter xO m j)) + e) = e + Z.pos j ->
  binary_round_aux 53 1024 false (Z.pos (Pos.iter xO m j)) e loc_Exact = S754_finite false m (e + Z.pos j).
Proof.
  intros Hm He Hej Hf.
  assert (Hs : shr_fexp 53 1024 (Z.pos (Pos.iter xO m j)) e loc_Exact =
               (Build_shr_record (Z.pos m) false false, e + Z.pos j)).
  { unfold shr_fexp. cbn [Zdigits2]. rewrite Hf. replace (e + Z.pos j - e) with (Z.pos j) by lia.
    unfold shr. cbn [shr_record_of_loc]. by rewrite iter_pos_iter, shr_exact. }
  unfold binary_round_aux. rewrite Hs. cbn [shr_m loc_of_shr_record round_nearest_even].
  rewrite shr_keep by done. cbn [shr_record_of_loc shr_m]. unfold mid in Hej.
  by replace (e + Z.pos j <=? 1024 - 53) with true by lia.
Qed.

Lemma digits_iter_xO m j : digits2_pos (Pos.iter xO m j) = (digits2_pos m + j)%positive.
Proof.
  induction j as [|j IH] using Pos.peano_ind; [simpl; lia|].
  assert (E : Pos.iter xO m (Pos.succ j) = xO (Pos.iter xO m j)) by apply Pos.iter_succ.
  rewrite E. simpl. rewrite IH. lia.
Qed.

(** An int whose mantissa is written with 52 more bits. *)
Lemma scaled q : 1 <= q < 2 ^ 53 -> binary_normalize 53 1024 (q * 2 ^ 52) (-52) false = of_int q.
Proof.
  intros Hq. destruct (of_int_normal q ltac:(lia)) as (m & k & -> & E & N & K).
  assert (Hm : q * 2 ^ 52 = Z.pos m * 2 ^ (52 - k)).
  { rewrite E, <- Z.mul_assoc, <- Z.pow_add_r by lia. f_equal. f_equal. lia. }
  rewrite Hm. destruct (52 - k) as [|j|j] eqn:Ek; [| |lia].
  - rewrite Z.pow_0_r, Z.mul_1_r. unfold binary_normalize, binary_round. rewrite normal_digits by done.
    cbn [shl_align]. unfold shl_align. replace (fexp 53 1024 (53 + -52) - -52) with 0 by reflexivity.
    rewrite round_done by (done || unfold mid; lia). simpl. f_equal. lia.
  - rewrite <- iter_xO. unfold binary_normalize, binary_round.
    assert (Hd : Z.pos (digits2_pos (Pos.iter xO m j)) = 53 + Z.pos j)
      by (rewrite digits_iter_xO, Pos2Z.inj_add, normal_digits by done; done).
    assert (Hf : fexp 53 1024 (Z.pos (digits2_pos (Pos.iter xO m j)) + -52) = -52 + Z.pos j)
      by (rewrite Hd; unfold fexp, emin; lia).
    unfold shl_align. rewrite Hf. replace (-52 + Z.pos j - -52) with (Z.pos j) by lia.
    rewrite round_exact by (done || unfold mid; lia). f_equal. lia.
Qed.
(** Counting down is exact. *)
Lemma sub_one n : 1 <= n < 2 ^ 53 -> sub (of_int n) one = of_int (n - 1).
Proof.
  intros Hn. destruct (of_int_normal n ltac:(lia)) as (m & k & -> & E & N & K).
  unfold sub, one, SFsub. replace (Z.min (- k) (-52)) with (-52) by lia.
  assert (Hs : Z.pos (shl_align m (- k) (-52)).1 = n * 2 ^ 52).
  { unfold shl_align. destruct (-52 - - k) as [|j|j] eqn:Ek; [simpl|lia|simpl].
    - rewrite E. f_equal. f_equal. lia.
    - rewrite iter_xO, E, <- Z.mul_assoc, <- Z.pow_add_r by lia. f_equal. f_equal. lia. }
  cbn [cond_Zopp]. rewrite Hs.
  replace (n * 2 ^ 52 - Z.pos (shl_align 4503599627370496 (-52) (-52)).1) with ((n - 1) * 2 ^ 52).
  - destruct (Z.eq_dec n 1) as [->|Hne]; [done|]. apply scaled. lia.
  - change (Z.pos (shl_align 4503599627370496 (-52) (-52)).1) with (2 ^ 52). lia.
Qed.
End FloatInts.
