(* ===== verification/GoHttp.v ===== *)
(** * HTTP, from both ends

    [Header]: http.Header.  The bodies of requests and replies: what
    [json.NewDecoder(r).Decode] reads ([first_value]) and how encoding/json
    fills the fields of a struct ([field], one decoder per field type).
    [Net]: an http.Client, whose replies are a script of the environment.
    [strconv.Atoi], [strings.Fields] and base64.RawURLEncoding. *)

From S2P Require Import Prelude GoStd GoJson GoTime GoUnmarshal Sql.

(** ** Headers *)

(** http.Header: canonical names with their values. *)
Definition Header : Type := list (string * list string).
(** textproto.CanonicalMIMEHeaderKey, for the names in use, which are letters
    and hyphens: a capital after each hyphen, small letters otherwise. *)
Definition upper (c : ascii) : ascii :=
  if Regex.in_range "a" "z" c then ascii_of_N (N_of_ascii c - 32) else c.
Definition lower (c : ascii) : ascii :=
  if Regex.in_range "A" "Z" c then ascii_of_N (N_of_ascii c + 32) else c.
Fixpoint canonical_from (start : bool) (s : list ascii) : list ascii :=
  match s with
  | [] => []
  | c :: s' => (if start then upper c else lower c) :: canonical_from (Ascii.eqb c "-") s'
  end.
Definition canonical (name : string) : string :=
  String.string_of_list_ascii (canonical_from true (bytes_of_string name)).
Definition header_get (h : Header) (name : string) : string :=
  match List.find (fun kv => kv.1 =s canonical name) h with
  | Some (_, v :: _) => v
  | _ => ""
  end.
Fixpoint header_set (name value : string) (h : Header) : Header :=
  match h with
  | [] => [(canonical name, [value])]
  | kv :: h' => if kv.1 =s canonical name then (kv.1, [value]) :: h' else kv :: header_set name value h'
  end.
(** [strings.EqualFold], [strings.ToLower] on ASCII. *)
Definition to_lower (s : string) : string := String.string_of_list_ascii (map lower (bytes_of_string s)).

(** ** Bodies *)

(** [json.NewDecoder(r).Decode]: the first value of the stream; what follows
    it is not read. *)
Definition first_value (body : string) : option json :=
  let s := skip_ws (txt body) in
  fst <$> value (S (2 * length s)) 0 s.

(** A member goes to the field whose name it is up to case folding, a later
    one over an earlier one; a value of another type is an error, reported
    after the rest is decoded.  A decoder of a field takes its old value and
    answers whether there was an error and the new value. *)
Definition names (name k : string) : bool := Regex.match_full (Regex.fold_word name) k.
Definition decoder (A : Type) : Type := A -> json -> bool * A.
Definition member_into {A} (f : decoder A) (name : string) (acc : bool * A) (kv : string * json) : bool * A :=
  if names name kv.1 then let '(bad, a) := f acc.2 kv.2 in (acc.1 || bad, a) else acc.
Definition field {A} (f : decoder A) (init : A) (name : string) (fs : list (string * json)) : bool * A :=
  fold_left (member_into f name) fs (false, init).
(** The members of a document decoded into a struct; null leaves the struct. *)
Definition struct_members (j : json) : option (list (string * json)) :=
  match j with
  | JObj fs => Some fs
  | JNull => Some []
  | _ => None
  end.

Definition string_value : decoder string := fun old j =>
  match j with JStr s => (false, s) | JNull => (false, old) | _ => (true, old) end.
Definition bool_value : decoder bool := fun old j =>
  match j with JBool b => (false, b) | JNull => (false, old) | _ => (true, old) end.
(** A map[string]any: its members, the last of a name in force. *)
Definition object_value : decoder (list (string * json)) := fun old j =>
  match j with JObj fs => (false, old ++ fs) | JNull => (false, []) | _ => (true, old) end.
Definition last_member (k : string) (fs : list (string * json)) : option json :=
  snd <$> last (List.filter (fun kv => kv.1 =s k) fs).
(** [s, _ := v.(string)] *)
Definition str (v : option json) : string := match v with Some (JStr s) => s | _ => "" end.
(** A []T, its elements decoded from the zero value. *)
Definition slice_value {A} (f : decoder A) (zero : A) : decoder (list A) := fun old j =>
  match j with
  | JArr l => let vs := map (f zero) l in (existsb fst vs, map snd vs)
  | JNull => (false, [])
  | _ => (true, old)
  end.
(** A *time.Time. *)
Definition time_value : decoder (option Z) := fun old j =>
  match j with
  | JStr s => match GoTime.parse_rfc3339_nano s with Some t => (false, Some t) | None => (true, old) end
  | JNull => (false, None)
  | _ => (true, old)
  end.

(** ** Numbers and words *)

(** [strconv.Atoi] *)
Definition atoi_digits (neg : bool) (ds : list ascii) : option Z :=
  if bool_decide (ds = []) || negb (forallb Regex.digit ds) then None
  else
    let n := digits_val ds in
    let z := if neg then - n else n in
    if Int64.fits z then Some z else None.
Definition atoi (s : string) : option Z :=
  match bytes_of_string s with
  | c :: ds =>
      if Ascii.eqb c "-" then atoi_digits true ds
      else if Ascii.eqb c "+" then atoi_digits false ds
      else atoi_digits false (c :: ds)
  | [] => None
  end.
(** A *int.  A value of another type leaves the int that was allocated. *)
Definition int_ptr_value : decoder (option Z) := fun old j =>
  match j with
  | JNull => (false, None)
  | JNum lit => match atoi lit with Some z => (false, Some z) | None => (true, Some (default 0 old)) end
  | _ => (true, Some (default 0 old))
  end.

(** [strings.Fields], for the ASCII white space. *)
Fixpoint fields_from (word : list ascii) (s : list ascii) : list string :=
  let close := match word with [] => [] | _ => [String.string_of_list_ascii (rev word)] end in
  match s with
  | [] => close
  | c :: s' => if GoString.is_space c then close ++ fields_from [] s' else fields_from (c :: word) s'
  end.
Definition strings_Fields (s : string) : list string := fields_from [] (bytes_of_string s).

(** base64.RawURLEncoding.DecodeString: line ends are skipped, the last group
    may have two or three characters. *)
Definition sextet (c : ascii) : option Z :=
  if Regex.in_range "A" "Z" c then Some (byte_val c - 65)
  else if Regex.in_range "a" "z" c then Some (byte_val c - 71)
  else if Regex.digit c then Some (byte_val c + 4)
  else if Ascii.eqb c "-" then Some 62
  else if Ascii.eqb c "_" then Some 63
  else None.
Definition line_end (c : ascii) : bool := Ascii.eqb c "010" || Ascii.eqb c "013".
Fixpoint sextet_bytes (l : list Z) : option (list Z) :=
  match l with
  | a :: b :: c :: d :: l' =>
      bs ← sextet_bytes l';
      Some ([4 * a + b / 16; 16 * (b mod 16) + c / 4; 64 * (c mod 4) + d] ++ bs)
  | [a; b; c] => Some [4 * a + b / 16; 16 * (b mod 16) + c / 4]
  | [a; b] => Some [4 * a + b / 16]
  | [_] => None
  | [] => Some []
  end.
Definition base64_raw_url (s : string) : option (list Z) :=
  ds ← mapM sextet (List.filter (fun c => negb (line_end c)) (bytes_of_string s));
  sextet_bytes ds.
Definition big_endian (bs : list Z) : Z := fold_left (fun n b => 256 * n + b) bs 0.

Example base64_text : base64_raw_url "SGkh_-A" = Some [72; 105; 33; 255; 224].
Proof. vm_compute. reflexivity. Qed.
Example base64_refused : map base64_raw_url ["A"; "AA=="; "A+AA"] = [None; None; None].
Proof. vm_compute. reflexivity. Qed.
Example atoi_values :
  map atoi ["-12"; "+7"; "007"; ""; "-"; "1_0"; "9223372036854775808"] =
  [Some (-12); Some 7; Some 7; None; None; None; None].
Proof. vm_compute. reflexivity. Qed.
Example fields_words : strings_Fields " ops.read  resource.publish" = ["ops.read"; "resource.publish"].
Proof. vm_compute. reflexivity. Qed.

(** ** A client *)

Record HttpRequest : Type := MkHttpRequest {
  h_method : string;
  h_url : string;
  h_header : Header;
  h_body : string;
}.
(** How long a reply takes, and its status and body; [None] is an error of
    [Client.Do]. *)
Record Reply : Type := MkReply { r_elapsed : Z; r_answer : option (Z * string) }.
(** The replies the environment will give, and the requests sent so far. *)
Record Net : Type := MkNet { replies : list Reply; sent : list HttpRequest }.

(** [httpClient.Do(req)] *)
Definition http_do (q : HttpRequest) : M Net (option (Z * string)) :=
  fun w =>
    let n := store w in
    match replies n with
    | [] => (inr None, set_store (MkNet [] (sent n ++ [q])) w)
    | r :: rs => (inr (r_answer r), MkWorld (MkNet rs (sent n ++ [q])) (faults w) (clock w + Z.max 0 (r_elapsed r)))
    end.

(** The answer to the i-th request from now on. *)
Definition answer_of (n : Net) (i : nat) : option (Z * string) := r ← replies n !! i; r_answer r.
(** Requests are appended, and each takes the next reply. *)
Definition net_grows (n n' : Net) : Prop :=
  exists qs, sent n' = sent n ++ qs /\ replies n' = drop (length qs) (replies n).
(** Between two states of the client, [q] was sent and answered [a]. *)
Definition exchanged (n n' : Net) (q : HttpRequest) (a : option (Z * string)) : Prop :=
  exists i, sent n' !! (length (sent n) + i)%nat = Some q /\ answer_of n i = a.

Lemma net_grows_refl n : net_grows n n.
Proof. exists []. by rewrite app_nil_r. Qed.
Lemma net_grows_trans n1 n2 n3 : net_grows n1 n2 -> net_grows n2 n3 -> net_grows n1 n3.
Proof.
  intros (q1 & S1 & R1) (q2 & S2 & R2). exists (q1 ++ q2).
  by rewrite S2, S1, R2, R1, drop_drop, length_app, app_assoc.
Qed.
Lemma exchanged_later n1 n2 n3 q a : exchanged n1 n2 q a -> net_grows n2 n3 -> exchanged n1 n3 q a.
Proof.
  intros (i & Hs & Ha) (qs & S & _). exists i. split; [|done]. rewrite S.
  apply lookup_app_l_Some, Hs.
Qed.
Lemma exchanged_earlier n1 n2 n3 q a : net_grows n1 n2 -> exchanged n2 n3 q a -> exchanged n1 n3 q a.
Proof.
  intros (qs & S & R) (i & Hs & Ha). exists (length qs + i)%nat. split.
  - rewrite <- Hs, S, length_app. f_equal. lia.
  - unfold answer_of in *. by rewrite <- Ha, R, lookup_drop.
Qed.

Lemma http_do_run q w r w' :
  http_do q w = (r, w') ->
  exists a, r = inr a /\ net_grows (store w) (store w') /\ exchanged (store w) (store w') q a /\
    clock w <= clock w' /\ faults w' = faults w.
Proof.
  intros H. assert (Hn : exists a, r = inr a /\ sent (store w') = sent (store w) ++ [q] /\
    replies (store w') = drop 1 (replies (store w)) /\ a = answer_of (store w) 0 /\
    clock w <= clock w' /\ faults w' = faults w).
  { unfold http_do, answer_of in *. destruct (replies (store w)) as [|x rs] eqn:E; injection H as <- <-;
      eexists; simpl; rewrite ?drop_0; split_and!; auto; lia. }
  destruct Hn as (a & -> & S & R & A & C & F). exists a. split; [done|]. split; [by exists [q]|].
  split; [|done]. exists 0%nat. split; [|done]. by rewrite S, Nat.add_0_r, list_lookup_middle.
Qed.
Lemma http_do_advances q : advances (http_do q).
Proof. intros w. destruct (http_do q w) as [r w'] eqn:E. by apply http_do_run in E as (_ & _ & _ & _ & ? & _). Qed.
