(* ===== verification/GoText.v ===== *)
(** * More of package strings, and word boundaries

    Suffixes, [Cut], [Index] and [LastIndex], [SplitN], replacing bytes, upper
    case, and regular expressions between word boundaries.  The build-time
    tools of src/tools search texts; the components of the control plane do
    with [GoStd.GoString]. *)

From S2P Require Import Prelude GoStd GoHttp.

Module GoText.
Import GoString.

(** [strings.HasSuffix] *)
Fixpoint has_suffix (s p : string) {struct s} : bool :=
  (s =s p) || match s with
              | EmptyString => false
              | String _ s' => has_suffix s' p
              end.
Definition trim_suffix (s p : string) : string :=
  if has_suffix s p then String.substring 0 (String.length s - String.length p) s else s.

(** [strings.Cut] at a one-byte separator. *)
Fixpoint cut (sep : ascii) (s : string) : string * string * bool :=
  match s with
  | EmptyString => ("", "", false)
  | String c s' =>
      if Ascii.eqb c sep then ("", s', true)
      else let '(a, b, found) := cut sep s' in (String c a, b, found)
  end.
(** [strings.LastIndex] of a one-byte separator, as the texts around it. *)
Definition cut_last (sep : ascii) (s : string) : option (string * string) :=
  match cut sep (rev_string s) with
  | (b, a, true) => Some (rev_string a, rev_string b)
  | _ => None
  end.
(** The text before the first occurrence of [sub]; [None]: [strings.Index] is -1. *)
Fixpoint before (sub s : string) {struct s} : option string :=
  if has_prefix s sub then Some ""
  else match s with
       | EmptyString => None
       | String c s' => String c <$> before sub s'
       end.
(** [strings.SplitN(s, sep, 2)[0]] *)
Definition first_part (sep : ascii) (s : string) : string := (cut sep s).1.1.

(** [strings.ToUpper] on ASCII. *)
Definition to_upper (s : string) : string := String.string_of_list_ascii (map upper (bytes_of_string s)).
(** A [strings.Replacer] of single bytes by single bytes. *)
Definition replace_bytes (f : ascii -> ascii) (s : string) : string :=
  String.string_of_list_ascii (map f (bytes_of_string s)).
(** [bytes.Replace(s, old, new, 1)] *)
Fixpoint replace_first (old new s : string) {struct s} : string :=
  if has_prefix s old then new +:+ drop (String.length old) s
  else match s with
       | EmptyString => ""
       | String c s' => String c (replace_first old new s')
       end.

(** [bufio.ScanLines]: the lines of a text without their ends; a last line may
    have no newline.  A carriage return before the newline is dropped. *)
Definition drop_cr (s : string) : string := if has_suffix s "013" then trim_suffix s "013" else s.
Definition scan_lines (s : string) : list string :=
  let ls := split_at "010" s in
  map drop_cr (match List.rev ls with
               | "" :: r => List.rev r
               | _ => ls
               end).

(** *** Word boundaries

    [\b] in a regular expression: between a letter, digit or underscore and
    something else, or an end of the text. *)
Definition word_char (c : ascii) : bool :=
  Regex.in_range "0" "9" c || Regex.in_range "A" "Z" c || Regex.in_range "a" "z" c || Ascii.eqb c "_".
Definition wordy (c : option ascii) : bool := match c with Some c => word_char c | None => false end.
Definition boundary (before after : option ascii) : bool := xorb (wordy before) (wordy after).

(** [r\b] at the beginning of [s], [prev] being the byte before it. *)
Fixpoint here_b (r : Regex.re) (prev : option ascii) (s : list ascii) : bool :=
  (Regex.nullable r && boundary prev (head s)) ||
  match s with
  | [] => false
  | c :: s' => here_b (Regex.deriv c r) (Some c) s'
  end.
(** [\br\b] anywhere in [s]. *)
Fixpoint anywhere_b (r : Regex.re) (prev : option ascii) (s : list ascii) : bool :=
  (boundary prev (head s) && here_b r prev s) ||
  match s with
  | [] => false
  | c :: s' => anywhere_b r (Some c) s'
  end.
Definition match_word (r : Regex.re) (s : string) : bool := anywhere_b r None (bytes_of_string s).

(** *** What the searches find *)

Lemma append_assoc a b c : (a +:+ b) +:+ c = a +:+ b +:+ c.
Proof. induction a as [|x a IH]; [done|]. exact (f_equal (String x) IH). Qed.

Lemma has_suffix_spec s p : has_suffix s p = true <-> exists t, s = t +:+ p.
Proof.
  induction s as [|c s IH]; cbn [has_suffix]; rewrite orb_true_iff, String.eqb_eq; [split|rewrite IH; split].
  - intros [<-|?]; [by exists ""|done].
  - intros [[|? ?] H]; [by left|done].
  - intros [<-|[t ->]]; [by exists ""|by exists (String c t)].
  - intros [[|d t] H]; [by left|]. injection H as -> ->. eauto.
Qed.

Lemma contains_spec s sub : contains s sub = true <-> exists a b, s = a +:+ sub +:+ b.
Proof.
  induction s as [|c s IH]; simpl; rewrite orb_true_iff, has_prefix_spec.
  - split; [intros [[t ->]|?]; [by exists "", t|done]|].
    intros ([|? ?] & b & H); [left; by exists b|done].
  - rewrite IH. split.
    + intros [[t H]|(a & b & ->)]; [by exists "", t|by exists (String c a), b].
    + intros ([|d a] & b & H); [left; by exists b|]. injection H as -> ->. eauto.
Qed.

Lemma contains_app a s b sub : contains s sub = true -> contains (a +:+ s +:+ b) sub = true.
Proof.
  rewrite !contains_spec. intros (x & y & ->). exists (a +:+ x), (y +:+ b).
  by rewrite !append_assoc.
Qed.

Lemma head_app {A} (l1 l2 : list A) : head (l1 ++ l2) = match head l1 with Some a => Some a | None => head l2 end.
Proof. by destruct l1. Qed.
(** The byte before the rest of a text whose beginning [l] follows [prev]. *)
Definition byte_before (prev : option ascii) (l : list ascii) : option ascii :=
  match last l with Some c => Some c | None => prev end.
Lemma byte_before_cons prev c l : byte_before (Some c) l = byte_before prev (c :: l).
Proof.
  unfold byte_before. destruct l as [|d l]; [done|].
  change (last (c :: d :: l)) with (last (d :: l)).
  destruct (last (d :: l)) eqn:E; [done|]. by apply last_None in E.
Qed.

Lemma here_b_spec r prev s :
  here_b r prev s = true <->
  exists w t, s = w ++ t /\ Regex.lang r w /\ boundary (byte_before prev w) (head t) = true.
Proof.
  revert r prev. induction s as [|c s IH]; intros r prev; simpl;
    rewrite orb_true_iff, andb_true_iff, Regex.nullable_spec.
  - split; [intros [[? ?]|?]; [by exists [], []|done]|].
    intros (w & t & H & Hl & Hb). symmetry in H. apply app_eq_nil in H as [-> ->]. auto.
  - rewrite IH. setoid_rewrite Regex.deriv_spec. split.
    + intros [[? ?]|(w & t & -> & Hl & Hb)]; [by exists [], (c :: s)|].
      exists (c :: w), t. by rewrite <- byte_before_cons.
    + intros ([|d w] & t & H & Hl & Hb); simpl in H; [subst t; auto|].
      injection H as <- ->. right. exists w, t. by rewrite (byte_before_cons prev).
Qed.

Lemma anywhere_b_spec r prev s :
  anywhere_b r prev s = true <->
  exists a w t, s = a ++ w ++ t /\ Regex.lang r w /\
    boundary (byte_before prev a) (head (w ++ t)) = true /\
    boundary (byte_before prev (a ++ w)) (head t) = true.
Proof.
  revert prev. induction s as [|c s IH]; intros prev; simpl;
    rewrite orb_true_iff, andb_true_iff.
  - change ((Regex.nullable r && boundary prev None) || false) with (here_b r prev []).
    rewrite here_b_spec. split.
    + intros [[H1 (w & t & E & Hl & Hb)]|?]; [|done]. exists [], w, t. by rewrite <- E.
    + intros (a & w & t & E & Hl & H1 & H2). symmetry in E. apply app_eq_nil in E as [-> E].
      left. rewrite E in H1. split; [done|]. by exists w, t.
  - change ((Regex.nullable r && boundary prev (Some c)) || here_b (Regex.deriv c r) (Some c) s)
      with (here_b r prev (c :: s)).
    rewrite here_b_spec, IH. split.
    + intros [[H1 (w & t & E & Hl & Hb)]|(a & w & t & -> & Hl & H1 & H2)].
      * exists [], w, t. by rewrite <- E.
      * exists (c :: a), w, t. rewrite <- byte_before_cons.
        change ((c :: a) ++ w) with (c :: (a ++ w)). by rewrite <- byte_before_cons.
    + intros ([|d a] & w & t & E & Hl & H1 & H2).
      * left. simpl in E. rewrite E. split; [simpl in H1; by rewrite <- E in H1|]. by exists w, t.
      * injection E as <- ->. right. exists a, w, t.
        change ((c :: a) ++ w) with (c :: (a ++ w)) in H2. by rewrite !(byte_before_cons prev).
Qed.

(** A match of [\br\b] is an occurrence with boundaries on both sides. *)
Lemma match_word_spec r s :
  match_word r s = true <->
  exists a w t, bytes_of_string s = a ++ w ++ t /\ Regex.lang r w /\
    boundary (last a) (head (w ++ t)) = true /\ boundary (last (a ++ w)) (head t) = true.
Proof.
  unfold match_word. rewrite anywhere_b_spec. unfold byte_before.
  assert (E : forall l : list ascii, match last l with Some c => Some c | None => None end = last l)
    by (intros l; by destruct (last l)).
  by setoid_rewrite E.
Qed.
End GoText.
