(* ===== verification/Schema.v ===== *)
(** * The database schema

    The tables of [src/migrations/*.sql] the store operations read and write:
    one record per row, one list per table, and the constraints of the
    migrations in the functions that insert or update rows.  A violated
    constraint is the [sqlerr] PostgreSQL would raise; nothing is written
    then.  Identity columns draw from one counter. *)

From S2P Require Import Prelude GoStd GoJson Sql.

(** ** Lifecycle states *)

(** policy.State *)
Inductive PolicyState : Type := PolDraft | PolPublished | PolActivated | PolSuperseded.
(** registry.State *)
Inductive RegState : Type :=
  RegDraft | RegValidated | RegPublished | RegDeprecated | RegSuspended | RegRetired.
(** binding.State *)
Inductive BindState : Type :=
  BindDraft | BindPublished | BindSuspended | BindDeprecated | BindRetired.
(** saoaf.outbox_event.status *)
Inductive OutboxStatus : Type := ObPending | ObPublishing | ObPublished | ObFailed.
(** resolver plan status *)
Inductive PlanStatus : Type := PlanResolved | PlanExpired | PlanRevoked.

#[export] Instance PolicyState_eq_dec : EqDecision PolicyState.
Proof. solve_decision. Defined.
#[export] Instance RegState_eq_dec : EqDecision RegState.
Proof. solve_decision. Defined.
#[export] Instance BindState_eq_dec : EqDecision BindState.
Proof. solve_decision. Defined.
#[export] Instance OutboxStatus_eq_dec : EqDecision OutboxStatus.
Proof. solve_decision. Defined.
#[export] Instance PlanStatus_eq_dec : EqDecision PlanStatus.
Proof. solve_decision. Defined.

(** Go's [==] on the state types. *)
Notation "a =d b" := (bool_decide (a = b)) (at level 70, no associativity) : saoaf_scope.

(** ** Rows *)

(** policy.Content *)
Record Content : Type := MkContent {
  Regions : list string;
  DataClassMax : string;
  VendorRestrictions : list string;
  ExportRequirements : list string;
  EligibilityCEL : string;
}.

(** binding.Scope *)
Record Scope : Type := MkScope {
  TenantRefs : list string;
  FactoryRefs : list string;
  ScopeRegions : list string;
  AgentRefs : list string;
}.

(** policy.policy_revision *)
Record PolicyRow : Type := MkPolicyRow {
  po_id : Z;
  po_set_id : string;
  po_version : Z;
  po_state : PolicyState;
  po_content : Content;
  po_digest : string;
  po_created_at : Z;
  po_published_at : option Z;
  po_activated_at : option Z;
  po_tenant_ref : string;
}.
Definition set_po_state (v : PolicyState) (r : PolicyRow) : PolicyRow :=
    MkPolicyRow (po_id r) (po_set_id r) (po_version r) v (po_content r) (po_digest r)
    (po_created_at r) (po_published_at r) (po_activated_at r) (po_tenant_ref r).
Definition set_po_published_at (v : option Z) (r : PolicyRow) : PolicyRow :=
    MkPolicyRow (po_id r) (po_set_id r) (po_version r) (po_state r) (po_content r) (po_digest r)
    (po_created_at r) v (po_activated_at r) (po_tenant_ref r).
Definition set_po_activated_at (v : option Z) (r : PolicyRow) : PolicyRow :=
    MkPolicyRow (po_id r) (po_set_id r) (po_version r) (po_state r) (po_content r) (po_digest r)
    (po_created_at r) (po_published_at r) v (po_tenant_ref r).

(** policy.plan_policy_ref *)
Record PolicyRefRow : Type := MkPolicyRefRow {
  pf_plan_id : string;
  pf_set_id : string;
  pf_version : Z;
  pf_digest : string;
  pf_created_at : Z;
}.

(** registry.capability_definition *)
Record CapabilityRow : Type := MkCapabilityRow {
  ca_id : Z;
  ca_key : string;
  ca_major : Z;
  ca_revision : Z;
  ca_resource_type : string;
  ca_schema : json;
  ca_state : RegState;
}.

(** registry.resource_provider *)
Record ProviderRow : Type := MkProviderRow {
  rp_id : Z;
  rp_key : string;
  rp_type : string;
  rp_endpoint : string;
  rp_owner : string;
  rp_workload : string;
  rp_state : RegState;
  rp_revision : Z;
  rp_active_revision : Z;
  rp_published_at : option Z;
}.
Definition set_rp_state (v : RegState) (r : ProviderRow) : ProviderRow :=
    MkProviderRow (rp_id r) (rp_key r) (rp_type r) (rp_endpoint r) (rp_owner r) (rp_workload r)
    v (rp_revision r) (rp_active_revision r) (rp_published_at r).
Definition set_rp_revision (v : Z) (r : ProviderRow) : ProviderRow :=
    MkProviderRow (rp_id r) (rp_key r) (rp_type r) (rp_endpoint r) (rp_owner r) (rp_workload r)
    (rp_state r) v (rp_active_revision r) (rp_published_at r).
Definition set_rp_published_at (v : option Z) (r : ProviderRow) : ProviderRow :=
    MkProviderRow (rp_id r) (rp_key r) (rp_type r) (rp_endpoint r) (rp_owner r) (rp_workload r)
    (rp_state r) (rp_revision r) (rp_active_revision r) v.

(** registry.provider_snapshot *)
Record SnapshotRow : Type := MkSnapshotRow {
  ps_id : Z;
  ps_provider_id : Z;
  ps_version : Z;
  ps_contract : string;
  ps_digest : string;
  ps_signature : string;
  ps_workload : string;
  ps_profiles : list json;
  ps_generated_at : Z;
  ps_valid_until : Z;
  ps_state : RegState;
}.
Definition set_ps_state (v : RegState) (r : SnapshotRow) : SnapshotRow :=
    MkSnapshotRow (ps_id r) (ps_provider_id r) (ps_version r) (ps_contract r) (ps_digest r)
    (ps_signature r) (ps_workload r) (ps_profiles r) (ps_generated_at r) (ps_valid_until r) v.

(** registry.provider_active_pointer *)
Record PointerRow : Type := MkPointerRow {
  pp_provider_id : Z;
  pp_snapshot_id : Z;
  pp_activated_at : Z;
}.

(** registry.capability_binding; [cb_scope] is the parsed jsonb *)
Record BindingRow : Type := MkBindingRow {
  cb_id : Z;
  cb_key : string;
  cb_capability_id : Z;
  cb_provider_id : Z;
  cb_snapshot_id : Z;
  cb_profile : string;
  cb_environment : string;
  cb_scope : Scope;
  cb_scope_hash : string;
  cb_constraints : json;
  cb_priority : Z;
  cb_state : BindState;
  cb_revision : Z;
  cb_is_active : bool;
  cb_change_reason : string;
  cb_ticket_ref : string;
  cb_approval_ref : string;
  cb_published_at : option Z;
  cb_tenant_ref : string;
}.
Definition set_cb_state (v : BindState) (r : BindingRow) : BindingRow :=
    MkBindingRow (cb_id r) (cb_key r) (cb_capability_id r) (cb_provider_id r) (cb_snapshot_id r)
    (cb_profile r) (cb_environment r) (cb_scope r) (cb_scope_hash r) (cb_constraints r)
    (cb_priority r) v (cb_revision r) (cb_is_active r) (cb_change_reason r) (cb_ticket_ref r)
    (cb_approval_ref r) (cb_published_at r) (cb_tenant_ref r).
Definition set_cb_revision (v : Z) (r : BindingRow) : BindingRow :=
    MkBindingRow (cb_id r) (cb_key r) (cb_capability_id r) (cb_provider_id r) (cb_snapshot_id r)
    (cb_profile r) (cb_environment r) (cb_scope r) (cb_scope_hash r) (cb_constraints r)
    (cb_priority r) (cb_state r) v (cb_is_active r) (cb_change_reason r) (cb_ticket_ref r)
    (cb_approval_ref r) (cb_published_at r) (cb_tenant_ref r).
Definition set_cb_is_active (v : bool) (r : BindingRow) : BindingRow :=
    MkBindingRow (cb_id r) (cb_key r) (cb_capability_id r) (cb_provider_id r) (cb_snapshot_id r)
    (cb_profile r) (cb_environment r) (cb_scope r) (cb_scope_hash r) (cb_constraints r)
    (cb_priority r) (cb_state r) (cb_revision r) v (cb_change_reason r) (cb_ticket_ref r)
    (cb_approval_ref r) (cb_published_at r) (cb_tenant_ref r).

(** registry.publish_idempotency *)
Record LedgerRow : Type := MkLedgerRow {
  pi_key : string;
  pi_binding_key : string;
  pi_revision : Z;
  pi_fingerprint : string;
}.

(** resolver.resource_plan *)
Record PlanRow : Type := MkPlanRow {
  pl_id : string;
  pl_caller : string;
  pl_tenant : string;
  pl_task : string;
  pl_status : PlanStatus;
  pl_fingerprint : string;
  pl_digest : string;
  pl_idem_key : string;
  pl_policy_set : string;
  pl_policy_version : Z;
  pl_trace : string;
  pl_created_at : Z;
  pl_expires_at : Z;
}.
Definition set_pl_status (v : PlanStatus) (r : PlanRow) : PlanRow :=
    MkPlanRow (pl_id r) (pl_caller r) (pl_tenant r) (pl_task r) v (pl_fingerprint r) (pl_digest
    r) (pl_idem_key r) (pl_policy_set r) (pl_policy_version r) (pl_trace r) (pl_created_at r)
    (pl_expires_at r).

(** resolver.resource_plan_item *)
Record PlanItemRow : Type := MkPlanItemRow {
  pt_plan_id : string;
  pt_requirement_id : string;
  pt_capability_key : string;
  pt_major : Z;
  pt_capability_revision : Z;
  pt_binding_key : string;
  pt_binding_revision : Z;
  pt_provider_key : string;
  pt_snapshot_version : Z;
  pt_contract : string;
  pt_profile : string;
  pt_reasons : list string;
}.

(** saoaf.change_record *)
Record ChangeRow : Type := MkChangeRow {
  cr_id : Z;
  cr_created_at : Z;
  cr_tenant : string;
  cr_actor : string;
  cr_trace : string;
  cr_kind : string;
  cr_entity : string;
  cr_operation : string;
  cr_decision : string;
  cr_summary : json;
}.

(** saoaf.outbox_event *)
Record OutboxRow : Type := MkOutboxRow {
  oe_id : Z;
  oe_created_at : Z;
  oe_published_at : option Z;
  oe_attempts : Z;
  oe_status : OutboxStatus;
  oe_topic : string;
  oe_payload : json;
  oe_change_id : Z;
  oe_event_id : string;
  oe_kind : string;
  oe_aggregate : string;
  oe_revision : Z;
  oe_published_seq : option Z;
  oe_lease : option Z;
  oe_claimed_by : string;
  oe_next_retry : option Z;
  oe_last_error : string;
}.
Definition set_oe_published_at (v : option Z) (r : OutboxRow) : OutboxRow :=
    MkOutboxRow (oe_id r) (oe_created_at r) v (oe_attempts r) (oe_status r) (oe_topic r)
    (oe_payload r) (oe_change_id r) (oe_event_id r) (oe_kind r) (oe_aggregate r) (oe_revision r)
    (oe_published_seq r) (oe_lease r) (oe_claimed_by r) (oe_next_retry r) (oe_last_error r).
Definition set_oe_attempts (v : Z) (r : OutboxRow) : OutboxRow :=
    MkOutboxRow (oe_id r) (oe_created_at r) (oe_published_at r) v (oe_status r) (oe_topic r)
    (oe_payload r) (oe_change_id r) (oe_event_id r) (oe_kind r) (oe_aggregate r) (oe_revision r)
    (oe_published_seq r) (oe_lease r) (oe_claimed_by r) (oe_next_retry r) (oe_last_error r).
Definition set_oe_status (v : OutboxStatus) (r : OutboxRow) : OutboxRow :=
    MkOutboxRow (oe_id r) (oe_created_at r) (oe_published_at r) (oe_attempts r) v (oe_topic r)
    (oe_payload r) (oe_change_id r) (oe_event_id r) (oe_kind r) (oe_aggregate r) (oe_revision r)
    (oe_published_seq r) (oe_lease r) (oe_claimed_by r) (oe_next_retry r) (oe_last_error r).
Definition set_oe_published_seq (v : option Z) (r : OutboxRow) : OutboxRow :=
    MkOutboxRow (oe_id r) (oe_created_at r) (oe_published_at r) (oe_attempts r) (oe_status r)
    (oe_topic r) (oe_payload r) (oe_change_id r) (oe_event_id r) (oe_kind r) (oe_aggregate r)
    (oe_revision r) v (oe_lease r) (oe_claimed_by r) (oe_next_retry r) (oe_last_error r).
Definition set_oe_lease (v : option Z) (r : OutboxRow) : OutboxRow :=
    MkOutboxRow (oe_id r) (oe_created_at r) (oe_published_at r) (oe_attempts r) (oe_status r)
    (oe_topic r) (oe_payload r) (oe_change_id r) (oe_event_id r) (oe_kind r) (oe_aggregate r)
    (oe_revision r) (oe_published_seq r) v (oe_claimed_by r) (oe_next_retry r) (oe_last_error
    r).
Definition set_oe_claimed_by (v : string) (r : OutboxRow) : OutboxRow :=
    MkOutboxRow (oe_id r) (oe_created_at r) (oe_published_at r) (oe_attempts r) (oe_status r)
    (oe_topic r) (oe_payload r) (oe_change_id r) (oe_event_id r) (oe_kind r) (oe_aggregate r)
    (oe_revision r) (oe_published_seq r) (oe_lease r) v (oe_next_retry r) (oe_last_error r).
Definition set_oe_next_retry (v : option Z) (r : OutboxRow) : OutboxRow :=
    MkOutboxRow (oe_id r) (oe_created_at r) (oe_published_at r) (oe_attempts r) (oe_status r)
    (oe_topic r) (oe_payload r) (oe_change_id r) (oe_event_id r) (oe_kind r) (oe_aggregate r)
    (oe_revision r) (oe_published_seq r) (oe_lease r) (oe_claimed_by r) v (oe_last_error r).
Definition set_oe_last_error (v : string) (r : OutboxRow) : OutboxRow :=
    MkOutboxRow (oe_id r) (oe_created_at r) (oe_published_at r) (oe_attempts r) (oe_status r)
    (oe_topic r) (oe_payload r) (oe_change_id r) (oe_event_id r) (oe_kind r) (oe_aggregate r)
    (oe_revision r) (oe_published_seq r) (oe_lease r) (oe_claimed_by r) (oe_next_retry r) v.

(** ** The database *)

Record Database : Type := MkDatabase {
  policies : list PolicyRow;
  policy_refs : list PolicyRefRow;
  capabilities : list CapabilityRow;
  providers : list ProviderRow;
  snapshots : list SnapshotRow;
  pointers : list PointerRow;
  bindings : list BindingRow;
  ledger : list LedgerRow;
  plans : list PlanRow;
  plan_items : list PlanItemRow;
  changes : list ChangeRow;
  outbox : list OutboxRow;
  next_id : Z;
}.
Definition with_policies (v : list PolicyRow) (d : Database) : Database :=
    MkDatabase v (policy_refs d) (capabilities d) (providers d) (snapshots d) (pointers d)
    (bindings d) (ledger d) (plans d) (plan_items d) (changes d) (outbox d) (next_id d).
Definition with_policy_refs (v : list PolicyRefRow) (d : Database) : Database :=
    MkDatabase (policies d) v (capabilities d) (providers d) (snapshots d) (pointers d)
    (bindings d) (ledger d) (plans d) (plan_items d) (changes d) (outbox d) (next_id d).
Definition with_capabilities (v : list CapabilityRow) (d : Database) : Database :=
    MkDatabase (policies d) (policy_refs d) v (providers d) (snapshots d) (pointers d) (bindings
    d) (ledger d) (plans d) (plan_items d) (changes d) (outbox d) (next_id d).
Definition with_providers (v : list ProviderRow) (d : Database) : Database :=
    MkDatabase (policies d) (policy_refs d) (capabilities d) v (snapshots d) (pointers d)
    (bindings d) (ledger d) (plans d) (plan_items d) (changes d) (outbox d) (next_id d).
Definition with_snapshots (v : list SnapshotRow) (d : Database) : Database :=
    MkDatabase (policies d) (policy_refs d) (capabilities d) (providers d) v (pointers d)
    (bindings d) (ledger d) (plans d) (plan_items d) (changes d) (outbox d) (next_id d).
Definition with_pointers (v : list PointerRow) (d : Database) : Database :=
    MkDatabase (policies d) (policy_refs d) (capabilities d) (providers d) (snapshots d) v
    (bindings d) (ledger d) (plans d) (plan_items d) (changes d) (outbox d) (next_id d).
Definition with_bindings (v : list BindingRow) (d : Database) : Database :=
    MkDatabase (policies d) (policy_refs d) (capabilities d) (providers d) (snapshots d)
    (pointers d) v (ledger d) (plans d) (plan_items d) (changes d) (outbox d) (next_id d).
Definition with_ledger (v : list LedgerRow) (d : Database) : Database :=
    MkDatabase (policies d) (policy_refs d) (capabilities d) (providers d) (snapshots d)
    (pointers d) (bindings d) v (plans d) (plan_items d) (changes d) (outbox d) (next_id d).
Definition with_plans (v : list PlanRow) (d : Database) : Database :=
    MkDatabase (policies d) (policy_refs d) (capabilities d) (providers d) (snapshots d)
    (pointers d) (bindings d) (ledger d) v (plan_items d) (changes d) (outbox d) (next_id d).
Definition with_plan_items (v : list PlanItemRow) (d : Database) : Database :=
    MkDatabase (policies d) (policy_refs d) (capabilities d) (providers d) (snapshots d)
    (pointers d) (bindings d) (ledger d) (plans d) v (changes d) (outbox d) (next_id d).
Definition with_changes (v : list ChangeRow) (d : Database) : Database :=
    MkDatabase (policies d) (policy_refs d) (capabilities d) (providers d) (snapshots d)
    (pointers d) (bindings d) (ledger d) (plans d) (plan_items d) v (outbox d) (next_id d).
Definition with_outbox (v : list OutboxRow) (d : Database) : Database :=
    MkDatabase (policies d) (policy_refs d) (capabilities d) (providers d) (snapshots d)
    (pointers d) (bindings d) (ledger d) (plans d) (plan_items d) (changes d) v (next_id d).
Definition with_next_id (v : Z) (d : Database) : Database :=
    MkDatabase (policies d) (policy_refs d) (capabilities d) (providers d) (snapshots d)
    (pointers d) (bindings d) (ledger d) (plans d) (plan_items d) (changes d) (outbox d) v.

Definition empty_db : Database := MkDatabase [] [] [] [] [] [] [] [] [] [] [] [] 1.

(** Statements of the stores run on this database. *)
Abbreviation Db A := (M Database A).

(** Row counts a statement reports. *)
Definition updated {R} (p : R -> bool) (t : list R) : Z := count_where p t.

(** ** INSERT with the migrations' constraints *)

Definition string_pair_eqb := pair_eqb String.eqb String.eqb.
Definition str_len (s : string) : Z := Z.of_nat (length (runes_of s)). (* length(text) *)

(** 00001: CHECKs of saoaf.change_record. *)
Definition change_ok (tenant actor : string) : bool :=
  (1 <=? str_len tenant) && (str_len tenant <=? 64) &&
  (1 <=? str_len actor) && (str_len actor <=? 128).

(** [INSERT INTO saoaf.change_record ... RETURNING id] *)
Definition insert_change (t : Z) (tenant actor trace kind entity operation decision : string)
    (summary : json) : Db Z :=
  stmt (fun d =>
    if change_ok tenant actor
    then inr (next_id d,
              with_next_id (next_id d + 1)
                (with_changes (changes d ++
                   [MkChangeRow (next_id d) t tenant actor trace kind entity operation
                                decision summary]) d))
    else inl CheckViolation).

(** 00001: UNIQUE (event_id), UNIQUE (aggregate_kind, aggregate_id,
    aggregate_revision), CHECK (aggregate_revision >= 1) and the foreign key
    of saoaf.outbox_event.  [None]: the row may be inserted. *)
Definition outbox_conflict (d : Database) (event_id kind aggregate : string) (rev : Z)
    : option string :=
  if any_where (fun o => oe_event_id o =s event_id) (outbox d)
  then Some "outbox_event_event_id_key"
  else if any_where (fun o => (oe_kind o =s kind) && (oe_aggregate o =s aggregate)
                              && (oe_revision o =? rev)) (outbox d)
  then Some "outbox_event_aggregate_key"
  else None.
Definition outbox_ok (d : Database) (change : Z) (rev : Z) : sqlerr + unit :=
  if rev <? 1 then inl CheckViolation
  else if any_where (fun c => cr_id c =? change) (changes d) then inr tt
  else inl ForeignKey.
Definition new_outbox (d : Database) (t : Z) (topic : string) (payload : json) (change : Z)
    (event_id kind aggregate : string) (rev : Z) : OutboxRow :=
  MkOutboxRow (next_id d) t None 0 ObPending topic payload change event_id kind aggregate rev
              None None "" None "".
Definition push_outbox (o : OutboxRow) (d : Database) : Database :=
  with_next_id (next_id d + 1) (with_outbox (outbox d ++ [o]) d).

(** [INSERT INTO saoaf.outbox_event ...] *)
Definition insert_outbox (t : Z) (topic : string) (payload : json) (change : Z)
    (event_id kind aggregate : string) (rev : Z) : Db unit :=
  insert_row (fun d =>
    match outbox_ok d change rev with
    | inl e => inl e
    | inr _ =>
        match outbox_conflict d event_id kind aggregate rev with
        | Some c => inl (Unique c)
          | None => inr (push_outbox (new_outbox d t topic payload change event_id kind
    aggregate rev) d)
        end
    end).
(** [... ON CONFLICT DO NOTHING] *)
Definition insert_outbox_ignore (t : Z) (topic : string) (payload : json) (change : Z)
    (event_id kind aggregate : string) (rev : Z) : Db unit :=
  insert_row (fun d =>
    match outbox_ok d change rev with
    | inl e => inl e
    | inr _ =>
        match outbox_conflict d event_id kind aggregate rev with
        | Some _ => inr d
          | None => inr (push_outbox (new_outbox d t topic payload change event_id kind
    aggregate rev) d)
        end
    end).

(** [errors.As(err, &pgErr) && pgErr.Code == "23505"] *)
Definition constraintOf (e : err) : option string :=
  match e with ESql (Unique c) => Some c | _ => None end.
Definition isUniqueViolation (e : err) : bool :=
  match constraintOf e with Some _ => true | None => false end.
Definition is_no_rows (e : err) : bool :=
  match e with ESql NoRows => true | _ => false end.

(** A plain error of [fmt.Errorf] that wraps no sentinel. *)
Definition plain_error : err := ETyped "" "".

(** What one row of the outbox records of its aggregate. *)
Definition announces (kind aggregate : string) (rev : Z) (o : OutboxRow) : bool :=
  (oe_kind o =s kind) && (oe_aggregate o =s aggregate) && (oe_revision o =? rev).

(** ** What the inserts do *)

Definition new_change (d : Database) (t : Z) (tenant actor trace kind entity operation decision : string)
    (summary : json) : ChangeRow :=
  MkChangeRow (next_id d) t tenant actor trace kind entity operation decision summary.
Definition push_change (c : ChangeRow) (d : Database) : Database :=
  with_next_id (next_id d + 1) (with_changes (changes d ++ [c]) d).

Lemma insert_change_inr t tenant actor trace kind entity operation decision summary w id w' :
  insert_change t tenant actor trace kind entity operation decision summary w = (inr id, w') ->
  id = next_id (store w) /\ change_ok tenant actor = true /\ clock w' = clock w /\
  store w' = push_change (new_change (store w) t tenant actor trace kind entity operation
                            decision summary) (store w).
Proof.
  intros H. apply stmt_inr in H as [H Hc]. destruct (change_ok tenant actor); [|discriminate].
  injection H as <- <-. done.
Qed.

Lemma insert_outbox_inr t topic payload change event_id kind aggregate rev w u w' :
  insert_outbox t topic payload change event_id kind aggregate rev w = (inr u, w') ->
  outbox_conflict (store w) event_id kind aggregate rev = None /\ clock w' = clock w /\
  store w' = push_outbox (new_outbox (store w) t topic payload change event_id kind aggregate rev)
               (store w).
Proof.
  intros H. apply insert_row_inr in H as [H Hc]. destruct (outbox_ok _ _ _); [discriminate|].
  destruct (outbox_conflict _ _ _ _ _); [discriminate|]. by injection H as <-.
Qed.

Lemma insert_outbox_ignore_inr t topic payload change event_id kind aggregate rev w u w' :
  insert_outbox_ignore t topic payload change event_id kind aggregate rev w = (inr u, w') ->
  clock w' = clock w /\
  (store w' = store w \/
   store w' = push_outbox (new_outbox (store w) t topic payload change event_id kind aggregate rev)
                (store w)).
Proof.
  intros H. apply insert_row_inr in H as [H Hc]. destruct (outbox_ok _ _ _); [discriminate|].
  destruct (outbox_conflict _ _ _ _ _); injection H as <-; auto.
Qed.

(** A table that only grows. *)
Definition extends {R} (t t' : list R) : Prop := exists l, t' = t ++ l.
Lemma extends_refl {R} (t : list R) : extends t t.
Proof. exists []. by rewrite app_nil_r. Qed.
Lemma extends_trans {R} (t1 t2 t3 : list R) : extends t1 t2 -> extends t2 t3 -> extends t1 t3.
Proof. intros [l1 ->] [l2 ->]. exists (l1 ++ l2). by rewrite app_assoc. Qed.
Lemma extends_app {R} (t l : list R) : extends t (t ++ l).
Proof. by exists l. Qed.
#[export] Hint Resolve extends_refl extends_app : core.

(** A table whose rows stay, each related to its old self by [R]. *)
Definition rows_kept {A} (R : A -> A -> Prop) (t t' : list A) : Prop :=
  forall i r, t !! i = Some r -> exists r', t' !! i = Some r' /\ R r r'.
Section RowsKept.
Context {A : Type} (R : A -> A -> Prop) (Hrefl : forall r, R r r)
  (Htrans : forall a b c, R a b -> R b c -> R a c).
Lemma rows_kept_refl t : rows_kept R t t.
Proof using Hrefl. intros i r H. eauto. Qed.
Lemma rows_kept_trans t1 t2 t3 : rows_kept R t1 t2 -> rows_kept R t2 t3 -> rows_kept R t1 t3.
Proof using Htrans.
    intros H1 H2 i r Hi. destruct (H1 i r Hi) as (r2 & H & ?). destruct (H2 i r2 H) as (r3 & ? &
    ?). eauto.
Qed.
Lemma rows_kept_app t l : rows_kept R t (t ++ l).
Proof using Hrefl. intros i r H. exists r. split; [by apply lookup_app_l_Some|done]. Qed.
Lemma rows_kept_update_in q f t :
  (forall r, r ∈ t -> q r = true -> R r (f r)) -> rows_kept R t (update_where q f t).
Proof using Hrefl.
  intros Hf i r Hi. unfold update_where. rewrite lookup_map, Hi. simpl.
  eexists. split; [done|]. destruct (q r) eqn:E; [|auto].
  apply Hf; [by eapply list_elem_of_lookup_2|done].
Qed.
Lemma rows_kept_update q f t :
  (forall r, q r = true -> R r (f r)) -> rows_kept R t (update_where q f t).
Proof using Hrefl. intros Hf. apply rows_kept_update_in. auto. Qed.
End RowsKept.
