(* ===== verification/Policy.v ===== *)
(** * Policy sets (src/internal/policy)

    [Cel] is the sandbox of eligibility expressions (sandbox.go, eval.go);
    parsing, type checking and evaluation are cel-go's and are parameters.
    [PolicySet] is the domain aggregate (set.go): revisions DRAFT, PUBLISHED,
    ACTIVATED, SUPERSEDED with one active revision.  [PolicyStore] is the
    PostgreSQL store (store.go).  The theorems: the sandbox admits exactly the
    expressions all of whose calls are allowed; every sequence of domain
    operations keeps one active revision, frozen contents and legal
    transitions; the store's activation refines the domain's. *)

From S2P Require Import Prelude GoStd GoJson Sql Schema.

(** ** The CEL sandbox *)

Module Cel.

(** ast.Expr of a checked expression, by kind. *)
Inductive Expr : Type :=
| ECall (fn : string) (target : option Expr) (args : list Expr)
| EList (elements : list Expr)
| EMap (entries : list (Expr * Expr))
| EStruct (type_name : string) (fields : list (string * Expr))
| ELiteral
| EIdent (name : string)
| ESelect (operand : Expr) (field : string)
| EComprehension (range init cond step result : Expr).

Definition allowedFunctions : list string :=
  ["size"; "contains"; "startsWith"; "endsWith"; "matches"].
Definition celOperators : list string :=
  ["_||_"; "_&&_"; "!_"; "_-_-"; "_==_"; "_!=_"; "_<_"; "_<=_"; "_>_"; "_>=_";
   "_+_"; "_-_"; "_*_"; "_/_"; "_%_"; "_in_"; "_[_"; "_?_:_"; "@not_strictly_false";
   "@not_strictly_true"; "@type"; "@range"; "@list"; "@map"; "@struct"; "@in";
   "@filter"; "@map_macro"; "@exists"; "@all"; "@exists_one"; "has"].
Definition isInternalName (fn : string) : bool := str_mem fn celOperators.
Definition isMacro (fn : string) : bool :=
  str_mem fn ["all"; "exists"; "exists_one"; "filter"; "has"; "map"].

Fixpoint first_error {X} (f : X -> option string) (l : list X) : option string :=
  match l with
  | [] => None
  | x :: l' => match f x with Some e => Some e | None => first_error f l' end
  end.

(** [None]: accepted; [Some fn]: UnauthorizedFunctionError of [fn]. *)
Fixpoint checkCalls (e : Expr) : option string :=
  match e with
  | ECall fn target args =>
      if negb (isInternalName fn) && negb (str_mem fn allowedFunctions) && negb (isMacro fn)
      then Some fn
      else match first_error checkCalls args with
           | Some err => Some err
           | None => match target with
                     | Some t => checkCalls t
                     | None => None
                     end
           end
  | EList els => first_error checkCalls els
  | EMap entries =>
      first_error (fun kv => match checkCalls kv.1 with
                             | Some err => Some err
                             | None => checkCalls kv.2
                             end) entries
  | EStruct name _ => Some name
  | ELiteral | EIdent _ => None
  | ESelect operand _ => checkCalls operand
  | EComprehension r i c s res =>
      match checkCalls r with Some e1 => Some e1 | None =>
      match checkCalls i with Some e2 => Some e2 | None =>
      match checkCalls c with Some e3 => Some e3 | None =>
      match checkCalls s with Some e4 => Some e4 | None => checkCalls res
      end end end end
  end.

(** *** What the walk promises *)

Definition children (e : Expr) : list Expr :=
  match e with
  | ECall _ target args => args ++ match target with Some t => [t] | None => [] end
  | EList els => els
  | EMap entries => flat_map (fun kv => [kv.1; kv.2]) entries
  | EStruct _ fields => map snd fields
  | ELiteral | EIdent _ => []
  | ESelect operand _ => [operand]
  | EComprehension r i c s res => [r; i; c; s; res]
  end.
Inductive occurs (x : Expr) : Expr -> Prop :=
| occurs_here : occurs x x
| occurs_in e c : In c (children e) -> occurs x c -> occurs x e.

(** An expression the sandbox must not run: a call of a function that is
    neither an operator, nor a macro, nor on the allowlist; a struct. *)
Definition forbidden (x : Expr) : bool :=
  match x with
  | ECall fn _ _ => negb (isInternalName fn || str_mem fn allowedFunctions || isMacro fn)
  | EStruct _ _ => true
  | _ => false
  end.
Definition name_of (x : Expr) : string :=
  match x with ECall fn _ _ => fn | EStruct n _ => n | _ => "" end.

Section ExprInd.
Context (P : Expr -> Prop) (H : forall e, (forall c, In c (children e) -> P c) -> P e).
Fixpoint expr_ind_children (e : Expr) : P e.
Proof using H.
  apply H. intros c Hc. destruct e as [fn t args|els|entries|n fs| |x|o f|r i c0 s res];
    simpl in Hc.
  - apply in_app_or in Hc as [Hc|Hc].
    + induction args as [|a args IH]; [destruct Hc|].
      destruct Hc as [<-|Hc]; [apply expr_ind_children|exact (IH Hc)].
    + destruct t as [t|]; [|destruct Hc].
      destruct Hc as [<-|[]]. apply expr_ind_children.
  - induction els as [|a els IH]; [destruct Hc|].
    destruct Hc as [<-|Hc]; [apply expr_ind_children|exact (IH Hc)].
  - induction entries as [|[k v] entries IH]; [destruct Hc|].
    destruct Hc as [<-|[<-|Hc]]; [apply expr_ind_children..|exact (IH Hc)].
  - induction fs as [|[k v] fs IH]; [destruct Hc|].
    destruct Hc as [<-|Hc]; [apply expr_ind_children|exact (IH Hc)].
  - destruct Hc.
  - destruct Hc.
  - destruct Hc as [<-|[]]. apply expr_ind_children.
  - destruct Hc as [<-|[<-|[<-|[<-|[<-|[]]]]]]; apply expr_ind_children.
Defined.
End ExprInd.

(** [checkCalls] tries the expression itself, then its children in order. *)
Lemma first_error_app {X} (f : X -> option string) l1 l2 :
  first_error f (l1 ++ l2) =
  match first_error f l1 with Some e => Some e | None => first_error f l2 end.
Proof. induction l1 as [|x l1 IH]; simpl; [done|]. by destruct (f x). Qed.

Lemma checkCalls_eq e :
  checkCalls e = if forbidden e then Some (name_of e) else first_error checkCalls (children e).
Proof.
  destruct e as [fn t args|els|entries|n fs| |x|o f|r i c s res]; simpl; try done.
  - rewrite <- !negb_orb. destruct (negb _); [done|].
    rewrite first_error_app. destruct (first_error checkCalls args); [done|].
    destruct t as [t|]; [|done]. simpl. by destruct (checkCalls t).
  - induction entries as [|[k v] entries IH]; simpl; [done|]. rewrite IH.
    destruct (checkCalls k); [done|]. by destruct (checkCalls v).
  - by destruct (checkCalls o).
  - destruct (checkCalls r), (checkCalls i), (checkCalls c), (checkCalls s); try done.
    by destruct (checkCalls res).
Qed.

Lemma first_error_none {X} (f : X -> option string) l :
  first_error f l = None <-> forall x, In x l -> f x = None.
Proof.
  induction l as [|x l IH]; simpl; [split; [done|done]|].
  destruct (f x) eqn:E; split.
  - done.
  - intros H. rewrite <- E. auto.
  - intros Hl y [<-|Hy]; [done|]. by apply IH.
  - intros H. apply IH. auto.
Qed.

Lemma first_error_some {X} (f : X -> option string) l e :
  first_error f l = Some e -> exists x, In x l /\ f x = Some e.
Proof.
  induction l as [|x l IH]; simpl; [done|]. destruct (f x) eqn:E.
  - intros [= ->]. eauto.
  - intros H. destruct (IH H) as (y & ? & ?). eauto.
Qed.

Lemma checkCalls_none e :
  checkCalls e = None <-> forall x, occurs x e -> forbidden x = false.
Proof.
  induction e as [e IH] using expr_ind_children. rewrite checkCalls_eq.
  destruct (forbidden e) eqn:Hf.
  - split; [done|]. intros H. rewrite (H e) in Hf by constructor. discriminate.
  - rewrite first_error_none. split.
    + intros H x Hx. inversion Hx as [|? c Hc Hxc]; subst; [done|].
      apply (IH c Hc); auto.
    + intros H c Hc. apply (IH c Hc). intros x Hx. apply H. by eapply occurs_in.
Qed.

Lemma checkCalls_some e fn :
  checkCalls e = Some fn -> exists x, occurs x e /\ forbidden x = true /\ name_of x = fn.
Proof.
  induction e as [e IH] using expr_ind_children. rewrite checkCalls_eq.
  destruct (forbidden e) eqn:Hf.
  - intros [= <-]. exists e. repeat split; [constructor|done].
  - intros H. apply first_error_some in H as (c & Hc & H).
    destruct (IH c Hc H) as (x & Hx & ? & ?).
    exists x. split; [by eapply occurs_in|done].
Qed.

(** *** Validation and evaluation *)

Definition ReasonCELInvalid := "POLICY_CEL_INVALID".
Definition ReasonCELTooLong := "POLICY_CEL_TOO_LONG".
Definition ReasonCELUnauthorized := "POLICY_CEL_UNAUTHORIZED_FUNCTION".
Definition ReasonCELTimeout := "POLICY_CEL_TIMEOUT".
Definition MaxCELLength : Z := 4096.

Record EligibilityInput : Type := MkEligibilityInput {
  in_region : string; in_data_class : string; in_vendor : string;
  in_environment : string; in_tenant : string }.
Record Evaluation : Type := MkEvaluation {
  Allow : bool; ev_set : string; ev_version : Z; ev_digest : string }.

(** What [prg.ContextEval] can report. *)
Inductive Outcome : Type :=
| OutBool (b : bool)
| OutOther            (* a value that is not a bool *)
| OutInterrupted      (* the context ended or the program was interrupted *)
| OutFailed           (* another evaluation error *)
| OutNoProgram.       (* [celEnv.Program] refused the expression *)

(** cel-go: [Parse] then [Check] ([None]: one of them reported an issue), and
    the evaluation of a checked expression. *)
Record Engine : Type := MkEngine {
  parse_check : string -> option Expr;
  eval : Expr -> EligibilityInput -> Outcome }.

(** [None]: valid; [Some reason] otherwise. *)
Definition ValidateExpression (g : Engine) (expr : string) : option string :=
  if GoString.len expr >? MaxCELLength then Some ReasonCELTooLong
  else match parse_check g expr with
       | None => Some ReasonCELInvalid
       | Some e => match checkCalls e with
                   | Some _ => Some ReasonCELUnauthorized
                   | None => None
                   end
       end.

(** [inl reason] or the evaluation, with the revision's reference. *)
Definition Evaluate (g : Engine) (expr set_id : string) (version : Z) (digest : string)
    (input : EligibilityInput) : string + Evaluation :=
  match ValidateExpression g expr with
  | Some reason => inl reason
  | None =>
      match parse_check g expr with
      | None => inl ReasonCELInvalid
      | Some e =>
          match eval g e input with
          | OutNoProgram => inl ReasonCELInvalid
          | OutInterrupted => inl ReasonCELTimeout
          | OutFailed => inl ReasonCELInvalid
          | OutOther => inl ReasonCELInvalid
          | OutBool b => inr (MkEvaluation b set_id version digest)
          end
      end
  end.
End Cel.

(** ** The domain aggregate *)

Definition illegal_transition (sentinel : string) : err := ETyped sentinel "".
Definition ErrTransition : err := ETyped "illegal policy state transition" "".
Definition ErrNotFound : err := ETyped "policy revision not found" "".
Definition ErrUniqueActive : err :=
  ETyped "concurrent activation: another revision is ACTIVE" "".
Definition NilPointer : err := ETyped "panic: nil pointer dereference" "".

Module PolicySet.

Definition ValidTransitions (s : PolicyState) : list PolicyState :=
  match s with
  | PolDraft => [PolPublished]
  | PolPublished => [PolActivated]
  | PolActivated => [PolSuperseded]
  | PolSuperseded => [PolActivated]
  end.
Definition ValidateTransition (from to : PolicyState) : bool :=
  existsb (fun t => t =d to) (ValidTransitions from).

Record Revision : Type := MkRevision {
  SetID : string;
  Version : Z;
  State : PolicyState;
  RevContent : Content;
  Digest : string;
  CreatedAt : Z;
  PublishedAt : option Z;
  ActivatedAt : option Z;
}.
Definition set_state (s : PolicyState) (r : Revision) : Revision :=
  MkRevision (SetID r) (Version r) s (RevContent r) (Digest r) (CreatedAt r)
             (PublishedAt r) (ActivatedAt r).
Definition published (now : Z) (r : Revision) : Revision :=
  MkRevision (SetID r) (Version r) PolPublished (RevContent r) (Digest r) (CreatedAt r)
             (Some now) (ActivatedAt r).
Definition activated (now : Z) (r : Revision) : Revision :=
  MkRevision (SetID r) (Version r) PolActivated (RevContent r) (Digest r) (CreatedAt r)
             (PublishedAt r) (Some now).

Definition sortedCopy (s : list string) : list string := sort_strings s.
(** The JSON of the struct with sorted slices; a nil slice is [null], and
    [append] to a nil slice leaves an empty one nil. *)
Definition canonical_json (c : Content) : json :=
  JObj [("regions", jstrings_nil (sortedCopy (Regions c)));
        ("data_classification_max", JStr (DataClassMax c));
        ("vendor_restrictions", jstrings_nil (sortedCopy (VendorRestrictions c)));
        ("export_requirements", jstrings_nil (sortedCopy (ExportRequirements c)));
        ("eligibility_cel", JStr (EligibilityCEL c))].
Definition CanonicalDigest (c : Content) : string :=
  sha256_digest (marshal (canonical_json c)).

(** [Revisions map[int]*Revision]; every pointer is held by the map alone. *)
Record Set_ : Type := MkSet {
  ID : string;
  Revisions : gmap Z Revision;
  ActiveVer : Z; (* 0 = none *)
}.
Definition put (v : Z) (r : Revision) (s : Set_) : Set_ :=
  MkSet (ID s) (<[v := r]> (Revisions s)) (ActiveVer s).

Section Operations.
Context (cel : Cel.Engine).

Definition draft (id : string) (v : Z) (c : Content) (now : Z) : Revision :=
  MkRevision id v PolDraft c (CanonicalDigest c) now None None.

Definition NewSet (id : string) (c : Content) (now : Z) : err + Set_ * Revision :=
  if id =s "" then inl plain_error
  else let r := draft id 1 c now in inr (MkSet id {[1 := r]} 0, r).

Definition NewDraft (c : Content) (now : Z) (s : Set_) : Set_ * Revision :=
  let ver := Z.of_nat (size (Revisions s)) + 1 in
  let r := draft (ID s) ver c now in
  (put ver r s, r).

Definition Publish (v now : Z) (s : Set_) : err + Set_ * Revision :=
  match Revisions s !! v with
  | None => inl ErrNotFound
  | Some r =>
      match State r with
      | PolPublished => inr (s, r)
      | PolDraft =>
          match Cel.ValidateExpression cel (EligibilityCEL (RevContent r)) with
          | Some reason => inl (ETyped "publish rejected" reason)
          | None => inr (put v (published now r) s, published now r)
          end
      | _ => inl ErrTransition
      end
  end.

(** The body of [Activate] after the state checks: supersede the active
    revision, move the pointer, activate. *)
Definition activate_now (v now : Z) (r : Revision) (s : Set_) : err + Set_ * Revision :=
  let finish s := let r' := activated now r in
    inr (MkSet (ID s) (<[v := r']> (Revisions s)) v, r') in
  if negb (ActiveVer s =? 0) && negb (ActiveVer s =? v) then
    match Revisions s !! ActiveVer s with
    | None => inl NilPointer
    | Some prev => finish (put (ActiveVer s) (set_state PolSuperseded prev) s)
    end
  else finish s.

Definition Activate (v now : Z) (s : Set_) : err + Set_ * Revision :=
  match Revisions s !! v with
  | None => inl ErrNotFound
  | Some r =>
      match State r with
      | PolActivated => inr (s, r)
      | PolDraft =>
          match Publish v now s with
          | inl e => inl e
          | inr (s1, r1) => activate_now v now r1 s1
          end
      | PolPublished | PolSuperseded => activate_now v now r s
      end
  end.

Definition Active (s : Set_) : option Revision :=
  if ActiveVer s =? 0 then None else Revisions s !! ActiveVer s.

(** The operations of the aggregate. *)
Inductive op : Type :=
| OpDraft (c : Content)
| OpPublish (v : Z)
| OpActivate (v : Z).
Definition apply (o : op) (now : Z) (s : Set_) : Set_ :=
  match o with
  | OpDraft c => (NewDraft c now s).1
  | OpPublish v => match Publish v now s with inr (s', _) => s' | inl _ => s end
  | OpActivate v => match Activate v now s with inr (s', _) => s' | inl _ => s end
  end.

(** *** Invariant *)

Record wf (s : Set_) : Prop := {
  wf_dom : forall v, is_Some (Revisions s !! v) <-> 1 <= v <= Z.of_nat (size (Revisions s));
  wf_active : ActiveVer s <> 0 ->
    exists r, Revisions s !! ActiveVer s = Some r /\ State r = PolActivated;
  wf_single : forall v r, Revisions s !! v = Some r -> State r = PolActivated ->
    v = ActiveVer s;
  wf_rev : forall v r, Revisions s !! v = Some r ->
    SetID r = ID s /\ Version r = v /\ Digest r = CanonicalDigest (RevContent r);
}.

(** What a revision keeps for ever: everything but its lifecycle. *)
Definition frozen (r r' : Revision) : Prop :=
  SetID r' = SetID r /\ Version r' = Version r /\ RevContent r' = RevContent r /\
  Digest r' = Digest r /\ CreatedAt r' = CreatedAt r.
Definition legal_step (a b : PolicyState) : Prop := ValidateTransition a b = true.
(** [s'] is a later state of the set [s]. *)
Definition evolves (s s' : Set_) : Prop :=
  ID s' = ID s /\
  forall v r, Revisions s !! v = Some r ->
    exists r', Revisions s' !! v = Some r' /\ frozen r r' /\
               star legal_step (State r) (State r').

#[local] Lemma frozen_refl r : frozen r r.
Proof. done. Qed.

Lemma evolves_refl s : evolves s s.
Proof. split; [done|]. intros v r H. exists r. repeat split; eauto. Qed.

Lemma evolves_trans s1 s2 s3 : evolves s1 s2 -> evolves s2 s3 -> evolves s1 s3.
Proof.
  intros [Hid H12] [Hid' H23]. split; [congruence|]. intros v r H.
  destruct (H12 v r H) as (r2 & Hr2 & Hf & Hs).
  destruct (H23 v r2 Hr2) as (r3 & Hr3 & Hf' & Hs').
  exists r3. split; [done|]. split; [|by eapply star_trans].
  unfold frozen in *. destruct_and_hyps. repeat split; congruence.
Qed.

(** Replacing one revision by a later version of itself. *)
Lemma evolves_put v r r' s a :
  Revisions s !! v = Some r -> frozen r r' -> star legal_step (State r) (State r') ->
  evolves s (MkSet (ID s) (<[v := r']> (Revisions s)) a).
Proof.
  intros Hv Hf Hs. split; [done|]. simpl. intros u ru Hu.
  destruct (decide (u = v)) as [->|Hne].
  - exists r'. rewrite lookup_insert_eq. assert (ru = r) as -> by congruence. done.
  - exists ru. rewrite lookup_insert_ne by done. repeat split; eauto.
Qed.

Lemma wf_new id c now s r : NewSet id c now = inr (s, r) -> wf s.
Proof.
  unfold NewSet. destruct (id =s ""); [done|]. intros [= <- <-]. split; simpl.
  - intros v. rewrite map_size_singleton. split.
    + intros [x Hx]. apply lookup_singleton_Some in Hx. lia.
    + intros H. assert (v = 1) as -> by lia. rewrite lookup_singleton_eq. eauto.
  - done.
  - intros v r' Hr Ha. apply lookup_singleton_Some in Hr as [_ <-]. done.
  - intros v r' Hr. apply lookup_singleton_Some in Hr as [<- <-]. done.
Qed.

Lemma wf_NewDraft c now s : wf s -> wf (NewDraft c now s).1.
Proof.
  intros [Hd Ha Hs Hr]. set (n := Z.of_nat (size (Revisions s)) + 1).
  assert (Hn : Revisions s !! n = None).
  { apply eq_None_not_Some. intros H. apply Hd in H. lia. }
  unfold NewDraft, put. fold n. split; simpl.
  - intros v. rewrite map_size_insert_None by done.
    destruct (decide (v = n)) as [->|Hne].
    + rewrite lookup_insert_eq. split; [lia|eauto].
    + rewrite lookup_insert_ne by done. rewrite Hd. lia.
  - intros H0. destruct (Ha H0) as (r & Hr0 & Hst). exists r.
    rewrite lookup_insert_ne; [done|]. congruence.
  - intros v r Hv Hst. apply lookup_insert_Some in Hv as [[<- <-]|[? Hv]]; eauto.
    done.
  - intros v r Hv. apply lookup_insert_Some in Hv as [[<- <-]|[? Hv]]; eauto.
Qed.

(** Replacing the revision [v] by one that is ACTIVATED exactly when [v]
    becomes the active version. *)
Lemma wf_put v r r' s a :
  wf s -> Revisions s !! v = Some r -> frozen r r' ->
  (a <> 0 -> a = v /\ State r' = PolActivated \/
    a <> v /\ exists ra, Revisions s !! a = Some ra /\ State ra = PolActivated) ->
  (forall u ru, u <> v -> Revisions s !! u = Some ru -> State ru = PolActivated -> u = a) ->
  (State r' = PolActivated -> v = a) ->
  wf (MkSet (ID s) (<[v := r']> (Revisions s)) a).
Proof.
  intros [Hd _ _ Hr] Hv (Hf1 & Hf2 & Hf3 & Hf4 & _) Ha Hs Hst. split; simpl.
  - intros u. rewrite map_size_insert_Some by eauto. rewrite <- Hd.
    destruct (decide (u = v)) as [->|Hne].
    + rewrite lookup_insert_eq, Hv. split; eauto.
    + by rewrite lookup_insert_ne by done.
  - intros H0. destruct (Ha H0) as [[-> ?]|(Hne & ra & Hra & ?)].
    + exists r'. by rewrite lookup_insert_eq.
    + exists ra. by rewrite lookup_insert_ne by done.
  - intros u ru Hu Hus. apply lookup_insert_Some in Hu as [[<- <-]|[Hne Hu]]; eauto.
  - intros u ru Hu. apply lookup_insert_Some in Hu as [[<- <-]|[Hne Hu]]; eauto.
    destruct (Hr _ _ Hv) as (? & ? & ?). repeat split; congruence.
Qed.

Lemma Publish_inr v now s s' r' :
  Publish v now s = inr (s', r') ->
  exists r, Revisions s !! v = Some r /\ State r' = PolPublished /\
    ((State r = PolPublished /\ s' = s /\ r' = r) \/
     (State r = PolDraft /\ r' = published now r /\ s' = put v r' s)).
Proof.
  unfold Publish. destruct (Revisions s !! v) as [r|]; [|done].
  destruct (State r) eqn:E; try done.
  - destruct (Cel.ValidateExpression _ _); [done|]. intros [= <- <-].
    exists r. auto 10.
  - intros [= <- <-]. exists r. auto 10.
Qed.

Lemma Publish_ok v now s s' r' :
  wf s -> Publish v now s = inr (s', r') -> wf s' /\ evolves s s' /\ Revisions s' !! v = Some r'.
Proof.
  intros Hwf H. pose proof Hwf as [Hd Ha Hs Hr].
  destruct (Publish_inr _ _ _ _ _ H) as (r & Hv & Hst & [(_ & -> & ->)|(Hd' & -> & ->)]).
  - auto using evolves_refl.
  - split; [|split].
    + eapply wf_put; eauto; simpl; [done| |done].
      intros H0. right. destruct (Ha H0) as (ra & Hra & Hsa). split; [congruence|eauto].
    + eapply evolves_put; eauto; [done|]. simpl. rewrite Hd'. apply star_one. done.
    + simpl. by rewrite lookup_insert_eq.
Qed.

Lemma activate_now_ok v now r s s' r' :
  wf s -> Revisions s !! v = Some r -> star legal_step (State r) PolActivated ->
  State r <> PolActivated ->
  activate_now v now r s = inr (s', r') ->
  wf s' /\ evolves s s' /\ ActiveVer s' = v /\ Revisions s' !! v = Some r' /\
  State r' = PolActivated.
Proof.
  intros Hwf Hv Hst Hna. pose proof Hwf as [Hd Ha Hs Hr]. unfold activate_now.
  destruct (negb _ && negb _) eqn:E; b2p.
  - destruct E as [E0 Ev]. destruct (Revisions s !! ActiveVer s) as [p|] eqn:Ep; [|done].
    intros [= <- <-].
    assert (State p = PolActivated) as Hp.
    { destruct (Ha E0) as (? & ? & ?). congruence. }
    assert (Hw : wf (MkSet (ID s) (<[ActiveVer s := set_state PolSuperseded p]> (Revisions s)) 0)).
    { eapply wf_put; eauto; simpl; [done|done| |done].
      intros u ru Hne Hu Hsu. exfalso. eauto. }
    assert (Hv' : (<[ActiveVer s := set_state PolSuperseded p]> (Revisions s)) !! v = Some r).
    { by rewrite lookup_insert_ne. }
    split; [|split; [|split; [done|split; [|done]]]].
    + eapply (wf_put v r (activated now r) _ v Hw Hv'); simpl; [done|by left| |done].
      intros u ru Hne Hu Hsu. exfalso.
      apply lookup_insert_Some in Hu as [[<- <-]|[Hna' Hu]]; [done|].
      apply Hna'. symmetry. eauto.
    + eapply evolves_trans.
      * eapply (evolves_put (ActiveVer s) p (set_state PolSuperseded p) s 0); eauto; [done|].
        simpl. rewrite Hp. by apply star_one.
      * refine (evolves_put v r (activated now r) _ v _ _ _); [exact Hv'|done|exact Hst].
    + simpl. by rewrite lookup_insert_eq.
  - intros [= <- <-].
    assert (E0 : ActiveVer s = 0 \/ ActiveVer s = v) by lia.
    split; [|split; [|split; [done|split; [|done]]]].
    + refine (wf_put v r (activated now r) s v Hwf Hv _ _ _ _); [done|by left| |done].
      intros u ru Hne Hu Hsu. pose proof (Hs _ _ Hu Hsu). exfalso.
      destruct E0 as [E0|E0]; [|lia].
      assert (is_Some (Revisions s !! u)) as Hd' by eauto. apply Hd in Hd'. lia.
    + eapply evolves_put; eauto. done.
    + simpl. by rewrite lookup_insert_eq.
Qed.

Lemma Activate_ok v now s s' r' :
  wf s -> Activate v now s = inr (s', r') ->
  wf s' /\ evolves s s' /\ ActiveVer s' = v /\ Revisions s' !! v = Some r' /\
  State r' = PolActivated.
Proof.
  intros Hwf. unfold Activate. destruct (Revisions s !! v) as [r|] eqn:Hv; [|done].
  destruct (State r) eqn:Hst.
  - destruct (Publish v now s) as [e|[s1 r1]] eqn:Hp; [done|]. intros H.
    destruct (Publish_ok _ _ _ _ _ Hwf Hp) as (Hwf1 & He1 & Hv1).
    destruct (Publish_inr _ _ _ _ _ Hp) as (_ & _ & Hst1 & _).
    apply activate_now_ok in H as (? & ? & ?); auto; [| |congruence].
    + split; [done|]. split; [by eapply evolves_trans|done].
    + rewrite Hst1. by apply star_one.
  - apply activate_now_ok; auto; rewrite Hst; [by apply star_one|done].
  - intros [= <- <-]. split; [done|]. split; [apply evolves_refl|].
    split; [|done]. destruct Hwf as [_ _ Hs _]. symmetry. eauto.
  - apply activate_now_ok; auto; rewrite Hst; [by apply star_one|done].
Qed.

Lemma apply_ok o now s : wf s -> wf (apply o now s) /\ evolves s (apply o now s).
Proof.
  intros Hwf. destruct o as [c|v|v]; simpl.
  - split; [by apply wf_NewDraft|]. split; [done|]. simpl. intros v r Hv.
    exists r. rewrite lookup_insert_ne; [by repeat split; eauto|].
    intros <-. destruct Hwf as [Hd _ _ _]. assert (is_Some (Revisions s !! (Z.of_nat (size (Revisions s)) + 1))) as H by eauto.
    apply Hd in H. lia.
  - destruct (Publish v now s) as [e|[s' r]] eqn:E; [auto using evolves_refl|].
    apply Publish_ok in E as (? & ? & _); auto.
  - destruct (Activate v now s) as [e|[s' r]] eqn:E; [auto using evolves_refl|].
    apply Activate_ok in E as (? & ? & _); auto.
Qed.
End Operations.
End PolicySet.

(** ** The store *)

Module PolicyStore.
Import PolicySet.

Definition is_active (r : PolicyRow) : bool := po_state r =d PolActivated.
Definition revision_key (r : PolicyRow) : string * Z := (po_set_id r, po_version r).
Definition revision_key_eqb := pair_eqb String.eqb Z.eqb.
(** 00003: the constraints of policy.policy_revision. *)
Definition active_index := unique_on String.eqb is_active po_set_id.

(** store.go: SaveRevision *)
Definition SaveRevision (r : Revision) (tenantRef : string) : Db unit :=
  connect ;!
  let! t := now in
  insert_row (fun d =>
    let row := MkPolicyRow (next_id d) (SetID r) (Version r) (State r) (RevContent r)
                           (Digest r) t (PublishedAt r) None tenantRef in
    if Version r <? 1 then inl CheckViolation
    else if clashes revision_key_eqb (fun _ => true) revision_key (policies d) row
    then inl (Unique "policy_revision_set_id_version_key")
    else if clashes String.eqb is_active po_set_id (policies d) row
    then inl (Unique "policy_single_active_per_set")
    else inr (with_next_id (next_id d + 1) (with_policies (policies d ++ [row]) d))).

Definition at_version (set_id : string) (version : Z) (r : PolicyRow) : bool :=
  (po_set_id r =s set_id) && (po_version r =? version).
Definition publishable set_id version (r : PolicyRow) : bool :=
  at_version set_id version r && (po_state r =d PolDraft).
Definition superseded_by set_id version (r : PolicyRow) : bool :=
  (po_set_id r =s set_id) && (po_state r =d PolActivated) && negb (po_version r =? version).
Definition activatable set_id version (r : PolicyRow) : bool :=
  at_version set_id version r &&
  ((po_state r =d PolPublished) || (po_state r =d PolSuperseded)).
Definition publish_row (t : Z) (r : PolicyRow) : PolicyRow :=
  set_po_published_at (Some t) (set_po_state PolPublished r).
Definition activate_row (t : Z) (r : PolicyRow) : PolicyRow :=
  set_po_activated_at (Some t) (set_po_state PolActivated r).

Definition on_unique (e : err) : Db Z :=
  if isUniqueViolation e then throw ErrUniqueActive else throw e.

(** store.go: ActivateRevision.  (The index is not deferred, so [Commit]
    reports no unique violation of its own.) *)
Definition ActivateRevision (setID : string) (version : Z) : Db unit :=
  connect ;!
  tx (let! t := now in
      let! published := exec_n (fun d =>
        (updated (publishable setID version) (policies d),
         with_policies (update_where (publishable setID version) (publish_row t) (policies d)) d)) in
      when (published =? 0)
        (let! state := catch (query_row (fun d =>
             po_state <$> first_where (at_version setID version) (policies d)))
           (fun e => if is_no_rows e then throw ErrNotFound else throw e) in
         guard (state =d PolDraft) plain_error) ;!
      exec (fun d => with_policies
        (update_where (superseded_by setID version) (set_po_state PolSuperseded) (policies d)) d) ;!
      let! n := catch (stmt (fun d =>
          let rows := update_where (activatable setID version) (activate_row t) (policies d) in
          if active_index rows
          then inr (updated (activatable setID version) (policies d), with_policies rows d)
          else inl (Unique "policy_single_active_per_set"))) on_unique in
      guard (n =? 0) ErrTransition ;!
      ret (Commit tt)).

Definition revision_of (r : PolicyRow) : Revision :=
  MkRevision (po_set_id r) (po_version r) (po_state r) (po_content r) (po_digest r)
             (po_created_at r) (po_published_at r) (po_activated_at r).

(** store.go: ActiveRevision *)
Definition ActiveRevision (setID : string) : Db Revision :=
  connect ;!
  catch (query_row (fun d =>
      revision_of <$> first_where (fun r => (po_set_id r =s setID) && is_active r) (policies d)))
    (fun e => if is_no_rows e then throw ErrNotFound else throw e).

(** store.go: RecordPlanRef *)
Definition RecordPlanRef (planID : string) (e : Cel.Evaluation) : Db unit :=
  connect ;!
  let! t := now in
  insert_row (fun d =>
    if any_where (fun p => pf_plan_id p =s planID) (policy_refs d)
    then inl (Unique "plan_policy_ref_resource_plan_id_key")
    else inr (with_policy_refs (policy_refs d ++
           [MkPolicyRefRow planID (Cel.ev_set e) (Cel.ev_version e) (Cel.ev_digest e) t]) d)).

(** store.go: PlanRef; an [Evaluation] read back carries no verdict. *)
Definition PlanRef (planID : string) : Db (Cel.Evaluation * Z) :=
  connect ;!
  catch (query_row (fun d =>
      (fun p => (Cel.MkEvaluation false (pf_set_id p) (pf_version p) (pf_digest p),
                 pf_created_at p))
      <$> first_where (fun p => pf_plan_id p =s planID) (policy_refs d)))
    (fun e => if is_no_rows e then throw ErrNotFound else throw e).

(** *** Invariant and history *)

Record policy_ok (d : Database) : Prop := {
  ok_active : indexed is_active po_set_id (policies d);
  ok_key : indexed (fun _ => true) revision_key (policies d);
}.

(** A later state of a stored revision. *)
Definition row_later (r r' : PolicyRow) : Prop :=
  frozen (revision_of r) (revision_of r') /\ po_id r' = po_id r /\
  star legal_step (po_state r) (po_state r').
(** No row disappears and none is rewritten. *)
Definition history_kept (t t' : list PolicyRow) : Prop :=
  forall i r, t !! i = Some r -> exists r', t' !! i = Some r' /\ row_later r r'.

Lemma row_later_refl r : row_later r r.
Proof. repeat split; eauto. Qed.

Lemma history_kept_refl t : history_kept t t.
Proof. intros i r H. eauto using row_later_refl. Qed.

Lemma history_kept_trans t1 t2 t3 :
  history_kept t1 t2 -> history_kept t2 t3 -> history_kept t1 t3.
Proof.
  intros H12 H23 i r Hi. destruct (H12 i r Hi) as (r2 & H2 & Hf & Hid & Hs).
  destruct (H23 i r2 H2) as (r3 & H3 & Hf' & Hid' & Hs').
  exists r3. split; [done|]. unfold row_later, frozen in *. destruct_and_hyps.
  repeat split; try congruence. by eapply star_trans.
Qed.

Lemma history_kept_app t t' : history_kept t (t ++ t').
Proof.
  intros i r H. exists r. split; [|apply row_later_refl].
  by apply lookup_app_l_Some.
Qed.

Lemma history_kept_update q f t :
  (forall r, q r = true -> row_later r (f r)) -> history_kept t (update_where q f t).
Proof.
  intros Hf i r Hi. unfold update_where. rewrite lookup_map, Hi. simpl.
  eexists. split; [done|]. destruct (q r) eqn:E; [auto|apply row_later_refl].
Qed.

#[local] Ltac later_tac :=
  let r := fresh "r" in let Hq := fresh "Hq" in
  intros r Hq; unfold publishable, superseded_by, activatable, at_version in Hq; b2p;
  destruct_and_hyps;
  repeat match goal with
  | H : _ \/ _ |- _ => destruct H
  | H : bool_decide _ = true |- _ => apply bool_decide_eq_true in H
  end;
  (split; [done|split; [done|simpl;
   match goal with H : po_state r = _ |- _ => rewrite H end; by apply star_one]]).

(** The rows after each statement of [ActivateRevision]. *)
Definition rows_published setID version t (rows : list PolicyRow) : list PolicyRow :=
  update_where (publishable setID version) (publish_row t) rows.
Definition rows_superseded setID version (rows : list PolicyRow) : list PolicyRow :=
  update_where (superseded_by setID version) (set_po_state PolSuperseded) rows.
Definition rows_activated setID version t (rows : list PolicyRow) : list PolicyRow :=
  update_where (activatable setID version) (activate_row t) rows.

Lemma history_published setID version t rows :
  history_kept rows (rows_published setID version t rows).
Proof. apply history_kept_update. later_tac. Qed.
Lemma history_superseded setID version rows :
  history_kept rows (rows_superseded setID version rows).
Proof. apply history_kept_update. later_tac. Qed.
Lemma history_activated setID version t rows :
  history_kept rows (rows_activated setID version t rows).
Proof. apply history_kept_update. later_tac. Qed.

Lemma update_key q f rows :
  (forall r, revision_key (f r) = revision_key r) ->
  indexed (fun _ => true) revision_key rows ->
  indexed (fun _ => true) revision_key (update_where q f rows).
Proof. intros Hf H. apply indexed_update; auto. Qed.

(** What a successful activation did. *)
Lemma ActivateRevision_inr setID version w w' :
  ActivateRevision setID version w = (inr tt, w') ->
  let t := clock w in
  let rows := rows_superseded setID version (rows_published setID version t (policies (store w))) in
  store w' = with_policies (rows_activated setID version t rows) (store w) /\
  active_index (rows_activated setID version t rows) = true /\
  updated (activatable setID version) rows <> 0.
Proof.
  unfold ActivateRevision. intros H. apply bind_inr in H as (u & w0 & Hc & H).
  apply connect_inr in Hc as [Hs0 Hc0].
  apply tx_inr in H as (w1 & Hs1 & Hc1 & [(w2 & Hb & Hw')|(w2 & Hb & _)]).
  - apply bind_inr in Hb as (t & wa & Ht & Hb). apply now_inr in Ht as [-> ->].
    apply bind_inr in Hb as (n & wb & Hn & Hb). apply exec_n_inr in Hn as [Hn _].
    injection Hn as Hn Hwb. apply bind_inr in Hb as (u1 & wc & Hw & Hb).
    assert (Hwc : store wc = store wb).
    { unfold when in Hw. destruct (n =? 0); [|by apply ret_inr in Hw as [_ ->]].
      apply bind_inr in Hw as (st & wd & Hst & Hw). apply guard_inr in Hw as [_ ->].
      unfold catch in Hst. destruct (query_row _ wb) as [[e|x] wq] eqn:Hq.
      - destruct (is_no_rows e); discriminate.
      - injection Hst as -> <-. by apply query_row_inr in Hq as (_ & ? & _). }
    apply bind_inr in Hb as (u2 & wd & Hd & Hb). apply exec_inr in Hd as [Hd _].
    apply bind_inr in Hb as (m & we & Hm & Hb).
    apply bind_inr in Hb as (u3 & wf & Hg & Hb). apply guard_inr in Hg as [Hg ->].
    apply ret_inr in Hb as [_ ->].
    unfold catch in Hm. destruct (stmt _ wd) as [[e|x] wq] eqn:Hq.
    { unfold on_unique in Hm. destruct (isUniqueViolation e); discriminate. }
    injection Hm as -> <-. apply stmt_inr in Hq as [Hq _].
    rewrite Hd, Hwc, <- Hwb, Hs1, Hs0, Hc1, Hc0 in Hq. simpl in Hq.
    destruct (active_index _) eqn:Ha in Hq; [|discriminate]. injection Hq as Hm Hwq.
    cbv zeta. rewrite Hw', <- Hwq. apply Z.eqb_neq in Hg. by subst m.
  - exfalso. apply bind_inr in Hb as (t & wa & _ & Hb).
    repeat apply bind_inr in Hb as (? & ? & _ & Hb).
    by apply ret_inr in Hb as [? _].
Qed.
End PolicyStore.

(** ** Properties *)

Module PolicyProps.
Import PolicySet PolicyStore.

(** C30. The sandbox accepts an expression exactly when no subexpression of it
    (arguments, call targets, list and map entries, comprehension parts)
    calls a function outside the operator, macro and function tables or
    builds a struct; a rejection names such a call. *)
Theorem checkCalls_sound_complete e :
  (Cel.checkCalls e = None <-> forall x, Cel.occurs x e -> Cel.forbidden x = false) /\
  (forall fn, Cel.checkCalls e = Some fn ->
     exists x, Cel.occurs x e /\ Cel.forbidden x = true /\ Cel.name_of x = fn).
Proof. split; [apply Cel.checkCalls_none|intros fn; apply Cel.checkCalls_some]. Qed.

(** An evaluation is returned only for an expression of at most 4096
    bytes that parses, type checks and whose calls are all allowed; the
    verdict is the engine's boolean and the reference is the revision's.
    Every other outcome is one of the four reason codes. *)
Theorem Evaluate_sandboxed g expr set_id version digest input :
  match Cel.Evaluate g expr set_id version digest input with
  | inr ev =>
      GoString.len expr <= 4096 /\
      exists e, Cel.parse_check g expr = Some e /\
        (forall x, Cel.occurs x e -> Cel.forbidden x = false) /\
        Cel.eval g e input = Cel.OutBool (Cel.Allow ev) /\
        Cel.ev_set ev = set_id /\ Cel.ev_version ev = version /\ Cel.ev_digest ev = digest
  | inl reason =>
      reason ∈ [Cel.ReasonCELInvalid; Cel.ReasonCELTooLong; Cel.ReasonCELUnauthorized;
                Cel.ReasonCELTimeout]
  end.
Proof.
  unfold Cel.Evaluate, Cel.ValidateExpression, Cel.MaxCELLength.
  destruct (GoString.len expr >? 4096) eqn:Hl; [set_solver|].
  destruct (Cel.parse_check g expr) as [e|] eqn:Hp; [|set_solver].
  destruct (Cel.checkCalls e) as [fn|] eqn:Hc; [set_solver|].
  destruct (Cel.eval g e input) eqn:He; try set_solver. simpl.
  split; [lia|]. exists e. repeat split; auto. by apply Cel.checkCalls_none.
Qed.

Definition run_ops (cel : Cel.Engine) (ops : list (op * Z)) (s : Set_) : Set_ :=
  fold_left (fun s ot => apply cel ot.1 ot.2 s) ops s.

Lemma run_ops_ok cel ops s : wf s -> wf (run_ops cel ops s) /\ evolves s (run_ops cel ops s).
Proof.
  unfold run_ops. revert s. induction ops as [|[o t] ops IH]; intros s Hs; simpl.
  - auto using evolves_refl.
  - destruct (apply_ok cel o t s Hs) as [Hw He]. destruct (IH _ Hw) as [Hw' He'].
    split; [done|]. by eapply evolves_trans.
Qed.

(** Whatever operations a new policy set goes through, a revision once
    drafted keeps its content, digest and version for ever and moves along
    legal transitions only; at most one revision is ACTIVATED and it is the
    one [Active] returns. *)
Theorem policy_set_lifecycle cel id c now s0 r0 ops1 ops2 :
  NewSet id c now = inr (s0, r0) ->
  let s1 := run_ops cel ops1 s0 in
  let s2 := run_ops cel ops2 s1 in
  evolves s1 s2 /\
  forall v r, Revisions s2 !! v = Some r ->
    Digest r = CanonicalDigest (RevContent r) /\ Version r = v /\
    (State r = PolActivated <-> Active s2 = Some r).
Proof.
  intros H s1 s2. apply wf_new in H.
  destruct (run_ops_ok cel ops1 s0 H) as [H1 _].
  destruct (run_ops_ok cel ops2 s1 H1) as [H2 He]. fold s2 in H2, He.
  split; [done|]. intros v r Hv. destruct H2 as [Hd Ha Hs Hr].
  destruct (Hr _ _ Hv) as (_ & Hver & Hdig). split; [done|]. split; [done|].
  unfold Active. split.
  - intros Hst. pose proof (Hs _ _ Hv Hst) as ->.
    destruct (ActiveVer s2 =? 0) eqn:E; [|done]. b2p.
    assert (is_Some (Revisions s2 !! ActiveVer s2)) as Hx by eauto. apply Hd in Hx. lia.
  - destruct (ActiveVer s2 =? 0) eqn:E; [done|]. b2p. intros Hact.
    destruct (Ha E) as (ra & Hra & Hsa). congruence.
Qed.

Definition content_utf8 (c : Content) : bool :=
  forallb valid_utf8 (Regions c) && valid_utf8 (DataClassMax c) &&
  forallb valid_utf8 (VendorRestrictions c) && forallb valid_utf8 (ExportRequirements c) &&
  valid_utf8 (EligibilityCEL c).

#[local] Lemma canonical_wf c : content_utf8 c = true -> well_formed (canonical_json c) = true.
Proof.
  unfold content_utf8. intros H. b2p. destruct_and_hyps. cbn [canonical_json well_formed forallb fst snd].
  rewrite !jstrings_nil_wf by (unfold sortedCopy; by rewrite forallb_sorted). simpl.
  repeat match goal with H : valid_utf8 _ = true |- _ => rewrite H; clear H end. done.
Qed.

(** The digest identifies the content: two contents with one digest have
    the same region, vendor and export sets up to order and the same
    classification and expression, unless SHA-256 collides on their two
    encodings; contents equal up to order have one digest. *)
Theorem CanonicalDigest_identifies c1 c2
    (Hu1 : content_utf8 c1 = true) (Hu2 : content_utf8 c2 = true)
    (Hash : sha256_hex (marshal (canonical_json c1)) = sha256_hex (marshal (canonical_json c2)) ->
            marshal (canonical_json c1) = marshal (canonical_json c2)) :
  CanonicalDigest c1 = CanonicalDigest c2 <->
  Regions c1 ≡ₚ Regions c2 /\ DataClassMax c1 = DataClassMax c2 /\
  VendorRestrictions c1 ≡ₚ VendorRestrictions c2 /\
  ExportRequirements c1 ≡ₚ ExportRequirements c2 /\ EligibilityCEL c1 = EligibilityCEL c2.
Proof.
  split.
  - intros H. apply sha256_digest_inj, Hash, marshal_inj in H; [|by apply canonical_wf..].
    injection H as H1 H2 H3 H4 H5.
    apply jstrings_nil_inj in H1, H3, H4. unfold sortedCopy in *.
    rewrite <- (sort_strings_perm (Regions c1)), <- (sort_strings_perm (VendorRestrictions c1)),
      <- (sort_strings_perm (ExportRequirements c1)), H1, H3, H4, !sort_strings_perm. done.
  - intros (H1 & H2 & H3 & H4 & H5). unfold CanonicalDigest, canonical_json, sortedCopy.
    by rewrite (sort_strings_unique _ _ H1), (sort_strings_unique _ _ H3),
      (sort_strings_unique _ _ H4), H2, H5.
Qed.

(** *** The store *)

(** The domain set [s] and the rows of its set id agree on every version's
    state. *)
Definition agrees (s : Set_) (rows : list PolicyRow) : Prop :=
  forall v, State <$> Revisions s !! v = po_state <$> first_where (at_version (ID s) v) rows.

#[local] Lemma at_version_spec id v r :
  at_version id v r = true <-> po_set_id r = id /\ po_version r = v.
Proof. unfold at_version. b2p. done. Qed.

(** The state of each version after a successful activation. *)
Definition activated_states (version v : Z) (st : PolicyState) : PolicyState :=
  if v =? version then PolActivated
  else if st =d PolActivated then PolSuperseded else st.

#[local] Lemma first_activated id version v t rows :
  po_state <$> first_where (at_version id v) (rows_activated id version t
    (rows_superseded id version (rows_published id version t rows))) =
  activated_states version v <$> (po_state <$> first_where (at_version id v) rows).
Proof.
  unfold rows_activated, rows_superseded, rows_published.
  rewrite !first_where_update by done.
  destruct (first_where (at_version id v) rows) as [r|] eqn:E; [|done].
  apply first_where_some in E as [_ E]. apply at_version_spec in E as [E1 E2]. simpl. f_equal.
  subst id v. unfold activated_states, publishable, superseded_by, activatable, at_version.
  destruct (po_version r =? version) eqn:Ev; destruct (po_state r) eqn:Es;
    repeat (rewrite ?str_eqb_refl, ?Ev, ?Es; eval_decisions; cbn); done.
Qed.

#[local] Lemma activate_now_states v now r s :
  wf s -> Revisions s !! v = Some r ->
  exists s' r', activate_now v now r s = inr (s', r') /\ ID s' = ID s /\
    forall u, State <$> Revisions s' !! u = activated_states v u <$> (State <$> Revisions s !! u).
Proof.
  intros [Hd Ha Hs Hr] Hv. unfold activate_now, activated_states.
  assert (Hother : forall u ru, u <> v -> u <> ActiveVer s -> Revisions s !! u = Some ru ->
    (State ru =d PolActivated) = false).
  { intros u ru _ Hne Hu. apply bool_decide_eq_false. intros Hst. by apply Hne, (Hs u ru). }
  destruct (negb _ && negb _) eqn:E; b2p.
  - destruct E as [E0 Ev]. destruct (Ha E0) as (p & Hp & Hsp). rewrite Hp.
    eexists _, _. split; [done|]. split; [done|]. simpl. intros u.
    destruct (Z.eqb_spec u v) as [->|Hu]; [by rewrite lookup_insert_eq, Hv|].
    rewrite lookup_insert_ne by done.
    destruct (decide (u = ActiveVer s)) as [->|Hua].
    + rewrite lookup_insert_eq, Hp. simpl. by rewrite Hsp.
    + rewrite lookup_insert_ne by done. destruct (Revisions s !! u) as [ru|] eqn:Eu; [|done].
      simpl. by rewrite (Hother u ru).
  - assert (E0 : ActiveVer s = 0 \/ ActiveVer s = v) by lia.
    eexists _, _. split; [done|]. split; [done|]. simpl. intros u.
    destruct (Z.eqb_spec u v) as [->|Hu]; [by rewrite lookup_insert_eq, Hv|].
    rewrite lookup_insert_ne by done. destruct (Revisions s !! u) as [ru|] eqn:Eu; [|done].
    simpl. rewrite (Hother u ru); auto. intros ->.
    assert (is_Some (Revisions s !! ActiveVer s)) as Hx by eauto. apply Hd in Hx. lia.
Qed.

#[local] Lemma Activate_states cel v now s r :
  wf s -> Revisions s !! v = Some r -> State r <> PolActivated ->
  (State r = PolDraft -> Cel.ValidateExpression cel (EligibilityCEL (RevContent r)) = None) ->
  exists s' r', Activate cel v now s = inr (s', r') /\ ID s' = ID s /\
    forall u, State <$> Revisions s' !! u = activated_states v u <$> (State <$> Revisions s !! u).
Proof.
  intros Hwf Hv Hna Hcel. unfold Activate. rewrite Hv.
  destruct (State r) eqn:Hst; [|by eapply activate_now_states|done|by eapply activate_now_states].
  assert (Hp : Publish cel v now s = inr (put v (published now r) s, published now r)).
  { unfold Publish. by rewrite Hv, Hst, Hcel. }
  rewrite Hp. destruct (Publish_ok _ _ _ _ _ _ Hwf Hp) as (Hwf1 & _ & Hv1).
  destruct (activate_now_states v now _ _ Hwf1 Hv1) as (s' & r' & Ha & Hid & Hu).
  exists s', r'. split; [done|]. split; [done|]. intros u. rewrite Hu. simpl.
  destruct (decide (u = v)) as [->|Hne]; [|by rewrite lookup_insert_ne].
  rewrite lookup_insert_eq, Hv. unfold activated_states. simpl. by rewrite Z.eqb_refl.
Qed.

#[local] Lemma rows_keep_key version id t rows :
  indexed (fun _ => true) revision_key rows ->
  indexed (fun _ => true) revision_key
    (rows_activated id version t (rows_superseded id version (rows_published id version t rows))).
Proof. intros H. do 3 (apply update_key; [done|]). done. Qed.

#[local] Lemma active_index_spec rows :
  active_index rows = true <-> indexed is_active po_set_id rows.
Proof. apply unique_on_spec. intros. b2p. done. Qed.

#[local] Lemma activatable_after id version t rows r :
  r ∈ rows_superseded id version (rows_published id version t rows) ->
  activatable id version r = true ->
  exists r0, r0 ∈ rows /\ at_version id version r0 = true /\ po_state r0 <> PolActivated.
Proof.
  intros Hr Hact. unfold activatable in Hact. apply andb_true_iff in Hact as [Hat Hst].
  assert (Hns : superseded_by id version r = false).
  { unfold superseded_by. apply at_version_spec in Hat as [-> ->].
    rewrite Z.eqb_refl. by rewrite andb_false_r. }
  unfold rows_superseded in Hr. apply elem_of_update_where in Hr as [(r0 & _ & Hq & ->)|[Hr _]].
  { exfalso. unfold superseded_by in Hq. unfold at_version in Hat. simpl in Hat.
    destruct (po_version r0 =? version); [by rewrite andb_false_r in Hq|].
    by rewrite andb_false_r in Hat. }
  unfold rows_published in Hr. apply elem_of_update_where in Hr as [(r0 & Hin & Hq & ->)|[Hr _]].
  - exists r0. unfold publishable in Hq. b2p. destruct Hq as [Hq Hd].
    apply bool_decide_eq_true in Hd. split; [done|]. split; [done|]. congruence.
  - exists r. split; [done|]. split; [done|]. intros Hx. rewrite Hx in Hst. discriminate.
Qed.

(** The store's activation refines the domain's: when the transaction
    commits, activating the same version of a domain set that agreed with
    the table succeeds and the two still agree on every version's state. *)
Theorem ActivateRevision_refines cel setID version w w' s
    (Hok : policy_ok (store w)) (Hwf : wf s) (Hid : ID s = setID)
    (Hag : agrees s (policies (store w)))
    (Hcel : forall r, Revisions s !! version = Some r -> State r = PolDraft ->
      Cel.ValidateExpression cel (EligibilityCEL (RevContent r)) = None)
    (Hrun : ActivateRevision setID version w = (inr tt, w')) :
  exists s' r', Activate cel version (clock w) s = inr (s', r') /\
    agrees s' (policies (store w')) /\ policy_ok (store w').
Proof.
  apply ActivateRevision_inr in Hrun as (Hst & Hix & Hupd). cbv zeta in *.
  set (rows := policies (store w)) in *.
  assert (Hex : exists r0, r0 ∈ rows /\ at_version setID version r0 = true /\
                           po_state r0 <> PolActivated).
  { unfold updated in Hupd. destruct (List.filter (activatable setID version)
      (rows_superseded setID version (rows_published setID version (clock w) rows))) as [|r l] eqn:E.
    { exfalso. apply Hupd. unfold count_where. by rewrite E. }
    assert (Hr : r ∈ rows_where (activatable setID version) (rows_superseded setID version
      (rows_published setID version (clock w) rows))) by (unfold rows_where; rewrite E; constructor).
    apply elem_of_rows_where in Hr as [Hr1 Hr2]. by eapply activatable_after. }
  destruct Hex as (r0 & Hin & Hat & Hna).
  assert (Hfirst : first_where (at_version setID version) rows = Some r0).
  { destruct (first_where (at_version setID version) rows) as [r1|] eqn:E.
    - apply first_where_some in E as [Hin1 Hat1]. f_equal. destruct Hok as [_ Hkey].
      eapply (indexed_elem (fun _ => true) revision_key); eauto.
      apply at_version_spec in Hat as [<- <-], Hat1 as [E1 E2]. unfold revision_key. by rewrite E1, E2.
    - by rewrite (first_where_none _ _ _ E Hin) in Hat. }
  destruct (Revisions s !! version) as [r|] eqn:Hv.
  2:{ specialize (Hag version). rewrite Hv, Hid, Hfirst in Hag. discriminate. }
  pose proof (Hag version) as Hagv. rewrite Hv, Hid, Hfirst in Hagv. injection Hagv as Hsr.
  destruct (Activate_states cel version (clock w) s r Hwf Hv) as (s' & r' & Ha & Hids & Hstates);
    [congruence|auto|].
  exists s', r'. split; [done|]. rewrite Hst. simpl. split.
  - intros v. by rewrite Hstates, Hids, Hag, Hid, first_activated.
  - split; simpl; [by apply active_index_spec|]. apply rows_keep_key. by destruct Hok.
Qed.


(** The three updates of an activation, row by row. *)
Definition activation id version t (r : PolicyRow) : PolicyRow :=
  let r1 := if publishable id version r then publish_row t r else r in
  let r2 := if superseded_by id version r1 then set_po_state PolSuperseded r1 else r1 in
  if activatable id version r2 then activate_row t r2 else r2.

#[local] Lemma rows_activation id version t rows :
  rows_activated id version t (rows_superseded id version (rows_published id version t rows)) =
  List.map (activation id version t) rows.
Proof. unfold rows_activated, rows_superseded, rows_published, update_where. by rewrite !map_map. Qed.

#[local] Lemma activation_row id version t r :
  revision_key (activation id version t r) = revision_key r /\
  is_active (activation id version t r) =
    (if po_set_id r =s id then po_version r =? version else is_active r).
Proof.
  unfold activation, is_active, publishable, superseded_by, activatable, at_version.
  destruct (po_set_id r =s id) eqn:Ei; destruct (po_version r =? version) eqn:Ev;
    destruct (po_state r) eqn:Es; repeat (rewrite ?Ei, ?Ev, ?Es; eval_decisions; cbn); done.
Qed.

#[local] Lemma activation_active id version t rows :
  indexed is_active po_set_id rows -> indexed (fun _ => true) revision_key rows ->
  indexed is_active po_set_id (List.map (activation id version t) rows).
Proof.
  intros Hact Hkey. apply indexed_map. intros i j a b Hi Hj Ha Hb Hset.
  destruct (activation_row id version t a) as [Hka Haa], (activation_row id version t b) as [Hkb Hab].
  rewrite Haa in Ha. rewrite Hab in Hb. unfold revision_key in Hka, Hkb.
  injection Hka as Hsa Hva. injection Hkb as Hsb Hvb. rewrite Hsa, Hsb in Hset.
  rewrite Hset in Ha. destruct (po_set_id b =s id) eqn:Eid.
  - b2p. eapply Hkey; eauto. unfold revision_key. congruence.
  - eapply Hact; eauto.
Qed.

(** Whether an update of one version touches a row is decided by the state of
    the row of that version. *)
#[local] Lemma updated_at id version (P : PolicyState -> bool) rows :
  indexed (fun _ => true) revision_key rows ->
  (updated (fun r => at_version id version r && P (po_state r)) rows =? 0) =
  match po_state <$> first_where (at_version id version) rows with
  | Some s => negb (P s)
  | None => true
  end.
Proof.
  intros Hkey. unfold updated. destruct (first_where (at_version id version) rows) as [r|] eqn:E; simpl.
  - apply first_where_some in E as [Hin Hat]. destruct (P (po_state r)) eqn:HP; simpl.
    + apply Z.eqb_neq. rewrite count_where_zero. intros H. specialize (H r Hin).
      by rewrite Hat, HP in H.
    + apply Z.eqb_eq, count_where_zero. intros r' Hin'.
      destruct (at_version id version r') eqn:Hat'; [|done].
      assert (r' = r) as ->; [|done].
      eapply (indexed_elem (fun _ => true) revision_key); eauto.
      apply at_version_spec in Hat as [<- <-], Hat' as [E1 E2]. unfold revision_key. by rewrite E1, E2.
  - apply Z.eqb_eq, count_where_zero. intros r' Hin'. by rewrite (first_where_none _ _ _ E Hin').
Qed.

#[local] Lemma first_mid id version t rows :
  po_state <$> first_where (at_version id version)
    (rows_superseded id version (rows_published id version t rows)) =
  (fun s => if s =d PolDraft then PolPublished else s)
    <$> (po_state <$> first_where (at_version id version) rows).
Proof.
  unfold rows_superseded, rows_published. rewrite !first_where_update by done.
  destruct (first_where (at_version id version) rows) as [r|] eqn:E; [|done].
  apply first_where_some in E as [_ E]. apply at_version_spec in E as [E1 E2]. simpl. f_equal.
  subst id version. unfold superseded_by, publishable, at_version.
  destruct (po_state r) eqn:Es; repeat (rewrite ?str_eqb_refl, ?Z.eqb_refl, ?Es; eval_decisions; cbn); done.
Qed.

(** Every outcome of an activation when no statement fails: a missing
    revision is ErrNotFound, the active one ErrTransition, and any other is
    activated, a DRAFT included and whatever its expression: the store runs
    no CEL validation, and the single-active index never refuses it. *)
Theorem ActivateRevision_outcome setID version d t :
  policy_ok d ->
  (ActivateRevision setID version (MkWorld d [] t)).1 =
  match first_where (at_version setID version) (policies d) with
  | None => inl ErrNotFound
  | Some r => if po_state r =d PolActivated then inl ErrTransition else inr tt
  end.
Proof.
  intros [Hact Hkey].
  pose proof (first_mid setID version t (policies d)) as Hmid.
  assert (Hidx : active_index (rows_activated setID version t (rows_superseded setID version
             (rows_published setID version t (policies d)))) = true).
  { rewrite rows_activation. apply active_index_spec. by apply activation_active. }
  pose proof (updated_at setID version (fun s => s =d PolDraft) _ Hkey) as Hpub.
  assert (Hkey' : indexed (fun _ => true) revision_key (rows_superseded setID version
             (rows_published setID version t (policies d)))).
  { do 2 (apply update_key; [done|]). done. }
  pose proof (updated_at setID version (fun s => (s =d PolPublished) || (s =d PolSuperseded)) _ Hkey')
    as Hupd.
  rewrite Hmid in Hupd. unfold rows_published, rows_superseded, rows_activated in *.
  unfold ActivateRevision. run_ok.
  change (fun r => at_version setID version r && (po_state r =d PolDraft))
    with (publishable setID version) in Hpub.
  change (fun r => at_version setID version r && ((po_state r =d PolPublished) || (po_state r =d PolSuperseded)))
    with (activatable setID version) in Hupd.
  rewrite Hpub.
  destruct (first_where (at_version setID version) (policies d)) as [r|] eqn:Hf; cbn [fmap option_fmap option_map] in *.
  - assert (Hpb : publishable setID version r = (po_state r =d PolDraft)).
    { apply first_where_some in Hf as [_ Hat]. unfold publishable. by rewrite Hat. }
    destruct (po_state r) eqn:Hs; revert Hupd Hpb; eval_decisions; cbn [negb orb]; intros Hupd Hpb;
      run_ok; cbn [policies with_policies]; rewrite ?first_where_update, ?Hf by done;
      cbn [fmap option_fmap option_map]; rewrite ?Hpb, ?Hs; eval_decisions;
      run_ok; cbn [policies with_policies]; rewrite Hidx; run_ok; rewrite Hupd; run_ok; done.
  - run_ok. cbn [policies with_policies]. by rewrite first_where_update, Hf.
Qed.

(** *** Histories of the store *)

Inductive store_call : Db unit -> Prop :=
| call_save r tenant : store_call (SaveRevision r tenant)
| call_activate setID version : store_call (ActivateRevision setID version)
| call_record planID e : store_call (RecordPlanRef planID e).
(** One call, its statements failing as they may. *)
Definition store_step (d d' : Database) : Prop :=
  exists m w, store_call m /\ store w = d /\ store (m w).2 = d'.

Definition later (d d' : Database) : Prop :=
  policy_ok d' /\ history_kept (policies d) (policies d') /\
  exists l, policy_refs d' = policy_refs d ++ l.

#[local] Lemma keeps_save d0 r tenant : keeps (later d0) (SaveRevision r tenant).
Proof.
  unfold SaveRevision. keeps_walk. apply keeps_insert_row. intros d d' ([Ha Hk] & Hh & Hp) H.
  destruct (Version r <? 1); [discriminate|].
  destruct (clashes revision_key_eqb _ _ _ _) eqn:C1; [discriminate|].
  destruct (clashes String.eqb _ _ _ _) eqn:C2; [discriminate|]. injection H as <-.
  split; [split|split]; simpl; [| | |done].
  - eapply (indexed_snoc String.eqb); eauto. intros. b2p. done.
  - eapply (indexed_snoc revision_key_eqb); eauto. apply pair_eqb_spec; intros; b2p; done.
  - eapply history_kept_trans; [done|apply history_kept_app].
Qed.

#[local] Lemma keeps_activate d0 setID version : keeps (later d0) (ActivateRevision setID version).
Proof.
  intros w ([Ha Hk] & Hh & Hp). destruct (ActivateRevision setID version w) as [[e|[]] w'] eqn:E.
  - apply connect_tx_inl in E as Hs.
    simpl. by rewrite Hs.
  - apply ActivateRevision_inr in E as (E & Hix & _). cbn [snd]. rewrite E.
    split; [split|split]; simpl; [by apply active_index_spec|by apply rows_keep_key| |done].
    do 3 (eapply history_kept_trans; [|apply history_activated || apply history_superseded
                                       || apply history_published]). done.
Qed.

#[local] Lemma keeps_record d0 planID e : keeps (later d0) (RecordPlanRef planID e).
Proof.
  unfold RecordPlanRef. keeps_walk. apply keeps_insert_row. intros d d' (Hok & Hh & l & Hp) H.
  destruct (any_where _ _); [discriminate|]. injection H as <-.
  split; [by destruct Hok|]. split; [done|]. simpl. rewrite Hp, <- app_assoc. eauto.
Qed.

(** Through any sequence of store calls, whatever statements fail and
    wherever, the table keeps one ACTIVATED revision per set and one row per
    version, no stored revision is deleted or rewritten, each moves along
    legal transitions only, and the recorded plan references never change. *)
Theorem policy_store_history d d' :
  policy_ok d -> star store_step d d' -> later d d'.
Proof.
  intros Hok Hst. apply (star_invariant store_step (later d) d d'); [| |done].
  - intros a b Ha (m & w & Hm & <- & <-).
    destruct Hm; [by apply keeps_save|by apply keeps_activate|by apply keeps_record].
  - split; [done|]. split; [apply history_kept_refl|]. exists []. by rewrite app_nil_r.
Qed.


Definition policy_w1 : Content := MkContent ["eu"; "cn"] "INTERNAL" [] ["sbom"] "true".
Definition policy_w2 : Content := MkContent ["cn"; "eu"] "INTERNAL" [] ["sbom"] "true".

Lemma CanonicalDigest_identifies_witness :
  content_utf8 policy_w1 = true /\ CanonicalDigest policy_w1 = CanonicalDigest policy_w2.
Proof.
  split; [by vm_compute|].
  refine (proj2 (CanonicalDigest_identifies policy_w1 policy_w2 _ _ _) _).
  - by vm_compute.
  - by vm_compute.
  - intros _. by vm_compute.
  - split_and!; try done. apply Permutation_swap.
Defined.

Definition true_engine : Cel.Engine :=
  Cel.MkEngine (fun _ => Some Cel.ELiteral) (fun _ _ => Cel.OutBool true).

Definition set_w1 : Set_ :=
  run_ops true_engine [(OpActivate 1, 5); (OpDraft policy_w2, 6)]
    (MkSet "p" {[1 := draft "p" 1 policy_w1 4]} 0).

Lemma policy_set_lifecycle_witness :
  evolves set_w1 (run_ops true_engine [(OpActivate 2, 7); (OpActivate 1, 8)] set_w1).
Proof.
  apply (policy_set_lifecycle true_engine "p" policy_w1 4 _ (draft "p" 1 policy_w1 4)
           [(OpActivate 1, 5); (OpDraft policy_w2, 6)] [(OpActivate 2, 7); (OpActivate 1, 8)]).
  reflexivity.
Defined.

(** A table with one activated revision and a draft, and the set it stores. *)
Definition row_w (v : Z) (st : PolicyState) (c : Content) : PolicyRow :=
  MkPolicyRow v "p" v st c (CanonicalDigest c) 1 None None "".
Definition db_w : Database :=
  with_policies [row_w 1 PolActivated policy_w1; row_w 2 PolDraft policy_w2] empty_db.
Definition set_w : Set_ :=
  apply true_engine (OpDraft policy_w2) 2
    (apply true_engine (OpActivate 1) 2
       (MkSet "p" {[1 := draft "p" 1 policy_w1 1]} 0)).

Lemma db_w_ok : policy_ok db_w.
Proof.
  split.
  - apply (unique_on_spec String.eqb); [intros; b2p; done|]. by vm_compute.
  - apply (unique_on_spec revision_key_eqb); [|by vm_compute].
    apply pair_eqb_spec; intros; b2p; done.
Qed.

Lemma set_w_ok : wf set_w.
Proof.
  unfold set_w. do 2 apply apply_ok.
  apply (wf_new "p" policy_w1 1 _ (draft "p" 1 policy_w1 1)). reflexivity.
Qed.

Lemma ActivateRevision_refines_witness :
  exists s' r', Activate true_engine 2 9 set_w = inr (s', r') /\
    agrees s' (policies (store (ActivateRevision "p" 2 (MkWorld db_w [] 9)).2)) /\
    policy_ok (store (ActivateRevision "p" 2 (MkWorld db_w [] 9)).2).
Proof.
  eapply (ActivateRevision_refines true_engine "p" 2 (MkWorld db_w [] 9)).
  - apply db_w_ok.
  - apply set_w_ok.
  - reflexivity.
  - intros v. destruct (decide (v = 1)) as [->|H1]; [by vm_compute|].
    destruct (decide (v = 2)) as [->|H2]; [by vm_compute|].
    transitivity (None (A := PolicyState)).
    + destruct (Revisions set_w !! v) as [r|] eqn:E; [|done].
      assert (is_Some (Revisions set_w !! v)) as Hs by eauto.
      apply (wf_dom _ set_w_ok) in Hs.
      change (Z.of_nat (size (Revisions set_w))) with 2 in Hs. lia.
    + destruct (first_where _ _) as [r|] eqn:E; [|done].
      apply first_where_some in E as [Hr Hat]. unfold at_version in Hat. b2p.
      apply elem_of_cons in Hr as [->|Hr]; [simpl in *; lia|].
      apply list_elem_of_singleton in Hr as ->. simpl in *. lia.
  - intros r Hr _.
    assert (H : RevContent <$> Revisions set_w !! 2 = Some policy_w2) by by vm_compute.
    rewrite Hr in H. injection H as ->. reflexivity.
  - vm_compute. reflexivity.
Defined.

Lemma ActivateRevision_outcome_witness :
  (ActivateRevision "p" 1 (MkWorld db_w [] 9)).1 = inl ErrTransition.
Proof. rewrite (ActivateRevision_outcome "p" 1 db_w 9 db_w_ok). by vm_compute. Defined.

Lemma policy_store_history_witness :
  later db_w (store (ActivateRevision "p" 2 (MkWorld db_w [false; true] 9)).2).
Proof.
  apply policy_store_history; [apply db_w_ok|].
  apply star_one. exists (ActivateRevision "p" 2), (MkWorld db_w [false; true] 9). split; [constructor|done].
Defined.
End PolicyProps.
