(* ===== verification/Registry.v ===== *)
(** * The capability, provider and snapshot registry (src/internal/registry)

    [RegDomain] is domain.go: the lifecycle matrix, forbidden fields at any
    depth, digests and snapshot validation.  [RegStore] is store.go: lifecycle
    transitions with revision compare-and-swap, snapshot submission and
    activation.  [Ingest] is snapshotapi.go: the handler of the snapshot
    endpoint; certificate checks, body decoding, time parsing and signature
    verification are the standard library's and arrive as the handler's input.
    The theorems: the recursive field check finds a forbidden key at every
    depth; every call keeps the active pointers on published snapshots; what
    each ingest response says about the database. *)

From S2P Require Import Prelude GoStd GoJson GoTime Sql Schema.

Module RegDomain.

(** ** domain.go *)

Definition ValidTransitions (s : RegState) : list RegState :=
  match s with
  | RegDraft => [RegValidated]
  | RegValidated => [RegPublished]
  | RegPublished => [RegDeprecated; RegSuspended]
  | RegDeprecated => [RegRetired]
  | RegSuspended => [RegPublished; RegRetired]
  | RegRetired => []
  end.
Definition ValidateTransition (from to : RegState) : bool :=
  existsb (fun t => t =d to) (ValidTransitions from).

Definition ReasonInvalidTransition := "REGISTRY_INVALID_TRANSITION".
Definition ReasonForbiddenField := "REGISTRY_FORBIDDEN_FIELD".
Definition ReasonDigestFormat := "REGISTRY_DIGEST_FORMAT".
Definition ReasonDigestMismatch := "REGISTRY_DIGEST_MISMATCH".
Definition ReasonSignatureInvalid := "REGISTRY_SIGNATURE_INVALID".
Definition ReasonWorkloadIdentity := "REGISTRY_WORKLOAD_IDENTITY".
Definition ReasonContractMajor := "REGISTRY_CONTRACT_MAJOR_MISMATCH".
Definition ReasonExpired := "REGISTRY_SNAPSHOT_EXPIRED".
Definition ReasonOutOfOrder := "REGISTRY_SNAPSHOT_OUT_OF_ORDER".

Definition errV (reason : string) : err := ETyped "" reason.

Definition forbiddenFields : list string :=
  ["physical_model"; "price"; "pricing"; "weight"; "weights";
   "instances"; "fallback_chain"; "cascade"; "backend_health";
   "candidate_models"; "credentials"; "prompt"].

(** [None]: no forbidden key.  The error names the key in its message only. *)
Definition CheckForbiddenFields (m : list (string * json)) : option err :=
  if existsb (fun kv => str_mem kv.1 forbiddenFields) m
  then Some (errV ReasonForbiddenField) else None.

Definition first_err {X} (f : X -> option err) : list X -> option err :=
  fix go l := match l with
              | [] => None
              | x :: l' => match f x with Some e => Some e | None => go l' end
              end.

Fixpoint CheckForbiddenFieldsRecursive (v : json) : option err :=
  match v with
  | JObj t =>
      match CheckForbiddenFields t with
      | Some e => Some e
      | None => first_err (fun kv => CheckForbiddenFieldsRecursive kv.2) t
      end
  | JArr t => first_err CheckForbiddenFieldsRecursive t
  | _ => None
  end.

(** sha256 of the payload *)
Definition Digest (payload : string) : string := sha256_digest payload.
Definition VerifyDigest (payload expectedDigest : string) : option err :=
  if Digest payload =s expectedDigest then None else Some (errV ReasonDigestMismatch).

Record Snapshot : Type := MkSnapshot {
  ProviderID : Z;
  SnapshotVersion : Z;
  ContractVersion : string;
  SnapDigest : string;
  Signature : string;
  WorkloadIdentity : string;
  GeneratedAt : Z;
  ValidUntil : Z;
}.

(** The part of [version] before its first dot. *)
Fixpoint majorOf (version : string) : string :=
  match version with
  | EmptyString => EmptyString
  | String c v => if Ascii.eqb c "." then EmptyString else String c (majorOf v)
  end.

Definition ValidateSnapshot (s : Snapshot) (profiles : list (string * json))
    (expectedWorkload expectedContractMajor : string) (now : Z) : option err :=
  if negb (Regex.match_full digestPattern (SnapDigest s)) then Some (errV ReasonDigestFormat)
  else if Signature s =s "" then Some (errV ReasonSignatureInvalid)
  else if WorkloadIdentity s =s "" then Some (errV ReasonWorkloadIdentity)
  else if negb (expectedWorkload =s "") && negb (WorkloadIdentity s =s expectedWorkload)
  then Some (errV ReasonWorkloadIdentity)
  else if negb (expectedContractMajor =s "") &&
          negb (majorOf (ContractVersion s) =s expectedContractMajor)
  then Some (errV ReasonContractMajor)
  else if negb (ValidUntil s >? GeneratedAt s) then Some (errV ReasonExpired)
  else if now >? ValidUntil s then Some (errV ReasonExpired)
  else CheckForbiddenFields profiles.

Definition Transition (from to : RegState) : err + RegState :=
  if ValidateTransition from to then inr to else inl (errV ReasonInvalidTransition).

(** *** The keys of a value *)

(** [key_in k v]: some object nested in [v] has the key [k]. *)
Inductive key_in (k : string) : json -> Prop :=
| key_here fs v : In (k, v) fs -> key_in k (JObj fs)
| key_obj fs k' v : In (k', v) fs -> key_in k v -> key_in k (JObj fs)
| key_arr l v : In v l -> key_in k v -> key_in k (JArr l).

Lemma first_err_none {X} (f : X -> option err) l :
  first_err f l = None <-> Forall (fun x => f x = None) l.
Proof.
  induction l as [|x l IH]; simpl; [done|].
  rewrite Forall_cons. destruct (f x); [by split; [|intros [? _]]|]. rewrite IH. tauto.
Qed.

Lemma CheckForbiddenFields_none m :
  CheckForbiddenFields m = None <-> forall k v, In (k, v) m -> k ∉ forbiddenFields.
Proof.
  unfold CheckForbiddenFields. destruct (existsb _ m) eqn:E.
  - split; [done|]. apply existsb_exists in E as ([k v] & Hin & Hk).
    apply str_mem_spec in Hk. intros H. by destruct (H k v Hin).
  - split; [|done]. intros _ k v Hin Hk. apply not_true_iff_false in E. apply E.
    apply existsb_exists. exists (k, v). split; [done|]. by apply str_mem_spec.
Qed.

Lemma CheckForbiddenFields_reason m e :
  CheckForbiddenFields m = Some e -> e = errV ReasonForbiddenField.
Proof. unfold CheckForbiddenFields. destruct (existsb _ m); congruence. Qed.

End RegDomain.

Module RegStore.
Import RegDomain.

(** ** store.go *)

Definition ErrNotFound : err := ETyped "registry: not found" "".
Definition ErrRevisionConflict : err := ETyped "registry: revision conflict (CAS)" "".
Definition ErrDuplicate : err := ETyped "registry: duplicate/conflict" "".

Definition provider_key_rev (p : ProviderRow) : string * Z := (rp_key p, rp_revision p).
Definition key_rev_eqb := pair_eqb String.eqb Z.eqb.
Definition snapshot_key (s : SnapshotRow) : Z * Z := (ps_provider_id s, ps_version s).
Definition snapshot_key_eqb := pair_eqb Z.eqb Z.eqb.

Definition cas_match (key : string) (rev : Z) (from : RegState) (p : ProviderRow) : bool :=
  (rp_key p =s key) && (rp_revision p =? rev) && (rp_state p =d from).
Definition moved_to (t : Z) (to : RegState) (p : ProviderRow) : ProviderRow :=
  set_rp_published_at (if to =d RegPublished then Some t else rp_published_at p)
    (set_rp_revision (rp_revision p + 1) (set_rp_state to p)).

(** An UPDATE under UNIQUE (provider_key, revision). *)
Definition update_providers (q : ProviderRow -> bool) (f : ProviderRow -> ProviderRow) : Db Z :=
  stmt (fun d =>
    let rows := update_where q f (providers d) in
    if unique_on key_rev_eqb (fun _ => true) provider_key_rev rows
    then inr (updated q (providers d), with_providers rows d)
    else inl (Unique "resource_provider_provider_key_revision_key")).

(** store.go: TransitionProvider *)
Definition TransitionProvider (providerKey : string) (expectedRevision : Z)
    (from to : RegState) : Db unit :=
  guard (negb (ValidateTransition from to)) (errV ReasonInvalidTransition) ;!
  connect ;!
  tx (let! t := now in
      let! n := update_providers (cas_match providerKey expectedRevision from) (moved_to t to) in
      if n =? 0 then
        let! cur := catch (query_row (fun d =>
            first_where (fun p => rp_key p =s providerKey) (providers d)))
          (fun e => if is_no_rows e then throw ErrNotFound else throw e) in
        if negb (rp_revision cur =? expectedRevision) then throw ErrRevisionConflict
        else throw (errV ReasonInvalidTransition)
      else ret (Commit tt)).

Definition of_provider (id : Z) (s : SnapshotRow) : bool := ps_provider_id s =? id.
Definition at_version (id v : Z) (s : SnapshotRow) : bool :=
  (ps_provider_id s =? id) && (ps_version s =? v).

(** The row SubmitSnapshot inserts: [profiles] is not among its columns. *)
Definition draft_row (d : Database) (snap : Snapshot) : SnapshotRow :=
  MkSnapshotRow (next_id d) (ProviderID snap) (SnapshotVersion snap) (ContractVersion snap)
    (SnapDigest snap) (Signature snap) (WorkloadIdentity snap) [] (GeneratedAt snap)
    (ValidUntil snap) RegDraft.
(** 00004: constraints of registry.provider_snapshot. *)
Definition insert_snapshot (snap : Snapshot) : Db unit :=
  insert_row (fun d =>
    let row := draft_row d snap in
    if negb (any_where (fun p => rp_id p =? ProviderID snap) (providers d)) then inl ForeignKey
    else if (SnapshotVersion snap <? 1) ||
            negb (Regex.match_full digestPattern (SnapDigest snap)) ||
            negb (ValidUntil snap >? GeneratedAt snap) then inl CheckViolation
    else if clashes snapshot_key_eqb (fun _ => true) snapshot_key (snapshots d) row
    then inl (Unique "provider_snapshot_provider_id_snapshot_version_key")
    else inr (with_next_id (next_id d + 1) (with_snapshots (snapshots d ++ [row]) d))).

(** store.go: SubmitSnapshot *)
Definition SubmitSnapshot (snap : Snapshot) (profiles : list (string * json)) : Db unit :=
  match CheckForbiddenFieldsRecursive (JObj profiles) with
  | Some e => throw e
  | None =>
      connect ;!
      let! maxVer := query (fun d =>
        max_of ps_version (rows_where (of_provider (ProviderID snap)) (snapshots d))) in
      guard (SnapshotVersion snap <=? maxVer) (errV ReasonOutOfOrder) ;!
      catch (insert_snapshot snap)
        (fun e => if isUniqueViolation e then throw ErrDuplicate else throw e)
  end.

Definition activatable (id v : Z) (s : SnapshotRow) : bool :=
  at_version id v s && ((ps_state s =d RegDraft) || (ps_state s =d RegValidated)).
Definition pointed (id snap t : Z) (rows : list PointerRow) : list PointerRow :=
  if any_where (fun p => pp_provider_id p =? id) rows
  then update_where (fun p => pp_provider_id p =? id) (fun _ => MkPointerRow id snap t) rows
  else rows ++ [MkPointerRow id snap t].

(** store.go: ActivateSnapshot; [at_time] is the injected clock. *)
Definition ActivateSnapshot (snap : Snapshot) (profiles : list (string * json))
    (expectedWorkload expectedContractMajor : string) (at_time : Z) : Db unit :=
  match ValidateSnapshot snap profiles expectedWorkload expectedContractMajor at_time with
  | Some e => throw e
  | None =>
    connect ;!
    tx (let! t := now in
      exec (fun d => with_snapshots (update_where
        (activatable (ProviderID snap) (SnapshotVersion snap)) (set_ps_state RegPublished)
        (snapshots d)) d) ;!
      let! row := query_row (fun d =>
        first_where (at_version (ProviderID snap) (SnapshotVersion snap)) (snapshots d)) in
      guard (negb (ps_state row =d RegPublished)) (errV ReasonInvalidTransition) ;!
      exec (fun d => with_pointers (pointed (ProviderID snap) (ps_id row) t (pointers d)) d) ;!
      let! prov := query_row (fun d =>
        first_where (fun p => rp_id p =? ProviderID snap) (providers d)) in
      let actor := if expectedWorkload =s "" then "platform:snapshot-activation"
                   else expectedWorkload in
      let! audit := insert_change t "_platform" actor "" "provider-snapshot" (rp_key prov)
        "ACTIVATE" (Signature snap)
        (JObj [("snapshot_version", JNum (dec (SnapshotVersion snap)));
               ("digest", JStr (SnapDigest snap))]) in
      insert_outbox_ignore t "provider.snapshot-changed"
        (JObj [("provider_id", JStr (rp_key prov));
               ("snapshot_version", JNum (dec (SnapshotVersion snap)));
               ("digest", JStr (SnapDigest snap));
               ("valid_until", JStr (GoTime.rfc3339_nano (ValidUntil snap)))])
        audit ("provider-snapshot:" +:+ rp_key prov +:+ ":" +:+ dec (SnapshotVersion snap))
        "provider" (rp_key prov) (SnapshotVersion snap) ;!
      ret (Commit tt))
  end.

Inductive IngestVerdict : Type :=
| IngestNew
| IngestIdempotent
| IngestResumable
| IngestDigestConflict
| IngestVersionRegression.

(** The rows of the provider(s) with the key: the JOIN of the queries. *)
Definition with_key (d : Database) (key : string) (s : SnapshotRow) : bool :=
  any_where (fun p => (rp_id p =? ps_provider_id s) && (rp_key p =s key)) (providers d).

(** store.go: CheckSnapshotIngest *)
Definition CheckSnapshotIngest (providerKey : string) (version : Z) (digest : string)
    : Db IngestVerdict :=
  connect ;!
  let! found := query (fun d =>
    first_where (fun s => with_key d providerKey s && (ps_version s =? version)) (snapshots d)) in
  match found with
  | Some s =>
      if negb (ps_digest s =s digest) then ret IngestDigestConflict
      else if ps_state s =d RegPublished then ret IngestIdempotent
      else ret IngestResumable
  | None =>
      let! maxVersion := query (fun d =>
        max_of ps_version (rows_where (with_key d providerKey) (snapshots d))) in
      if (maxVersion >? 0) && (version <? maxVersion) then ret IngestVersionRegression
      else ret IngestNew
  end.

(** store.go: ProviderByKey *)
Definition ProviderByKey (providerKey : string) : Db ProviderRow :=
  connect ;!
  catch (query_row (fun d => first_where (fun p => rp_key p =s providerKey) (providers d)))
    (fun e => if is_no_rows e then throw ErrNotFound else throw e).

Definition key_le (a b : ProviderRow) : Prop := String.le (rp_key a) (rp_key b).
#[export] Instance key_le_dec : RelDecision key_le.
Proof. unfold key_le. intros a b. apply _. Defined.

(** store.go: PublishableProviders *)
Definition PublishableProviders (providerType : string) : Db (list ProviderRow) :=
  connect ;!
  query (fun d => merge_sort key_le
    (rows_where (fun p => (rp_state p =d RegPublished) && (rp_type p =s providerType)) (providers d))).

(** store.go: ActiveSnapshot *)
Definition ActiveSnapshot (providerID : Z) : Db SnapshotRow :=
  connect ;!
  catch (query_row (fun d =>
      match first_where (fun p => pp_provider_id p =? providerID) (pointers d) with
      | Some p => first_where (fun s => ps_id s =? pp_snapshot_id p) (snapshots d)
      | None => None
      end))
    (fun e => if is_no_rows e then throw ErrNotFound else throw e).

End RegStore.

Module Ingest.
Import RegDomain RegStore.

(** ** snapshotapi.go *)

(** A Go slice: [None] is nil. *)
Definition slice (A : Type) : Type := option (list A).
Definition elems {A} (s : slice A) : list A := default [] s.
Definition jslice {A} (f : A -> json) (s : slice A) : json :=
  match s with Some l => JArr (map f l) | None => JNull end.

Record IngestProfile : Type := MkIngestProfile {
  ProfileID : string;
  CapabilityKeys : slice string;
  ProfileRegions : slice string;
  DataClassificationMax : string;
  Features : option (list (string * json)); (* nil map: None *)
  ConstraintSchemaVersion : string;
  Status : string;
}.
Record IngestRequest : Type := MkIngestRequest {
  ReqProviderID : string;
  ReqVersion : Z;
  ReqContractVersion : string;
  ReqGeneratedAt : string;
  ReqValidUntil : string;
  Profiles : slice IngestProfile;
  ReqDigest : string;
  ReqSignature : string;
  TenantRef : string;
}.

(** json.Marshal prints a map with sorted keys. *)
Definition field_le (a b : string * json) : Prop := String.le a.1 b.1.
#[export] Instance field_le_dec : RelDecision field_le.
Proof. unfold field_le. intros a b. apply _. Defined.
Fixpoint sorted_maps (j : json) : json :=
  match j with
  | JArr l => JArr (map sorted_maps l)
  | JObj fs => JObj (merge_sort field_le (map (fun kv => (kv.1, sorted_maps kv.2)) fs))
  | _ => j
  end.

Definition profile_json (p : IngestProfile) : json :=
  JObj [("profile_id", JStr (ProfileID p));
        ("capability_keys", jslice JStr (CapabilityKeys p));
        ("regions", jslice JStr (ProfileRegions p));
        ("data_classification_max", JStr (DataClassificationMax p));
        ("features", match Features p with Some fs => sorted_maps (JObj fs) | None => JNull end);
        ("constraint_schema_version", JStr (ConstraintSchemaVersion p));
        ("status", JStr (Status p))].
Definition snapshot_content (req : IngestRequest) : json :=
  JObj [("provider_id", JStr (ReqProviderID req));
        ("snapshot_version", JNum (dec (ReqVersion req)));
        ("contract_version", JStr (ReqContractVersion req));
        ("generated_at", JStr (ReqGeneratedAt req));
        ("valid_until", JStr (ReqValidUntil req));
        ("profiles", jslice profile_json (Profiles req))].
Definition SnapshotDigest (req : IngestRequest) : string :=
  sha256_digest (marshal (snapshot_content req)).

Definition profileStateSet : list string := ["AVAILABLE"; "DEGRADED"; "UNAVAILABLE"; "RETIRED"].

(** The configuration of the endpoint.  [PublisherKey]: the check "the
    signature is base64, 64 bytes long and verifies the digest under the key";
    [parse_time]: [time.Parse(time.RFC3339, _)] as an instant. *)
Record Config : Type := MkConfig {
  ExpectedIdentity : string;
  PublisherKey : option (string -> string -> bool);
  ExpectedContractMajor : string;
  parse_time : string -> option Z;
}.

(** rejectReason: error code and HTTP status. *)
Definition rejectReason : Type := (string * Z)%type.
Definition bad (code : string) : option rejectReason := Some (code, 400).

Fixpoint validate_profiles (ps : list IngestProfile) : option rejectReason :=
  match ps with
  | [] => None
  | p :: ps' =>
      if ProfileID p =s "" then bad "INVALID_PROFILE"
      else if negb (str_mem (Status p) profileStateSet) then bad "INVALID_PROFILE_STATE"
      else validate_profiles ps'
  end.

Definition validateIngest (cfg : Config) (req : IngestRequest) (providerKey : string)
    : option rejectReason :=
  if negb (ReqProviderID req =s providerKey) then bad "PROVIDER_MISMATCH"
  else if negb (Regex.match_full digestPattern (ReqDigest req)) then bad "INVALID_DIGEST"
  else if negb (SnapshotDigest req =s ReqDigest req) then bad "DIGEST_MISMATCH"
  else if ReqSignature req =s "" then bad "SIGNATURE_REQUIRED"
  else if match PublisherKey cfg with
          | Some verify => negb (verify (ReqDigest req) (ReqSignature req))
          | None => false
          end then bad "SIGNATURE_INVALID"
  else if ReqVersion req <? 1 then bad "INVALID_VERSION"
  else match elems (Profiles req) with
       | [] => bad "NO_PROFILES"
       | ps => validate_profiles ps
       end.

(** What the TLS layer and the decoder hand to the handler. *)
Record Incoming : Type := MkIncoming {
  peer_cert : bool;              (* a client certificate was presented *)
  chain_verified : bool;         (* WorkloadVerifier.Verify succeeded *)
  peer_identity : option string; (* workload.SPIFFESAN of the leaf *)
  decoded : option IngestRequest; (* None: size cap, unknown field or syntax *)
  provider_key : string;         (* URL parameter *)
}.

(** The response: HTTP status and error_code (or the "status" of a 200). *)
Definition Response : Type := (Z * string)%type.

(** [m[k] = v] *)
Definition put_field (m : list (string * json)) (k : string) (v : json) : list (string * json) :=
  List.filter (fun kv => negb (kv.1 =s k)) m ++ [(k, v)].
(** The profiles map passed to the store, keyed by profile id; the inner maps
    hold the fields of the profile. *)
Definition profile_map (ps : list IngestProfile) : list (string * json) :=
  fold_left (fun m p => put_field m (ProfileID p)
    (JObj [("profile_id", JStr (ProfileID p));
           ("capability_keys", jslice JStr (CapabilityKeys p));
           ("regions", jslice JStr (ProfileRegions p));
           ("data_classification_max", JStr (DataClassificationMax p));
           ("features", match Features p with Some fs => JObj fs | None => JNull end);
           ("constraints_schema_version", JStr (ConstraintSchemaVersion p));
           ("status", JStr (Status p))])) ps [].

(** [x, err := m]: the error as a value. *)
Definition try {A} (m : Db A) : Db (err + A) :=
  fun w => let (r, w') := m w in (inr r, w').

Definition snapshot_of (cfg : Config) (req : IngestRequest) (provider : ProviderRow)
    (generated until : Z) : Snapshot :=
  MkSnapshot (rp_id provider) (ReqVersion req) (ReqContractVersion req) (ReqDigest req)
    (ReqSignature req) (ExpectedIdentity cfg) generated until.

(** Step 5 from the activation on. *)
Definition activate_step (cfg : Config) (req : IngestRequest) (snap : Snapshot) : Db Response :=
  let! t := now in
  let! r := try (ActivateSnapshot snap (profile_map (elems (Profiles req)))
                   (ExpectedIdentity cfg) (majorOf (ReqContractVersion req)) t) in
  match r with
  | inl _ => ret (400, "SNAPSHOT_REJECTED")
  | inr _ => ret (200, "activated")
  end.

(** Step 5: submit unless the row exists, then activate. *)
Definition store_step (cfg : Config) (req : IngestRequest) (key : string) (resumable : bool)
    (snap : Snapshot) : Db Response :=
  if resumable then activate_step cfg req snap
  else
    let! s := try (SubmitSnapshot snap (profile_map (elems (Profiles req)))) in
    match s with
    | inr _ => activate_step cfg req snap
    | inl _ =>
        let! r := try (CheckSnapshotIngest key (ReqVersion req) (ReqDigest req)) in
        match r with
        | inl _ => ret (400, "SNAPSHOT_REJECTED")
        | inr IngestIdempotent => ret (200, "idempotent")
        | inr IngestDigestConflict => ret (409, "SNAPSHOT_DIGEST_CONFLICT")
        | inr IngestResumable => activate_step cfg req snap
        | inr IngestVersionRegression => ret (409, "SNAPSHOT_VERSION_REGRESSION")
        | inr IngestNew => ret (400, "SNAPSHOT_REJECTED")
        end
    end.

(** Provider lookup, times, window and contract major, then the store. *)
Definition accept_step (cfg : Config) (req : IngestRequest) (key : string) (resumable : bool)
    : Db Response :=
  let! p := try (ProviderByKey key) in
  match p with
  | inl _ => ret (404, "PROVIDER_NOT_FOUND")
  | inr provider =>
      match parse_time cfg (ReqGeneratedAt req) with
      | None => ret (400, "INVALID_SNAPSHOT")
      | Some generated =>
          match parse_time cfg (ReqValidUntil req) with
          | None => ret (400, "INVALID_SNAPSHOT")
          | Some until =>
              if negb (until >? generated) then ret (400, "INVALID_WINDOW")
              else if negb (ExpectedContractMajor cfg =s "") &&
                      negb (majorOf (ReqContractVersion req) =s ExpectedContractMajor cfg)
              then ret (400, "CONTRACT_MAJOR_REJECTED")
              else store_step cfg req key resumable (snapshot_of cfg req provider generated until)
          end
      end
  end.

Definition handleIngest (cfg : Config) (inc : Incoming) : Db Response :=
  if negb (peer_cert inc) then ret (403, "WORKLOAD_IDENTITY_REQUIRED")
  else if negb (chain_verified inc) then ret (403, "WORKLOAD_IDENTITY_REJECTED")
  else if negb (match peer_identity inc with
                | Some san => san =s ExpectedIdentity cfg
                | None => false
                end) then ret (403, "WORKLOAD_IDENTITY_MISMATCH")
  else match decoded inc with
  | None => ret (400, "INVALID_SNAPSHOT")
  | Some req =>
      match validateIngest cfg req (provider_key inc) with
      | Some (code, status) => ret (status, code)
      | None =>
          let! v := try (CheckSnapshotIngest (provider_key inc) (ReqVersion req) (ReqDigest req)) in
          match v with
          | inl _ => ret (500, "REGISTRY_UNAVAILABLE")
          | inr IngestDigestConflict => ret (409, "SNAPSHOT_DIGEST_CONFLICT")
          | inr IngestVersionRegression => ret (409, "SNAPSHOT_VERSION_REGRESSION")
          | inr IngestIdempotent => ret (200, "idempotent")
          | inr IngestNew => accept_step cfg req (provider_key inc) false
          | inr IngestResumable => accept_step cfg req (provider_key inc) true
          end
      end
  end.

End Ingest.

Module RegistryProps.
Import RegDomain RegStore Ingest.

(** ** Properties *)

(** The recursive check rejects a payload exactly when some object in it,
    at any depth, has a forbidden key, and always with the same reason. *)
Theorem forbidden_fields_any_depth v :
  (CheckForbiddenFieldsRecursive v = None <-> forall k, key_in k v -> k ∉ forbiddenFields) /\
  (forall e, CheckForbiddenFieldsRecursive v = Some e -> e = errV ReasonForbiddenField).
Proof.
  assert (Hreason : forall {X} (f : X -> option err) l e,
    Forall (fun x => forall e, f x = Some e -> e = errV ReasonForbiddenField) l ->
    first_err f l = Some e -> e = errV ReasonForbiddenField).
  { intros X f l e H. induction H as [|x l Hx _ IH]; simpl; [done|].
    destruct (f x) eqn:E; [intros [= ->]; auto|done]. }
  induction v as [|b|n|s|l IH|fs IH] using json_ind_nested; simpl;
    try (split; [split; [intros _ k Hk; inversion Hk|done]|done]).
  - split.
    + rewrite first_err_none. split.
      * intros H k Hk. inversion Hk as [| |? v Hin Hv]; subst.
        rewrite Forall_forall in IH, H. apply list_elem_of_In in Hin.
        destruct (IH v Hin) as [Hiff _]. apply Hiff; auto.
      * intros H. rewrite Forall_forall in IH |- *. intros v Hin. apply (IH v Hin).
        intros k Hk. apply H. apply list_elem_of_In in Hin. by eapply key_arr.
    + intros e. apply Hreason. eapply Forall_impl; [exact IH|]. by intros v [_ ?].
  - destruct (CheckForbiddenFields fs) as [e|] eqn:E.
    + split; [|intros e' [= <-]; by eapply CheckForbiddenFields_reason].
      split; [done|]. intros H. assert (CheckForbiddenFields fs = None); [|congruence].
      apply CheckForbiddenFields_none. intros k v Hin. apply H. by eapply key_here.
    + pose proof (proj1 (CheckForbiddenFields_none fs) E) as Htop. split.
      * rewrite first_err_none. split.
        -- intros H k Hk. inversion Hk as [? v Hin|? k' v Hin Hv|]; subst; [by eapply Htop|].
           rewrite Forall_forall in IH, H. apply list_elem_of_In in Hin.
           destruct (IH (k', v) Hin) as [Hiff _]. apply Hiff; [|done]. exact (H (k', v) Hin).
        -- intros H. rewrite Forall_forall in IH |- *. intros [k' v] Hin. apply (IH (k', v) Hin).
           intros k Hk. apply H. apply list_elem_of_In in Hin. by eapply key_obj.
      * intros e. apply Hreason. eapply Forall_impl; [exact IH|]. by intros v [_ ?].
Qed.

(** ValidateSnapshot accepts exactly the snapshots that meet the acceptance
    contract: digest format, signature, workload identity (the expected one
    when configured), contract major (when configured), a window that is
    proper and not over, and no forbidden profile key. *)
Theorem ValidateSnapshot_accepts s profiles workload major now :
  ValidateSnapshot s profiles workload major now = None <->
  (exists h, SnapDigest s = "sha256:" +:+ h /\ String.length h = 64%nat /\
             Forall (fun c => Regex.hex_lower c = true) (bytes_of_string h)) /\
  Signature s <> "" /\ WorkloadIdentity s <> "" /\
  (workload <> "" -> WorkloadIdentity s = workload) /\
  (major <> "" -> majorOf (ContractVersion s) = major) /\
  GeneratedAt s < ValidUntil s /\ now <= ValidUntil s /\
  (forall k v, In (k, v) profiles -> k ∉ forbiddenFields).
Proof.
  unfold ValidateSnapshot. rewrite <- digestPattern_spec, <- CheckForbiddenFields_none.
  destruct (Regex.match_full digestPattern (SnapDigest s)); simpl; [|by split; [|intros [? _]]].
  destruct (String.eqb_spec (Signature s) ""); [by split; [|intros (_ & ? & _)]|].
  destruct (String.eqb_spec (WorkloadIdentity s) ""); [by split; [|intros (_ & _ & ? & _)]|].
  destruct (String.eqb_spec workload ""), (String.eqb_spec (WorkloadIdentity s) workload); simpl;
    try (split; [done|intros (_ & _ & _ & H & _); by destruct H]).
  all: destruct (String.eqb_spec major ""), (String.eqb_spec (majorOf (ContractVersion s)) major); simpl;
    try (split; [done|intros (_ & _ & _ & _ & H & _); by destruct H]).
  all: rewrite Z.gtb_ltb; destruct (Z.ltb_spec (GeneratedAt s) (ValidUntil s)); simpl;
    [|split; [done|lia]].
  all: rewrite Z.gtb_ltb; destruct (Z.ltb_spec (ValidUntil s) now); simpl; [split; [done|lia]|].
  all: tauto.
Qed.

(** *** The invariant *)

Record registry_ok (d : Database) : Prop := {
  rk_pointer : indexed (fun _ => true) pp_provider_id (pointers d);
  rk_snapshot : indexed (fun _ => true) snapshot_key (snapshots d);
  rk_provider : indexed (fun _ => true) provider_key_rev (providers d);
  rk_row : forall s, s ∈ snapshots d ->
    Regex.match_full digestPattern (ps_digest s) = true /\ 1 <= ps_version s /\
    ps_generated_at s < ps_valid_until s;
  rk_target : forall p, p ∈ pointers d -> exists s, s ∈ snapshots d /\
    ps_id s = pp_snapshot_id p /\ ps_provider_id s = pp_provider_id p /\ ps_state s = RegPublished;
}.

(** A stored snapshot keeps its content; its state only moves to PUBLISHED. *)
Definition snapshot_kept (s s' : SnapshotRow) : Prop :=
  s' = set_ps_state (ps_state s') s /\
  (ps_state s' = ps_state s \/
   (ps_state s = RegDraft \/ ps_state s = RegValidated) /\ ps_state s' = RegPublished).

Lemma snapshot_kept_refl s : snapshot_kept s s.
Proof. split; [by destruct s|by left]. Qed.
Lemma snapshot_kept_trans a b c : snapshot_kept a b -> snapshot_kept b c -> snapshot_kept a c.
Proof.
  intros [Hb Hsb] [Hc Hsc]. split.
  - rewrite Hc, Hb. by destruct a.
  - destruct Hsb as [Eb|[Ha Eb]], Hsc as [Ec|[Hb' Ec]].
    + left. congruence.
    + right. by rewrite <- Eb.
    + right. split; [done|congruence].
    + rewrite Eb in Hb'. by destruct Hb'.
Qed.

(** The rows added since [t] carry no profiles. *)
Definition added_bare (t t' : list SnapshotRow) : Prop :=
  forall i s, t' !! i = Some s -> (length t <= i)%nat -> ps_profiles s = [].

Definition later (d d' : Database) : Prop :=
  registry_ok d' /\ rows_kept snapshot_kept (snapshots d) (snapshots d') /\
  extends (changes d) (changes d') /\ extends (outbox d) (outbox d') /\
  added_bare (snapshots d) (snapshots d').

Lemma added_bare_refl t : added_bare t t.
Proof. intros i s H Hi. apply lookup_lt_Some in H. lia. Qed.

(** What a committed activation did. *)
Lemma ActivateSnapshot_inr snap profiles workload major at_time w w' :
  ActivateSnapshot snap profiles workload major at_time w = (inr tt, w') ->
  exists row,
    let rows := update_where (activatable (ProviderID snap) (SnapshotVersion snap))
                  (set_ps_state RegPublished) (snapshots (store w)) in
    ValidateSnapshot snap profiles workload major at_time = None /\
    first_where (at_version (ProviderID snap) (SnapshotVersion snap)) rows = Some row /\
    ps_state row = RegPublished /\
    snapshots (store w') = rows /\
    pointers (store w') = pointed (ProviderID snap) (ps_id row) (clock w) (pointers (store w)) /\
    providers (store w') = providers (store w) /\
    extends (changes (store w)) (changes (store w')) /\
    extends (outbox (store w)) (outbox (store w')).
Proof.
  unfold ActivateSnapshot. destruct (ValidateSnapshot _ _ _ _ _) eqn:Hv; [discriminate|].
  intros H. apply bind_inr in H as (u & w0 & Hc & H). apply connect_inr in Hc as [Hs0 Hc0].
  apply tx_inr in H as (w1 & Hs1 & Hc1 & [(w2 & Hb & Hw')|(w2 & Hb & _)]).
  - apply bind_inr in Hb as (t & wa & Ht & Hb). apply now_inr in Ht as [-> ->].
    apply bind_inr in Hb as (u1 & wb & Hx & Hb). apply exec_inr in Hx as [Hb1 _].
    apply bind_inr in Hb as (row & wc & Hx & Hb). apply query_row_inr in Hx as (Hrow & Hc2 & _).
    apply bind_inr in Hb as (u2 & wd & Hx & Hb). apply guard_inr in Hx as [Hg ->].
    apply bind_inr in Hb as (u3 & we & Hx & Hb). apply exec_inr in Hx as [He _].
    apply bind_inr in Hb as (prov & wf & Hx & Hb). apply query_row_inr in Hx as (_ & Hf & _).
    apply bind_inr in Hb as (audit & wg & Hx & Hb). apply insert_change_inr in Hx as (_ & _ & _ & Hgs).
    apply bind_inr in Hb as (u4 & wh & Hx & Hb). apply insert_outbox_ignore_inr in Hx as [_ Hh].
    apply ret_inr in Hb as [_ ->]. exists row. cbv zeta.
    rewrite Hb1, Hs1, Hs0 in Hrow. simpl in Hrow.
    assert (Ew : store wg = push_change (new_change (store wf) (clock w1) "_platform"
      (if workload =s "" then "platform:snapshot-activation" else workload) "" "provider-snapshot"
      (rp_key prov) "ACTIVATE" (Signature snap)
      (JObj [("snapshot_version", JNum (dec (SnapshotVersion snap)));
             ("digest", JStr (SnapDigest snap))])) (store wf)) by exact Hgs.
    rewrite Hf, He, Hc2, Hb1, Hs1, Hs0 in Ew.
    assert (Hp : ps_state row = RegPublished).
    { apply negb_false_iff, bool_decide_eq_true in Hg. done. }
    rewrite Hw'. rewrite Hc1, Hc0 in Ew.
    destruct Hh as [->| ->]; rewrite Ew; repeat split; simpl; auto; by eexists.
  - exfalso. apply bind_inr in Hb as (t & wa & _ & Hb).
    repeat apply bind_inr in Hb as (? & ? & _ & Hb). by apply ret_inr in Hb as [? _].
Qed.

Lemma snapshot_rows_published id v t :
  rows_kept snapshot_kept t (update_where (activatable id v) (set_ps_state RegPublished) t).
Proof.
  apply rows_kept_update; [apply snapshot_kept_refl|]. intros s Hs. split; [by destruct s|].
  right. split; [|done]. unfold activatable in Hs. b2p. destruct Hs as [_ Hs].
  by destruct Hs as [Hs|Hs]; apply bool_decide_eq_true in Hs; auto.
Qed.

(** Publishing rows keeps every clause of the invariant about snapshots. *)
Lemma ok_published id v d :
  registry_ok d ->
  registry_ok (with_snapshots (update_where (activatable id v) (set_ps_state RegPublished)
    (snapshots d)) d).
Proof.
  intros [Hp Hs Hpr Hr Ht]. split; simpl; [done| |done| |].
  - apply indexed_update; [done|]. done.
  - intros s Hin. apply elem_of_update_where in Hin as [(s0 & Hin & _ & ->)|[Hin _]]; [|auto].
    apply (Hr _ Hin).
  - intros p Hin. destruct (Ht p Hin) as (s & Hsin & Hid & Hpid & Hst).
    exists s. split; [|done]. apply elem_of_update_where. right. split; [done|].
    unfold activatable. rewrite Hst. by rewrite andb_false_r.
Qed.

(** Pointing a provider at one of its published snapshots. *)
Lemma ok_pointed id s t d :
  registry_ok d -> s ∈ snapshots d -> ps_provider_id s = id -> ps_state s = RegPublished ->
  registry_ok (with_pointers (pointed id (ps_id s) t (pointers d)) d).
Proof.
  intros [Hp Hs Hpr Hr Ht] Hin Hpid Hst. split; simpl; [|done..|].
  - unfold pointed. destruct (any_where _ _) eqn:E.
    + apply indexed_update; [done|]. intros p _ Hq _. b2p. done.
    + apply (indexed_snoc Z.eqb); [apply Z.eqb_eq|done|].
      apply (clashes_false Z.eqb); [apply Z.eqb_eq|]. intros _ p Hpin _ Hk.
      rewrite any_where_false in E. specialize (E p Hpin). simpl in Hk. b2p. done.
  - intros p Hpin. assert (p = MkPointerRow id (ps_id s) t \/ p ∈ pointers d) as [->|Hold].
    { unfold pointed in Hpin. destruct (any_where _ _).
      - apply elem_of_update_where in Hpin as [(? & _ & _ & ->)|[? _]]; auto.
      - apply elem_of_app in Hpin as [?|Hpin]; [auto|].
        apply list_elem_of_singleton in Hpin as ->. auto. }
    + exists s. done.
    + auto.
Qed.

Lemma later_refl d : registry_ok d -> later d d.
Proof.
  intros Hok. split; [done|]. split; [apply rows_kept_refl, snapshot_kept_refl|].
  split; [done|]. split; [done|apply added_bare_refl].
Qed.

#[local] Lemma later_frame d0 d d' :
  later d0 d -> snapshots d' = snapshots d -> pointers d' = pointers d ->
  providers d' = providers d -> extends (changes d) (changes d') ->
  extends (outbox d) (outbox d') -> later d0 d'.
Proof.
  intros ([Hp Hs Hpr Hr Ht] & Hk & Hc & Ho & Hbare) E1 E2 E3 Hc' Ho'.
  split; [split|split; [|split; [|split]]]; rewrite ?E1, ?E2, ?E3; auto; by eapply extends_trans.
Qed.

Lemma keeps_activate_snapshot d0 snap profiles workload major at_time :
  keeps (later d0) (ActivateSnapshot snap profiles workload major at_time).
Proof.
  intros w (Hok & Hk & Hch & Hob & Hbare). destruct (ActivateSnapshot _ _ _ _ _ w) as [[e|[]] w'] eqn:E.
  - assert (store w' = store w) as Hs; [|simpl; by rewrite Hs].
    unfold ActivateSnapshot in E. destruct (ValidateSnapshot _ _ _ _ _).
    + by injection E as _ <-.
    + by apply connect_tx_inl in E.
  - apply ActivateSnapshot_inr in E as (row & _ & Hrow & Hst & Hs & Hp & Hpr & Hc & Ho).
    simpl. apply first_where_some in Hrow as [Hin Hat].
    unfold at_version in Hat. b2p. destruct Hat as [Hpid _].
    pose proof (ok_published (ProviderID snap) (SnapshotVersion snap) _ Hok) as Hok1.
    pose proof (ok_pointed _ row (clock w) _ Hok1 Hin Hpid Hst) as Hok2.
    assert (Hl : later d0 (with_pointers (pointed (ProviderID snap) (ps_id row) (clock w)
      (pointers (store w))) (with_snapshots (update_where (activatable (ProviderID snap)
      (SnapshotVersion snap)) (set_ps_state RegPublished) (snapshots (store w))) (store w)))).
    { split; [exact Hok2|]. split.
      - eapply rows_kept_trans; [apply snapshot_kept_trans|done|apply snapshot_rows_published].
      - split; [done|]. split; [done|]. intros i s Hi Hlen. simpl in Hi. unfold update_where in Hi.
        rewrite lookup_map in Hi. destruct (snapshots (store w) !! i) as [s1|] eqn:Ei; [|discriminate].
        injection Hi as <-. pose proof (Hbare _ _ Ei Hlen). by destruct (activatable _ _ s1). }
    eapply later_frame; [exact Hl|done..| |]; done.
Qed.

Lemma keeps_submit d0 snap profiles : keeps (later d0) (SubmitSnapshot snap profiles).
Proof.
  unfold SubmitSnapshot. keeps_walk. apply keeps_insert_row. intros d d' (Hok & Hk & Hch & Hob & Hbare) H.
  destruct (negb (any_where _ _)); [discriminate|].
  destruct ((SnapshotVersion snap <? 1) || _ || _) eqn:Hc; [discriminate|].
  cbv zeta in H. destruct (clashes _ _ _ _ _) eqn:Hcl; [discriminate|]. injection H as <-.
  apply orb_false_iff in Hc as [Hc Hw]. apply orb_false_iff in Hc as [Hv Hd]. b2p.
  destruct Hok as [Hp Hs Hpr Hr Ht].
  split; [split; simpl|split; [|split; [done|split; [done|]]]; simpl]; [done| |done| | | |].
  - eapply (indexed_snoc snapshot_key_eqb); eauto. apply pair_eqb_spec; apply Z.eqb_eq.
  - intros s Hin. apply elem_of_app in Hin as [Hin|Hin]; [auto|].
    apply list_elem_of_singleton in Hin as ->. simpl. repeat split; [done|lia|lia].
  - intros p Hin. destruct (Ht p Hin) as (s & ? & ?). exists s. split; [by apply elem_of_app; left|done].
  - eapply rows_kept_trans; [apply snapshot_kept_trans|done|].
    apply rows_kept_app. apply snapshot_kept_refl.
  - intros i s Hi Hlen. apply lookup_app_Some in Hi as [Hi|[_ Hi]]; [by eapply Hbare|].
    by apply list_lookup_singleton_Some in Hi as [_ <-].
Qed.

Lemma keeps_transition d0 key rev from to : keeps (later d0) (TransitionProvider key rev from to).
Proof.
  unfold TransitionProvider. apply keeps_bind; [apply keeps_guard|intros _].
  apply keeps_bind; [apply keeps_connect|intros _].
  apply keeps_tx. intros w w' [] Hl H.
  apply bind_inr in H as (t & w1 & Ht & H). apply now_inr in Ht as [-> ->].
  apply bind_inr in H as (n & w2 & Hu & H). apply stmt_inr in Hu as [Hu _].
  cbv zeta in Hu. destruct (unique_on _ _ _ _) eqn:Hun; [|discriminate]. injection Hu as _ Hd.
  assert (Hw' : w' = w2).
  { destruct (n =? 0); [|by apply ret_inr in H as [_ ->]].
    apply bind_inr in H as (cur & w3 & _ & H). destruct (negb _); discriminate. }
  subst w'. rewrite <- Hd. destruct Hl as ([Hp Hs Hpr Hr Ht] & Hk & Hch & Hob & Hbare).
  split; [|done]. split; simpl; auto.
  apply (unique_on_spec key_rev_eqb) in Hun; [done|]. apply pair_eqb_spec; intros; b2p; done.
Qed.

Lemma keeps_try {A} d0 (m : Db A) : keeps (later d0) m -> keeps (later d0) (try m).
Proof. intros H w Hw. specialize (H w Hw). unfold try. by destruct (m w). Qed.

Lemma keeps_check d0 key v digest : keeps (later d0) (CheckSnapshotIngest key v digest).
Proof. unfold CheckSnapshotIngest. keeps_walk. Qed.

Lemma keeps_activate_step d0 cfg req snap : keeps (later d0) (activate_step cfg req snap).
Proof.
  unfold activate_step. keeps_walk; apply keeps_try, keeps_activate_snapshot.
Qed.

Lemma keeps_ingest d0 cfg inc : keeps (later d0) (handleIngest cfg inc).
Proof.
  assert (Hs : forall req key b snap, keeps (later d0) (store_step cfg req key b snap)).
  { intros req key b snap. unfold store_step. destruct b; [apply keeps_activate_step|].
    apply keeps_bind; [apply keeps_try, keeps_submit|intros [e|[]]]; [|apply keeps_activate_step].
    apply keeps_bind; [apply keeps_try, keeps_check|intros [e'|[]]];
      first [apply keeps_activate_step|apply keeps_ret]. }
  assert (Ha : forall req key b, keeps (later d0) (accept_step cfg req key b)).
  { intros req key b. unfold accept_step. apply keeps_bind.
    - apply keeps_try. unfold ProviderByKey. keeps_walk.
    - intros [e|p]; [apply keeps_ret|]. keeps_walk; apply Hs. }
  unfold handleIngest. keeps_walk; try apply Ha; apply keeps_try, keeps_check.
Qed.

(** The calls that write the registry. *)
Inductive registry_call : Db unit -> Prop :=
| call_transition key rev from to : registry_call (TransitionProvider key rev from to)
| call_submit snap profiles : registry_call (SubmitSnapshot snap profiles)
| call_activate snap profiles workload major t :
    registry_call (ActivateSnapshot snap profiles workload major t)
| call_ingest cfg inc : registry_call (handleIngest cfg inc ;! ret tt).
Definition registry_step (d d' : Database) : Prop :=
  exists m w, registry_call m /\ store w = d /\ store (m w).2 = d'.

Lemma registry_history d d' : registry_ok d -> star registry_step d d' -> later d d'.
Proof.
  intros Hok Hst. apply (star_invariant registry_step (later d) d d'); [| |done].
  - intros a b Ha (m & w & Hm & <- & <-).
    destruct Hm; [by apply keeps_transition|by apply keeps_submit|by apply keeps_activate_snapshot|].
    apply keeps_bind; [apply keeps_ingest|intros ?; apply keeps_ret|done].
  - by apply later_refl.
Qed.

(** C16. Through any sequence of registry calls, whatever statements fail, every
    active pointer points at a PUBLISHED snapshot of its own provider, each
    provider has at most one pointer and one snapshot per version, stored
    snapshots have a well-formed digest and window, keep their content and only
    ever move to PUBLISHED, and audit rows and events are never lost.  A
    snapshot these calls add has an empty profile list. *)
Theorem registry_pointers_published d d' :
  registry_ok d -> star registry_step d d' -> later d d'.
Proof. apply registry_history. Qed.

(** *** Compare-and-swap *)

Lemma TransitionProvider_inr key rev from to w w' :
  TransitionProvider key rev from to w = (inr tt, w') ->
  ValidateTransition from to = true /\
  any_where (cas_match key rev from) (providers (store w)) = true /\
  store w' = with_providers
    (update_where (cas_match key rev from) (moved_to (clock w) to) (providers (store w))) (store w).
Proof.
  unfold TransitionProvider. intros H. apply bind_inr in H as (u & w0 & Hg & H).
  apply guard_inr in Hg as [Hv ->]. apply negb_false_iff in Hv.
  apply bind_inr in H as (u0 & wc & Hc & H). apply connect_inr in Hc as [Hs0 Hc0].
  apply tx_inr in H as (w1 & Hs1 & Hc1 & [(w2 & Hb & Hw')|(w2 & Hb & _)]).
  - apply bind_inr in Hb as (t & wa & Ht & Hb). apply now_inr in Ht as [-> ->].
    apply bind_inr in Hb as (n & wb & Hu & Hb). apply stmt_inr in Hu as [Hu _].
    cbv zeta in Hu. destruct (unique_on _ _ _ _); [|discriminate]. injection Hu as Hn Hd.
    rewrite Hs1, Hs0, Hc1, Hc0 in *. destruct (n =? 0) eqn:En.
    { apply bind_inr in Hb as (cur & wd & _ & Hb). destruct (negb _); discriminate. }
    apply ret_inr in Hb as [_ ->]. split; [done|]. split; [|congruence].
    destruct (any_where _ _) eqn:E; [done|]. exfalso. apply Z.eqb_neq in En. apply En.
    rewrite <- Hn. apply count_where_zero. by apply any_where_false.
  - exfalso. apply bind_inr in Hb as (t & wa & Ht & Hb).
    apply bind_inr in Hb as (n & wb & Hu & Hb). destruct (n =? 0).
    + apply bind_inr in Hb as (cur & wd & _ & Hb). destruct (negb _); discriminate.
    + by apply ret_inr in Hb as [? _].
Qed.

(** A provider transition is a compare-and-swap: when it commits, it moved
    along the matrix exactly the row with the expected key, revision and state
    to the next revision, and no row is left at the expected revision, so a
    second writer that read the same revision is refused; when it returns an
    error it changed nothing. *)
Theorem TransitionProvider_cas key rev from to w r w' :
  registry_ok (store w) ->
  TransitionProvider key rev from to w = (r, w') ->
  match r with
  | inl _ => store w' = store w
  | inr _ =>
      ValidateTransition from to = true /\
      (exists p, p ∈ providers (store w) /\ cas_match key rev from p = true) /\
      store w' = with_providers
        (update_where (cas_match key rev from) (moved_to (clock w) to) (providers (store w)))
        (store w) /\
      forall from2 to2 w2, store w2 = store w' ->
        exists e w3, TransitionProvider key rev from2 to2 w2 = (inl e, w3)
  end.
Proof.
  intros Hok H. destruct r as [e|[]].
  - unfold TransitionProvider, bind at 1, guard in H. destruct (negb _); [by injection H as _ <-|].
    by apply connect_tx_inl in H.
  - pose proof H as Hrun. apply TransitionProvider_inr in H as (Hv & Hany & Hs).
    apply any_where_spec in Hany as (p & Hin & Hp). split; [done|]. split; [eauto|].
    split; [done|]. intros from2 to2 w2 Hw2.
    destruct (TransitionProvider key rev from2 to2 w2) as [[e|[]] w3] eqn:E; [eauto|exfalso].
    apply TransitionProvider_inr in E as (_ & Hany2 & _).
    rewrite Hw2, Hs in Hany2. simpl in Hany2.
    apply any_where_spec in Hany2 as (q & Hq & Hqm).
    unfold cas_match in Hqm, Hp. b2p. destruct Hqm as [[Hqk Hqr] _], Hp as [[Hpk Hpr] Hpf].
    apply elem_of_update_where in Hq as [(q0 & _ & Hq0 & ->)|[Hq Hqn]].
    + unfold cas_match in Hq0. b2p. simpl in Hqr. lia.
    + assert (q = p) as ->.
      { eapply (indexed_elem (fun _ => true) provider_key_rev); [apply Hok|done..|].
        unfold provider_key_rev. congruence. }
      unfold cas_match in Hqn. rewrite Hpk, Hpr, str_eqb_refl, Z.eqb_refl in Hqn. simpl in Hqn. congruence.
Qed.

(** *** The ingest endpoint *)

Lemma try_inr {A} (m : Db A) w r w' : try m w = (inr r, w') -> m w = (r, w').
Proof. unfold try. destruct (m w). congruence. Qed.

Definition stored (d : Database) (id v : Z) (digest : string) : Prop :=
  exists s, s ∈ snapshots d /\ ps_provider_id s = id /\ ps_version s = v /\ ps_digest s = digest.

Lemma CheckSnapshotIngest_inr key v digest w verdict w' :
  CheckSnapshotIngest key v digest w = (inr verdict, w') ->
  store w' = store w /\
  (verdict = IngestResumable -> exists s, s ∈ snapshots (store w) /\
     with_key (store w) key s = true /\ ps_version s = v /\ ps_digest s = digest).
Proof.
  unfold CheckSnapshotIngest. intros H. apply bind_inr in H as (u & w0 & Hc & H).
  apply connect_inr in Hc as [Hs0 _]. apply bind_inr in H as (found & w1 & Hq & H).
  apply query_inr in Hq as (Hf & Hs1 & _). rewrite Hs0 in Hf, Hs1. destruct found as [s|].
  - symmetry in Hf. apply first_where_some in Hf as [Hin Hs]. b2p. destruct Hs as [Hk Hver].
    destruct (negb (ps_digest s =s digest)) eqn:Ed.
    { apply ret_inr in H as [-> ->]. by rewrite Hs1. }
    b2p. destruct (ps_state s =d RegPublished).
    + apply ret_inr in H as [-> ->]. by rewrite Hs1.
    + apply ret_inr in H as [-> ->]. rewrite Hs1. split; [done|]. intros _. eauto 10.
  - apply bind_inr in H as (m & w2 & Hq & H). apply query_inr in Hq as (_ & Hs2 & _).
    destruct (_ && _); apply ret_inr in H as [-> ->]; by rewrite Hs2.
Qed.

Lemma CheckSnapshotIngest_store key v digest w : store (CheckSnapshotIngest key v digest w).2 = store w.
Proof.
  assert (H : keeps (fun d => d = store w) (CheckSnapshotIngest key v digest))
    by (unfold CheckSnapshotIngest; keeps_walk).
  by apply H.
Qed.

Lemma SubmitSnapshot_store snap profiles w r w' :
  SubmitSnapshot snap profiles w = (r, w') ->
  match r with
  | inl _ => store w' = store w
  | inr _ => store w' = with_next_id (next_id (store w) + 1)
      (with_snapshots (snapshots (store w) ++ [draft_row (store w) snap]) (store w))
  end.
Proof.
  unfold SubmitSnapshot. destruct (CheckForbiddenFieldsRecursive _); [by intros [= <- <-]|].
  intros H.
  assert (Hins : forall w0 r w', insert_snapshot snap w0 = (r, w') ->
    match r with
    | inl _ => store w' = store w0
    | inr _ => store w' = with_next_id (next_id (store w0) + 1)
        (with_snapshots (snapshots (store w0) ++ [draft_row (store w0) snap]) (store w0))
    end).
  { intros w0 r0 w1. unfold insert_snapshot, insert_row, stmt. destruct (failing w0); [by intros [= <- <-]|].
    cbv zeta. destruct (negb (any_where _ _)); [by intros [= <- <-]|].
    destruct (_ || _ || _); [by intros [= <- <-]|].
    destruct (clashes _ _ _ _ _); by intros [= <- <-]. }
  unfold bind at 1 in H. destruct (connect w) as [[ec|u] w0] eqn:Ec.
  { injection H as <- <-. by apply connect_inl in Ec. }
  apply connect_inr in Ec as [Ec _]. unfold bind at 1 in H.
  destruct (query _ w0) as [[eq|m] w1] eqn:Eq.
  { injection H as <- <-. unfold query, stmt in Eq. destruct (failing w0); [|discriminate].
    injection Eq as _ <-. done. }
  apply query_inr in Eq as (_ & Eq & _). unfold bind, guard in H.
  destruct (_ <=? _); [injection H as <- <-; congruence|]. unfold catch in H. simpl in H.
  destruct (insert_snapshot snap w1) as [[e|u2] w2] eqn:Ei; apply Hins in Ei.
  - destruct (isUniqueViolation e); injection H as <- <-; congruence.
  - injection H as <- <-. by rewrite Ei, Eq, Ec.
Qed.

Definition activated_resp : Response := (200, "activated").

(** What an accepted snapshot left behind. *)
Definition serving (d : Database) (prov : ProviderRow) (v : Z) (digest : string) : Prop :=
  prov ∈ providers d /\ exists p s, p ∈ pointers d /\ pp_provider_id p = rp_id prov /\
    s ∈ snapshots d /\ ps_id s = pp_snapshot_id p /\ ps_provider_id s = rp_id prov /\
    ps_version s = v /\ ps_digest s = digest /\ ps_state s = RegPublished.

Lemma activate_step_outcome cfg req snap prov w resp w' :
  registry_ok (store w) -> prov ∈ providers (store w) -> ProviderID snap = rp_id prov ->
  SnapshotVersion snap = ReqVersion req ->
  stored (store w) (rp_id prov) (ReqVersion req) (ReqDigest req) ->
  activate_step cfg req snap w = (inr resp, w') ->
  (resp = activated_resp -> serving (store w') prov (ReqVersion req) (ReqDigest req)) /\
  (resp <> activated_resp -> pointers (store w') = pointers (store w)).
Proof.
  intros Hok Hprov Hid Hver (s0 & Hin0 & Hp0 & Hv0 & Hd0) H. unfold activate_step in H.
  apply bind_inr in H as (t & w0 & Ht & H). apply now_inr in Ht as [-> ->].
  apply bind_inr in H as (r & w1 & Hr & H). apply try_inr in Hr. destruct r as [e|[]].
  - apply ret_inr in H as [-> ->]. split; [done|]. intros _.
    unfold ActivateSnapshot in Hr. destruct (ValidateSnapshot _ _ _ _ _).
    + by injection Hr as _ <-.
    + apply connect_tx_inl in Hr. congruence.
  - apply ret_inr in H as [-> ->]. split; [intros _|done].
    apply ActivateSnapshot_inr in Hr as (row & _ & Hrow & Hst & Hs & Hpt & Hpr & _ & _).
    apply first_where_some in Hrow as [Hrin Hat]. unfold at_version in Hat. b2p.
    destruct Hat as [Hrp Hrv]. rewrite <- Hs in Hrin. split; [by rewrite Hpr|].
    assert (Hdig : ps_digest row = ReqDigest req).
    { rewrite Hs in Hrin. apply elem_of_update_where in Hrin as [(r0 & Hr0 & Hq & ->)|[Hr0 _]].
      - rewrite <- Hd0. simpl in *. f_equal.
        eapply (indexed_elem (fun _ => true) snapshot_key); [apply Hok|done..|].
        unfold snapshot_key. congruence.
      - rewrite <- Hd0. f_equal.
        eapply (indexed_elem (fun _ => true) snapshot_key); [apply Hok|done..|].
        unfold snapshot_key. congruence. }
    exists (MkPointerRow (ProviderID snap) (ps_id row) (clock w)), row.
    split; [|simpl; repeat split; congruence].
    rewrite Hpt. unfold pointed. destruct (any_where _ _) eqn:E.
    + apply any_where_spec in E as (p & Hp & Hpid). apply elem_of_update_where. left. eauto.
    + apply elem_of_app. right. by apply list_elem_of_singleton.
Qed.

Lemma store_step_outcome cfg req key b snap prov w resp w' :
  registry_ok (store w) -> indexed (fun _ => true) rp_key (providers (store w)) ->
  prov ∈ providers (store w) -> rp_key prov = key -> ProviderID snap = rp_id prov ->
  SnapshotVersion snap = ReqVersion req -> SnapDigest snap = ReqDigest req ->
  (b = true -> stored (store w) (rp_id prov) (ReqVersion req) (ReqDigest req)) ->
  store_step cfg req key b snap w = (inr resp, w') ->
  (resp = activated_resp -> serving (store w') prov (ReqVersion req) (ReqDigest req)) /\
  (resp <> activated_resp -> pointers (store w') = pointers (store w)).
Proof.
  intros Hok Huniq Hprov Hkey Hid Hver Hdig Hb H. unfold store_step in H.
  destruct b; [by eapply activate_step_outcome; eauto|].
  apply bind_inr in H as (r & w1 & Hr & H). apply try_inr in Hr.
  pose proof (keeps_submit (store w) snap (profile_map (elems (Profiles req))) w) as Hkeep.
  rewrite Hr in Hkeep. apply SubmitSnapshot_store in Hr. destruct r as [e|[]].
  - apply bind_inr in H as (v & w2 & Hv & H). apply try_inr in Hv. destruct v as [e'|v].
    { apply ret_inr in H as [-> ->].
      pose proof (CheckSnapshotIngest_store key (ReqVersion req) (ReqDigest req) w1) as Hc.
      rewrite Hv in Hc. simpl in Hc. split; [done|]. intros _. congruence. }
    apply CheckSnapshotIngest_inr in Hv as [Hs2 Hres].
    destruct v; try (apply ret_inr in H as [-> ->]; split; [done|intros _; congruence]).
    assert (Heq : store w2 = store w) by congruence. rewrite <- Heq in *.
    eapply activate_step_outcome; eauto. rewrite Hr in Hres. destruct Hres as (s & Hin & Hk & Hsv & Hsd); [done|].
    exists s. unfold with_key in Hk. apply any_where_spec in Hk as (p & Hp & Hpk). b2p.
    destruct Hpk as [Hpid Hpk]. assert (p = prov) as ->.
    { eapply (indexed_elem (fun _ => true) rp_key); eauto. congruence. }
    auto.
  - assert (Hok1 : registry_ok (store w1)).
    { apply Hkeep. by apply later_refl. }
    destruct (activate_step_outcome cfg req snap prov w1 resp w') as [H1 H2]; auto.
    + by rewrite Hr.
    + exists (draft_row (store w) snap). rewrite Hr. simpl. split; [|done].
      apply elem_of_app. right. by apply list_elem_of_singleton.
    + split; [done|]. intros Hn. rewrite H2, Hr by done. done.
Qed.

Lemma validate_profiles_status ps code status : validate_profiles ps = Some (code, status) -> status = 400.
Proof.
  induction ps as [|p ps IH]; cbn [validate_profiles]; [discriminate|]. unfold bad.
  destruct (ProfileID p =s ""); [intros H; congruence|].
  destruct (negb (str_mem (Status p) profileStateSet)); [intros H; congruence|done].
Qed.

(** A rejection is a 400; a request that passes has a digest of its own
    content and, under a key, a verified signature. *)
Lemma validateIngest_facts cfg req key :
  match validateIngest cfg req key with
  | Some (code, status) => status = 400
  | None => ReqProviderID req = key /\ SnapshotDigest req = ReqDigest req /\
      (forall verify, PublisherKey cfg = Some verify ->
         verify (ReqDigest req) (ReqSignature req) = true)
  end.
Proof.
  unfold validateIngest, bad.
  destruct (negb (ReqProviderID req =s key)) eqn:Ek; [done|].
  destruct (negb (Regex.match_full _ _)); [done|].
  destruct (negb (SnapshotDigest req =s ReqDigest req)) eqn:Ed; [done|].
  destruct (ReqSignature req =s ""); [done|].
  destruct (match PublisherKey cfg with Some verify => _ | None => _ end) eqn:Ev; [done|].
  destruct (ReqVersion req <? 1); [done|].
  assert (Hgood : ReqProviderID req = key /\ SnapshotDigest req = ReqDigest req /\
    (forall verify, PublisherKey cfg = Some verify ->
       verify (ReqDigest req) (ReqSignature req) = true)).
  { clear -Ek Ed Ev. b2p. split; [done|]. split; [done|]. intros verify H. rewrite H in Ev. by b2p. }
  destruct (elems (Profiles req)) as [|p ps]; [done|].
  destruct (validate_profiles (p :: ps)) as [[code status]|] eqn:E; [|done].
  by eapply validate_profiles_status.
Qed.

Lemma ProviderByKey_outcome key w r w' :
  ProviderByKey key w = (r, w') ->
  store w' = store w /\
  forall prov, r = inr prov -> prov ∈ providers (store w) /\ rp_key prov = key.
Proof.
  intros H. split.
  - assert (Hkeep : keeps (fun d => d = store w) (ProviderByKey key))
      by (unfold ProviderByKey; keeps_walk).
    specialize (Hkeep w eq_refl). by rewrite H in Hkeep.
  - intros prov ->. unfold ProviderByKey in H. apply bind_inr in H as (u & w3 & Hc & H).
    apply connect_inr in Hc as [Hc _]. unfold catch in H.
    destruct (query_row _ w3) as [[e|x] w4] eqn:Eq; [destruct (is_no_rows e); discriminate|].
    injection H as -> <-. apply query_row_inr in Eq as (Eq & _ & _).
    apply first_where_some in Eq as [? ?]. rewrite Hc in *. b2p. done.
Qed.

Lemma accept_step_outcome cfg req key b w resp w' :
  registry_ok (store w) -> indexed (fun _ => true) rp_key (providers (store w)) ->
  (b = true -> forall prov, prov ∈ providers (store w) -> rp_key prov = key ->
     stored (store w) (rp_id prov) (ReqVersion req) (ReqDigest req)) ->
  accept_step cfg req key b w = (inr resp, w') ->
  (resp = activated_resp -> exists prov, rp_key prov = key /\
     serving (store w') prov (ReqVersion req) (ReqDigest req)) /\
  (resp <> activated_resp -> pointers (store w') = pointers (store w)).
Proof.
  intros Hok Huniq Hb H. unfold accept_step in H. apply bind_inr in H as (p & w2 & Hp & H).
  apply try_inr, ProviderByKey_outcome in Hp as [Hs2 Hprov].
  assert (Hstop : forall code, resp = (400, code) \/ resp = (404, code) -> code <> "activated" ->
    w' = w2 ->
    (resp = activated_resp -> exists prov, rp_key prov = key /\
       serving (store w') prov (ReqVersion req) (ReqDigest req)) /\
    (resp <> activated_resp -> pointers (store w') = pointers (store w))).
  { intros code [-> | ->] Hne ->; (split; [discriminate|intros _; by rewrite Hs2]). }
  destruct p as [e|prov]; [apply ret_inr in H as [? ?]; by eapply Hstop; eauto|].
  destruct (Hprov prov eq_refl) as [Hin Hkey].
  destruct (parse_time cfg (ReqGeneratedAt req)) as [g|]; [|apply ret_inr in H as [? ?]; by eapply Hstop; eauto].
  destruct (parse_time cfg (ReqValidUntil req)) as [u|]; [|apply ret_inr in H as [? ?]; by eapply Hstop; eauto].
  destruct (negb (u >? g)); [apply ret_inr in H as [? ?]; by eapply Hstop; eauto|].
  destruct (_ && _); [apply ret_inr in H as [? ?]; by eapply Hstop; eauto|].
  rewrite <- Hs2 in *.
  destruct (store_step_outcome cfg req key b (snapshot_of cfg req prov g u) prov w2 resp w')
    as [H1 H2]; auto.
  split; [|done]. intros Hr. exists prov. auto.
Qed.

(** C20. What the ingest endpoint's answers mean.  "activated" is given only to
    the configured publisher, for a digest that is the recomputed digest of
    the content (and a verified signature, when a key is configured), and then
    the provider's active pointer is on a PUBLISHED snapshot with that version
    and digest; every other answer leaves the active pointers as they were. *)
Theorem handleIngest_outcome cfg inc w resp w'
    (Hok : registry_ok (store w))
    (Huniq : indexed (fun _ => true) rp_key (providers (store w)))
    (Hrun : handleIngest cfg inc w = (inr resp, w')) :
  (resp = activated_resp ->
     peer_identity inc = Some (ExpectedIdentity cfg) /\ chain_verified inc = true /\
     exists req prov, decoded inc = Some req /\ rp_key prov = provider_key inc /\
       SnapshotDigest req = ReqDigest req /\
       (forall verify, PublisherKey cfg = Some verify ->
          verify (ReqDigest req) (ReqSignature req) = true) /\
       serving (store w') prov (ReqVersion req) (SnapshotDigest req)) /\
  (resp <> activated_resp -> pointers (store w') = pointers (store w)).
Proof.
  unfold handleIngest in Hrun.
  destruct (peer_cert inc); simpl in Hrun; [|by apply ret_inr in Hrun as [-> ->]].
  destruct (chain_verified inc); simpl in Hrun; [|by apply ret_inr in Hrun as [-> ->]].
  destruct (peer_identity inc) as [san|]; simpl in Hrun; [|by apply ret_inr in Hrun as [-> ->]].
  destruct (String.eqb_spec san (ExpectedIdentity cfg)) as [Esan|]; simpl in Hrun;
    [|by apply ret_inr in Hrun as [-> ->]].
  rewrite Esan. destruct (decoded inc) as [req|]; [|by apply ret_inr in Hrun as [-> ->]].
  pose proof (validateIngest_facts cfg req (provider_key inc)) as Hval.
  destruct (validateIngest cfg req (provider_key inc)) as [[code status]|].
  { apply ret_inr in Hrun as [-> ->]. split; [|done]. intros Heq. injection Heq as -> _. discriminate Hval. }
  destruct Hval as (_ & Hdig & Hsig).
  apply bind_inr in Hrun as (v & w1 & Hv & Hrun). apply try_inr in Hv.
  pose proof (CheckSnapshotIngest_store (provider_key inc) (ReqVersion req) (ReqDigest req) w) as Hs1.
  rewrite Hv in Hs1. simpl in Hs1.
  destruct v as [e|verdict]; [apply ret_inr in Hrun as [-> ->]; split; [done|congruence]|].
  apply CheckSnapshotIngest_inr in Hv as [_ Hres].
  assert (Hacc : forall b, accept_step cfg req (provider_key inc) b w1 = (inr resp, w') ->
    (b = true -> verdict = IngestResumable) ->
    (resp = activated_resp -> exists prov, rp_key prov = provider_key inc /\
       serving (store w') prov (ReqVersion req) (ReqDigest req)) /\
    (resp <> activated_resp -> pointers (store w') = pointers (store w))).
  { intros b Hb Hbv. rewrite <- Hs1 in *. eapply accept_step_outcome; eauto.
    intros -> prov Hin Hkey. destruct (Hres (Hbv eq_refl)) as (s & Hsin & Hk & Hsv & Hsd).
    exists s. unfold with_key in Hk. apply any_where_spec in Hk as (p & Hp & Hpk). b2p.
    destruct Hpk as [Hpid Hpk]. assert (p = prov) as ->; [|auto].
    eapply (indexed_elem (fun _ => true) rp_key); eauto. congruence. }
  destruct verdict; try (apply ret_inr in Hrun as [-> ->]; split; [done|congruence]);
    destruct (Hacc _ Hrun) as [H1 H2]; try done; (split; [|done]); intros Hr;
    destruct (H1 Hr) as (prov & ? & ?); (split; [done|]; split; [done|]); exists req, prov; rewrite Hdig; done.
Qed.

(** *** Concrete runs *)

Definition profile_w : IngestProfile :=
  MkIngestProfile "fast" (Some ["chat"]) None "INTERNAL" None "1" "AVAILABLE".
Definition request_w (v : Z) (digest : string) : IngestRequest :=
  MkIngestRequest "mmr" v "1.0" "t0" "t1" (Some [profile_w]) digest "sig" "".
Definition incoming_w (v : Z) : Incoming :=
  MkIncoming true true (Some "spiffe://mmr") (Some (request_w v (SnapshotDigest (request_w v "")))) "mmr".
Definition config_w : Config :=
  MkConfig "spiffe://mmr" None "1"
    (fun s => if s =s "t0" then Some 0 else if s =s "t1" then Some 100 else None).
Definition provider_w : ProviderRow :=
  MkProviderRow 1 "mmr" "MODEL" "ref" "owner" "spiffe://mmr" RegPublished 1 1 None.
Definition db_w : Database := with_next_id 2 (with_providers [provider_w] empty_db).
Definition active_version (d : Database) : option Z :=
  match pointers d with
  | p :: _ => ps_version <$> first_where (fun s => ps_id s =? pp_snapshot_id p) (snapshots d)
  | [] => None
  end.

Lemma reg_db_ok : registry_ok db_w.
Proof.
  split; simpl.
  - intros i j a b Hi. by rewrite lookup_nil in Hi.
  - intros i j a b Hi. by rewrite lookup_nil in Hi.
  - intros i j a b Hi Hj. apply list_lookup_singleton_Some in Hi as [-> _], Hj as [-> _]. done.
  - intros s Hs. by apply elem_of_nil in Hs.
  - intros p Hp. by apply elem_of_nil in Hp.
Qed.

(** A replay can move the active pointer back: version 3 is submitted but
    its activation fails, version 4 is then activated, and a replay of version
    3 resumes the activation, is answered "activated" and leaves the pointer
    on version 3, although versions are to be monotonic. *)
Theorem ingest_resume_regresses :
  let w1 := (handleIngest config_w (incoming_w 3) (MkWorld db_w (repeat false 8 ++ [true]) 5)).2 in
  let (r2, w2) := handleIngest config_w (incoming_w 4) w1 in
  let (r3, w3) := handleIngest config_w (incoming_w 3) w2 in
  r2 = inr activated_resp /\ active_version (store w2) = Some 4 /\
  r3 = inr activated_resp /\ active_version (store w3) = Some 3.
Proof. vm_compute. done. Qed.

Definition run_w : (err + Response) * World Database :=
  handleIngest config_w (incoming_w 3) (MkWorld db_w [] 5).

Lemma handleIngest_outcome_witness :
  run_w.1 = inr activated_resp /\ peer_identity (incoming_w 3) = Some (ExpectedIdentity config_w).
Proof.
  split; [by vm_compute|].
  apply (handleIngest_outcome config_w (incoming_w 3) (MkWorld db_w [] 5) activated_resp run_w.2).
  - apply reg_db_ok.
  - intros i j a b Hi Hj. apply list_lookup_singleton_Some in Hi as [-> _], Hj as [-> _]. done.
  - by vm_compute.
  - done.
Defined.

Lemma registry_pointers_published_witness : later db_w (store run_w.2).
Proof.
  apply registry_pointers_published; [apply reg_db_ok|].
  apply star_one. exists (handleIngest config_w (incoming_w 3) ;! ret tt), (MkWorld db_w [] 5).
  split; [apply call_ingest|]. split; [done|]. by vm_compute.
Defined.

Lemma TransitionProvider_cas_witness :
  ValidateTransition RegPublished RegSuspended = true.
Proof.
  refine (proj1 (TransitionProvider_cas "mmr" 1 RegPublished RegSuspended (MkWorld db_w [] 5) (inr tt)
    (TransitionProvider "mmr" 1 RegPublished RegSuspended (MkWorld db_w [] 5)).2 reg_db_ok _)).
  by vm_compute.
Defined.

End RegistryProps.
