(* ===== verification/Binding.v ===== *)
(** * Capability bindings: the domain (src/internal/binding/domain.go)

    Scopes and their canonical form, the scope hash, the overlap test, the
    lifecycle matrix and the publish gate.  Unicode normalisation is
    golang.org/x/text's: the class [Normalizer] states what the package relies
    on, that normalising twice is normalising once. *)

From S2P Require Import Prelude GoStd GoJson Sql Schema.

(** golang.org/x/text/unicode/norm: [norm.NFC.String] *)
Class Normalizer : Type := {
  nfc : string -> string;
  nfc_idem : forall s, nfc (nfc s) = nfc s;
}.

Definition ValidTransitions (s : BindState) : list BindState :=
  match s with
  | BindDraft => [BindPublished]
  | BindPublished => [BindSuspended; BindDeprecated]
  | BindSuspended => [BindPublished; BindRetired]
  | BindDeprecated => [BindRetired]
  | BindRetired => []
  end.
Definition ValidateTransition (from to : BindState) : bool :=
  existsb (fun t => t =d to) (ValidTransitions from).

Definition ReasonInvalidTransition := "BINDING_INVALID_TRANSITION".
Definition ReasonScopeNotCanonical := "BINDING_SCOPE_NOT_CANONICAL".
Definition ReasonScopeOverlap := "BINDING_SCOPE_OVERLAP".
Definition ReasonMissingApproval := "BINDING_MISSING_APPROVAL".
Definition ReasonRevisionConflict := "BINDING_REVISION_CONFLICT".
Definition ReasonNotFound := "BINDING_NOT_FOUND".
Definition ReasonAlreadyActive := "BINDING_ALREADY_ACTIVE".
Definition ReasonIdemKeyReuse := "BINDING_IDEMPOTENCY_KEY_REUSE".
Definition ReasonBacklogBlocked := "BINDING_BACKLOG_BLOCKED".

Definition errV (reason : string) : err := ETyped "" reason.

(** ** Scopes *)

Section Scopes.
Context `{Normalizer}.

(** The loop of canonicalizeStrings: first occurrences, in order. *)
Fixpoint dedup_nfc (seen : list string) (xs : list string) : list string :=
  match xs with
  | [] => []
  | s :: xs' =>
      let n := nfc s in
      if str_mem n seen then dedup_nfc seen xs' else n :: dedup_nfc (n :: seen) xs'
  end.
Definition canonicalizeStrings (xs : list string) : list string :=
  sort_strings (dedup_nfc [] xs).

Definition CanonicalScope (s : Scope) : Scope :=
  MkScope (canonicalizeStrings (TenantRefs s)) (canonicalizeStrings (FactoryRefs s))
          (canonicalizeStrings (ScopeRegions s)) (canonicalizeStrings (AgentRefs s)).

(** The struct printed by json.Marshal; canonical slices are never nil. *)
Definition scope_json (s : Scope) : json :=
  JObj [("tenant_refs", jstrings (TenantRefs s)); ("factory_refs", jstrings (FactoryRefs s));
        ("regions", jstrings (ScopeRegions s)); ("agent_refs", jstrings (AgentRefs s))].
Definition ScopeHash (s : Scope) : string :=
  sha256_digest (marshal (scope_json (CanonicalScope s))).

End Scopes.

Definition overlapDim (a b : list string) : bool :=
  match a, b with
  | [], _ | _, [] => true
  | _, _ => existsb (fun v => str_mem v a) b
  end.
Definition Overlaps (a b : Scope) : bool :=
  overlapDim (TenantRefs a) (TenantRefs b) && overlapDim (FactoryRefs a) (FactoryRefs b) &&
  overlapDim (ScopeRegions a) (ScopeRegions b) && overlapDim (AgentRefs a) (AgentRefs b).

(** [(?i)(credential|secret|password|api_key|prompt)] *)
Definition scopeFieldPattern : Regex.re :=
  Regex.alts (map Regex.fold_word ["credential"; "secret"; "password"; "api_key"; "prompt"]).
Definition CheckScopeFields (raw : string) : option err :=
  if Regex.match_string scopeFieldPattern raw then Some (errV ReasonScopeNotCanonical) else None.

Definition PublishGate (approvalRef changeReason actor : string) : option err :=
  if approvalRef =s "" then Some (errV ReasonMissingApproval)
  else if changeReason =s "" then Some (errV ReasonMissingApproval)
  else if actor =s "" then Some (errV ReasonMissingApproval)
  else None.

(** ** Lemmas *)

Section ScopeLemmas.
Context `{Normalizer}.

Lemma elem_of_dedup_nfc seen xs x :
  x ∈ dedup_nfc seen xs <-> (exists s, s ∈ xs /\ x = nfc s) /\ x ∉ seen.
Proof.
  revert seen. induction xs as [|s xs IH]; intros seen; cbn [dedup_nfc].
  - split; [by intros ?%elem_of_nil|]. intros [(s & Hs & _) _]. by apply elem_of_nil in Hs.
  - destruct (str_mem (nfc s) seen) eqn:E.
    + apply str_mem_spec in E. rewrite IH. split.
      * intros [(s' & Hs' & ->) Hn]. split; [|done]. exists s'. split; [by constructor|done].
      * intros [(s' & Hs' & ->) Hn]. split; [|done].
        apply elem_of_cons in Hs' as [->|Hs']; [done|eauto].
    + apply str_mem_false in E. rewrite elem_of_cons, IH, not_elem_of_cons. split.
      * intros [->|[(s' & Hs' & ->) [Hne Hn]]].
        -- split; [|done]. exists s. split; [by constructor|done].
        -- split; [|done]. exists s'. split; [by constructor|done].
      * intros [(s' & Hs' & ->) Hn]. destruct (decide (nfc s' = nfc s)) as [Heq|Hne]; [by left|].
        right. split; [|done]. apply elem_of_cons in Hs' as [->|Hs']; [done|eauto].
Qed.

Lemma NoDup_dedup_nfc seen xs : NoDup (dedup_nfc seen xs).
Proof.
  revert seen. induction xs as [|s xs IH]; intros seen; cbn [dedup_nfc]; [constructor|].
  destruct (str_mem (nfc s) seen); [apply IH|]. constructor; [|apply IH].
  rewrite elem_of_dedup_nfc. intros [_ Hn]. apply Hn. by constructor.
Qed.

Lemma elem_of_canonicalize xs x : x ∈ canonicalizeStrings xs <-> exists s, s ∈ xs /\ x = nfc s.
Proof.
  unfold canonicalizeStrings. rewrite elem_of_sort_strings, elem_of_dedup_nfc.
  split; [by intros [? _]|]. intros Hx. split; [done|]. by intros ?%elem_of_nil.
Qed.

Lemma NoDup_canonicalize xs : NoDup (canonicalizeStrings xs).
Proof. unfold canonicalizeStrings. rewrite sort_strings_perm. apply NoDup_dedup_nfc. Qed.

(** Lists with the same normalised elements have the same canonical form. *)
Lemma canonicalize_ext xs ys :
  (forall x, (exists s, s ∈ xs /\ x = nfc s) <-> (exists s, s ∈ ys /\ x = nfc s)) ->
  canonicalizeStrings xs = canonicalizeStrings ys.
Proof.
  intros Hx. unfold canonicalizeStrings. apply sort_strings_unique.
  apply NoDup_Permutation; [apply NoDup_dedup_nfc..|]. intros x.
  rewrite !elem_of_dedup_nfc. by rewrite Hx.
Qed.

Lemma canonicalize_idem xs :
  canonicalizeStrings (canonicalizeStrings xs) = canonicalizeStrings xs.
Proof.
  apply canonicalize_ext. intros x. setoid_rewrite elem_of_canonicalize. split.
  - intros (s & (s0 & Hs0 & ->) & ->). exists s0. by rewrite nfc_idem.
  - intros (s & Hs & ->). exists (nfc s). rewrite nfc_idem. eauto.
Qed.

Lemma CanonicalScope_idem s : CanonicalScope (CanonicalScope s) = CanonicalScope s.
Proof. unfold CanonicalScope. simpl. by rewrite !canonicalize_idem. Qed.

End ScopeLemmas.

(** A dimension of a scope admits a value: empty admits every value. *)
Definition admits (dim : list string) (v : string) : Prop := dim = [] \/ v ∈ dim.
(** What a request carries in the four dimensions. *)
Record ScopeRequest : Type := MkScopeRequest {
  q_tenant : string; q_factory : string; q_region : string; q_agent : string }.
Definition matches (s : Scope) (q : ScopeRequest) : Prop :=
  admits (TenantRefs s) (q_tenant q) /\ admits (FactoryRefs s) (q_factory q) /\
  admits (ScopeRegions s) (q_region q) /\ admits (AgentRefs s) (q_agent q).

Lemma overlapDim_spec a b : overlapDim a b = true <-> exists v, admits a v /\ admits b v.
Proof.
  unfold admits. destruct a as [|x a]; [|destruct b as [|y b]]; cbn [overlapDim].
  - split; [|done]. intros _. destruct b as [|y b]; [exists ""; auto|].
    exists y. split; [by left|right; by constructor].
  - split; [|done]. intros _. exists x. split; [right; by constructor|by left].
  - rewrite existsb_exists. split.
    + intros (v & Hin & Hv). apply str_mem_spec in Hv. apply list_elem_of_In in Hin. eauto.
    + intros (v & [?|Ha] & [?|Hb]); try discriminate. exists v.
      split; [by apply list_elem_of_In|by apply str_mem_spec].
Qed.

Lemma overlapDim_sym a b : overlapDim a b = overlapDim b a.
Proof.
  apply eq_true_iff_eq. rewrite !overlapDim_spec. split; intros (v & ? & ?); eauto.
Qed.

Lemma Overlaps_sym a b : Overlaps a b = Overlaps b a.
Proof.
  unfold Overlaps. by rewrite (overlapDim_sym (TenantRefs a)), (overlapDim_sym (FactoryRefs a)),
    (overlapDim_sym (ScopeRegions a)), (overlapDim_sym (AgentRefs a)).
Qed.

Lemma Overlaps_request a b : Overlaps a b = true <-> exists q, matches a q /\ matches b q.
Proof.
  unfold Overlaps, matches. rewrite !andb_true_iff, !overlapDim_spec. split.
  - intros [[[(t & ? & ?) (f & ? & ?)] (r & ? & ?)] (g & ? & ?)].
    exists (MkScopeRequest t f r g). simpl. tauto.
  - intros (q & (H1 & H2 & H3 & H4) & (H5 & H6 & H7 & H8)). repeat split; eexists; eauto.
Qed.

Lemma Overlaps_self s : Overlaps s s = true.
Proof.
  apply Overlaps_request.
  assert (Hd : forall l, exists v, admits l v).
  { intros [|x l]; [exists ""; by left|exists x; right; by constructor]. }
  destruct (Hd (TenantRefs s)) as [t ?], (Hd (FactoryRefs s)) as [f ?],
    (Hd (ScopeRegions s)) as [r ?], (Hd (AgentRefs s)) as [g ?].
  exists (MkScopeRequest t f r g). unfold matches. simpl. tauto.
Qed.

(** ** Properties *)

Module BindingProps.

(** C40. Two scopes overlap exactly when some request matches both, a dimension
    matching when it is empty or holds the request's value. *)
Theorem Overlaps_iff_common_request a b :
  Overlaps a b = true <-> exists q, matches a q /\ matches b q.
Proof. apply Overlaps_request. Qed.

(** The canonical form of a dimension is sorted, has no duplicates, holds
    exactly the normal forms of the given strings, is its own canonical form,
    and depends on nothing else: lists with the same normal forms, in whatever
    order and multiplicity, have the same canonical form. *)
Theorem canonicalizeStrings_canonical `{Normalizer} xs :
  Sorted String.le (canonicalizeStrings xs) /\ NoDup (canonicalizeStrings xs) /\
  (forall x, x ∈ canonicalizeStrings xs <-> exists s, s ∈ xs /\ x = nfc s) /\
  canonicalizeStrings (canonicalizeStrings xs) = canonicalizeStrings xs /\
  (forall ys, canonicalizeStrings xs = canonicalizeStrings ys <->
     (forall x, (exists s, s ∈ xs /\ x = nfc s) <-> (exists s, s ∈ ys /\ x = nfc s))).
Proof.
  split; [apply sort_strings_sorted|]. split; [apply NoDup_canonicalize|].
  split; [apply elem_of_canonicalize|]. split; [apply canonicalize_idem|].
  intros ys. split; [|apply canonicalize_ext]. intros Heq x.
  by rewrite <- !elem_of_canonicalize, Heq.
Qed.

Definition scope_utf8 (s : Scope) : bool :=
  forallb valid_utf8 (TenantRefs s) && forallb valid_utf8 (FactoryRefs s) &&
  forallb valid_utf8 (ScopeRegions s) && forallb valid_utf8 (AgentRefs s).

#[local] Lemma scope_json_wf s : scope_utf8 s = true -> well_formed (scope_json s) = true.
Proof.
  unfold scope_utf8. intros H. b2p. destruct_and_hyps.
  cbn [scope_json well_formed forallb fst snd]. rewrite !jstrings_wf.
  repeat match goal with H : forallb _ _ = true |- _ => rewrite H; clear H end. done.
Qed.

(** The scope hash identifies the canonical scope: equal hashes come from
    equal canonical scopes, unless SHA-256 collides on the two encodings. *)
Theorem ScopeHash_identifies `{Normalizer} s1 s2
    (Hu1 : scope_utf8 (CanonicalScope s1) = true) (Hu2 : scope_utf8 (CanonicalScope s2) = true)
    (Hash : sha256_hex (marshal (scope_json (CanonicalScope s1))) =
            sha256_hex (marshal (scope_json (CanonicalScope s2))) ->
            marshal (scope_json (CanonicalScope s1)) = marshal (scope_json (CanonicalScope s2))) :
  ScopeHash s1 = ScopeHash s2 <-> CanonicalScope s1 = CanonicalScope s2.
Proof.
  unfold ScopeHash. split; [|by intros ->]. intros Heq.
  apply sha256_digest_inj, Hash, marshal_inj in Heq; [|by apply scope_json_wf..].
  generalize dependent (CanonicalScope s1). generalize dependent (CanonicalScope s2).
  intros c2 _ c1 _ _ Heq. destruct c1 as [t1 f1 r1 g1], c2 as [t2 f2 r2 g2].
  unfold scope_json in Heq. injection Heq as H1 H2 H3 H4.
  f_equal; apply jstrings_inj; unfold jstrings; congruence.
Qed.

#[local] Instance ascii_normalizer : Normalizer := { nfc := fun s => s; nfc_idem := fun _ => eq_refl }.
Definition scope_w1 : Scope := MkScope ["b"; "a"; "b"] [] ["eu"] [].
Definition scope_w2 : Scope := MkScope ["a"; "b"] [] ["eu"; "eu"] [].

Lemma ScopeHash_identifies_witness : CanonicalScope scope_w1 = CanonicalScope scope_w2.
Proof.
  refine (proj1 (ScopeHash_identifies scope_w1 scope_w2 _ _ _) _); by vm_compute.
Defined.

End BindingProps.
