(* ===== verification/BindingStore.v ===== *)
(** * Capability bindings: the store (src/internal/binding/store.go)

    Publish, create, suspend, resume, deprecate, retire and republish over the
    tables registry.capability_binding, registry.publish_idempotency,
    saoaf.change_record and saoaf.outbox_event.  The advisory lock is a
    statement without effect on the data.  The theorems: any sequence of calls
    keeps one active revision per key and no two overlapping live bindings in
    one slot, rewrites no history, and pairs every change with one audit row
    and one event; what a publish answers on each branch; replays. *)

From S2P Require Import Prelude GoStd GoJson Sql Schema Binding.

Definition ErrNotFound := "binding: not found".
Definition ErrRevisionConflict := "binding: revision conflict (CAS)".
Definition ErrScopeConflict := "binding: scope/priority conflict".
Definition ErrDuplicateActive := "binding: already an active revision".
Definition ErrIdemKeyReuse := "binding: idempotency key reuse".
Definition ErrInvalidTransition := "binding: invalid transition".
Definition ErrBacklogBlocked := "binding: backlog blocks management publish".

(** StoreError *)
Definition errS (sentinel reason : string) : err := ETyped sentinel reason.

Record PublishReq : Type := MkPublishReq {
  BindingKey : string;
  Revision : Z;
  ReqScope : Scope;
  Priority : Z;
  Environment : string;
  ApprovalRef : string;
  ChangeReason : string;
  TicketRef : string;
  ReqTenantRef : string;
  Actor : string;
  TraceID : string;
  IdempotencyKey : string;
}.
(** The part of binding.Binding a publish reads. *)
Record Target : Type := MkTarget {
  CapabilityID : Z; ProviderID : Z; SnapshotID : Z; Profile : string }.
Record TransitionReq : Type := MkTransitionReq {
  t_key : string; ExpectedRev : Z; t_tenant : string; t_actor : string; t_trace : string;
  t_reason : string }.
Record CreateReq : Type := MkCreateReq {
  c_key : string; c_environment : string; c_target : Target; c_scope : Scope; c_priority : Z;
  c_tenant : string; c_actor : string; c_trace : string }.

Section Store.
Context `{Normalizer} (MaxBacklog : Z).

(** "%s|%s|%d|%s|%d|%d|%d|%s" *)
Definition fingerprint_text (r : PublishReq) (b : Target) : string :=
  BindingKey r +:+ "|" +:+ ScopeHash (ReqScope r) +:+ "|" +:+ dec (Priority r) +:+ "|" +:+
  Environment r +:+ "|" +:+ dec (CapabilityID b) +:+ "|" +:+ dec (ProviderID b) +:+ "|" +:+
  dec (SnapshotID b) +:+ "|" +:+ Profile b.
Definition requestFingerprint (r : PublishReq) (b : Target) : string :=
  sha256_digest (fingerprint_text r b).

Definition live (r : BindingRow) : bool := (cb_state r =d BindPublished) && cb_is_active r.
(** The live rows of other bindings in a slot. *)
Definition slot_rival (exceptKey environment : string) (priority : Z) (r : BindingRow) : bool :=
  (cb_environment r =s environment) && (cb_priority r =? priority) && live r &&
  negb (cb_key r =s exceptKey).

Definition overlapGuard (exceptKey environment : string) (priority : Z) (scope : Scope) : Db unit :=
  exec (fun d => d) ;! (* pg_advisory_xact_lock *)
  let! others := query (fun d => rows_where (slot_rival exceptKey environment priority) (bindings d)) in
  guard (existsb (fun o => Overlaps (CanonicalScope scope) (CanonicalScope (cb_scope o))) others)
    (errS ErrScopeConflict ReasonScopeOverlap).

(** *** Constraints of registry.capability_binding (00005) *)

Definition environments : list string := ["production"; "staging"; "development"].
Definition key_rev (r : BindingRow) : string * Z := (cb_key r, cb_revision r).
Definition key_rev_eqb := pair_eqb String.eqb Z.eqb.
Definition slot (r : BindingRow) : string * string * Z :=
  (cb_scope_hash r, cb_environment r, cb_priority r).
Definition slot_eqb := pair_eqb (pair_eqb String.eqb String.eqb) Z.eqb.

Definition binding_conflict (rows : list BindingRow) (row : BindingRow) : option string :=
  if clashes key_rev_eqb (fun _ => true) key_rev rows row
  then Some "capability_binding_binding_key_revision_key"
  else if clashes String.eqb cb_is_active cb_key rows row then Some "binding_single_active"
  else if clashes slot_eqb live slot rows row then Some "binding_scope_priority_unique"
  else None.
Definition binding_check (d : Database) (row : BindingRow) : option sqlerr :=
  if negb (str_mem (cb_environment row) environments) || (cb_priority row <? 1) ||
     (cb_revision row <? 1) then Some CheckViolation
  else match binding_conflict (bindings d) row with
       | Some c => Some (Unique c)
       | None =>
           if any_where (fun c => ca_id c =? cb_capability_id row) (capabilities d) &&
              any_where (fun p => rp_id p =? cb_provider_id row) (providers d) &&
              any_where (fun s => ps_id s =? cb_snapshot_id row) (snapshots d)
           then None else Some ForeignKey
       end.
Definition insert_binding (row : Database -> BindingRow) : Db unit :=
  insert_row (fun d =>
    match binding_check d (row d) with
    | Some e => inl e
    | None => inr (with_next_id (next_id d + 1) (with_bindings (bindings d ++ [row d]) d))
    end).
(** The unique indexes after an UPDATE. *)
Definition binding_indexes (rows : list BindingRow) : option string :=
  if negb (unique_on key_rev_eqb (fun _ => true) key_rev rows)
  then Some "capability_binding_binding_key_revision_key"
  else if negb (unique_on String.eqb cb_is_active cb_key rows) then Some "binding_single_active"
  else if negb (unique_on slot_eqb live slot rows) then Some "binding_scope_priority_unique"
  else None.

(** *** Publish *)

(** SELECT count of unsettled events. *)
Definition backlog (d : Database) : Z :=
  count_where (fun o => (oe_status o =d ObPending) || (oe_status o =d ObPublishing)) (outbox d).
Definition backlog_gate : Db unit :=
  when (MaxBacklog >? 0)
    (connect ;!
     let! n := query backlog in
     guard (n >? MaxBacklog) (errS ErrBacklogBlocked ReasonBacklogBlocked)).

(** The idempotency ledger: [true] when the call is a replay already in effect. *)
Definition ledger_replay (req : PublishReq) (b : Target) : Db bool :=
  if IdempotencyKey req =s "" then ret false
  else
    let! rec := query (fun d => first_where (fun l => pi_key l =s IdempotencyKey req) (ledger d)) in
    match rec with
    | None => ret false
    | Some l =>
        guard (negb (pi_fingerprint l =s requestFingerprint req b))
          (errS ErrIdemKeyReuse ReasonIdemKeyReuse) ;!
        let! active := query (fun d => any_where (fun r =>
          (cb_key r =s pi_binding_key l) && (cb_revision r =? pi_revision l) && cb_is_active r)
          (bindings d)) in
        if (active : bool) then ret true
        else throw (errS ErrRevisionConflict ReasonRevisionConflict)
    end.

Definition of_key (key : string) (r : BindingRow) : bool := cb_key r =s key.
Definition active_of (key : string) (r : BindingRow) : bool := (cb_key r =s key) && cb_is_active r.
Definition supersedable (key : string) (rev : Z) (r : BindingRow) : bool :=
  active_of key r && (cb_revision r =? rev) && (cb_state r =d BindPublished).
Definition latest (key : string) (d : Database) : option BindingRow :=
  max_by cb_revision (rows_where (of_key key) (bindings d)).

(** Deactivate the superseded revision, or arbitrate against the latest row. *)
Definition supersede (req : PublishReq) : Db unit :=
  let! n := exec_n (fun d =>
    (updated (supersedable (BindingKey req) (Revision req)) (bindings d),
     with_bindings (update_where (supersedable (BindingKey req) (Revision req))
       (set_cb_is_active false) (bindings d)) d)) in
  when (n =? 0)
    (let! cur := catch (query_row (latest (BindingKey req)))
       (fun e => if is_no_rows e then throw (errS ErrNotFound ReasonNotFound) else throw e) in
     guard (negb (cb_revision cur =? Revision req)) (errS ErrRevisionConflict ReasonRevisionConflict) ;!
     guard (cb_is_active cur) (errS ErrInvalidTransition ReasonInvalidTransition) ;!
     guard (negb (cb_state cur =d BindDraft)) (errS ErrInvalidTransition ReasonInvalidTransition)).

Definition published_row (req : PublishReq) (b : Target) (t : Z) (d : Database) : BindingRow :=
  MkBindingRow (next_id d) (BindingKey req) (CapabilityID b) (ProviderID b) (SnapshotID b)
    (Profile b) (Environment req) (CanonicalScope (ReqScope req)) (ScopeHash (ReqScope req))
    (JObj []) (Priority req) BindPublished (Revision req + 1) true (ChangeReason req)
    (TicketRef req) (ApprovalRef req) (Some t) (ReqTenantRef req).

(** The reason a unique violation of the INSERT is reported with. *)
Definition classify_insert (e : err) : err :=
  match constraintOf e with
  | Some c =>
      if c =s "capability_binding_binding_key_revision_key"
      then errS ErrRevisionConflict ReasonRevisionConflict
      else if c =s "binding_scope_priority_unique" then errS ErrScopeConflict ReasonScopeOverlap
      else if c =s "binding_single_active" then errS ErrDuplicateActive ReasonAlreadyActive
      else e
  | None => e
  end.

Definition insert_ledger (req : PublishReq) (b : Target) (rev : Z) : Db unit :=
  when (negb (IdempotencyKey req =s ""))
    (catch (insert_row (fun d =>
        if rev <? 1 then inl CheckViolation
        else if any_where (fun l => pi_key l =s IdempotencyKey req) (ledger d)
        then inl (Unique "publish_idempotency_pkey")
        else inr (with_ledger (ledger d ++
               [MkLedgerRow (IdempotencyKey req) (BindingKey req) rev (requestFingerprint req b)]) d)))
      (fun e => if isUniqueViolation e
                then throw (errS ErrRevisionConflict ReasonRevisionConflict) else throw e)).

Definition event_id (key : string) (rev : Z) : string := "binding:" +:+ key +:+ ":" +:+ dec rev.

(** The new revision, its audit row, its event and its ledger row. *)
Definition publish_writes (req : PublishReq) (b : Target) (t : Z) : Db unit :=
  let newRev := Revision req + 1 in
  let hash := ScopeHash (ReqScope req) in
  catch (insert_binding (published_row req b t)) (fun e => throw (classify_insert e)) ;!
  let! change := insert_change t (ReqTenantRef req) (Actor req) (TraceID req) "binding"
    (BindingKey req) "PUBLISH" (ApprovalRef req)
    (JObj [("revision", JNum (dec newRev)); ("scope_hash", JStr hash);
           ("change_reason", JStr (ChangeReason req))]) in
  insert_outbox t "binding.published"
    (JObj [("binding_key", JStr (BindingKey req)); ("revision", JNum (dec newRev));
           ("scope_hash", JStr hash); ("priority", JNum (dec (Priority req)));
           ("environment", JStr (Environment req)); ("state", JStr "PUBLISHED")])
    change (event_id (BindingKey req) newRev) "binding" (BindingKey req) newRev ;!
  insert_ledger req b newRev.

(** store.go: Publish *)
Definition Publish (req : PublishReq) (b : Target) : Db unit :=
  match PublishGate (ApprovalRef req) (ChangeReason req) (Actor req) with
  | Some e => throw e
  | None =>
      backlog_gate ;!
      connect ;!
      tx (let! replay := ledger_replay req b in
          if (replay : bool) then ret (Commit tt)
          else
            overlapGuard (BindingKey req) (Environment req) (Priority req) (ReqScope req) ;!
            supersede req ;!
            let! t := now in
            publish_writes req b t ;!
            ret (Commit tt))
  end.

(** store.go: Create *)
Definition draft_row (req : CreateReq) (d : Database) : BindingRow :=
  MkBindingRow (next_id d) (c_key req) (CapabilityID (c_target req)) (ProviderID (c_target req))
    (SnapshotID (c_target req)) (Profile (c_target req)) (c_environment req)
    (CanonicalScope (c_scope req)) (ScopeHash (c_scope req)) (JObj []) (c_priority req)
    BindDraft 1 false "" "" "" None (c_tenant req).
Definition Create (req : CreateReq) : Db unit :=
  guard ((c_key req =s "") || (c_environment req =s "") || (c_actor req =s ""))
    (errV ReasonMissingApproval) ;!
  connect ;!
  tx (catch (insert_binding (draft_row req))
        (fun e => if isUniqueViolation e then throw (errS ErrDuplicateActive ReasonAlreadyActive)
                  else throw e) ;!
      let! t := now in
      let! _c := insert_change t (c_tenant req) (c_actor req) (c_trace req) "binding" (c_key req)
        "CREATE" "" (JObj [("revision", JNum "1"); ("state", JStr "DRAFT")]) in
      ret (Commit tt)).

(** *** Lifecycle transitions *)

Definition state_name (s : BindState) : string :=
  match s with
  | BindDraft => "DRAFT" | BindPublished => "PUBLISHED" | BindSuspended => "SUSPENDED"
  | BindDeprecated => "DEPRECATED" | BindRetired => "RETIRED"
  end.
Definition movable (key : string) (rev : Z) (from : BindState) (r : BindingRow) : bool :=
  active_of key r && (cb_revision r =? rev) && (cb_state r =d from).
Definition moved (to : BindState) (r : BindingRow) : BindingRow :=
  set_cb_revision (cb_revision r + 1) (set_cb_state to r).
Definition classify_move (e : err) : err :=
  match constraintOf e with
  | Some c =>
      if c =s "binding_scope_priority_unique" then errS ErrScopeConflict ReasonScopeOverlap
      else if c =s "binding_single_active" then errS ErrDuplicateActive ReasonAlreadyActive
      else e
  | None => e
  end.
Definition update_bindings (q : BindingRow -> bool) (f : BindingRow -> BindingRow) : Db Z :=
  stmt (fun d =>
    let rows := update_where q f (bindings d) in
    match binding_indexes rows with
    | Some c => inl (Unique c)
    | None => inr (updated q (bindings d), with_bindings rows d)
    end).

(** The re-entry into the live set passes the overlap arbitration. *)
Definition resume_guard (req : TransitionReq) : Db unit :=
  let! cur := query (fun d => first_where (active_of (t_key req)) (bindings d)) in
  match cur with
  | Some r =>
      guard (negb (cb_revision r =? ExpectedRev req))
        (errS ErrRevisionConflict ReasonRevisionConflict) ;!
      overlapGuard (t_key req) (cb_environment r) (cb_priority r) (cb_scope r)
  | None => ret tt
  end.

Definition move_row (req : TransitionReq) (from to : BindState) : Db unit :=
  let! n := catch (update_bindings (movable (t_key req) (ExpectedRev req) from) (moved to))
    (fun e => throw (classify_move e)) in
  when (n =? 0)
    (let! cur := catch (query_row (latest (t_key req)))
       (fun e => if is_no_rows e then throw (errS ErrNotFound ReasonNotFound) else throw e) in
     guard (negb (cb_revision cur =? ExpectedRev req))
       (errS ErrRevisionConflict ReasonRevisionConflict) ;!
     throw (errV ReasonInvalidTransition)).

Definition move_writes (req : TransitionReq) (from to : BindState) (operation topic : string)
    (t : Z) : Db unit :=
  let! cur := query_row (fun d => first_where (active_of (t_key req)) (bindings d)) in
  let rev := cb_revision cur in
  let! change := insert_change t (cb_tenant_ref cur) (t_actor req) (t_trace req) "binding"
    (t_key req) operation ""
    (JObj [("revision", JNum (dec rev)); ("from", JStr (state_name from));
           ("to", JStr (state_name to)); ("change_reason", JStr (t_reason req))]) in
  insert_outbox t topic
    (JObj [("binding_key", JStr (t_key req)); ("revision", JNum (dec rev));
           ("environment", JStr (cb_environment cur)); ("state", JStr (state_name to))])
    change (event_id (t_key req) rev +:+ ":" +:+ operation) "binding" (t_key req) rev.

(** store.go: transition *)
Definition transition (req : TransitionReq) (from to : BindState) (operation topic : string)
    : Db unit :=
  guard (negb (ValidateTransition from to)) (errV ReasonInvalidTransition) ;!
  guard (t_actor req =s "") (errV ReasonMissingApproval) ;!
  connect ;!
  tx (when (to =d BindPublished) (resume_guard req) ;!
      move_row req from to ;!
      let! t := now in
      move_writes req from to operation topic t ;!
      ret (Commit tt)).

Definition Suspend (req : TransitionReq) : Db unit :=
  transition req BindPublished BindSuspended "SUSPEND" "binding.suspended".
Definition Resume (req : TransitionReq) : Db unit :=
  transition req BindSuspended BindPublished "RESUME" "binding.resumed".
Definition Deprecate (req : TransitionReq) : Db unit :=
  transition req BindPublished BindDeprecated "DEPRECATE" "binding.deprecated".
Definition Retire (req : TransitionReq) (from : BindState) : Db unit :=
  transition req from BindRetired "RETIRE" "binding.retired".

(** *** Queries and republish *)

Record StoredBinding : Type := MkStoredBinding {
  sb_key : string; sb_revision : Z; sb_scope : Scope; sb_priority : Z; sb_state : BindState;
  sb_profile : string }.
Definition priority_le (a b : BindingRow) : Prop := cb_priority a <= cb_priority b.
#[export] Instance priority_le_dec : RelDecision priority_le.
Proof. unfold priority_le. intros a b. apply _. Defined.

(** store.go: FindOverlapping *)
Definition FindOverlapping (environment : string) (q : Scope) : Db (list StoredBinding) :=
  connect ;!
  let! rows := query (fun d => merge_sort priority_le
    (rows_where (fun r => (cb_environment r =s environment) && live r) (bindings d))) in
  ret (map (fun r => MkStoredBinding (cb_key r) (cb_revision r) (cb_scope r) (cb_priority r)
                       BindPublished (cb_profile r))
    (rows_where (fun r => Overlaps (CanonicalScope q) (CanonicalScope (cb_scope r))) rows)).

Record RepublishReq : Type := MkRepublishReq {
  r_key : string; r_expected : Z; r_approval : string; r_reason : string; r_ticket : string;
  r_tenant : string; r_actor : string; r_trace : string; r_idempotency : string }.
Record RepublishResult : Type := MkRepublishResult {
  res_revision : Z; res_state : BindState; Replayed : bool }.

Definition republish_req (req : RepublishReq) (r : BindingRow) : PublishReq :=
  MkPublishReq (r_key req) (r_expected req) (cb_scope r) (cb_priority r) (cb_environment r)
    (r_approval req) (r_reason req) (r_ticket req) (r_tenant req) (r_actor req) (r_trace req)
    (r_idempotency req).
Definition target_of (r : BindingRow) : Target :=
  MkTarget (cb_capability_id r) (cb_provider_id r) (cb_snapshot_id r) (cb_profile r).

(** store.go: Republish.  The read of the active revision ignores its error. *)
Definition Republish (req : RepublishReq) : Db RepublishResult :=
  connect ;!
  let! r := catch (query_row (latest (r_key req)))
    (fun e => if is_no_rows e then throw (errS ErrNotFound ReasonNotFound) else throw e) in
  let! activeRev := catch (query_row (fun d =>
      cb_revision <$> first_where (active_of (r_key req)) (bindings d))) (fun _ => ret 0) in
  Publish (republish_req req r) (target_of r) ;!
  let! cur := query_row (fun d => first_where (active_of (r_key req)) (bindings d)) in
  ret (MkRepublishResult (cb_revision cur) (cb_state cur)
         (negb (r_idempotency req =s "") && (cb_revision cur =? activeRev))).

End Store.

(** ** The invariant of the bindings table *)

Section Invariant.
Context `{Normalizer}.

(** No two live bindings of different keys in one slot overlap. *)
Definition no_overlap (rows : list BindingRow) : Prop :=
  forall r r', r ∈ rows -> r' ∈ rows -> live r = true -> live r' = true ->
    cb_environment r = cb_environment r' -> cb_priority r = cb_priority r' ->
    cb_key r <> cb_key r' ->
    Overlaps (CanonicalScope (cb_scope r)) (CanonicalScope (cb_scope r')) = false.
(** The active revision of a key is its latest. *)
Definition active_latest (rows : list BindingRow) : Prop :=
  forall r r', r ∈ rows -> r' ∈ rows -> cb_is_active r = true -> cb_key r' = cb_key r ->
    cb_revision r' <= cb_revision r.
Definition row_ok (r : BindingRow) : Prop :=
  1 <= cb_revision r /\ CanonicalScope (cb_scope r) = cb_scope r /\
  cb_scope_hash r = ScopeHash (cb_scope r).

Record binding_ok (rows : list BindingRow) : Prop := {
  bk_key : indexed (fun _ => true) key_rev rows;
  bk_active : indexed cb_is_active cb_key rows;
  bk_slot : indexed live slot rows;
  bk_overlap : no_overlap rows;
  bk_latest : active_latest rows;
  bk_row : forall r, r ∈ rows -> row_ok r;
}.

Definition legal_step (a b : BindState) : Prop := ValidateTransition a b = true.
(** What a revision may become: its content stays; only the active revision
    changes at all, along the matrix. *)
Definition binding_kept (r r' : BindingRow) : Prop :=
  r' = set_cb_revision (cb_revision r') (set_cb_state (cb_state r')
         (set_cb_is_active (cb_is_active r') r)) /\
  (cb_is_active r = false -> r' = r) /\
  cb_revision r <= cb_revision r' /\ star legal_step (cb_state r) (cb_state r').

Lemma binding_kept_refl r : binding_kept r r.
Proof. split; [by destruct r|]. split; [done|]. split; [lia|constructor]. Qed.

Lemma binding_kept_trans a b c : binding_kept a b -> binding_kept b c -> binding_kept a c.
Proof.
  intros (Hb & Hib & Hrb & Hsb) (Hc & Hic & Hrc & Hsc). split; [|split; [|split]].
  - rewrite Hc, Hb. by destruct a.
  - intros Ha. specialize (Hib Ha). subst b. auto.
  - lia.
  - by eapply star_trans.
Qed.

#[local] Lemma key_rev_eqb_spec x y : key_rev_eqb x y = true <-> x = y.
Proof. apply pair_eqb_spec; intros; b2p; done. Qed.
#[local] Lemma slot_eqb_spec x y : slot_eqb x y = true <-> x = y.
Proof.
  apply pair_eqb_spec; [|intros; b2p; done]. apply pair_eqb_spec; intros; b2p; done.
Qed.

(** *** Inserting a row *)

Lemma binding_check_none d row :
  binding_check d row = None ->
  1 <= cb_revision row /\
  clashes key_rev_eqb (fun _ => true) key_rev (bindings d) row = false /\
  clashes String.eqb cb_is_active cb_key (bindings d) row = false /\
  clashes slot_eqb live slot (bindings d) row = false.
Proof.
  unfold binding_check, binding_conflict.
  destruct (_ || _ || _) eqn:E; [discriminate|]. apply orb_false_iff in E as [_ E]. b2p.
  destruct (clashes key_rev_eqb _ _ _ _); [discriminate|].
  destruct (clashes String.eqb _ _ _ _); [discriminate|].
  destruct (clashes slot_eqb _ _ _ _); [discriminate|]. auto.
Qed.

Lemma ok_insert d row :
  binding_ok (bindings d) -> binding_check d row = None ->
  CanonicalScope (cb_scope row) = cb_scope row -> cb_scope_hash row = ScopeHash (cb_scope row) ->
  (live row = true -> forall r, r ∈ bindings d -> live r = true ->
     cb_environment r = cb_environment row -> cb_priority r = cb_priority row ->
     cb_key r <> cb_key row ->
     Overlaps (CanonicalScope (cb_scope row)) (CanonicalScope (cb_scope r)) = false) ->
  (cb_is_active row = true -> forall r, r ∈ bindings d -> cb_key r = cb_key row ->
     cb_revision r <= cb_revision row) ->
  (cb_is_active row = false -> cb_revision row = 1) ->
  binding_ok (bindings d ++ [row]).
Proof.
  intros [Hk Ha Hs Ho Hl Hr] Hc Hcan Hhash Hov Hlat Hone.
  apply binding_check_none in Hc as (Hrev & Hck & Hca & Hcs). split.
  - by apply (indexed_snoc key_rev_eqb key_rev_eqb_spec).
  - apply (indexed_snoc String.eqb); [intros; b2p; done|done|done].
  - by apply (indexed_snoc slot_eqb slot_eqb_spec).
  - intros r r' Hin Hin' Hlive Hlive' He Hp Hne.
    apply elem_of_app in Hin as [Hin|Hin], Hin' as [Hin'|Hin'];
      try apply list_elem_of_singleton in Hin as ->; try apply list_elem_of_singleton in Hin' as ->.
    + by apply Ho.
    + rewrite Overlaps_sym. apply Hov; auto.
    + apply Hov; auto.
    + done.
  - intros r r' Hin Hin' Hact Hkey.
    apply elem_of_app in Hin as [Hin|Hin], Hin' as [Hin'|Hin'];
      try apply list_elem_of_singleton in Hin as ->; try apply list_elem_of_singleton in Hin' as ->.
    + by eapply Hl.
    + destruct (cb_is_active row) eqn:Er.
      * exfalso. rewrite (clashes_false String.eqb) in Hca by (intros; b2p; done).
        by apply (Hca Er r).
      * rewrite Hone by done. by apply Hr in Hin as [? _].
    + auto.
    + lia.
  - intros r Hin. apply elem_of_app in Hin as [Hin|Hin]; [auto|].
    apply list_elem_of_singleton in Hin as ->. done.
Qed.

(** *** Superseding and moving the active row *)

Lemma ok_deactivate q rows :
  binding_ok rows -> binding_ok (update_where q (set_cb_is_active false) rows).
Proof.
  intros [Hk Ha Hs Ho Hl Hr].
  assert (Hlive : forall r, live (set_cb_is_active false r) = false).
  { intros r. unfold live. simpl. by rewrite andb_false_r. }
  split.
  - by apply indexed_update.
  - apply indexed_update; [done|]. done.
  - apply indexed_update; [done|]. intros r _ _ Hx. by rewrite Hlive in Hx.
  - intros r r' Hin Hin' H1 H2.
    apply elem_of_update_where in Hin as [(r0 & _ & _ & ->)|[Hin _]]; [by rewrite Hlive in H1|].
    apply elem_of_update_where in Hin' as [(r0 & _ & _ & ->)|[Hin' _]]; [by rewrite Hlive in H2|].
    by apply Ho.
  - intros r r' Hin Hin' Hact Hkey.
    apply elem_of_update_where in Hin as [(r0 & _ & _ & ->)|[Hin _]]; [done|].
    apply elem_of_update_where in Hin' as [(r0 & Hin' & _ & ->)|[Hin' _]]; simpl in *; by eapply Hl.
  - intros r Hin. apply elem_of_update_where in Hin as [(r0 & Hin & _ & ->)|[Hin _]]; [|auto].
    apply (Hr _ Hin).
Qed.

Lemma kept_deactivate key rev rows :
  rows_kept binding_kept rows (update_where (supersedable key rev) (set_cb_is_active false) rows).
Proof.
  apply rows_kept_update; [apply binding_kept_refl|]. intros r Hq.
  unfold supersedable, active_of in Hq. b2p. destruct Hq as [[[_ Hact] _] _].
  split; [by destruct r|]. split; [congruence|]. simpl. split; [lia|constructor].
Qed.

Lemma binding_indexes_none rows :
  binding_indexes rows = None ->
  indexed (fun _ => true) key_rev rows /\ indexed cb_is_active cb_key rows /\ indexed live slot rows.
Proof.
  unfold binding_indexes.
  destruct (unique_on key_rev_eqb _ _ _) eqn:E1; [|discriminate].
  destruct (unique_on String.eqb _ _ _) eqn:E2; [|discriminate].
  destruct (unique_on slot_eqb _ _ _) eqn:E3; [|discriminate]. intros _.
  apply (unique_on_spec key_rev_eqb key_rev_eqb_spec) in E1.
  apply (unique_on_spec String.eqb) in E2; [|intros; b2p; done].
  by apply (unique_on_spec slot_eqb slot_eqb_spec) in E3.
Qed.

(** The row an UPDATE of the active revision matches is unique. *)
Lemma movable_unique key rev from rows r r' :
  binding_ok rows -> r ∈ rows -> r' ∈ rows -> movable key rev from r = true ->
  active_of key r' = true -> r = r'.
Proof.
  intros Hok Hin Hin' Hm Ha. unfold movable in Hm. b2p. destruct Hm as [[Hm _] _].
  unfold active_of in *. b2p. destruct_and_hyps.
  eapply (indexed_elem cb_is_active cb_key); [apply Hok|done..|congruence].
Qed.

Lemma ok_move key rev from to rows :
  binding_ok rows ->
  binding_indexes (update_where (movable key rev from) (moved to) rows) = None ->
  (to = BindPublished -> forall r, r ∈ rows -> movable key rev from r = true ->
     forall o, o ∈ rows -> live o = true -> cb_environment o = cb_environment r ->
       cb_priority o = cb_priority r -> cb_key o <> cb_key r ->
       Overlaps (CanonicalScope (cb_scope r)) (CanonicalScope (cb_scope o)) = false) ->
  binding_ok (update_where (movable key rev from) (moved to) rows).
Proof.
  intros Hok Hix Hg. pose proof Hok as [Hk Ha Hs Ho Hl Hr].
  apply binding_indexes_none in Hix as (Hk' & Ha' & Hs').
  assert (Hto : forall r, live (moved to r) = true -> to = BindPublished).
  { intros r Hx. unfold live in Hx. apply andb_true_iff in Hx as [Hx _].
    by apply bool_decide_eq_true in Hx. }
  split; [done..| | |].
  - intros r r' Hin Hin' H1 H2 He Hp Hne.
    apply elem_of_update_where in Hin as [(r0 & Hin & Hq & ->)|[Hin Hq]];
      apply elem_of_update_where in Hin' as [(r1 & Hin' & Hq' & ->)|[Hin' Hq']].
    + exfalso. apply Hne. simpl. unfold movable, active_of in Hq, Hq'. b2p. destruct_and_hyps. congruence.
    + apply (Hg (Hto _ H1) r0); auto.
    + rewrite Overlaps_sym. apply (Hg (Hto _ H2) r1); auto.
    + by apply Ho.
  - intros r r' Hin Hin' Hact Hkey.
    apply elem_of_update_where in Hin as [(r0 & Hin & Hq & ->)|[Hin Hq]];
      apply elem_of_update_where in Hin' as [(r1 & Hin' & Hq' & ->)|[Hin' Hq']]; simpl in *.
    + assert (cb_revision r1 <= cb_revision r0); [by eapply Hl|lia].
    + assert (cb_revision r' <= cb_revision r0); [by eapply Hl|lia].
    + exfalso. assert (r1 = r) as ->; [|congruence].
      eapply movable_unique; eauto. unfold movable, active_of in Hq'. b2p. destruct_and_hyps.
      unfold active_of. rewrite Hact, andb_true_r. b2p. congruence.
    + by eapply Hl.
  - intros r Hin. apply elem_of_update_where in Hin as [(r0 & Hin & _ & ->)|[Hin _]]; [|auto].
    destruct (Hr _ Hin) as (? & ? & ?). split; [simpl; lia|done].
Qed.

Lemma kept_move key rev from to rows :
  ValidateTransition from to = true ->
  rows_kept binding_kept rows (update_where (movable key rev from) (moved to) rows).
Proof.
  intros Hv. apply rows_kept_update; [apply binding_kept_refl|]. intros r Hq.
  unfold movable, active_of in Hq. b2p. destruct Hq as [[[_ Hact] _] Hst].
  apply bool_decide_eq_true in Hst. split; [by destruct r|]. split; [congruence|].
  simpl. split; [lia|]. rewrite Hst. by apply star_one.
Qed.

(** *** What the steps of the calls do *)

Lemma overlapGuard_inr key env prio scope w u w' :
  overlapGuard key env prio scope w = (inr u, w') ->
  store w' = store w /\ clock w' = clock w /\
  forall o, o ∈ bindings (store w) -> live o = true -> cb_environment o = env ->
    cb_priority o = prio -> cb_key o <> key ->
    Overlaps (CanonicalScope scope) (CanonicalScope (cb_scope o)) = false.
Proof.
  unfold overlapGuard. intros Hr. apply bind_inr in Hr as (u1 & w1 & Hx & Hr).
  apply exec_inr in Hx as [H1 H1c]. apply bind_inr in Hr as (others & w2 & Hx & Hr).
  apply query_inr in Hx as (Ho & H2 & H2c). apply guard_inr in Hr as [Hg ->].
  split; [congruence|]. split; [congruence|]. intros o Hin Hlive He Hp Hk.
  rewrite <- not_true_iff_false in Hg |- *. intros Hov. apply Hg, existsb_exists.
  exists o. split; [|done]. subst others. rewrite H1. apply list_elem_of_In, elem_of_rows_where.
  split; [done|]. unfold slot_rival. rewrite Hlive, He, Hp, str_eqb_refl, Z.eqb_refl. simpl.
  apply negb_true_iff. by apply String.eqb_neq.
Qed.

Lemma latest_spec key d r :
  latest key d = Some r ->
  r ∈ bindings d /\ cb_key r = key /\
  forall r', r' ∈ bindings d -> cb_key r' = key -> cb_revision r' <= cb_revision r.
Proof.
  intros Hl. apply max_by_some in Hl as [Hin Hmax].
  apply elem_of_rows_where in Hin as [Hin Hk]. unfold of_key in *. b2p.
  split; [done|]. split; [done|]. intros r' Hin' Hk'. apply Hmax.
  apply elem_of_rows_where. split; [done|]. by b2p.
Qed.

Lemma supersede_inr req w u0 w' :
  binding_ok (bindings (store w)) ->
  supersede req w = (inr u0, w') ->
  clock w' = clock w /\
  store w' = with_bindings (update_where (supersedable (BindingKey req) (Revision req))
    (set_cb_is_active false) (bindings (store w))) (store w) /\
  forall r, r ∈ bindings (store w) -> cb_key r = BindingKey req -> cb_revision r <= Revision req.
Proof.
  intros Hok Hr. unfold supersede in Hr. apply bind_inr in Hr as (n & w1 & Hx & Hr).
  apply exec_n_inr in Hx as [Hx Hc1]. injection Hx as Hn Hs. unfold when in Hr.
  destruct (n =? 0) eqn:En.
  - apply bind_inr in Hr as (cur & w2 & Hc & Hr). unfold catch in Hc.
    destruct (query_row _ w1) as [[e|x] wq] eqn:Eq; [destruct (is_no_rows e); discriminate|].
    injection Hc as -> <-. apply query_row_inr in Eq as (Hlat & Hs2 & Hc2).
    apply bind_inr in Hr as (u & w3 & Hg & Hr). apply guard_inr in Hg as [Hg ->]. b2p.
    apply bind_inr in Hr as (u2 & w4 & Hg2 & Hr). apply guard_inr in Hg2 as [_ ->].
    apply guard_inr in Hr as [_ ->]. split; [congruence|]. split; [congruence|].
    intros r Hin Hk. rewrite <- Hg. apply latest_spec in Hlat as (_ & _ & Hmax).
    destruct (supersedable (BindingKey req) (Revision req) r) eqn:Eq.
    + exfalso. rewrite <- Hn in En. unfold updated in En.
      pose proof (proj1 (count_where_zero _ _) En r Hin). congruence.
    + apply Hmax; [|done]. rewrite <- Hs. simpl. apply elem_of_update_where. by right.
  - apply ret_inr in Hr as [_ ->]. split; [done|]. split; [done|]. intros r Hin Hk.
    assert (Hex : exists p, p ∈ bindings (store w) /\ supersedable (BindingKey req) (Revision req) p = true).
    { destruct (any_where (supersedable (BindingKey req) (Revision req)) (bindings (store w))) eqn:E.
      - by apply any_where_spec in E.
      - exfalso. apply Z.eqb_neq in En. apply En. rewrite <- Hn. apply count_where_zero.
        by apply any_where_false. }
    destruct Hex as (p & Hp & Hq). unfold supersedable, active_of in Hq. b2p. destruct_and_hyps.
    rewrite <- H2. eapply (bk_latest _ Hok p r); auto. congruence.
Qed.

(** The ledger rows a publish adds. *)
Definition ledger_rows (req : PublishReq) (b : Target) (rev : Z) : list LedgerRow :=
  if IdempotencyKey req =s "" then []
  else [MkLedgerRow (IdempotencyKey req) (BindingKey req) rev (requestFingerprint req b)].

Lemma insert_ledger_inr req b rev w u0 w' :
  insert_ledger req b rev w = (inr u0, w') ->
  (IdempotencyKey req <> "" ->
     any_where (fun l => pi_key l =s IdempotencyKey req) (ledger (store w)) = false) /\
  ledger (store w') = ledger (store w) ++ ledger_rows req b rev /\
  bindings (store w') = bindings (store w) /\ changes (store w') = changes (store w) /\
  outbox (store w') = outbox (store w).
Proof.
  unfold insert_ledger, when, ledger_rows. destruct (String.eqb_spec (IdempotencyKey req) "") as [Ei|Ei]; simpl.
  - intros Hr. apply ret_inr in Hr as [_ ->]. rewrite app_nil_r. done.
  - intros Hr. unfold catch in Hr. destruct (insert_row _ w) as [[e|u] w1] eqn:E.
    { destruct (isUniqueViolation e); discriminate. }
    injection Hr as _ <-. apply insert_row_inr in E as [E _].
    destruct (rev <? 1); [discriminate|]. destruct (any_where _ _) eqn:Ea; [discriminate|].
    injection E as <-. done.
Qed.

(** The rows a publish adds. *)
Definition publish_change (req : PublishReq) (d : Database) (t : Z) : ChangeRow :=
  new_change d t (ReqTenantRef req) (Actor req) (TraceID req) "binding" (BindingKey req) "PUBLISH"
    (ApprovalRef req)
    (JObj [("revision", JNum (dec (Revision req + 1))); ("scope_hash", JStr (ScopeHash (ReqScope req)));
           ("change_reason", JStr (ChangeReason req))]).

(** The audit row and the event of one change to a binding. *)
Definition announced (d d' : Database) (key operation actor decision topic : string) (rev : Z) : Prop :=
  exists c o, changes d' = changes d ++ [c] /\ outbox d' = outbox d ++ [o] /\
    cr_kind c = "binding" /\ cr_entity c = key /\ cr_operation c = operation /\
    cr_actor c = actor /\ cr_decision c = decision /\
    oe_topic o = topic /\ oe_change_id o = cr_id c /\ oe_kind o = "binding" /\
    oe_aggregate o = key /\ oe_revision o = rev /\ oe_status o = ObPending.

Lemma publish_writes_inr req b t w u0 w' :
  publish_writes req b t w = (inr u0, w') ->
  let d := store w in
  binding_check d (published_row req b t d) = None /\
  bindings (store w') = bindings d ++ [published_row req b t d] /\
  ledger (store w') = ledger d ++ ledger_rows req b (Revision req + 1) /\
  announced d (store w') (BindingKey req) "PUBLISH" (Actor req) (ApprovalRef req)
    "binding.published" (Revision req + 1).
Proof.
  unfold publish_writes. intros Hr. cbv zeta in Hr |- *.
  apply bind_inr in Hr as (u & w1 & Hx & Hr). unfold catch in Hx.
  destruct (insert_binding _ w) as [[e|u1] wi] eqn:Ei; [discriminate|]. injection Hx as _ <-.
  unfold insert_binding in Ei. apply insert_row_inr in Ei as [Ei _].
  destruct (binding_check _ _) eqn:Ec; [discriminate|]. injection Ei as Hs1.
  apply bind_inr in Hr as (c & w2 & Hx & Hr). apply insert_change_inr in Hx as (Hc & Hcok & _ & Hs2).
  apply bind_inr in Hr as (u2 & w3 & Hx & Hr). apply insert_outbox_inr in Hx as (_ & _ & Hs3).
  apply insert_ledger_inr in Hr as (_ & Hl & Hb & Hch & Hob).
  split; [done|]. rewrite Hb, Hl. unfold announced. rewrite Hch, Hob, Hs3, Hs2, <- Hs1.
  split; [done|]. split; [done|]. subst c. rewrite <- Hs1. by eexists _, _.
Qed.

Lemma move_row_inr req from to w u0 w' :
  move_row req from to w = (inr u0, w') ->
  binding_indexes (update_where (movable (t_key req) (ExpectedRev req) from) (moved to)
    (bindings (store w))) = None /\
  any_where (movable (t_key req) (ExpectedRev req) from) (bindings (store w)) = true /\
  store w' = with_bindings (update_where (movable (t_key req) (ExpectedRev req) from) (moved to)
    (bindings (store w))) (store w).
Proof.
  unfold move_row. intros Hr. apply bind_inr in Hr as (n & w1 & Hx & Hr). unfold catch in Hx.
  destruct (update_bindings _ _ w) as [[e|m] wi] eqn:Ei; [discriminate|]. injection Hx as -> <-.
  unfold update_bindings in Ei. apply stmt_inr in Ei as [Ei _]. cbv zeta in Ei.
  destruct (binding_indexes _) eqn:Eix; [discriminate|]. injection Ei as Hn Hs.
  unfold when in Hr. destruct (n =? 0) eqn:En.
  - exfalso. apply bind_inr in Hr as (cur & w2 & _ & Hr).
    apply bind_inr in Hr as (u & w3 & _ & Hr). discriminate.
  - apply ret_inr in Hr as [_ ->]. split; [done|]. split; [|done].
    destruct (any_where _ _) eqn:E; [done|]. exfalso. apply Z.eqb_neq in En. apply En.
    rewrite <- Hn. apply count_where_zero. by apply any_where_false.
Qed.

Lemma move_writes_inr req from to operation topic t w u0 w' :
  move_writes req from to operation topic t w = (inr u0, w') ->
  exists cur, first_where (active_of (t_key req)) (bindings (store w)) = Some cur /\
    bindings (store w') = bindings (store w) /\ ledger (store w') = ledger (store w) /\
    announced (store w) (store w') (t_key req) operation (t_actor req) "" topic (cb_revision cur).
Proof.
  unfold move_writes. intros Hr. apply bind_inr in Hr as (cur & w1 & Hx & Hr).
  apply query_row_inr in Hx as (Hf & Hs1 & _). cbv zeta in Hr.
  apply bind_inr in Hr as (c & w2 & Hx & Hr). apply insert_change_inr in Hx as (Hc & _ & _ & Hs2).
  apply insert_outbox_inr in Hr as (_ & _ & Hs3). exists cur.
  unfold announced. rewrite Hs3, Hs2, Hs1. split; [done|]. split; [done|]. split; [done|].
  subst c. rewrite Hs1. by eexists _, _.
Qed.

End Invariant.

(** ** What the calls do *)

Section Calls.
Context `{Normalizer} (MaxBacklog : Z).

(** Reads leave the store alone. *)
Lemma backlog_gate_store w : store (backlog_gate MaxBacklog w).2 = store w.
Proof.
  assert (keeps (fun d => d = store w) (backlog_gate MaxBacklog)) as Hk.
  { unfold backlog_gate. keeps_walk. }
  by apply Hk.
Qed.

Definition publish_body (req : PublishReq) (b : Target) : Db (exit unit) :=
  let! replay := ledger_replay req b in
  if (replay : bool) then ret (Commit tt)
  else
    overlapGuard (BindingKey req) (Environment req) (Priority req) (ReqScope req) ;!
    supersede req ;!
    let! t := now in
    publish_writes req b t ;!
    ret (Commit tt).

Lemma ledger_replay_inr req b w r w' :
  ledger_replay req b w = (inr r, w') ->
  store w' = store w /\ clock w' = clock w /\
  if r then
    IdempotencyKey req <> "" /\
    exists l, first_where (fun l => pi_key l =s IdempotencyKey req) (ledger (store w)) = Some l /\
      pi_fingerprint l = requestFingerprint req b /\
      exists a, a ∈ bindings (store w) /\ cb_key a = pi_binding_key l /\
        cb_revision a = pi_revision l /\ cb_is_active a = true
  else IdempotencyKey req = "" \/
       first_where (fun l => pi_key l =s IdempotencyKey req) (ledger (store w)) = None.
Proof.
  unfold ledger_replay. destruct (String.eqb_spec (IdempotencyKey req) "") as [Ei|Ei].
  - intros Hr. apply ret_inr in Hr as [-> ->]. auto.
  - intros Hr. apply bind_inr in Hr as (rec & w1 & Hx & Hr).
    apply query_inr in Hx as (-> & H1 & H1c).
    destruct (first_where _ _) as [l|] eqn:El.
    + apply bind_inr in Hr as (u & w2 & Hg & Hr). apply guard_inr in Hg as [Hg ->].
      apply bind_inr in Hr as (act & w3 & Hx & Hr). apply query_inr in Hx as (-> & H3 & H3c).
      destruct (any_where _ _) eqn:Ea; [|discriminate]. apply ret_inr in Hr as [-> ->].
      split; [congruence|]. split; [congruence|]. split; [done|]. exists l. split; [done|].
      apply negb_false_iff, String.eqb_eq in Hg. split; [done|].
      apply any_where_spec in Ea as (a & Hin & Ha). b2p. destruct_and_hyps.
      exists a. rewrite <- H1. done.
    + apply ret_inr in Hr as [-> ->]. auto.
Qed.

(** The database after a publish that is not a replay. *)
Record published (req : PublishReq) (b : Target) (t : Z) (d d' : Database) : Prop := {
  pub_bindings : bindings d' =
    update_where (supersedable (BindingKey req) (Revision req)) (set_cb_is_active false)
      (bindings d) ++ [published_row req b t d];
  pub_ledger : ledger d' = ledger d ++ ledger_rows req b (Revision req + 1);
  pub_announced : announced d d' (BindingKey req) "PUBLISH" (Actor req) (ApprovalRef req)
    "binding.published" (Revision req + 1);
  pub_ok : binding_ok (bindings d') }.

Lemma publish_body_inr req b w x w' :
  binding_ok (bindings (store w)) ->
  publish_body req b w = (inr x, w') ->
  x = Commit tt /\
  ((exists w1, ledger_replay req b w = (inr true, w1) /\ store w' = store w) \/
   (exists w1, ledger_replay req b w = (inr false, w1)) /\
   published req b (clock w) (store w) (store w')).
Proof.
  intros Hok Hr. unfold publish_body in Hr. apply bind_inr in Hr as (r & w1 & Hl & Hr).
  pose proof (ledger_replay_inr _ _ _ _ _ Hl) as (H1 & H1c & _). destruct r.
  - apply ret_inr in Hr as [-> ->]. split; [done|]. left. eauto.
  - apply bind_inr in Hr as (u & w2 & Hg & Hr). apply overlapGuard_inr in Hg as (H2 & H2c & Hov).
    apply bind_inr in Hr as (u2 & w3 & Hs & Hr). apply supersede_inr in Hs as (H3c & H3 & Hmax);
      [|by rewrite H2, H1].
    apply bind_inr in Hr as (t & w4 & Hn & Hr). apply now_inr in Hn as [-> ->].
    apply bind_inr in Hr as (u3 & w5 & Hp & Hr). apply ret_inr in Hr as [-> ->].
    apply publish_writes_inr in Hp as (Hchk & Hb & Hlg & Han). cbv zeta in *.
    rewrite H2, H1 in H3. rewrite H1 in Hov. rewrite H2, H1 in Hmax.
    rewrite H3c, H2c, H1c in *. split; [done|]. right. split; [eauto|].
    assert (Hrow : published_row req b (clock w) (store w3) = published_row req b (clock w) (store w))
      by by rewrite H3.
    rewrite Hrow in *. assert (Hb3 : bindings (store w3) = update_where
      (supersedable (BindingKey req) (Revision req)) (set_cb_is_active false) (bindings (store w)))
      by by rewrite H3.
    split.
    + by rewrite Hb, Hb3.
    + by rewrite Hlg, H3.
    + unfold announced in *. by rewrite H3 in Han.
    + rewrite Hb. apply ok_insert; [rewrite Hb3; by apply ok_deactivate|done| | | | |done].
      * simpl. apply CanonicalScope_idem.
      * unfold ScopeHash. simpl. by rewrite CanonicalScope_idem.
      * intros _ o Hin Hlive He Hpr Hk. simpl. rewrite CanonicalScope_idem.
        rewrite Hb3 in Hin. apply elem_of_update_where in Hin as [(o0 & _ & _ & ->)|[Hin _]].
        { unfold live in Hlive. simpl in Hlive. by rewrite andb_false_r in Hlive. }
        by apply Hov.
      * intros _ o Hin Hk. rewrite Hb3 in Hin. simpl in *.
        assert (cb_revision o <= Revision req); [|lia].
        apply elem_of_update_where in Hin as [(o0 & Hin & _ & ->)|[Hin _]];
          [by apply (Hmax o0)|by apply Hmax].
Qed.

Lemma backlog_gate_inr w u w' :
  backlog_gate MaxBacklog w = (inr u, w') -> store w' = store w /\ clock w' = clock w.
Proof. unfold backlog_gate, when. destruct (MaxBacklog >? 0); intros; inv_run; split; congruence. Qed.

Lemma backlog_gate_inl w e w' : backlog_gate MaxBacklog w = (inl e, w') -> store w' = store w.
Proof. intros Hg. rewrite <- (backlog_gate_store w). by rewrite Hg. Qed.

Lemma publish_call_inr req b w u w' :
  binding_ok (bindings (store w)) ->
  Publish MaxBacklog req b w = (inr u, w') ->
  PublishGate (ApprovalRef req) (ChangeReason req) (Actor req) = None /\
  exists w0, store w0 = store w /\
  ((exists w1, ledger_replay req b w0 = (inr true, w1) /\ store w' = store w) \/
   (exists w1, ledger_replay req b w0 = (inr false, w1)) /\
   published req b (clock w) (store w) (store w')).
Proof.
  intros Hok Hr. unfold Publish in Hr. destruct (PublishGate _ _ _); [discriminate|].
  split; [done|]. apply bind_inr in Hr as (u1 & w1 & Hg & Hr).
  apply backlog_gate_inr in Hg as [H1 H1c].
  apply bind_inr in Hr as (u2 & w2 & Hc & Hr). apply connect_inr in Hc as [H2 H2c].
  apply tx_inr in Hr as (w3 & H3 & H3c & Hr). exists w3. split; [congruence|].
  assert (Hok3 : binding_ok (bindings (store w3))) by congruence.
  destruct Hr as [(w4 & Hb & ->)|(w4 & Hb & _)];
    fold (publish_body req b) in Hb;
    apply (publish_body_inr _ _ _ _ _ Hok3) in Hb as [Hx Hb]; [|discriminate].
  assert (Hs : store w3 = store w) by congruence. assert (Hc : clock w3 = clock w) by congruence.
  rewrite Hs, Hc in Hb. exact Hb.
Qed.

Lemma publish_call_inl req b w e w' :
  Publish MaxBacklog req b w = (inl e, w') -> store w' = store w.
Proof.
  unfold Publish. destruct (PublishGate _ _ _); [by intros [= _ <-]|].
  unfold bind at 1. destruct (backlog_gate MaxBacklog w) as [[e1|u] w1] eqn:E.
  - intros [= _ <-]. by eapply backlog_gate_inl.
  - apply backlog_gate_inr in E as [E _]. intros Hr. apply connect_tx_inl in Hr. congruence.
Qed.

(** *** Create and the transitions *)

Record created (req : CreateReq) (d d' : Database) : Prop := {
  crt_bindings : bindings d' = bindings d ++ [draft_row req d];
  crt_check : binding_check d (draft_row req d) = None;
  crt_ledger : ledger d' = ledger d;
  crt_outbox : outbox d' = outbox d;
  crt_change : exists c, changes d' = changes d ++ [c] /\ cr_kind c = "binding" /\
    cr_entity c = c_key req /\ cr_operation c = "CREATE" /\ cr_actor c = c_actor req }.

Lemma Create_inr req w u w' : Create req w = (inr u, w') -> created req (store w) (store w').
Proof.
  intros Hr. unfold Create in Hr. apply bind_inr in Hr as (u1 & w1 & Hg & Hr).
  apply guard_inr in Hg as [_ ->]. apply bind_inr in Hr as (u2 & w2 & Hc & Hr).
  apply connect_inr in Hc as [H2 _]. apply tx_inr in Hr as (w3 & H3 & _ & Hr).
  rewrite <- H2, <- H3. clear H2 H3.
  destruct Hr as [(w4 & Hb & ->)|(w4 & Hb & _)];
    apply bind_inr in Hb as (u3 & w5 & Hx & Hb); unfold catch in Hx;
    destruct (insert_binding _ w3) as [[e|u4] wi] eqn:Ei;
      try (destruct (isUniqueViolation e); discriminate);
    injection Hx as _ <-; apply insert_row_inr in Ei as [Ei _];
    apply bind_inr in Hb as (t & w6 & Hn & Hb); apply now_inr in Hn as [-> ->];
    apply bind_inr in Hb as (c & w7 & Hx & Hb); [|discriminate].
  apply ret_inr in Hb as [_ ->]. apply insert_change_inr in Hx as (_ & _ & _ & Hs).
  destruct (binding_check _ _) eqn:Ec; [discriminate|]. injection Ei as Ei.
  split; rewrite ?Hs, <- ?Ei; try done. by eexists.
Qed.

Lemma Create_inl req w e w' : Create req w = (inl e, w') -> store w' = store w.
Proof.
  unfold Create, guard, bind at 1. destruct (_ || _ || _); [by intros [= _ <-]|].
  simpl. intros Hr. by apply connect_tx_inl in Hr.
Qed.

(** The database after a lifecycle transition. *)
Record transitioned (req : TransitionReq) (from to : BindState) (operation topic : string)
    (d d' : Database) : Prop := {
  tr_legal : ValidateTransition from to = true;
  tr_bindings : bindings d' =
    update_where (movable (t_key req) (ExpectedRev req) from) (moved to) (bindings d);
  tr_row : any_where (movable (t_key req) (ExpectedRev req) from) (bindings d) = true;
  tr_ledger : ledger d' = ledger d;
  tr_announced : announced d d' (t_key req) operation (t_actor req) "" topic (ExpectedRev req + 1);
  tr_ok : binding_ok (bindings d') }.

(** The revision announced is the moved row's. *)
Lemma moved_active key rev from to rows cur :
  binding_ok rows -> any_where (movable key rev from) rows = true ->
  first_where (active_of key) (update_where (movable key rev from) (moved to) rows) = Some cur ->
  cb_revision cur = rev + 1.
Proof.
  intros Hok Hany Hf. apply any_where_spec in Hany as (r & Hin & Hm).
  apply first_where_some in Hf as [Hcur Hact].
  apply elem_of_update_where in Hcur as [(r0 & Hin0 & Hq & ->)|[Hin0 Hq]].
  - unfold movable in Hq. b2p. simpl. lia.
  - assert (r = cur) as ->; [|congruence]. by eapply movable_unique.
Qed.

Lemma resume_guard_inr req w u w' :
  resume_guard req w = (inr u, w') ->
  store w' = store w /\
  forall r, first_where (active_of (t_key req)) (bindings (store w)) = Some r ->
    forall o, o ∈ bindings (store w) -> live o = true -> cb_environment o = cb_environment r ->
      cb_priority o = cb_priority r -> cb_key o <> t_key req ->
      Overlaps (CanonicalScope (cb_scope r)) (CanonicalScope (cb_scope o)) = false.
Proof.
  unfold resume_guard. intros Hr. apply bind_inr in Hr as (cur & w1 & Hq & Hr).
  apply query_inr in Hq as (-> & H1 & _). destruct (first_where _ _) as [r|] eqn:E.
  - apply bind_inr in Hr as (u1 & w2 & Hg & Hr). apply guard_inr in Hg as [_ ->].
    apply overlapGuard_inr in Hr as (H2 & _ & Hov). split; [congruence|].
    intros r' [= <-]. by rewrite H1 in Hov.
  - apply ret_inr in Hr as [_ ->]. done.
Qed.

Lemma transition_inr req from to operation topic w u w' :
  binding_ok (bindings (store w)) ->
  transition req from to operation topic w = (inr u, w') ->
  transitioned req from to operation topic (store w) (store w').
Proof.
  intros Hok Hr. unfold transition in Hr. apply bind_inr in Hr as (u1 & w1 & Hg & Hr).
  apply guard_inr in Hg as [Hv ->]. apply negb_false_iff in Hv.
  apply bind_inr in Hr as (u2 & w1 & Hg & Hr). apply guard_inr in Hg as [_ ->].
  apply bind_inr in Hr as (u3 & w2 & Hc & Hr). apply connect_inr in Hc as [H2 _].
  apply tx_inr in Hr as (w3 & H3 & _ & Hr). rewrite <- H2, <- H3 in *. clear w H2 H3.
  destruct Hr as [(w4 & Hb & ->)|(w4 & Hb & _)];
    apply bind_inr in Hb as (u4 & w5 & Hre & Hb); apply bind_inr in Hb as (u5 & w6 & Hm & Hb);
    apply bind_inr in Hb as (t & w7 & Hn & Hb); apply bind_inr in Hb as (u6 & w8 & Hw & Hb);
    [|discriminate].
  apply ret_inr in Hb as [_ ->]. apply now_inr in Hn as [-> ->].
  assert (H5 : store w5 = store w3 /\ (to = BindPublished ->
    forall r, first_where (active_of (t_key req)) (bindings (store w3)) = Some r ->
    forall o, o ∈ bindings (store w3) -> live o = true -> cb_environment o = cb_environment r ->
      cb_priority o = cb_priority r -> cb_key o <> t_key req ->
      Overlaps (CanonicalScope (cb_scope r)) (CanonicalScope (cb_scope o)) = false)).
  { unfold when in Hre. destruct (bool_decide_reflect (to = BindPublished)).
    - apply resume_guard_inr in Hre. tauto.
    - by apply ret_inr in Hre as [_ ->]. }
  destruct H5 as [H5 Hov]. apply move_row_inr in Hm as (Hix & Hany & H6).
  apply move_writes_inr in Hw as (cur & Hcur & Hbs & Hlg & Han).
  rewrite H5 in *. rewrite H6 in Hcur, Hbs, Hlg. simpl in Hcur, Hbs, Hlg.
  split; try done.
  - rewrite (moved_active _ _ _ _ _ _ Hok Hany Hcur) in Han. unfold announced in *.
    by rewrite H6 in Han.
  - rewrite Hbs. apply ok_move; [done..|]. intros Hto r Hin Hm o Ho Hlive He Hp Hk.
    assert (Hact : active_of (t_key req) r = true) by (unfold movable in Hm; b2p; tauto).
    assert (Hkr : cb_key r = t_key req) by (unfold active_of in Hact; b2p; tauto).
    destruct (first_where (active_of (t_key req)) (bindings (store w3))) as [r'|] eqn:Ef.
    + apply first_where_some in Ef as Hr'. destruct Hr' as [Hin' Hact'].
      assert (r = r') as -> by by eapply movable_unique. apply (Hov Hto _ eq_refl); congruence.
    + by rewrite (first_where_none _ _ _ Ef Hin) in Hact.
Qed.

Lemma transition_inl req from to operation topic w e w' :
  transition req from to operation topic w = (inl e, w') -> store w' = store w.
Proof.
  unfold transition, guard, bind at 1. destruct (negb _); [by intros [= _ <-]|]. simpl.
  unfold bind at 1. destruct (t_actor req =s ""); [by intros [= _ <-]|]. simpl.
  intros Hr. by apply connect_tx_inl in Hr.
Qed.

End Calls.

(** ** Histories *)

Section History.
Context `{Normalizer} (MaxBacklog : Z).

Lemma Republish_after req w x w' :
  Republish MaxBacklog req w = (x, w') ->
  store w' = store w \/
  exists r w0 w1, store w0 = store w /\ store w1 = store w' /\
    latest (r_key req) (store w) = Some r /\
    Publish MaxBacklog (republish_req req r) (target_of r) w0 = (inr tt, w1).
Proof.
  unfold Republish. unfold bind at 1.
  destruct (connect w) as [[e|u] w1] eqn:Ec; [intros [= _ <-]; left; by apply connect_inl in Ec|].
  apply connect_inr in Ec as [H1 _]. unfold bind at 1, catch at 1.
  destruct (query_row (latest (r_key req)) w1) as [[e|r] wq] eqn:E.
  { intros Hr. left. apply query_row_inl in E.
    destruct (is_no_rows e); injection Hr as _ <-; congruence. }
  apply query_row_inr in E as (Hl & H2 & _). unfold bind at 1.
  set (m := catch _ _).
  assert (Hm : exists ar w3, m wq = (inr ar, w3) /\ store w3 = store wq).
  { subst m. unfold catch. destruct (query_row _ wq) as [[e2|ar] w3] eqn:E; eexists _, _.
    - split; [done|]. by apply query_row_inl in E.
    - split; [done|]. apply query_row_inr in E. tauto. }
  destruct Hm as (ar & w3 & -> & H3). clear m.
  unfold bind at 1. destruct (Publish _ _ _ w3) as [[e|[]] w4] eqn:Ep.
  { intros [= _ <-]. left. apply publish_call_inl in Ep. congruence. }
  intros Hr. right. exists r, w3, w4. split; [congruence|]. split; [|split; [congruence|done]].
  unfold bind in Hr. destruct (query_row (fun d => first_where _ _) w4) as [[?|?] w5] eqn:E;
    injection Hr as _ <-.
  - symmetry. by apply query_row_inl in E.
  - apply query_row_inr in E. symmetry. tauto.
Qed.

(** Every active revision has been announced on the outbox. *)
Definition active_announced (d : Database) : Prop :=
  forall r, r ∈ bindings d -> cb_is_active r = true ->
    exists o, o ∈ outbox d /\ announces "binding" (cb_key r) (cb_revision r) o = true.

Definition after {A} (m : Db A) (w : World Database) : Database := store (m w).2.
Inductive binding_call : (World Database -> Database) -> Prop :=
| call_publish req b : binding_call (after (Publish MaxBacklog req b))
| call_create req : binding_call (after (Create req))
| call_suspend req : binding_call (after (Suspend req))
| call_resume req : binding_call (after (Resume req))
| call_deprecate req : binding_call (after (Deprecate req))
| call_retire req from : binding_call (after (Retire req from))
| call_republish req : binding_call (after (Republish MaxBacklog req)).
(** One call, its statements failing as they may. *)
Definition binding_step (d d' : Database) : Prop :=
  exists call w, binding_call call /\ store w = d /\ call w = d'.

Record bindings_grow (d d' : Database) : Prop := {
  bg_ok : binding_ok (bindings d');
  bg_announced : active_announced d';
  bg_rows : rows_kept binding_kept (bindings d) (bindings d');
  bg_ledger : extends (ledger d) (ledger d');
  bg_changes : extends (changes d) (changes d');
  bg_outbox : extends (outbox d) (outbox d') }.

Lemma bindings_grow_refl d :
  binding_ok (bindings d) -> active_announced d -> bindings_grow d d.
Proof. intros. split; auto. apply rows_kept_refl, binding_kept_refl. Qed.
Lemma bindings_grow_trans a b c : bindings_grow a b -> bindings_grow b c -> bindings_grow a c.
Proof.
  intros [] []. split; try done; try by eapply extends_trans.
  eapply rows_kept_trans; [apply binding_kept_trans|done..].
Qed.

Lemma announces_app d d' key rev :
  (exists o, o ∈ outbox d /\ announces "binding" key rev o = true) ->
  extends (outbox d) (outbox d') ->
  exists o, o ∈ outbox d' /\ announces "binding" key rev o = true.
Proof. intros (o & Ho & Ha) [l ->]. exists o. split; [|done]. apply elem_of_app. by left. Qed.

Lemma announced_grow d d' key op actor dec topic rev :
  announced d d' key op actor dec topic rev ->
  extends (changes d) (changes d') /\ extends (outbox d) (outbox d') /\
  exists o, o ∈ outbox d' /\ announces "binding" key rev o = true.
Proof.
  intros (c & o & Hc & Ho & _ & _ & _ & _ & _ & _ & _ & Hk & Ha & Hr & _).
  rewrite Hc, Ho. split; [done|]. split; [done|]. exists o. split.
  - apply elem_of_app. right. by constructor.
  - unfold announces. by rewrite Hk, Ha, Hr, !str_eqb_refl, Z.eqb_refl.
Qed.

Lemma grow_published req b t d d' :
  active_announced d -> published req b t d d' -> bindings_grow d d'.
Proof.
  intros Han [Hb Hl Ha Hok]. apply announced_grow in Ha as (Hc & Ho & Hnew).
  split; [done| | |rewrite Hl; auto|done|done].
  - intros r Hin Hact. rewrite Hb in Hin. apply elem_of_app in Hin as [Hin|Hin].
    + apply elem_of_update_where in Hin as [(r0 & _ & _ & ->)|[Hin _]]; [done|].
      eapply announces_app; eauto.
    + by apply list_elem_of_singleton in Hin as ->.
  - rewrite Hb. eapply rows_kept_trans; [apply binding_kept_trans|apply kept_deactivate|].
    apply rows_kept_app, binding_kept_refl.
Qed.

Lemma grow_Publish req b w u w' :
  binding_ok (bindings (store w)) -> active_announced (store w) ->
  Publish MaxBacklog req b w = (inr u, w') -> bindings_grow (store w) (store w').
Proof.
  intros Hok Han Hr. apply publish_call_inr in Hr as (_ & w0 & _ & [(w1 & _ & ->)|[_ Hp]]); [| |done].
  - by apply bindings_grow_refl.
  - by eapply grow_published.
Qed.

Lemma grow_Create req w u w' :
  binding_ok (bindings (store w)) -> active_announced (store w) ->
  Create req w = (inr u, w') -> bindings_grow (store w) (store w').
Proof.
  intros Hok Han Hr. apply Create_inr in Hr as [Hb Hc Hl Ho (c & Hch & _)].
  split; rewrite ?Hb, ?Hl, ?Ho, ?Hch; auto.
  - apply ok_insert; try done.
    + simpl. apply CanonicalScope_idem.
    + unfold ScopeHash. simpl. by rewrite CanonicalScope_idem.
  - intros r Hin Hact. rewrite Hb in Hin. rewrite Ho.
    apply elem_of_app in Hin as [Hin|Hin]; [auto|]. by apply list_elem_of_singleton in Hin as ->.
  - apply rows_kept_app, binding_kept_refl.
Qed.

Lemma grow_transition req from to operation topic w u w' :
  binding_ok (bindings (store w)) -> active_announced (store w) ->
  transition req from to operation topic w = (inr u, w') -> bindings_grow (store w) (store w').
Proof.
  intros Hok Han Hr. apply transition_inr in Hr as [Hv Hb Hany Hl Ha Hok']; [|done].
  apply announced_grow in Ha as (Hc & Ho & Hnew). split; try done.
  - intros r Hin Hact. rewrite Hb in Hin.
    apply elem_of_update_where in Hin as [(r0 & _ & Hq & ->)|[Hin _]]; [|eapply announces_app; eauto].
    unfold movable, active_of in Hq. b2p. destruct Hq as [[[Hk _] Hv'] _]. simpl. by rewrite Hk, Hv'.
  - rewrite Hb. by apply kept_move.
  - by rewrite Hl.
Qed.

Lemma grow_call call w :
  binding_call call -> binding_ok (bindings (store w)) -> active_announced (store w) ->
  bindings_grow (store w) (call w).
Proof.
  intros Hcall Hok Han. pose proof (bindings_grow_refl _ Hok Han) as Hrefl.
  destruct Hcall as [req b|req|req|req|req|req from|req]; unfold after.
  - destruct (Publish _ _ _ w) as [[e|u] w'] eqn:E; simpl;
      [apply publish_call_inl in E; by rewrite E|by eapply grow_Publish].
  - destruct (Create _ w) as [[e|u] w'] eqn:E; simpl;
      [apply Create_inl in E; by rewrite E|by eapply grow_Create].
  - unfold Suspend. destruct (transition _ _ _ _ _ w) as [[e|u] w'] eqn:E; simpl;
      [apply transition_inl in E; by rewrite E|by eapply grow_transition].
  - unfold Resume. destruct (transition _ _ _ _ _ w) as [[e|u] w'] eqn:E; simpl;
      [apply transition_inl in E; by rewrite E|by eapply grow_transition].
  - unfold Deprecate. destruct (transition _ _ _ _ _ w) as [[e|u] w'] eqn:E; simpl;
      [apply transition_inl in E; by rewrite E|by eapply grow_transition].
  - unfold Retire. destruct (transition _ _ _ _ _ w) as [[e|u] w'] eqn:E; simpl;
      [apply transition_inl in E; by rewrite E|by eapply grow_transition].
  - destruct (Republish _ _ w) as [x w'] eqn:E; simpl.
    destruct (Republish_after _ _ _ _ E) as [->|(r & w0 & w1 & H0 & <- & _ & Hp)]; [done|].
    rewrite <- H0 in *. by eapply grow_Publish.
Qed.
End History.

(** ** Properties *)

Module BindingStoreProps.
Section Statements.
Context `{Normalizer} (MaxBacklog : Z).

(** C1. Through any sequence of publishes, creates, lifecycle transitions and
    republishes, whatever statements fail and wherever: a key has one row per
    revision and one active revision, which is its latest; a slot (scope hash,
    environment, priority) has one live binding and no two live bindings of
    different keys in one environment and priority have overlapping scopes;
    scopes are stored canonical under their own hash; every active revision
    has its event on the outbox; no row is deleted, its content never changes,
    inactive rows never change and states move along the matrix; the ledger,
    the audit trail and the outbox only grow. *)
Theorem binding_store_history d d' :
  binding_ok (bindings d) -> active_announced d ->
  star (binding_step MaxBacklog) d d' -> bindings_grow d d'.
Proof.
  intros Hok Han Hst. apply (star_invariant (binding_step MaxBacklog) (bindings_grow d) d d');
    [|by apply bindings_grow_refl|done].
  intros a b Ha (call & w & Hc & <- & <-). eapply bindings_grow_trans; [done|].
  destruct Ha. by eapply grow_call.
Qed.

(** C2. A publish that succeeds has passed the gate and either replays a ledger
    row of its idempotency key and fingerprint whose revision is still active,
    changing nothing, or deactivates the revision it names and adds exactly one
    revision, the next one, active and PUBLISHED, which is then the key's only
    active row, with one audit row, one event and its ledger row; a publish
    that fails changes nothing. *)
Theorem Publish_effect req b w x w'
    (Hok : binding_ok (bindings (store w)))
    (Hrun : Publish MaxBacklog req b w = (x, w')) :
  match x with
  | inl _ => store w' = store w
  | inr _ =>
      PublishGate (ApprovalRef req) (ChangeReason req) (Actor req) = None /\
      ((store w' = store w /\ IdempotencyKey req <> "" /\
        exists l a, first_where (fun l => pi_key l =s IdempotencyKey req) (ledger (store w)) = Some l /\
          pi_fingerprint l = requestFingerprint req b /\ a ∈ bindings (store w) /\
          key_rev a = (pi_binding_key l, pi_revision l) /\ cb_is_active a = true) \/
       (published req b (clock w) (store w) (store w') /\
        forall r, r ∈ bindings (store w') -> cb_key r = BindingKey req -> cb_is_active r = true ->
          r = published_row req b (clock w) (store w)))
  end.
Proof.
  destruct x as [e|u]; [by eapply publish_call_inl|].
  apply publish_call_inr in Hrun as (Hg & w0 & H0 & Hrun); [|done]. split; [done|].
  destruct Hrun as [(w1 & Hl & Hs)|[_ Hp]].
  - left. split; [done|]. apply ledger_replay_inr in Hl as (_ & _ & Hi & l & Hf & Hfp & a & Ha & Hk & Hv & Hact).
    rewrite H0 in *. split; [done|]. exists l, a. unfold key_rev. by rewrite Hk, Hv.
  - right. split; [done|]. destruct Hp as [Hb _ _ Hok']. intros r Hin Hk Hact.
    eapply (indexed_elem cb_is_active cb_key); [apply Hok'|done| |done|done|exact Hk].
    rewrite Hb. apply elem_of_app. right. by constructor.
Qed.

(** Compare-and-swap: once a publish has moved a key on from a revision,
    every later publish of that key naming that revision is refused or is a
    replay that changes nothing. *)
Theorem Publish_cas req b w u w1 req2 b2 w2 u2 w3
    (Hok : binding_ok (bindings (store w)))
    (Hrun : Publish MaxBacklog req b w = (inr u, w1)) (Hnew : store w1 <> store w)
    (Hsame : store w2 = store w1) (Hkey : BindingKey req2 = BindingKey req)
    (Hrev : Revision req2 = Revision req)
    (Hrun2 : Publish MaxBacklog req2 b2 w2 = (inr u2, w3)) :
  store w3 = store w2.
Proof.
  apply publish_call_inr in Hrun as (_ & w0 & _ & [(? & _ & ?)|[_ [Hb _ _ Hok1]]]); [done| |done].
  rewrite <- Hsame in *.
  apply publish_call_inr in Hrun2 as (_ & w4 & _ & [(? & _ & ?)|[_ [Hb2 _ _ Hok2]]]); [done| |done].
  exfalso. set (r := published_row req b (clock w) (store w)) in *.
  set (r2 := published_row req2 b2 (clock w2) (store w2)) in *.
  assert (Hin : r ∈ bindings (store w2)) by (rewrite Hb; apply elem_of_app; right; by constructor).
  apply list_elem_of_lookup_1 in Hin as [i Hi].
  assert (Hlen : (i < length (bindings (store w2)))%nat) by by eapply lookup_lt_Some.
  assert (Heq : i = length (bindings (store w2))); [|lia].
  apply (lookup_update_where (supersedable (BindingKey req2) (Revision req2))
    (set_cb_is_active false)) in Hi.
  eapply (bk_key _ Hok2); [rewrite Hb2; by apply lookup_app_l_Some| |done|done|].
  - by rewrite Hb2, lookup_app_r, length_update_where, Nat.sub_diag by (by rewrite length_update_where).
  - transitivity (key_rev r); [by destruct (supersedable _ _ r)|].
    unfold key_rev, r, r2. simpl. by rewrite Hkey, Hrev.
Qed.
(** A lifecycle transition that succeeds was legal, moved exactly one row,
    the key's active revision in the state and at the revision named, to the
    next revision in the target state, announced it once, and left the table
    well formed; a transition that fails changes nothing. *)
Theorem transition_effect req from to operation topic w x w'
    (Hok : binding_ok (bindings (store w)))
    (Hrun : transition req from to operation topic w = (x, w')) :
  match x with
  | inl _ => store w' = store w
  | inr _ =>
      ValidateTransition from to = true /\
      (exists i r, bindings (store w) !! i = Some r /\ cb_key r = t_key req /\
         cb_is_active r = true /\ cb_revision r = ExpectedRev req /\ cb_state r = from /\
         bindings (store w') = <[i := moved to r]> (bindings (store w))) /\
      ledger (store w') = ledger (store w) /\
      announced (store w) (store w') (t_key req) operation (t_actor req) "" topic
        (ExpectedRev req + 1) /\
      binding_ok (bindings (store w'))
  end.
Proof.
  destruct x as [e|u]; [by eapply transition_inl|].
  apply transition_inr in Hrun as [Hv Hb Hany Hl Ha Hok']; [|done].
  split; [done|]. split; [|done].
  apply any_where_spec in Hany as (r & Hin & Hm). pose proof Hin as Hin0.
  apply list_elem_of_lookup_1 in Hin as [i Hi]. exists i, r. split; [done|].
  assert (Hm' := Hm). unfold movable, active_of in Hm'. b2p. destruct Hm' as [[[Hk Hact] Hrev] Hst].
  apply bool_decide_eq_true in Hst. do 4 (split; [done|]). rewrite Hb. apply list_eq. intros j.
  destruct (decide (i = j)) as [<-|Hij].
  - rewrite list_lookup_insert_eq by by eapply lookup_lt_Some.
    by rewrite (lookup_update_where _ _ _ _ _ Hi), Hm.
  - rewrite list_lookup_insert_ne by done. destruct (bindings (store w) !! j) as [r'|] eqn:Hj.
    + rewrite (lookup_update_where _ _ _ _ _ Hj). destruct (movable _ _ _ r') eqn:Hm'; [|done].
      exfalso. apply Hij. eapply (bk_active _ Hok); eauto;
        unfold movable, active_of in Hm'; b2p; destruct Hm' as [[[Hk' Hact'] _] _]; congruence.
    + apply lookup_ge_None. rewrite length_update_where. by apply lookup_ge_None.
Qed.

(** Retrying: after a publish under an idempotency key, a call under the
    same key that finds no failing statement and no backlog changes nothing,
    and succeeds if its fingerprint is the first call's and is refused with
    BINDING_IDEMPOTENCY_KEY_REUSE otherwise. *)
Theorem Publish_retry req b w u w1 req2 b2 t
    (Hok : binding_ok (bindings (store w)))
    (Hrun : Publish MaxBacklog req b w = (inr u, w1))
    (Hidem : IdempotencyKey req <> "") (Hkey : IdempotencyKey req2 = IdempotencyKey req)
    (Hgate : PublishGate (ApprovalRef req2) (ChangeReason req2) (Actor req2) = None)
    (Hroom : MaxBacklog <= 0 \/ backlog (store w1) <= MaxBacklog) :
  Publish MaxBacklog req2 b2 (MkWorld (store w1) [] t) =
  (if requestFingerprint req b =s requestFingerprint req2 b2 then inr tt
   else inl (errS ErrIdemKeyReuse ReasonIdemKeyReuse), MkWorld (store w1) [] t).
Proof.
  assert (Hled : exists l, first_where (fun l => pi_key l =s IdempotencyKey req) (ledger (store w1)) = Some l /\
    pi_fingerprint l = requestFingerprint req b /\
    any_where (fun r => (cb_key r =s pi_binding_key l) && (cb_revision r =? pi_revision l) &&
      cb_is_active r) (bindings (store w1)) = true).
  { apply publish_call_inr in Hrun as (_ & w0 & H0 & [(w2 & Hl & Hs)|[(w2 & Hl) [Hb Hlg _ _]]]); [| |done].
    - apply ledger_replay_inr in Hl as (_ & _ & _ & l & Hf & Hfp & a & Ha & Hk & Hv & Hact).
      rewrite Hs. rewrite H0 in *. exists l. split; [done|]. split; [done|].
      apply any_where_spec. exists a. split; [done|]. by rewrite Hk, Hv, Hact, str_eqb_refl, Z.eqb_refl.
    - apply ledger_replay_inr in Hl as (_ & _ & [Hl|Hl]); [done|]. rewrite H0 in Hl.
      rewrite Hlg, Hb. unfold ledger_rows. apply String.eqb_neq in Hidem. rewrite Hidem.
      exists (MkLedgerRow (IdempotencyKey req) (BindingKey req) (Revision req + 1) (requestFingerprint req b)).
      split; [|split; [done|]].
      + rewrite first_where_app, Hl. simpl. by rewrite str_eqb_refl.
      + apply any_where_spec. exists (published_row req b (clock w) (store w)).
        split; [apply elem_of_app; right; by constructor|]. simpl. by rewrite str_eqb_refl, Z.eqb_refl. }
  destruct Hled as (l & Hf & Hfp & Hact). unfold Publish. rewrite Hgate.
  assert (Hbg : backlog_gate MaxBacklog (MkWorld (store w1) [] t) = (inr tt, MkWorld (store w1) [] t)).
  { unfold backlog_gate. run_ok. destruct (Z.gtb_spec MaxBacklog 0); [|done]. run_ok.
    destruct (Z.gtb_spec (backlog (store w1)) MaxBacklog); [lia|done]. }
  unfold bind at 1. rewrite Hbg. apply String.eqb_neq in Hidem. unfold ledger_replay.
  rewrite Hkey, Hidem. run_ok. rewrite Hf. run_ok. rewrite Hfp.
  destruct (requestFingerprint req b =s requestFingerprint req2 b2); cbn [negb]; run_ok; [|done].
  rewrite Hact. by run_ok.
Qed.
End Statements.
(** *** A run: create, publish, suspend, and a retry *)

#[local] Instance plain_normalizer : Normalizer := { nfc := fun s => s; nfc_idem := fun _ => eq_refl }.

Definition bs_seed : Database :=
  with_next_id 10 (with_snapshots [MkSnapshotRow 3 2 1 "c1" "" "" "" [] 0 9 RegPublished]
    (with_providers [MkProviderRow 2 "p" "t" "e" "o" "w" RegPublished 1 1 None]
      (with_capabilities [MkCapabilityRow 1 "cap" 1 1 "t" (JObj []) RegPublished] empty_db))).
Definition bs_target : Target := MkTarget 1 2 3 "default".
Definition bs_scope : Scope := MkScope ["t1"] [] ["eu"] [].
Definition bs_create : CreateReq :=
  MkCreateReq "k" "production" bs_target bs_scope 5 "t1" "alice" "tr".
Definition bs_publish : PublishReq :=
  MkPublishReq "k" 1 bs_scope 5 "production" "APP-1" "first" "T-1" "t1" "alice" "tr" "idem-1".
Definition bs_again : PublishReq :=
  MkPublishReq "k" 1 bs_scope 5 "production" "APP-2" "second" "T-2" "t1" "bob" "tr" "".
Definition bs_move : TransitionReq := MkTransitionReq "k" 2 "t1" "alice" "tr" "stop".
Definition bs_w0 : World Database := MkWorld bs_seed [] 100.
Definition bs_w1 : World Database := Eval vm_compute in (Create bs_create bs_w0).2.
Definition bs_w2 : World Database := Eval vm_compute in (Publish 1000 bs_publish bs_target bs_w1).2.
Definition bs_w3 : World Database := Eval vm_compute in (Suspend bs_move bs_w2).2.
Lemma bs_run1 : Create bs_create bs_w0 = (inr tt, bs_w1).
Proof. vm_compute. reflexivity. Qed.
Lemma bs_run2 : Publish 1000 bs_publish bs_target bs_w1 = (inr tt, bs_w2).
Proof. vm_compute. reflexivity. Qed.
Lemma bs_run3 : Suspend bs_move bs_w2 = (inr tt, bs_w3).
Proof. vm_compute. reflexivity. Qed.

Lemma binding_ok_nil : binding_ok [].
Proof.
  split; [intros i j r r' Hi; discriminate Hi..| | |].
  - by intros r r' ?%elem_of_nil.
  - by intros r r' ?%elem_of_nil.
  - by intros r ?%elem_of_nil.
Qed.
Lemma bs_seed_ok : binding_ok (bindings bs_seed) /\ active_announced bs_seed.
Proof. split; [apply binding_ok_nil|]. by intros r ?%elem_of_nil. Qed.
Lemma bs_w1_ok : binding_ok (bindings (store bs_w1)) /\ active_announced (store bs_w1).
Proof.
  destruct bs_seed_ok as [Hok Han]. destruct (grow_Create _ bs_w0 _ _ Hok Han bs_run1). done.
Qed.
Lemma bs_w2_ok : binding_ok (bindings (store bs_w2)) /\ active_announced (store bs_w2).
Proof.
  destruct bs_w1_ok as [Hok Han]. destruct (grow_Publish _ _ _ _ _ _ Hok Han bs_run2). done.
Qed.

Lemma binding_store_history_witness :
  map (fun r => (cb_revision r, cb_state r, cb_is_active r)) (bindings (store bs_w3)) =
    [(1, BindDraft, false); (3, BindSuspended, true)] /\
  bindings_grow bs_seed (store bs_w3).
Proof.
  split; [vm_compute; reflexivity|]. destruct bs_seed_ok as [Hok Han].
  apply (binding_store_history 1000 bs_seed (store bs_w3) Hok Han).
  apply (star_next _ _ (store bs_w2)); [apply (star_next _ _ (store bs_w1)); [apply star_one|]|].
  - exists (after (Create bs_create)), bs_w0. split; [constructor|].
    split; [reflexivity|]. unfold after. by rewrite bs_run1.
  - exists (after (Publish 1000 bs_publish bs_target)), bs_w1. split; [constructor|].
    split; [reflexivity|]. unfold after. by rewrite bs_run2.
  - exists (after (Suspend bs_move)), bs_w2. split; [constructor|].
    split; [reflexivity|]. unfold after. by rewrite bs_run3.
Defined.

Lemma Publish_effect_witness :
  published bs_publish bs_target 100 (store bs_w1) (store bs_w2).
Proof.
  destruct (Publish_effect 1000 bs_publish bs_target bs_w1 (inr tt) bs_w2 (proj1 bs_w1_ok) bs_run2)
    as [_ [[H _]|[H _]]]; [|exact H].
  exfalso. apply (f_equal (fun d => length (bindings d))) in H. vm_compute in H. discriminate.
Defined.

Lemma Publish_cas_witness :
  (Publish 1000 bs_again bs_target bs_w2).1 = inl (errS ErrRevisionConflict ReasonRevisionConflict) /\
  store (Publish 1000 bs_publish bs_target bs_w2).2 = store bs_w2.
Proof.
  split; [vm_compute; reflexivity|].
  assert (Hrun : Publish 1000 bs_publish bs_target bs_w2 = (inr tt, bs_w2)) by (vm_compute; reflexivity).
  rewrite Hrun.
  apply (Publish_cas 1000 bs_publish bs_target bs_w1 tt bs_w2 bs_publish bs_target bs_w2 tt bs_w2
    (proj1 bs_w1_ok) bs_run2); [|reflexivity..|exact Hrun].
  intros H. apply (f_equal (fun d => length (bindings d))) in H. vm_compute in H. discriminate.
Defined.

Lemma transition_effect_witness :
  announced (store bs_w2) (store bs_w3) "k" "SUSPEND" "alice" "" "binding.suspended" 3.
Proof.
  apply (transition_effect bs_move BindPublished BindSuspended "SUSPEND" "binding.suspended"
    bs_w2 (inr tt) bs_w3 (proj1 bs_w2_ok) bs_run3).
Defined.

Lemma Publish_retry_witness :
  Publish 1000 bs_publish bs_target (MkWorld (store bs_w2) [] 200) =
  (inr tt, MkWorld (store bs_w2) [] 200).
Proof.
  rewrite (Publish_retry 1000 bs_publish bs_target bs_w1 tt bs_w2 bs_publish bs_target 200);
    [by rewrite str_eqb_refl|apply (proj1 bs_w1_ok)|apply bs_run2|discriminate|done|done|].
  right. vm_compute. discriminate.
Defined.

End BindingStoreProps.
