(* ===== verification/Resolver.v ===== *)
(** * Resolver: requests, digests and fingerprints (src/internal/resolver/domain.go)

    The request and its validation, the canonical form and the two digests
    computed from it, and the plan data.  A constraints object is a finite map
    from keys to decoded JSON values.  The theorems: validation accepts
    exactly the requests of the contract; the request digest identifies the
    request up to the order of its requirements; the fingerprint does not
    depend on the order in which requirements or revisions are listed. *)

From S2P Require Import Prelude GoStd GoJson Sql Schema.

Definition CodeInvalidRequirement := "INVALID_REQUIREMENT".
Definition CodeCallerNotAllowed := "CALLER_NOT_ALLOWED".
Definition CodeCapabilityNotFound := "CAPABILITY_NOT_FOUND".
Definition CodeIdempotencyConflict := "IDEMPOTENCY_CONFLICT".
Definition CodeAmbiguousBinding := "AMBIGUOUS_BINDING".
Definition CodeNoCompatibleProvider := "NO_COMPATIBLE_PROVIDER".
Definition CodeSnapshotExpired := "PROVIDER_SNAPSHOT_EXPIRED".
Definition CodeRateLimited := "RATE_LIMITED".
Definition CodeResolverUnavailable := "RESOLVER_UNAVAILABLE".
Definition CodePlanNotFound := "PLAN_NOT_FOUND".

Definition ReasonCapabilityMatch := "CAPABILITY_MATCH".
Definition ReasonRegionMatch := "REGION_MATCH".
Definition ReasonDataClassMatch := "DATA_CLASS_MATCH".
Definition ReasonPolicyDenied := "POLICY_DENIED".
Definition ReasonRegionMismatch := "REGION_MISMATCH".
Definition ReasonDataClassMismatch := "DATA_CLASS_MISMATCH".
Definition ReasonProfileUnavailable := "PROFILE_UNAVAILABLE".
Definition ReasonConstraintMismatch := "CONSTRAINT_MISMATCH".

(** resErr; a detail is a requirement id with its reason codes *)
Definition resErr (code : string) (status : Z) (details : list (string * list string)) : err :=
  EHttp code status details.

Definition ValidatePlanTransition (from to : PlanStatus) : bool :=
  (from =d PlanResolved) && ((to =d PlanExpired) || (to =d PlanRevoked)).

(** ** Requests *)

Abbreviation Object := (gmap string json).

Record Requirement : Type := MkRequirement {
  RequirementID : string;
  CapabilityID : string;
  CapabilityMajorVersion : Z;
  ResourceType : string;
  Constraints : Object;
}.
Record Options : Type := MkOptions {
  MaxPlanTTLSeconds : Z;
  IncludeExplanations : bool;
}.
Record Request : Type := MkRequest {
  ContractVersion : string;
  TaskRef : string;
  Requirements : list Requirement;
  ReqOptions : Options;
  Extensions : Object;
}.

Definition MaxRequirements : Z := 20.
Definition MaxRequirementKeys : Z := 16.
Definition MaxRequestBytes : Z := 256 * 1024.

Definition forbiddenPattern : Regex.re :=
  Regex.alts (map Regex.fold_word
    ["credential"; "secret"; "password"; "api_key"; "prompt"; "system_message"; "user_message"]).
Definition allowedConstraintKeys : list string :=
  ["region"; "data_classification_max"; "streaming_required"; "idempotency_required";
   "risk_level_max"].
Definition allowedResourceTypes : list string :=
  ["MODEL_PROVIDER"; "CONTEXT_PROVIDER"; "TOOL_PROVIDER"].

Definition Rank := list (string * Z).
Definition dataClassRank : Rank :=
  [("PUBLIC", 1); ("INTERNAL", 2); ("CONFIDENTIAL", 3); ("RESTRICTED", 4)].
Definition riskRank : Rank := [("LOW", 1); ("MEDIUM", 2); ("HIGH", 3)].
Definition known (rank : Rank) (v : string) : bool := str_mem v (map fst rank).
(** [rank[v]]: 0 when absent *)
Definition rankOf (rank : Rank) (v : string) : Z :=
  match List.find (fun kv => kv.1 =s v) rank with Some kv => kv.2 | None => 0 end.

(** [s, _ := v.(string)] *)
Definition as_string (v : json) : string := match v with JStr s => s | _ => "" end.
Definition strConstraint (m : Object) (key : string) : string :=
  match m !! key with Some v => as_string v | None => "" end.

Definition invalid : err := resErr CodeInvalidRequirement 400 [].

(** One entry of the constraints loop. *)
Definition constraint_ok (kv : string * json) : bool :=
  str_mem kv.1 allowedConstraintKeys &&
  match kv.2 with JStr _ | JBool _ => true | _ => false end.

Definition validateConstraintSemantics (r : Requirement) : option err :=
  match Constraints r !! "data_classification_max" with
  | Some v =>
      if known dataClassRank (as_string v) then
        match Constraints r !! "risk_level_max" with
        | Some v' => if known riskRank (as_string v') then None else Some invalid
        | None => None
        end
      else Some invalid
  | None =>
      match Constraints r !! "risk_level_max" with
      | Some v' => if known riskRank (as_string v') then None else Some invalid
      | None => None
      end
  end.

Fixpoint validate_requirements (seen : list string) (rs : list Requirement) : option err :=
  match rs with
  | [] => None
  | r :: rs' =>
      if RequirementID r =s "" then Some invalid
      else if str_mem (RequirementID r) seen then Some invalid
      else if CapabilityID r =s "" then Some invalid
      else if CapabilityMajorVersion r <? 1 then Some invalid
      else if negb (str_mem (ResourceType r) allowedResourceTypes) then Some invalid
      else if Z.of_nat (size (Constraints r)) >? MaxRequirementKeys then Some invalid
      else if negb (forallb constraint_ok (map_to_list (Constraints r))) then Some invalid
      else match validateConstraintSemantics r with
           | Some e => Some e
           | None => validate_requirements (RequirementID r :: seen) rs'
           end
  end.

Definition ValidateRequest (req : Request) : option err :=
  if negb (ContractVersion req =s "1.0") then Some invalid
  else if TaskRef req =s "" then Some invalid
  else if (Z.of_nat (length (Requirements req)) =? 0) ||
          (Z.of_nat (length (Requirements req)) >? MaxRequirements) then Some invalid
  else validate_requirements [] (Requirements req).

Definition CheckForbiddenFields (raw : string) : option err :=
  if Regex.match_string forbiddenPattern raw then Some invalid else None.

(** ** The canonical form *)

(** [fmt.Sprintf("%v", v)] of a constraint that is neither a string nor a
    bool: validated requests have none. *)
Class Printer : Type := { sprint_v : json -> string }.

Record normalizedReqs : Type := MkNormalizedReqs {
  n_id : string; n_capability : string; n_major : Z; n_type : string;
  n_constraints : gmap string string }.
Record normalized : Type := MkNormalized {
  n_contract : string; n_task : string; n_requirements : list normalizedReqs; n_options : Options }.

Section Canonical.
Context `{Printer}.

Definition constraint_text (v : json) : string :=
  match v with
  | JStr s => s
  | JBool b => if b then "true" else "false"
  | _ => sprint_v v
  end.
Definition normalize_requirement (r : Requirement) : normalizedReqs :=
  MkNormalizedReqs (RequirementID r) (CapabilityID r) (CapabilityMajorVersion r) (ResourceType r)
    (constraint_text <$> Constraints r).

(** The [byID] map: the last requirement of an id. *)
Definition by_id (rs : list Requirement) : gmap string Requirement :=
  fold_left (fun m r => <[RequirementID r := r]> m) rs ∅.
Definition sorted_ids (rs : list Requirement) : list string :=
  sort_strings (map RequirementID rs).
(** The requirements in the order of their sorted ids. *)
Definition ordered (rs : list Requirement) : list Requirement :=
  omap (fun id => by_id rs !! id) (sorted_ids rs).

Definition Normalize (req : Request) : normalized :=
  MkNormalized (ContractVersion req) (TaskRef req)
    (map normalize_requirement (ordered (Requirements req))) (ReqOptions req).

(** A map prints its keys sorted. *)
Definition key_le {V} (a b : string * V) : Prop := String.le a.1 b.1.
#[export] Instance key_le_dec {V} : RelDecision (key_le (V := V)).
Proof. unfold key_le. intros a b. apply _. Defined.
Definition map_json (m : gmap string string) : json :=
  JObj (map (fun kv => (kv.1, JStr kv.2)) (merge_sort key_le (map_to_list m))).
Definition req_json (r : normalizedReqs) : json :=
  JObj [("requirement_id", JStr (n_id r)); ("capability_id", JStr (n_capability r));
        ("capability_major_version", JNum (dec (n_major r))); ("resource_type", JStr (n_type r));
        ("constraints", map_json (n_constraints r))].
Definition options_json (o : Options) : json :=
  JObj [("max_plan_ttl_seconds", JNum (dec (MaxPlanTTLSeconds o)));
        ("include_explanations", JBool (IncludeExplanations o))].
(** A nil slice prints as null. *)
Definition jarr (l : list json) : json := match l with [] => JNull | _ => JArr l end.
Definition normalized_json (n : normalized) : json :=
  JObj [("contract_version", JStr (n_contract n)); ("task_ref", JStr (n_task n));
        ("requirements", jarr (map req_json (n_requirements n)));
        ("options", options_json (n_options n))].

Definition RequestDigest (req : Request) : string :=
  sha256_digest (marshal (normalized_json (Normalize req))).

(** ** The fingerprint *)

Record RevisionInput : Type := MkRevisionInput {
  ri_capability : string; ri_capability_revision : Z; ri_binding : string;
  ri_binding_revision : Z; ri_provider : string; ri_snapshot_version : Z; ri_profile : string }.
Definition revision_json (i : RevisionInput) : json :=
  JObj [("capability_key", JStr (ri_capability i));
        ("capability_revision", JNum (dec (ri_capability_revision i)));
        ("binding_key", JStr (ri_binding i));
        ("binding_revision", JNum (dec (ri_binding_revision i)));
        ("provider_key", JStr (ri_provider i));
        ("snapshot_version", JNum (dec (ri_snapshot_version i)));
        ("profile_or_action", JStr (ri_profile i))].

(** The comparison of sort.Slice. *)
Definition revision_less (a b : RevisionInput) : bool :=
  if negb (ri_capability a =s ri_capability b) then String.ltb (ri_capability a) (ri_capability b)
  else if negb (ri_binding a =s ri_binding b) then String.ltb (ri_binding a) (ri_binding b)
  else String.ltb (ri_profile a) (ri_profile b).
Definition revision_le (a b : RevisionInput) : Prop := revision_less b a = false.
#[export] Instance revision_le_dec : RelDecision revision_le.
Proof. unfold revision_le. intros a b. apply _. Defined.

Definition newline : string := String "010" "".
Definition fingerprint_text (req : Request) (items : list RevisionInput) (policySetID : string)
    (policyVersion : Z) : string :=
  marshal (normalized_json (Normalize req)) +:+ newline +:+
  marshal (jarr (map revision_json (merge_sort revision_le items))) +:+ newline +:+
  "|policy=" +:+ policySetID +:+ "@" +:+ dec policyVersion.
Definition Fingerprint (req : Request) (items : list RevisionInput) (policySetID : string)
    (policyVersion : Z) : string :=
  sha256_digest (fingerprint_text req items policySetID policyVersion).

End Canonical.

(** ** Plans *)

Record PlanItem : Type := MkPlanItem {
  it_requirement : string;
  it_capability : string;
  it_major : Z;
  it_capability_revision : Z;
  it_binding : string;
  it_binding_revision : Z;
  it_provider : string;
  it_provider_type : string;
  it_endpoint : string;
  it_snapshot_version : Z;
  it_contract : string;
  it_profile : string;
  it_reasons : list string;
}.
(** Instants are numbers: the RFC 3339 texts are not modelled.  [p_status] is
    [None] for the empty string of a plan not yet stored. *)
Record Plan : Type := MkPlan {
  p_id : string;
  p_caller : string;
  p_tenant : string;
  p_task : string;
  p_status : option PlanStatus;
  p_fingerprint : string;
  p_digest : string;
  p_idem : string;
  p_policy_set : string;
  p_policy_version : Z;
  p_trace : string;
  p_created_at : Z;
  p_expires_at : Z;
  p_items : list PlanItem;
}.

(** ** Validation: lemmas *)

(** A requirement of the contract. *)
Record requirement_ok (r : Requirement) : Prop := {
  rk_id : RequirementID r <> "";
  rk_capability : CapabilityID r <> "";
  rk_major : 1 <= CapabilityMajorVersion r;
  rk_type : ResourceType r ∈ allowedResourceTypes;
  rk_constraints : forall k v, Constraints r !! k = Some v ->
    k ∈ allowedConstraintKeys /\ ((exists s, v = JStr s) \/ exists b, v = JBool b);
  rk_class : forall v, Constraints r !! "data_classification_max" = Some v ->
    exists s, v = JStr s /\ s ∈ ["PUBLIC"; "INTERNAL"; "CONFIDENTIAL"; "RESTRICTED"];
  rk_risk : forall v, Constraints r !! "risk_level_max" = Some v ->
    exists s, v = JStr s /\ s ∈ ["LOW"; "MEDIUM"; "HIGH"];
}.

Lemma constraint_ok_spec k v :
  constraint_ok (k, v) = true <->
  k ∈ allowedConstraintKeys /\ ((exists s, v = JStr s) \/ exists b, v = JBool b).
Proof.
  unfold constraint_ok. rewrite andb_true_iff, str_mem_spec. simpl.
  assert ((match v with JStr _ | JBool _ => true | _ => false end) = true <->
          (exists s, v = JStr s) \/ exists b, v = JBool b) as ->; [|done].
  split.
  - destruct v; try discriminate; eauto.
  - by intros [[s ->]|[b ->]].
Qed.

(** An object with declared keys only has at most five. *)
Lemma declared_size (m : Object) :
  (forall k v, m !! k = Some v -> k ∈ allowedConstraintKeys) ->
  Z.of_nat (size m) <= 5.
Proof.
  intros Hm. rewrite <- (size_dom (D := gset string) m).
  assert (dom m ⊆@{gset string} list_to_set allowedConstraintKeys) as Hsub.
  { intros k Hk. apply elem_of_dom in Hk as [v Hv]. apply elem_of_list_to_set. eauto. }
  apply subseteq_size in Hsub.
  assert (size (list_to_set allowedConstraintKeys : gset string) = 5%nat) as Hs by by vm_compute.
  rewrite Hs in Hsub. lia.
Qed.

Lemma known_string rank v :
  known rank "" = false ->
  known rank (as_string v) = true <-> exists s, v = JStr s /\ s ∈ map fst rank.
Proof.
  intros H0. unfold known in *. split.
  - intros Hk. destruct v; simpl in Hk; try congruence. apply str_mem_spec in Hk. eauto.
  - intros (s & -> & Hs). by apply str_mem_spec.
Qed.

Lemma validateConstraintSemantics_spec r :
  validateConstraintSemantics r = None <->
  (forall v, Constraints r !! "data_classification_max" = Some v ->
    exists s, v = JStr s /\ s ∈ ["PUBLIC"; "INTERNAL"; "CONFIDENTIAL"; "RESTRICTED"]) /\
  (forall v, Constraints r !! "risk_level_max" = Some v ->
    exists s, v = JStr s /\ s ∈ ["LOW"; "MEDIUM"; "HIGH"]).
Proof.
  unfold validateConstraintSemantics.
  change ["PUBLIC"; "INTERNAL"; "CONFIDENTIAL"; "RESTRICTED"] with (map fst dataClassRank).
  change ["LOW"; "MEDIUM"; "HIGH"] with (map fst riskRank).
  assert (Hone : forall (rank : Rank) (o : option json), known rank "" = false ->
    (forall v, o = Some v -> exists s, v = JStr s /\ s ∈ map fst rank) <->
    match o with Some v => known rank (as_string v) = true | None => True end).
  { intros rank [v|] H0; [|split; [done|discriminate]]. rewrite (known_string _ _ H0).
    split; [auto|]. by intros ? ? [= <-]. }
  rewrite !Hone by reflexivity.
  destruct (Constraints r !! "data_classification_max") as [v|];
    [destruct (known dataClassRank (as_string v))|];
    (destruct (Constraints r !! "risk_level_max") as [v'|];
     [destruct (known riskRank (as_string v'))|]); intuition congruence.
Qed.

Lemma forallb_map_to_list (p : string * json -> bool) (m : Object) :
  forallb p (map_to_list m) = true <-> forall k v, m !! k = Some v -> p (k, v) = true.
Proof.
  rewrite forallb_forall. split.
  - intros Hp k v Hk. apply Hp, list_elem_of_In, elem_of_map_to_list. done.
  - intros Hp [k v] Hin. apply list_elem_of_In, elem_of_map_to_list in Hin. auto.
Qed.

Lemma validate_requirements_spec seen rs :
  validate_requirements seen rs = None <->
  Forall requirement_ok rs /\ NoDup (map RequirementID rs) /\
  forall r, r ∈ rs -> RequirementID r ∉ seen.
Proof.
  revert seen. induction rs as [|r rs IH]; intros seen; cbn [validate_requirements map].
  { split; [|done]. intros _. split; [done|]. split; [constructor|]. by intros r ?%elem_of_nil. }
  rewrite Forall_cons, NoDup_cons. split.
  - destruct (String.eqb_spec (RequirementID r) ""); [discriminate|].
    destruct (str_mem (RequirementID r) seen) eqn:Es; [discriminate|].
    destruct (String.eqb_spec (CapabilityID r) ""); [discriminate|].
    destruct (Z.ltb_spec (CapabilityMajorVersion r) 1); [discriminate|].
    destruct (str_mem (ResourceType r) _) eqn:Et; [|discriminate].
    destruct (_ >? _); [discriminate|]. destruct (forallb _ _) eqn:Ec; [|discriminate].
    destruct (validateConstraintSemantics r) eqn:Ev; [discriminate|]. simpl. intros Hr.
    apply IH in Hr as (Hf & Hnd & Hseen).
    rewrite forallb_map_to_list in Ec. apply validateConstraintSemantics_spec in Ev as [? ?].
    apply str_mem_spec in Et. apply str_mem_false in Es.
    split; [split; [|done]|split; [split; [|done]|]].
    + split; auto. intros k v Hk. by apply constraint_ok_spec, Ec.
    + intros Hin. apply list_elem_of_fmap in Hin as (r' & Heq & Hin').
      apply Hseen in Hin'. apply Hin'. rewrite <- Heq. by constructor.
    + intros r' Hr'. apply elem_of_cons in Hr' as [->|Hr']; [done|].
      intros Hin. apply (Hseen _ Hr'). by constructor.
  - intros [[[Hid Hcap Hmaj Ht Hcs Hcl Hrk] Hf] [[Hni Hnd] Hseen]].
    destruct (String.eqb_spec (RequirementID r) ""); [done|].
    rewrite (proj2 (str_mem_false _ _)) by (apply Hseen; by constructor).
    destruct (String.eqb_spec (CapabilityID r) ""); [done|].
    destruct (Z.ltb_spec (CapabilityMajorVersion r) 1); [lia|].
    rewrite (proj2 (str_mem_spec _ _) Ht). simpl.
    assert (Z.of_nat (size (Constraints r)) <= 5) by (apply declared_size; intros k v Hk; apply (Hcs k v Hk)).
    destruct (Z.gtb_spec (Z.of_nat (size (Constraints r))) MaxRequirementKeys);
      [unfold MaxRequirementKeys in *; lia|].
    rewrite (proj2 (forallb_map_to_list _ _)) by (intros k v Hk; by apply constraint_ok_spec, Hcs).
    simpl. rewrite (proj2 (validateConstraintSemantics_spec r)) by done.
    apply IH. split; [done|]. split; [done|]. intros r' Hr'.
    apply not_elem_of_cons. split.
    + intros Heq. apply Hni. rewrite <- Heq. apply list_elem_of_fmap. eauto.
    + apply Hseen. by constructor.
Qed.

Lemma semantics_error r e : validateConstraintSemantics r = Some e -> e = invalid.
Proof.
  unfold validateConstraintSemantics.
  destruct (Constraints r !! "data_classification_max") as [v|];
    [destruct (known dataClassRank (as_string v))|];
    (destruct (Constraints r !! "risk_level_max") as [v'|];
     [destruct (known riskRank (as_string v'))|]); congruence.
Qed.

Lemma validate_requirements_error seen rs e :
  validate_requirements seen rs = Some e -> e = invalid.
Proof.
  revert seen. induction rs as [|r rs IH]; intros seen; cbn [validate_requirements]; [discriminate|].
  repeat (case_match; [congruence|]).
  destruct (validateConstraintSemantics r) as [e'|] eqn:Ev; [|apply IH].
  intros [= <-]. by eapply semantics_error.
Qed.

(** ** The canonical order: lemmas *)

Lemma by_id_go rs (m : gmap string Requirement) id :
  NoDup (map RequirementID rs) ->
  fold_left (fun m r => <[RequirementID r := r]> m) rs m !! id =
  match List.find (fun r => RequirementID r =s id) rs with
  | Some r => Some r
  | None => m !! id
  end.
Proof.
  revert m. induction rs as [|r rs IH]; intros m Hnd; [done|]. simpl in *.
  apply NoDup_cons in Hnd as [Hni Hnd]. rewrite IH by done.
  destruct (String.eqb_spec (RequirementID r) id) as [<-|Hne].
  - assert (List.find (fun r' => RequirementID r' =s RequirementID r) rs = None) as ->.
    { destruct (List.find _ rs) as [r'|] eqn:E; [|done]. apply find_some in E as [Hin Heq].
      exfalso. apply Hni. apply String.eqb_eq in Heq. rewrite <- Heq.
      apply list_elem_of_fmap. exists r'. split; [done|]. by apply list_elem_of_In. }
    by rewrite lookup_insert_eq.
  - by rewrite lookup_insert_ne.
Qed.

Lemma by_id_spec rs id r :
  NoDup (map RequirementID rs) ->
  by_id rs !! id = Some r <-> r ∈ rs /\ RequirementID r = id.
Proof.
  intros Hnd. unfold by_id. rewrite by_id_go, lookup_empty by done. split.
  - destruct (List.find _ rs) as [r'|] eqn:E; [|discriminate]. intros [= ->].
    apply find_some in E as [Hin Heq]. apply String.eqb_eq in Heq.
    split; [by apply list_elem_of_In|done].
  - intros [Hin <-]. destruct (List.find _ rs) as [r'|] eqn:E.
    + apply find_some in E as [Hin' Heq]. apply String.eqb_eq in Heq. f_equal.
      apply list_elem_of_In in Hin'. induction rs as [|x rs IH]; [by apply elem_of_nil in Hin|].
      simpl in Hnd. apply NoDup_cons in Hnd as [Hni Hnd].
      assert (Hx : forall y, y ∈ rs -> RequirementID y <> RequirementID x).
      { intros y Hy Hyx. apply Hni. rewrite <- Hyx. apply list_elem_of_fmap. eauto. }
      apply elem_of_cons in Hin as [->|Hin], Hin' as [->|Hin']; auto.
      * by apply Hx in Hin'.
      * apply Hx in Hin. congruence.
    + apply list_elem_of_In in Hin. eapply find_none in E; [|done]. by rewrite str_eqb_refl in E.
Qed.

(** Two lists with the same requirements have the same canonical order. *)
Lemma ordered_perm rs rs' :
  NoDup (map RequirementID rs) -> rs ≡ₚ rs' -> ordered rs = ordered rs'.
Proof.
  intros Hnd Hp. unfold ordered, sorted_ids.
  assert (Hids : map RequirementID rs ≡ₚ map RequirementID rs') by by rewrite Hp.
  rewrite (sort_strings_unique _ _ Hids). assert (by_id rs = by_id rs') as ->; [|done].
  apply map_eq. intros id. apply option_eq. intros r.
  rewrite !by_id_spec; [by rewrite Hp|by rewrite <- Hids|done].
Qed.

Lemma ordered_ids rs :
  NoDup (map RequirementID rs) -> map RequirementID (ordered rs) = sorted_ids rs.
Proof.
  intros Hnd. unfold ordered.
  assert (Hin : forall id, id ∈ sorted_ids rs -> exists r, by_id rs !! id = Some r /\ RequirementID r = id).
  { intros id Hid. unfold sorted_ids in Hid. apply elem_of_sort_strings, list_elem_of_fmap in Hid
      as (r & -> & Hr). exists r. split; [by apply by_id_spec|done]. }
  revert Hin. generalize (sorted_ids rs) as ids. induction ids as [|id ids IH]; intros Hin; [done|].
  simpl. destruct (Hin id) as (r & -> & Hr); [by constructor|]. simpl. rewrite Hr. f_equal.
  apply IH. intros id' Hid'. apply Hin. by constructor.
Qed.

Lemma elem_of_ordered rs r : NoDup (map RequirementID rs) -> r ∈ ordered rs <-> r ∈ rs.
Proof.
  intros Hnd. unfold ordered. rewrite list_elem_of_omap. split.
  - intros (id & _ & Hr). by apply by_id_spec in Hr as [? _].
  - intros Hr. exists (RequirementID r). split; [|by apply by_id_spec].
    unfold sorted_ids. apply elem_of_sort_strings, list_elem_of_fmap. eauto.
Qed.

Lemma ordered_permutation rs : NoDup (map RequirementID rs) -> ordered rs ≡ₚ rs.
Proof.
  intros Hnd. apply NoDup_Permutation.
  - apply (NoDup_fmap_1 RequirementID). change (NoDup (map RequirementID (ordered rs))).
    rewrite ordered_ids by done. unfold sorted_ids. by rewrite sort_strings_perm.
  - by apply (NoDup_fmap_1 RequirementID).
  - intros r. by apply elem_of_ordered.
Qed.

(** ** Encodings: lemmas *)

Lemma jarr_inj l1 l2 : jarr l1 = jarr l2 -> l1 = l2.
Proof. destruct l1, l2; simpl; congruence. Qed.

Lemma map_json_inj m1 m2 : map_json m1 = map_json m2 -> m1 = m2.
Proof.
  unfold map_json. intros [= Heq]. apply map_to_list_inj.
  rewrite <- (merge_sort_Permutation key_le (map_to_list m1)),
    <- (merge_sort_Permutation key_le (map_to_list m2)).
  enough (merge_sort key_le (map_to_list m1) = merge_sort key_le (map_to_list m2)) as -> by done.
  revert Heq. generalize (merge_sort key_le (map_to_list m1)), (merge_sort key_le (map_to_list m2)).
  induction l as [|[k v] l IH]; intros [|[k' v'] l'] Heq; try discriminate; [done|].
  simpl in Heq. injection Heq as -> -> Heq. f_equal. auto.
Qed.

Lemma map_inj_list {A B} (f : A -> B) l1 l2 :
  (forall a b, f a = f b -> a = b) -> map f l1 = map f l2 -> l1 = l2.
Proof.
  intros Hf. revert l2. induction l1 as [|a l1 IH]; intros [|b l2] Heq; try discriminate; [done|].
  injection Heq as Hab Heq. f_equal; auto.
Qed.

Lemma req_json_inj r1 r2 : req_json r1 = req_json r2 -> r1 = r2.
Proof.
  destruct r1, r2. unfold req_json. simpl. intros Heq.
  injection Heq as -> -> Hd -> Hm. apply dec_inj in Hd as ->.
  f_equal. apply map_json_inj. unfold map_json. congruence.
Qed.

Lemma normalized_json_inj n1 n2 : normalized_json n1 = normalized_json n2 -> n1 = n2.
Proof.
  destruct n1 as [c1 t1 r1 [x1 i1]], n2 as [c2 t2 r2 [x2 i2]]. unfold normalized_json, options_json.
  cbn [n_contract n_task n_requirements n_options MaxPlanTTLSeconds IncludeExplanations].
  intros Heq. injection Heq as -> -> Hr Hd ->. apply dec_inj in Hd as ->.
  apply jarr_inj in Hr. apply map_inj_list in Hr as ->; [done|apply req_json_inj].
Qed.

Lemma revision_json_inj i1 i2 : revision_json i1 = revision_json i2 -> i1 = i2.
Proof.
  destruct i1, i2. unfold revision_json. simpl. intros Heq.
  injection Heq as -> H1 -> H2 -> H3 ->. by apply dec_inj in H1 as ->, H2 as ->, H3 as ->.
Qed.

(** The last separator: what follows it does not contain it. *)
Lemma split_last (c : ascii) s1 s2 d1 d2 :
  c ∉ d1 -> c ∉ d2 -> s1 ++ c :: d1 = s2 ++ c :: d2 -> s1 = s2 /\ d1 = d2.
Proof.
  intros H1 H2. revert s2. induction s1 as [|x s1 IH]; intros [|y s2] Heq; simpl in Heq.
  - by injection Heq as ->.
  - injection Heq as -> ->. exfalso. apply H1, elem_of_app. right. constructor.
  - injection Heq as -> <-. exfalso. apply H2, elem_of_app. right. constructor.
  - injection Heq as -> Heq. by apply IH in Heq as [-> ->].
Qed.

Lemma at_not_in_dec z : ("@"%char : ascii) ∉ bytes_of_string (dec z).
Proof.
  intros Hin. pose proof (dec_num z) as Hd. rewrite forallb_forall in Hd.
  apply list_elem_of_In, Hd in Hin. discriminate.
Qed.

Lemma bytes_inj s1 s2 : bytes_of_string s1 = bytes_of_string s2 -> s1 = s2.
Proof.
  intros Heq. apply (f_equal String.string_of_list_ascii) in Heq. unfold bytes_of_string in Heq.
  by rewrite !String.string_of_list_ascii_of_string in Heq.
Qed.

Lemma bytes_marshal j : bytes_of_string (marshal j) = enc j.
Proof. apply Sha256.bytes_of_list. Qed.

Lemma encoder_prefix j1 j2 s1 s2 :
  well_formed j1 = true -> well_formed j2 = true ->
  marshal j1 +:+ newline +:+ s1 = marshal j2 +:+ newline +:+ s2 -> j1 = j2 /\ s1 = s2.
Proof.
  intros H1 H2 Heq. apply (f_equal bytes_of_string) in Heq.
  rewrite !Sha256.bytes_of_app, !bytes_marshal in Heq.
  apply enc_decodable in Heq as [-> Heq]; [|done..]. split; [done|].
  simpl in Heq. injection Heq as Heq. by apply bytes_inj.
Qed.

(** The revisions printed for a decision. *)
Definition revisions_json (items : list RevisionInput) : json :=
  jarr (map revision_json (merge_sort revision_le items)).

Lemma fingerprint_text_inj `{Printer} r1 r2 i1 i2 s1 s2 v1 v2 :
  well_formed (normalized_json (Normalize r1)) = true ->
  well_formed (normalized_json (Normalize r2)) = true ->
  well_formed (revisions_json i1) = true -> well_formed (revisions_json i2) = true ->
  fingerprint_text r1 i1 s1 v1 = fingerprint_text r2 i2 s2 v2 ->
  Normalize r1 = Normalize r2 /\ merge_sort revision_le i1 = merge_sort revision_le i2 /\
  s1 = s2 /\ v1 = v2.
Proof.
  intros Hn1 Hn2 Hi1 Hi2 Heq. unfold fingerprint_text in Heq.
  apply encoder_prefix in Heq as [Hn Heq]; [|done..]. apply normalized_json_inj in Hn.
  apply encoder_prefix in Heq as [Hi Heq]; [|done..].
  apply jarr_inj, map_inj_list in Hi; [|apply revision_json_inj]. split; [done|]. split; [done|].
  apply append_inj_l in Heq. apply (f_equal bytes_of_string) in Heq.
  rewrite !Sha256.bytes_of_app in Heq. simpl in Heq.
  apply split_last in Heq as [Hs Hv]; [|apply at_not_in_dec..].
  split; [by apply bytes_inj|]. by apply dec_inj, bytes_inj.
Qed.

(** ** The order of revisions: lemmas *)

Lemma ltb_leb a b : String.ltb a b = negb (String.leb b a).
Proof.
  unfold String.ltb, String.leb. rewrite (String.compare_antisym b a).
  by destruct (String.compare a b).
Qed.
Lemma ltb_false a b : String.ltb a b = false <-> String.le b a.
Proof.
  rewrite ltb_leb, negb_false_iff. unfold String.le. by rewrite Is_true_true.
Qed.

Definition lex (x y : string) (P : Prop) : Prop := (x <> y /\ String.le x y) \/ (x = y /\ P).
Lemma lex_trans x y z P Q R : lex x y P -> lex y z Q -> (P -> Q -> R) -> lex x z R.
Proof.
  intros [[Hn H1]|[-> HP]] [[Hn' H2]|[-> HQ]] HR; unfold lex.
  - left. split; [|by etrans]. intros ->. apply Hn. by apply (anti_symm String.le).
  - by left.
  - by left.
  - right. auto.
Qed.
Lemma lex_total x y P Q : P \/ Q -> lex x y P \/ lex y x Q.
Proof.
  intros HPQ. unfold lex. destruct (decide (x = y)) as [->|Hne]; [tauto|].
  destruct (total String.le x y); auto.
Qed.
Lemma lex_antisym x y P Q : lex x y P -> lex y x Q -> x = y /\ P /\ Q.
Proof.
  intros [[Hn H1]|[-> HP]] [[Hn' H2]|[Hyx HQ]]; [|congruence..|done].
  exfalso. apply Hn. by apply (anti_symm String.le).
Qed.

Lemma revision_le_lex a b :
  revision_le a b <->
  lex (ri_capability a) (ri_capability b)
    (lex (ri_binding a) (ri_binding b) (String.le (ri_profile a) (ri_profile b))).
Proof.
  unfold revision_le, revision_less, lex.
  destruct (String.eqb_spec (ri_capability b) (ri_capability a)) as [Hc|Hc]; simpl;
    [destruct (String.eqb_spec (ri_binding b) (ri_binding a)) as [Hb|Hb]; simpl|];
    rewrite ltb_false; intuition congruence.
Qed.

#[export] Instance revision_le_trans : Transitive revision_le.
Proof.
  intros a b c. rewrite !revision_le_lex. intros H1 H2. eapply lex_trans; [done..|].
  intros H3 H4. eapply lex_trans; [done..|]. intros. by etrans.
Qed.
#[export] Instance revision_le_total : Total revision_le.
Proof.
  intros a b. rewrite !revision_le_lex. apply lex_total, lex_total. apply (total String.le).
Qed.

(** What the comparison looks at. *)
Definition revision_key (i : RevisionInput) : string * string * string :=
  (ri_capability i, ri_binding i, ri_profile i).

Lemma revisions_sorted_unique l1 l2 :
  l1 ≡ₚ l2 ->
  (forall a b, a ∈ l1 -> b ∈ l1 -> revision_key a = revision_key b -> a = b) ->
  merge_sort revision_le l1 = merge_sort revision_le l2.
Proof.
  intros Hp Hties.
  assert (Hs : forall l, StronglySorted revision_le (merge_sort revision_le l))
    by (intros; apply Sorted_StronglySorted; [apply _|apply (Sorted_merge_sort revision_le)]).
  apply (StronglySorted_unique_strong revision_le); [|apply Hs..|by rewrite !merge_sort_Permutation].
  intros a b Ha Hb Hab Hba. rewrite merge_sort_Permutation in Ha, Hb. rewrite <- Hp in Hb.
  apply Hties; [done..|]. apply revision_le_lex in Hab, Hba.
  destruct (lex_antisym _ _ _ _ Hab Hba) as (H1 & Hab' & Hba').
  destruct (lex_antisym _ _ _ _ Hab' Hba') as (H2 & Hab'' & Hba'').
  unfold revision_key. rewrite H1, H2. f_equal. by apply (anti_symm String.le).
Qed.

Lemma valid_nodup req :
  ValidateRequest req = None ->
  ContractVersion req = "1.0" /\ NoDup (map RequirementID (Requirements req)).
Proof.
  unfold ValidateRequest. destruct (String.eqb_spec (ContractVersion req) "1.0"); [|discriminate]. simpl. destruct (TaskRef req =s ""); [discriminate|].
  destruct (_ || _); [discriminate|]. intros Hv. apply validate_requirements_spec in Hv. tauto.
Qed.


(** ** Properties *)

Module ResolverProps.

(** C39. ValidateRequest accepts exactly the requests of the contract (version
    1.0, a task, 1 to 20 requirements with distinct non-empty ids, each of a
    known type with declared string or bool constraints whose classification
    and risk level are known); every refusal is INVALID_REQUIREMENT with
    status 400. *)
Theorem ValidateRequest_contract req :
  (ValidateRequest req = None <->
   ContractVersion req = "1.0" /\ TaskRef req <> "" /\
   1 <= Z.of_nat (length (Requirements req)) <= 20 /\
   NoDup (map RequirementID (Requirements req)) /\ Forall requirement_ok (Requirements req)) /\
  (forall e, ValidateRequest req = Some e -> e = EHttp "INVALID_REQUIREMENT" 400 []).
Proof.
  unfold ValidateRequest. destruct (String.eqb_spec (ContractVersion req) "1.0"); simpl;
    [|split; [split; [discriminate|by intros [? _]]|by intros e [= <-]]].
  destruct (String.eqb_spec (TaskRef req) "");
    [split; [split; [discriminate|by intros (_ & ? & _)]|by intros e' [= <-]]|].
  unfold MaxRequirements.
  destruct (Z.eqb_spec (Z.of_nat (length (Requirements req))) 0);
    [split; [split; [discriminate|intros (_ & _ & ? & _); lia]|by intros e' [= <-]]|].
  destruct (Z.gtb_spec (Z.of_nat (length (Requirements req))) 20); cbn [orb];
    [split; [split; [discriminate|intros (_ & _ & ? & _); lia]|by intros e' [= <-]]|].
  split; [|intros e'; apply validate_requirements_error].
  rewrite validate_requirements_spec. split.
  - intros (Hf & Hnd & _). do 2 (split; [done|]). split; [lia|]. done.
  - intros (_ & _ & _ & Hnd & Hf). split; [done|]. split; [done|]. intros r _. apply not_elem_of_nil.
Qed.

Section Statements.
Context `{Printer}.

Lemma normalized_perm rs1 rs2 :
  NoDup (map RequirementID rs1) -> NoDup (map RequirementID rs2) ->
  map normalize_requirement (ordered rs1) = map normalize_requirement (ordered rs2) <->
  map normalize_requirement rs1 ≡ₚ map normalize_requirement rs2.
Proof.
  intros H1 H2. split.
  - intros Heq. rewrite <- (ordered_permutation rs1 H1), <- (ordered_permutation rs2 H2).
    by rewrite Heq.
  - intros Hp.
    assert (Hid : forall rs, map RequirementID rs = map n_id (map normalize_requirement rs))
      by (intros; by rewrite map_map).
    assert (Hsort : forall rs, NoDup (map RequirementID rs) ->
      StronglySorted (fun a b => String.le (n_id a) (n_id b)) (map normalize_requirement (ordered rs))).
    { intros rs Hnd. pose proof (sort_strings_sorted (map RequirementID rs)) as Hs.
      change (sort_strings (map RequirementID rs)) with (sorted_ids rs) in Hs.
      rewrite <- ordered_ids in Hs by done. rewrite Hid in Hs.
      apply Sorted_StronglySorted in Hs; [|apply _]. revert Hs.
      generalize (map normalize_requirement (ordered rs)) as l.
      induction l as [|x l IH]; intros Hs; [constructor|]. simpl in Hs.
      apply StronglySorted_inv in Hs as [Hs Hx]. constructor; [auto|].
      exact (proj1 (List.Forall_map _ _ _) Hx). }
    apply (StronglySorted_unique_strong (fun a b => String.le (n_id a) (n_id b)));
      [|by apply Hsort..|].
    + intros a b Ha Hb Hab Hba.
      assert (Heq : n_id a = n_id b) by by apply (anti_symm String.le).
      rewrite ordered_permutation in Ha, Hb by done. rewrite <- Hp in Hb.
      rewrite Hid in H1. clear -Ha Hb Heq H1.
      revert Ha Hb H1. generalize (map normalize_requirement rs1) as l.
      induction l as [|x l IH]; intros Ha Hb Hnd; [by apply elem_of_nil in Ha|].
      simpl in Hnd. apply NoDup_cons in Hnd as [Hni Hnd].
      assert (Hx : forall y, y ∈ l -> n_id y <> n_id x).
      { intros y Hy Hyx. apply Hni. rewrite <- Hyx. apply list_elem_of_fmap. eauto. }
      apply elem_of_cons in Ha as [->|Ha], Hb as [->|Hb]; auto.
      * exfalso. by apply (Hx b).
      * exfalso. by apply (Hx a).
    + by rewrite !ordered_permutation.
Qed.

(** The request digest identifies a valid request: two have the same digest
    exactly when they ask for the same task with the same options and the same
    requirements in any order, a bool constraint standing for its text, unless
    SHA-256 collides on the two encodings.  Extensions do not enter. *)
Theorem RequestDigest_identifies r1 r2
    (Hv1 : ValidateRequest r1 = None) (Hv2 : ValidateRequest r2 = None)
    (Hu1 : well_formed (normalized_json (Normalize r1)) = true)
    (Hu2 : well_formed (normalized_json (Normalize r2)) = true)
    (Hash : sha256_hex (marshal (normalized_json (Normalize r1))) =
            sha256_hex (marshal (normalized_json (Normalize r2))) ->
            marshal (normalized_json (Normalize r1)) = marshal (normalized_json (Normalize r2))) :
  RequestDigest r1 = RequestDigest r2 <->
  TaskRef r1 = TaskRef r2 /\ ReqOptions r1 = ReqOptions r2 /\
  map normalize_requirement (Requirements r1) ≡ₚ map normalize_requirement (Requirements r2).
Proof.
  apply valid_nodup in Hv1 as [Hc1 Hv1], Hv2 as [Hc2 Hv2]. rewrite <- normalized_perm by done. unfold RequestDigest. split.
  - intros Heq. apply sha256_digest_inj, Hash, marshal_inj, normalized_json_inj in Heq; [|done..].
    by injection Heq as _ -> -> ->.
  - intros (Ht & Ho & Hn). unfold Normalize. by rewrite Hc1, Hc2, Ht, Ho, Hn.
Qed.

(** The fingerprint pins the whole decision basis: two decisions have the
    same fingerprint exactly when their canonical requests, their revision sets
    in canonical order, their policy set and its version agree, unless SHA-256
    collides; and listing the same revisions in another order does not change
    it, provided revisions that compare equal are the same. *)
Theorem Fingerprint_identifies r1 r2 i1 i2 s1 s2 v1 v2
    (Hn1 : well_formed (normalized_json (Normalize r1)) = true)
    (Hn2 : well_formed (normalized_json (Normalize r2)) = true)
    (Hi1 : well_formed (revisions_json i1) = true) (Hi2 : well_formed (revisions_json i2) = true)
    (Hash : sha256_hex (fingerprint_text r1 i1 s1 v1) = sha256_hex (fingerprint_text r2 i2 s2 v2) ->
            fingerprint_text r1 i1 s1 v1 = fingerprint_text r2 i2 s2 v2) :
  (Fingerprint r1 i1 s1 v1 = Fingerprint r2 i2 s2 v2 <->
   Normalize r1 = Normalize r2 /\ merge_sort revision_le i1 = merge_sort revision_le i2 /\
   s1 = s2 /\ v1 = v2) /\
  (i1 ≡ₚ i2 -> (forall a b, a ∈ i1 -> b ∈ i1 -> revision_key a = revision_key b -> a = b) ->
   Fingerprint r1 i1 s1 v1 = Fingerprint r1 i2 s1 v1).
Proof.
  split; [split|].
  - intros Heq. apply sha256_digest_inj, Hash in Heq. by apply fingerprint_text_inj.
  - intros (Hn & Hi & -> & ->). unfold Fingerprint, fingerprint_text. by rewrite Hn, Hi.
  - intros Hp Hties. unfold Fingerprint, fingerprint_text. by rewrite (revisions_sorted_unique _ _ Hp Hties).
Qed.
End Statements.

#[local] Instance plain_printer : Printer := { sprint_v := fun _ => "" }.
Definition rq_a : Requirement :=
  MkRequirement "a" "chat" 1 "MODEL_PROVIDER" {[ "region" := JStr "eu"; "streaming_required" := JBool true ]}.
Definition rq_b : Requirement := MkRequirement "b" "embed" 2 "MODEL_PROVIDER" ∅.
Definition rq_1 : Request := MkRequest "1.0" "t" [rq_a; rq_b] (MkOptions 60 false) ∅.
Definition rq_2 : Request := MkRequest "1.0" "t" [rq_b; rq_a] (MkOptions 60 false) {[ "x" := JNull ]}.
Definition rq_i1 : list RevisionInput :=
  [MkRevisionInput "chat" 1 "k1" 2 "p" 3 "d"; MkRevisionInput "embed" 1 "k2" 1 "p" 3 "d"].
Definition rq_i2 : list RevisionInput :=
  [MkRevisionInput "embed" 1 "k2" 1 "p" 3 "d"; MkRevisionInput "chat" 1 "k1" 2 "p" 3 "d"].

Lemma RequestDigest_identifies_witness : RequestDigest rq_1 = RequestDigest rq_2.
Proof.
  apply (RequestDigest_identifies rq_1 rq_2); [vm_compute; reflexivity..|].
  split; [done|]. split; [done|]. simpl. apply Permutation_swap.
Defined.

Lemma Fingerprint_identifies_witness : Fingerprint rq_1 rq_i1 "set" 4 = Fingerprint rq_2 rq_i2 "set" 4.
Proof.
  refine (proj2 (proj1 (Fingerprint_identifies rq_1 rq_2 rq_i1 rq_i2 "set" "set" 4 4 _ _ _ _ _)) _);
    [vm_compute; reflexivity..|intros _; vm_compute; reflexivity|].
  split; [vm_compute; reflexivity|]. split; [vm_compute; reflexivity|done].
Defined.

End ResolverProps.
