(* ===== verification/PlanStore.v ===== *)
(** * Resource plans: the store (src/internal/resolver/store.go)

    Idempotent creation of a plan with its items, audit row and event, reads,
    the expiry sweep and revocation, over resolver.resource_plan,
    resolver.resource_plan_item, saoaf.change_record and saoaf.outbox_event.
    [CreatePlan] reads the idempotency key outside the transaction that
    inserts; other callers may commit in between, so the two halves are
    definitions of their own and the history theorem lets every call of another
    caller fall between them. *)

From S2P Require Import Prelude GoStd GoJson GoTime Sql Schema Resolver.

Definition ErrNotFound : err := ETyped "resolver: plan not found" "".

(** *** Reads *)

Definition plan_of (r : PlanRow) (items : list PlanItem) : Plan :=
  MkPlan (pl_id r) (pl_caller r) (pl_tenant r) (pl_task r) (Some (pl_status r)) (pl_fingerprint r)
    (pl_digest r) "" (pl_policy_set r) (pl_policy_version r) "" (pl_created_at r)
    (pl_expires_at r) items.
(** The columns read back: provider type and endpoint are not stored. *)
Definition item_of (r : PlanItemRow) : PlanItem :=
  MkPlanItem (pt_requirement_id r) (pt_capability_key r) (pt_major r) (pt_capability_revision r)
    (pt_binding_key r) (pt_binding_revision r) (pt_provider_key r) "" "" (pt_snapshot_version r)
    (pt_contract r) (pt_profile r) (pt_reasons r).

Definition item_le (a b : PlanItemRow) : Prop :=
  String.le (pt_requirement_id a) (pt_requirement_id b).
#[export] Instance item_le_dec : RelDecision item_le.
Proof. unfold item_le. intros a b. apply _. Defined.

Definition items_of (planID : string) (d : Database) : list PlanItem :=
  map item_of (merge_sort item_le (rows_where (fun r => pt_plan_id r =s planID) (plan_items d))).
Definition items (planID : string) : Db (list PlanItem) :=
  let! rows := query (items_of planID) in
  connect ;! (* rows.Err() *)
  ret rows.

Definition with_key (caller key : string) (r : PlanRow) : bool :=
  (pl_caller r =s caller) && (pl_idem_key r =s key).
Definition byKey (caller key : string) : Db (option Plan) :=
  let! r := query (fun d => first_where (with_key caller key) (plans d)) in
  match r with
  | None => ret None
  | Some r => let! its := items (pl_id r) in ret (Some (plan_of r its))
  end.
Definition byId (id : string) : Db Plan :=
  let! r := query (fun d => first_where (fun r => pl_id r =s id) (plans d)) in
  match r with
  | None => throw ErrNotFound
  | Some r => let! its := items (pl_id r) in ret (plan_of r its)
  end.
Definition GetPlan (id : string) : Db Plan := connect ;! byId id.

(** *** Inserts with the constraints of 00006 *)

Definition plan_key (r : PlanRow) : string * string := (pl_caller r, pl_idem_key r).
Definition plan_check (d : Database) (row : PlanRow) : option sqlerr :=
  if negb (Regex.match_full digestPattern (pl_fingerprint row)) ||
     negb (Regex.match_full digestPattern (pl_digest row)) then Some CheckViolation
  else if any_where (fun r => pl_id r =s pl_id row) (plans d) then Some (Unique "resource_plan_pkey")
  else if any_where (with_key (pl_caller row) (pl_idem_key row)) (plans d)
  then Some (Unique "resource_plan_caller_ref_idempotency_key_key")
  else None.
Definition plan_row (p : Plan) : PlanRow :=
  MkPlanRow (p_id p) (p_caller p) (p_tenant p) (p_task p) PlanResolved (p_fingerprint p)
    (p_digest p) (p_idem p) (p_policy_set p) (p_policy_version p) (p_trace p) (p_created_at p)
    (p_expires_at p).
Definition insert_plan (p : Plan) : Db unit :=
  insert_row (fun d => match plan_check d (plan_row p) with
                       | Some e => inl e
                       | None => inr (with_plans (plans d ++ [plan_row p]) d)
                       end).

Definition item_row (planID : string) (i : PlanItem) : PlanItemRow :=
  MkPlanItemRow planID (it_requirement i) (it_capability i) (it_major i) (it_capability_revision i)
    (it_binding i) (it_binding_revision i) (it_provider i) (it_snapshot_version i) (it_contract i)
    (it_profile i) (it_reasons i).
Definition item_check (d : Database) (row : PlanItemRow) : option sqlerr :=
  if (pt_major row <? 1) || (pt_capability_revision row <? 1) || (pt_binding_revision row <? 1) ||
     (pt_snapshot_version row <? 1) then Some CheckViolation
  else if any_where (fun r => (pt_plan_id r =s pt_plan_id row) &&
                              (pt_requirement_id r =s pt_requirement_id row)) (plan_items d)
  then Some (Unique "resource_plan_item_plan_id_requirement_id_key")
  else if any_where (fun r => pl_id r =s pt_plan_id row) (plans d) then None else Some ForeignKey.
Definition insert_item (planID : string) (i : PlanItem) : Db unit :=
  insert_row (fun d => match item_check d (item_row planID i) with
                       | Some e => inl e
                       | None => inr (with_plan_items (plan_items d ++ [item_row planID i]) d)
                       end).

(** *** CreatePlan *)

Definition idem_conflict : err := resErr CodeIdempotencyConflict 409 [].

(** The items, the audit row and the event. *)
Definition plan_writes (t : Z) (p : Plan) : Db unit :=
  for_each (p_items p) (insert_item (p_id p)) ;!
  let! audit := insert_change t (p_tenant p) (p_caller p) (p_trace p) "plan" (p_id p) "RESOLVE" ""
    (JObj [("fingerprint", JStr (p_fingerprint p)); ("expires_at", JStr (GoTime.rfc3339_nano (p_expires_at p)))]) in
  insert_outbox t "plan.resolved"
    (JObj [("plan_id", JStr (p_id p)); ("fingerprint", JStr (p_fingerprint p));
           ("expires_at", JStr (GoTime.rfc3339_nano (p_expires_at p)))])
    audit ("plan:" +:+ p_id p) "plan" (p_id p) 1.

(** The transaction: [inl c] when the plan's INSERT violates the unique
    constraint [c] and the transaction is rolled back. *)
Definition plan_tx (p : Plan) : Db (string + unit) :=
  tx (let! clash := catch (insert_plan p ;! ret None)
        (fun e => match constraintOf e with Some c => ret (Some c) | None => throw e end) in
      match clash with
      | Some c => ret (Rollback (inl c))
      | None => let! t := now in plan_writes t p ;! ret (Commit (inr tt))
      end).

Definition stored (p : Plan) : Plan :=
  MkPlan (p_id p) (p_caller p) (p_tenant p) (p_task p) (Some PlanResolved) (p_fingerprint p)
    (p_digest p) (p_idem p) (p_policy_set p) (p_policy_version p) (p_trace p) (p_created_at p)
    (p_expires_at p) (p_items p).

(** From [conn.Begin] on: insert, or classify the clash. *)
Definition insert_or_replay (p : Plan) : Db (bool * Plan) :=
  let! r := plan_tx p in
  match r with
  | inr _ => ret (true, stored p)
  | inl c =>
      if negb (c =s "resource_plan_caller_ref_idempotency_key_key")
      then throw (resErr CodeResolverUnavailable 500 [])
      else
        let! existing := byKey (p_caller p) (p_idem p) in
        match existing with
        | Some e => if p_digest e =s p_digest p then ret (false, e) else throw idem_conflict
        | None => throw idem_conflict
        end
  end.

(** store.go: CreatePlan *)
Definition CreatePlan (p : Plan) : Db (bool * Plan) :=
  connect ;!
  let! existing := byKey (p_caller p) (p_idem p) in
  match existing with
  | Some e => if negb (p_digest e =s p_digest p) then throw idem_conflict else ret (false, e)
  | None => insert_or_replay p
  end.

(** *** Status *)

Definition sweepable (now : Z) (r : PlanRow) : bool :=
  (pl_status r =d PlanResolved) && (pl_expires_at r <? now).
Definition SweepExpired (now : Z) : Db Z :=
  connect ;!
  exec_n (fun d => (updated (sweepable now) (plans d),
    with_plans (update_where (sweepable now) (set_pl_status PlanExpired) (plans d)) d)).

Definition revocable (id : string) (r : PlanRow) : bool :=
  (pl_id r =s id) && (pl_status r =d PlanResolved).
Definition RevokePlan (id : string) : Db unit :=
  connect ;!
  let! n := exec_n (fun d => (updated (revocable id) (plans d),
    with_plans (update_where (revocable id) (set_pl_status PlanRevoked) (plans d)) d)) in
  guard (n =? 0) ErrNotFound.

(** ** The invariant of the plan tables *)

Definition item_key (r : PlanItemRow) : string * string := (pt_plan_id r, pt_requirement_id r).

Record plan_ok (d : Database) : Prop := {
  pk_id : indexed (fun _ => true) pl_id (plans d);
  pk_key : indexed (fun _ => true) plan_key (plans d);
  pk_item : indexed (fun _ => true) item_key (plan_items d);
  pk_owner : forall i, i ∈ plan_items d -> exists r, r ∈ plans d /\ pl_id r = pt_plan_id i;
  pk_event : forall r, r ∈ plans d ->
    exists o, o ∈ outbox d /\ announces "plan" (pl_id r) 1 o = true;
}.

(** A stored plan keeps everything but its status, which moves along the
    matrix. *)
Definition plan_kept (r r' : PlanRow) : Prop :=
  r' = set_pl_status (pl_status r') r /\
  (pl_status r' = pl_status r \/ ValidatePlanTransition (pl_status r) (pl_status r') = true).

Lemma plan_kept_refl r : plan_kept r r.
Proof. split; [by destruct r|by left]. Qed.
Lemma plan_kept_trans a b c : plan_kept a b -> plan_kept b c -> plan_kept a c.
Proof.
  intros [Hb Hsb] [Hc Hsc]. split.
  - rewrite Hc, Hb. by destruct a.
  - destruct Hsb as [Hsb|Hsb]; [by rewrite Hsb in Hsc|]. destruct Hsc as [->|Hsc]; [by right|].
    exfalso. unfold ValidatePlanTransition in *. b2p. destruct Hsb as [_ Hsb], Hsc as [Hsc _].
    apply bool_decide_eq_true in Hsc. rewrite Hsc in Hsb. by destruct Hsb.
Qed.
Lemma plan_kept_key r r' :
  plan_kept r r' -> pl_id r' = pl_id r /\ plan_key r' = plan_key r /\ pl_digest r' = pl_digest r.
Proof. by intros [-> _]. Qed.

Record plans_grow (d d' : Database) : Prop := {
  pg_ok : plan_ok d';
  pg_rows : rows_kept plan_kept (plans d) (plans d');
  pg_items : forall r, r ∈ plans d -> items_of (pl_id r) d' = items_of (pl_id r) d;
  pg_item_rows : extends (plan_items d) (plan_items d');
  pg_changes : extends (changes d) (changes d');
  pg_outbox : extends (outbox d) (outbox d') }.

Lemma plans_grow_refl d : plan_ok d -> plans_grow d d.
Proof. intros. split; auto. apply rows_kept_refl, plan_kept_refl. Qed.

Lemma rows_kept_elem {A} (R : A -> A -> Prop) t t' r :
  rows_kept R t t' -> r ∈ t -> exists r', r' ∈ t' /\ R r r'.
Proof.
  intros Hk Hin. apply list_elem_of_lookup_1 in Hin as [i Hi].
  destruct (Hk i r Hi) as (r' & Hr' & HR). exists r'. split; [by eapply list_elem_of_lookup_2|done].
Qed.

Lemma plans_grow_trans a b c : plans_grow a b -> plans_grow b c -> plans_grow a c.
Proof.
  intros [_ Hr1 Hi1 Hx1 Hc1 Ho1] [Hok Hr2 Hi2 Hx2 Hc2 Ho2]. split; try done; try by eapply extends_trans.
  - eapply rows_kept_trans; [apply plan_kept_trans|done..].
  - intros r Hin. rewrite <- Hi1 by done.
    destruct (rows_kept_elem _ _ _ _ Hr1 Hin) as (r' & Hin' & Hk).
    apply plan_kept_key in Hk as (<- & _). auto.
Qed.

(** *** Reads *)

Lemma items_inr id w l w' :
  items id w = (inr l, w') -> l = items_of id (store w) /\ store w' = store w /\ clock w' = clock w.
Proof.
  unfold items. intros Hr. inv_run. split; [done|]. split; congruence.
Qed.

Lemma byKey_inr caller key w o w' :
  byKey caller key w = (inr o, w') ->
  store w' = store w /\ clock w' = clock w /\
  match o with
  | Some e => exists r, first_where (with_key caller key) (plans (store w)) = Some r /\
                e = plan_of r (items_of (pl_id r) (store w))
  | None => first_where (with_key caller key) (plans (store w)) = None
  end.
Proof.
  unfold byKey. intros Hr. apply bind_inr in Hr as (r & w1 & Hq & Hr).
  apply query_inr in Hq as (-> & H1 & H1c). destruct (first_where _ _) as [r|] eqn:E.
  - apply bind_inr in Hr as (its & w2 & Hi & Hr). apply items_inr in Hi as (-> & H2 & H2c).
    apply ret_inr in Hr as [-> ->]. split; [congruence|]. split; [congruence|].
    exists r. by rewrite H1.
  - apply ret_inr in Hr as [-> ->]. done.
Qed.

Lemma byKey_store caller key w : store (byKey caller key w).2 = store w.
Proof.
  assert (keeps (fun d => d = store w) (byKey caller key)) as Hk.
  { unfold byKey, items. keeps_walk. }
  by apply Hk.
Qed.

Lemma with_key_spec caller key r : with_key caller key r = true <-> plan_key r = (caller, key).
Proof. unfold with_key, plan_key. b2p. split; [by intros [-> ->]|by intros [= -> ->]]. Qed.

(** *** The transaction *)

Lemma insert_items_inr id its w u w' :
  for_each its (insert_item id) w = (inr u, w') ->
  clock w' = clock w /\
  store w' = with_plan_items (plan_items (store w) ++ map (item_row id) its) (store w) /\
  (indexed (fun _ => true) item_key (plan_items (store w)) ->
   indexed (fun _ => true) item_key (plan_items (store w'))).
Proof.
  revert w. induction its as [|i its IH]; intros w; cbn [for_each map].
  - intros Hr. apply ret_inr in Hr as [_ ->]. rewrite app_nil_r. by destruct (store w).
  - intros Hr. apply bind_inr in Hr as (u1 & w1 & Hi & Hr). apply IH in Hr as (Hc & Hs & Hx).
    unfold insert_item in Hi. apply insert_row_inr in Hi as [Hi Hc1].
    destruct (item_check _ _) eqn:Ec; [discriminate|]. injection Hi as Hi.
    split; [congruence|]. split.
    + rewrite Hs, <- Hi. simpl. by rewrite <- app_assoc.
    + intros Hix. apply Hx. rewrite <- Hi. simpl.
      apply (indexed_snoc (pair_eqb String.eqb String.eqb)); [apply pair_eqb_spec; intros; b2p; done|done|].
      unfold item_check in Ec. destruct (_ || _ || _ || _); [discriminate|].
      destruct (any_where _ (plan_items (store w))) eqn:E; [discriminate|]. exact E.
Qed.

(** The database after a plan was created. *)
Record plan_created (p : Plan) (t : Z) (d d' : Database) : Prop := {
  pc_check : plan_check d (plan_row p) = None;
  pc_plans : plans d' = plans d ++ [plan_row p];
  pc_items : plan_items d' = plan_items d ++ map (item_row (p_id p)) (p_items p);
  pc_unique : indexed (fun _ => true) item_key (plan_items d) ->
              indexed (fun _ => true) item_key (plan_items d');
  pc_audit : exists c o, changes d' = changes d ++ [c] /\ outbox d' = outbox d ++ [o] /\
    cr_kind c = "plan" /\ cr_entity c = p_id p /\ cr_operation c = "RESOLVE" /\
    cr_actor c = p_caller p /\ cr_tenant c = p_tenant p /\ oe_topic o = "plan.resolved" /\
    oe_change_id o = cr_id c /\ announces "plan" (p_id p) 1 o = true /\ oe_status o = ObPending }.

Lemma plan_writes_inr t p w u w' :
  plan_writes t p w = (inr u, w') ->
  plans (store w') = plans (store w) /\
  plan_items (store w') = plan_items (store w) ++ map (item_row (p_id p)) (p_items p) /\
  (indexed (fun _ => true) item_key (plan_items (store w)) ->
   indexed (fun _ => true) item_key (plan_items (store w'))) /\
  exists c o, changes (store w') = changes (store w) ++ [c] /\
    outbox (store w') = outbox (store w) ++ [o] /\
    cr_kind c = "plan" /\ cr_entity c = p_id p /\ cr_operation c = "RESOLVE" /\
    cr_actor c = p_caller p /\ cr_tenant c = p_tenant p /\ oe_topic o = "plan.resolved" /\
    oe_change_id o = cr_id c /\ announces "plan" (p_id p) 1 o = true /\ oe_status o = ObPending.
Proof.
  unfold plan_writes. intros Hr. apply bind_inr in Hr as (u1 & w1 & Hi & Hr).
  apply insert_items_inr in Hi as (_ & H1 & Hix). apply bind_inr in Hr as (a & w2 & Hc & Hr).
  apply insert_change_inr in Hc as (-> & _ & _ & H2). apply insert_outbox_inr in Hr as (_ & _ & H3).
  rewrite H1 in Hix. rewrite H3, H2, H1. split; [done|]. split; [done|]. split; [done|].
  eexists _, _. do 9 (split; [done|]). split; [|done].
  unfold announces. simpl. by rewrite str_eqb_refl.
Qed.

Lemma plan_tx_inr p w r w' :
  plan_tx p w = (inr r, w') ->
  match r with
  | inr _ => plan_created p (clock w) (store w) (store w')
  | inl c => store w' = store w /\ plan_check (store w) (plan_row p) = Some (Unique c)
  end.
Proof.
  unfold plan_tx. intros Hr. apply tx_inr in Hr as (w0 & H0 & H0c & Hr). rewrite <- H0, <- H0c.
  assert (Hins : forall x w1, catch (insert_plan p ;! ret None)
      (fun e => match constraintOf e with Some c => ret (Some c) | None => throw e end) w0 = (inr x, w1) ->
    clock w1 = clock w0 /\
    match x with
    | Some c => plan_check (store w0) (plan_row p) = Some (Unique c)
    | None => plan_check (store w0) (plan_row p) = None /\
              store w1 = with_plans (plans (store w0) ++ [plan_row p]) (store w0)
    end).
  { intros x w1. unfold catch, bind, insert_plan, insert_row, stmt.
    destruct (failing w0); [discriminate|]. simpl.
    destruct (plan_check (store w0) (plan_row p)) as [e|] eqn:E.
    - destruct e; try discriminate. simpl. intros [= <- <-]. done.
    - intros [= <- <-]. done. }
  destruct Hr as [(w1 & Hb & ->)|(w1 & Hb & Hs)];
    apply bind_inr in Hb as (x & w2 & Hx & Hb); apply Hins in Hx as [H2c Hx]; destruct x as [c|].
  - discriminate.
  - destruct Hx as [Hchk H2]. apply bind_inr in Hb as (t & w3 & Hn & Hb).
    apply now_inr in Hn as [-> ->]. apply bind_inr in Hb as (u & w4 & Hw & Hb).
    apply ret_inr in Hb as [Hr ->]. injection Hr as ->.
    apply plan_writes_inr in Hw as (Hp & Hi & Hix & Ha). rewrite H2 in *. by split.
  - apply ret_inr in Hb as [Hr ->]. injection Hr as ->. split; [congruence|done].
  - destruct Hx as [_ _]. apply bind_inr in Hb as (t & w3 & Hn & Hb).
    apply bind_inr in Hb as (u & w4 & Hw & Hb). discriminate.
Qed.

(** *** The calls *)

(** What a successful creation answers and does. *)
Definition create_answer (p : Plan) (t : Z) (d : Database) (x : bool * Plan) (d' : Database) : Prop :=
  if x.1 then x.2 = stored p /\ plan_created p t d d'
  else d' = d /\ exists r, r ∈ plans d /\ plan_key r = (p_caller p, p_idem p) /\
         pl_digest r = p_digest p /\ x.2 = plan_of r (items_of (pl_id r) d).

Lemma insert_or_replay_inr p w x w' :
  insert_or_replay p w = (inr x, w') -> create_answer p (clock w) (store w) x (store w').
Proof.
  unfold insert_or_replay. intros Hr. apply bind_inr in Hr as (r & w1 & Ht & Hr).
  apply plan_tx_inr in Ht. destruct r as [c|u].
  - destruct Ht as [H1 _]. destruct (negb _); [discriminate|].
    apply bind_inr in Hr as (e & w2 & Hk & Hr). apply byKey_inr in Hk as (H2 & _ & Hk).
    destruct e as [e|]; [|discriminate]. destruct Hk as (r & Hf & ->).
    destruct (String.eqb_spec (p_digest (plan_of r (items_of (pl_id r) (store w1)))) (p_digest p)) as [Hd|];
      [|discriminate].
    apply ret_inr in Hr as [-> ->]. rewrite H1 in *. apply first_where_some in Hf as [Hin Hk].
    apply with_key_spec in Hk. split; [done|]. exists r. done.
  - apply ret_inr in Hr as [-> ->]. done.
Qed.

Lemma insert_or_replay_inl p w e w' :
  insert_or_replay p w = (inl e, w') -> store w' = store w.
Proof.
  unfold insert_or_replay, bind at 1. destruct (plan_tx p w) as [[e1|r] w1] eqn:Et.
  - intros [= _ <-]. by apply tx_inl in Et.
  - apply plan_tx_inr in Et. destruct r as [c|u]; [|discriminate]. destruct Et as [Et _].
    destruct (negb _); [by intros [= _ <-]|]. unfold bind at 1.
    pose proof (byKey_store (p_caller p) (p_idem p) w1) as Hk.
    destruct (byKey _ _ w1) as [[e2|[q|]] w2]; simpl in Hk; [|destruct (_ =s _); [discriminate|]|];
      intros [= _ <-]; congruence.
Qed.

Lemma CreatePlan_inr p w x w' :
  CreatePlan p w = (inr x, w') -> create_answer p (clock w) (store w) x (store w').
Proof.
  unfold CreatePlan. intros Hr. apply bind_inr in Hr as (u & w1 & Hc & Hr).
  apply connect_inr in Hc as [H1 H1c]. apply bind_inr in Hr as (e & w2 & Hk & Hr).
  apply byKey_inr in Hk as (H2 & H2c & Hk). rewrite <- H1, <- H1c. destruct e as [e|].
  - destruct Hk as (r & Hf & ->).
    destruct (String.eqb_spec (p_digest (plan_of r (items_of (pl_id r) (store w1)))) (p_digest p)) as [Hd|];
      [|discriminate]. simpl in Hr.
    apply ret_inr in Hr as [-> ->]. apply first_where_some in Hf as [Hin Hk].
    apply with_key_spec in Hk. split; [done|]. exists r. done.
  - apply insert_or_replay_inr in Hr. by rewrite H2, H2c in Hr.
Qed.

Lemma CreatePlan_inl p w e w' : CreatePlan p w = (inl e, w') -> store w' = store w.
Proof.
  unfold CreatePlan, bind at 1. destruct (connect w) as [[e1|u] w1] eqn:Ec.
  { intros [= _ <-]. by apply connect_inl in Ec. }
  apply connect_inr in Ec as [H1 _]. unfold bind at 1.
  pose proof (byKey_store (p_caller p) (p_idem p) w1) as Hk.
  destruct (byKey _ _ w1) as [[e2|[q|]] w2]; simpl in Hk.
  - intros [= _ <-]. congruence.
  - destruct (negb _); [intros [= _ <-]; congruence|discriminate].
  - intros Hr. apply insert_or_replay_inl in Hr. congruence.
Qed.

(** *** Growth *)

Lemma plan_check_none d row :
  plan_check d row = None ->
  (forall r, r ∈ plans d -> pl_id r <> pl_id row) /\
  (forall r, r ∈ plans d -> plan_key r <> plan_key row).
Proof.
  unfold plan_check. destruct (_ || _); [discriminate|].
  destruct (any_where (fun r => pl_id r =s pl_id row) (plans d)) eqn:E1; [discriminate|].
  destruct (any_where (with_key _ _) (plans d)) eqn:E2; [discriminate|]. intros _. split.
  - intros r Hin Heq. eapply any_where_false in E1; [|done]. rewrite Heq, str_eqb_refl in E1. done.
  - intros r Hin Heq. eapply any_where_false in E2; [|done].
    assert (with_key (pl_caller row) (pl_idem_key row) r = true) by by apply with_key_spec.
    congruence.
Qed.

Lemma items_of_new p d d' t id :
  plan_created p t d d' -> id <> p_id p -> items_of id d' = items_of id d.
Proof.
  intros Hc Hne. unfold items_of. rewrite (pc_items _ _ _ _ Hc), rows_where_app.
  rewrite (rows_where_none _ (map (item_row (p_id p)) (p_items p))); [by rewrite app_nil_r|].
  intros i Hin. apply list_elem_of_In, in_map_iff in Hin as (x & <- & _). simpl.
  apply String.eqb_neq. congruence.
Qed.

Lemma grow_created p t d d' : plan_ok d -> plan_created p t d d' -> plans_grow d d'.
Proof.
  intros Hok Hc. pose proof Hc as [Hchk Hp Hi Hu (c & o & Hch & Hob & Ha)].
  apply plan_check_none in Hchk as [Hid Hkey]. destruct Hok as [Hix Hkx Hitx Hown Hev].
  assert (Hevent : o ∈ outbox d') by (rewrite Hob; apply elem_of_app; right; by constructor).
  split; [split| | | | |].
  - rewrite Hp. apply indexed_add; auto.
  - rewrite Hp. apply indexed_add; auto.
  - by apply Hu.
  - intros i Hin. rewrite Hi in Hin. rewrite Hp. apply elem_of_app in Hin as [Hin|Hin].
    + destruct (Hown i Hin) as (r & Hr & He). exists r. split; [apply elem_of_app; by left|done].
    + apply list_elem_of_In, in_map_iff in Hin as (x & <- & _). exists (plan_row p).
      split; [apply elem_of_app; right; by constructor|done].
  - intros r Hin. rewrite Hp in Hin. apply elem_of_app in Hin as [Hin|Hin].
    + destruct (Hev r Hin) as (o' & Ho' & He). exists o'. split; [|done].
      rewrite Hob. apply elem_of_app. by left.
    + apply list_elem_of_singleton in Hin as ->. exists o. split; [done|]. simpl. tauto.
  - rewrite Hp. apply rows_kept_app, plan_kept_refl.
  - intros r Hin. eapply items_of_new; [done|]. by apply Hid.
  - rewrite Hi. auto.
  - rewrite Hch. auto.
  - rewrite Hob. auto.
Qed.

Lemma grow_answer p t d x d' : plan_ok d -> create_answer p t d x d' -> plans_grow d d'.
Proof.
  unfold create_answer. intros Hok. destruct x as [[|] q]; simpl.
  - intros [_ Hc]. by eapply grow_created.
  - intros [-> _]. by apply plans_grow_refl.
Qed.

Lemma grow_status q s d :
  (forall r, q r = true -> ValidatePlanTransition (pl_status r) s = true) -> plan_ok d ->
  plans_grow d (with_plans (update_where q (set_pl_status s) (plans d)) d).
Proof.
  intros Hq [Hix Hkx Hitx Hown Hev]. split; auto.
  - split; simpl; try done.
    + by apply indexed_update.
    + by apply indexed_update.
    + intros i Hin. destruct (Hown i Hin) as (r & Hr & He).
      exists (if q r then set_pl_status s r else r). split; [|by destruct (q r)].
      apply list_elem_of_lookup_1 in Hr as [j Hj]. eapply list_elem_of_lookup_2.
      by apply lookup_update_where.
    + intros r Hin. apply elem_of_update_where in Hin as [(r0 & Hin & _ & ->)|[Hin _]]; by apply Hev in Hin.
  - apply rows_kept_update; [apply plan_kept_refl|]. intros r Hr. split; [by destruct r|right].
    simpl. auto.
Qed.

Lemma grow_sweep now w :
  plan_ok (store w) -> plans_grow (store w) (store (SweepExpired now w).2).
Proof.
  intros Hok. unfold SweepExpired, bind. destruct (connect w) as [[e|u] w1] eqn:Ec; simpl.
  { apply connect_inl in Ec. rewrite Ec. by apply plans_grow_refl. }
  apply connect_inr in Ec as [Ec _]. rewrite <- Ec in *. unfold exec_n, stmt.
  destruct (failing w1); simpl; [by apply plans_grow_refl|].
  apply grow_status; [|done]. intros r Hr. unfold sweepable in Hr. b2p. destruct Hr as [Hr _].
  unfold ValidatePlanTransition. rewrite Hr. done.
Qed.

Lemma grow_revoke id w :
  plan_ok (store w) -> plans_grow (store w) (store (RevokePlan id w).2).
Proof.
  intros Hok. unfold RevokePlan, bind. destruct (connect w) as [[e|u] w1] eqn:Ec; simpl.
  { apply connect_inl in Ec. rewrite Ec. by apply plans_grow_refl. }
  apply connect_inr in Ec as [Ec _]. rewrite <- Ec in *. unfold exec_n, stmt.
  destruct (failing w1); simpl; [by apply plans_grow_refl|]. unfold guard.
  assert (plans_grow (store w1) (with_plans (update_where (revocable id) (set_pl_status PlanRevoked)
    (plans (store w1))) (store w1))) as Hg.
  { apply grow_status; [|done]. intros r Hr. unfold revocable in Hr. b2p. destruct Hr as [_ Hr].
    unfold ValidatePlanTransition. rewrite Hr. done. }
  destruct (updated _ _ =? 0); exact Hg.
Qed.

(** ** Histories *)

(** The calls on the store in the order they take effect, with what each
    creation was asked and answered.  A creation whose read of the key came
    earlier, before other calls, is its second half alone. *)
Definition Answer : Type := Plan * (err + bool * Plan).
Inductive plan_trace (d0 : Database) : list Answer -> Database -> Prop :=
| pt_start : plan_trace d0 [] d0
| pt_create tr p w : plan_trace d0 tr (store w) ->
    plan_trace d0 (tr ++ [(p, (CreatePlan p w).1)]) (store (CreatePlan p w).2)
| pt_late tr p w : plan_trace d0 tr (store w) ->
    plan_trace d0 (tr ++ [(p, (insert_or_replay p w).1)]) (store (insert_or_replay p w).2)
| pt_sweep tr now w : plan_trace d0 tr (store w) ->
    plan_trace d0 tr (store (SweepExpired now w).2)
| pt_revoke tr id w : plan_trace d0 tr (store w) ->
    plan_trace d0 tr (store (RevokePlan id w).2).

(** The stored row a successful creation answered with. *)
Definition answered (d : Database) (a : Answer) : Prop :=
  match a.2 with
  | inl _ => True
  | inr (_, q) => exists r, r ∈ plans d /\ plan_key r = (p_caller a.1, p_idem a.1) /\
                    pl_digest r = p_digest a.1 /\ pl_id r = p_id q
  end.
Definition created_for (caller key : string) (a : Answer) : bool :=
  (p_caller a.1 =s caller) && (p_idem a.1 =s key) &&
  match a.2 with inr (true, _) => true | _ => false end.

Lemma answered_grow d d' a : plans_grow d d' -> answered d a -> answered d' a.
Proof.
  intros Hg. unfold answered. destruct (a.2) as [e|[b q]]; [done|].
  intros (r & Hin & Hk & Hd & Hid).
  destruct (rows_kept_elem _ _ _ _ (pg_rows _ _ Hg) Hin) as (r' & Hin' & Hr').
  apply plan_kept_key in Hr' as (H1 & H2 & H3). exists r'. by rewrite H1, H2, H3.
Qed.

Lemma answered_created p t d x d' :
  create_answer p t d x d' -> answered d' (p, inr x).
Proof.
  unfold create_answer, answered. destruct x as [[|] q]; simpl.
  - intros [-> Hc]. exists (plan_row p). rewrite (pc_plans _ _ _ _ Hc).
    split; [apply elem_of_app; right; by constructor|]. done.
  - intros [-> (r & Hin & Hk & Hd & ->)]. by exists r.
Qed.

(** What holds of a trace: the tables grew from [d0], every answer still names
    the stored row, and each key was created at most once. *)
Record trace_ok (d0 : Database) (tr : list Answer) (d : Database) : Prop := {
  to_grow : plans_grow d0 d;
  to_answered : Forall (answered d) tr;
  to_once : forall caller key, (length (List.filter (created_for caller key) tr) <= 1)%nat }.

Lemma trace_ok_grow d0 tr d d' : trace_ok d0 tr d -> plans_grow d d' -> trace_ok d0 tr d'.
Proof.
  intros [Hg Ha Ho] Hg'. split; [by eapply plans_grow_trans| |done].
  eapply Forall_impl; [done|]. intros a. by apply answered_grow.
Qed.

Lemma trace_ok_answer d0 tr p t d x d' :
  trace_ok d0 tr d -> plan_ok d -> create_answer p t d x d' ->
  trace_ok d0 (tr ++ [(p, inr x)]) d'.
Proof.
  intros Htr Hok Hans. pose proof (grow_answer _ _ _ _ _ Hok Hans) as Hg.
  pose proof (trace_ok_grow _ _ _ _ Htr Hg) as [Hg' Ha _]. split; [done| |].
  - apply Forall_app. split; [done|]. constructor; [|constructor]. by eapply answered_created.
  - intros caller key. rewrite List.filter_app, length_app. simpl.
    pose proof (to_once _ _ _ Htr caller key) as Hn.
    destruct (created_for caller key (p, inr x)) eqn:Ec; simpl; [|lia].
    unfold created_for in Ec. simpl in Ec. b2p. destruct Ec as [[Hcl Hk] Hx].
    destruct x as [[|] q]; [|discriminate]. destruct Hans as [_ Hc]. simpl in Hc.
    apply pc_check, plan_check_none in Hc as [_ Hfresh].
    destruct (List.filter (created_for caller key) tr) as [|a l] eqn:El; [simpl; lia|]. exfalso.
    assert (Hin : In a (List.filter (created_for caller key) tr)) by (rewrite El; by left).
    apply filter_In in Hin as [Hin Hca]. apply list_elem_of_In in Hin.
    pose proof (to_answered _ _ _ Htr) as Hall. rewrite Forall_forall in Hall.
    specialize (Hall a Hin). unfold created_for in Hca. b2p. destruct Hca as [[Hcl' Hk'] Hb].
    unfold answered in Hall. destruct (a.2) as [e|[b q']]; [discriminate|].
    destruct Hall as (r & Hr & Hkey & _). apply (Hfresh r Hr). rewrite Hkey, Hcl', Hk'.
    unfold plan_key. simpl. by rewrite Hcl, Hk.
Qed.

Lemma trace_ok_error d0 tr p e d : trace_ok d0 tr d -> trace_ok d0 (tr ++ [(p, inl e)]) d.
Proof.
  intros [Hg Ha Ho]. split; [done| |].
  - apply Forall_app. split; [done|]. by constructor.
  - intros caller key. rewrite List.filter_app, length_app. simpl.
    destruct (created_for caller key (p, inl e)) eqn:Ec; simpl.
    + unfold created_for in Ec. simpl in Ec. by rewrite andb_false_r in Ec.
    + specialize (Ho caller key). lia.
Qed.

Lemma plan_trace_ok d0 tr d : plan_ok d0 -> plan_trace d0 tr d -> trace_ok d0 tr d.
Proof.
  intros H0 Ht. induction Ht as [|tr p w _ IH|tr p w _ IH|tr now w _ IH|tr id w _ IH].
  - split; [by apply plans_grow_refl|constructor|simpl; lia].
  - pose proof (pg_ok _ _ (to_grow _ _ _ IH)) as Hok.
    destruct (CreatePlan p w) as [[e|x] w'] eqn:E; simpl.
    + apply CreatePlan_inl in E. rewrite E. by apply trace_ok_error.
    + apply CreatePlan_inr in E. by eapply trace_ok_answer.
  - pose proof (pg_ok _ _ (to_grow _ _ _ IH)) as Hok.
    destruct (insert_or_replay p w) as [[e|x] w'] eqn:E; simpl.
    + apply insert_or_replay_inl in E. rewrite E. by apply trace_ok_error.
    + apply insert_or_replay_inr in E. by eapply trace_ok_answer.
  - eapply trace_ok_grow; [done|]. apply grow_sweep, IH.
  - eapply trace_ok_grow; [done|]. apply grow_revoke, IH.
Qed.

(** ** Properties *)

Module PlanStoreProps.

(** C7. Through any sequence of creations, sweeps and revocations, however they
    interleave with the two halves of a creation and whatever statements fail:
    a caller has at most one plan per idempotency key and plan ids are unique;
    every plan has its event; stored plans keep their items and everything but
    their status, which only leaves RESOLVED; at most one creation of a key
    answers created, and all successful creations of a key were asked for the
    same request digest and answer with the same plan id. *)
Theorem plan_store_history d0 tr d :
  plan_ok d0 -> plan_trace d0 tr d ->
  plans_grow d0 d /\
  (forall caller key, (length (List.filter (created_for caller key) tr) <= 1)%nat) /\
  (forall p1 b1 q1 p2 b2 q2, (p1, inr (b1, q1)) ∈ tr -> (p2, inr (b2, q2)) ∈ tr ->
     p_caller p1 = p_caller p2 -> p_idem p1 = p_idem p2 ->
     p_digest p1 = p_digest p2 /\ p_id q1 = p_id q2).
Proof.
  intros H0 Ht. apply plan_trace_ok in Ht as [Hg Ha Ho]; [|done].
  split; [done|]. split; [done|]. intros p1 b1 q1 p2 b2 q2 H1 H2 Hc Hk.
  rewrite Forall_forall in Ha. apply Ha in H1 as (r1 & Hr1 & Hk1 & Hd1 & Hi1).
  apply Ha in H2 as (r2 & Hr2 & Hk2 & Hd2 & Hi2). simpl in *.
  assert (r1 = r2) as ->; [|split; congruence].
  eapply (indexed_elem (fun _ => true) plan_key); [apply Hg|done..|]. by rewrite Hk1, Hk2, Hc, Hk.
Qed.

(** What CreatePlan does: an answer "created" comes with exactly one new
    RESOLVED plan, its items, one audit row and one event; an answer "existing"
    changes nothing and returns the stored plan of that caller, key and digest
    with its stored items; an error changes nothing. *)
Theorem CreatePlan_effect p w x w' :
  CreatePlan p w = (x, w') ->
  match x with
  | inl _ => store w' = store w
  | inr a => create_answer p (clock w) (store w) a (store w')
  end.
Proof.
  destruct x as [e|a]; [by intros H%CreatePlan_inl|apply CreatePlan_inr].
Qed.

(** A repeated key when no statement fails: the same request digest gets
    the stored plan back, another digest IDEMPOTENCY_CONFLICT (409), and nothing
    changes either way. *)
Theorem CreatePlan_repeat p d t r :
  first_where (with_key (p_caller p) (p_idem p)) (plans d) = Some r ->
  CreatePlan p (MkWorld d [] t) =
  (if pl_digest r =s p_digest p then inr (false, plan_of r (items_of (pl_id r) d))
   else inl idem_conflict, MkWorld d [] t).
Proof.
  intros Hf. unfold CreatePlan, byKey, items. run_ok. rewrite Hf. run_ok.
  change (p_digest (plan_of r (items_of (pl_id r) d))) with (pl_digest r).
  by destruct (pl_digest r =s p_digest p).
Qed.

(** A sweep expires exactly the RESOLVED plans whose expiry lies before the
    given instant and reports their number; a revocation moves exactly the
    RESOLVED plan of the id and answers ErrNotFound when there is none. *)
Theorem plan_status_moves now id d t :
  (exists d', SweepExpired now (MkWorld d [] t) =
      (inr (count_where (sweepable now) (plans d)), MkWorld d' [] t) /\
    plans d' = update_where (sweepable now) (set_pl_status PlanExpired) (plans d) /\
    count_where (sweepable now) (plans d') = 0) /\
  (RevokePlan id (MkWorld d [] t)).1 =
    (if any_where (revocable id) (plans d) then inr tt else inl ErrNotFound) /\
  plans (store (RevokePlan id (MkWorld d [] t)).2) =
    update_where (revocable id) (set_pl_status PlanRevoked) (plans d).
Proof.
  split.
  - eexists. unfold SweepExpired. run_ok. split; [done|]. split; [done|].
    apply count_where_zero. intros r Hin. simpl in Hin.
    apply elem_of_update_where in Hin as [(r0 & _ & _ & ->)|[_ Hq]]; done.
  - unfold RevokePlan. run_ok. unfold updated.
    destruct (any_where (revocable id) (plans d)) eqn:E.
    + apply any_where_spec in E as (r & Hin & Hr).
      destruct (Z.eqb_spec (count_where (revocable id) (plans d)) 0) as [Hz|]; [|done].
      exfalso. rewrite count_where_zero in Hz. rewrite (Hz r Hin) in Hr. done.
    + rewrite (proj2 (count_where_zero _ _)) by (by apply any_where_false). done.
Qed.

(** *** A plan created twice *)

Definition pw_digest : string := sha256_digest "request".
Definition pw_item : PlanItem :=
  MkPlanItem "r1" "chat" 1 1 "k" 2 "p" "MODEL_PROVIDER" "e" 3 "c1" "default" ["CAPABILITY_MATCH"].
Definition pw_plan (id : string) : Plan :=
  MkPlan id "caller" "t1" "task" None pw_digest pw_digest "key" "" 0 "tr" 100 400 [pw_item].
Definition pw_w1 : World Database := Eval vm_compute in (CreatePlan (pw_plan "p1") (MkWorld empty_db [] 100)).2.
Definition pw_q1 : Plan := Eval vm_compute in stored (pw_plan "p1").
Definition pw_q2 : Plan := Eval vm_compute in
  plan_of (plan_row (pw_plan "p1")) (items_of "p1" (store pw_w1)).
Lemma pw_run1 : CreatePlan (pw_plan "p1") (MkWorld empty_db [] 100) = (inr (true, pw_q1), pw_w1).
Proof. vm_compute. reflexivity. Qed.
Lemma pw_run2 : CreatePlan (pw_plan "p2") pw_w1 = (inr (false, pw_q2), pw_w1).
Proof. vm_compute. reflexivity. Qed.
Lemma plan_ok_empty : plan_ok empty_db.
Proof.
  split; [intros i j r r' Hi; discriminate Hi..| |].
  - by intros i ?%elem_of_nil.
  - by intros r ?%elem_of_nil.
Qed.

Lemma plan_store_history_witness :
  plans_grow empty_db (store pw_w1) /\ p_id pw_q1 = p_id pw_q2.
Proof.
  assert (Ht : plan_trace empty_db [(pw_plan "p1", inr (true, pw_q1)); (pw_plan "p2", inr (false, pw_q2))]
                 (store pw_w1)).
  { pose proof (pt_create empty_db [] (pw_plan "p1") (MkWorld empty_db [] 100) (pt_start _)) as H1.
    rewrite pw_run1 in H1. pose proof (pt_create empty_db _ (pw_plan "p2") pw_w1 H1) as H2.
    rewrite pw_run2 in H2. exact H2. }
  destruct (plan_store_history empty_db _ (store pw_w1) plan_ok_empty Ht) as (Hg & _ & Hid).
  split; [exact Hg|]. apply (Hid (pw_plan "p1") true _ (pw_plan "p2") false); try reflexivity;
    [constructor|do 2 constructor].
Defined.

Lemma CreatePlan_effect_witness :
  plan_created (pw_plan "p1") 100 empty_db (store pw_w1).
Proof. apply (CreatePlan_effect _ _ _ _ pw_run1). Defined.

(** The stored plan is not the answered one: provider type and endpoint of the
    items are not stored, so the answer to a repeated key lacks them. *)
Theorem replay_drops_provider :
  map it_provider_type (p_items pw_q1) = ["MODEL_PROVIDER"] /\
  map it_provider_type (p_items pw_q2) = [""] /\
  map it_endpoint (p_items pw_q1) = ["e"] /\ map it_endpoint (p_items pw_q2) = [""].
Proof. vm_compute. done. Qed.

Lemma CreatePlan_repeat_witness :
  CreatePlan (pw_plan "p2") (MkWorld (store pw_w1) [] 7) =
  (inr (false, pw_q2), MkWorld (store pw_w1) [] 7).
Proof.
  rewrite (CreatePlan_repeat (pw_plan "p2") (store pw_w1) 7 (plan_row (pw_plan "p1")));
    vm_compute; reflexivity.
Defined.

End PlanStoreProps.
