(* ===== verification/SnapCache.v ===== *)
(** * Snapshot loader and cache (src/internal/resolver/loader.go, cache.go)

    The loader reads a binding's pinned snapshot with its provider and refuses
    one that is no longer the provider's active published snapshot.  The cache
    keeps loaded snapshots in the process: fresh entries are served from memory,
    stale ones reloaded, an outage falls back to an entry still inside its
    validity window.  Loads of one key are coalesced by singleflight in the
    code; here a Get runs to its end before the next begins. *)

From S2P Require Import Prelude GoStd GoJson Sql Schema.

Record LoadedSnapshot : Type := MkLoadedSnapshot {
  ls_id : Z;
  ls_provider_id : Z;
  ls_provider_key : string;
  ls_provider_type : string;
  ls_endpoint : string;
  ls_version : Z;
  ls_contract : string;
  ls_profiles : list json;
  ls_generated_at : Z;
  ls_valid_until : Z;
}.

Definition ErrSnapshotUnavailable : err := ETyped "resolver: pinned snapshot unavailable" "".

(** ** The loader *)

Definition published_snapshot (id : Z) (s : SnapshotRow) : bool :=
  (ps_id s =? id) && (ps_state s =d RegPublished).
Definition published_provider (id : Z) (p : ProviderRow) : bool :=
  (rp_id p =? id) && (rp_state p =d RegPublished).
(** The joined row: the snapshot, its provider and the provider's pointer. *)
Definition snapshot_row (id : Z) (d : Database) : option (SnapshotRow * ProviderRow * option Z) :=
  match first_where (published_snapshot id) (snapshots d) with
  | None => None
  | Some s =>
      match first_where (published_provider (ps_provider_id s)) (providers d) with
      | None => None
      | Some p =>
          Some (s, p, pp_snapshot_id <$>
            first_where (fun x => pp_provider_id x =? ps_provider_id s) (pointers d))
      end
  end.
Definition loaded_of (s : SnapshotRow) (p : ProviderRow) : LoadedSnapshot :=
  MkLoadedSnapshot (ps_id s) (ps_provider_id s) (rp_key p) (rp_type p) (rp_endpoint p)
    (ps_version s) (ps_contract s) (ps_profiles s) (ps_generated_at s) (ps_valid_until s).
(** [json.Unmarshal] into [[]map[string]any]: every element an object or null. *)
Definition profiles_readable (l : list json) : bool :=
  forallb (fun j => match j with JObj _ | JNull => true | _ => false end) l.

(** loader.go: NewRegistrySnapshotLoader *)
Definition load_snapshot (snapshotID : Z) : Db LoadedSnapshot :=
  connect ;!
  let! r := catch (query_row (snapshot_row snapshotID))
    (fun e => if is_no_rows e then throw ErrSnapshotUnavailable else throw e) in
  let '(s, p, activeID) := r in
  guard (match activeID with Some a => negb (a =? snapshotID) | None => true end)
    ErrSnapshotUnavailable ;!
  guard (negb (profiles_readable (ps_profiles s))) plain_error ;!
  ret (loaded_of s p).

(** loader.go: ActiveSnapshotIDs *)
Definition ActiveSnapshotIDs : Db (list Z) :=
  let! ids := query (fun d => omap (fun x =>
    match first_where (published_snapshot (pp_snapshot_id x)) (snapshots d) with
    | Some s => if any_where (published_provider (ps_provider_id s)) (providers d)
                then Some (pp_snapshot_id x) else None
    | None => None
    end) (pointers d)) in
  connect ;! (* rows.Err() *)
  ret ids.

(** ** The cache *)

Record CacheStats : Type := MkStats { Loads : Z; LoadErrors : Z; DegradedHits : Z }.
Record cacheEntry : Type := MkEntry {
  ce_snap : LoadedSnapshot;
  ce_loaded : Z;
  ce_softEnd : Z;
  ce_degraded : bool;
}.
Record SnapshotCache : Type := MkCache {
  entries : gmap Z cacheEntry;
  stats : CacheStats;
}.
Definition NewSnapshotCache : SnapshotCache := MkCache ∅ (MkStats 0 0 0).

Definition put_entry (id : Z) (e : cacheEntry) (c : SnapshotCache) : SnapshotCache :=
  MkCache (<[id := e]> (entries c)) (stats c).
Definition evict (id : Z) (c : SnapshotCache) : SnapshotCache :=
  MkCache (delete id (entries c)) (stats c).
Definition count (loads errors degraded : Z) (c : SnapshotCache) : SnapshotCache :=
  let s := stats c in
  MkCache (entries c)
    (MkStats (Loads s + loads) (LoadErrors s + errors) (DegradedHits s + degraded)).
Definition degrade (e : cacheEntry) : cacheEntry :=
  MkEntry (ce_snap e) (ce_loaded e) (ce_softEnd e) true.

(** The process: the database and the cache beside it. *)
Record Process : Type := MkProcess { database : Database; cache : SnapshotCache }.
Definition set_database (d : Database) (p : Process) : Process := MkProcess d (cache p).
Definition set_cache (c : SnapshotCache) (p : Process) : Process := MkProcess (database p) c.
Definition on_db {A} (m : Db A) : M Process A := zoom database set_database m.
Definition on_cache (f : SnapshotCache -> SnapshotCache) : M Process unit :=
  modify (fun p => set_cache (f (cache p)) p).

(** The fast path: valid, not degraded, inside the refresh window. *)
Definition fresh (now : Z) (e : cacheEntry) : bool :=
  (ls_valid_until (ce_snap e) >? now) && negb (ce_degraded e) && (now <? ce_softEnd e).

Section Cache.
Context (loader : Z -> M Process LoadedSnapshot) (refreshTTL : Z).

(** The function singleflight runs. *)
Definition reload (id : Z) : M Process LoadedSnapshot :=
  on_cache (count 1 0 0) ;!
  let! r := attempt (loader id) in
  match r with
  | inl lerr =>
      on_cache (count 0 1 0) ;!
      if lerr =d ErrSnapshotUnavailable then on_cache (evict id) ;! throw lerr
      else
        let! old := gets (fun p => entries (cache p) !! id) in
        let! t := now in
        match old with
        | Some e =>
            if ls_valid_until (ce_snap e) >? t
            then on_cache (put_entry id (degrade e)) ;! on_cache (count 0 0 1) ;! ret (ce_snap e)
            else throw lerr
        | None => throw lerr
        end
  | inr loaded =>
      let! t := now in
      on_cache (put_entry id (MkEntry loaded t (t + refreshTTL) false)) ;!
      ret loaded
  end.

(** cache.go: Get *)
Definition Get (id : Z) : M Process LoadedSnapshot :=
  let! t := now in
  let! e := gets (fun p => entries (cache p) !! id) in
  match e with
  | Some e => if fresh t e then ret (ce_snap e) else reload id
  | None => reload id
  end.

(** cache.go: WarmupActive *)
Fixpoint warm (ids : list Z) (n : Z) : M Process Z :=
  match ids with
  | [] => ret n
  | id :: ids' =>
      let! r := attempt (Get id) in
      warm ids' (match r with inr _ => n + 1 | inl _ => n end)
  end.
Definition WarmupActive (listActive : M Process (list Z)) : M Process Z :=
  let! ids := listActive in warm ids 0.

(** cache.go: Loaded *)
Definition Loaded (c : SnapshotCache) : Z := Z.of_nat (size (entries c)).

End Cache.

Definition registry_loader (id : Z) : M Process LoadedSnapshot := on_db (load_snapshot id).

(** ** What the loader and the cache do *)

(** [s] is what provider and snapshot tables hold for snapshot [id], published
    both and the provider's active one. *)
Definition active_published (id : Z) (d : Database) (s : LoadedSnapshot) : Prop :=
  exists r p x, r ∈ snapshots d /\ ps_id r = id /\ ps_state r = RegPublished /\
    p ∈ providers d /\ rp_id p = ps_provider_id r /\ rp_state p = RegPublished /\
    x ∈ pointers d /\ pp_provider_id x = ps_provider_id r /\ pp_snapshot_id x = id /\
    s = loaded_of r p.

Lemma load_snapshot_inr id w s w' :
  load_snapshot id w = (inr s, w') -> store w' = store w /\ clock w' = clock w /\
  active_published id (store w) s.
Proof.
  unfold load_snapshot. intros Hr. apply bind_inr in Hr as (u & w1 & Hc & Hr).
  apply connect_inr in Hc as [H1 H1c]. apply bind_inr in Hr as ([[r p] a] & w2 & Hq & Hr).
  unfold catch in Hq. destruct (query_row _ w1) as [[e|x] wq] eqn:E; [destruct (is_no_rows e); discriminate|].
  injection Hq as -> <-. apply query_row_inr in E as (Hrow & H2 & H2c).
  apply bind_inr in Hr as (u1 & w3 & Hg & Hr). apply guard_inr in Hg as [Ha ->].
  apply bind_inr in Hr as (u2 & w4 & Hg & Hr). apply guard_inr in Hg as [_ ->].
  apply ret_inr in Hr as [-> ->]. split; [congruence|]. split; [congruence|]. rewrite H1 in Hrow.
  unfold snapshot_row in Hrow. destruct (first_where (published_snapshot id) _) as [r'|] eqn:Er; [|discriminate].
  destruct (first_where (published_provider _) _) as [p'|] eqn:Ep; [|discriminate].
  injection Hrow as -> -> Hx. destruct (first_where _ (pointers _)) as [x|] eqn:Ex;
    [|rewrite <- Hx in Ha; discriminate]. rewrite <- Hx in Ha. simpl in Ha.
  apply negb_false_iff, Z.eqb_eq in Ha. apply first_where_some in Er as [Hr1 Hr2].
  apply first_where_some in Ep as [Hp1 Hp2]. apply first_where_some in Ex as [Hx1 Hx2].
  unfold published_snapshot, published_provider in *. b2p.
  destruct Hr2 as [Hr2 Hr3], Hp2 as [Hp2 Hp3]. apply bool_decide_eq_true in Hr3, Hp3.
  exists r, p, x. done.
Qed.

Lemma load_snapshot_store id w :
  store (load_snapshot id w).2 = store w /\ clock (load_snapshot id w).2 = clock w.
Proof.
  split.
  - assert (keeps (fun d => d = store w) (load_snapshot id)) as Hk.
    { unfold load_snapshot. keeps_walk. }
    by apply Hk.
  - unfold load_snapshot, connect, query, query_row, stmt, bind, catch, guard, ret, throw.
    repeat (case_match; simpl in *; simplify_eq/=; try done).
Qed.

(** The loader's answer on a database. *)
Definition load_said (id : Z) (d : Database) (r : err + LoadedSnapshot) : Prop :=
  exists v v', store v = d /\ load_snapshot id v = (r, v').

Lemma registry_loader_run id w r w' :
  registry_loader id w = (r, w') ->
  store w' = store w /\ clock w' = clock w /\
  load_said id (database (store w)) r /\
  (forall s, r = inr s -> active_published id (database (store w)) s).
Proof.
  intros Hr. apply zoom_run in Hr as (v & v' & Hv & Hvc & Hl & Hs & Hc).
  destruct (load_snapshot_store id v) as [H1 H2]. rewrite Hl in H1, H2. simpl in H1, H2.
  split; [rewrite Hs, H1, Hv; by destruct (store w)|]. split; [congruence|].
  split; [by exists v, v'|]. intros s ->. apply load_snapshot_inr in Hl as (_ & _ & Ha). by rewrite Hv in Ha.
Qed.

Section CacheInvariant.
Context (refreshTTL : Z).
Implicit Types (seen : Z -> Database -> Prop).

(** [seen t d]: the database was [d] at some Get at time [t]. *)
Definition entry_ok seen (id : Z) (e : cacheEntry) : Prop :=
  ce_softEnd e = ce_loaded e + refreshTTL /\
  exists d, seen (ce_loaded e) d /\ active_published id d (ce_snap e).
Definition cache_ok seen (c : SnapshotCache) : Prop :=
  forall id e, entries c !! id = Some e -> entry_ok seen id e.

(** How a Get ends. *)
Inductive get_outcome (id t : Z) (d : Database) (c : SnapshotCache) :
    err + LoadedSnapshot -> SnapshotCache -> Prop :=
| from_memory e : entries c !! id = Some e -> fresh t e = true ->
    get_outcome id t d c (inr (ce_snap e)) c
| from_registry s c' : active_published id d s ->
    entries c' = <[id := MkEntry s t (t + refreshTTL) false]> (entries c) ->
    get_outcome id t d c (inr s) c'
| from_stale e c' lerr : entries c !! id = Some e -> ls_valid_until (ce_snap e) > t ->
    load_said id d (inl lerr) -> lerr <> ErrSnapshotUnavailable ->
    entries c' = <[id := degrade e]> (entries c) ->
    get_outcome id t d c (inr (ce_snap e)) c'
| get_evicts c' : load_said id d (inl ErrSnapshotUnavailable) -> entries c' = delete id (entries c) ->
    get_outcome id t d c (inl ErrSnapshotUnavailable) c'
| get_fails e c' : load_said id d (inl e) -> e <> ErrSnapshotUnavailable -> entries c' = entries c ->
    get_outcome id t d c (inl e) c'.

Lemma on_cache_run f w : on_cache f w = (inr tt, set_store (set_cache (f (cache (store w))) (store w)) w).
Proof. done. Qed.

Lemma reload_outcome id w r w' :
  reload registry_loader refreshTTL id w = (r, w') ->
  database (store w') = database (store w) /\ clock w' = clock w /\
  get_outcome id (clock w) (database (store w)) (cache (store w)) r (cache (store w')).
Proof.
  unfold reload. unfold bind at 1. rewrite on_cache_run. set (w1 := set_store _ w).
  assert (Hd1 : database (store w1) = database (store w)) by done.
  assert (Hc1 : clock w1 = clock w) by done.
  assert (He1 : entries (cache (store w1)) = entries (cache (store w))) by done.
  clearbody w1. unfold bind at 1, attempt.
  destruct (registry_loader id w1) as [x w2] eqn:El.
  apply registry_loader_run in El as (H2 & H2c & Hsaid & Hx).
  rewrite <- Hd1, <- Hc1. destruct x as [lerr|s].
  - unfold bind at 1. rewrite on_cache_run. set (w3 := set_store _ w2).
    assert (Hd3 : database (store w3) = database (store w1)) by (simpl; congruence).
    assert (Hc3 : clock w3 = clock w1) by (simpl; congruence).
    assert (He3 : entries (cache (store w3)) = entries (cache (store w)))
      by (simpl; rewrite H2; done).
    clearbody w3. destruct (bool_decide_reflect (lerr = ErrSnapshotUnavailable)) as [->|Hne].
    + unfold bind. rewrite on_cache_run. intros [= <- <-]. simpl. split; [done|]. split; [done|].
      apply get_evicts; [done|]. simpl. by rewrite He3.
    + unfold bind, gets, now. destruct (entries (cache (store w3)) !! id) as [e|] eqn:Ee.
      * destruct (Z.gtb_spec (ls_valid_until (ce_snap e)) (clock w3)) as [Hv|Hv].
        -- rewrite !on_cache_run. intros [= <- <-]. simpl. split; [done|]. split; [done|].
           rewrite He3 in Ee. eapply from_stale; [done|lia|done|done|]. simpl. by rewrite He3.
        -- intros [= <- <-]. split; [done|]. split; [done|]. by apply get_fails.
      * intros [= <- <-]. split; [done|]. split; [done|]. by apply get_fails.
  - unfold bind, now. rewrite on_cache_run. intros [= <- <-]. simpl.
    split; [congruence|]. split; [congruence|]. apply from_registry; [by apply Hx|].
    simpl. by rewrite H2, H2c, He1.
Qed.

Lemma Get_outcome id w r w' :
  Get registry_loader refreshTTL id w = (r, w') ->
  database (store w') = database (store w) /\ clock w' = clock w /\
  get_outcome id (clock w) (database (store w)) (cache (store w)) r (cache (store w')).
Proof.
  unfold Get, bind at 1, now, bind at 1, gets.
  destruct (entries (cache (store w)) !! id) as [e|] eqn:Ee; [|apply reload_outcome].
  destruct (fresh (clock w) e) eqn:Ef; [|apply reload_outcome].
  intros [= <- <-]. split; [done|]. split; [done|]. by apply from_memory.
Qed.

Lemma outcome_ok seen id t d c r c' :
  cache_ok seen c -> seen t d -> get_outcome id t d c r c' -> cache_ok seen c'.
Proof.
  intros Hok Hseen Ho. destruct Ho as [e|s c' Ha He|e c' lerr He Hv _ _ He'|c' _ He|e c' _ _ He]; [done|..];
    intros id' x; rewrite ?He, ?He'.
  - destruct (decide (id = id')) as [<-|Hne]; [|rewrite lookup_insert_ne by done; apply Hok].
    rewrite lookup_insert_eq. intros [= <-]. split; [done|]. eauto.
  - destruct (decide (id = id')) as [<-|Hne]; [|rewrite lookup_insert_ne by done; apply Hok].
    rewrite lookup_insert_eq. intros [= <-]. apply (Hok id e He).
  - intros Hl. apply lookup_delete_Some in Hl as [_ Hl]. by apply Hok.
  - apply Hok.
Qed.
End CacheInvariant.

(** ** Properties *)

Module SnapCacheProps.
Section Statements.
Context (refreshTTL : Z).

(** The caches a process reaches: Gets of any snapshots, the database having
    been any [d] with [seen t d] at a Get at time [t], statements failing as
    they may. *)
Inductive reachable (seen : Z -> Database -> Prop) : SnapshotCache -> Prop :=
| reach_new : reachable seen NewSnapshotCache
| reach_get id w : reachable seen (cache (store w)) -> seen (clock w) (database (store w)) ->
    reachable seen (cache (store (Get registry_loader refreshTTL id w).2)).

Lemma reachable_ok seen c : reachable seen c -> cache_ok refreshTTL seen c.
Proof.
  induction 1 as [|id w _ IH Hseen]; [intros id e Hl; unfold NewSnapshotCache in Hl; simpl in Hl; by rewrite lookup_empty in Hl|].
  destruct (Get registry_loader refreshTTL id w) as [r w'] eqn:E. simpl.
  apply Get_outcome in E as (_ & _ & Ho). by eapply outcome_ok.
Qed.

(** C26. What a Get serves, in any process that has only used the cache: a
    snapshot that is published and active in the database now, or one that was
    when it was loaded at an earlier Get, is still inside its validity window,
    and is either inside the refresh window or served because the loader failed
    just now without a verdict.  A verdict that the snapshot is unavailable is
    passed on and removes the entry.  The database is never written. *)
Theorem cache_serves seen id w r w'
    (Hreach : reachable seen (cache (store w)))
    (Hrun : Get registry_loader refreshTTL id w = (r, w')) :
  database (store w') = database (store w) /\
  match r with
  | inr s =>
      active_published id (database (store w)) s \/
      (ls_valid_until s > clock w /\
       exists t0 d0, seen t0 d0 /\ active_published id d0 s /\
         (clock w < t0 + refreshTTL \/
          exists e, load_said id (database (store w)) (inl e) /\ e <> ErrSnapshotUnavailable))
  | inl e =>
      load_said id (database (store w)) (inl e) /\
      (e = ErrSnapshotUnavailable -> entries (cache (store w')) !! id = None)
  end.
Proof.
  apply reachable_ok in Hreach. apply Get_outcome in Hrun as (Hd & _ & Ho). split; [done|].
  destruct Ho as [e He Hf|s c' Ha _|e c' lerr He Hv Hs Hne _|c' Hs He|e c' Hs Hne _].
  - right. destruct (Hreach id e He) as (Hsoft & d0 & Hseen & Ha). unfold fresh in Hf. b2p.
    destruct Hf as [[Hv _] Hw]. split; [lia|]. exists (ce_loaded e), d0.
    split; [done|]. split; [done|]. left. lia.
  - by left.
  - right. split; [done|]. destruct (Hreach id e He) as (_ & d0 & Hseen & Ha).
    exists (ce_loaded e), d0. split; [done|]. split; [done|]. right. eauto.
  - split; [done|]. intros _. by rewrite He, lookup_delete_eq.
  - split; [done|]. by intros ->.
Qed.

(** Recovery: when no statement fails, a Get of an entry that is missing,
    expired, degraded or past its refresh window answers what the loader
    answers on the current database, success or verdict, whatever the cache
    held, unless the stored profiles are unreadable. *)
Theorem cache_recovers id d c t
    (Hstale : forall e, entries c !! id = Some e -> fresh t e = false)
    (Hread : (load_snapshot id (MkWorld d [] t)).1 <> inl plain_error) :
  (Get registry_loader refreshTTL id (MkWorld (MkProcess d c) [] t)).1 =
  (load_snapshot id (MkWorld d [] t)).1.
Proof.
  assert (Hg : Get registry_loader refreshTTL id (MkWorld (MkProcess d c) [] t) =
               reload registry_loader refreshTTL id (MkWorld (MkProcess d c) [] t)).
  { unfold Get, bind at 1, now, bind at 1, gets. simpl.
    destruct (entries c !! id) as [e|] eqn:Ee; [by rewrite (Hstale e)|done]. }
  rewrite Hg. unfold reload, bind at 1. rewrite on_cache_run.
  unfold bind at 1, attempt, registry_loader, on_db, zoom. simpl.
  assert (Hcase : (exists s, (load_snapshot id (MkWorld d [] t)).1 = inr s) \/
    (load_snapshot id (MkWorld d [] t)).1 = inl ErrSnapshotUnavailable).
  { revert Hread. unfold load_snapshot. run_ok.
    destruct (snapshot_row id d) as [[[s p] a]|]; run_ok; [|by right].
    destruct (match a with Some _ => _ | None => _ end); run_ok; [by right|].
    destruct (profiles_readable _); cbn [negb]; run_ok; [eauto|done]. }
  destruct (load_snapshot id (MkWorld d [] t)) as [x v]. simpl in *.
  destruct Hcase as [[s ->]| ->]; done.
Qed.
End Statements.

(** *** A pointer that moves *)

Definition sc_snap (id version : Z) : SnapshotRow :=
  MkSnapshotRow id 2 version "c1" "" "" "" [JObj [("profile_id", JStr "default")]] 0 1000 RegPublished.
Definition sc_db (active : Z) : Database :=
  with_pointers [MkPointerRow 2 active 0]
    (with_snapshots [sc_snap 3 1; sc_snap 4 2]
      (with_providers [MkProviderRow 2 "p" "MODEL_PROVIDER" "e" "o" "w" RegPublished 1 1 None] empty_db)).
Definition sc_w0 : World Process := MkWorld (MkProcess (sc_db 3) NewSnapshotCache) [] 100.
Definition sc_cache : SnapshotCache := cache (store (Get registry_loader 60 3 sc_w0).2).
Definition sc_w1 : World Process := MkWorld (MkProcess (sc_db 4) sc_cache) [] 110.

(** A deactivated snapshot is served from a warm cache: loaded at time 100
    with a refresh window of 60, snapshot 3 is returned at time 110 although the
    active pointer has moved to snapshot 4 and the loader would refuse it. *)
Theorem cache_serves_deactivated :
  (exists s, (Get registry_loader 60 3 sc_w1).1 = inr s /\ ls_id s = 3) /\
  (registry_loader 3 sc_w1).1 = inl ErrSnapshotUnavailable.
Proof. split; [eexists; split|]; vm_compute; reflexivity. Qed.

Definition sc_seen (t : Z) (d : Database) : Prop := t = 100 /\ d = sc_db 3.

Lemma cache_serves_witness :
  database (store (Get registry_loader 60 3 sc_w1).2) = sc_db 4.
Proof.
  destruct (Get registry_loader 60 3 sc_w1) as [r w'] eqn:E.
  assert (Hr : reachable 60 sc_seen (cache (store sc_w1))) by exact (reach_get 60 sc_seen 3 sc_w0 (reach_new _ _) (conj eq_refl eq_refl)).
  destruct (cache_serves 60 sc_seen 3 sc_w1 r w' Hr E) as [Hd _].
  exact Hd.
Defined.

Lemma cache_recovers_witness :
  (Get registry_loader 60 3 (MkWorld (MkProcess (sc_db 4) sc_cache) [] 160)).1 =
  inl ErrSnapshotUnavailable.
Proof.
  rewrite (cache_recovers 60 3 (sc_db 4) sc_cache 160); [vm_compute; reflexivity| |vm_compute; discriminate].
  intros e He. vm_compute in He. injection He as <-. reflexivity.
Defined.

End SnapCacheProps.
