(* ===== verification/ResolveService.v ===== *)
(** * The resolve service and its HTTP adapter
    (src/internal/resolver/service.go, httpapi.go)

    The pipeline of a resolve: validation, policy, capability, binding,
    snapshot, profile, then the plan store.  The policy engine is the
    composition root's adapter, a record of two functions.  The theorems: a
    plan that is returned is justified requirement by requirement against the
    database; the answer does not depend on the order of the requirements; an
    error changes nothing and has one of the contract's codes; plans are read
    by their caller or an auditor only. *)

From S2P Require Import Prelude GoStd GoJson GoTime Sql Schema Resolver PlanStore SnapCache.
From S2P Require Binding.

(** ** The policy engine *)

Record PolicyRevision : Type := MkPolicyRevision {
  pr_set : string; pr_version : Z; pr_expression : string }.
Record PolicyInput : Type := MkPolicyInput {
  in_region : string; in_class : string; in_environment : string; in_tenant : string }.
(** [ActiveRevision]: a revision, none (nil or ErrNoActivePolicy), an error. *)
Inductive policy_answer : Type :=
| PolicyActive (rev : PolicyRevision)
| PolicyNone
| PolicyError.
Record PolicyEngine : Type := MkPolicyEngine {
  ActiveRevision : string -> policy_answer;
  (** the verdict and its reason, or an error *)
  Evaluate : PolicyRevision -> PolicyInput -> option (bool * string) }.

Record CallerMeta : Type := MkCallerMeta {
  CallerRef : string; TenantRef : string; Environment : string; TraceID : string }.
Record Service : Type := MkService {
  Policy : option PolicyEngine;
  PolicySetID : string;
  DefaultTTL : Z; (* nanoseconds, as MaxTTL and the refresh window *)
  MaxTTL : Z;
  RefreshTTL : Z }.

Definition Proc A : Type := M Process A.
Definition unavailable : err := resErr CodeResolverUnavailable 503 [].
Definition detail (rid : string) (codes : list string) : list (string * list string) := [(rid, codes)].

(** ** The policy step *)

Definition policy_input (meta : CallerMeta) (r : Requirement) : PolicyInput :=
  MkPolicyInput (strConstraint (Constraints r) "region")
    (strConstraint (Constraints r) "data_classification_max") (Environment meta) (TenantRef meta).
Fixpoint evaluate_all (e : PolicyEngine) (rev : PolicyRevision) (meta : CallerMeta)
    (rs : list Requirement) : option err :=
  match rs with
  | [] => None
  | r :: rs' =>
      match Evaluate e rev (policy_input meta r) with
      | None => Some unavailable
      | Some (allow, reason) =>
          if (allow : bool) then evaluate_all e rev meta rs'
          else Some (resErr CodeNoCompatibleProvider 422
                       (detail (RequirementID r) [ReasonPolicyDenied; reason]))
      end
  end.
(** The policy revision the plan carries, or the error. *)
Definition policy_step (svc : Service) (meta : CallerMeta) (rs : list Requirement)
    : err + (string * Z) :=
  match Policy svc with
  | None => inr ("", 0)
  | Some e =>
      if PolicySetID svc =s "" then inr ("", 0)
      else match ActiveRevision e (PolicySetID svc) with
           | PolicyActive rev =>
               match evaluate_all e rev meta rs with
               | Some err => inl err
               | None => inr (pr_set rev, pr_version rev)
               end
           | PolicyNone => inr ("", 0)
           | PolicyError => inl unavailable
           end
  end.

(** ** Capabilities *)

(** A member of a decoded object. *)
Definition member (k : string) (fs : list (string * json)) : option json :=
  snd <$> List.find (fun kv => kv.1 =s k) fs.

Definition required_present (r : Requirement) (keys : list json) : bool :=
  forallb (fun k => match Constraints r !! as_string k with Some _ => true | None => false end) keys.
Definition enum_allows (r : Requirement) (kv : string * json) : bool :=
  match Constraints r !! kv.1 with
  | None => true
  | Some got =>
      match kv.2 with
      | JArr l => existsb (fun v => as_string v =s as_string got) l
      | _ => true
      end
  end.
Definition validateAgainstSchema (r : Requirement) (schema : json) : option err :=
  match schema with
  | JObj fs =>
      if negb (match member "required" fs with Some (JArr l) => required_present r l | _ => true end)
      then Some invalid
      else if negb (match member "enum_constraints" fs with
                    | Some (JObj enum) => forallb (enum_allows r) enum
                    | _ => true
                    end)
      then Some invalid
      else None
  | JNull => None
  | _ => Some unavailable
  end.

Definition published_capability (key : string) (major : Z) (c : CapabilityRow) : bool :=
  (ca_key c =s key) && (ca_major c =? major) && (ca_state c =d RegPublished).
Definition latest_capability (key : string) (major : Z) (d : Database) : option CapabilityRow :=
  max_by ca_revision (rows_where (published_capability key major) (capabilities d)).

(** service.go: capability.  The schema's text is compared with "{}" and
    "null" first. *)
Definition capability (r : Requirement) : Db CapabilityRow :=
  catch connect (fun _ => throw unavailable) ;!
  let! c := catch (query_row (latest_capability (CapabilityID r) (CapabilityMajorVersion r)))
    (fun e => if is_no_rows e
              then throw (resErr CodeCapabilityNotFound 404
                            (detail (RequirementID r) ["CAPABILITY_MISSING"]))
              else throw unavailable) in
  match ca_schema c with
  | JNull | JObj [] => ret c
  | schema =>
      match validateAgainstSchema r schema with
      | Some e => throw e
      | None => ret c
      end
  end.

(** ** Candidates *)

Record bindingCandidate : Type := MkCandidate {
  c_binding : BindingRow;   (* key, revision, snapshot, profile, priority, constraints *)
  c_provider : ProviderRow; (* key, state *)
}.
Definition c_priority (c : bindingCandidate) : Z := cb_priority (c_binding c).

Definition inSet (set : list string) (v : string) : bool :=
  match set with [] => true | _ => str_mem v set end.
Definition scopeMatches (sc : Scope) (tenantRef region : string) : bool :=
  if negb (inSet (TenantRefs sc) tenantRef) then false
  else if region =s "" then true
  else match ScopeRegions sc with [] => true | _ => inSet (ScopeRegions sc) region end.

Definition candidate_le (a b : bindingCandidate) : Prop :=
  c_priority a < c_priority b \/
  (c_priority a = c_priority b /\ String.le (cb_key (c_binding a)) (cb_key (c_binding b))).
#[export] Instance candidate_le_dec : RelDecision candidate_le.
Proof. unfold candidate_le. intros a b. apply _. Defined.

(** The join of the live bindings of a capability with their providers. *)
Definition live_binding (capabilityID : Z) (environment : string) (b : BindingRow) : bool :=
  (cb_capability_id b =? capabilityID) && (cb_environment b =s environment) &&
  (cb_state b =d BindPublished) && cb_is_active b.
Definition joined (capabilityID : Z) (environment : string) (d : Database) : list bindingCandidate :=
  omap (fun b => MkCandidate b <$> first_where (fun p => rp_id p =? cb_provider_id b) (providers d))
    (rows_where (live_binding capabilityID environment) (bindings d)).
Definition eligible (meta : CallerMeta) (r : Requirement) (c : bindingCandidate) : bool :=
  (rp_state (c_provider c) =d RegPublished) &&
  scopeMatches (cb_scope (c_binding c)) (TenantRef meta) (strConstraint (Constraints r) "region").

Definition candidates (capabilityID : Z) (meta : CallerMeta) (r : Requirement)
    : Db (list bindingCandidate) :=
  catch connect (fun _ => throw unavailable) ;!
  let! rows := catch (query (fun d => merge_sort candidate_le (joined capabilityID (Environment meta) d)))
    (fun _ => throw unavailable) in
  connect ;! (* rows.Err() *)
  ret (List.filter (eligible meta r) rows).

(** ** Profiles *)

Definition str_member (k : string) (p : json) : string :=
  match p with JObj fs => match member k fs with Some v => as_string v | None => "" end | _ => "" end.
Definition list_member (k : string) (p : json) : list json :=
  match p with JObj fs => match member k fs with Some (JArr l) => l | _ => [] end | _ => [] end.
Definition anyInSet (set : list json) (v : string) : bool := existsb (fun s => as_string s =s v) set.
Definition no_profile (r : Requirement) (code : string) : err :=
  resErr CodeNoCompatibleProvider 422 (detail (RequirementID r) [code]).
Definition class_refused (class profileMax bindingMax : string) : bool :=
  (rankOf dataClassRank class >? rankOf dataClassRank profileMax) ||
  (negb (bindingMax =s "") && (rankOf dataClassRank class >? rankOf dataClassRank bindingMax)).
Definition match_reasons : list string :=
  sort_strings [ReasonCapabilityMatch; ReasonRegionMatch; ReasonDataClassMatch].

Definition matchProfile (snap : LoadedSnapshot) (top : bindingCandidate) (r : Requirement)
    : err + list string :=
  match List.find (fun p => str_member "profile_id" p =s cb_profile (c_binding top)) (ls_profiles snap) with
  | None | Some JNull => inl (no_profile r ReasonProfileUnavailable)
  | Some profile =>
      if negb (str_member "status" profile =s "AVAILABLE")
      then inl (no_profile r ReasonProfileUnavailable)
      else
        let keys := list_member "capability_keys" profile in
        if (Z.of_nat (length keys) >? 0) && negb (anyInSet keys (CapabilityID r))
        then inl (no_profile r (ReasonCapabilityMatch +:+ "_FAIL"))
        else
          let region := strConstraint (Constraints r) "region" in
          let regions := list_member "regions" profile in
          if negb (region =s "") && (Z.of_nat (length regions) >? 0) && negb (anyInSet regions region)
          then inl (no_profile r ReasonRegionMismatch)
          else
            let class := strConstraint (Constraints r) "data_classification_max" in
            if negb (class =s "") &&
               class_refused class (str_member "data_classification_max" profile)
                 (str_member "data_classification_max" (cb_constraints (c_binding top)))
            then inl (no_profile r ReasonDataClassMismatch)
            else inr match_reasons
  end.

(** ** Resolve *)

Definition plan_item (r : Requirement) (cap : CapabilityRow) (top : bindingCandidate)
    (snap : LoadedSnapshot) (reasons : list string) : PlanItem :=
  MkPlanItem (RequirementID r) (CapabilityID r) (CapabilityMajorVersion r) (ca_revision cap)
    (cb_key (c_binding top)) (cb_revision (c_binding top)) (rp_key (c_provider top))
    (ls_provider_type snap) (ls_endpoint snap) (ls_version snap) (ls_contract snap)
    (cb_profile (c_binding top)) reasons.
Definition revision_of (i : PlanItem) : RevisionInput :=
  MkRevisionInput (it_capability i) (it_capability_revision i) (it_binding i)
    (it_binding_revision i) (it_provider i) (it_snapshot_version i) (it_profile i).

Section Resolve.
Context `{Printer} (svc : Service).

(** Steps 4 to 6 for one requirement. *)
Definition resolve_one (t : Z) (meta : CallerMeta) (r : Requirement) : Proc PlanItem :=
  let! cap := on_db (capability r) in
  let! cands := on_db (candidates (ca_id cap) meta r) in
  match cands with
  | [] => throw (resErr CodeNoCompatibleProvider 422
                   (detail (RequirementID r) [ReasonConstraintMismatch]))
  | top :: rest =>
      guard (match rest with next :: _ => c_priority top =? c_priority next | [] => false end)
        (resErr CodeAmbiguousBinding 409 (detail (RequirementID r) ["PRIORITY_TIE"])) ;!
      let! snap := catch (Get registry_loader (RefreshTTL svc) (cb_snapshot_id (c_binding top)))
        (fun e => if e =d ErrSnapshotUnavailable
                  then throw (resErr CodeSnapshotExpired 424
                                (detail (RequirementID r) ["SNAPSHOT_INACTIVE"]))
                  else throw unavailable) in
      guard (negb (ls_valid_until snap >? t))
        (resErr CodeSnapshotExpired 424 (detail (RequirementID r) ["SNAPSHOT_EXPIRED"])) ;!
      match matchProfile snap top r with
      | inl e => throw e
      | inr reasons => ret (plan_item r cap top snap reasons)
      end
  end.
Fixpoint resolve_all (t : Z) (meta : CallerMeta) (rs : list Requirement) : Proc (list PlanItem) :=
  match rs with
  | [] => ret []
  | r :: rs' =>
      let! i := resolve_one t meta r in
      let! rest := resolve_all t meta rs' in
      ret (i :: rest)
  end.

Definition second : Z := 1000000000.
(** [time.Duration(n) * time.Second] wraps. *)
Definition plan_ttl (req : Request) : Z :=
  let ttl := if MaxPlanTTLSeconds (ReqOptions req) >? 0
             then Int64.wrap (MaxPlanTTLSeconds (ReqOptions req) * second)
             else DefaultTTL svc in
  if (MaxTTL svc >? 0) && (ttl >? MaxTTL svc) then MaxTTL svc else ttl.

Definition new_plan (newID : string) (t : Z) (req : Request) (meta : CallerMeta) (idemKey : string)
    (pol : string * Z) (its : list PlanItem) : Plan :=
  MkPlan newID (CallerRef meta) (TenantRef meta) (TaskRef req) None
    (Fingerprint req (map revision_of its) pol.1 pol.2) (RequestDigest req) idemKey pol.1 pol.2
    (TraceID meta) t (t + plan_ttl req) its.

(** service.go: Resolve; [newID] is what NewID mints.  Returns the plan and
    whether it was created. *)
Definition Resolve (req : Request) (meta : CallerMeta) (idemKey newID : string) : Proc (Plan * bool) :=
  match ValidateRequest req with
  | Some e => throw e
  | None =>
      match policy_step svc meta (Requirements req) with
      | inl e => throw e
      | inr pol =>
          let! t := now in
          let! its := resolve_all t meta (ordered (Requirements req)) in
          let! x := on_db (CreatePlan (new_plan newID t req meta idemKey pol its)) in
          ret (x.2, x.1)
      end
  end.

End Resolve.

(** ** The HTTP adapter *)

Record Response : Type := MkResponse { code : Z; body : json }.
Definition jdetails (ds : list (string * list string)) : json :=
  JArr (map (fun d => JObj [("requirement_id", JStr d.1); ("reason_codes", jstrings d.2)]) ds).
(** writeResolverError; the message is left out *)
Definition writeResolverError (c : string) (status : Z) (details : list (string * list string))
    (requestID : string) : Response :=
  MkResponse status
    (JObj [("error", JObj (
       [("code", JStr c)] ++
       (match details with [] => [] | _ => [("details", jdetails details)] end) ++
       [("request_id", JStr requestID);
        ("retryable", JBool ((status >=? 500) || (c =s CodeRateLimited)))]))]).

Definition status_name (s : option PlanStatus) : string :=
  match s with
  | None => "" | Some PlanResolved => "RESOLVED" | Some PlanExpired => "EXPIRED"
  | Some PlanRevoked => "REVOKED"
  end.
(** The status reported: a RESOLVED plan past its expiry is EXPIRED. *)
Definition derived_status (now : Z) (p : Plan) : option PlanStatus :=
  if (p_status p =d Some PlanResolved) && (now >? p_expires_at p) then Some PlanExpired else p_status p.
Definition item_json (i : PlanItem) : json :=
  JObj [("binding", JObj [("id", JStr (it_binding i)); ("revision", JNum (dec (it_binding_revision i)))]);
        ("capability", JObj [("id", JStr (it_capability i)); ("major_version", JNum (dec (it_major i)));
                             ("revision", JNum (dec (it_capability_revision i)))]);
        ("invocation", JObj [("profile_or_action", JStr (it_profile i)); ("protocol", JStr "HTTP_JSON")]);
        ("provider", JObj [("contract_version", JStr ""); ("endpoint_ref", JStr (it_endpoint i));
                           ("id", JStr (it_provider i)); ("type", JStr (it_provider_type i))]);
        ("reason_codes", jstrings_nil (it_reasons i));
        ("requirement_id", JStr (it_requirement i))].
Definition planResponse (now : Z) (p : Plan) : json :=
  JObj [("created_at", JStr (GoTime.rfc3339_nano (p_created_at p)));
        ("decision_fingerprint", JStr (p_fingerprint p));
        ("expires_at", JStr (GoTime.rfc3339_nano (p_expires_at p)));
        ("items", JArr (map item_json (p_items p)));
        ("policy", JObj [("set_id", JStr (p_policy_set p)); ("version", JNum (dec (p_policy_version p)))]);
        ("resource_plan_id", JStr (p_id p));
        ("status", JStr (status_name (derived_status now p)));
        ("task_ref", JStr (p_task p));
        ("trace_id", JStr (p_trace p))].

(** A request as the handlers see it: the header, the body if it could be read
    within the limit, what it decodes to without undeclared fields, and the
    verified identity. *)
Record Identity : Type := MkIdentity { Subject : string; IdTenant : string; Scopes : list string }.
Record Incoming : Type := MkIncoming {
  idem_header : string;
  raw_body : option string;
  decoded : option Request;
  identity : Identity;
  environment_header : string;
  request_id : string;
  new_id : string;
}.

Section Handlers.
Context `{Printer} (svc : Service).

(** The response of an error: ResolveErrors as they are, others 503. *)
Definition error_response (rid : string) (e : err) : Response :=
  match e with
  | EHttp c status details => writeResolverError c status details rid
  | _ => writeResolverError CodeResolverUnavailable 503 [] rid
  end.

(** httpapi.go: handleResolve *)
Definition handleResolve (q : Incoming) : Proc Response :=
  let bad := writeResolverError CodeInvalidRequirement 400 [] (request_id q) in
  if idem_header q =s "" then ret bad
  else match raw_body q with
  | None => ret bad
  | Some raw =>
      match CheckForbiddenFields raw with
      | Some e => ret (error_response (request_id q) e)
      | None =>
          match decoded q with
          | None => ret bad
          | Some req =>
              let meta := MkCallerMeta (Subject (identity q)) (IdTenant (identity q))
                            (environment_header q) (request_id q) in
              let! r := attempt (Resolve svc req meta (idem_header q) (new_id q)) in
              let! t := now in
              match r with
              | inl e => ret (error_response (request_id q) e)
              | inr (plan, _) => ret (MkResponse 200 (planResponse t plan))
              end
          end
      end
  end.

(** httpapi.go: handleGetPlan *)
Definition handleGetPlan (rid : string) (id : Identity) (planID : string) : Proc Response :=
  let! r := attempt (on_db (GetPlan planID)) in
  match r with
  | inl e =>
      if e =d ErrNotFound then ret (writeResolverError CodePlanNotFound 404 [] rid)
      else ret (writeResolverError CodeResolverUnavailable 503 [] rid)
  | inr plan =>
      if negb (p_caller plan =s Subject id) && negb (str_mem "resolver.audit" (Scopes id))
      then ret (writeResolverError CodeCallerNotAllowed 403 [] rid)
      else let! t := now in ret (MkResponse 200 (planResponse t plan))
  end.

End Handlers.

(** ** The pipeline: lemmas *)

Lemma on_db_run {A} (m : Db A) w r w' :
  on_db m w = (r, w') ->
  exists v v', store v = database (store w) /\ clock v = clock w /\ m v = (r, v') /\
    database (store w') = store v' /\ cache (store w') = cache (store w) /\ clock w' = clock v'.
Proof.
  intros Hr. apply zoom_run in Hr as (v & v' & H1 & H2 & H3 & H4 & H5).
  exists v, v'. by rewrite H4.
Qed.

Lemma catch_inr {DB A} (m : M DB A) h w a w' :
  (forall e w1 a w2, h e w1 <> (inr a, w2)) -> catch m h w = (inr a, w') -> m w = (inr a, w').
Proof.
  intros Hh. unfold catch. destruct (m w) as [[e|x] w1]; [|done]. intros Hr. by apply Hh in Hr.
Qed.

Lemma capability_inr r v c v' :
  capability r v = (inr c, v') ->
  store v' = store v /\ clock v' = clock v /\
  latest_capability (CapabilityID r) (CapabilityMajorVersion r) (store v) = Some c.
Proof.
  unfold capability. intros Hr. apply bind_inr in Hr as (u & v1 & Hc & Hr).
  apply catch_inr in Hc; [|done]. apply connect_inr in Hc as [H1 H1c].
  apply bind_inr in Hr as (c' & v2 & Hq & Hr).
  apply catch_inr in Hq; [|intros e w1 a w2; by destruct (is_no_rows e)].
  apply query_row_inr in Hq as (Hl & H2 & H2c).
  assert (c = c' /\ v' = v2) as [-> ->].
  { destruct (ca_schema c') as [| | | | |[|f fs]];
      try destruct (validateAgainstSchema _ _); by apply ret_inr in Hr || discriminate. }
  split; [congruence|]. split; [congruence|]. by rewrite H1 in Hl.
Qed.

Lemma candidates_inr capID meta r v l v' :
  candidates capID meta r v = (inr l, v') ->
  store v' = store v /\ clock v' = clock v /\
  l = List.filter (eligible meta r) (merge_sort candidate_le (joined capID (Environment meta) (store v))).
Proof.
  unfold candidates. intros Hr. apply bind_inr in Hr as (u & v1 & Hc & Hr).
  apply catch_inr in Hc; [|done]. apply connect_inr in Hc as [H1 H1c].
  apply bind_inr in Hr as (rows & v2 & Hq & Hr). apply catch_inr in Hq; [|done].
  apply query_inr in Hq as (-> & H2 & H2c). apply bind_inr in Hr as (u2 & v3 & Hc & Hr).
  apply connect_inr in Hc as [H3 H3c]. apply ret_inr in Hr as [-> ->].
  split; [congruence|]. split; [congruence|]. by rewrite H1.
Qed.

#[export] Instance candidate_le_trans : Transitive candidate_le.
Proof.
  unfold candidate_le. intros a b c [H1|[H1 H2]] [H3|[H3 H4]]; try (left; lia).
  right. split; [lia|]. by etrans.
Qed.
#[export] Instance candidate_le_total : Total candidate_le.
Proof.
  intros a b. unfold candidate_le. destruct (Z.lt_trichotomy (c_priority a) (c_priority b)) as [?|[?|?]];
    [auto| |auto]. destruct (total String.le (cb_key (c_binding a)) (cb_key (c_binding b))); auto.
Qed.

(** The head of an untied sorted list has the least priority alone. *)
Lemma untied_top p l top rest :
  List.filter p (merge_sort candidate_le l) = top :: rest ->
  match rest with next :: _ => c_priority top =? c_priority next | [] => false end = false ->
  top ∈ l /\ p top = true /\
  forall c, c ∈ l -> p c = true -> c = top \/ c_priority top < c_priority c.
Proof.
  intros Hl Htie.
  assert (Hs : StronglySorted candidate_le (top :: rest)).
  { rewrite <- Hl. pose proof (StronglySorted_merge_sort candidate_le l) as Hs. revert Hs.
    generalize (merge_sort candidate_le l) as m. clear. induction m as [|x m IH]; intros Hs; [constructor|].
    apply StronglySorted_inv in Hs as [Hs Hx]. simpl. destruct (p x); [|auto]. constructor; [auto|].
    rewrite Forall_forall in Hx |- *. intros y Hy. apply Hx.
    apply list_elem_of_In in Hy. apply filter_In in Hy as [Hy _]. by apply list_elem_of_In. }
  assert (Hin : forall c, c ∈ top :: rest <-> c ∈ l /\ p c = true).
  { intros c. rewrite <- Hl, list_elem_of_In, filter_In, <- list_elem_of_In.
    by rewrite merge_sort_Permutation. }
  destruct (proj1 (Hin top)) as [H1 H2]; [constructor|]. split; [done|]. split; [done|].
  intros c Hc Hp. assert (Hcl : c ∈ top :: rest) by by apply Hin.
  apply elem_of_cons in Hcl as [->|Hcl]; [by left|]. right.
  apply StronglySorted_inv in Hs as [Hs Htop]. destruct rest as [|next rest]; [by apply elem_of_nil in Hcl|].
  apply Z.eqb_neq in Htie. rewrite Forall_forall in Htop.
  assert (Hn : candidate_le top next) by (apply Htop; constructor).
  assert (Hpn : c_priority top < c_priority next) by (unfold candidate_le in Hn; lia).
  apply elem_of_cons in Hcl as [->|Hcl]; [done|].
  apply StronglySorted_inv in Hs as [_ Hs]. rewrite Forall_forall in Hs. apply Hs in Hcl.
  unfold candidate_le in Hcl. lia.
Qed.

(** ** What justifies a plan item *)

Lemma inSet_spec set v : inSet set v = true <-> set = [] \/ v ∈ set.
Proof.
  unfold inSet. destruct set as [|x l]; [by split; [left|]|]. rewrite str_mem_spec.
  split; [by right|by intros [|]].
Qed.
Lemma scopeMatches_spec sc tenant region :
  scopeMatches sc tenant region = true <->
  (TenantRefs sc = [] \/ tenant ∈ TenantRefs sc) /\
  (region = "" \/ ScopeRegions sc = [] \/ region ∈ ScopeRegions sc).
Proof.
  rewrite <- !inSet_spec. unfold scopeMatches. destruct (inSet (TenantRefs sc) tenant); simpl; [|naive_solver].
  destruct (String.eqb_spec region "") as [->|]; [tauto|].
  destruct (ScopeRegions sc) eqn:E; simpl; [tauto|]. naive_solver.
Qed.

Section Justified.
Context (seen : Z -> Database -> Prop) (t : Z) (meta : CallerMeta) (d : Database) (r : Requirement).

Record justified_by (cap : CapabilityRow) (top : bindingCandidate) (snap : LoadedSnapshot)
    (profile : json) : Prop := {
  (* the latest published revision of the capability asked for *)
  jb_cap : cap ∈ capabilities d /\ ca_key cap = CapabilityID r /\
    ca_major cap = CapabilityMajorVersion r /\ ca_state cap = RegPublished;
  jb_latest : forall c, c ∈ capabilities d -> ca_key c = CapabilityID r ->
    ca_major c = CapabilityMajorVersion r -> ca_state c = RegPublished ->
    ca_revision c <= ca_revision cap;
  (* a live binding of it with a published provider *)
  jb_binding : c_binding top ∈ bindings d /\ cb_capability_id (c_binding top) = ca_id cap /\
    cb_environment (c_binding top) = Environment meta /\
    cb_state (c_binding top) = BindPublished /\ cb_is_active (c_binding top) = true;
  jb_provider : c_provider top ∈ providers d /\
    rp_id (c_provider top) = cb_provider_id (c_binding top) /\
    rp_state (c_provider top) = RegPublished;
  (* whose tenants and regions admit the request; factory_refs and agent_refs,
     which the contract of bindings wants matched as well, are not looked at *)
  jb_tenant : TenantRefs (cb_scope (c_binding top)) = [] \/
    TenantRef meta ∈ TenantRefs (cb_scope (c_binding top));
  jb_in_region : strConstraint (Constraints r) "region" = "" \/
    ScopeRegions (cb_scope (c_binding top)) = [] \/
    strConstraint (Constraints r) "region" ∈ ScopeRegions (cb_scope (c_binding top));
  (* and the only one of least priority *)
  jb_least : forall c, c ∈ joined (ca_id cap) (Environment meta) d -> eligible meta r c = true ->
    c = top \/ c_priority top < c_priority c;
  (* its pinned snapshot: unexpired, active and published when loaded *)
  jb_valid : ls_valid_until snap > t;
  jb_active : exists t0 d0, seen t0 d0 /\ active_published (cb_snapshot_id (c_binding top)) d0 snap;
  (* and its profile there: available, for this capability, region and class *)
  jb_profile : profile ∈ ls_profiles snap /\
    str_member "profile_id" profile = cb_profile (c_binding top) /\
    str_member "status" profile = "AVAILABLE";
  jb_serves : list_member "capability_keys" profile = [] \/
    anyInSet (list_member "capability_keys" profile) (CapabilityID r) = true;
  jb_region : strConstraint (Constraints r) "region" = "" \/
    list_member "regions" profile = [] \/
    anyInSet (list_member "regions" profile) (strConstraint (Constraints r) "region") = true;
  jb_class : strConstraint (Constraints r) "data_classification_max" = "" \/
    class_refused (strConstraint (Constraints r) "data_classification_max")
      (str_member "data_classification_max" profile)
      (str_member "data_classification_max" (cb_constraints (c_binding top))) = false;
}.
Definition justified (i : PlanItem) : Prop :=
  exists cap top snap profile, justified_by cap top snap profile /\
    i = plan_item r cap top snap match_reasons.
End Justified.

Lemma matchProfile_inr snap top r reasons :
  matchProfile snap top r = inr reasons ->
  reasons = match_reasons /\
  exists profile, profile ∈ ls_profiles snap /\
    str_member "profile_id" profile = cb_profile (c_binding top) /\
    str_member "status" profile = "AVAILABLE" /\
    (list_member "capability_keys" profile = [] \/
     anyInSet (list_member "capability_keys" profile) (CapabilityID r) = true) /\
    (strConstraint (Constraints r) "region" = "" \/ list_member "regions" profile = [] \/
     anyInSet (list_member "regions" profile) (strConstraint (Constraints r) "region") = true) /\
    (strConstraint (Constraints r) "data_classification_max" = "" \/
     class_refused (strConstraint (Constraints r) "data_classification_max")
       (str_member "data_classification_max" profile)
       (str_member "data_classification_max" (cb_constraints (c_binding top))) = false).
Proof.
  unfold matchProfile.
  destruct (List.find _ (ls_profiles snap)) as [profile|] eqn:Ef; [|discriminate].
  apply find_some in Ef as [Hin Hid]. apply list_elem_of_In in Hin. apply String.eqb_eq in Hid.
  intros Hm.
  assert (Hm' : (if negb (str_member "status" profile =s "AVAILABLE") then _ else _) = inr reasons)
    by (destruct profile; [discriminate|exact Hm..]). clear Hm. cbv zeta in Hm'.
  destruct (String.eqb_spec (str_member "status" profile) "AVAILABLE") as [Hst|]; [|discriminate].
  simpl in Hm'.
  destruct ((_ >? 0) && negb (anyInSet (list_member "capability_keys" profile) _)) eqn:Ek; [discriminate|].
  destruct (_ && negb (anyInSet (list_member "regions" profile) _)) eqn:Er; [discriminate|].
  destruct (negb _ && class_refused _ _ _) eqn:Ec; [discriminate|].
  injection Hm' as <-. split; [done|]. exists profile.
  assert (Hlen : forall l : list json, (Z.of_nat (length l) >? 0) = false -> l = []).
  { intros [|x l] Hl; [done|]. exfalso. rewrite Z.gtb_ltb in Hl. apply Z.ltb_ge in Hl. simpl in Hl. lia. }
  do 3 (split; [done|]). split; [|split].
  - apply andb_false_iff in Ek as [Ek|Ek]; [left; auto|right]. by apply negb_false_iff in Ek.
  - apply andb_false_iff in Er as [Er|Er]; [|right; right; by apply negb_false_iff in Er].
    apply andb_false_iff in Er as [Er|Er]; [left; by apply negb_false_iff, String.eqb_eq in Er|right; left; auto].
  - apply andb_false_iff in Ec as [Ec|Ec]; [left; by apply negb_false_iff, String.eqb_eq in Ec|by right].
Qed.

Section Pipeline.
Context `{Printer} (svc : Service) (seen : Z -> Database -> Prop).

Lemma latest_capability_spec key major d c :
  latest_capability key major d = Some c ->
  (c ∈ capabilities d /\ ca_key c = key /\ ca_major c = major /\ ca_state c = RegPublished) /\
  forall c', c' ∈ capabilities d -> ca_key c' = key -> ca_major c' = major ->
    ca_state c' = RegPublished -> ca_revision c' <= ca_revision c.
Proof.
  assert (Hp : forall x, published_capability key major x = true <->
    ca_key x = key /\ ca_major x = major /\ ca_state x = RegPublished).
  { intros x. unfold published_capability. b2p. rewrite bool_decide_eq_true. tauto. }
  intros Hl. apply max_by_some in Hl as [Hin Hmax]. apply elem_of_rows_where in Hin as [Hin Hc].
  apply Hp in Hc. split; [done|]. intros c' Hin' Hk Hm Hs. apply Hmax, elem_of_rows_where.
  split; [done|]. by apply Hp.
Qed.

Lemma elem_of_joined capID env d c :
  c ∈ joined capID env d ->
  (c_binding c ∈ bindings d /\ cb_capability_id (c_binding c) = capID /\
   cb_environment (c_binding c) = env /\ cb_state (c_binding c) = BindPublished /\
   cb_is_active (c_binding c) = true) /\
  c_provider c ∈ providers d /\ rp_id (c_provider c) = cb_provider_id (c_binding c).
Proof.
  unfold joined. rewrite list_elem_of_omap. intros (b & Hb & Hc).
  apply elem_of_rows_where in Hb as [Hb Hl].
  destruct (first_where _ (providers d)) as [p|] eqn:Ep; [|discriminate]. injection Hc as <-.
  apply first_where_some in Ep as [Hp Hid]. apply Z.eqb_eq in Hid.
  unfold live_binding in Hl. b2p. rewrite bool_decide_eq_true in Hl. simpl. tauto.
Qed.

Lemma resolve_one_inr t meta r w i w' :
  cache_ok (RefreshTTL svc) seen (cache (store w)) -> seen (clock w) (database (store w)) ->
  resolve_one svc t meta r w = (inr i, w') ->
  database (store w') = database (store w) /\ clock w' = clock w /\
  cache_ok (RefreshTTL svc) seen (cache (store w')) /\
  justified seen t meta (database (store w)) r i.
Proof.
  intros Hok Hseen Hr. unfold resolve_one in Hr.
  apply bind_inr in Hr as (cap & w1 & Hc & Hr).
  apply on_db_run in Hc as (v & v' & Hv & Hvc & Hc & H1 & H1k & H1c).
  apply capability_inr in Hc as (Hs & Hsc & Hcap). rewrite Hs, Hv in H1. rewrite Hsc, Hvc in H1c.
  rewrite Hv in Hcap. clear v v' Hv Hvc Hs Hsc.
  apply bind_inr in Hr as (cands & w2 & Hc & Hr).
  apply on_db_run in Hc as (v & v' & Hv & Hvc & Hc & H2 & H2k & H2c).
  apply candidates_inr in Hc as (Hs & Hsc & Hcands). rewrite Hs, Hv, H1 in H2. rewrite Hsc, Hvc, H1c in H2c.
  rewrite Hv, H1 in Hcands. clear v v' Hv Hvc Hs Hsc. destruct cands as [|top rest]; [discriminate|].
  apply bind_inr in Hr as (u & w3 & Hg & Hr). apply guard_inr in Hg as [Htie ->].
  apply bind_inr in Hr as (snap & w4 & Hget & Hr).
  apply catch_inr in Hget; [|intros e w5 a w6; by destruct (e =d ErrSnapshotUnavailable)].
  apply Get_outcome in Hget as (H4 & H4c & Ho). rewrite H2k, H1k in Ho. rewrite H2, H2c in Ho.
  apply bind_inr in Hr as (u2 & w5 & Hg & Hr). apply guard_inr in Hg as [Hval ->].
  destruct (matchProfile snap top r) as [e|reasons] eqn:Em; [discriminate|].
  apply ret_inr in Hr as [-> ->]. split; [congruence|]. split; [congruence|].
  split; [by eapply outcome_ok|].
  apply matchProfile_inr in Em as (-> & profile & Hp1 & Hp2 & Hp3 & Hp4 & Hp5 & Hp6).
  exists cap, top, snap, profile. split; [|done].
  symmetry in Hcands. destruct (untied_top _ _ _ _ Hcands Htie) as (Htop & Hel & Hleast).
  apply elem_of_joined in Htop as (Hb & Hpr & Hpid). unfold eligible in Hel.
  apply andb_true_iff in Hel as [Hel1 Hel2]. apply bool_decide_eq_true in Hel1.
  apply latest_capability_spec in Hcap as [Hcap Hlatest].
  assert (Hact : exists t0 d0, seen t0 d0 /\ active_published (cb_snapshot_id (c_binding top)) d0 snap).
  { inversion Ho as [e He Hf Heq1 Heq2|s c' Ha He Heq1 Heq2|e c' lerr He Hv' Hsd Hne He' Heq1 Heq2| |].
    - destruct (Hok _ _ He) as (_ & d0 & Hs0 & Ha0). eauto.
    - eauto.
    - destruct (Hok _ _ He) as (_ & d0 & Hs0 & Ha0). eauto. }
  apply negb_false_iff, Z.gtb_gt in Hval. apply scopeMatches_spec in Hel2 as [Htenant Hregion].
  by split.
Qed.

Lemma resolve_all_inr t meta rs w its w' :
  cache_ok (RefreshTTL svc) seen (cache (store w)) -> seen (clock w) (database (store w)) ->
  resolve_all svc t meta rs w = (inr its, w') ->
  database (store w') = database (store w) /\ clock w' = clock w /\
  Forall2 (justified seen t meta (database (store w))) rs its.
Proof.
  revert w its. induction rs as [|r rs IH]; intros w its Hok Hseen Hr; cbn [resolve_all] in Hr.
  - apply ret_inr in Hr as [-> ->]. done.
  - apply bind_inr in Hr as (i & w1 & H1 & Hr).
    apply resolve_one_inr in H1 as (Hd & Hc & Hok1 & Hj); [|done..].
    apply bind_inr in Hr as (rest & w2 & H2 & Hr). apply ret_inr in Hr as [-> ->].
    apply IH in H2 as (Hd2 & Hc2 & Hf); [|done|by rewrite Hc, Hd].
    split; [congruence|]. split; [congruence|]. constructor; [done|]. by rewrite Hd in Hf.
Qed.

(** A resolve that succeeds built a justified plan and handed it to the store. *)
Lemma Resolve_inr req meta idemKey newID w plan created w' :
  cache_ok (RefreshTTL svc) seen (cache (store w)) -> seen (clock w) (database (store w)) ->
  Resolve svc req meta idemKey newID w = (inr (plan, created), w') ->
  ValidateRequest req = None /\
  exists pol its, policy_step svc meta (Requirements req) = inr pol /\
    Forall2 (justified seen (clock w) meta (database (store w))) (ordered (Requirements req)) its /\
    create_answer (new_plan svc newID (clock w) req meta idemKey pol its) (clock w)
      (database (store w)) (created, plan) (database (store w')).
Proof.
  intros Hok Hseen Hr. unfold Resolve in Hr. destruct (ValidateRequest req); [discriminate|].
  split; [done|]. destruct (policy_step svc meta (Requirements req)) as [e|pol]; [discriminate|].
  apply bind_inr in Hr as (t & w1 & Hn & Hr). apply now_inr in Hn as [-> ->].
  apply bind_inr in Hr as (its & w2 & Ha & Hr). apply resolve_all_inr in Ha as (Hd & Hc & Hf); [|done..].
  apply bind_inr in Hr as (x & w3 & Hx & Hr). apply ret_inr in Hr as [Heq ->].
  apply on_db_run in Hx as (v & v' & Hv & Hvc & Hx & H3 & _ & _). apply CreatePlan_inr in Hx.
  exists pol, its. split; [done|]. split; [done|]. injection Heq as -> ->.
  rewrite Hv, Hd, Hvc, Hc, <- H3 in Hx. by destruct x.
Qed.

(** *** Errors *)

(** The errors a resolve can have, of the table of the specification
    (resource-resolver-api.md, 3.1); the others there come from the gates. *)
Definition error_table : list (string * Z) :=
  [(CodeInvalidRequirement, 400); (CodeCapabilityNotFound, 404); (CodeAmbiguousBinding, 409);
   (CodeIdempotencyConflict, 409); (CodeNoCompatibleProvider, 422); (CodeSnapshotExpired, 424);
   (CodeResolverUnavailable, 503)].
(** A ResolveError of the table, or a database error, which is answered as the
    table's RESOLVER_UNAVAILABLE 503. *)
Definition contract_error (e : err) : Prop :=
  match e with
  | EHttp c s _ => (c, s) ∈ error_table
  | ESql _ => True
  | ETyped _ _ => False
  end.

(** The one error outside the table: the id minted for the plan is taken. *)
Definition id_collision (newID : string) (d : Database) (e : err) : Prop :=
  e = resErr CodeResolverUnavailable 500 [] /\ exists r, r ∈ plans d /\ pl_id r = newID.

Ltac table := simpl; repeat (apply elem_of_cons; first [by left|right]).

Lemma policy_step_inl meta rs e : policy_step svc meta rs = inl e -> contract_error e.
Proof.
  unfold policy_step. destruct (Policy svc) as [pe|]; [|discriminate].
  destruct (PolicySetID svc =s ""); [discriminate|].
  destruct (ActiveRevision pe (PolicySetID svc)) as [rev| |]; [|discriminate|intros [= <-]; table].
  assert (Hall : forall e', evaluate_all pe rev meta rs = Some e' -> contract_error e').
  { induction rs as [|r rs IH]; intros e'; simpl; [discriminate|].
    destruct (Evaluate pe rev _) as [[[|] reason]|]; [auto|intros [= <-]; table|intros [= <-]; table]. }
  destruct (evaluate_all pe rev meta rs); [|discriminate]. intros [= <-]. auto.
Qed.

Lemma validateAgainstSchema_error r s e : validateAgainstSchema r s = Some e -> contract_error e.
Proof.
  unfold validateAgainstSchema. destruct s; try (intros [= <-]; table).
  destruct (negb _); [intros [= <-]; table|]. destruct (negb _); [intros [= <-]; table|discriminate].
Qed.

Lemma matchProfile_inl snap top r e : matchProfile snap top r = inl e -> contract_error e.
Proof.
  unfold matchProfile. destruct (List.find _ _) as [p|]; [|intros [= <-]; table].
  cbv zeta. destruct p; [intros [= <-]; table|..];
    repeat (case_match; [intros [= <-]; table|]); discriminate.
Qed.

Lemma validate_error req e : ValidateRequest req = Some e -> e = invalid.
Proof.
  unfold ValidateRequest. repeat (case_match; [congruence|]). apply validate_requirements_error.
Qed.

Lemma capability_fails r : fails_in contract_error (capability r).
Proof.
  unfold capability. fails_walk; try done; try table.
  all: by eapply validateAgainstSchema_error.
Qed.
Lemma candidates_fails capID meta r : fails_in contract_error (candidates capID meta r).
Proof. unfold candidates. fails_walk; try done; table. Qed.

Lemma resolve_one_fails t meta r : fails_in contract_error (resolve_one svc t meta r).
Proof.
  unfold resolve_one, on_db. fails_walk; try table.
  - apply capability_fails.
  - apply candidates_fails.
  - by eapply matchProfile_inl.
Qed.
Lemma resolve_all_fails t meta rs : fails_in contract_error (resolve_all svc t meta rs).
Proof.
  induction rs as [|r rs IH]; cbn [resolve_all]; fails_walk; [apply resolve_one_fails|done].
Qed.
Lemma byKey_fails caller key : fails_in contract_error (byKey caller key).
Proof. unfold byKey, items. fails_walk; done. Qed.
Lemma plan_tx_fails p : fails_in contract_error (plan_tx p).
Proof.
  unfold plan_tx. apply fails_tx; [done|]. apply fails_bind.
  - apply fails_catch_with; [unfold insert_plan; fails_walk; done|]. intros e He. fails_walk. done.
  - intros a. unfold plan_writes, insert_item, insert_change, insert_outbox. fails_walk; done.
Qed.
Lemma insert_or_replay_error p w e w' :
  insert_or_replay p w = (inl e, w') -> contract_error e \/ id_collision (p_id p) (store w) e.
Proof.
  unfold insert_or_replay, bind at 1. destruct (plan_tx p w) as [[e1|[c|u]] w1] eqn:Et; [| |discriminate].
  - intros [= <- <-]. left. by eapply plan_tx_fails.
  - apply plan_tx_inr in Et as [_ Hc]. destruct (String.eqb_spec c "resource_plan_caller_ref_idempotency_key_key") as [|Hne]; simpl.
    + intros Hr. left. eapply (fails_bind contract_error); [apply byKey_fails| |exact Hr]. intros [q|]; fails_walk; table.
    + intros [= <- _]. right. split; [done|]. unfold plan_check in Hc. destruct (_ || _); [discriminate|].
      destruct (any_where (fun r => pl_id r =s pl_id (plan_row p)) (plans (store w))) eqn:E.
      * apply any_where_spec in E as (r & Hr & Hid). exists r. split; [done|]. by apply String.eqb_eq in Hid.
      * destruct (any_where (with_key _ _) (plans (store w))); [|discriminate]. by injection Hc as <-.
Qed.
Lemma CreatePlan_error p w e w' :
  CreatePlan p w = (inl e, w') -> contract_error e \/ id_collision (p_id p) (store w) e.
Proof.
  unfold CreatePlan. unfold bind at 1. destruct (connect w) as [[e1|u] w1] eqn:Ec.
  { intros [= <- _]. left. unfold connect, query, stmt in Ec. destruct (failing w); [by injection Ec as <- _|discriminate]. }
  apply connect_inr in Ec as [H1 _]. unfold bind at 1.
  pose proof (byKey_store (p_caller p) (p_idem p) w1) as Hk.
  destruct (byKey _ _ w1) as [[e2|[q|]] w2] eqn:E; simpl in Hk.
  - intros [= <- _]. left. by eapply byKey_fails.
  - destruct (negb _); [intros [= <- _]; left; table|discriminate].
  - intros Hr%insert_or_replay_error. by rewrite Hk, H1 in Hr.
Qed.

Lemma resolve_keeps d t meta rs : keeps (fun p => database p = d) (resolve_all svc t meta rs).
Proof.
  assert (Hread : forall A (m : Db A), (forall d', keeps (fun x => x = d') m) ->
    keeps (fun p => database p = d) (on_db m)).
  { intros A m Hm w Hw. destruct (on_db m w) as [x w'] eqn:E.
    apply on_db_run in E as (v & v' & Hv & _ & Hx & Hd & _). simpl. rewrite Hd.
    specialize (Hm d v). rewrite Hx in Hm. apply Hm. congruence. }
  induction rs as [|r rs IH]; cbn [resolve_all]; keeps_walk; [|done].
  unfold resolve_one. keeps_walk.
  - apply Hread. intros d'. unfold capability. keeps_walk.
  - apply Hread. intros d'. unfold candidates. keeps_walk.
  - intros w Hw. destruct (Get _ _ _ w) as [x w'] eqn:E. apply Get_outcome in E as (Hd & _).
    simpl. congruence.
Qed.
End Pipeline.

(** ** The policy step and the order of requirements *)

Lemma evaluate_all_none e rev meta rs :
  evaluate_all e rev meta rs = None <->
  Forall (fun r => exists reason, Evaluate e rev (policy_input meta r) = Some (true, reason)) rs.
Proof.
  induction rs as [|r rs IH]; simpl; [split; [constructor|done]|]. rewrite Forall_cons, <- IH.
  destruct (Evaluate e rev (policy_input meta r)) as [[[|] reason]|]; split;
    try discriminate; try (by intros [[? ?] _]); try tauto.
  intros Hx. split; [eauto|done].
Qed.

(** The policy allowed every requirement, or there is no active policy. *)
Definition policy_allowed (svc : Service) (meta : CallerMeta) (rs : list Requirement)
    (pol : string * Z) : Prop :=
  match Policy svc with
  | None => pol = ("", 0)
  | Some e =>
      if PolicySetID svc =s "" then pol = ("", 0)
      else match ActiveRevision e (PolicySetID svc) with
           | PolicyActive rev =>
               pol = (pr_set rev, pr_version rev) /\
               Forall (fun r => exists reason,
                 Evaluate e rev (policy_input meta r) = Some (true, reason)) rs
           | PolicyNone => pol = ("", 0)
           | PolicyError => False
           end
  end.

Lemma policy_step_inr svc meta rs pol :
  policy_step svc meta rs = inr pol <-> policy_allowed svc meta rs pol.
Proof.
  unfold policy_step, policy_allowed. destruct (Policy svc) as [e|]; [|split; congruence].
  destruct (PolicySetID svc =s ""); [split; congruence|].
  destruct (ActiveRevision e (PolicySetID svc)) as [rev| |]; [|split; congruence|split; [discriminate|done]].
  rewrite <- evaluate_all_none. destruct (evaluate_all e rev meta rs); split; try discriminate;
    try (by intros [_ ?]); [intros [= <-]; done|by intros [-> _]].
Qed.

Lemma policy_allowed_perm svc meta rs rs' pol :
  rs ≡ₚ rs' -> policy_allowed svc meta rs pol -> policy_allowed svc meta rs' pol.
Proof.
  intros Hp. unfold policy_allowed. repeat case_match; try done.
  intros [? Hf]. split; [done|]. by rewrite <- Hp.
Qed.

(** The same request with its requirements in another order. *)
Definition reordered (r1 r2 : Request) : Prop :=
  ContractVersion r1 = ContractVersion r2 /\ TaskRef r1 = TaskRef r2 /\
  ReqOptions r1 = ReqOptions r2 /\ Requirements r1 ≡ₚ Requirements r2.

Lemma validate_reordered r1 r2 :
  reordered r1 r2 -> ValidateRequest r1 = None -> ValidateRequest r2 = None.
Proof.
  intros (Hc & Ht & _ & Hp). unfold ValidateRequest. rewrite <- Hc, <- Ht, <- Hp.
  repeat (case_match; [done|]). intros Hv. apply validate_requirements_spec in Hv as (Hf & Hnd & Hs).
  apply validate_requirements_spec. rewrite <- Hp. split; [done|]. split; [done|].
  intros r _. apply not_elem_of_nil.
Qed.

Lemma GetPlan_inr id v p v' :
  GetPlan id v = (inr p, v') ->
  clock v' = clock v /\
  exists r, r ∈ plans (store v) /\ pl_id r = id /\ p = plan_of r (items_of id (store v)).
Proof.
  unfold GetPlan, byId. intros Hr. apply bind_inr in Hr as (u & v1 & Hc & Hr).
  apply connect_inr in Hc as [H1 H1c]. apply bind_inr in Hr as (o & v2 & Hq & Hr).
  apply query_inr in Hq as (-> & H2 & H2c). destruct (first_where _ _) as [r|] eqn:Ef; [|discriminate].
  apply bind_inr in Hr as (its & v3 & Hi & Hr). apply items_inr in Hi as (-> & H3 & H3c).
  apply ret_inr in Hr as [-> ->]. apply first_where_some in Ef as [Hin Hid].
  apply String.eqb_eq in Hid. split; [congruence|]. exists r. by rewrite H2, H1, Hid in *.
Qed.

Section ResolveErrors.
Context `{Printer} (svc : Service).
Lemma resolve_error req meta idemKey newID w e w' :
  Resolve svc req meta idemKey newID w = (inl e, w') ->
  database (store w') = database (store w) /\ (contract_error e \/ id_collision newID (database (store w)) e).
Proof.
  unfold Resolve. destruct (ValidateRequest req) as [e0|] eqn:Hv.
  { intros [= <- <-]. apply validate_error in Hv as ->. split; [done|]. left. simpl. constructor. }
  destruct (policy_step svc meta (Requirements req)) as [e0|pol] eqn:Hpol.
  { intros [= <- <-]. apply policy_step_inl in Hpol. auto. }
  unfold bind at 1, now. unfold bind at 1.
  pose proof (resolve_keeps svc (database (store w)) (clock w) meta (ordered (Requirements req)) w eq_refl) as Hd.
  destruct (resolve_all svc (clock w) meta (ordered (Requirements req)) w) as [[e1|its] w1] eqn:Ea; simpl in Hd.
  { intros [= <- <-]. split; [done|]. left. by eapply resolve_all_fails. }
  unfold bind. destruct (on_db _ w1) as [[e2|x] w2] eqn:Ec; [|discriminate]. intros [= <- <-].
  apply on_db_run in Ec as (v & v' & Hv1 & _ & Hx & H2 & _). split.
  - apply CreatePlan_inl in Hx. congruence.
  - apply CreatePlan_error in Hx. by rewrite Hv1, Hd in Hx.
Qed.
End ResolveErrors.

(** ** Properties *)

Module ResolveProps.
Section Statements.
Context `{Printer} (svc : Service).

(** C4. A resolve that answers with a plan had a valid request that the policy
    allowed requirement by requirement; it computed one item per requirement,
    in the order of their ids, each justified against the database (latest
    published capability, the live binding of least priority alone whose
    tenants and regions admit the request and whose provider is published, its
    pinned snapshot unexpired and published and active when loaded, an available
    profile for the capability, region and class), and the plan store created
    that plan or returned the caller's stored plan of the same key and request
    digest.  Tenants and regions are all of a scope that the resolver looks at:
    by the contract of bindings (binding/domain.go, Overlaps) the factories and
    agents of the scope have to match as well, and here they do not
    ([other_agents_binding]). *)
Theorem Resolve_justified seen req meta idemKey newID w plan created w'
    (Hcache : cache_ok (RefreshTTL svc) seen (cache (store w)))
    (Hseen : seen (clock w) (database (store w)))
    (Hrun : Resolve svc req meta idemKey newID w = (inr (plan, created), w')) :
  ValidateRequest req = None /\
  exists pol its, policy_allowed svc meta (Requirements req) pol /\
    map it_requirement its = sort_strings (map RequirementID (Requirements req)) /\
    Forall2 (justified seen (clock w) meta (database (store w))) (ordered (Requirements req)) its /\
    create_answer (new_plan svc newID (clock w) req meta idemKey pol its) (clock w)
      (database (store w)) (created, plan) (database (store w')).
Proof.
  apply (Resolve_inr svc seen) in Hrun as (Hv & pol & its & Hpol & Hf & Hc); [|done..].
  split; [done|]. exists pol, its. apply policy_step_inr in Hpol. split; [done|]. split; [|done].
  apply valid_nodup in Hv as [_ Hnd]. change (sort_strings (map RequirementID (Requirements req)))
    with (sorted_ids (Requirements req)). rewrite <- ordered_ids by done. clear -Hf.
  induction Hf as [|r i rs its (cap & top & snap & profile & _ & ->) _ IH]; [done|]. simpl. by rewrite IH.
Qed.

(** C25. The answer does not depend on the order in which the request lists its
    requirements: from the same process state, a request that lists them in
    another order gets the same plan, with the same items, digest and
    fingerprint, and leaves the same state. *)
Theorem Resolve_order_irrelevant req req' meta idemKey newID w x w'
    (Hsame : reordered req req')
    (Hrun : Resolve svc req meta idemKey newID w = (inr x, w')) :
  Resolve svc req' meta idemKey newID w = (inr x, w').
Proof.
  unfold Resolve in *. destruct (ValidateRequest req) eqn:Hv; [discriminate|].
  rewrite (validate_reordered _ _ Hsame Hv). apply valid_nodup in Hv as [_ Hnd].
  destruct Hsame as (Hc & Ht & Ho & Hp).
  destruct (policy_step svc meta (Requirements req)) as [e|pol] eqn:Hpol; [discriminate|].
  apply policy_step_inr, (policy_allowed_perm _ _ _ _ _ Hp), policy_step_inr in Hpol. rewrite Hpol.
  rewrite <- (ordered_perm _ _ Hnd Hp).
  assert (Hn : Normalize req' = Normalize req).
  { unfold Normalize. by rewrite <- (ordered_perm _ _ Hnd Hp), Hc, Ht, Ho. }
  assert (Hnew : forall t its, new_plan svc newID t req' meta idemKey pol its =
                               new_plan svc newID t req meta idemKey pol its).
  { intros t its. unfold new_plan, Fingerprint, fingerprint_text, RequestDigest, plan_ttl.
    by rewrite Hn, Ht, Ho. }
  unfold bind in *. destruct (now w) as [[?|t] w1]; [done|].
  destruct (resolve_all svc t meta (ordered (Requirements req)) w1) as [[?|its] w2]; [done|].
  by rewrite Hnew.
Qed.

(** C36. A resolve that fails leaves the database as it was, and its error is a
    database error or a code of the specification's table with its one status:
    INVALID_REQUIREMENT 400, CAPABILITY_NOT_FOUND 404, AMBIGUOUS_BINDING 409,
    IDEMPOTENCY_CONFLICT 409, NO_COMPATIBLE_PROVIDER 422,
    PROVIDER_SNAPSHOT_EXPIRED 424, RESOLVER_UNAVAILABLE 503; with one exception,
    in which the code departs from the table: RESOLVER_UNAVAILABLE with 500, and
    that only when a stored plan already has the id minted for the new one. *)
Theorem Resolve_error req meta idemKey newID w e w' :
  Resolve svc req meta idemKey newID w = (inl e, w') ->
  database (store w') = database (store w) /\ (contract_error e \/ id_collision newID (database (store w)) e).
Proof. apply resolve_error. Qed.

(** The lifetime of a plan: with positive limits, a request for up to
    9223372036 seconds (or for none) gives a positive lifetime within MaxTTL;
    one second more overflows: the lifetime is negative, which the cap at MaxTTL
    does not catch, so the plan has expired before it is created. *)
Theorem plan_ttl_bounds req (Hdefault : 0 < DefaultTTL svc) (Hmax : 0 < MaxTTL svc) :
  (MaxPlanTTLSeconds (ReqOptions req) <= 9223372036 -> 0 < plan_ttl svc req <= MaxTTL svc) /\
  (MaxPlanTTLSeconds (ReqOptions req) = 9223372037 ->
   forall newID t meta idemKey pol its,
     p_expires_at (new_plan svc newID t req meta idemKey pol its) <
     p_created_at (new_plan svc newID t req meta idemKey pol its)).
Proof.
  split; intros Hreq; [|intros newID t meta idemKey pol its; simpl]; unfold plan_ttl;
    (destruct (Z.gtb_spec (MaxTTL svc) 0); [|lia]).
  - assert (Hw : forall n, 0 < n <= 9223372036 -> Int64.wrap (n * second) = n * second).
    { intros n Hn. apply Int64.wrap_id. unfold Int64.min, Int64.max, second. lia. }
    destruct (Z.gtb_spec (MaxPlanTTLSeconds (ReqOptions req)) 0) as [Hp|Hp].
    + rewrite Hw by lia. unfold second.
      destruct (Z.gtb_spec (MaxPlanTTLSeconds (ReqOptions req) * 1000000000) (MaxTTL svc)); simpl; lia.
    + destruct (Z.gtb_spec (DefaultTTL svc) (MaxTTL svc)); simpl; lia.
  - rewrite Hreq. assert (Hw : Int64.wrap (9223372037 * second) = -9223372036709551616) by reflexivity.
    change (9223372037 >? 0) with true. cbv iota. rewrite Hw.
    destruct (Z.gtb_spec (-9223372036709551616) (MaxTTL svc)); simpl; lia.
Qed.

(** Who reads a plan: handleGetPlan answers 200 only with the stored plan of
    that id, and only to its caller or to a holder of resolver.audit; the
    status it reports is EXPIRED for a RESOLVED plan past its expiry; when no
    statement fails, a missing plan is 404 and another caller's 403.  It never
    changes the state. *)
Theorem handleGetPlan_access rid id planID :
  (forall w x w', handleGetPlan rid id planID w = (x, w') ->
    store w' = store w /\
    exists a, x = inr a /\
    (code a = 200 -> exists r, r ∈ plans (database (store w)) /\ pl_id r = planID /\
       (pl_caller r = Subject id \/ "resolver.audit" ∈ Scopes id) /\
       body a = planResponse (clock w) (plan_of r (items_of planID (database (store w)))))) /\
  (forall d c t, exists a, (handleGetPlan rid id planID (MkWorld (MkProcess d c) [] t)).1 = inr a /\
    code a = match first_where (fun r => pl_id r =s planID) (plans d) with
             | None => 404
             | Some r => if (pl_caller r =s Subject id) || str_mem "resolver.audit" (Scopes id)
                         then 200 else 403
             end).
Proof.
  split.
  - intros w x w' Hr. unfold handleGetPlan, bind at 1, attempt in Hr.
    destruct (on_db (GetPlan planID) w) as [r w1] eqn:E.
    apply on_db_run in E as (v & v' & Hv & Hvc & Hg & H1 & H1k & H1c).
    assert (Hkeep : store v' = store v).
    { assert (keeps (fun d => d = store v) (GetPlan planID)) as Hk
        by (unfold GetPlan, byId, items; keeps_walk).
      specialize (Hk v eq_refl). by rewrite Hg in Hk. }
    assert (Hs1 : store w1 = store w).
    { destruct (store w1), (store w). simpl in *. congruence. }
    destruct r as [e|plan].
    + destruct (e =d ErrNotFound); injection Hr as <- <-; (split; [done|]); eexists; (split; [done|]); done.
    + destruct (negb _ && negb _) eqn:Ea.
      { injection Hr as <- <-. split; [done|]. eexists. split; [done|]. done. }
      unfold bind, now, ret in Hr. injection Hr as <- <-. split; [done|]. eexists. split; [done|]. intros _.
      apply GetPlan_inr in Hg as (Hc & r & Hin & Hid & ->). rewrite Hv in Hin. exists r.
      split; [done|]. split; [done|]. rewrite Hv, H1c, Hc, Hvc in *. split; [|done].
      apply andb_false_iff in Ea as [Ea|Ea]; apply negb_false_iff in Ea.
      * left. by apply String.eqb_eq in Ea.
      * right. by apply str_mem_spec in Ea.
  - intros d c t. unfold handleGetPlan, attempt, on_db, zoom, GetPlan, byId, items, bind at 1.
    cbn [store database faults clock]. run_ok.
    destruct (first_where (fun r => pl_id r =s planID) (plans d)) as [r|] eqn:Ef; run_ok; [|by eexists].
    apply first_where_some in Ef as [_ Hid]. change (p_caller (plan_of r (items_of (pl_id r) d))) with (pl_caller r).
    destruct (pl_caller r =s Subject id); simpl; [by eexists|].
    destruct (str_mem "resolver.audit" (Scopes id)); simpl; by eexists.
Qed.
(** handleResolve always answers.  It answers 200 only to a request with an
    idempotency key, a readable body without forbidden fields and a decoded
    request, with a plan of the authenticated subject; every other answer has a
    status of the contract and leaves the database as it was. *)
Theorem handleResolve_answer seen q w x w' :
  cache_ok (RefreshTTL svc) seen (cache (store w)) -> seen (clock w) (database (store w)) ->
  handleResolve svc q w = (x, w') ->
  exists a, x = inr a /\
  ((code a = 200 /\ idem_header q <> "" /\
    (exists raw req, raw_body q = Some raw /\ CheckForbiddenFields raw = None /\ decoded q = Some req) /\
    exists plan t, body a = planResponse t plan /\ p_caller plan = Subject (identity q)) \/
   (code a ∈ [400; 404; 409; 422; 424; 500; 503] /\ database (store w') = database (store w))).
Proof.
  intros Hcache Hseen Hr. unfold handleResolve in Hr. cbv zeta in Hr.
  assert (Hbad : forall c s ds, s ∈ [400; 404; 409; 422; 424; 500; 503] ->
    code (writeResolverError c s ds (request_id q)) ∈ [400; 404; 409; 422; 424; 500; 503]) by done.
  assert (H400 : 400 ∈ [400; 404; 409; 422; 424; 500; 503]) by constructor.
  destruct (String.eqb_spec (idem_header q) "") as [Hi|Hi].
  { injection Hr as <- <-. eexists. split; [done|]. right. auto. }
  destruct (raw_body q) as [raw|]; [|injection Hr as <- <-; eexists; split; [done|]; right; auto].
  destruct (CheckForbiddenFields raw) as [e|] eqn:Ef.
  { injection Hr as <- <-. eexists. split; [done|]. right. unfold CheckForbiddenFields in Ef.
    destruct (Regex.match_string _ _); [|discriminate]. injection Ef as <-. auto. }
  destruct (decoded q) as [req|]; [|injection Hr as <- <-; eexists; split; [done|]; right; auto].
  unfold bind at 1, attempt in Hr. destruct (Resolve svc req _ _ _ w) as [r w1] eqn:E.
  unfold bind, now in Hr. destruct r as [e|[plan created]].
  - injection Hr as <- <-. eexists. split; [done|]. right. apply resolve_error in E as [Hd He].
    split; [|done]. destruct He as [He|[-> _]]; [|repeat (apply elem_of_cons; first [by left|right])].
    destruct e as [e|s r|c s ds]; [|done|]; simpl in *.
    + repeat (apply elem_of_cons; first [by left|right]).
    + clear -He. unfold error_table in He.
      repeat (apply elem_of_cons in He as [[= -> ->]|He];
              [repeat (apply elem_of_cons; first [by left|right])|]). by apply elem_of_nil in He.
  - injection Hr as <- <-. eexists. split; [done|]. left. split; [done|]. split; [done|].
    split; [by eexists _, _|]. exists plan, (clock w1). split; [done|].
    eapply (Resolve_inr svc seen) in E as (_ & pol & its & _ & _ & Hc); [|done..].
    unfold create_answer in Hc. simpl in Hc. destruct created.
    + by destruct Hc as [-> _].
    + destruct Hc as (_ & r & _ & Hk & _ & ->). simpl. unfold plan_key in Hk. congruence.
Qed.

End Statements.
(** *** A resolve *)

#[local] Instance no_printer : Printer := { sprint_v := fun _ => "" }.
Definition rs_profile : json :=
  JObj [("profile_id", JStr "default"); ("status", JStr "AVAILABLE");
        ("capability_keys", jstrings ["chat"]); ("regions", jstrings ["eu"]);
        ("data_classification_max", JStr "INTERNAL")].
Definition rs_db : Database :=
  with_bindings [MkBindingRow 9 "k" 1 2 3 "default" "production" (MkScope ["t1"] [] [] []) "" (JObj [])
                   5 BindPublished 2 true "" "" "" (Some 0) "t1"]
  (with_pointers [MkPointerRow 2 3 0]
  (with_snapshots [MkSnapshotRow 3 2 1 "c1" "" "" "" [rs_profile] 0 1000000000000 RegPublished]
  (with_providers [MkProviderRow 2 "mmr" "MODEL_PROVIDER" "e" "o" "w" RegPublished 1 1 None]
  (with_capabilities [MkCapabilityRow 1 "chat" 1 1 "MODEL" (JObj []) RegPublished] empty_db)))).
Definition rs_req (rs : list Requirement) : Request := MkRequest "1.0" "task" rs (MkOptions 60 false) ∅.
Definition rs_a : Requirement :=
  MkRequirement "a" "chat" 1 "MODEL_PROVIDER" {[ "region" := JStr "eu" ]}.
Definition rs_b : Requirement :=
  MkRequirement "b" "chat" 1 "MODEL_PROVIDER" {[ "data_classification_max" := JStr "PUBLIC" ]}.
Definition rs_meta : CallerMeta := MkCallerMeta "agent" "t1" "production" "tr".
Definition rs_svc : Service := MkService None "" 300000000000 900000000000 60000000000.
Definition rs_w0 : World Process := MkWorld (MkProcess rs_db NewSnapshotCache) [] 100.
Definition rs_out : (err + Plan * bool) * World Process :=
  Eval vm_compute in Resolve rs_svc (rs_req [rs_b; rs_a]) rs_meta "key" "p1" rs_w0.
Definition rs_plan : Plan := Eval vm_compute in
  match rs_out.1 with inr (p, _) => p | inl _ => MkPlan "" "" "" "" None "" "" "" "" 0 "" 0 0 [] end.
Lemma rs_run :
  Resolve rs_svc (rs_req [rs_b; rs_a]) rs_meta "key" "p1" rs_w0 = (inr (rs_plan, true), rs_out.2).
Proof. vm_compute. reflexivity. Qed.
Definition rs_seen (t : Z) (d : Database) : Prop := t = 100 /\ d = rs_db.
Lemma rs_cache_ok seen : cache_ok (RefreshTTL rs_svc) seen (cache (store rs_w0)).
Proof. intros id e Hl. simpl in Hl. by rewrite lookup_empty in Hl. Qed.

Lemma Resolve_justified_witness :
  map it_requirement (p_items rs_plan) = ["a"; "b"] /\
  ValidateRequest (rs_req [rs_b; rs_a]) = None.
Proof.
  split; [reflexivity|].
  apply (Resolve_justified rs_svc rs_seen _ _ _ _ rs_w0 _ _ _ (rs_cache_ok _) (conj eq_refl eq_refl) rs_run).
Defined.

(** A binding for one factory and one agent is taken for every caller; beside
    the binding for everyone else, with which it does not overlap, it makes
    every request ambiguous. *)
Definition narrow : Scope := MkScope ["t1"] ["factory-9"] [] ["another-agent"].
Definition wide : Scope := MkScope ["t1"] ["factory-1"] [] [].
Definition scoped (key : string) (id : Z) (sc : Scope) : BindingRow :=
  MkBindingRow id key 1 2 3 "default" "production" sc "" (JObj []) 5 BindPublished 2 true "" "" "" (Some 0) "t1".
Definition resolve_with (rows : list BindingRow) : err + Plan * bool :=
  (Resolve rs_svc (rs_req [rs_a]) rs_meta "key" "p1"
     (MkWorld (MkProcess (with_bindings rows rs_db) NewSnapshotCache) [] 100)).1.
Example other_agents_binding :
  match resolve_with [scoped "k" 9 narrow] with inr (p, _) => map it_binding (p_items p) | inl _ => [] end = ["k"] /\
  Binding.Overlaps narrow wide = false /\
  resolve_with [scoped "k" 9 narrow; scoped "l" 10 wide] = inl (resErr CodeAmbiguousBinding 409 [("a", ["PRIORITY_TIE"])]).
Proof. split_and!; vm_compute; reflexivity. Qed.

Lemma Resolve_order_irrelevant_witness :
  Resolve rs_svc (rs_req [rs_a; rs_b]) rs_meta "key" "p1" rs_w0 = (inr (rs_plan, true), rs_out.2).
Proof.
  apply (Resolve_order_irrelevant rs_svc (rs_req [rs_b; rs_a])); [|exact rs_run].
  split; [done|]. split; [done|]. split; [done|]. apply Permutation_swap.
Defined.

Lemma Resolve_error_witness :
  contract_error (resErr CodeNoCompatibleProvider 422 [("a", [ReasonConstraintMismatch])]).
Proof.
  destruct (Resolve_error rs_svc (rs_req [rs_a]) (MkCallerMeta "agent" "t2" "production" "tr") "key" "p1" rs_w0
    (resErr CodeNoCompatibleProvider 422 [("a", [ReasonConstraintMismatch])])
    (Resolve rs_svc (rs_req [rs_a]) (MkCallerMeta "agent" "t2" "production" "tr") "key" "p1" rs_w0).2) as [_ [H|[H _]]].
  - vm_compute. reflexivity.
  - exact H.
  - discriminate H.
Defined.
(** The exception: another key, the id of the plan that is there. *)
Example id_taken :
  (Resolve rs_svc (rs_req [rs_a]) rs_meta "other" "p1" rs_out.2).1 = inl (resErr CodeResolverUnavailable 500 []).
Proof. vm_compute. reflexivity. Qed.

Definition rs_long : Request := MkRequest "1.0" "task" [] (MkOptions 9223372037 false) ∅.
Lemma plan_ttl_bounds_witness :
  0 < plan_ttl rs_svc (rs_req []) <= 900000000000 /\
  p_expires_at (new_plan rs_svc "p" 0 rs_long rs_meta "k" ("", 0) []) < 0.
Proof.
  split.
  - apply (plan_ttl_bounds rs_svc (rs_req [])); vm_compute; done.
  - apply (plan_ttl_bounds rs_svc rs_long); vm_compute; reflexivity.
Defined.

Definition rs_in : Incoming :=
  MkIncoming "key" (Some "{}") (Some (rs_req [rs_a])) (MkIdentity "agent" "t1" []) "production" "r" "p1".
Lemma handleResolve_answer_witness :
  exists a, (handleResolve rs_svc rs_in rs_w0).1 = inr a.
Proof.
  destruct (handleResolve rs_svc rs_in rs_w0) as [x w'] eqn:E.
  destruct (handleResolve_answer rs_svc rs_seen rs_in rs_w0 x w' (rs_cache_ok _) (conj eq_refl eq_refl) E)
    as (a & -> & _).
  exists a. reflexivity.
Defined.

End ResolveProps.
