(* ===== verification/Events.v ===== *)
(** * The outbox worker and its consumers (src/internal/events)

    [Cloud] is cloudevent.go: the claimed row and its CloudEvents envelope.
    [Transport] is transport.go: the publish interface as a type class, with
    the discarding transport and the NATS transport as instances; the NATS
    client is an interface of its own.  [Worker] is worker.go: claim, publish,
    mark, retry, dead-letter, drain and the run loop.  [Consumer] is
    consumer.go: deduplication, revision tracking and the batch filter. *)

From S2P Require Import Prelude GoStd GoJson GoTime Sql Schema.

(** ** cloudevent.go *)

Module Cloud.

(** events.OutboxRow *)
Record EventRow : Type := MkEventRow {
  er_ID : Z;
  er_EventID : string;
  er_Topic : string;
  er_Payload : json;
  er_AggregateKind : string;
  er_AggregateID : string;
  er_AggregateRevision : Z;
  er_TenantRef : string;
  er_TraceID : string;
  er_CreatedAt : Z;
  er_Attempts : Z;
}.

Record CloudEvent : Type := MkCloudEvent {
  SpecVersion : string;
  ce_ID : string;
  Source : string;
  ce_Type : string;
  Subject : string;
  Time : string;
  DataContentType : string;
  TenantRef : string;
  Traceparent : string;
  Data : json;
}.

Definition EventSource : string := "urn:enterprise:ai-resource-resolver".
Definition type_prefix : string := "com.enterprise.ai.resource.".
Definition type_suffix : string := ".v1".
Definition CloudEventType (topic : string) : string := type_prefix +:+ topic +:+ type_suffix.
Definition Envelope (r : EventRow) : CloudEvent :=
  MkCloudEvent "1.0" (er_EventID r) EventSource (CloudEventType (er_Topic r))
    (er_AggregateKind r +:+ "/" +:+ er_AggregateID r) (GoTime.rfc3339_nano (er_CreatedAt r))
    "application/json" (er_TenantRef r) (er_TraceID r) (er_Payload r).
Definition SubjectForTopic (topic : string) : string := "saoaf." +:+ topic.
Definition DLQSubject (topic : string) : string := "saoaf.dlq." +:+ topic.

(** [json:"...,omitempty"] of a string *)
Definition omitempty (key v : string) : list (string * json) :=
  if v =s "" then [] else [(key, JStr v)].
(** What [json.Marshal] encodes of an event. *)
Definition event_json (e : CloudEvent) : json :=
  JObj ([("specversion", JStr (SpecVersion e)); ("id", JStr (ce_ID e));
         ("source", JStr (Source e)); ("type", JStr (ce_Type e));
         ("subject", JStr (Subject e)); ("time", JStr (Time e));
         ("datacontenttype", JStr (DataContentType e))]
        ++ omitempty "tenantref" (TenantRef e) ++ omitempty "traceparent" (Traceparent e)
        ++ [("data", Data e)]).
End Cloud.
Import Cloud.

(** ** transport.go *)

Module Transport.

(** An error of Publish: whether [errors.Is(err, ErrTransportDown)], and its
    text, which the worker stores. *)
Record pub_error : Type := PubError { is_down : bool; error_text : string }.
Definition ErrTransportDown : pub_error := PubError true "events: transport down".

(** The answer, the time it took and the transport afterwards. *)
Class EventTransport (T : Type) : Type := {
  Publish : CloudEvent -> T -> option pub_error * Z * T;
  Healthy : T -> bool;
  (* the type assertion to *NATSTransport and its PublishDLQ *)
  PublishDLQ : option (CloudEvent -> string -> T -> option pub_error * Z * T);
}.

#[export] Instance NoopTransport : EventTransport unit := {
  Publish _ t := (None, 0, t);
  Healthy _ := true;
  PublishDLQ := None;
}.

(** github.com/nats-io/nats.go: a connection with its JetStream context. *)
Inductive nats_sentinel : Type := ErrMaxPayload | ErrBadSubject | OtherError.
Class NatsClient (N : Type) : Type := {
  IsConnected : N -> bool;
  js_Publish : string -> string -> string -> N -> option (nats_sentinel * string) * Z * N;
  stream_Info : N -> bool;
}.

Definition isTerminalNATSError (e : nats_sentinel) : bool :=
  match e with ErrMaxPayload | ErrBadSubject => true | OtherError => false end.

(** [t[len(prefix) : len(t)-len(suffix)]] *)
Definition topicFromType (t : string) : string :=
  let p := String.length type_prefix in
  let s := String.length type_suffix in
  if Nat.ltb (p + s) (String.length t) && GoString.has_prefix t type_prefix
  then String.substring p (String.length t - s - p) t
  else t.

Section NATSTransport.
Context {N : Type} `{NatsClient N}.

(** The state of a transport: [None] when it or its connection is nil. *)
Definition connected (n : option N) : bool :=
  match n with Some n => IsConnected n | None => false end.

Definition nats_Publish (ev : CloudEvent) (t : option N) : option pub_error * Z * option N :=
  match t with
  | Some n =>
      if negb (IsConnected n) then (Some ErrTransportDown, 0, t)
      else
        let body := marshal (event_json ev) in
        let subject := SubjectForTopic (topicFromType (ce_Type ev)) in
        let '(e, dt, n') := js_Publish subject body (ce_ID ev) n in
        (match e with
         | None => None
         | Some (s, text) =>
             if isTerminalNATSError s
             then Some (PubError false ("terminal publish rejection: " +:+ text))
             else Some ErrTransportDown
         end, dt, Some n')
  | None => (Some ErrTransportDown, 0, t)
  end.

(** The data of the dead-letter copy: the payload's object with the reason, or
    an object around a payload that is no object.  Maps are encoded with
    sorted keys. *)
Definition field_le (a b : string * json) : Prop := String.le a.1 b.1.
#[export] Instance field_le_dec a b : Decision (field_le a b) := String.le_dec a.1 b.1.
Definition dlq_data (payload : json) (reason : string) : json :=
  let fields := match payload with JObj fs => fs | _ => [("payload", payload)] end in
  JObj (merge_sort field_le
          (List.filter (fun f => negb (f.1 =s "dlq_reason")) fields
           ++ [("dlq_reason", JStr reason)])).
Definition dlq_event (ev : CloudEvent) (reason : string) : CloudEvent :=
  MkCloudEvent (SpecVersion ev) (ce_ID ev) (Source ev) (ce_Type ev +:+ ".dead") (Subject ev)
    (Time ev) (DataContentType ev) (TenantRef ev) (Traceparent ev) (dlq_data (Data ev) reason).
Definition nats_PublishDLQ (ev : CloudEvent) (reason : string) (t : option N)
    : option pub_error * Z * option N :=
  match t with
  | Some n =>
      if negb (IsConnected n) then (Some ErrTransportDown, 0, t)
      else
        let body := marshal (event_json (dlq_event ev reason)) in
        let '(e, dt, n') :=
          js_Publish (DLQSubject (topicFromType (ce_Type ev))) body ("dlq:" +:+ ce_ID ev) n in
        (match e with None => None | Some _ => Some ErrTransportDown end, dt, Some n')
  | None => (Some ErrTransportDown, 0, t)
  end.
Definition nats_Healthy (t : option N) : bool :=
  match t with Some n => IsConnected n && stream_Info n | None => false end.

#[export] Instance NATSTransport : EventTransport (option N) := {
  Publish := nats_Publish;
  Healthy := nats_Healthy;
  PublishDLQ := Some nats_PublishDLQ;
}.
End NATSTransport.

(** What a caller of Publish relies on: time passes forward, what was accepted
    stays accepted, and an event answered without an error is accepted. *)
Class LawfulTransport (T : Type) `{EventTransport T} : Type := {
  on_wire : T -> CloudEvent -> Prop;
  publish_lawful ev t e dt t' : Publish ev t = (e, dt, t') ->
    0 <= dt /\ (forall x, on_wire t x -> on_wire t' x) /\ (e = None -> on_wire t' ev);
  dlq_lawful f ev reason t e dt t' : PublishDLQ = Some f -> f ev reason t = (e, dt, t') ->
    0 <= dt /\ (forall x, on_wire t x -> on_wire t' x);
}.

(** What the NATS transport relies on: an acknowledged message is in the
    stream under its message id (written now, or earlier by a duplicate). *)
Class LawfulClient (N : Type) `{NatsClient N} : Type := {
  js_stored : N -> string -> Prop;
  js_publish_lawful subject body id n e dt n' : js_Publish subject body id n = (e, dt, n') ->
    0 <= dt /\ (forall x, js_stored n x -> js_stored n' x) /\ (e = None -> js_stored n' id);
}.

Section NATSLawful.
Context {N : Type} `{LawfulClient N}.

Definition in_stream (t : option N) (ev : CloudEvent) : Prop :=
  match t with Some n => js_stored n (ce_ID ev) | None => False end.

#[export] Program Instance NATSTransport_lawful : LawfulTransport (option N) := {
  on_wire := in_stream;
}.
Next Obligation.
  intros ev t e dt t' Hp. simpl in Hp. unfold nats_Publish in Hp.
  destruct t as [n|]; [|injection Hp as <- <- <-; split; [lia|done]].
  destruct (negb (IsConnected n)); [injection Hp as <- <- <-; split; [lia|done]|].
  destruct (js_Publish _ _ _ n) as [[e0 dt0] n'] eqn:E.
  apply js_publish_lawful in E as (? & Hk & Hack). injection Hp as <- <- <-.
  split; [done|]. split; [intros x; apply Hk|]. destruct e0 as [[s text]|]; [|by intros _; apply Hack].
  by destruct (isTerminalNATSError s).
Qed.
Next Obligation.
  intros f ev reason t e dt t' Hf Hp. simpl in Hf. injection Hf as <-. unfold nats_PublishDLQ in Hp.
  destruct t as [n|]; [|injection Hp as <- <- <-; split; [lia|done]].
  destruct (negb (IsConnected n)); [injection Hp as <- <- <-; split; [lia|done]|].
  destruct (js_Publish _ _ _ n) as [[e0 dt0] n'] eqn:E.
  apply js_publish_lawful in E as (? & Hk & _). injection Hp as <- <- <-.
  split; [done|]. intros x. apply Hk.
Qed.
End NATSLawful.
End Transport.
Import Transport.

(** ** worker.go *)

Module Worker.

Record WorkerConfig : Type := MkWorkerConfig {
  BatchSize : Z;
  LeaseTTL : Z;
  RetryMax : Z;
  RetryBackoff : Z;
  PollInterval : Z;
  WorkerID : string;
  MaxPublishMS : Z;
  BacklogAlert : Z;
}.
(** The defaults NewOutboxWorker fills in. *)
Definition NewOutboxWorker (c : WorkerConfig) : WorkerConfig :=
  MkWorkerConfig
    (if BatchSize c <=? 0 then 100 else BatchSize c)
    (if LeaseTTL c <=? 0 then 30 * GoTime.Second else LeaseTTL c)
    (if RetryMax c <=? 0 then 5 else RetryMax c)
    (if RetryBackoff c <=? 0 then GoTime.Second else RetryBackoff c)
    (if PollInterval c <=? 0 then 250 * GoTime.Millisecond else PollInterval c)
    (if WorkerID c =s "" then "worker-1" else WorkerID c)
    (MaxPublishMS c) (BacklogAlert c).

Record WorkerStats : Type := MkWorkerStats {
  Published : Z;
  Failed : Z;
  Retries : Z;
  PublishErrors : Z;
  BacklogDepth : Z;
  PublishMaxMS : Z;
  DLQDepth : Z;
}.

(** A worker's process: the database, the transport and its own fields. *)
Record Proc (T : Type) : Type := MkProc {
  pr_db : Database;
  pr_transport : T;
  pr_stats : WorkerStats;
  pr_paused : bool;
}.
Arguments MkProc {T}.
Arguments pr_db {T}.
Arguments pr_transport {T}.
Arguments pr_stats {T}.
Arguments pr_paused {T}.

Definition put_db {T} (d : Database) (p : Proc T) : Proc T :=
  MkProc d (pr_transport p) (pr_stats p) (pr_paused p).
Definition put_transport {T} (t : T) (p : Proc T) : Proc T :=
  MkProc (pr_db p) t (pr_stats p) (pr_paused p).
Definition put_stats {T} (s : WorkerStats) (p : Proc T) : Proc T :=
  MkProc (pr_db p) (pr_transport p) s (pr_paused p).
Definition Pause {T} (p : Proc T) : Proc T :=
  MkProc (pr_db p) (pr_transport p) (pr_stats p) true.
Definition Resume {T} (p : Proc T) : Proc T :=
  MkProc (pr_db p) (pr_transport p) (pr_stats p) false.

(** ** Statements *)

(** The WHERE clause of the claim. *)
Definition claimable (t : Z) (o : OutboxRow) : bool :=
  ((oe_status o =d ObPending) &&
   match oe_next_retry o with None => true | Some n => n <? t end) ||
  ((oe_status o =d ObPublishing) &&
   match oe_lease o with Some l => l <? t | None => false end).

(** The joined row. *)
Definition event_row (cs : list ChangeRow) (o : OutboxRow) : option EventRow :=
  match first_where (fun c => cr_id c =? oe_change_id o) cs with
  | Some c => Some (MkEventRow (oe_id o) (oe_event_id o) (oe_topic o) (oe_payload o) (oe_kind o)
                      (oe_aggregate o) (oe_revision o) (cr_tenant c) (cr_trace c)
                      (oe_created_at o) (oe_attempts o))
  | None => None
  end.
Definition id_le (a b : EventRow) : Prop := er_ID a <= er_ID b.
#[export] Instance id_le_dec a b : Decision (id_le a b) := Z_le_dec (er_ID a) (er_ID b).
(** SELECT ... JOIN ... WHERE ... ORDER BY oe.id LIMIT n *)
Definition claim_select (n t : Z) (d : Database) : list EventRow :=
  take (Z.to_nat n) (merge_sort id_le
    (omap (event_row (changes d)) (rows_where (claimable t) (outbox d)))).

Definition has_id (id : Z) (o : OutboxRow) : bool := oe_id o =? id.
Definition update_outbox (p : OutboxRow -> bool) (f : OutboxRow -> OutboxRow) (d : Database)
    : Database :=
  with_outbox (update_where p f (outbox d)) d.

Definition leased (worker : string) (until : Z) (o : OutboxRow) : OutboxRow :=
  set_oe_claimed_by worker (set_oe_lease (Some until) (set_oe_status ObPublishing o)).
Definition marked (t seq : Z) (o : OutboxRow) : OutboxRow :=
  set_oe_published_seq (Some seq) (set_oe_lease None
    (set_oe_published_at (Some t) (set_oe_status ObPublished o))).
Definition released (retry : Z) (text : string) (o : OutboxRow) : OutboxRow :=
  set_oe_last_error text (set_oe_next_retry (Some retry)
    (set_oe_attempts (oe_attempts o + 1) (set_oe_claimed_by "" (set_oe_lease None
      (set_oe_status ObPending o))))).
Definition buried (text : string) (o : OutboxRow) : OutboxRow :=
  set_oe_last_error text (set_oe_lease None (set_oe_status ObFailed o)).

(** COALESCE(MAX(published_seq), 0) *)
Definition max_seq (t : list OutboxRow) : Z :=
  max_of (fun o => default 0 (oe_published_seq o)) t.

Section Statements.
Context (cfg : WorkerConfig).

Definition claim : Db (list EventRow) :=
  tx (let! t := now in
      let! rows := query (claim_select (BatchSize cfg) t) in
      connect ;! (* rows.Err() *)
      match rows with
      | [] => ret (Rollback [])
      | _ =>
          for_each rows (fun r =>
            exec (update_outbox (has_id (er_ID r))
                    (leased (WorkerID cfg)
                       (t + GoTime.Seconds (LeaseTTL cfg) * GoTime.Second)))) ;!
          ret (Commit rows)
      end).

(** The mark transaction of publishOne: false when no row was updated. *)
Definition mark (id : Z) : Db bool :=
  tx (let! t := now in
      connect ;! (* pg_advisory_xact_lock *)
      let p o := has_id id o && (oe_status o =d ObPublishing) in
      let! n := exec_n (fun d =>
        (count_where p (outbox d),
         update_outbox p (marked t (max_seq (outbox d) + 1)) d)) in
      if n =? 0 then ret (Rollback false) else ret (Commit true)).

(** The two retry statements of publishOne, by when the retry is due. *)
Definition backoff_down (r : EventRow) : Z :=
  GoTime.Milliseconds (Int64.wrap (RetryBackoff cfg * (er_Attempts r + 1))) * GoTime.Millisecond.
Definition backoff_rejected (r : EventRow) : Z :=
  Int64.wrap (GoTime.Seconds (RetryBackoff cfg) * (er_Attempts r + 1)) * GoTime.Second.
Definition release (r : EventRow) (after : Z) (text : string) : Db unit :=
  let! t := now in
  exec (update_outbox (has_id (er_ID r)) (released (t + after) text)).

(** The FAILED statement of deadLetter. *)
Definition bury (r : EventRow) (reason : string) : Db Z :=
  exec_n (fun d => (count_where (has_id (er_ID r)) (outbox d),
                    update_outbox (has_id (er_ID r)) (buried reason) d)).

(** What the database does after a failed publish. *)
Definition exhausted (r : EventRow) : bool := er_Attempts r >=? RetryMax cfg.
End Statements.

Definition in_backlog (o : OutboxRow) : bool :=
  (oe_status o =d ObPending) || (oe_status o =d ObPublishing).
Definition is_failed (o : OutboxRow) : bool := oe_status o =d ObFailed.
Definition backlog (d : Database) : Z := count_where in_backlog (outbox d).

(** ** The worker *)

Section Process.
Context {T : Type} `{EventTransport T} (cfg : WorkerConfig).
Abbreviation W A := (M (Proc T) A).

Definition with_db {A} (m : Db A) : W A := zoom pr_db put_db m.
Definition on_stats (f : WorkerStats -> WorkerStats) : W unit :=
  modify (fun p => put_stats (f (pr_stats p)) p).
Definition sleep (d : Z) : W unit :=
  fun w => (inr tt, MkWorld (store w) (faults w) (clock w + d)).

(** A call of the transport: it takes time and has no part in the database. *)
Definition call_transport (f : T -> option pub_error * Z * T) : W (option pub_error) :=
  fun w => let '(e, dt, t') := f (pr_transport (store w)) in
           (inr e, MkWorld (put_transport t' (store w)) (faults w) (clock w + dt)).

Definition count_published (ms : Z) (s : WorkerStats) : WorkerStats :=
  MkWorkerStats (Published s + 1) (Failed s) (Retries s) (PublishErrors s) (BacklogDepth s)
    (if ms >? PublishMaxMS s then ms else PublishMaxMS s) (DLQDepth s).
Definition count_errors (failed retries errors : Z) (s : WorkerStats) : WorkerStats :=
  MkWorkerStats (Published s) (Failed s + failed) (Retries s + retries)
    (PublishErrors s + errors) (BacklogDepth s) (PublishMaxMS s) (DLQDepth s).
Definition record_depths (backlog dlq : Z) (s : WorkerStats) : WorkerStats :=
  MkWorkerStats (Published s) (Failed s) (Retries s) (PublishErrors s) backlog
    (PublishMaxMS s) dlq.

Definition deadLetter (r : EventRow) (reason : string) : W unit :=
  (match PublishDLQ with
   | Some dlq => let! _ := call_transport (dlq (Envelope r) reason) in ret tt
   | None => ret tt
   end) ;!
  let! n := with_db (bury r reason) in
  if n =? 0 then ret tt else on_stats (count_errors 1 0 0).

Definition publishOne (r : EventRow) : W unit :=
  let! start := now in
  let! e := call_transport (Publish (Envelope r)) in
  match e with
  | None =>
      let! done := with_db (mark (er_ID r)) in
      if done then
        let! t := now in
        on_stats (count_published (GoTime.Milliseconds (t - start)))
      else ret tt
  | Some e =>
      on_stats (count_errors 0 0 1) ;!
      if is_down e then
        on_stats (count_errors 0 1 0) ;!
        with_db (release r (backoff_down cfg r) (error_text e))
      else if exhausted cfg r then deadLetter r (error_text e)
      else
        on_stats (count_errors 0 1 0) ;!
        with_db (release r (backoff_rejected cfg r) (error_text e))
  end.

Definition refreshBacklog : W unit :=
  let! b := attempt (with_db (query backlog)) in
  match b with
  | inl _ => ret tt
  | inr depth =>
      let! q := attempt (with_db (query (fun d => count_where is_failed (outbox d)))) in
      on_stats (record_depths depth (match q with inr n => n | inl _ => 0 end))
  end.

(** The loop of DrainOnce: the events handled and the error that ended it. *)
Fixpoint publish_all (rows : list EventRow) (handled : Z) : W (Z * option err) :=
  match rows with
  | [] => ret (handled, None)
  | r :: rows' =>
      let! x := attempt (publishOne r) in
      match x with
      | inl e => ret (handled, Some e)
      | inr _ => publish_all rows' (handled + 1)
      end
  end.

Definition DrainOnce : W (Z * option err) :=
  let! c := attempt (with_db (claim cfg)) in
  match c with
  | inl e => ret (0, Some e)
  | inr [] => refreshBacklog ;! ret (0, None)
  | inr rows =>
      let! x := publish_all rows 0 in
      match x with
      | (n, Some e) => ret (n, Some e)
      | (n, None) => refreshBacklog ;! ret (n, None)
      end
  end.

(** One turn of Run's loop, and its first [n] turns. *)
Definition turn : W unit :=
  let! paused := gets pr_paused in
  if paused then sleep (PollInterval cfg)
  else
    let! x := DrainOnce in
    match x with
    | (_, Some _) => sleep (PollInterval cfg)
    | (n, None) => if n =? 0 then sleep (PollInterval cfg) else ret tt
    end.
Fixpoint Run (n : nat) : W unit :=
  match n with O => ret tt | S n' => turn ;! Run n' end.
End Process.
End Worker.

(** ** consumer.go *)

Module Consumer.

(** BacklogDepth of consumer.go: the gate's input. *)
Definition BacklogDepth : Db Z := query Worker.backlog.
Definition BulkPublishAllowed (depth threshold : Z) : bool := depth <=? threshold.

Record Deduper : Type := MkDeduper { seen : gset string; dmax : Z }.
Definition NewDeduper (capacity : Z) : Deduper :=
  MkDeduper ∅ (if capacity <=? 0 then 100000 else capacity).
Definition resetLocked (d : Deduper) : Deduper := MkDeduper ∅ (dmax d).
Definition FirstSeen (id : string) (d : Deduper) : bool * Deduper :=
  if bool_decide (id ∈ seen d) then (false, d)
  else
    let d := if Z.of_nat (size (seen d)) >=? dmax d then resetLocked d else d in
    (true, MkDeduper ({[id]} ∪ seen d) (dmax d)).

Definition RevisionTracker : Type := gmap string Z.
Definition NewRevisionTracker : RevisionTracker := (∅ : gmap string Z).
Definition aggregate_key (kind id : string) : string := kind +:+ "/" +:+ id.
Definition Confirm (kind id : string) (revision : Z) (t : gmap string Z)
    : bool * gmap string Z :=
  let key := aggregate_key kind id in
  match t !! key with
  | Some cur => if revision <=? cur then (false, t) else (true, <[key := revision]> t)
  | None => (true, <[key := revision]> t)
  end.

Fixpoint ordered_from (d : Deduper) (t : gmap string Z) (batch : list EventRow)
    : list EventRow :=
  match batch with
  | [] => []
  | r :: batch' =>
      let (fresh, d') := FirstSeen (er_EventID r) d in
      if negb fresh then ordered_from d' t batch'
      else
        let (applied, t') := Confirm (er_AggregateKind r) (er_AggregateID r)
                               (er_AggregateRevision r) t in
        if negb applied then ordered_from d' t' batch'
        else r :: ordered_from d' t' batch'
  end.
Definition Ordered (batch : list EventRow) : list EventRow :=
  ordered_from (NewDeduper (Z.of_nat (length batch) * 2)) NewRevisionTracker batch.
End Consumer.
