(* ===== verification/OutboxFleet.v ===== *)
(** * Workers over one outbox

    Several workers drain one outbox at once, may stop anywhere, and share the
    table with the stores that append to it.  [step] is that system: each step
    runs one statement or transaction of Events.v, one publish, or lets time
    pass.  The theorems: under every interleaving rows are never lost or
    rewritten, what is marked published was accepted by the transport, and
    sequence numbers are unique; a DrainOnce is such a sequence of steps; with
    a transport that accepts and a database that answers, the loop drains the
    backlog; what the consumer's batch filter keeps. *)

From S2P Require Import Prelude GoStd GoJson GoTime Sql Schema Events.
Import Cloud Transport Worker.

(** ** The system *)

Inductive Phase : Type :=
| Idle
| Working (rows : list EventRow)               (* in the loop, next row first *)
| Acked (r : EventRow) (rest : list EventRow)  (* published, not yet marked *)
| Refused (r : EventRow) (e : pub_error) (rest : list EventRow).

Record Fleet : Type := MkFleet {
  fl_db : Database;
  fl_wire : CloudEvent -> Prop; (* what the transport has accepted *)
  fl_now : Z;
  fl_workers : list Phase;
}.

(** Nothing accepted is taken back. *)
Definition wire_le (a b : CloudEvent -> Prop) : Prop := forall e, a e -> b e.
Notation "a ⊑w b" := (wire_le a b) (at level 70) : saoaf_scope.
#[export] Instance wire_le_preorder : PreOrder wire_le.
Proof. split; [by intros a e|]. intros a b c H1 H2 e He. auto. Qed.

(** What other components do to the tables the worker reads. *)
Inductive produces (t : Z) : Database -> Database -> Prop :=
| prod_change d tenant actor trace kind entity operation decision summary fl id w' :
    insert_change t tenant actor trace kind entity operation decision summary (MkWorld d fl t)
      = (inr id, w') ->
    produces t d (store w')
| prod_event d topic payload change event_id kind aggregate rev fl w' :
    insert_outbox t topic payload change event_id kind aggregate rev (MkWorld d fl t)
      = (inr tt, w') ->
    produces t d (store w')
| prod_event_once d topic payload change event_id kind aggregate rev fl w' :
    insert_outbox_ignore t topic payload change event_id kind aggregate rev (MkWorld d fl t)
      = (inr tt, w') ->
    produces t d (store w')
| prod_other d d' :
    outbox d' = outbox d -> changes d' = changes d -> next_id d <= next_id d' ->
    produces t d d'.

Section System.
Context (cfgs : nat -> WorkerConfig).

(** What publishOne runs on the database after a refusal. *)
Inductive settles (cfg : WorkerConfig) (r : EventRow) (e : pub_error)
    : World Database -> World Database -> Prop :=
| settle_down w w' :
    is_down e = true -> release r (backoff_down cfg r) (error_text e) w = (inr tt, w') ->
    settles cfg r e w w'
| settle_retry w w' :
    is_down e = false -> exhausted cfg r = false ->
    release r (backoff_rejected cfg r) (error_text e) w = (inr tt, w') ->
    settles cfg r e w w'
| settle_dead w w' n :
    is_down e = false -> exhausted cfg r = true ->
    bury r (error_text e) w = (inr n, w') ->
    settles cfg r e w w'.

Inductive step : Fleet -> Fleet -> Prop :=
| step_claim d wire t ws i fl rows w' :
    ws !! i = Some Idle ->
    claim (cfgs i) (MkWorld d fl t) = (inr rows, w') ->
    step (MkFleet d wire t ws) (MkFleet (store w') wire t (<[i := Working rows]> ws))
| step_ack d wire wire' t ws i r rest :
    ws !! i = Some (Working (r :: rest)) ->
    wire ⊑w wire' -> wire' (Envelope r) ->
    step (MkFleet d wire t ws) (MkFleet d wire' t (<[i := Acked r rest]> ws))
| step_refuse d wire wire' t ws i r e rest :
    ws !! i = Some (Working (r :: rest)) ->
    wire ⊑w wire' ->
    step (MkFleet d wire t ws) (MkFleet d wire' t (<[i := Refused r e rest]> ws))
| step_mark d wire t ws i r rest fl b w' :
    ws !! i = Some (Acked r rest) ->
    mark (er_ID r) (MkWorld d fl t) = (inr b, w') ->
    step (MkFleet d wire t ws) (MkFleet (store w') wire t (<[i := Working rest]> ws))
| step_settle d wire t ws i r e rest fl w' :
    ws !! i = Some (Refused r e rest) ->
    settles (cfgs i) r e (MkWorld d fl t) w' ->
    step (MkFleet d wire t ws) (MkFleet (store w') wire t (<[i := Working rest]> ws))
| step_copy d wire wire' t ws : (* a dead-letter copy, or another publisher *)
    wire ⊑w wire' ->
    step (MkFleet d wire t ws) (MkFleet d wire' t ws)
| step_stop d wire t ws i : (* end of the batch, an error return, a crash *)
    step (MkFleet d wire t ws) (MkFleet d wire t (<[i := Idle]> ws))
| step_tick d wire t t' ws :
    t <= t' -> step (MkFleet d wire t ws) (MkFleet d wire t' ws)
| step_produce d d' wire t ws :
    produces t d d' ->
    step (MkFleet d wire t ws) (MkFleet d' wire t ws).
End System.

(** ** What the statements do to a row *)

(** The columns no statement of the worker writes. *)
Definition same_event (o o' : OutboxRow) : Prop :=
  oe_id o' = oe_id o /\ oe_created_at o' = oe_created_at o /\ oe_topic o' = oe_topic o /\
  oe_payload o' = oe_payload o /\ oe_change_id o' = oe_change_id o /\
  oe_event_id o' = oe_event_id o /\ oe_kind o' = oe_kind o /\
  oe_aggregate o' = oe_aggregate o /\ oe_revision o' = oe_revision o.

(** Every update but the mark: the sequence number stays, no row becomes
    PUBLISHED, attempts do not decrease. *)
Definition quiet (o o' : OutboxRow) : Prop :=
  same_event o o' /\ oe_published_seq o' = oe_published_seq o /\
  oe_attempts o <= oe_attempts o' /\
  (oe_status o' = ObPublished -> oe_status o = ObPublished).

(** What holds of a row at any later time. *)
Definition later (o o' : OutboxRow) : Prop :=
  same_event o o' /\ oe_attempts o <= oe_attempts o' /\
  forall n, oe_published_seq o = Some n ->
    exists m, oe_published_seq o' = Some m /\ n <= m.

Lemma same_event_refl o : same_event o o.
Proof. by repeat split. Qed.
Lemma same_event_trans a b c : same_event a b -> same_event b c -> same_event a c.
Proof. unfold same_event. intuition congruence. Qed.
Lemma quiet_refl o : quiet o o.
Proof. split; [apply same_event_refl|]. repeat split; auto. lia. Qed.
Lemma quiet_trans a b c : quiet a b -> quiet b c -> quiet a c.
Proof.
  intros (H1 & H2 & H3 & H4) (K1 & K2 & K3 & K4). split; [by eapply same_event_trans|].
  split; [congruence|]. split; [lia|auto].
Qed.
Lemma outbox_later_refl o : later o o.
Proof. split; [apply same_event_refl|]. split; [lia|]. intros n Hn. exists n. split; [done|lia]. Qed.
Lemma outbox_later_trans a b c : later a b -> later b c -> later a c.
Proof.
  intros (H1 & H2 & H3) (K1 & K2 & K3). split; [by eapply same_event_trans|]. split; [lia|].
  intros n Hn. destruct (H3 n Hn) as (m & Hm & ?). destruct (K3 m Hm) as (k & ? & ?).
  exists k. split; [done|lia].
Qed.
Lemma quiet_outbox_later o o' : quiet o o' -> later o o'.
Proof.
  intros (H1 & H2 & H3 & _). split; [done|]. split; [done|]. intros n Hn. exists n.
  split; [congruence|lia].
Qed.

Lemma leased_quiet w u o : quiet o (leased w u o).
Proof. repeat split; simpl; try lia; discriminate. Qed.
Lemma released_quiet n e o : quiet o (released n e o).
Proof. repeat split; simpl; try lia; discriminate. Qed.
Lemma buried_quiet e o : quiet o (buried e o).
Proof. repeat split; simpl; try lia; discriminate. Qed.

(** A database whose outbox rows moved by [R]. *)
Definition moved (R : OutboxRow -> OutboxRow -> Prop) (d d' : Database) : Prop :=
  changes d' = changes d /\ next_id d' = next_id d /\ Forall2 R (outbox d) (outbox d').

Lemma moved_refl (R : OutboxRow -> OutboxRow -> Prop) d : (forall o, R o o) -> moved R d d.
Proof. intros HR. split; [done|]. split; [done|]. by apply Forall_Forall2_diag, Forall_forall. Qed.
Lemma moved_trans (R : OutboxRow -> OutboxRow -> Prop) a b c :
  (forall x y z, R x y -> R y z -> R x z) -> moved R a b -> moved R b c -> moved R a c.
Proof.
  intros HR (H1 & H2 & H3) (K1 & K2 & K3). split; [congruence|]. split; [congruence|].
  eapply Forall2_trans; [|exact H3|exact K3]. eauto.
Qed.
Lemma moved_update (R : OutboxRow -> OutboxRow -> Prop) p f d :
  (forall o, R o o) -> (forall o, o ∈ outbox d -> p o = true -> R o (f o)) ->
  moved R d (update_outbox p f d).
Proof.
  intros Hr Hf. split; [done|]. split; [done|]. unfold update_outbox, update_where. simpl.
  apply Forall2_fmap_r, Forall_Forall2_diag, Forall_forall.
  intros o Ho. change (R o (if p o then f o else o)). destruct (p o) eqn:E; auto.
Qed.

(** ** Runs of the statements *)

Lemma update_where_twice {R} (p q : R -> bool) f t :
  (forall o, q (f o) = q o) -> (forall o, f (f o) = f o) ->
  update_where q f (update_where p f t) = update_where (fun o => p o || q o) f t.
Proof.
  intros Hq Hf. unfold update_where. rewrite List.map_map. apply List.map_ext. intros o.
  destruct (p o) eqn:Ep; simpl; [|done]. rewrite Hq, Hf. by destruct (q o).
Qed.
Lemma update_where_ext {R} (p q : R -> bool) f t :
  (forall o, p o = q o) -> update_where p f t = update_where q f t.
Proof. intros H. apply List.map_ext. intros o. by rewrite H. Qed.

Definition claimed_in (rows : list EventRow) (o : OutboxRow) : bool :=
  existsb (fun r => has_id (er_ID r) o) rows.

Lemma lease_all rows u until (w w' : World Database) x :
  for_each rows (fun r => exec (update_outbox (has_id (er_ID r)) (leased u until))) w = (inr x, w') ->
  store w' = update_outbox (claimed_in rows) (leased u until) (store w) /\ clock w' = clock w.
Proof.
  revert w. induction rows as [|r rows IH]; intros w Hr; simpl in Hr.
  - inv_run. split; [|done]. unfold update_outbox. rewrite update_where_none by done.
    by destruct (store w).
  - inv_run. destruct (IH _ Hr) as [IH1 IH2]. split; [|congruence]. rewrite IH1.
    match goal with H : store _ = _ |- _ => rewrite H end. unfold update_outbox. simpl.
    by rewrite update_where_twice.
Qed.

Lemma claim_inr cfg w rows w' :
  claim cfg w = (inr rows, w') ->
  rows = claim_select (BatchSize cfg) (clock w) (store w) /\
  store w' = update_outbox (claimed_in rows)
    (leased (WorkerID cfg) (clock w + GoTime.Seconds (LeaseTTL cfg) * GoTime.Second)) (store w).
Proof.
  intros H. apply tx_inr in H as (w0 & Hs & Hc & [(w1 & Hb & Hw)|(w1 & Hb & Hw)]).
  - inv_run. subst. destruct (claim_select _ _ _) as [|r rows'] eqn:E; inv_run; [discriminate|].
    match goal with H : Commit _ = Commit _ |- _ => injection H as -> end.
    match goal with H : for_each _ _ _ = _ |- _ => apply lease_all in H as [HL _] end.
    rewrite <- E, Hw, HL, <- Hs, <- Hc. split; [done|]. congruence.
  - inv_run. subst. destruct (claim_select _ _ _) as [|r rows'] eqn:E; inv_run; [|discriminate].
    match goal with H : Rollback _ = Rollback _ |- _ => injection H as -> end.
    rewrite <- Hs, <- Hc, E. split; [done|]. unfold update_outbox.
    rewrite update_where_none by done. rewrite Hw, Hs. by destruct (store w).
Qed.

Definition markable (id : Z) (o : OutboxRow) : bool :=
  has_id id o && (oe_status o =d ObPublishing).

Lemma mark_inr id w b w' :
  mark id w = (inr b, w') ->
  store w' = update_outbox (markable id) (marked (clock w) (max_seq (outbox (store w)) + 1))
    (store w) /\ b = any_where (markable id) (outbox (store w)).
Proof.
  intros H. apply tx_inr in H as (w0 & Hs & Hc & H).
  assert (Hn : forall x w1, (let! t := now in connect ;!
      let! n := exec_n (fun d => (count_where (markable id) (outbox d),
         update_outbox (markable id) (marked t (max_seq (outbox d) + 1)) d)) in
      if n =? 0 then ret (Rollback false) else ret (Commit true)) w0 = (inr x, w1) ->
    store w1 = update_outbox (markable id) (marked (clock w) (max_seq (outbox (store w)) + 1))
      (store w) /\
    x = if count_where (markable id) (outbox (store w)) =? 0 then Rollback false else Commit true).
  { intros x w1 Hr. inv_run. subst.
    match goal with H : (_, _) = (_, _) |- _ => injection H as <- Hst end.
    match goal with H : store ?v = store w0 |- _ => rewrite H, Hs in * end. rewrite Hc in *.
    destruct (_ =? 0) eqn:E; inv_run; split; congruence. }
  assert (Hz : (count_where (markable id) (outbox (store w)) =? 0)
    = negb (any_where (markable id) (outbox (store w)))).
  { apply eq_true_iff_eq. rewrite Z.eqb_eq, negb_true_iff, count_where_zero, any_where_false. done. }
  destruct H as [(w1 & Hb & Hw)|(w1 & Hb & Hw)]; apply Hn in Hb as [Hst Hx]; rewrite Hz in Hx;
    destruct (any_where _ _) eqn:Ea; simpl in Hx; try discriminate; injection Hx as ->.
  - split; [congruence|done].
  - split; [|done]. unfold update_outbox.
    rewrite update_where_none by by apply any_where_false. rewrite Hw. by destruct (store w).
Qed.

Lemma release_inr r after text w x w' :
  release r after text w = (inr x, w') ->
  store w' = update_outbox (has_id (er_ID r)) (released (clock w + after) text) (store w).
Proof. intros H. unfold release in H. inv_run. congruence. Qed.
Lemma bury_inr r text w n w' :
  bury r text w = (inr n, w') ->
  store w' = update_outbox (has_id (er_ID r)) (buried text) (store w) /\
  n = count_where (has_id (er_ID r)) (outbox (store w)).
Proof. intros H. unfold bury in H. inv_run. by match goal with H : (_, _) = _ |- _ => injection H as <- <- end. Qed.

Lemma claim_moved cfg w rows w' :
  claim cfg w = (inr rows, w') -> moved quiet (store w) (store w').
Proof.
  intros H. apply claim_inr in H as [_ ->].
  apply moved_update; [apply quiet_refl|]. intros. apply leased_quiet.
Qed.
Lemma settles_moved cfg r e w w' : settles cfg r e w w' -> moved quiet (store w) (store w').
Proof.
  intros [? ? _ H|? ? _ _ H|? ? ? _ _ H];
    [apply release_inr in H as ->|apply release_inr in H as ->|apply bury_inr in H as [-> _]];
    (apply moved_update; [apply quiet_refl|]); intros;
    auto using released_quiet, buried_quiet.
Qed.

(** ** The invariant *)

Definition seq_set (o : OutboxRow) : bool := bool_decide (is_Some (oe_published_seq o)).

(** Keys of the outbox, and its foreign key. *)
Definition outbox_wf (d : Database) : Prop :=
  (forall o, o ∈ outbox d -> oe_id o < next_id d) /\
  indexed (fun _ => true) oe_id (outbox d) /\
  (forall o, o ∈ outbox d -> is_Some (event_row (changes d) o)).

(** The transport has accepted the row's event. *)
Definition accepted (wire : CloudEvent -> Prop) (d : Database) (o : OutboxRow) : Prop :=
  exists r, event_row (changes d) o = Some r /\ wire (Envelope r).

Record db_ok (wire : CloudEvent -> Prop) (d : Database) : Prop := {
  ok_wf : outbox_wf d;
  ok_status : forall o, o ∈ outbox d -> oe_status o = ObPublished -> is_Some (oe_published_seq o);
  ok_wire : forall o, o ∈ outbox d -> is_Some (oe_published_seq o) -> accepted wire d o;
  ok_seq : indexed seq_set oe_published_seq (outbox d);
}.

(** A row in a worker's hands is a row of the table, up to the columns the
    worker itself changes. *)
Definition known (d : Database) (r : EventRow) : Prop :=
  exists o r', o ∈ outbox d /\ oe_id o = er_ID r /\
    event_row (changes d) o = Some r' /\ Envelope r' = Envelope r.
Definition held (p : Phase) : list EventRow :=
  match p with Idle => [] | Working l => l | Acked r l | Refused r _ l => r :: l end.
Definition phase_ok (wire : CloudEvent -> Prop) (d : Database) (p : Phase) : Prop :=
  (forall r, r ∈ held p -> known d r) /\
  match p with Acked r _ => wire (Envelope r) | _ => True end.
Definition fleet_ok (s : Fleet) : Prop :=
  db_ok (fl_wire s) (fl_db s) /\ Forall (phase_ok (fl_wire s) (fl_db s)) (fl_workers s).

(** *** Rows that move in place *)

Lemma moved_back R d d' i o' :
  moved R d d' -> outbox d' !! i = Some o' -> exists o, outbox d !! i = Some o /\ R o o'.
Proof. intros (_ & _ & H) Hi. eapply Forall2_lookup_r in H as (o & ? & ?); eauto. Qed.
Lemma moved_back_elem R d d' o' :
  moved R d d' -> o' ∈ outbox d' -> exists o, o ∈ outbox d /\ R o o'.
Proof.
  intros H Ho. apply list_elem_of_lookup_1 in Ho as [i Hi].
  destruct (moved_back _ _ _ _ _ H Hi) as (o & Ho & ?). eauto using list_elem_of_lookup_2.
Qed.
Lemma moved_elem R d d' o :
  moved R d d' -> o ∈ outbox d -> exists o', o' ∈ outbox d' /\ R o o'.
Proof.
  intros (_ & _ & H) Ho. apply list_elem_of_lookup_1 in Ho as [i Hi].
  eapply Forall2_lookup_l in H as (o' & ? & ?); eauto using list_elem_of_lookup_2.
Qed.
Lemma moved_weaken (R Q : OutboxRow -> OutboxRow -> Prop) d d' :
  (forall o o', R o o' -> Q o o') -> moved R d d' -> moved Q d d'.
Proof. intros H (H1 & H2 & H3). split; [done|]. split; [done|]. by eapply Forall2_impl. Qed.
Lemma quiet_same o o' : quiet o o' -> same_event o o'.
Proof. by intros [? _]. Qed.

Lemma event_row_same cs o o' r :
  same_event o o' -> event_row cs o = Some r ->
  exists r', event_row cs o' = Some r' /\ er_ID r' = er_ID r /\ Envelope r' = Envelope r.
Proof.
  intros (H1 & H2 & H3 & H4 & H5 & H6 & H7 & H8 & H9). unfold event_row. rewrite H5.
  destruct (first_where _ cs) as [c|]; [|discriminate]. intros [= <-]. eexists.
  split; [done|]. unfold Envelope. simpl. by rewrite H1, H2, H3, H4, H6, H7, H8.
Qed.

Section Moves.
Context (d d' : Database) (Hm : moved same_event d d').

Lemma outbox_wf_moved : outbox_wf d -> outbox_wf d'.
Proof using Hm.
  intros (H1 & H2 & H3). pose proof Hm as (Hc & Hn & _).
  split; [|split].
  - intros o' Ho'. destruct (moved_back_elem _ _ _ _ Hm Ho') as (o & Ho & (He & _)).
    rewrite He, Hn. auto.
  - intros i j a b Hi Hj _ _ Hk.
    destruct (moved_back _ _ _ _ _ Hm Hi) as (a0 & Ha & (He & _)).
    destruct (moved_back _ _ _ _ _ Hm Hj) as (b0 & Hb & (Hf & _)).
    eapply H2; eauto. congruence.
  - intros o' Ho'. destruct (moved_back_elem _ _ _ _ Hm Ho') as (o & Ho & He).
    destruct (H3 o Ho) as [r Hr]. rewrite Hc.
    destruct (event_row_same _ _ _ _ He Hr) as (r' & -> & _). eauto.
Qed.
Lemma known_moved r : known d r -> known d' r.
Proof using Hm.
  intros (o & r' & Ho & Hid & Hr & He). destruct (moved_elem _ _ _ _ Hm Ho) as (o' & Ho' & Hs).
  pose proof Hm as (Hc & _). destruct (event_row_same _ _ _ _ Hs Hr) as (r2 & Hr2 & _ & Henv).
  exists o', r2. destruct Hs as [Hi _]. rewrite Hc. repeat split; congruence || done.
Qed.
Lemma accepted_moved wire o o' : same_event o o' -> accepted wire d o -> accepted wire d' o'.
Proof using Hm.
  intros Hs (r & Hr & Hw). pose proof Hm as (Hc & _).
  destruct (event_row_same _ _ _ _ Hs Hr) as (r2 & Hr2 & _ & Henv).
  exists r2. rewrite Hc, Henv. done.
Qed.
End Moves.

Lemma db_ok_quiet wire d d' : moved quiet d d' -> db_ok wire d -> db_ok wire d'.
Proof.
  intros Hq [Hwf Hst Hwi Hse]. pose proof (moved_weaken _ _ _ _ quiet_same Hq) as Hm. split.
  - by eapply outbox_wf_moved.
  - intros o' Ho' Hp. destruct (moved_back_elem _ _ _ _ Hq Ho') as (o & Ho & (_ & Hs & _ & Hp')).
    rewrite Hs. auto.
  - intros o' Ho' Hp. destruct (moved_back_elem _ _ _ _ Hq Ho') as (o & Ho & (He & Hs & _)).
    rewrite Hs in Hp. eapply accepted_moved; eauto.
  - intros i j a b Hi Hj Ha Hb Hk.
    destruct (moved_back _ _ _ _ _ Hq Hi) as (a0 & Ha0 & (_ & Hsa & _)).
    destruct (moved_back _ _ _ _ _ Hq Hj) as (b0 & Hb0 & (_ & Hsb & _)).
    unfold seq_set in *. rewrite Hsa in *. rewrite Hsb in *. eapply Hse; eauto.
Qed.

(** *** The mark *)

Lemma max_seq_ge t o n : o ∈ t -> oe_published_seq o = Some n -> n <= max_seq t.
Proof.
  intros Ho Hn. pose proof (max_of_ge (fun o => default 0 (oe_published_seq o)) t o Ho) as H.
  simpl in H. by rewrite Hn in H.
Qed.

Lemma marked_same t n o : same_event o (marked t n o).
Proof. by repeat split. Qed.

Definition marked_or_kept (id t n : Z) (o o' : OutboxRow) : Prop :=
  o' = if markable id o then marked t n o else o.
Lemma mark_moved id t n d :
  moved (marked_or_kept id t n) d (update_outbox (markable id) (marked t n) d).
Proof.
  split; [done|]. split; [done|]. unfold update_outbox, update_where. simpl.
  apply Forall2_fmap_r, Forall_Forall2_diag, Forall_forall. done.
Qed.
Lemma marked_or_kept_same id t n o o' : marked_or_kept id t n o o' -> same_event o o'.
Proof. intros ->. destruct (markable id o); [apply marked_same|apply same_event_refl]. Qed.

Lemma db_ok_mark wire d id t :
  db_ok wire d ->
  (forall o, o ∈ outbox d -> markable id o = true -> accepted wire d o) ->
  db_ok wire (update_outbox (markable id) (marked t (max_seq (outbox d) + 1)) d).
Proof.
  intros [Hwf Hst Hwi Hse] Hacc. set (n := max_seq (outbox d) + 1).
  pose proof (mark_moved id t n d) as Hk.
  pose proof (moved_weaken _ _ _ _ (marked_or_kept_same id t n) Hk) as Hm. split.
  - by eapply outbox_wf_moved.
  - intros o' Ho' Hp. destruct (moved_back_elem _ _ _ _ Hk Ho') as (o & Ho & ->).
    destruct (markable id o); [by eexists|auto].
  - intros o' Ho' Hp. destruct (moved_back_elem _ _ _ _ Hk Ho') as (o & Ho & ->).
    destruct (markable id o) eqn:E.
    + eapply accepted_moved; eauto using marked_same.
    + eapply accepted_moved; eauto using same_event_refl.
  - intros i j a b Hi Hj Ha Hb Hab.
    destruct (moved_back _ _ _ _ _ Hk Hi) as (a0 & Ha0 & ->).
    destruct (moved_back _ _ _ _ _ Hk Hj) as (b0 & Hb0 & ->).
    assert (Hlt : forall c k, outbox d !! k = Some c -> oe_published_seq c = Some n -> False).
    { intros c k Hc Hn. apply list_elem_of_lookup_2 in Hc.
      pose proof (max_seq_ge _ _ _ Hc Hn). lia. }
    destruct (markable id a0) eqn:Ea, (markable id b0) eqn:Eb.
    + destruct Hwf as (_ & Hid & _). eapply Hid; eauto. unfold markable, has_id in *. b2p. lia.
    + simpl in Hab. exfalso. eauto.
    + simpl in Hab. exfalso. eauto.
    + eapply Hse; eauto.
Qed.

(** *** Producers *)

Lemma event_row_app cs cs' o r : event_row cs o = Some r -> event_row (cs ++ cs') o = Some r.
Proof.
  unfold event_row. rewrite first_where_app. destruct (first_where _ cs); [done|discriminate].
Qed.

(** A database that gained audit rows and at most new outbox rows at the end. *)
Record grown (d d' : Database) : Prop := {
  grown_changes : extends (changes d) (changes d');
  grown_outbox : outbox d' = outbox d \/ exists o, outbox d' = outbox d ++ [o] /\
    oe_id o = next_id d /\ oe_published_seq o = None /\ oe_status o = ObPending /\
    is_Some (event_row (changes d') o) /\ next_id d < next_id d';
  grown_id : next_id d <= next_id d';
}.

Lemma insert_outbox_grown d t topic payload change event_id kind aggregate rev :
  outbox_ok d change rev = inr tt ->
  grown d (push_outbox (new_outbox d t topic payload change event_id kind aggregate rev) d).
Proof.
  unfold outbox_ok. destruct (rev <? 1); [discriminate|].
  destruct (any_where _ _) eqn:E; [|discriminate]. intros _.
  apply any_where_spec in E as (c & Hc & Hid).
  split; simpl; [apply extends_refl| |lia]. right. eexists. repeat split; [|lia].
  unfold event_row. simpl.
  destruct (first_where _ (changes d)) as [c'|] eqn:Ef; [by eexists|].
  by rewrite (first_where_none _ _ _ Ef Hc) in Hid.
Qed.

Lemma produces_grown t d d' : produces t d d' -> grown d d'.
Proof.
  intros [].
  - apply insert_change_inr in H as (_ & _ & _ & ->). split; simpl; [apply extends_app|by left|lia].
  - apply insert_row_inr in H as [H _]. simpl in H.
    destruct (outbox_ok d0 change rev) as [|[]] eqn:E; [discriminate|].
    destruct (outbox_conflict _ _ _ _ _); [discriminate|]. injection H as <-.
    by apply insert_outbox_grown.
  - apply insert_row_inr in H as [H _]. simpl in H.
    destruct (outbox_ok d0 change rev) as [|[]] eqn:E; [discriminate|].
    destruct (outbox_conflict _ _ _ _ _); injection H as <-; [|by apply insert_outbox_grown].
    split; auto. lia.
  - split; auto. rewrite H0. apply extends_refl.
Qed.

Lemma grown_elem d d' o : grown d d' -> o ∈ outbox d -> o ∈ outbox d'.
Proof.
  intros [_ Ho _] H. destruct Ho as [->|(o' & -> & _)]; [done|]. apply elem_of_app. by left.
Qed.
Lemma grown_row d d' o r :
  grown d d' -> event_row (changes d) o = Some r -> event_row (changes d') o = Some r.
Proof. intros [[cs ->] _ _]. apply event_row_app. Qed.
Lemma known_grown d d' r : grown d d' -> known d r -> known d' r.
Proof.
  intros Hg (o & r' & Ho & Hid & Hr & He).
  exists o, r'. repeat split; eauto using grown_elem, grown_row.
Qed.
Lemma accepted_grown wire d d' o : grown d d' -> accepted wire d o -> accepted wire d' o.
Proof. intros Hg (r & Hr & Hw). exists r. split; eauto using grown_row. Qed.

Lemma indexed_push {K} (p : OutboxRow -> bool) (key : OutboxRow -> K) t o :
  indexed p key t ->
  (p o = true -> forall x, x ∈ t -> p x = true -> key x <> key o) ->
  indexed p key (t ++ [o]).
Proof.
  intros Ht Ho i j a b Hi Hj Ha Hb Hk.
  apply lookup_app_Some in Hi as [Hi|[Hli Hi]], Hj as [Hj|[Hlj Hj]].
  all: try (apply list_lookup_singleton_Some in Hi as [Hi <-]).
  all: try (apply list_lookup_singleton_Some in Hj as [Hj <-]).
  - eauto.
  - exfalso. eapply (Ho Hb a); eauto using list_elem_of_lookup_2.
  - exfalso. eapply (Ho Ha b); eauto using list_elem_of_lookup_2.
  - lia.
Qed.

Lemma outbox_wf_grown d d' : grown d d' -> outbox_wf d -> outbox_wf d'.
Proof.
  intros Hg (H1 & H2 & H3). pose proof (grown_id _ _ Hg) as Hn.
  assert (Hold : forall o, o ∈ outbox d -> oe_id o < next_id d' /\ is_Some (event_row (changes d') o)).
  { intros o Ho. specialize (H1 o Ho). destruct (H3 o Ho) as [r Hr].
    rewrite (grown_row _ _ _ _ Hg Hr). split; [lia|by eexists]. }
  destruct (grown_outbox _ _ Hg) as [Eo|(o' & Eo & Hid & _ & _ & Hr & Hlt)].
  - unfold outbox_wf. rewrite Eo. split; [by apply Hold|]. split; [done|]. apply Hold.
  - unfold outbox_wf. rewrite Eo. split; [|split].
    + intros o Ho. apply elem_of_app in Ho as [Ho|Ho]; [by apply Hold|].
      apply list_elem_of_singleton in Ho as ->. lia.
    + apply indexed_push; [done|]. intros _ x Hx _. specialize (H1 x Hx). lia.
    + intros o Ho. apply elem_of_app in Ho as [Ho|Ho]; [by apply Hold|].
      by apply list_elem_of_singleton in Ho as ->.
Qed.

Lemma db_ok_grown wire d d' : grown d d' -> db_ok wire d -> db_ok wire d'.
Proof.
  intros Hg [Hwf Hst Hwi Hse]. split; [by eapply outbox_wf_grown|..].
  - intros o Ho Hp. destruct (grown_outbox _ _ Hg) as [Eo|(o' & Eo & _ & _ & Hs & _)];
      rewrite Eo in Ho; [auto|]. apply elem_of_app in Ho as [Ho|Ho]; [auto|].
    apply list_elem_of_singleton in Ho as ->. congruence.
  - intros o Ho Hp. eapply accepted_grown; [done|].
    destruct (grown_outbox _ _ Hg) as [Eo|(o' & Eo & _ & Hn & _)]; rewrite Eo in Ho; [auto|].
    apply elem_of_app in Ho as [Ho|Ho]; [auto|].
    apply list_elem_of_singleton in Ho as ->. rewrite Hn in Hp. by destruct Hp.
  - destruct (grown_outbox _ _ Hg) as [->|(o' & -> & _ & Hn & _)]; [done|].
    apply indexed_push; [done|]. unfold seq_set. rewrite Hn. intros H.
    apply bool_decide_eq_true_1 in H. by destruct H.
Qed.

(** *** Steps *)

Lemma db_ok_wire wire wire' d : wire ⊑w wire' -> db_ok wire d -> db_ok wire' d.
Proof.
  intros Hle [Hwf Hst Hwi Hse]. split; auto. intros o Ho Hp.
  destruct (Hwi o Ho Hp) as (r & Hr & Hw). exists r. auto.
Qed.
Lemma phase_ok_mono wire wire' d d' p :
  wire ⊑w wire' -> (forall r, known d r -> known d' r) ->
  phase_ok wire d p -> phase_ok wire' d' p.
Proof.
  intros Hle Hk [H1 H2]. split; [auto|]. destruct p; auto.
Qed.
Lemma phases_mono wire wire' d d' ps :
  wire ⊑w wire' -> (forall r, known d r -> known d' r) ->
  Forall (phase_ok wire d) ps -> Forall (phase_ok wire' d') ps.
Proof. intros Hw Hk H. eapply Forall_impl; [exact H|]. intros p. by apply phase_ok_mono. Qed.

Lemma claim_known d n t r : r ∈ claim_select n t d -> known d r.
Proof.
  unfold claim_select. intros H. apply list_elem_of_In in H.
  assert (r ∈ omap (event_row (changes d)) (rows_where (claimable t) (outbox d))) as Hr.
  { rewrite <- (merge_sort_Permutation id_le). apply list_elem_of_In in H.
    by apply elem_of_take in H as (i & Hi & _); eapply list_elem_of_lookup_2. }
  apply list_elem_of_omap in Hr as (o & Ho & Hr).
  apply elem_of_rows_where in Ho as [Ho _]. exists o, r. repeat split; auto.
  unfold event_row in Hr. destruct (first_where _ _); [|discriminate]. by injection Hr as <-.
Qed.

Lemma phases_insert wire d ps i p :
  Forall (phase_ok wire d) ps -> phase_ok wire d p -> Forall (phase_ok wire d) (<[i := p]> ps).
Proof. intros H Hp. by apply Forall_insert. Qed.
Lemma phases_lookup wire d ps i p :
  Forall (phase_ok wire d) ps -> ps !! i = Some p -> phase_ok wire d p.
Proof. intros H Hi. by eapply Forall_lookup_1. Qed.

(** What a mark needs: the row whose id it names is the row that was published. *)
Lemma markable_accepted wire d r o :
  db_ok wire d -> known d r -> wire (Envelope r) ->
  o ∈ outbox d -> markable (er_ID r) o = true -> accepted wire d o.
Proof.
  intros Hd (o' & r' & Ho' & Hid & Hr & He) Hw Ho Hm.
  destruct (ok_wf _ _ Hd) as (_ & Hu & _).
  assert (o = o') as ->.
  { eapply (indexed_elem (fun _ => true) oe_id); eauto. unfold markable, has_id in Hm. b2p. lia. }
  exists r'. split; [done|]. by rewrite He.
Qed.

Lemma step_fleet_ok cfgs s s' : step cfgs s s' -> fleet_ok s -> fleet_ok s'.
Proof.
  intros Hst [Hd Hp]. destruct Hst; simpl in *.
  - pose proof (claim_moved _ _ _ _ H0) as Hm. simpl in Hm.
    pose proof (known_moved _ _ (moved_weaken _ _ _ _ quiet_same Hm)) as Hk.
    split; simpl; [by eapply db_ok_quiet|]. apply phases_insert.
    + by eapply phases_mono.
    + split; [|done]. intros r Hr. apply Hk. apply claim_inr in H0 as [-> _].
      by eapply claim_known.
  - pose proof (phases_lookup _ _ _ _ _ Hp H) as [Hr _].
    split; simpl; [by eapply db_ok_wire|]. apply phases_insert; [|by split].
    eapply phases_mono; eauto.
  - pose proof (phases_lookup _ _ _ _ _ Hp H) as [Hr _].
    split; simpl; [by eapply db_ok_wire|]. apply phases_insert; [|by split].
    eapply phases_mono; eauto.
  - pose proof (phases_lookup _ _ _ _ _ Hp H) as [Hr Hw]. simpl in Hw.
    apply mark_inr in H0 as [-> _]. simpl.
    pose proof (mark_moved (er_ID r) t (max_seq (outbox d) + 1) d) as Hm.
    pose proof (known_moved _ _ (moved_weaken _ _ _ _ (marked_or_kept_same _ _ _) Hm)) as Hk.
    assert (Hr0 : known d r) by (apply Hr; constructor).
    split; simpl.
    + apply db_ok_mark; [done|]. intros o Ho Ho'. by eapply markable_accepted.
    + apply phases_insert; [by eapply phases_mono|]. split; [|done].
      intros x Hx. apply Hk, Hr. by constructor.
  - pose proof (settles_moved _ _ _ _ _ H0) as Hm. simpl in Hm.
    pose proof (known_moved _ _ (moved_weaken _ _ _ _ quiet_same Hm)) as Hk.
    pose proof (phases_lookup _ _ _ _ _ Hp H) as [Hr _].
    split; simpl; [by eapply db_ok_quiet|]. apply phases_insert; [by eapply phases_mono|].
    split; [|done]. intros x Hx. apply Hk, Hr. by constructor.
  - split; simpl; [by eapply db_ok_wire|]. eapply phases_mono; eauto.
  - split; simpl; [done|]. apply phases_insert; [done|]. split; [|done]. intros r Hr.
    by apply elem_of_nil in Hr.
  - done.
  - apply produces_grown in H. split; simpl; [by eapply db_ok_grown|].
    eapply phases_mono; [done| |done]. intros r. by apply known_grown.
Qed.

(** *** Histories *)

(** What a later state of the system keeps of an earlier one. *)
Definition follows (s s' : Fleet) : Prop :=
  rows_kept later (outbox (fl_db s)) (outbox (fl_db s')) /\
  fl_wire s ⊑w fl_wire s' /\ fl_now s <= fl_now s'.

Lemma follows_refl s : follows s s.
Proof. split; [apply rows_kept_refl, outbox_later_refl|]. split; [done|lia]. Qed.
Lemma follows_trans a b c : follows a b -> follows b c -> follows a c.
Proof.
  intros (H1 & H2 & H3) (K1 & K2 & K3). split; [|split; [by etrans|lia]].
  eapply rows_kept_trans; eauto using outbox_later_trans.
Qed.
Lemma moved_kept d d' : moved later d d' -> rows_kept later (outbox d) (outbox d').
Proof. intros (_ & _ & H) i o Hi. eapply Forall2_lookup_l in H as (o' & ? & ?); eauto. Qed.

Lemma mark_later id t d :
  moved later d (update_outbox (markable id) (marked t (max_seq (outbox d) + 1)) d).
Proof.
  apply moved_update; [apply outbox_later_refl|]. intros o Ho _. split; [apply marked_same|].
  split; [simpl; lia|]. intros n Hn. eexists. split; [done|].
  pose proof (max_seq_ge _ _ _ Ho Hn). lia.
Qed.

Lemma step_follows cfgs s s' : step cfgs s s' -> follows s s'.
Proof.
  intros Hst. destruct Hst; unfold follows; simpl;
    (split; [|split; [done|lia]]); try (apply rows_kept_refl, outbox_later_refl).
  - apply moved_kept, (moved_weaken _ _ _ _ quiet_outbox_later). by eapply (claim_moved _ (MkWorld d fl t)).
  - apply mark_inr in H0 as [-> _]. apply moved_kept, mark_later.
  - apply moved_kept, (moved_weaken _ _ _ _ quiet_outbox_later).
    by eapply (settles_moved _ _ _ (MkWorld d fl t)).
  - apply produces_grown in H. destruct (grown_outbox _ _ H) as [->|(o & -> & _)];
      [apply rows_kept_refl, outbox_later_refl|apply rows_kept_app, outbox_later_refl].
Qed.

Lemma star_follows cfgs s s' : star (step cfgs) s s' -> follows s s'.
Proof.
  intros H. induction H; [apply follows_refl|]. eapply follows_trans; eauto using step_follows.
Qed.

(** ** A DrainOnce is a sequence of steps *)

Lemma claim_timeless cfg : timeless (claim cfg).
Proof. unfold claim. timeless_walk. Qed.
Lemma mark_timeless id : timeless (mark id).
Proof. unfold mark. timeless_walk. Qed.
Lemma release_timeless r a text : timeless (release r a text).
Proof. unfold release. timeless_walk. Qed.
Lemma bury_timeless r text : timeless (bury r text).
Proof. unfold bury. timeless_walk. Qed.
Lemma release_inl r a text w e w' : release r a text w = (inl e, w') -> store w' = store w.
Proof. unfold release, bind, now. apply exec_inl. Qed.

Section Simulation.
Context {T : Type} `{LawfulTransport T} (cfgs : nat -> WorkerConfig) (i : nat).
Implicit Types (w : World (Proc T)) (ws : list Phase).

(** The system a worker's process is part of. *)
Definition fleet_at w ws : Fleet :=
  MkFleet (pr_db (store w)) (on_wire (pr_transport (store w))) (clock w) ws.

(** A database operation inside the process: the result, and the world with
    only the database and the failures changed. *)
Lemma with_db_run {A} (m : Db A) w r w' :
  timeless m -> with_db m w = (r, w') ->
  exists v, m (MkWorld (pr_db (store w)) (faults w) (clock w)) = (r, v) /\
    forall ws, fleet_at w' ws = MkFleet (store v) (on_wire (pr_transport (store w))) (clock w) ws.
Proof using.
  intros Ht Hr. unfold with_db, zoom in Hr.
  destruct (m _) as [x v] eqn:E. injection Hr as -> <-. exists v. split; [done|].
  intros ws. unfold fleet_at. simpl. specialize (Ht (MkWorld (pr_db (store w)) (faults w) (clock w))).
  rewrite E in Ht. simpl in Ht. by rewrite Ht.
Qed.

Lemma on_stats_run f w : exists w', on_stats f w = (inr tt, w') /\
  forall ws, fleet_at w' ws = fleet_at w ws.
Proof using. eexists. split; [reflexivity|]. done. Qed.

Ltac run_stats H :=
  match type of H with
  | context [on_stats ?f ?v] =>
      let w1 := fresh "v" in let E := fresh "E" in let F := fresh "F" in
      destruct (on_stats_run f v) as (w1 & E & F); rewrite E in H; clear E
  end.

(** A transport call, then the steps it is. *)
Lemma call_transport_run f w e w' :
  call_transport f w = (inr e, w') ->
  exists dt t', f (pr_transport (store w)) = (e, dt, t') /\
    forall ws, fleet_at w' ws = MkFleet (pr_db (store w)) (on_wire t') (clock w + dt) ws.
Proof using.
  unfold call_transport. destruct (f _) as [[e0 dt] t'] eqn:E. intros [= -> <-].
  exists dt, t'. done.
Qed.
Lemma tick_step w dt ws :
  0 <= dt -> step cfgs (fleet_at w ws)
    (MkFleet (pr_db (store w)) (on_wire (pr_transport (store w))) (clock w + dt) ws).
Proof using. intros Hd. apply step_tick. lia. Qed.

(** One row: from the loop's head to its next head, or stopped inside. *)
Definition one_row r rest ws w (x : err + unit) w' : Prop :=
  exists p, star (step cfgs) (fleet_at w (<[i := Working (r :: rest)]> ws))
                             (fleet_at w' (<[i := p]> ws)) /\
    (x = inr tt -> p = Working rest).

Lemma settle_release r e rest ws w after x w' :
  (i < length ws)%nat ->
  (forall v v', release r after (error_text e) v = (inr tt, v') -> settles (cfgs i) r e v v') ->
  with_db (release r after (error_text e)) w = (x, w') ->
  exists p, star (step cfgs) (fleet_at w (<[i := Refused r e rest]> ws))
                             (fleet_at w' (<[i := p]> ws)) /\
    (x = inr tt -> p = Working rest).
Proof using.
  intros Hi Hs Hr. apply with_db_run in Hr as (v & Hv & Hf); [|apply release_timeless].
  destruct x as [er|[]].
  - apply release_inl in Hv. simpl in Hv. exists (Refused r e rest). split; [|done].
    rewrite Hf, Hv. apply star_refl.
  - exists (Working rest). split; [|done]. rewrite Hf. apply star_one.
    rewrite <- (list_insert_insert_eq ws i (Working rest) (Refused r e rest)).
    eapply step_settle; [by apply list_lookup_insert_eq|]. by apply Hs in Hv.
Qed.

Lemma deadLetter_steps r e rest ws w x w' :
  (i < length ws)%nat -> is_down e = false -> exhausted (cfgs i) r = true ->
  deadLetter r (error_text e) w = (x, w') ->
  exists p, star (step cfgs) (fleet_at w (<[i := Refused r e rest]> ws))
                             (fleet_at w' (<[i := p]> ws)) /\
    (x = inr tt -> p = Working rest).
Proof using.
  intros Hi Hd He Hr. unfold deadLetter in Hr. unfold bind in Hr at 1.
  assert (Hc : exists w1, (match PublishDLQ with
     | Some dlq => let! _ := call_transport (dlq (Envelope r) (error_text e)) in ret tt
     | None => ret tt end) w = (inr tt, w1) /\
     star (step cfgs) (fleet_at w (<[i := Refused r e rest]> ws))
                      (fleet_at w1 (<[i := Refused r e rest]> ws))).
  { destruct PublishDLQ as [dlq|] eqn:Ed; [|exists w; split; [done|apply star_refl]].
    unfold bind. destruct (call_transport _ w) as [[ec|ec] w1] eqn:Ec.
    { unfold call_transport in Ec. by destruct (dlq _ _ _) as [[? ?] ?]. }
    exists w1. split; [done|]. apply call_transport_run in Ec as (dt & t' & Hp & Hf).
    apply (dlq_lawful _ _ _ _ _ _ _ Ed) in Hp as [Hdt Hw]. rewrite Hf.
    eapply star_next; [apply star_one, tick_step, Hdt|]. apply step_copy. exact Hw. }
  destruct Hc as (w1 & Hrun & Hst). rewrite Hrun in Hr. unfold bind in Hr.
  destruct (with_db _ w1) as [y w2] eqn:Eb.
  apply with_db_run in Eb as (v & Hv & Hf); [|apply bury_timeless].
  destruct y as [er|n].
  - injection Hr as <- <-. apply exec_n_inl in Hv. simpl in Hv. exists (Refused r e rest).
    split; [|done]. rewrite Hf, Hv. exact Hst.
  - assert (x = inr tt /\ forall ws, fleet_at w' ws = fleet_at w2 ws) as [-> Hw'].
    { destruct (n =? 0); by injection Hr as <- <-. }
    exists (Working rest). split; [|done]. eapply star_next; [exact Hst|].
    rewrite Hw', Hf, <- (list_insert_insert_eq ws i (Working rest) (Refused r e rest)).
    eapply step_settle; [by apply list_lookup_insert_eq|]. by eapply settle_dead.
Qed.

Lemma publishOne_steps r rest ws w x w' :
  (i < length ws)%nat -> publishOne (cfgs i) r w = (x, w') -> one_row r rest ws w x w'.
Proof using.
  intros Hi Hr. unfold publishOne in Hr. unfold bind at 1, now at 1 in Hr.
  unfold bind at 1 in Hr. destruct (call_transport _ w) as [[ec|e] w1] eqn:Ec.
  { unfold call_transport in Ec. by destruct (Publish _ _) as [[? ?] ?]. }
  apply call_transport_run in Ec as (dt & t' & Hp & Hf).
  apply publish_lawful in Hp as (Hdt & Hkeep & Hack).
  pose proof (tick_step w dt (<[i := Working (r :: rest)]> ws) Hdt) as Htick.
  assert (Hl : forall p, <[i := p]> ws !! i = Some p) by (intros; by apply list_lookup_insert_eq).
  destruct e as [e|].
  - assert (Hst : star (step cfgs) (fleet_at w (<[i := Working (r :: rest)]> ws))
                                   (fleet_at w1 (<[i := Refused r e rest]> ws))).
    { rewrite Hf. eapply star_next; [apply star_one, Htick|].
      rewrite <- (list_insert_insert_eq ws i (Refused r e rest) (Working (r :: rest))).
      eapply step_refuse; [apply Hl|exact Hkeep]. }
    unfold bind in Hr. run_stats Hr. rewrite <- F in Hst.
    assert (exists p, star (step cfgs) (fleet_at v (<[i := Refused r e rest]> ws))
                             (fleet_at w' (<[i := p]> ws)) /\ (x = inr tt -> p = Working rest))
      as (p & Hp & Hx).
    { destruct (is_down e) eqn:Ed; [|destruct (exhausted (cfgs i) r) eqn:Ee].
      - run_stats Hr. rewrite <- F0. eapply settle_release; [done| |exact Hr].
        intros. by apply settle_down.
      - eapply deadLetter_steps; eauto.
      - run_stats Hr. rewrite <- F0. eapply settle_release; [done| |exact Hr].
        intros. by apply settle_retry. }
    exists p. split; [|done]. by eapply star_trans.
  - assert (Hst : star (step cfgs) (fleet_at w (<[i := Working (r :: rest)]> ws))
                                   (fleet_at w1 (<[i := Acked r rest]> ws))).
    { rewrite Hf. eapply star_next; [apply star_one, Htick|].
      rewrite <- (list_insert_insert_eq ws i (Acked r rest) (Working (r :: rest))).
      eapply step_ack; [apply Hl|exact Hkeep|by apply Hack]. }
    unfold bind at 1 in Hr. destruct (with_db _ w1) as [y w2] eqn:Em.
    apply with_db_run in Em as (v & Hv & Hf2); [|apply mark_timeless].
    destruct y as [er|b].
    + injection Hr as <- <-. apply tx_inl in Hv. simpl in Hv. exists (Acked r rest).
      split; [|done]. by rewrite Hf2, Hv.
    + assert (x = inr tt /\ forall ws, fleet_at w' ws = fleet_at w2 ws) as [-> Hw'].
      { destruct b; by injection Hr as <- <-. }
      exists (Working rest). split; [|done]. eapply star_next; [exact Hst|].
      rewrite Hw', Hf2, <- (list_insert_insert_eq ws i (Working rest) (Acked r rest)).
      eapply step_mark; [apply Hl|exact Hv].
Qed.

Lemma publish_all_steps rows n ws w x w' :
  (i < length ws)%nat -> publish_all (cfgs i) rows n w = (x, w') ->
  exists p, star (step cfgs) (fleet_at w (<[i := Working rows]> ws)) (fleet_at w' (<[i := p]> ws)).
Proof using.
  intros Hi. revert n w. induction rows as [|r rows IH]; intros n w Hr; simpl in Hr.
  - injection Hr as _ <-. eexists. apply star_refl.
  - unfold bind, attempt in Hr. destruct (publishOne _ r w) as [y w1] eqn:Ep.
    eapply publishOne_steps in Ep as (p & Hst & Hp); [|done].
    destruct y as [e|[]]; [injection Hr as _ <-; eauto|].
    rewrite (Hp eq_refl) in Hst. apply IH in Hr as (q & Hq). exists q. by eapply star_trans.
Qed.

Lemma refreshBacklog_fleet w x w' ws :
  refreshBacklog w = (x, w') -> fleet_at w' ws = fleet_at w ws.
Proof using.
  assert (Hq : forall A (f : Database -> A) v y v', with_db (T := T) (query f) v = (y, v') ->
    fleet_at v' ws = fleet_at v ws).
  { intros A f v y v' Hv. apply with_db_run in Hv as (u & Hu & ->); [|apply timeless_stmt].
    unfold query, stmt in Hu. simpl in Hu. destruct (failing _); by injection Hu as <- <-. }
  unfold refreshBacklog, bind, attempt. destruct (with_db (query backlog) w) as [[e|b] w1] eqn:E1.
  - intros [= _ <-]. eauto.
  - destruct (with_db (query _) w1) as [y w2] eqn:E2. intros [= _ <-].
    rewrite <- (Hq _ _ _ _ _ E1), <- (Hq _ _ _ _ _ E2). done.
Qed.

Lemma DrainOnce_run_steps ws w x w' :
  ws !! i = Some Idle -> DrainOnce (cfgs i) w = (x, w') ->
  star (step cfgs) (fleet_at w ws) (fleet_at w' ws).
Proof using.
  intros Hi Hr. assert (Hl : (i < length ws)%nat) by by eapply lookup_lt_Some.
  assert (Hback : forall w p, star (step cfgs) (fleet_at w (<[i := p]> ws)) (fleet_at w ws)).
  { intros v p. apply star_one. rewrite <- (list_insert_id ws i Idle) at 2 by done.
    rewrite <- (list_insert_insert_eq ws i Idle p). apply step_stop. }
  unfold DrainOnce, bind at 1, attempt in Hr. destruct (with_db _ w) as [c w1] eqn:Ec.
  apply with_db_run in Ec as (v & Hv & Hf); [|apply claim_timeless]. destruct c as [e|rows].
  - injection Hr as _ <-. apply tx_inl in Hv. simpl in Hv. rewrite Hf, Hv. apply star_refl.
  - assert (Hst : star (step cfgs) (fleet_at w ws) (fleet_at w1 (<[i := Working rows]> ws))).
    { apply star_one. rewrite Hf. by eapply step_claim. }
    eapply star_trans; [exact Hst|]. destruct rows as [|r rows].
    + unfold bind in Hr. destruct (refreshBacklog w1) as [y w2] eqn:Eb.
      assert (w2 = w') as -> by (destruct y; by injection Hr).
      apply (refreshBacklog_fleet _ _ _ ws) in Eb. rewrite Eb. apply Hback.
    + unfold bind at 1 in Hr. destruct (publish_all _ _ _ w1) as [y w2] eqn:Ep.
      eapply publish_all_steps in Ep as (p & Hp); [|done]. eapply star_trans; [exact Hp|].
      assert (fleet_at w' ws = fleet_at w2 ws) as ->; [|apply Hback].
      destruct y as [e|[n [e|]]]; [by injection Hr as _ <-..|].
      unfold bind in Hr. destruct (refreshBacklog w2) as [z w3] eqn:Eb.
      assert (w3 = w') as -> by (destruct z; by injection Hr).
      by apply (refreshBacklog_fleet _ _ _ ws) in Eb.
Qed.
End Simulation.

(** ** Draining *)

(** *** What a claim selects *)

Lemma event_row_id cs o r : event_row cs o = Some r -> er_ID r = oe_id o.
Proof. unfold event_row. destruct (first_where _ _); [|discriminate]. by intros [= <-]. Qed.

Definition candidates (t : Z) (d : Database) : list EventRow :=
  omap (event_row (changes d)) (rows_where (claimable t) (outbox d)).

Lemma candidates_ids t d :
  outbox_wf d -> map er_ID (candidates t d) = map oe_id (rows_where (claimable t) (outbox d)).
Proof.
  intros (_ & _ & Hr). unfold candidates.
  assert (Hs : forall o, o ∈ rows_where (claimable t) (outbox d) -> is_Some (event_row (changes d) o)).
  { intros o Ho. apply elem_of_rows_where in Ho as [Ho _]. auto. }
  revert Hs. generalize (rows_where (claimable t) (outbox d)) as l.
  induction l as [|o l IH]; intros Hs; [done|]. simpl. destruct (Hs o) as [r Er]; [constructor|].
  rewrite Er. simpl. rewrite (event_row_id _ _ _ Er). f_equal. apply IH. intros. apply Hs. by constructor.
Qed.

Lemma rows_where_sublist {R} (p : R -> bool) t : rows_where p t `sublist_of` t.
Proof.
  unfold rows_where. induction t as [|x t IH]; simpl; [done|].
  destruct (p x); by constructor.
Qed.

Lemma indexed_NoDup d : outbox_wf d -> NoDup (map oe_id (outbox d)).
Proof.
  intros (_ & Hu & _). apply NoDup_alt. intros i j x Hi Hj. rewrite lookup_map in Hi, Hj.
  destruct (outbox d !! i) as [a|] eqn:Ea; [|discriminate].
  destruct (outbox d !! j) as [b|] eqn:Eb; [|discriminate].
  eapply (Hu i j a b); eauto. simpl in *. congruence.
Qed.

Lemma claim_select_perm n t d : exists rest, candidates t d ≡ₚ claim_select n t d ++ rest.
Proof.
  unfold claim_select. exists (drop (Z.to_nat n) (merge_sort id_le (candidates t d))).
  fold (candidates t d). by rewrite take_drop, merge_sort_Permutation.
Qed.

Lemma claim_select_elem n t d r :
  r ∈ claim_select n t d ->
  exists o, o ∈ outbox d /\ event_row (changes d) o = Some r /\ claimable t o = true.
Proof.
  intros Hr. destruct (claim_select_perm n t d) as [rest Hp].
  assert (Hc : r ∈ candidates t d) by (rewrite Hp; apply elem_of_app; by left).
  apply list_elem_of_omap in Hc as (o & Ho & Hr'). apply elem_of_rows_where in Ho as [? ?]. eauto.
Qed.

Lemma claim_select_NoDup n t d : outbox_wf d -> NoDup (map er_ID (claim_select n t d)).
Proof.
  intros Hwf. destruct (claim_select_perm n t d) as [rest Hp].
  assert (Hn : NoDup (map er_ID (candidates t d))).
  { rewrite candidates_ids by done. eapply sublist_NoDup; [by apply indexed_NoDup|].
    apply (fmap_sublist oe_id), rows_where_sublist. }
  assert (Hp' : map er_ID (candidates t d) ≡ₚ map er_ID (claim_select n t d) ++ map er_ID rest).
  { rewrite <- List.map_app. by apply Permutation_map. }
  rewrite Hp' in Hn. by apply NoDup_app in Hn as [? _].
Qed.

Lemma claim_select_length n t d :
  outbox_wf d -> length (claim_select n t d) =
    Nat.min (Z.to_nat n) (length (rows_where (claimable t) (outbox d))).
Proof.
  intros Hwf. unfold claim_select. rewrite length_take, merge_sort_Permutation. f_equal.
  fold (candidates t d). rewrite <- (length_map er_ID), candidates_ids by done. apply length_map.
Qed.

Lemma claimable_backlog t o : claimable t o = true -> in_backlog o = true.
Proof. unfold claimable, in_backlog. rewrite !orb_true_iff, !andb_true_iff. tauto. Qed.

Lemma claimed_in_spec rows o : claimed_in rows o = true <-> oe_id o ∈ map er_ID rows.
Proof.
  unfold claimed_in, has_id. rewrite existsb_exists, list_elem_of_In, in_map_iff. split.
  - intros (r & Hr & Hid). b2p. eauto.
  - intros (r & Hid & Hr). exists r. split; [done|]. b2p. done.
Qed.

(** A claimed row of the table is one of the claimable rows. *)
Lemma claimed_claimable n t d o :
  outbox_wf d -> o ∈ outbox d -> claimed_in (claim_select n t d) o = true -> claimable t o = true.
Proof.
  intros (_ & Hu & _) Ho Hc. apply claimed_in_spec in Hc. apply list_elem_of_fmap in Hc as (r & Hid & Hr).
  apply claim_select_elem in Hr as (o' & Ho' & Hrow & Hcl). apply event_row_id in Hrow.
  assert (o = o') as ->; [|done]. eapply (indexed_elem (fun _ => true) oe_id); eauto. congruence.
Qed.

(** *** Runs without failures *)

Lemma lease_all_ok rows u until d t :
  for_each rows (fun r => exec (update_outbox (has_id (er_ID r)) (leased u until)))
    (MkWorld d [] t) = (inr tt, MkWorld (update_outbox (claimed_in rows) (leased u until) d) [] t).
Proof.
  destruct (for_each _ _ _) as [x w'] eqn:E.
  assert (Hx : x = inr tt /\ faults w' = [] /\ clock w' = t).
  { revert d E. induction rows as [|r rows IH]; intros d E; simpl in E.
    - by injection E as <- <-.
    - unfold bind in E. rewrite exec_ok in E. by eapply IH. }
  destruct Hx as (-> & Hf & Hc). apply lease_all in E as [Hs _]. simpl in Hs.
  destruct w'. simpl in *. by subst.
Qed.

Definition lease_end (cfg : WorkerConfig) (t : Z) : Z :=
  t + GoTime.Seconds (LeaseTTL cfg) * GoTime.Second.
Definition after_claim (cfg : WorkerConfig) (t : Z) (d : Database) : Database :=
  update_outbox (claimed_in (claim_select (BatchSize cfg) t d))
    (leased (WorkerID cfg) (lease_end cfg t)) d.

Lemma claim_ok cfg d t :
  claim cfg (MkWorld d [] t) =
  (inr (claim_select (BatchSize cfg) t d), MkWorld (after_claim cfg t d) [] t).
Proof.
  unfold claim, after_claim. rewrite tx_ok. unfold bind at 1, now. unfold bind at 1. rewrite query_ok.
  unfold bind at 1, connect. rewrite query_ok. simpl.
  destruct (claim_select _ t d) as [|r rows] eqn:E.
  - simpl. unfold update_outbox. rewrite update_where_none by done. by destruct d.
  - unfold bind at 1. by rewrite lease_all_ok.
Qed.

Lemma mark_ok id d t :
  mark id (MkWorld d [] t) =
  (inr (any_where (markable id) (outbox d)),
   MkWorld (update_outbox (markable id) (marked t (max_seq (outbox d) + 1)) d) [] t).
Proof.
  assert (Hr : exists b, mark id (MkWorld d [] t) = (inr b, MkWorld (store (mark id (MkWorld d [] t)).2) [] t)).
  { unfold mark. rewrite tx_ok. unfold bind, now, connect. rewrite query_ok, exec_n_ok. simpl.
    destruct (_ =? 0); simpl; eauto. }
  destruct Hr as [b Hr]. rewrite Hr. apply mark_inr in Hr as [Hs ->]. simpl in *. by rewrite Hs.
Qed.

(** *** Counting *)

Lemma count_moved R d d' (p q : OutboxRow -> bool) :
  moved R d d' -> (forall o o', R o o' -> o ∈ outbox d -> q o' = p o) ->
  count_where q (outbox d') = count_where p (outbox d).
Proof.
  intros (_ & _ & H) HR. unfold count_where. f_equal. revert HR.
  induction H as [|o o' l l' Ho _ IH]; intros HR; [done|]. simpl.
  rewrite (HR o o' Ho) by constructor.
  assert (IH' : length (List.filter q l') = length (List.filter p l)).
  { apply IH. intros a b Hab Ha. apply (HR a b Hab). by constructor. }
  destruct (p o); simpl; congruence.
Qed.

Lemma count_split {R} (p q : R -> bool) t :
  (forall o, o ∈ t -> q o = true -> p o = true) ->
  count_where p t = count_where (fun o => p o && negb (q o)) t + count_where q t.
Proof.
  unfold count_where. induction t as [|o t IH]; intros Hq; [done|].
  assert (IH' := IH (fun x Hx => Hq x (list_elem_of_further _ _ _ Hx))). simpl.
  pose proof (Hq o (list_elem_of_here _ _)) as Ho.
  destruct (p o), (q o); simpl; lia.
Qed.

Lemma count_claimed d rows :
  NoDup (map er_ID rows) ->
  (forall r, r ∈ rows -> exists o, o ∈ outbox d /\ oe_id o = er_ID r) ->
  Z.of_nat (length rows) <= count_where (claimed_in rows) (outbox d).
Proof.
  intros Hn Hr. unfold count_where.
  assert (Hs : map er_ID rows ⊆+ map oe_id (List.filter (claimed_in rows) (outbox d))).
  { apply NoDup_submseteq; [done|]. intros x Hx.
    apply list_elem_of_fmap in Hx as (r & -> & Hr'). destruct (Hr r Hr') as (o & Ho & Hid).
    apply list_elem_of_fmap. exists o. split; [done|].
    apply (elem_of_rows_where (claimed_in rows)). split; [done|].
    apply claimed_in_spec, list_elem_of_fmap. eauto. }
  apply submseteq_length in Hs. rewrite !length_map in Hs. lia.
Qed.

(** *** A drain with a transport that accepts *)

Section Drain.
Context {T : Type} `{EventTransport T} (cfg : WorkerConfig) (up : T -> Prop).
Context (Hup : forall ev t, up t -> exists dt t', Publish ev t = (None, dt, t') /\ 0 <= dt /\ up t').
Implicit Types (w : World (Proc T)).

(** The worker runs, the database answers, the transport accepts. *)
Definition healthy w : Prop :=
  faults w = [] /\ up (pr_transport (store w)) /\ outbox_wf (pr_db (store w)).

(** [rows] become PUBLISHED, other rows stay. *)
Definition published_in (rows : list EventRow) (o o' : OutboxRow) : Prop :=
  if claimed_in rows o then oe_status o' = ObPublished /\ same_event o o' else o' = o.

Lemma published_in_same rows o o' : published_in rows o o' -> same_event o o'.
Proof using.
  unfold published_in. destruct (claimed_in rows o); [tauto|]. intros ->. apply same_event_refl.
Qed.

(** What publishing the rows leaves unchanged in the process. *)
Definition keeps_up w w' : Prop :=
  healthy w' /\ clock w <= clock w' /\ pr_paused (store w') = pr_paused (store w).

Lemma with_db_ok {A} (m : Db A) w a d' :
  faults w = [] -> m (MkWorld (pr_db (store w)) [] (clock w)) = (inr a, MkWorld d' [] (clock w)) ->
  with_db m w = (inr a, MkWorld (put_db d' (store w)) [] (clock w)).
Proof using. intros Hf Hm. unfold with_db, zoom. by rewrite Hf, Hm. Qed.

Lemma publishOne_ok r w o :
  healthy w -> o ∈ outbox (pr_db (store w)) -> markable (er_ID r) o = true ->
  exists w' t n, publishOne cfg r w = (inr tt, w') /\ keeps_up w w' /\
    pr_db (store w') = update_outbox (markable (er_ID r)) (marked t n) (pr_db (store w)).
Proof using Hup.
  intros (Hf & Hu & Hwf) Ho Hm. unfold publishOne. unfold bind at 1, now at 1. unfold bind at 1.
  unfold call_transport. destruct (Hup (Envelope r) _ Hu) as (dt & t' & -> & Hdt & Hu').
  unfold bind at 1.
  erewrite with_db_ok; [|exact Hf|apply mark_ok]. simpl.
  assert (any_where (markable (er_ID r)) (outbox (pr_db (store w))) = true) as ->
    by (apply any_where_spec; eauto).
  eexists _, _, _. split; [reflexivity|]. split; [|reflexivity].
  split; [split; [done|split; [done|]]|split; [simpl; lia|done]].
  eapply outbox_wf_moved; [|exact Hwf].
  eapply moved_weaken; [apply marked_or_kept_same|apply mark_moved].
Qed.

Lemma publish_all_ok rows n w :
  healthy w -> NoDup (map er_ID rows) ->
  (forall r, r ∈ rows -> exists o, o ∈ outbox (pr_db (store w)) /\ oe_id o = er_ID r) ->
  (forall o, o ∈ outbox (pr_db (store w)) -> claimed_in rows o = true ->
     oe_status o = ObPublishing) ->
  exists w', publish_all cfg rows n w = (inr (n + Z.of_nat (length rows), None), w') /\
    keeps_up w w' /\ moved (published_in rows) (pr_db (store w)) (pr_db (store w')).
Proof using Hup.
  revert n w. induction rows as [|r rows IH]; intros n w Hh Hn Hr Hp.
  { exists w. split; [by rewrite Z.add_0_r|]. split; [split; [done|split; [lia|done]]|].
    by apply moved_refl. }
  apply NoDup_cons in Hn as [Hnew Hn].
  destruct (Hr r) as (o & Ho & Hid); [constructor|].
  assert (Hcl : forall o1, has_id (er_ID r) o1 = true -> claimed_in rows o1 = false).
  { intros o1 H1. destruct (claimed_in rows o1) eqn:E; [|done]. apply claimed_in_spec in E.
    unfold has_id in H1. b2p. by rewrite H1 in E. }
  assert (Hmk : forall o1, o1 ∈ outbox (pr_db (store w)) -> markable (er_ID r) o1 = has_id (er_ID r) o1).
  { intros o1 H1. unfold markable. destruct (has_id (er_ID r) o1) eqn:E; [|done]. simpl.
    rewrite (Hp o1 H1); [done|]. unfold claimed_in. simpl. by rewrite E. }
  destruct (publishOne_ok r w o Hh Ho) as (w1 & t & m & Hrun & (Hh1 & Hc1 & Hp1) & Hdb).
  { rewrite Hmk by done. unfold has_id. b2p. done. }
  pose proof (mark_moved (er_ID r) t m (pr_db (store w))) as Hmv. rewrite <- Hdb in Hmv.
  destruct (IH (n + 1) w1 Hh1 Hn) as (w' & Hrest & (Hh' & Hc' & Hp') & Hmv').
  { intros r' Hr'. destruct (Hr r') as (o' & Ho' & Hid'); [by constructor|].
    destruct (moved_elem _ _ _ _ Hmv Ho') as (o2 & Ho2 & Hs). exists o2. split; [done|].
    apply marked_or_kept_same in Hs as [Hi _]. congruence. }
  { intros o1 Ho1 Hcl1. destruct (moved_back_elem _ _ _ _ Hmv Ho1) as (o0 & Ho0 & ->).
    destruct (markable (er_ID r) o0) eqn:E.
    - rewrite Hmk in E by done. by rewrite (Hcl (marked t m o0) E) in Hcl1.
    - apply Hp; [done|]. unfold claimed_in. simpl. apply orb_true_iff. by right. }
  exists w'. split; [|split].
  - replace (n + Z.of_nat (length (r :: rows))) with (n + 1 + Z.of_nat (length rows)) by (simpl; lia).
    simpl. unfold bind, attempt. by rewrite Hrun, Hrest.
  - split; [done|]. split; [lia|congruence].
  - destruct Hmv as (Hch & Hni & Hf2), Hmv' as (Hch' & Hni' & Hf2').
    split; [congruence|]. split; [congruence|]. revert Hf2'. revert Hf2.
    assert (Hmk' := Hmk). clear -Hcl Hmk'. revert Hmk'.
    generalize (outbox (pr_db (store w))) (outbox (pr_db (store w1))) (outbox (pr_db (store w'))).
    intros l l1 l' Hmk Hf2. revert l' Hmk. induction Hf2 as [|a b l l1 Hab _ IH]; intros l' Hmk Hf2';
      inversion Hf2' as [|? c ? l2 Hbc Hrest]; subst; constructor.
    + unfold marked_or_kept in Hab. rewrite Hmk in Hab by constructor.
      unfold published_in in *. unfold claimed_in at 1. simpl.
      destruct (has_id (er_ID r) a) eqn:E; simpl.
      * subst b. rewrite (Hcl (marked t m a) E) in Hbc. subst c. split; [done|apply marked_same].
      * subst b. fold (claimed_in rows a). done.
    + apply IH; [|done]. intros o Ho. apply Hmk. by constructor.
Qed.

(** Every open row may be claimed now. *)
Definition due w : Prop :=
  forall o, o ∈ outbox (pr_db (store w)) -> in_backlog o = true -> claimable (clock w) o = true.

Lemma claimable_mono t t' o : t <= t' -> claimable t o = true -> claimable t' o = true.
Proof using.
  intros Ht. unfold claimable. rewrite !orb_true_iff, !andb_true_iff.
  intros [[H1 H2]|[H1 H2]]; [left|right]; (split; [done|]).
  - destruct (oe_next_retry o); b2p; [lia|done].
  - destruct (oe_lease o); b2p; [lia|done].
Qed.

Lemma refreshBacklog_ok w :
  healthy w -> exists w', refreshBacklog w = (inr tt, w') /\ keeps_up w w' /\
    pr_db (store w') = pr_db (store w) /\ clock w' = clock w.
Proof using.
  intros (Hf & Hu & Hwf). unfold refreshBacklog, bind, attempt.
  erewrite with_db_ok; [|exact Hf|apply query_ok].
  erewrite with_db_ok; [|done|apply query_ok]. eexists. split; [reflexivity|].
  split; [split; [done|split; [simpl; lia|done]]|done].
Qed.

Lemma claim_published rows cfg' t d d' :
  moved (published_in rows) (update_outbox (claimed_in rows) (leased cfg' t) d) d' ->
  moved (published_in rows) d d'.
Proof using.
  intros (H1 & H2 & H3). split; [done|]. split; [done|].
  unfold update_outbox, update_where in H3. simpl in H3. apply (Forall2_fmap_l (fun r => if claimed_in rows r then leased cfg' t r else r)) in H3.
  eapply Forall2_impl; [exact H3|]. intros o o'. unfold compose, published_in.
  destruct (claimed_in rows o) eqn:E; [|by rewrite E].
  change (claimed_in rows (leased cfg' t o)) with (claimed_in rows o). rewrite E.
  intros [Hs He]. split; [done|]. eapply same_event_trans; [|exact He].
  apply quiet_same, leased_quiet.
Qed.

Lemma DrainOnce_ok w :
  healthy w ->
  let rows := claim_select (BatchSize cfg) (clock w) (pr_db (store w)) in
  exists w', DrainOnce cfg w = (inr (Z.of_nat (length rows), None), w') /\ keeps_up w w' /\
    moved (published_in rows) (pr_db (store w)) (pr_db (store w')).
Proof using Hup.
  intros (Hf & Hu & Hwf) rows. unfold DrainOnce. unfold bind at 1, attempt at 1.
  erewrite with_db_ok; [|exact Hf|apply claim_ok]. fold rows.
  set (w1 := MkWorld _ [] _).
  assert (Hq : moved quiet (pr_db (store w)) (pr_db (store w1))).
  { apply moved_update; [apply quiet_refl|]. intros. apply leased_quiet. }
  assert (Hh1 : healthy w1).
  { split; [done|]. split; [done|]. eapply outbox_wf_moved; [|exact Hwf].
    eapply moved_weaken; [apply quiet_same|exact Hq]. }
  destruct (publish_all_ok rows 0 w1 Hh1) as (w2 & Hrun & (Hh2 & Hc2 & Hp2) & Hmv).
  { by apply claim_select_NoDup. }
  { intros r Hr. apply claim_select_elem in Hr as (o & Ho & Hrow & _).
    destruct (moved_elem _ _ _ _ Hq Ho) as (o' & Ho' & ((Hid & _) & _)). exists o'.
    split; [done|]. rewrite Hid. symmetry. by eapply event_row_id. }
  { intros o' Ho' Hcl. apply elem_of_update_where in Ho' as [(o & _ & _ & ->)|[_ Hn]]; [done|].
    unfold rows in Hcl. congruence. }
  apply claim_published in Hmv. rewrite Z.add_0_l in Hrun. fold rows in Hmv.
  destruct rows as [|r rows'] eqn:Er.
  - destruct (refreshBacklog_ok w1 Hh1) as (w' & Hrb & (Hh' & Hc' & Hp') & Hdb & _).
    exists w'. unfold bind. rewrite Hrb. split; [done|].
    split; [split; [done|split; [exact Hc'|exact Hp']]|]. rewrite Hdb.
    apply (claim_published _ (WorkerID cfg) (lease_end cfg (clock w))). unfold w1. simpl.
    unfold after_claim. fold rows. rewrite Er. apply moved_refl. done.
  - unfold bind at 1. rewrite Hrun.
    destruct (refreshBacklog_ok w2 Hh2) as (w' & Hrb & (Hh' & Hc' & Hp') & Hdb & _).
    exists w'. unfold bind. rewrite Hrb. split; [done|].
    split; [split; [done|split; [simpl in *; lia|simpl in *; congruence]]|]. rewrite Hdb. exact Hmv.
Qed.

(** Who is open after the rows are published, and how many. *)
Lemma published_open rows o o' :
  published_in rows o o' -> in_backlog o' = in_backlog o && negb (claimed_in rows o).
Proof using.
  unfold published_in. destruct (claimed_in rows o); simpl.
  - intros [Hs _]. unfold in_backlog. rewrite Hs, andb_false_r. done.
  - intros ->. by rewrite andb_true_r.
Qed.

Lemma drained w d' :
  healthy w -> due w -> 1 <= BatchSize cfg ->
  let rows := claim_select (BatchSize cfg) (clock w) (pr_db (store w)) in
  moved (published_in rows) (pr_db (store w)) d' ->
  backlog d' <= Z.max 0 (backlog (pr_db (store w)) - BatchSize cfg) /\
  (forall t o', clock w <= t -> o' ∈ outbox d' -> in_backlog o' = true -> claimable t o' = true).
Proof using.
  intros (Hf & Hu & Hwf) Hdue Hb rows Hmv. set (d := pr_db (store w)) in *.
  assert (Hcl : forall o, o ∈ outbox d -> claimed_in rows o = true -> in_backlog o = true).
  { intros o Ho Hc. eapply claimable_backlog. by eapply claimed_claimable. }
  split.
  - assert (Hc1 : backlog d' = count_where (fun o => in_backlog o && negb (claimed_in rows o)) (outbox d)).
    { eapply count_moved; [exact Hmv|]. intros o o' Ho _. by eapply published_open. }
    pose proof (count_split in_backlog (claimed_in rows) (outbox d) Hcl) as Hs.
    fold (backlog d) in Hs. rewrite <- Hc1 in Hs.
    assert (Hlen : Z.of_nat (length rows) <= count_where (claimed_in rows) (outbox d)).
    { apply count_claimed; [by apply claim_select_NoDup|]. intros r Hr.
      apply claim_select_elem in Hr as (o & Ho & Hrow & _). exists o. split; [done|].
      symmetry. by eapply event_row_id. }
    unfold rows at 1 in Hlen. rewrite claim_select_length in Hlen by done.
    assert (Hall : Z.of_nat (length (rows_where (claimable (clock w)) (outbox d))) = backlog d).
    { unfold backlog, count_where, rows_where. do 2 f_equal. apply List.filter_ext_in.
      intros o Ho. apply list_elem_of_In in Ho. apply eq_true_iff_eq.
      split; [apply claimable_backlog|by apply Hdue]. }
    lia.
  - intros t o' Ht Ho' Hopen. destruct (moved_back_elem _ _ _ _ Hmv Ho') as (o & Ho & Hp).
    rewrite (published_open _ _ _ Hp) in Hopen. unfold published_in in Hp. b2p.
    destruct Hopen as [Hopen Hn]. rewrite Hn in Hp. subst o'. eapply claimable_mono; [exact Ht|].
    by apply Hdue.
Qed.

(** What becomes of a row while the worker drains. *)
Definition progressed (o o' : OutboxRow) : Prop :=
  same_event o o' /\
  (in_backlog o = true -> in_backlog o' = true \/ oe_status o' = ObPublished) /\
  (in_backlog o = false -> o' = o).
Lemma progressed_refl o : progressed o o.
Proof using. split; [apply same_event_refl|]. tauto. Qed.
Lemma progressed_trans a b c : progressed a b -> progressed b c -> progressed a c.
Proof using.
  intros (H1 & H2 & H3) (K1 & K2 & K3). split; [by eapply same_event_trans|]. split.
  - intros Ha. destruct (in_backlog b) eqn:Eb; [by apply K2|]. rewrite (K3 eq_refl).
    destruct (H2 Ha) as [Hx|Hx]; [congruence|by right].
  - intros Ha. rewrite <- (H3 Ha). apply K3. by rewrite (H3 Ha).
Qed.
Lemma published_progressed w rows d' :
  (forall o, o ∈ outbox (pr_db (store w)) -> claimed_in rows o = true -> in_backlog o = true) ->
  moved (published_in rows) (pr_db (store w)) d' -> moved progressed (pr_db (store w)) d'.
Proof using.
  intros Hcl (H1 & H2 & H3). split; [done|]. split; [done|]. revert Hcl.
  induction H3 as [|o o' l l' Ho _ IH]; intros Hcl; constructor.
  - pose proof (published_in_same _ _ _ Ho) as Hs. unfold published_in in Ho.
    specialize (Hcl o (list_elem_of_here _ _)).
    destruct (claimed_in rows o) eqn:E; [|subst; apply progressed_refl].
    split; [done|]. split; [intros _; right; tauto|]. intros Hn. by rewrite Hcl in Hn.
  - apply IH. intros x Hx. apply Hcl. by constructor.
Qed.

Lemma turn_drains w :
  healthy w -> due w -> pr_paused (store w) = false ->
  1 <= BatchSize cfg -> 0 <= PollInterval cfg ->
  exists w', turn cfg w = (inr tt, w') /\ healthy w' /\ due w' /\ pr_paused (store w') = false /\
    moved progressed (pr_db (store w)) (pr_db (store w')) /\
    backlog (pr_db (store w')) <= Z.max 0 (backlog (pr_db (store w)) - BatchSize cfg).
Proof using Hup.
  intros Hh Hdue Hp Hb Hpoll.
  destruct (DrainOnce_ok w Hh) as (w1 & Hrun & ((Hf1 & Hu1 & Hwf1) & Hc1 & Hp1) & Hmv).
  set (rows := claim_select _ _ _) in *.
  destruct (drained w _ Hh Hdue Hb Hmv) as [Hback Hdue1].
  assert (Hprog : moved progressed (pr_db (store w)) (pr_db (store w1))).
  { eapply published_progressed; [|exact Hmv]. intros o Ho Hc. eapply claimable_backlog.
    destruct Hh as (_ & _ & ?). by eapply (claimed_claimable (BatchSize cfg) (clock w) (pr_db (store w))). }
  assert (Hend : exists t, clock w <= t /\ turn cfg w = (inr tt, MkWorld (store w1) (faults w1) t)).
  { unfold turn, bind, gets. rewrite Hp, Hrun. destruct (Z.of_nat (length rows) =? 0).
    - exists (clock w1 + PollInterval cfg). split; [lia|done].
    - exists (clock w1). split; [done|]. by destruct w1. }
  destruct Hend as (t & Ht & Hturn). eexists. split; [exact Hturn|].
  split; [done|]. split; [|split; [simpl; congruence|done]].
  intros o' Ho' Hopen. by eapply Hdue1.
Qed.

Lemma Run_progress n w :
  healthy w -> due w -> pr_paused (store w) = false ->
  1 <= BatchSize cfg -> 0 <= PollInterval cfg ->
  exists w', Run cfg n w = (inr tt, w') /\
    moved progressed (pr_db (store w)) (pr_db (store w')) /\
    backlog (pr_db (store w')) <= Z.max 0 (backlog (pr_db (store w)) - Z.of_nat n * BatchSize cfg).
Proof using Hup.
  intros Hh Hdue Hp Hb Hpoll. revert w Hh Hdue Hp. induction n as [|n IH]; intros w Hh Hdue Hp.
  - exists w. split; [done|]. split; [apply moved_refl, progressed_refl|lia].
  - destruct (turn_drains w Hh Hdue Hp Hb Hpoll) as (w1 & Ht & Hh1 & Hd1 & Hp1 & Hm1 & Hb1).
    destruct (IH w1 Hh1 Hd1 Hp1) as (w' & Hr & Hm & Hb').
    exists w'. split; [simpl; unfold bind; by rewrite Ht|]. split; [|lia].
    eapply moved_trans; eauto using progressed_trans.
Qed.
End Drain.

(** ** The consumer's filter *)

Section OrderedFilter.
Import Consumer.

Definition row_key (r : EventRow) : string :=
  aggregate_key (er_AggregateKind r) (er_AggregateID r).
(** Of two rows of one aggregate the later one is newer. *)
Definition newer (a b : EventRow) : Prop :=
  row_key a = row_key b -> er_AggregateRevision a < er_AggregateRevision b.

(** What a run of the loop promises, from what was seen and confirmed before. *)
Record filtered (d : Deduper) (t : gmap string Z) (batch out : list EventRow) : Prop := {
  fl_sublist : out `sublist_of` batch;
  fl_fresh : forall r, r ∈ out -> er_EventID r ∉ seen d;
  fl_nodup : NoDup (map er_EventID out);
  fl_newer : forall r cur, r ∈ out -> t !! row_key r = Some cur -> cur < er_AggregateRevision r;
  fl_sorted : StronglySorted newer out;
  fl_covers : forall r, r ∈ batch -> er_EventID r ∉ seen d ->
    exists r1, r1 ∈ batch /\ er_EventID r1 = er_EventID r /\
      ((exists cur, t !! row_key r1 = Some cur /\ er_AggregateRevision r1 <= cur) \/
       exists r', r' ∈ out /\ row_key r' = row_key r1 /\
                  er_AggregateRevision r1 <= er_AggregateRevision r');
}.

Lemma filtered_nil d t : filtered d t [] [].
Proof.
  split; try done; try (intros ? H; by apply elem_of_nil in H); try constructor.
  - intros r cur H. by apply elem_of_nil in H.
Qed.

(** A row whose event was seen already. *)
Lemma filtered_seen d t r batch out :
  er_EventID r ∈ seen d -> filtered d t batch out -> filtered d t (r :: batch) out.
Proof.
  intros Hr [H1 H2 H3 H4 H5 H6]. split; auto; [by constructor|].
  intros x Hx Hn. apply elem_of_cons in Hx as [->|Hx]; [done|].
  destruct (H6 x Hx Hn) as (r1 & ? & ? & ?). exists r1. split; [by constructor|done].
Qed.

Lemma filtered_fresh_stale d d' t r batch out cur :
  seen d' = {[er_EventID r]} ∪ seen d ->
  t !! row_key r = Some cur -> er_AggregateRevision r <= cur ->
  filtered d' t batch out -> filtered d t (r :: batch) out.
Proof.
  intros Hd Hc Hle [H1 H2 H3 H4 H5 H6]. split; auto; [by constructor| |].
  - intros x Hx. specialize (H2 x Hx). rewrite Hd, not_elem_of_union in H2. tauto.
  - intros x Hx Hn. destruct (decide (er_EventID x = er_EventID r)) as [E|E].
    { exists r. split; [constructor|]. split; [done|]. left. eauto. }
    apply elem_of_cons in Hx as [->|Hx]; [done|].
    destruct (H6 x Hx) as (r1 & ? & ? & ?); [by rewrite Hd, not_elem_of_union, elem_of_singleton|]. exists r1.
    split; [by constructor|done].
Qed.

Lemma filtered_fresh_new d d' t r batch out :
  seen d' = {[er_EventID r]} ∪ seen d -> er_EventID r ∉ seen d ->
  (forall cur, t !! row_key r = Some cur -> cur < er_AggregateRevision r) ->
  filtered d' (<[row_key r := er_AggregateRevision r]> t) batch out ->
  filtered d t (r :: batch) (r :: out).
Proof.
  intros Hd Hn Ht [H1 H2 H3 H4 H5 H6].
  assert (Hup : forall x cur, x ∈ out -> t !! row_key x = Some cur -> cur < er_AggregateRevision x).
  { intros x cur Hx Hc. destruct (decide (row_key x = row_key r)) as [E|E].
    - specialize (H4 x (er_AggregateRevision r) Hx). rewrite E, lookup_insert_eq in H4.
      rewrite E in Hc. specialize (Ht _ Hc). specialize (H4 eq_refl). lia.
    - apply (H4 x); [done|]. by rewrite lookup_insert_ne. }
  split.
  - by constructor.
  - intros x Hx. apply elem_of_cons in Hx as [->|Hx]; [done|].
    specialize (H2 x Hx). rewrite Hd, not_elem_of_union in H2. tauto.
  - simpl. apply NoDup_cons. split; [|done]. intros Hin. apply list_elem_of_fmap in Hin as (x & Hx & Hin).
    specialize (H2 x Hin). rewrite Hd, <- Hx in H2. apply H2. apply elem_of_union_l. by apply elem_of_singleton.
  - intros x cur Hx. apply elem_of_cons in Hx as [->|Hx]; eauto.
  - constructor; [done|]. apply List.Forall_forall. intros x Hx. apply list_elem_of_In in Hx.
    intros Hk. apply (H4 x); [done|]. rewrite <- Hk. apply lookup_insert_eq.
  - intros x Hx Hnx. destruct (decide (er_EventID x = er_EventID r)) as [E|E].
    { exists r. split; [constructor|]. split; [done|]. right. exists r.
      split; [constructor|]. split; [done|lia]. }
    apply elem_of_cons in Hx as [->|Hx]; [done|].
    destruct (H6 x Hx) as (r1 & Hr1 & Hid & Hcov);
      [by rewrite Hd, not_elem_of_union, elem_of_singleton|]. exists r1.
    split; [by constructor|]. split; [done|].
    destruct Hcov as [(cur & Hc & Hle)|(r' & ? & ? & ?)].
    + destruct (decide (row_key r1 = row_key r)) as [Ek|Ek].
      * rewrite Ek, lookup_insert_eq in Hc. injection Hc as <-. right. exists r.
        split; [constructor|done].
      * rewrite lookup_insert_ne in Hc by done. eauto.
    + right. exists r'. split; [by constructor|done].
Qed.

Lemma ordered_from_filtered batch d t :
  Z.of_nat (size (seen d)) + Z.of_nat (length batch) <= dmax d ->
  filtered d t batch (ordered_from d t batch).
Proof.
  revert d t. induction batch as [|r batch IH]; intros d t Hsz; simpl; [apply filtered_nil|].
  unfold FirstSeen. case_bool_decide as Hin; simpl.
  { apply filtered_seen; [done|]. apply IH. simpl in Hsz. lia. }
  simpl in Hsz. destruct (Z.of_nat (size (seen d)) >=? dmax d) eqn:Eb; [b2p; lia|].
  set (d' := MkDeduper _ _).
  assert (Hd : forall t, filtered d' t batch (ordered_from d' t batch)).
  { intros t'. apply IH. unfold d'. simpl.
    rewrite size_union by set_solver. rewrite size_singleton. lia. }
  unfold Confirm. fold (row_key r). destruct (t !! row_key r) as [cur|] eqn:Ec.
  - destruct (er_AggregateRevision r <=? cur) eqn:El; simpl; b2p.
    + by eapply (filtered_fresh_stale d d').
    + eapply (filtered_fresh_new d d'); [done|done| |done]. intros c Hc.
      rewrite Ec in Hc. injection Hc as <-. lia.
  - simpl. eapply (filtered_fresh_new d d'); [done|done| |done]. intros c Hc. congruence.
Qed.
End OrderedFilter.

(** ** Properties *)

Module OutboxProps.

(** A transport that records what it accepts; it accepts while its switch is on. *)
Record Recorder : Type := MkRecorder { rec_on : bool; rec_events : list CloudEvent }.
#[export] Instance Recorder_transport : EventTransport Recorder := {
  Publish ev t :=
    if rec_on t then (None, 1, MkRecorder true (rec_events t ++ [ev]))
    else (Some ErrTransportDown, 1, t);
  Healthy t := rec_on t;
  PublishDLQ := None;
}.
#[export] Program Instance Recorder_lawful : LawfulTransport Recorder := {
  on_wire t ev := ev ∈ rec_events t;
}.
Next Obligation.
  simpl. intros ev t e dt t' H. destruct (rec_on t); injection H as <- <- <-; simpl.
  - split; [lia|]. split; intros; apply elem_of_app; [by left|]. right. constructor.
  - split; [lia|]. split; [done|discriminate].
Qed.
Next Obligation. discriminate. Qed.

(** Two workers, a lease of 30 s, and one event that waits. *)
Definition cfg0 : WorkerConfig := NewOutboxWorker (MkWorkerConfig 0 0 0 0 0 "" 0 0).
Definition cfgs0 (_ : nat) : WorkerConfig := cfg0.
Definition change0 : ChangeRow :=
  MkChangeRow 1 0 "tenant-a" "ops" "" "binding" "b1" "publish" "" JNull.
Definition event0 : OutboxRow :=
  MkOutboxRow 2 0 None 0 ObPending "binding.published" (JObj []) 1 "ev-1" "binding" "b1" 1
              None None "" None "".
Definition db0 : Database :=
  with_next_id 3 (with_outbox [event0] (with_changes [change0] empty_db)).
Definition fleet0 : Fleet := MkFleet db0 (fun _ => False) 0 [Idle; Idle].

(** The lease of worker 0 runs out while it publishes; worker 1 takes the row,
    publishes and marks it; then worker 0's publish is refused. *)
Definition row0 : EventRow :=
  MkEventRow 2 "ev-1" "binding.published" (JObj []) "binding" "b1" 1 "tenant-a" "" 0 0.
Definition wire0 (e : CloudEvent) : Prop := e = Envelope row0.
Definition t_steal : Z := 31 * GoTime.Second.
Definition db_claimed : Database := Eval vm_compute in after_claim cfg0 0 db0.
Definition db_stolen : Database := Eval vm_compute in after_claim cfg0 t_steal db_claimed.
Definition db_marked : Database :=
  Eval vm_compute in update_outbox (markable 2) (marked t_steal 1) db_stolen.
Definition db_reverted : Database :=
  Eval vm_compute in update_outbox (has_id 2)
    (released (t_steal + GoTime.Second) (error_text ErrTransportDown)) db_marked.
Definition fleet_marked : Fleet :=
  MkFleet db_marked wire0 t_steal [Working [row0]; Working []].
Definition fleet_reverted : Fleet :=
  MkFleet db_reverted wire0 t_steal [Working []; Working []].

Lemma claim0_run : claim cfg0 (MkWorld db0 [] 0) = (inr [row0], MkWorld db_claimed [] 0).
Proof. vm_compute. reflexivity. Qed.
Lemma claim1_run :
  claim cfg0 (MkWorld db_claimed [] t_steal) = (inr [row0], MkWorld db_stolen [] t_steal).
Proof. vm_compute. reflexivity. Qed.
Lemma mark1_run : mark 2 (MkWorld db_stolen [] t_steal) = (inr true, MkWorld db_marked [] t_steal).
Proof. vm_compute. reflexivity. Qed.
Lemma release0_run :
  release row0 (backoff_down cfg0 row0) (error_text ErrTransportDown) (MkWorld db_marked [] t_steal)
  = (inr tt, MkWorld db_reverted [] t_steal).
Proof. vm_compute. reflexivity. Qed.

Lemma fleet0_marked : star (step cfgs0) fleet0 fleet_marked.
Proof.
  eapply star_next; [|exact (step_mark cfgs0 _ wire0 t_steal [Working [row0]; Acked row0 []]
                               1%nat row0 [] [] true _ eq_refl mark1_run)].
  eapply star_next; [|apply (step_ack cfgs0 _ (fun _ => False) wire0 t_steal
                               [Working [row0]; Working [row0]] 1%nat row0 []);
                      [done|by intros e|done]].
  eapply star_next; [|exact (step_claim cfgs0 _ (fun _ => False) t_steal [Working [row0]; Idle]
                               1%nat [] _ _ eq_refl claim1_run)].
  eapply star_next; [|apply (step_tick cfgs0 db_claimed _ 0); unfold t_steal, GoTime.Second; lia].
  apply star_one.
  exact (step_claim cfgs0 _ (fun _ => False) 0 [Idle; Idle] 0%nat [] _ _ eq_refl claim0_run).
Qed.
Lemma fleet_marked_reverted : star (step cfgs0) fleet_marked fleet_reverted.
Proof.
  eapply star_next; [|exact (step_settle cfgs0 _ wire0 t_steal
      [Refused row0 ErrTransportDown []; Working []] 0%nat row0 ErrTransportDown [] [] _ eq_refl
      (settle_down cfg0 row0 ErrTransportDown _ _ eq_refl release0_run))].
  apply star_one. by apply (step_refuse cfgs0 db_marked wire0 wire0 t_steal
      [Working [row0]; Working []] 0%nat row0 ErrTransportDown []).
Qed.

Lemma db0_wf : outbox_wf db0.
Proof.
  split; [|split].
  - intros o Ho. apply list_elem_of_singleton in Ho as ->. simpl. lia.
  - intros i j a b Hi Hj _ _ _. apply list_lookup_singleton_Some in Hi as [-> _].
    by apply list_lookup_singleton_Some in Hj as [-> _].
  - intros o Ho. apply list_elem_of_singleton in Ho as ->. by eexists.
Qed.
Lemma fleet0_ok : fleet_ok fleet0.
Proof.
  split; simpl.
  - split; [apply db0_wf|..].
    + intros o Ho. by apply list_elem_of_singleton in Ho as ->.
    + intros o Ho [n Hn]. apply list_elem_of_singleton in Ho as ->. discriminate.
    + intros i j a b Hi _ Ha. apply list_lookup_singleton_Some in Hi as [_ <-]. discriminate.
  - repeat constructor; intros r Hr; by apply elem_of_nil in Hr.
Qed.

(** C8.  Under every interleaving of workers (claims, publishes, marks, failure
    updates, crashes anywhere), producers and the passing of time: no outbox
    row is lost and none of its event columns changes, attempts only grow, a
    row's sequence number once assigned is never removed or lowered; a row that
    is PUBLISHED has a sequence number; every row with a sequence number has
    its event accepted by the transport; no two rows share a number. *)
Theorem fleet_history cfgs s s' :
  fleet_ok s -> star (step cfgs) s s' ->
  rows_kept later (outbox (fl_db s)) (outbox (fl_db s')) /\
  (forall o, o ∈ outbox (fl_db s') -> oe_status o = ObPublished ->
     is_Some (oe_published_seq o)) /\
  (forall o, o ∈ outbox (fl_db s') -> is_Some (oe_published_seq o) ->
     accepted (fl_wire s') (fl_db s') o) /\
  (forall i j o o' n, outbox (fl_db s') !! i = Some o -> outbox (fl_db s') !! j = Some o' ->
     oe_published_seq o = Some n -> oe_published_seq o' = Some n -> i = j).
Proof.
  intros Hok Hst.
  assert (Hok' : fleet_ok s').
  { eapply (star_invariant _ fleet_ok); eauto using step_fleet_ok. }
  destruct Hok' as [[Hwf H1 H2 H3] _]. split; [by eapply star_follows|].
  split; [done|]. split; [done|]. intros i j o o' n Hi Hj Hn Hn'.
  eapply (H3 i j o o'); eauto; [..|congruence]; unfold seq_set; apply bool_decide_eq_true_2;
    rewrite ?Hn, ?Hn'; by eexists.
Qed.

Lemma fleet_history_witness :
  rows_kept later (outbox db0) (outbox db_marked) /\
  forall o, o ∈ outbox db_marked -> is_Some (oe_published_seq o) -> accepted wire0 db_marked o.
Proof.
  destruct (fleet_history cfgs0 fleet0 fleet_marked fleet0_ok fleet0_marked) as (H1 & _ & H2 & _).
  done.
Defined.

(** DrainOnce, whatever fails in it, is a sequence of the system's steps
    by the worker that runs it: claim, publish, mark, failure updates, and the
    return to idle. *)
Theorem DrainOnce_refines {T} `{LawfulTransport T} cfgs i (w : World (Proc T)) x w' ws :
  ws !! i = Some Idle -> DrainOnce (cfgs i) w = (x, w') ->
  star (step cfgs) (fleet_at w ws) (fleet_at w' ws).
Proof. intros Hi Hr. by eapply DrainOnce_run_steps. Qed.

Definition proc0 : Proc Recorder :=
  MkProc db0 (MkRecorder true []) (MkWorkerStats 0 0 0 0 0 0 0) false.
Definition world0 : World (Proc Recorder) := MkWorld proc0 [] 0.

Lemma DrainOnce_refines_witness :
  star (step cfgs0) (fleet_at world0 [Idle; Idle])
                    (fleet_at (DrainOnce cfg0 world0).2 [Idle; Idle]).
Proof.
  apply (DrainOnce_refines cfgs0 0%nat world0 (DrainOnce cfg0 world0).1); [reflexivity|].
  apply surjective_pairing.
Defined.

(** C11.  When the transport accepts, the database answers, the worker is not
    paused and every open row is due, the first n turns of Run publish
    everything that was open as soon as n batches cover it; rows that were not
    open stay as they are. *)
Theorem Run_drains {T} `{EventTransport T} c (up : T -> Prop) n (w : World (Proc T)) :
  (forall ev t, up t -> exists dt t', Publish ev t = (None, dt, t') /\ 0 <= dt /\ up t') ->
  healthy up w -> due w -> pr_paused (store w) = false ->
  backlog (pr_db (store w)) <= Z.of_nat n * BatchSize (NewOutboxWorker c) ->
  exists w', Run (NewOutboxWorker c) n w = (inr tt, w') /\ backlog (pr_db (store w')) = 0 /\
    Forall2 (fun o o' => same_event o o' /\
               if in_backlog o then oe_status o' = ObPublished else o' = o)
      (outbox (pr_db (store w))) (outbox (pr_db (store w'))).
Proof.
  intros Hup Hh Hdue Hp Hn.
  assert (Hb : 1 <= BatchSize (NewOutboxWorker c)).
  { unfold NewOutboxWorker. simpl. destruct (BatchSize c <=? 0) eqn:E; b2p; lia. }
  assert (Hpoll : 0 <= PollInterval (NewOutboxWorker c)).
  { unfold NewOutboxWorker. simpl. destruct (PollInterval c <=? 0) eqn:E; b2p; [|lia].
    unfold GoTime.Millisecond. lia. }
  destruct (Run_progress _ up Hup n w Hh Hdue Hp Hb Hpoll) as (w' & Hr & (_ & _ & Hm) & Hle).
  exists w'. split; [done|].
  assert (Hz : backlog (pr_db (store w')) = 0).
  { pose proof (count_where_pos in_backlog (outbox (pr_db (store w')))). unfold backlog in *. lia. }
  split; [done|]. pose proof (proj1 (count_where_zero in_backlog _) Hz) as Hopen.
  clear -Hm Hopen. induction Hm as [|o o' l l' Ho _ IH]; constructor.
  - destruct Ho as (Hs & H1 & H2). split; [done|]. destruct (in_backlog o); [|auto].
    destruct (H1 eq_refl) as [Hx|Hx]; [|done].
    specialize (Hopen o' (list_elem_of_here _ _)). congruence.
  - apply IH. intros r Hr. apply Hopen. by constructor.
Qed.

Lemma Run_drains_witness :
  exists w', Run cfg0 1 world0 = (inr tt, w') /\ backlog (pr_db (store w')) = 0.
Proof.
  destruct (Run_drains (MkWorkerConfig 0 0 0 0 0 "" 0 0) (fun t => rec_on t = true) 1 world0)
    as (w' & Hr & Hb & _); [| | |reflexivity|vm_compute; discriminate|exists w'; exact (conj Hr Hb)].
  - intros ev t Ht. simpl. rewrite Ht. eexists _, _. split; [reflexivity|]. split; [lia|done].
  - split; [done|]. split; [done|apply db0_wf].
  - intros o Ho _. by apply list_elem_of_singleton in Ho as ->.
Defined.

(** A claim takes the claimable rows with the smallest ids, at most a
    batch of them, and no later claim of any worker takes one of them before
    the lease has run out. *)
Theorem claim_exclusive cfg cfg' d t fl rows w1 t2 fl2 rows2 w2 :
  outbox_wf d -> claim cfg (MkWorld d fl t) = (inr rows, w1) ->
  claim cfg' (MkWorld (store w1) fl2 t2) = (inr rows2, w2) -> t2 <= lease_end cfg t ->
  length rows = Nat.min (Z.to_nat (BatchSize cfg)) (length (rows_where (claimable t) (outbox d)))
  /\ StronglySorted id_le rows
  /\ (forall r o, r ∈ rows -> o ∈ outbox d -> claimable t o = true ->
        claimed_in rows o = false -> er_ID r <= oe_id o)
  /\ (forall r r2, r ∈ rows -> r2 ∈ rows2 -> er_ID r <> er_ID r2).
Proof.
  intros Hwf H1 H2 Ht. apply claim_inr in H1 as [Hrows Hs]. apply claim_inr in H2 as [Hrows2 _].
  simpl in *. rewrite Hs in Hrows2. clear Hs w1 w2.
  assert (Hsort : StronglySorted id_le (rows ++ drop (Z.to_nat (BatchSize cfg))
                                               (merge_sort id_le (candidates t d)))).
  { subst rows. unfold claim_select. fold (candidates t d). rewrite take_drop.
    apply StronglySorted_merge_sort; [intros ? ? ?|intros a b]; unfold id_le; lia. }
  apply StronglySorted_app in Hsort as (Hbelow & Hsorted & _).
  split; [subst; by apply claim_select_length|]. split; [done|]. split.
  - intros r o Hr Ho Hcl Hn. destruct Hwf as (_ & _ & Hrow). destruct (Hrow o Ho) as [r' Hr'].
    rewrite <- (event_row_id _ _ _ Hr'). apply (Hbelow r r'); [done|].
    assert (Hc : r' ∈ candidates t d).
    { apply list_elem_of_omap. exists o. split; [|done]. by apply elem_of_rows_where. }
    rewrite <- (merge_sort_Permutation id_le), <- (take_drop (Z.to_nat (BatchSize cfg))) in Hc.
    apply elem_of_app in Hc as [Hc|Hc]; [|done]. exfalso.
    assert (claimed_in rows o = true); [|congruence]. apply claimed_in_spec.
    rewrite <- (event_row_id _ _ _ Hr'). apply list_elem_of_fmap. exists r'. by subst rows.
  - intros r r2 Hr Hr2 Hid. subst rows2. apply claim_select_elem in Hr2 as (o2 & Ho2 & Hrow & Hcl).
    apply event_row_id in Hrow. apply elem_of_update_where in Ho2 as [(o & Ho & Hc & ->)|[Ho Hc]].
    + unfold claimable in Hcl. simpl in Hcl. unfold lease_end in Ht.
      change (leased _ _ o) with (leased (WorkerID cfg) (lease_end cfg t) o) in *.
      b2p. lia.
    + assert (claimed_in rows o2 = true); [|congruence]. apply claimed_in_spec.
      apply list_elem_of_fmap. exists r. split; [congruence|done].
Qed.

Lemma claim_exclusive_witness :
  Forall (fun r => Forall (fun r2 => er_ID r <> er_ID r2) (@nil EventRow)) [row0].
Proof.
  apply Forall_forall. intros r Hr. apply Forall_forall. intros r2 Hr2.
  destruct (claim_exclusive cfg0 cfg0 db0 0 [] [row0] (MkWorld db_claimed [] 0) 1 [] []
              (MkWorld db_claimed [] 1)) as (_ & _ & _ & H);
    [apply db0_wf|exact claim0_run|vm_compute; reflexivity|vm_compute; discriminate|].
  by apply H.
Defined.

(** A PUBLISHED row does not stay PUBLISHED: the failure updates of publishOne
    name the row by its id only, so a worker whose lease has run out sets a row
    that another worker published back to PENDING; it is published again. *)
Theorem stale_refusal_unpublishes :
  star (step cfgs0) fleet0 fleet_marked /\ star (step cfgs0) fleet_marked fleet_reverted /\
  map oe_status (outbox (fl_db fleet_marked)) = [ObPublished] /\
  map oe_status (outbox (fl_db fleet_reverted)) = [ObPending] /\
  map oe_published_seq (outbox (fl_db fleet_reverted)) = [Some 1].
Proof.
  split; [apply fleet0_marked|]. split; [apply fleet_marked_reverted|]. repeat split; reflexivity.
Qed.

(** Ordered keeps a subsequence of the batch without repeated event ids
    and with growing revisions per aggregate; when equal ids mean equal events,
    the newest revision of every aggregate in the batch is kept. *)
Theorem Ordered_spec batch :
  let out := Consumer.Ordered batch in
  out `sublist_of` batch /\ NoDup (map er_EventID out) /\ StronglySorted newer out /\
  ((forall a b, a ∈ batch -> b ∈ batch -> er_EventID a = er_EventID b ->
      row_key a = row_key b /\ er_AggregateRevision a = er_AggregateRevision b) ->
   forall r, r ∈ batch -> exists r', r' ∈ out /\ row_key r' = row_key r /\
     er_AggregateRevision r <= er_AggregateRevision r').
Proof.
  simpl. unfold Consumer.Ordered.
  set (d := Consumer.NewDeduper _).
  destruct (ordered_from_filtered batch d Consumer.NewRevisionTracker) as [H1 _ H2 _ H3 H4].
  { unfold d, Consumer.NewDeduper. cbn [Consumer.seen Consumer.dmax].
    change (size (∅ : gset string)) with 0%nat. destruct (_ <=? 0) eqn:E; b2p; lia. }
  split; [done|]. split; [done|]. split; [done|]. intros Hid r Hr.
  destruct (H4 r Hr) as (r1 & Hr1 & Heq & [(cur & Hc & _)|(r' & Hr' & Hk & Hle)]).
  - apply not_elem_of_empty.
  - unfold Consumer.NewRevisionTracker in Hc. by rewrite lookup_empty in Hc.
  - destruct (Hid r1 r Hr1 Hr Heq) as [Hk1 Hv]. exists r'. split; [done|]. split; [congruence|lia].
Qed.

Lemma string_length_app a b : String.length (a +:+ b) = (String.length a + String.length b)%nat.
Proof. induction a as [|x a IH]; simpl; [done|]. by rewrite <- IH. Qed.
Lemma substring_middle a b c :
  String.substring (String.length a) (String.length b) (a +:+ b +:+ c) = b.
Proof.
  induction a as [|x a IH]; simpl; [|exact IH].
  induction b as [|x b IH]; simpl; [by destruct c|]. f_equal. exact IH.
Qed.

(** The topic is read back from the event type, unless it is empty. *)
Theorem topicFromType_CloudEventType topic :
  topicFromType (CloudEventType topic) = if topic =s "" then CloudEventType "" else topic.
Proof.
  unfold topicFromType, CloudEventType.
  assert (Hp : GoString.has_prefix (type_prefix +:+ topic +:+ type_suffix) type_prefix = true)
    by (apply GoString.has_prefix_spec; by eexists).
  rewrite Hp, andb_true_r, !string_length_app.
  destruct (topic =s "") eqn:E; b2p; [by subst|].
  assert (0 < String.length topic)%nat by (destruct topic; [done|simpl; lia]).
  replace (Nat.ltb _ _) with true by (symmetry; apply Nat.ltb_lt; lia).
  replace (_ - _ - _)%nat with (String.length topic) by lia. apply substring_middle.
Qed.
End OutboxProps.
