(* ===== verification/Evidence.v ===== *)
(** * The evidence index

    [src/internal/evidence]: the consumer that turns published outbox events
    into evidence records.  Module [Index] is index.go (classification,
    ingestion, repair, queries), Module [Loop] is consumer.go.  PostgreSQL's
    jsonb text form is the interface [Jsonb]: the code scans and stores bytes,
    the tables hold values. *)

From S2P Require Import Prelude GoStd GoJson GoTime GoUnmarshal Sql Schema.

(** ** The tables of 00009 *)

Inductive EvidenceState : Type := StateLinked | StateQuarantined.
Inductive WormStatus : Type := WormNone | WormPending | WormArchived.
#[export] Instance EvidenceState_eq_dec : EqDecision EvidenceState.
Proof. solve_decision. Defined.
#[export] Instance WormStatus_eq_dec : EqDecision WormStatus.
Proof. solve_decision. Defined.

(** saoaf.evidence_record *)
Record EvidenceRow : Type := MkEvidenceRow {
  ev_id : Z;
  ev_event_id : string;
  ev_topic : string;
  ev_kind : string;
  ev_aggregate : string;
  ev_revision : Z;
  ev_tenant : string;
  ev_occurred_at : Z;
  ev_ingested_at : Z;
  ev_digest : string;
  ev_content : json;
  ev_plan : string;
  ev_class : string;
  ev_until : option Z;
  ev_worm : WormStatus;
  ev_state : EvidenceState;
  ev_reason : string;
  ev_updated_at : Z;
}.
Definition set_ev_link (st : EvidenceState) (reason : string) (t : Z) (r : EvidenceRow)
    : EvidenceRow :=
  MkEvidenceRow (ev_id r) (ev_event_id r) (ev_topic r) (ev_kind r) (ev_aggregate r) (ev_revision r)
    (ev_tenant r) (ev_occurred_at r) (ev_ingested_at r) (ev_digest r) (ev_content r) (ev_plan r)
    (ev_class r) (ev_until r) (ev_worm r) st reason t.
Definition set_ev_worm (v : WormStatus) (r : EvidenceRow) : EvidenceRow :=
  MkEvidenceRow (ev_id r) (ev_event_id r) (ev_topic r) (ev_kind r) (ev_aggregate r) (ev_revision r)
    (ev_tenant r) (ev_occurred_at r) (ev_ingested_at r) (ev_digest r) (ev_content r) (ev_plan r)
    (ev_class r) (ev_until r) v (ev_state r) (ev_reason r) (ev_updated_at r).

(** saoaf.evidence_checkpoint *)
Record CheckpointRow : Type := MkCheckpointRow {
  ck_consumer : string;
  ck_last : Z;
  ck_updated_at : Z;
}.

(** The evidence tables beside the tables the index reads. *)
Record EvDb : Type := MkEvDb {
  base : Database;
  records : list EvidenceRow;
  checkpoints : list CheckpointRow;
  ev_next : Z;
}.
Definition with_base (v : Database) (d : EvDb) : EvDb :=
  MkEvDb v (records d) (checkpoints d) (ev_next d).
Definition with_records (v : list EvidenceRow) (d : EvDb) : EvDb :=
  MkEvDb (base d) v (checkpoints d) (ev_next d).
Definition with_checkpoints (v : list CheckpointRow) (d : EvDb) : EvDb :=
  MkEvDb (base d) (records d) v (ev_next d).

(** PostgreSQL's input and output of jsonb. *)
Class Jsonb : Type := {
  jsonb_in : string -> option json;
  jsonb_out : json -> string;
}.

Module Index.

(** ** Constants *)

Definition ReasonUnknownTopic : string := "UNKNOWN_TOPIC".
Definition ReasonBrokenLink : string := "BROKEN_LINK".
Definition ReasonForbiddenField : string := "FORBIDDEN_CONTENT".
Definition ReasonMalformedPayload : string := "MALFORMED_PAYLOAD".

(** [(?i)(prompt|model[_-]?response|tool[_-]?param|agent[_-]?message|credential|secret|password|api[_-]?key)] *)
Definition sep : Regex.re := Regex.opt (Regex.one_of "_-").
Definition two_words (a b : string) : Regex.re :=
  Regex.RSeq (Regex.fold_word a) (Regex.RSeq sep (Regex.fold_word b)).
Definition forbiddenContent : Regex.re :=
  Regex.alts [Regex.fold_word "prompt"; two_words "model" "response"; two_words "tool" "param";
              two_words "agent" "message"; Regex.fold_word "credential"; Regex.fold_word "secret";
              Regex.fold_word "password"; two_words "api" "key"].

Definition RetentionPlanItem : string := "PLAN_ITEM".
Definition RetentionChange : string := "CHANGE".
Definition RetentionSnapshot : string := "SNAPSHOT_META".
Definition RetentionEventAudit : string := "EVENT_AUDIT".

(** The topics with a linkage rule. *)
Definition binding_topics : list string :=
  ["binding.published"; "binding.suspended"; "binding.resumed"; "binding.deprecated";
   "binding.retired"].

Definition retentionFor (topic : string) : string * Z :=
  if topic =s "plan.resolved" then (RetentionPlanItem, 90 * 24 * GoTime.Hour)
  else if str_mem topic binding_topics then (RetentionChange, 2 * 365 * 24 * GoTime.Hour)
  else if topic =s "provider.snapshot-changed" then (RetentionSnapshot, 365 * 24 * GoTime.Hour)
  else (RetentionEventAudit, 14 * 24 * GoTime.Hour).

(** ** Events and records *)

Record ConsumedEvent : Type := MkConsumedEvent {
  ce_OutboxID : Z;
  ce_EventID : string;
  ce_Topic : string;
  ce_Payload : string;
  ce_AggregateKind : string;
  ce_AggregateID : string;
  ce_AggregateRevision : Z;
  ce_TenantRef : string;
  ce_CreatedAt : Z;
  ce_PublishedSeq : Z;
}.
Definition set_tenant (v : string) (e : ConsumedEvent) : ConsumedEvent :=
  MkConsumedEvent (ce_OutboxID e) (ce_EventID e) (ce_Topic e) (ce_Payload e) (ce_AggregateKind e)
    (ce_AggregateID e) (ce_AggregateRevision e) v (ce_CreatedAt e) (ce_PublishedSeq e).

Record Rec : Type := MkRec {
  re_ID : Z;
  re_EventID : string;
  re_SourceTopic : string;
  re_AggregateKind : string;
  re_AggregateID : string;
  re_AggregateRevision : Z;
  re_TenantRef : string;
  re_OccurredAt : Z;
  re_PayloadDigest : string;
  re_PlanID : string;
  re_State : EvidenceState;
  re_QuarantineReason : string;
}.

(** What classify returns. *)
Record Verdict : Type := MkVerdict {
  vd_state : EvidenceState;
  vd_reason : string;
  vd_plan : string;
  vd_content : string;
  vd_class : string;
  vd_until : Z;
}.

(** ** Classification *)

(** An object, or [null], which decodes to a nil map. *)
Definition payloadViolation (raw : string) : string :=
  match unmarshal raw with
  | Some (JObj _) | Some JNull =>
      if Regex.match_string forbiddenContent raw then ReasonForbiddenField else ""
  | _ => ReasonMalformedPayload
  end.

Definition dquote : string := String "034" "".
Definition stub (v : string) : string :=
  "{" +:+ dquote +:+ "evidence_status" +:+ dquote +:+ ":" +:+ dquote +:+ "quarantined" +:+ dquote
  +:+ "," +:+ dquote +:+ "reason" +:+ dquote +:+ ":" +:+ dquote +:+ v +:+ dquote +:+ "}".

Definition plan_exists (id : string) (d : EvDb) : bool :=
  any_where (fun p => pl_id p =s id) (plans (base d)).
Definition binding_exists (key : string) (d : EvDb) : bool :=
  any_where (fun b => cb_key b =s key) (bindings (base d)).
Definition provider_exists (key : string) (d : EvDb) : bool :=
  any_where (fun p => rp_key p =s key) (providers (base d)).

(** A failed query counts as a missing target; its transaction is aborted. *)
Definition linkExists (q : EvDb -> bool) : M EvDb bool :=
  catch (query q) (fun _ => refuse_next ;! ret false).

Definition classify (ev : ConsumedEvent) : M EvDb Verdict :=
  let '(retention, d) := retentionFor (ce_Topic ev) in
  let until := ce_CreatedAt ev + d in
  let v := payloadViolation (ce_Payload ev) in
  if negb (v =s "")
  then ret (MkVerdict StateQuarantined v (ce_AggregateID ev) (stub v) retention until)
  else
    let linked plan (q : EvDb -> bool) :=
      let! found := linkExists q in
      ret (if found
           then MkVerdict StateLinked "" plan (ce_Payload ev) retention until
           else MkVerdict StateQuarantined ReasonBrokenLink plan (ce_Payload ev) retention until) in
    if ce_Topic ev =s "plan.resolved"
    then linked (ce_AggregateID ev) (plan_exists (ce_AggregateID ev))
    else if str_mem (ce_Topic ev) binding_topics
    then linked "" (binding_exists (ce_AggregateID ev))
    else if ce_Topic ev =s "provider.snapshot-changed"
    then linked "" (provider_exists (ce_AggregateID ev))
    else ret (MkVerdict StateQuarantined ReasonUnknownTopic "" (ce_Payload ev) retention until).

(** ** Ingestion *)

Section Ingest.
Context `{Jsonb}.

Definition has_event (id : string) (r : EvidenceRow) : bool := ev_event_id r =s id.

(** 00009: CHECK (payload_digest ~ '^sha256:[0-9a-f]{64}$'). *)
Definition digest_ok (s : string) : bool := Regex.match_full digestPattern s.

Definition new_record (id t : Z) (ev : ConsumedEvent) (v : Verdict) (content : json) : EvidenceRow :=
  MkEvidenceRow id (ce_EventID ev) (ce_Topic ev) (ce_AggregateKind ev) (ce_AggregateID ev)
    (ce_AggregateRevision ev) (ce_TenantRef ev) (ce_CreatedAt ev) t (sha256_digest (ce_Payload ev))
    content (vd_plan v) (vd_class v) (Some (vd_until v)) WormNone (vd_state v) (vd_reason v) t.
Definition push_record (r : EvidenceRow) (d : EvDb) : EvDb :=
  MkEvDb (base d) (records d ++ [r]) (checkpoints d) (ev_next d + 1).

(** INSERT ... ON CONFLICT (event_id) DO NOTHING; the rows affected. *)
Definition insert_record (t : Z) (ev : ConsumedEvent) (v : Verdict) : M EvDb Z :=
  stmt (fun d =>
    match jsonb_in (vd_content v) with
    | None => inl BadInput
    | Some content =>
        let r := new_record (ev_next d) t ev v content in
        if negb (digest_ok (ev_digest r)) then inl CheckViolation
        else if any_where (has_event (ce_EventID ev)) (records d) then inr (0, d)
        else inr (1, push_record r d)
    end).

Definition ingestOne (ev : ConsumedEvent) : M EvDb (Rec * bool) :=
  let! t := now in
  let! v := classify ev in
  let rec id := MkRec id (ce_EventID ev) (ce_Topic ev) (ce_AggregateKind ev) (ce_AggregateID ev)
    (ce_AggregateRevision ev) (ce_TenantRef ev) (ce_CreatedAt ev) (sha256_digest (ce_Payload ev))
    (vd_plan v) (vd_state v) (vd_reason v) in
  let! n := insert_record t ev v in
  if n =? 0 then ret (rec 0, false)
  else
    let! id := query_row (fun d => ev_id <$> first_where (has_event (ce_EventID ev)) (records d)) in
    ret (rec id, true).

Record Tally : Type := MkTally {
  ta_created : Z;
  ta_quarantined : list Rec;
  ta_max : Z;
}.
Definition count_in (ev : ConsumedEvent) (r : Rec * bool) (a : Tally) : Tally :=
  let m := if ce_PublishedSeq ev >? ta_max a then ce_PublishedSeq ev else ta_max a in
  if r.2
  then MkTally (ta_created a + 1)
         (if re_State r.1 =d StateQuarantined then ta_quarantined a ++ [r.1] else ta_quarantined a) m
  else MkTally (ta_created a) (ta_quarantined a) m.
Fixpoint ingest_all (evs : list ConsumedEvent) (a : Tally) : M EvDb Tally :=
  match evs with
  | [] => ret a
  | ev :: evs' =>
      let! r := ingestOne ev in
      ingest_all evs' (count_in ev r a)
  end.

Definition of_consumer (id : string) (c : CheckpointRow) : bool := ck_consumer c =s id.
(** INSERT ... ON CONFLICT (consumer_id) DO UPDATE ... WHERE last_seq <= $2 *)
Definition advance (consumer : string) (seq t : Z) (d : EvDb) : EvDb :=
  if any_where (of_consumer consumer) (checkpoints d)
  then with_checkpoints
         (update_where (fun c => of_consumer consumer c && (ck_last c <=? seq))
            (fun c => MkCheckpointRow (ck_consumer c) seq t) (checkpoints d)) d
  else with_checkpoints (checkpoints d ++ [MkCheckpointRow consumer seq t]) d.
Definition upsert_checkpoint (consumer : string) (seq t : Z) : M EvDb unit :=
  insert_row (fun d => if seq <? 0 then inl CheckViolation else inr (advance consumer seq t d)).

Definition IngestBatch (consumer : string) (evs : list ConsumedEvent) : M EvDb (Z * list Rec) :=
  match evs with
  | [] => ret (0, [])
  | _ =>
      tx (let! t := now in
          let! a := ingest_all evs (MkTally 0 [] 0) in
          upsert_checkpoint consumer (ta_max a) t ;!
          ret (Commit (ta_created a, ta_quarantined a)))
  end.

(** ** Scanning *)

Definition seq_of (o : OutboxRow) : Z := default 0 (oe_published_seq o).
Definition seq_le (a b : OutboxRow) : Prop := seq_of a <= seq_of b.
#[export] Instance seq_le_dec a b : Decision (seq_le a b) := Z_le_dec (seq_of a) (seq_of b).

(** status = 'PUBLISHED' AND published_seq IS NOT NULL AND published_seq > $1 *)
Definition past (last : Z) (o : OutboxRow) : bool :=
  (oe_status o =d ObPublished) &&
  match oe_published_seq o with Some n => n >? last | None => false end.
Definition consumed (o : OutboxRow) : ConsumedEvent :=
  MkConsumedEvent (oe_id o) (oe_event_id o) (oe_topic o) (jsonb_out (oe_payload o)) (oe_kind o)
    (oe_aggregate o) (oe_revision o) "" (oe_created_at o) (seq_of o).
Definition scan_rows (last n : Z) (d : EvDb) : list OutboxRow :=
  take (Z.to_nat n) (merge_sort seq_le (rows_where (past last) (outbox (base d)))).
(** The tenant of the row's audit record. *)
Definition tenant_of (id : Z) (d : EvDb) : option string :=
  match first_where (fun o => oe_id o =? id) (outbox (base d)) with
  | Some o => cr_tenant <$> first_where (fun c => cr_id c =? oe_change_id o) (changes (base d))
  | None => None
  end.
Fixpoint attribute (evs : list ConsumedEvent) : M EvDb (list ConsumedEvent) :=
  match evs with
  | [] => ret []
  | ev :: evs' =>
      let! tenant := query_row (tenant_of (ce_OutboxID ev)) in
      let! rest := attribute evs' in
      ret (set_tenant tenant ev :: rest)
  end.
Definition is_no_rows (e : err) : bool := bool_decide (e = ESql NoRows).
Definition last_seq (consumer : string) (d : EvDb) : option Z :=
  ck_last <$> first_where (of_consumer consumer) (checkpoints d).

(** The rows past [last] with their tenants. *)
Definition scan_from (last n : Z) : M EvDb (list ConsumedEvent) :=
  let! rows := stmt (fun d => if n <? 0 then inl BadInput else inr (scan_rows last n d, d)) in
  attribute (map consumed rows).

Definition ScanBatch (consumer : string) (batchSize : Z) : M EvDb (list ConsumedEvent) :=
  let! last := catch (query_row (last_seq consumer))
                     (fun e => if is_no_rows e then ret 0 else throw e) in
  scan_from last batchSize.

(** ** Repair and reads *)

(** The WHERE clause of the repair. *)
Definition repairable (d : EvDb) (r : EvidenceRow) : bool :=
  (ev_state r =d StateQuarantined) && (ev_reason r =s ReasonBrokenLink) &&
  (((ev_topic r =s "plan.resolved") && plan_exists (ev_aggregate r) d) ||
   (GoString.has_prefix (ev_topic r) "binding." && binding_exists (ev_aggregate r) d) ||
   ((ev_topic r =s "provider.snapshot-changed") && provider_exists (ev_aggregate r) d)).
Definition RepairQuarantined : M EvDb Z :=
  let! t := now in
  exec_n (fun d => (count_where (repairable d) (records d),
                    with_records (update_where (repairable d) (set_ev_link StateLinked "" t)
                                    (records d)) d)).

Definition QuarantineDepth : M EvDb Z :=
  query (fun d => count_where (fun r => ev_state r =d StateQuarantined) (records d)).
Definition Checkpoint (consumer : string) : M EvDb Z := query_row (last_seq consumer).
End Ingest.

(** Query, with the database's order of text as a parameter. *)
Section Query.
Context (text_compare : string -> string -> comparison).

Definition then_by (c d : comparison) : comparison := match c with Eq => d | _ => c end.
Definition by_aggregate (a b : EvidenceRow) : comparison :=
  then_by (text_compare (ev_kind a) (ev_kind b))
    (then_by (text_compare (ev_aggregate a) (ev_aggregate b))
       (then_by (ev_revision a ?= ev_revision b) (ev_occurred_at a ?= ev_occurred_at b))).
Definition aggregate_le (a b : EvidenceRow) : Prop := by_aggregate a b <> Gt.
#[local] Instance aggregate_le_dec a b : Decision (aggregate_le a b).
Proof. unfold aggregate_le. apply _. Defined.

Definition selected (tenant plan : string) (since until : Z) (r : EvidenceRow) : bool :=
  ((tenant =s "") || (ev_tenant r =s tenant)) && ((plan =s "") || (ev_plan r =s plan)) &&
  (since <=? ev_occurred_at r) && (ev_occurred_at r <=? until).
(** The columns Query reads; the digest is not one of them. *)
Definition record_of (r : EvidenceRow) : Rec :=
  MkRec (ev_id r) (ev_event_id r) (ev_topic r) (ev_kind r) (ev_aggregate r) (ev_revision r)
    (ev_tenant r) (ev_occurred_at r) "" (ev_plan r) (ev_state r) (ev_reason r).
Definition page (limit : Z) : Z := if (limit <=? 0) || (limit >? 500) then 100 else limit.
Definition Query (tenant plan : string) (since until limit : Z) : M EvDb (list Rec) :=
  query (fun d => map record_of (take (Z.to_nat (page limit))
    (merge_sort aggregate_le (rows_where (selected tenant plan since until) (records d))))).
End Query.
End Index.

(** ** The consumer's loop *)

Module Loop.
Import Index.

Record Consumer : Type := MkConsumer {
  ConsumerID : string;
  BatchSize : Z;
  Interval : Z;
}.
Definition batch (c : Consumer) : Z := if BatchSize c <=? 0 then 100 else BatchSize c.
Definition interval (c : Consumer) : Z :=
  if Interval c <=? 0 then 250 * GoTime.Millisecond else Interval c.

(** What one turn of the loop ends with. *)
Inductive Outcome : Type :=
| ScanFailed (e : err)
| NothingNew
| IngestFailed (e : err)
| Ingested (created : Z) (quarantined : list Rec).

Section Run.
Context `{Jsonb} (c : Consumer).

Definition sleep (d : Z) : M EvDb unit :=
  fun w => (inr tt, MkWorld (store w) (faults w) (clock w + d)).

Definition turn : M EvDb Outcome :=
  let! evs := attempt (ScanBatch (ConsumerID c) (batch c)) in
  match evs with
  | inl e => sleep (interval c) ;! ret (ScanFailed e)
  | inr [] => sleep (interval c) ;! ret NothingNew
  | inr evs =>
      let! r := attempt (IngestBatch (ConsumerID c) evs) in
      match r with
      | inl e => sleep (interval c) ;! ret (IngestFailed e)
      | inr (created, quarantined) => ret (Ingested created quarantined)
      end
  end.
(** [n] turns, then the context is cancelled. *)
Fixpoint Run (n : nat) : M EvDb unit :=
  match n with
  | O => ret tt
  | S n' => turn ;! Run n'
  end.
End Run.
End Loop.
