(* ===== verification/EvidenceLog.v ===== *)
(** * The evidence log under concurrency

    What the evidence consumer guarantees while outbox workers publish, other
    consumers ingest and repairs run.  [sys_step] is that system, over the
    fleet of OutboxFleet.v: a scan reads the checkpoint, then the rows, then
    the tenants, and the ingest transaction comes later.  The theorems: one
    record per event, a faithful copy or a stub, no published event before the
    checkpoint without a record, checkpoints that do not go back; what one
    batch does; that a running consumer catches up; what a repair does. *)

From S2P Require Import Prelude GoStd GoJson GoTime GoUnmarshal Sql Schema.
From S2P Require Import Events OutboxFleet Evidence.
Import Cloud Transport Worker Index Loop.

Section Effects.
Context `{Jsonb}.
Implicit Types (d : EvDb) (ev : ConsumedEvent).

(** ** What a batch does, as functions *)

(** classify without failures. *)
Definition classification (d : EvDb) (ev : ConsumedEvent) : Verdict :=
  let '(retention, span) := retentionFor (ce_Topic ev) in
  let until := ce_CreatedAt ev + span in
  let v := payloadViolation (ce_Payload ev) in
  if negb (v =s "")
  then MkVerdict StateQuarantined v (ce_AggregateID ev) (stub v) retention until
  else
    let linked plan (found : bool) :=
      if found
      then MkVerdict StateLinked "" plan (ce_Payload ev) retention until
      else MkVerdict StateQuarantined ReasonBrokenLink plan (ce_Payload ev) retention until in
    if ce_Topic ev =s "plan.resolved"
    then linked (ce_AggregateID ev) (plan_exists (ce_AggregateID ev) d)
    else if str_mem (ce_Topic ev) binding_topics
    then linked "" (binding_exists (ce_AggregateID ev) d)
    else if ce_Topic ev =s "provider.snapshot-changed"
    then linked "" (provider_exists (ce_AggregateID ev) d)
    else MkVerdict StateQuarantined ReasonUnknownTopic "" (ce_Payload ev) retention until.

Definition is_known (id : string) (d : EvDb) : bool := any_where (has_event id) (records d).
Definition absorb (t : Z) (d : EvDb) (ev : ConsumedEvent) : EvDb :=
  let v := classification d ev in
  if is_known (ce_EventID ev) d then d
  else match jsonb_in (vd_content v) with
       | Some content => push_record (new_record (ev_next d) t ev v content) d
       | None => d
       end.
Definition absorb_all (t : Z) (evs : list ConsumedEvent) (d : EvDb) : EvDb :=
  fold_left (absorb t) evs d.
(** The highest sequence number of a batch, 0 if it is empty. *)
Definition top_seq (evs : list ConsumedEvent) : Z := max_of ce_PublishedSeq evs.

(** *** Runs *)

Lemma linkExists_inr q (w : World EvDb) b w' :
  linkExists q w = (inr b, w') ->
  store w' = store w /\ clock w' = clock w /\ (failing w' = true \/ b = q (store w)).
Proof using.
  unfold linkExists, catch, query, stmt. destruct (failing w).
  - intros [= <- <-]. simpl. auto.
  - intros [= <- <-]. simpl. auto.
Qed.

Lemma classify_inr ev (w : World EvDb) v w' :
  classify ev w = (inr v, w') ->
  store w' = store w /\ clock w' = clock w /\
  (failing w' = true \/ v = classification (store w) ev).
Proof using.
  unfold classify, classification. destruct (retentionFor _) as [rt sp].
  destruct (negb _); [intros [= <- <-]; auto|].
  repeat match goal with |- context [if ?b then _ else _] =>
    lazymatch b with _ =s _ => destruct b | str_mem _ _ => destruct b end end;
    try (intros [= <- <-]; by auto);
    intros Hr; inv_run;
    match goal with H : linkExists _ _ = _ |- _ => apply linkExists_inr in H as (Hs & Hc & [Hf| ->]) end;
    auto.
Qed.

Lemma insert_record_inr t ev v (w : World EvDb) n w' :
  insert_record t ev v w = (inr n, w') ->
  failing w = false /\ clock w' = clock w /\ exists content, jsonb_in (vd_content v) = Some content /\
  n = (if is_known (ce_EventID ev) (store w) then 0 else 1) /\
  store w' = if is_known (ce_EventID ev) (store w) then store w
             else push_record (new_record (ev_next (store w)) t ev v content) (store w).
Proof using.
  intros Hr. pose proof Hr as Hr2. apply stmt_inr in Hr2 as [Hd Hc].
  unfold insert_record, stmt in Hr. destruct (failing w); [discriminate|]. clear Hr.
  split; [done|]. split; [done|]. unfold is_known.
  destruct (jsonb_in _) as [content|]; [|discriminate]. exists content. split; [done|].
  assert (Hok : digest_ok (ev_digest (new_record (ev_next (store w)) t ev v content)) = true)
    by apply sha256_digest_matches.
  cbv zeta in Hd. rewrite Hok in Hd. cbn [negb] in Hd.
  destruct (any_where _ _); injection Hd as <- <-; done.
Qed.

Lemma ingestOne_inr ev (w : World EvDb) r w' :
  ingestOne ev w = (inr r, w') ->
  clock w' = clock w /\ store w' = absorb (clock w) (store w) ev /\
  is_Some (jsonb_in (vd_content (classification (store w) ev))) /\
  r.2 = negb (is_known (ce_EventID ev) (store w)) /\
  re_State r.1 = vd_state (classification (store w) ev) /\ re_EventID r.1 = ce_EventID ev.
Proof using.
  unfold ingestOne. intros Hr. inv_run.
  match goal with H : classify _ _ = _ |- _ => apply classify_inr in H as (Hs1 & Hc1 & Hv) end.
  match goal with H : insert_record _ _ _ _ = _ |- _ =>
    apply insert_record_inr in H as (Hf & Hc2 & content & Hj & Hn & Hst) end.
  destruct Hv as [Hv| ->]; [congruence|]. rewrite Hs1 in *. unfold absorb. rewrite Hj.
  destruct (is_known (ce_EventID ev) (store w)); subst; simpl in Hr; inv_run; simpl;
    (split; [congruence|]); split; try congruence; eauto 10.
Qed.

(** *** Batches *)

Lemma classification_base d d' ev : base d = base d' -> classification d ev = classification d' ev.
Proof using. intros E. unfold classification, plan_exists, binding_exists, provider_exists. by rewrite E. Qed.

(** The records a batch adds. *)
Fixpoint news (t : Z) (evs : list ConsumedEvent) (d : EvDb) : list EvidenceRow :=
  match evs with
  | [] => []
  | ev :: evs' =>
      (if is_known (ce_EventID ev) d then []
       else match jsonb_in (vd_content (classification d ev)) with
            | Some c => [new_record (ev_next d) t ev (classification d ev) c]
            | None => []
            end) ++ news t evs' (absorb t d ev)
  end.

Lemma absorb_base t d ev : base (absorb t d ev) = base d /\ checkpoints (absorb t d ev) = checkpoints d.
Proof using. unfold absorb. destruct (is_known _ _); [done|]. by destruct (jsonb_in _). Qed.
Lemma absorb_all_base t evs d :
  base (absorb_all t evs d) = base d /\ checkpoints (absorb_all t evs d) = checkpoints d.
Proof using.
  revert d. induction evs as [|ev evs IH]; intros d; [done|]. simpl.
  destruct (IH (absorb t d ev)) as [-> ->]. apply absorb_base.
Qed.
Lemma absorb_all_records t evs d : records (absorb_all t evs d) = records d ++ news t evs d.
Proof using.
  revert d. induction evs as [|ev evs IH]; intros d; simpl; [by rewrite app_nil_r|].
  rewrite IH, app_assoc. f_equal. unfold absorb.
  destruct (is_known _ _); [by rewrite app_nil_r|]. destruct (jsonb_in _); [done|by rewrite app_nil_r].
Qed.
Lemma is_known_app id l d d' :
  records d' = records d ++ l -> is_known id d' = is_known id d || any_where (has_event id) l.
Proof using. intros E. unfold is_known, any_where. by rewrite E, existsb_app. Qed.

Definition alarmed (r : EvidenceRow) : bool := ev_state r =d StateQuarantined.

Lemma ingest_all_inr evs a (w : World EvDb) a' w' :
  0 <= ta_max a -> ingest_all evs a w = (inr a', w') ->
  clock w' = clock w /\ store w' = absorb_all (clock w) evs (store w) /\
  ta_max a' = Z.max (ta_max a) (top_seq evs) /\
  ta_created a' = ta_created a + Z.of_nat (length (news (clock w) evs (store w))) /\
  map re_EventID (ta_quarantined a') = map re_EventID (ta_quarantined a) ++
    map ev_event_id (rows_where alarmed (news (clock w) evs (store w))) /\
  Forall (fun ev => is_known (ce_EventID ev) (store w') = true) evs.
Proof using.
  revert a w. induction evs as [|ev evs IH]; intros a w Ha Hr; simpl in Hr.
  { inv_run. simpl. rewrite app_nil_r. repeat split; [|lia|constructor]. unfold top_seq. simpl. lia. }
  inv_run. destruct a0 as [rec new].
  apply ingestOne_inr in E as (Hc & Hst & [content Hj] & Hn & Hs & He). simpl in Hn, Hs, He.
  assert (Hm : ta_max (count_in ev (rec, new) a) = Z.max (ta_max a) (ce_PublishedSeq ev)).
  { unfold count_in. simpl. rewrite Z.gtb_ltb. destruct new; simpl;
      (destruct (Z.ltb_spec (ta_max a) (ce_PublishedSeq ev)); lia). }
  apply IH in Hr as (Hc' & Hst' & Hm' & Hcr & Hq & Hall); [|lia].
  rewrite Hc, Hst in *. simpl. split; [done|]. split; [done|]. split.
  { rewrite Hm', Hm. unfold top_seq. simpl. lia. }
  rewrite Hcr, Hq, Hj, rows_where_app, map_app, length_app, app_assoc.
  unfold count_in. simpl. rewrite Hn. split; [|split].
  - destruct (is_known _ _); simpl; lia.
  - f_equal. destruct (is_known _ _); simpl; [by rewrite app_nil_r|]. rewrite Hs.
    change (alarmed (new_record (ev_next (store w)) (clock w) ev (classification (store w) ev) content))
      with (vd_state (classification (store w) ev) =d StateQuarantined).
    destruct (_ =d _); simpl; [by rewrite map_app, <- He|by rewrite app_nil_r].
  - constructor; [|done]. rewrite Hst', (is_known_app _ _ _ _ (absorb_all_records _ _ _)).
    apply orb_true_iff. left. unfold absorb. rewrite Hj.
    destruct (is_known (ce_EventID ev) (store w)) eqn:Ek; [done|].
    unfold is_known, push_record. simpl. rewrite any_where_spec. eexists.
    split; [apply elem_of_app; right; by left|]. apply String.eqb_refl.
Qed.

Lemma IngestBatch_inr consumer evs (w : World EvDb) created quarantined w' :
  evs <> [] -> IngestBatch consumer evs w = (inr (created, quarantined), w') ->
  store w' = advance consumer (top_seq evs) (clock w) (absorb_all (clock w) evs (store w)) /\
  created = Z.of_nat (length (news (clock w) evs (store w))) /\
  map re_EventID quarantined = map ev_event_id (rows_where alarmed (news (clock w) evs (store w))) /\
  Forall (fun ev => is_known (ce_EventID ev) (absorb_all (clock w) evs (store w)) = true) evs.
Proof using.
  intros Hne Hr. destruct evs as [|ev evs]; [done|].
  change (IngestBatch consumer (ev :: evs)) with
    (tx (let! t := now in
         let! a := ingest_all (ev :: evs) (MkTally 0 [] 0) in
         upsert_checkpoint consumer (ta_max a) t ;!
         ret (Commit (ta_created a, ta_quarantined a)))) in Hr.
  set (l := ev :: evs) in *.
  apply tx_inr in Hr as (w0 & Hs & Hc & [(w1 & Hb & Hw)|(w1 & Hb & _)]); inv_run; [|discriminate].
  match goal with E : Commit _ = Commit _ |- _ => injection E as -> -> end.
  apply ingest_all_inr in E0 as (Hc1 & Hst & Hm & Hcr & Hq & Hall); [|simpl; lia].
  cbn [ta_max ta_created ta_quarantined map app] in Hm, Hcr, Hq. rewrite Z.add_0_l in Hcr.
  rewrite Hs, Hc in *. unfold upsert_checkpoint in E1. inv_run.
  destruct (ta_max a0 <? 0); [discriminate|].
  match goal with E : inr _ = inr _ |- _ => injection E as E; rewrite Hw, <- E, Hst end.
  assert (0 <= top_seq l) by apply max_of_nonneg. rewrite Z.max_r in Hm by lia.
  rewrite Hst in Hall. by rewrite Hm.
Qed.

Lemma IngestBatch_inl consumer evs (w : World EvDb) e w' :
  IngestBatch consumer evs w = (inl e, w') -> store w' = store w.
Proof using. destruct evs; [discriminate|]. apply tx_inl. Qed.
End Effects.

(** ** What outbox workers do to published rows *)

(** A row numbered after the step was so before, or has a number above all. *)
Definition published_fresh (d d' : Database) : Prop :=
  forall o' k, o' ∈ outbox d' -> oe_published_seq o' = Some k ->
  (exists o, o ∈ outbox d /\ (oe_status o' = ObPublished -> oe_status o = ObPublished) /\
             oe_published_seq o = Some k /\ oe_event_id o = oe_event_id o') \/
  max_seq (outbox d) < k.

Lemma published_fresh_refl d : published_fresh d d.
Proof. intros o k Ho Hk. left. eauto. Qed.
Lemma published_fresh_quiet d d' : moved quiet d d' -> published_fresh d d'.
Proof.
  intros Hm o' k Ho Hk. left.
  destruct (moved_back_elem _ _ _ _ Hm Ho) as (o & Hin & (Hs & Hq & _ & Hst)).
  exists o. split; [done|]. split; [auto|]. split; [congruence|].
  by destruct Hs as (_ & _ & _ & _ & _ & -> & _).
Qed.
Lemma published_fresh_grown d d' : grown d d' -> published_fresh d d'.
Proof.
  intros Hg o' k Ho Hk. left.
  destruct (grown_outbox _ _ Hg) as [E|(o & E & _ & Hn & _)]; rewrite E in Ho; [eauto|].
  apply elem_of_app in Ho as [Ho|Ho]; [eauto|]. apply list_elem_of_singleton in Ho as ->. congruence.
Qed.
Lemma published_fresh_mark id t d :
  published_fresh d (update_outbox (markable id) (marked t (max_seq (outbox d) + 1)) d).
Proof.
  intros o' k Ho Hk. destruct (moved_back_elem _ _ _ _ (mark_moved _ _ _ _) Ho) as (o & Hin & ->).
  destruct (markable id o); [|left; eauto]. right. simpl in Hk. injection Hk as <-. lia.
Qed.
Lemma step_published cfgs s s' : step cfgs s s' -> published_fresh (fl_db s) (fl_db s').
Proof.
  intros [] ; simpl; try apply published_fresh_refl.
  - apply published_fresh_quiet. by eapply (claim_moved _ (MkWorld d fl t)).
  - apply mark_inr in H0 as [-> _]. apply published_fresh_mark.
  - apply published_fresh_quiet. by eapply (settles_moved _ _ _ (MkWorld d fl t)).
  - by apply published_fresh_grown, (produces_grown t).
Qed.

Lemma max_seq_kept t t' : rows_kept later t t' -> max_seq t <= max_seq t'.
Proof.
  intros H. unfold max_seq at 1.
  assert (Hb : forall o, o ∈ t -> default 0 (oe_published_seq o) <= max_seq t').
  { intros o Ho. apply list_elem_of_lookup_1 in Ho as [i Hi].
    destruct (H i o Hi) as (o' & Hi' & (_ & _ & Hs)). apply list_elem_of_lookup_2 in Hi'.
    destruct (oe_published_seq o) as [n|] eqn:En; simpl.
    - destruct (Hs n eq_refl) as (m & Hm & Hle). pose proof (max_seq_ge _ _ _ Hi' Hm). lia.
    - apply max_of_nonneg. }
  clear H. induction t as [|o t IH]; simpl; [apply max_of_nonneg|].
  apply Z.max_lub; [apply Hb; by left|]. apply IH. intros x Hx. apply Hb. by right.
Qed.

(** ** The system *)

Inductive CPhase : Type :=
| Resting
| Resumed (last : Z)                  (* has read its checkpoint *)
| Scanned (evs : list ConsumedEvent). (* has read a batch *)

Record Sys : Type := MkSys {
  sy_db : EvDb;
  sy_wire : CloudEvent -> Prop;
  sy_now : Z;
  sy_workers : list Phase;
  sy_consumers : list CPhase;
}.
Definition fleet_of (s : Sys) : Fleet :=
  MkFleet (base (sy_db s)) (sy_wire s) (sy_now s) (sy_workers s).
Definition with_fleet (f : Fleet) (s : Sys) : Sys :=
  MkSys (with_base (fl_db f) (sy_db s)) (fl_wire f) (fl_now f) (fl_workers f) (sy_consumers s).

Section System.
Context `{Jsonb} (cfgs : nat -> WorkerConfig) (cons : nat -> Consumer).

Inductive sys_step : Sys -> Sys -> Prop :=
| ss_fleet s f : step cfgs (fleet_of s) f -> sys_step s (with_fleet f s)
| ss_resume d wire t ws cs j :
    cs !! j = Some Resting ->
    sys_step (MkSys d wire t ws cs)
             (MkSys d wire t ws (<[j := Resumed (default 0 (last_seq (ConsumerID (cons j)) d))]> cs))
| ss_scan d wire t ws cs j last :
    cs !! j = Some (Resumed last) ->
    sys_step (MkSys d wire t ws cs)
             (MkSys d wire t ws (<[j := Scanned (map consumed (scan_rows last (batch (cons j)) d))]> cs))
| ss_tenant d wire t ws cs j evs k ev tenant :
    cs !! j = Some (Scanned evs) -> evs !! k = Some ev ->
    tenant_of (ce_OutboxID ev) d = Some tenant ->
    sys_step (MkSys d wire t ws cs)
             (MkSys d wire t ws (<[j := Scanned (<[k := set_tenant tenant ev]> evs)]> cs))
| ss_ingest d wire t ws cs j evs fl x w' :
    cs !! j = Some (Scanned evs) ->
    IngestBatch (ConsumerID (cons j)) evs (MkWorld d fl t) = (inr x, w') ->
    sys_step (MkSys d wire t ws cs) (MkSys (store w') wire t ws (<[j := Resting]> cs))
| ss_repair d wire t ws cs fl n w' :
    RepairQuarantined (MkWorld d fl t) = (inr n, w') ->
    sys_step (MkSys d wire t ws cs) (MkSys (store w') wire t ws cs)
| ss_rest d wire t ws cs j : (* an error, a crash, the end of a turn *)
    sys_step (MkSys d wire t ws cs) (MkSys d wire t ws (<[j := Resting]> cs)).

(** ** The invariant *)

(** The topics classify has a linkage rule for. *)
Definition linkable (topic : string) : bool :=
  (topic =s "plan.resolved") || str_mem topic binding_topics || (topic =s "provider.snapshot-changed").

(** A row of the outbox, as read by a scan. *)
Definition copies (o : OutboxRow) (ev : ConsumedEvent) : Prop :=
  ce_OutboxID ev = oe_id o /\ ce_EventID ev = oe_event_id o /\ ce_Topic ev = oe_topic o /\
  ce_Payload ev = jsonb_out (oe_payload o) /\ ce_AggregateKind ev = oe_kind o /\
  ce_AggregateID ev = oe_aggregate o /\ ce_AggregateRevision ev = oe_revision o /\
  ce_CreatedAt ev = oe_created_at o.

(** A record of the event of an outbox row: its columns, the digest of its
    payload, and the payload itself unless it is in violation, in which case
    only the stub is stored and the record stays quarantined. *)
Definition records_row (o : OutboxRow) (r : EvidenceRow) : Prop :=
  let raw := jsonb_out (oe_payload o) in
  ev_event_id r = oe_event_id o /\ ev_topic r = oe_topic o /\ ev_kind r = oe_kind o /\
  ev_aggregate r = oe_aggregate o /\ ev_revision r = oe_revision o /\
  ev_occurred_at r = oe_created_at o /\ ev_digest r = sha256_digest raw /\
  if payloadViolation raw =s ""
  then jsonb_in raw = Some (ev_content r) /\
       match ev_state r with
       | StateLinked => ev_reason r = "" /\ linkable (ev_topic r) = true
       | StateQuarantined =>
           ev_reason r = if linkable (ev_topic r) then ReasonBrokenLink else ReasonUnknownTopic
       end
  else jsonb_in (stub (payloadViolation raw)) = Some (ev_content r) /\
       ev_state r = StateQuarantined /\ ev_reason r = payloadViolation raw.

Definition has_row (d : EvDb) (r : EvidenceRow) : Prop :=
  exists o, o ∈ outbox (base d) /\ records_row o r.
(** Every row published up to [n] has its record, or is in [evs]. *)
Definition covered (d : EvDb) (n : Z) (evs : list ConsumedEvent) : Prop :=
  forall o k, o ∈ outbox (base d) -> oe_status o = ObPublished -> oe_published_seq o = Some k ->
  k <= n -> is_known (oe_event_id o) d = true \/ oe_event_id o ∈ map ce_EventID evs.

Record ev_ok (d : EvDb) : Prop := {
  ok_positive : forall o k, o ∈ outbox (base d) -> oe_published_seq o = Some k -> 0 < k;
  ok_once : indexed (fun _ => true) ev_event_id (records d);
  ok_rows : forall r, r ∈ records d -> has_row d r;
  ok_ckpt : forall c, c ∈ checkpoints d ->
    covered d (ck_last c) [] /\ ck_last c <= max_seq (outbox (base d));
}.
Definition cphase_ok (d : EvDb) (p : CPhase) : Prop :=
  match p with
  | Resting => True
  | Resumed last => covered d last [] /\ last <= max_seq (outbox (base d))
  | Scanned evs =>
      (forall ev, ev ∈ evs -> exists o, o ∈ outbox (base d) /\ copies o ev) /\
      covered d (top_seq evs) evs /\ top_seq evs <= max_seq (outbox (base d))
  end.
Definition sys_ok (s : Sys) : Prop :=
  fleet_ok (fleet_of s) /\ ev_ok (sy_db s) /\ Forall (cphase_ok (sy_db s)) (sy_consumers s).

(** *** Fleet steps *)

Lemma records_row_same o o' r : same_event o o' -> records_row o r -> records_row o' r.
Proof using.
  intros (H1 & H2 & H3 & H4 & H5 & H6 & H7 & H8 & H9). unfold records_row.
  by rewrite H2, H3, H4, H6, H7, H8, H9.
Qed.
Lemma copies_same o o' ev : same_event o o' -> copies o ev -> copies o' ev.
Proof using.
  intros (H1 & H2 & H3 & H4 & H5 & H6 & H7 & H8 & H9). unfold copies.
  by rewrite H1, H2, H3, H4, H6, H7, H8, H9.
Qed.

(** The base moved on as outbox workers move it. *)
Record base_moved (d d' : EvDb) : Prop := {
  bm_records : records d' = records d;
  bm_ckpts : checkpoints d' = checkpoints d;
  bm_rows : forall o, o ∈ outbox (base d) -> exists o', o' ∈ outbox (base d') /\ same_event o o';
  bm_fresh : published_fresh (base d) (base d');
  bm_max : max_seq (outbox (base d)) <= max_seq (outbox (base d'));
}.
Lemma fleet_base_moved s f :
  step cfgs (fleet_of s) f -> base_moved (sy_db s) (sy_db (with_fleet f s)).
Proof using.
  intros Hst. pose proof (step_follows _ _ _ Hst) as (Hk & _).
  split; [done|done| |by apply step_published in Hst|by apply max_seq_kept].
  intros o Ho. apply list_elem_of_lookup_1 in Ho as [i Hi].
  destruct (Hk i o Hi) as (o' & Hi' & (Hs & _)). eauto using list_elem_of_lookup_2.
Qed.
Lemma covered_moved d d' n evs :
  base_moved d d' -> n <= max_seq (outbox (base d)) -> covered d n evs -> covered d' n evs.
Proof using.
  intros Hm Hn Hc o' k Ho Hp Hk Hle. unfold is_known. rewrite (bm_records _ _ Hm).
  destruct (bm_fresh _ _ Hm o' k Ho Hk) as [(o & Hin & Hp0 & Hk0 & <-)|Hgt]; [|lia].
  eapply Hc; eauto.
Qed.
Lemma ev_ok_moved d d' : base_moved d d' -> ev_ok d -> ev_ok d'.
Proof using.
  intros Hm [Hpos H1 H2 H3]. pose proof (bm_max _ _ Hm) as Hx.
  split; rewrite ?(bm_records _ _ Hm), ?(bm_ckpts _ _ Hm); [|done| |].
  - intros o' k Ho Hk. destruct (bm_fresh _ _ Hm o' k Ho Hk) as [(o & Hin & _ & Hk0 & _)|Hgt];
      [by eapply Hpos|]. pose proof (max_of_nonneg (fun o => default 0 (oe_published_seq o))
        (outbox (base d))). unfold max_seq in Hgt. lia.
  - intros r Hr. destruct (H2 r Hr) as (o & Ho & Hrow).
    destruct (bm_rows _ _ Hm o Ho) as (o' & Ho' & Hs). exists o'. eauto using records_row_same.
  - intros c Hc. destruct (H3 c Hc) as [Hcov Hle]. split; [by eapply covered_moved|lia].
Qed.
Lemma cphase_moved d d' p : base_moved d d' -> cphase_ok d p -> cphase_ok d' p.
Proof using.
  intros Hm. pose proof (bm_max _ _ Hm) as Hx. destruct p as [|last|evs]; simpl; [done|..].
  - intros [Hc Hle]. split; [by eapply covered_moved|lia].
  - intros (Hr & Hc & Hle). split; [|split; [by eapply covered_moved|lia]].
    intros ev Hev. destruct (Hr ev Hev) as (o & Ho & Hcp).
    destruct (bm_rows _ _ Hm o Ho) as (o' & Ho' & Hs). exists o'. eauto using copies_same.
Qed.

(** *** Scans *)

Lemma scan_rows_elem last n d o :
  o ∈ scan_rows last n d -> o ∈ outbox (base d) /\ past last o = true.
Proof using.
  unfold scan_rows. intros Ho. apply elem_of_rows_where.
  rewrite <- (merge_sort_Permutation seq_le).
  apply elem_of_take in Ho as (i & Hi & _). by eapply list_elem_of_lookup_2.
Qed.

(** The batch is the lowest numbers past the checkpoint. *)
Lemma scan_rows_lowest last n d o :
  o ∈ outbox (base d) -> past last o = true ->
  o ∈ scan_rows last n d \/ forall o1, o1 ∈ scan_rows last n d -> seq_of o1 <= seq_of o.
Proof using.
  intros Ho Hp. unfold scan_rows. set (l := merge_sort seq_le _).
  assert (Hs : StronglySorted seq_le (take (Z.to_nat n) l ++ drop (Z.to_nat n) l)).
  { rewrite take_drop. apply StronglySorted_merge_sort; [intros ? ? ?|intros a b];
      unfold seq_le; lia. }
  apply StronglySorted_app in Hs as (Hbelow & _).
  assert (Hl : o ∈ l).
  { unfold l. rewrite merge_sort_Permutation. by apply elem_of_rows_where. }
  rewrite <- (take_drop (Z.to_nat n)) in Hl. apply elem_of_app in Hl as [Hl|Hl]; [by left|].
  right. intros o1 H1. by apply (Hbelow o1 o).
Qed.

(** Numbers are positive, so a batch that is not empty has its highest one. *)
Lemma top_seq_elem (rows : list OutboxRow) :
  rows <> [] -> (forall o, o ∈ rows -> 0 < seq_of o) ->
  exists o, o ∈ rows /\ seq_of o = top_seq (map consumed rows).
Proof using.
  unfold top_seq. induction rows as [|x rows IH]; [done|]. intros _ Hp. simpl in *.
  assert (Hx : 0 < seq_of x) by (apply Hp; by left).
  destruct rows as [|y rows]; [exists x; split; [by left|simpl; lia]|].
  destruct IH as (o & Ho & Hs); [done|intros; apply Hp; by right|].
  destruct (Z.le_ge_cases (seq_of o) (seq_of x)); [exists x|exists o]; (split; [|lia]).
  - by left.
  - by right.
Qed.
Lemma top_seq_ge (rows : list OutboxRow) o : o ∈ rows -> seq_of o <= top_seq (map consumed rows).
Proof using.
  intros Ho. unfold top_seq. apply (max_of_ge ce_PublishedSeq _ (consumed o)).
  apply list_elem_of_fmap. by exists o.
Qed.

Lemma past_spec last o :
  past last o = true <->
  oe_status o = ObPublished /\ exists k, oe_published_seq o = Some k /\ last < k.
Proof using.
  unfold past. rewrite andb_true_iff, bool_decide_eq_true. split.
  - intros [Hp Hk]. split; [done|]. destruct (oe_published_seq o) as [k|]; [|done].
    exists k. split; [done|]. apply Z.gtb_lt in Hk. lia.
  - intros (Hp & k & -> & Hlt). split; [done|]. apply Z.gtb_lt. lia.
Qed.

Lemma scan_pos d last n :
  ev_ok d -> forall o, o ∈ scan_rows last n d -> 0 < seq_of o.
Proof using.
  intros Hok o Ho. apply scan_rows_elem in Ho as [Ho Hp]. apply past_spec in Hp as (_ & k & Hk & _).
  unfold seq_of. rewrite Hk. by apply (ok_positive _ Hok o).
Qed.

Lemma scan_covered d wire last n :
  db_ok wire (base d) -> ev_ok d -> 0 < n -> covered d last [] ->
  let evs := map consumed (scan_rows last n d) in covered d (top_seq evs) evs.
Proof using.
  intros Hd Hok Hn Hc evs o k Ho Hp Hk Hle. set (rows := scan_rows last n d) in *.
  destruct (Z.le_gt_cases k last) as [Hl|Hl].
  { destruct (Hc o k Ho Hp Hk Hl) as [?|Hin]; [by left|by apply elem_of_nil in Hin]. }
  right. assert (Hpast : past last o = true) by (apply past_spec; eauto).
  assert (Hin : forall x, x ∈ rows -> oe_event_id x ∈ map ce_EventID evs).
  { intros x Hx. unfold evs. rewrite List.map_map. apply list_elem_of_fmap. by exists x. }
  destruct (scan_rows_lowest last n d o Ho Hpast) as [H1|H1]; [by apply Hin|].
  assert (Hne : rows <> []).
  { unfold rows, scan_rows. intros E.
    assert (Hm : o ∈ merge_sort seq_le (rows_where (past last) (outbox (base d))))
      by (rewrite merge_sort_Permutation; by apply elem_of_rows_where).
    destruct (merge_sort _ _) as [|x l]; [by apply elem_of_nil in Hm|].
    destruct (Z.to_nat n) eqn:En; [lia|discriminate]. }
  destruct (top_seq_elem rows Hne (scan_pos d last n Hok)) as (x & Hx & Htop).
  pose proof (H1 x Hx) as Hxo. pose proof (scan_rows_elem _ _ _ _ Hx) as [Hxd Hxp].
  apply past_spec in Hxp as (_ & kx & Hkx & _).
  assert (x = o) as ->; [|by apply Hin].
  eapply (indexed_elem seq_set oe_published_seq); [apply (ok_seq _ _ Hd)|done|done|..];
    unfold seq_set; rewrite ?Hkx, ?Hk; [by apply bool_decide_eq_true|by apply bool_decide_eq_true|].
  f_equal. unfold seq_of in Hxo, Htop. rewrite Hkx in Hxo, Htop. rewrite Hk in Hxo. simpl in *.
  change (map consumed rows) with evs in Htop. lia.
Qed.

Lemma scan_phase_ok d wire last n :
  db_ok wire (base d) -> ev_ok d -> 0 < n -> cphase_ok d (Resumed last) ->
  cphase_ok d (Scanned (map consumed (scan_rows last n d))).
Proof using.
  intros Hd Hok Hn [Hc Hle]. split; [|split; [by eapply scan_covered|]].
  - intros ev Hev. apply list_elem_of_fmap in Hev as (o & -> & Ho).
    exists o. split; [by apply scan_rows_elem in Ho as [? _]|done].
  - destruct (scan_rows last n d) as [|x rows] eqn:E; [apply max_of_nonneg|]. rewrite <- E.
    destruct (top_seq_elem (scan_rows last n d)) as (o & Ho & <-);
      [by rewrite E|by apply scan_pos|].
    apply scan_rows_elem in Ho as [Ho Hp]. apply past_spec in Hp as (_ & k & Hk & _).
    unfold seq_of. rewrite Hk. by eapply max_seq_ge.
Qed.

Lemma tenant_phase_ok d evs k ev tenant :
  evs !! k = Some ev -> cphase_ok d (Scanned evs) ->
  cphase_ok d (Scanned (<[k := set_tenant tenant ev]> evs)).
Proof using.
  intros Hk (Hr & Hc & Hle).
  assert (Hm : forall B (f : ConsumedEvent -> B), f (set_tenant tenant ev) = f ev ->
            map f (<[k := set_tenant tenant ev]> evs) = map f evs).
  { intros B f Hf. rewrite (list_fmap_insert f). rewrite Hf. apply list_insert_id.
    by rewrite list_lookup_fmap, Hk. }
  assert (Ht : top_seq (<[k := set_tenant tenant ev]> evs) = top_seq evs).
  { assert (Hmax : forall l, top_seq l = fold_right Z.max 0 (map ce_PublishedSeq l)).
    { unfold top_seq, max_of. induction l; simpl; congruence. }
    by rewrite !Hmax, Hm. }
  split; [|split; [|by rewrite Ht]].
  - apply Forall_forall, Forall_insert; [by apply Forall_forall|].
    destruct (Hr ev) as (o & Ho & Hcp); [by eapply list_elem_of_lookup_2|]. by exists o.
  - unfold covered. by rewrite Ht, Hm.
Qed.

(** *** Ingestion and repair *)

Lemma news_spec t evs d r :
  r ∈ news t evs d ->
  exists ev id c, ev ∈ evs /\ is_known (ce_EventID ev) d = false /\
    jsonb_in (vd_content (classification d ev)) = Some c /\
    r = new_record id t ev (classification d ev) c.
Proof using.
  revert d. induction evs as [|ev evs IH]; intros d Hr; simpl in Hr; [by apply elem_of_nil in Hr|].
  apply elem_of_app in Hr as [Hr|Hr].
  - destruct (is_known _ _) eqn:Ek; [by apply elem_of_nil in Hr|].
    destruct (jsonb_in _) as [c|] eqn:Ej; [|by apply elem_of_nil in Hr].
    apply list_elem_of_singleton in Hr as ->. exists ev, (ev_next d), c.
    split; [by left|]. done.
  - apply IH in Hr as (e & id & c & He & Hk & Hj & ->).
    rewrite (classification_base (absorb t d ev) d) in * by apply absorb_base.
    exists e, id, c. split; [by right|]. split; [|done]. clear -Hk. unfold absorb in Hk.
    destruct (is_known (ce_EventID ev) d); [done|].
    destruct (jsonb_in _); [|done]. unfold is_known in *. apply any_where_false.
    intros x Hx. eapply any_where_false in Hk; [exact Hk|]. simpl. apply elem_of_app. by left.
Qed.

Lemma payloadViolation_cases raw :
  payloadViolation raw = "" \/ payloadViolation raw = ReasonForbiddenField \/
  payloadViolation raw = ReasonMalformedPayload.
Proof using.
  unfold payloadViolation. destruct (unmarshal raw) as [[]|]; auto; destruct (Regex.match_string _ _); auto.
Qed.

Lemma new_record_row o ev d id t c :
  copies o ev -> jsonb_in (vd_content (classification d ev)) = Some c ->
  records_row o (new_record id t ev (classification d ev) c).
Proof using.
  intros (H1 & H2 & H3 & H4 & H5 & H6 & H7 & H8). unfold records_row, new_record.
  cbn [ev_event_id ev_topic ev_kind ev_aggregate ev_revision ev_occurred_at ev_digest ev_content
       ev_state ev_reason].
  rewrite H2, H3, H4, H5, H6, H7, H8. intros Hj. do 7 (split; [done|]). revert Hj.
  unfold classification, linkable. rewrite H3, H4. destruct (retentionFor _) as [rt sp].
  destruct (payloadViolation _ =s ""); cbn [negb]; [|done].
  destruct (oe_topic o =s "plan.resolved"); [by destruct (plan_exists _ _)|].
  destruct (str_mem _ _); [by destruct (binding_exists _ _)|].
  destruct (_ =s _); [by destruct (provider_exists _ _)|done].
Qed.

Lemma repaired_row o r d t :
  records_row o r -> repairable d r = true -> records_row o (set_ev_link StateLinked "" t r).
Proof using.
  intros (H1 & H2 & H3 & H4 & H5 & H6 & H7 & H8) Hr. unfold repairable in Hr. b2p.
  destruct Hr as [[Hs Hb] _]. apply bool_decide_eq_true in Hs.
  do 7 (split; [done|]). unfold set_ev_link. cbn [ev_topic ev_content ev_state ev_reason].
  destruct (payloadViolation _ =s "").
  - destruct H8 as [Hc H8]. rewrite Hs in H8. split; [done|]. split; [done|].
    destruct (linkable _); [done|]. by rewrite Hb in H8.
  - destruct H8 as (_ & _ & H8). destruct (payloadViolation_cases (jsonb_out (oe_payload o)))
      as [E|[E|E]]; by rewrite Hb, E in H8.
Qed.

Lemma is_known_later id d d' :
  (forall r, r ∈ records d -> exists r', r' ∈ records d' /\ ev_event_id r' = ev_event_id r) ->
  is_known id d = true -> is_known id d' = true.
Proof using.
  intros Hd Hk. unfold is_known, has_event in *. apply any_where_spec in Hk as (r & Hr & He).
  destruct (Hd r Hr) as (r' & Hr' & E). apply any_where_spec. exists r'. by rewrite E.
Qed.
Lemma covered_records d d' n evs :
  base d' = base d -> (forall id, is_known id d = true -> is_known id d' = true) ->
  covered d n evs -> covered d' n evs.
Proof using.
  intros Hb Hk Hc o k Ho Hp Hs Hle. rewrite Hb in Ho. destruct (Hc o k Ho Hp Hs Hle); auto.
Qed.
Lemma cphase_records d d' p :
  base d' = base d -> (forall id, is_known id d = true -> is_known id d' = true) ->
  cphase_ok d p -> cphase_ok d' p.
Proof using.
  intros Hb Hk. destruct p as [|last|evs]; simpl; [done|..]; rewrite Hb.
  - intros [Hc Hle]. eauto using covered_records.
  - intros (Hr & Hc & Hle). eauto using covered_records.
Qed.

Lemma absorb_once t d ev :
  indexed (fun _ => true) ev_event_id (records d) ->
  indexed (fun _ => true) ev_event_id (records (absorb t d ev)).
Proof using.
  intros Hi. unfold absorb. destruct (is_known _ _) eqn:Ek; [done|].
  destruct (jsonb_in _); [|done]. apply (indexed_snoc String.eqb String.eqb_eq); [done|].
  apply (clashes_false String.eqb String.eqb_eq). intros _ r Hr _ He. unfold is_known in Ek.
  apply (any_where_false _ _) with (r := r) in Ek; [|done]. unfold has_event in Ek.
  simpl in He. b2p. congruence.
Qed.
Lemma absorb_all_once t evs d :
  indexed (fun _ => true) ev_event_id (records d) ->
  indexed (fun _ => true) ev_event_id (records (absorb_all t evs d)).
Proof using.
  revert d. induction evs as [|ev evs IH]; intros d Hi; [done|]. simpl. by apply IH, absorb_once.
Qed.

(** The checkpoint row after an advance. *)
Lemma advance_elem consumer seq t d c :
  c ∈ checkpoints (advance consumer seq t d) ->
  c ∈ checkpoints d \/ ck_last c = seq.
Proof using.
  unfold advance. destruct (any_where _ _); simpl.
  - intros Hc. apply elem_of_update_where in Hc as [(c0 & _ & _ & ->)|[Hc _]]; auto.
  - intros Hc. apply elem_of_app in Hc as [Hc|Hc]; [by left|].
    apply list_elem_of_singleton in Hc as ->. by right.
Qed.
Lemma advance_same consumer seq t d :
  base (advance consumer seq t d) = base d /\ records (advance consumer seq t d) = records d.
Proof using. unfold advance. by destruct (any_where _ _). Qed.

Lemma ingest_ok d evs consumer fl t x w' :
  ev_ok d -> cphase_ok d (Scanned evs) ->
  IngestBatch consumer evs (MkWorld d fl t) = (inr x, w') ->
  ev_ok (store w') /\ base (store w') = base d /\
  (forall id, is_known id d = true -> is_known id (store w') = true).
Proof using.
  intros Hok (Hrows & Hcov & Hle) Hr. destruct evs as [|ev evs]; [by injection Hr as _ <-|].
  destruct x as [created quarantined].
  apply IngestBatch_inr in Hr as (Hst & _ & _ & Hall); [|done]. cbn [store clock] in Hst, Hall.
  set (l := ev :: evs) in *. set (d1 := absorb_all t l d) in *.
  destruct (absorb_all_base t l d) as [Hb1 Hc1]. fold d1 in Hb1, Hc1.
  pose proof (absorb_all_records t l d) as Hr1. fold d1 in Hr1.
  destruct (advance_same consumer (top_seq l) t d1) as [Hb2 Hr2].
  assert (Hk1 : forall id, is_known id d = true -> is_known id d1 = true).
  { intros id Hk. rewrite (is_known_app _ _ _ _ Hr1), Hk. done. }
  rewrite Hst. assert (Hk2 : forall id, is_known id (advance consumer (top_seq l) t d1) = is_known id d1)
    by (intros; unfold is_known; by rewrite Hr2).
  split; [|split; [congruence|intros; rewrite Hk2; auto]].
  destruct Hok as [Hpos Honce Hhas Hck]. split; rewrite ?Hb2, ?Hr2, ?Hb1.
  - done.
  - by apply absorb_all_once.
  - intros r Hr. unfold has_row. rewrite Hb2, Hb1. rewrite Hr1 in Hr.
    apply elem_of_app in Hr as [Hr|Hr]; [by apply Hhas|].
    apply news_spec in Hr as (e & id & c & He & _ & Hj & ->).
    destruct (Hrows e He) as (o & Ho & Hcp). exists o. eauto using new_record_row.
  - intros c Hc. apply advance_elem in Hc as [Hc| ->].
    + rewrite Hc1 in Hc. destruct (Hck c Hc) as [Hcv Hm]. split; [|done].
      eapply covered_records; [| |exact Hcv]; [congruence|intros; rewrite Hk2; auto].
    + split; [|done]. intros o k Ho Hp Hs Hk. left. rewrite Hk2. rewrite Hb2, Hb1 in Ho.
      destruct (Hcov o k Ho Hp Hs Hk) as [Hkn|Hin]; [auto|].
      apply list_elem_of_fmap in Hin as (e & -> & He).
      by apply (proj1 (Forall_forall _ _) Hall).
Qed.

Lemma repair_inr (w : World EvDb) n w' :
  RepairQuarantined w = (inr n, w') ->
  store w' = with_records (update_where (repairable (store w))
               (set_ev_link StateLinked "" (clock w)) (records (store w))) (store w) /\
  n = count_where (repairable (store w)) (records (store w)).
Proof using.
  intros Hr. unfold RepairQuarantined in Hr. inv_run.
  by match goal with H : (_, _) = _ |- _ => injection H as <- <- end.
Qed.

Lemma repair_ok d fl t n w' :
  ev_ok d -> RepairQuarantined (MkWorld d fl t) = (inr n, w') ->
  ev_ok (store w') /\ base (store w') = base d /\
  (forall id, is_known id d = true -> is_known id (store w') = true).
Proof using.
  intros Hok Hr. apply repair_inr in Hr as [-> _]. simpl.
  set (l := update_where _ _ _).
  assert (Hk : forall id, is_known id d = true -> is_known id (with_records l d) = true).
  { intros id. apply is_known_later. intros r Hr. exists (if repairable d r then
      set_ev_link StateLinked "" t r else r). split; [|by destruct (repairable d r)].
    apply list_elem_of_fmap. by exists r. }
  split; [|done]. destruct Hok as [Hpos Honce Hhas Hck]. split; simpl; [done|..].
  - apply indexed_update; [done|]. by intros r _ _ _.
  - intros r Hr. apply elem_of_update_where in Hr as [(r0 & Hr0 & Hrep & ->)|[Hr _]].
    + destruct (Hhas r0 Hr0) as (o & Ho & Hrow). exists o. split; [exact Ho|]. by apply (repaired_row _ _ d).
    + by apply Hhas.
  - intros c Hc. destruct (Hck c Hc) as [Hcv Hm]. split; [|done].
    eapply covered_records; [|exact Hk|exact Hcv]. done.
Qed.

(** *** Steps *)

Lemma last_seq_elem consumer d n :
  last_seq consumer d = Some n -> exists c, c ∈ checkpoints d /\ ck_last c = n.
Proof using.
  unfold last_seq. destruct (first_where _ _) as [c|] eqn:E; [|done]. intros [= <-].
  apply first_where_some in E as [Hc _]. by exists c.
Qed.
Lemma batch_pos c : 0 < batch c.
Proof using. unfold batch. destruct (Z.leb_spec (BatchSize c) 0); lia. Qed.
Lemma resume_phase_ok consumer d :
  ev_ok d -> cphase_ok d (Resumed (default 0 (last_seq consumer d))).
Proof using.
  intros Hok. destruct (last_seq consumer d) as [n|] eqn:E; simpl.
  - apply last_seq_elem in E as (c & Hc & <-). by apply (ok_ckpt _ Hok).
  - split; [|apply max_of_nonneg]. intros o k Ho _ Hk Hle.
    pose proof (ok_positive _ Hok o k Ho Hk). lia.
Qed.

Lemma cphases_insert d ps j p :
  Forall (cphase_ok d) ps -> cphase_ok d p -> Forall (cphase_ok d) (<[j := p]> ps).
Proof using. intros. by apply Forall_insert. Qed.

Lemma fleet_ok_base d d' wire t ws cs cs' :
  base d' = base d ->
  fleet_ok (fleet_of (MkSys d wire t ws cs)) -> fleet_ok (fleet_of (MkSys d' wire t ws cs')).
Proof using. unfold fleet_of. simpl. by intros ->. Qed.

Lemma sys_step_ok s s' : sys_step s s' -> sys_ok s -> sys_ok s'.
Proof using.
  intros Hst (Hf & Hev & Hp).
  destruct Hst; unfold sys_ok in *; cbn [sy_db sy_wire sy_now sy_workers sy_consumers] in *.
  - pose proof (fleet_base_moved _ _ H0) as Hm. pose proof (step_fleet_ok _ _ _ H0 Hf).
    split; [by destruct f|]. split; [by eapply ev_ok_moved|].
    eapply Forall_impl; [exact Hp|]. intros p. by apply cphase_moved.
  - split; [done|]. split; [done|]. by apply cphases_insert, resume_phase_ok.
  - split; [done|]. split; [done|]. apply cphases_insert; [done|].
    destruct Hf as [Hd _]. eapply (Forall_lookup_1 _ _ _ _ Hp) in H0.
    eapply scan_phase_ok; eauto using batch_pos.
  - split; [done|]. split; [done|]. apply cphases_insert; [done|].
    eapply (Forall_lookup_1 _ _ _ _ Hp) in H0. by apply tenant_phase_ok.
  - eapply (Forall_lookup_1 _ _ _ _ Hp) in H0 as Hph.
    destruct (ingest_ok _ _ _ _ _ _ _ Hev Hph H1) as (Hok & Hb & Hk).
    split; [eapply fleet_ok_base; [exact Hb|exact Hf]|]. split; [done|]. apply cphases_insert; [|done].
    eapply Forall_impl; [exact Hp|]. intros p. by apply cphase_records.
  - destruct (repair_ok _ _ _ _ _ Hev H0) as (Hok & Hb & Hk).
    split; [eapply fleet_ok_base; [exact Hb|exact Hf]|]. split; [done|].
    eapply Forall_impl; [exact Hp|]. intros p. by apply cphase_records.
  - split; [done|]. split; [done|]. by apply cphases_insert.
Qed.

(** *** What a later state keeps *)

(** A record never changes but to become LINKED. *)
Definition ev_later (r r' : EvidenceRow) : Prop :=
  r' = r \/ (ev_state r = StateQuarantined /\ exists t, r' = set_ev_link StateLinked "" t r).
Definition ckpt_later (c c' : CheckpointRow) : Prop :=
  ck_consumer c' = ck_consumer c /\ ck_last c <= ck_last c'.
Definition log_follows (d d' : EvDb) : Prop :=
  rows_kept ev_later (records d) (records d') /\
  rows_kept ckpt_later (checkpoints d) (checkpoints d').

Lemma ev_later_refl r : ev_later r r.
Proof using. by left. Qed.
Lemma ev_later_trans a b c : ev_later a b -> ev_later b c -> ev_later a c.
Proof using.
  intros [->|[Hs [t ->]]] [->|[Hs' [t' ->]]]; [by left|right; eauto..|].
  discriminate Hs'.
Qed.
Lemma ckpt_later_refl c : ckpt_later c c.
Proof using. split; [done|lia]. Qed.
Lemma ckpt_later_trans a b c : ckpt_later a b -> ckpt_later b c -> ckpt_later a c.
Proof using. intros [H1 H2] [H3 H4]. split; [congruence|lia]. Qed.
Lemma log_follows_refl d : log_follows d d.
Proof using. split; apply rows_kept_refl; [apply ev_later_refl|apply ckpt_later_refl]. Qed.
Lemma log_follows_trans a b c : log_follows a b -> log_follows b c -> log_follows a c.
Proof using.
  intros [H1 H2] [H3 H4]. split; eapply rows_kept_trans; eauto using ev_later_trans, ckpt_later_trans.
Qed.

Lemma advance_follows consumer seq t d : rows_kept ckpt_later (checkpoints d) (checkpoints (advance consumer seq t d)).
Proof using.
  unfold advance. destruct (any_where _ _); [|apply rows_kept_app, ckpt_later_refl].
  apply rows_kept_update; [apply ckpt_later_refl|]. intros c Hc. b2p.
  by destruct Hc as [_ Hc].
Qed.
Lemma IngestBatch_follows consumer evs (w : World EvDb) x w' :
  IngestBatch consumer evs w = (inr x, w') -> log_follows (store w) (store w').
Proof using.
  intros Hr. destruct evs as [|ev evs]; [injection Hr as _ <-; apply log_follows_refl|].
  destruct x as [created quarantined]. apply IngestBatch_inr in Hr as (-> & _); [|done].
  set (l := ev :: evs). destruct (absorb_all_base (clock w) l (store w)) as [_ Hc].
  split.
  - destruct (advance_same consumer (top_seq l) (clock w) (absorb_all (clock w) l (store w))) as [_ ->].
    rewrite absorb_all_records. apply rows_kept_app, ev_later_refl.
  - rewrite <- Hc. apply advance_follows.
Qed.
Lemma Repair_follows (w : World EvDb) n w' :
  RepairQuarantined w = (inr n, w') -> log_follows (store w) (store w').
Proof using.
  intros Hr. apply repair_inr in Hr as [-> _].
  split; simpl; [|apply rows_kept_refl, ckpt_later_refl].
  apply rows_kept_update; [apply ev_later_refl|]. intros r Hr. right. unfold repairable in Hr.
  apply andb_true_iff in Hr as [Hr _]. apply andb_true_iff in Hr as [Hr _].
  apply bool_decide_eq_true in Hr. eauto.
Qed.
Lemma sys_step_follows s s' : sys_step s s' -> log_follows (sy_db s) (sy_db s').
Proof using.
  intros Hst. destruct Hst; cbn [sy_db]; try apply log_follows_refl.
  - split; apply rows_kept_refl; [apply ev_later_refl|apply ckpt_later_refl].
  - by eapply (IngestBatch_follows _ _ (MkWorld d fl t)).
  - by eapply (Repair_follows (MkWorld d fl t)).
Qed.
Lemma star_log_follows s s' : star sys_step s s' -> log_follows (sy_db s) (sy_db s').
Proof using.
  intros Hst. induction Hst; [apply log_follows_refl|].
  eauto using log_follows_trans, sys_step_follows.
Qed.

Lemma classify_timeless ev : timeless (classify ev).
Proof using. unfold classify, linkExists. timeless_walk. Qed.
Lemma ingestOne_timeless ev : timeless (ingestOne ev).
Proof using. unfold ingestOne, insert_record. timeless_walk. apply classify_timeless. Qed.
Lemma ingest_all_timeless evs a : timeless (ingest_all evs a).
Proof using.
  revert a. induction evs as [|ev evs IH]; intros a; simpl; [apply timeless_ret|].
  apply timeless_bind; [apply ingestOne_timeless|]. intros r. apply IH.
Qed.
Lemma IngestBatch_timeless consumer evs : timeless (IngestBatch consumer evs).
Proof using.
  unfold IngestBatch. destruct evs; [apply timeless_ret|].
  timeless_walk; [apply ingest_all_timeless|]. unfold upsert_checkpoint. apply timeless_stmt.
Qed.

(** ** A turn of the loop is a sequence of steps *)

Lemma query_row_run {A} (f : EvDb -> option A) (w : World EvDb) x w' :
  query_row f w = (x, w') ->
  store w' = store w /\ clock w' = clock w /\ forall a, x = inr a -> f (store w) = Some a.
Proof using.
  unfold query_row, stmt. destruct (failing w); [by intros [= <- <-]|]. simpl.
  destruct (f (store w)) eqn:E; intros [= <- <-]; (split; [done|]; split; [done|]); congruence.
Qed.

Lemma attribute_run evs (w : World EvDb) x w' :
  attribute evs w = (x, w') ->
  store w' = store w /\ clock w' = clock w /\
  forall evs', x = inr evs' ->
    Forall2 (fun ev ev' => exists tenant, tenant_of (ce_OutboxID ev) (store w) = Some tenant /\
                             ev' = set_tenant tenant ev) evs evs'.
Proof using.
  revert w x w'. induction evs as [|ev evs IH]; intros w x w' Hr; simpl in Hr.
  { injection Hr as <- <-. repeat split. intros ? [= <-]. constructor. }
  unfold bind in Hr. destruct (query_row _ w) as [[e|tn] w1] eqn:E;
    apply query_row_run in E as (Hs & Hc & Ht); [injection Hr as <- <-; by repeat split|].
  destruct (attribute evs w1) as [[e|rest] w2] eqn:Er; apply IH in Er as (Hs2 & Hc2 & Hf);
    injection Hr as <- <-; (split; [congruence|]); (split; [congruence|]); [done|].
  intros evs' [= <-]. rewrite Hs in Hf. constructor; eauto.
Qed.

(** The scan's reads: [evs] is the batch past [last], with tenants. *)
Definition batch_of (last n : Z) (d : EvDb) (evs : list ConsumedEvent) : Prop :=
  Forall2 (fun ev ev' => exists tenant, tenant_of (ce_OutboxID ev) d = Some tenant /\
                           ev' = set_tenant tenant ev)
    (map consumed (scan_rows last n d)) evs.
Lemma scan_from_run last n (w : World EvDb) x w' :
  scan_from last n w = (x, w') ->
  store w' = store w /\ clock w' = clock w /\
  forall evs, x = inr evs -> batch_of last n (store w) evs.
Proof using.
  unfold scan_from, bind, stmt. destruct (failing w); [by intros [= <- <-]|]. simpl.
  destruct (n <? 0); [by intros [= <- <-]|]. intros Hr. by apply attribute_run in Hr.
Qed.
Lemma ScanBatch_run consumer n (w : World EvDb) x w' :
  ScanBatch consumer n w = (x, w') ->
  store w' = store w /\ clock w' = clock w /\
  forall evs, x = inr evs ->
    batch_of (default 0 (last_seq consumer (store w))) n (store w) evs.
Proof using.
  unfold ScanBatch, bind, catch. intros Hr.
  destruct (query_row (last_seq consumer) w) as [l w1] eqn:El.
  assert (Hlast : store w1 = store w /\ clock w1 = clock w /\
    match l with
    | inl e => is_no_rows e = true -> last_seq consumer (store w) = None
    | inr k => last_seq consumer (store w) = Some k
    end).
  { unfold query_row, stmt in El. destruct (failing w); [by injection El as <- <-|].
    simpl in El. destruct (last_seq consumer (store w)); by injection El as <- <-. }
  destruct Hlast as (Hs & Hc & Hl). destruct l as [e|k]; [destruct (is_no_rows e)|].
  - rewrite Hl by done. apply scan_from_run in Hr as (H1 & H2 & H3). rewrite Hs in *.
    split; [done|]. split; [congruence|done].
  - injection Hr as <- <-. by repeat split.
  - rewrite Hl. apply scan_from_run in Hr as (H1 & H2 & H3). rewrite Hs in *.
    split; [done|]. split; [congruence|done].
Qed.

Section Simulate.
Context (j : nat) (wire : CloudEvent -> Prop) (ws : list Phase) (cs : list CPhase).
Context (Hj : cs !! j = Some Resting).

(** The system around one consumer in phase [p]. *)
Definition sys_at (d : EvDb) (t : Z) (p : CPhase) : Sys := MkSys d wire t ws (<[j := p]> cs).
Lemma sys_at_phase p q : <[j := p]> (<[j := q]> cs) = <[j := p]> cs.
Proof using. apply list_insert_insert_eq. Qed.
Lemma sys_at_lookup p : <[j := p]> cs !! j = Some p.
Proof using Hj. apply list_lookup_insert_eq. by eapply lookup_lt_Some. Qed.
Lemma sys_at_tick d t dt p : 0 <= dt -> sys_step (sys_at d t p) (sys_at d (t + dt) p).
Proof using.
  intros Hd. assert (E : sys_at d (t + dt) p =
    with_fleet (MkFleet (base d) wire (t + dt) ws) (sys_at d t p)) by by destruct d.
  rewrite E. apply ss_fleet, (step_tick cfgs (base d) wire t (t + dt) ws). lia.
Qed.
Lemma sys_at_rest d t p : sys_step (sys_at d t p) (sys_at d t Resting).
Proof using. unfold sys_at at 2. rewrite <- (sys_at_phase Resting p). apply ss_rest. Qed.

Lemma tenants_steps d t done_ evs evs' :
  Forall2 (fun ev ev' => exists tenant, tenant_of (ce_OutboxID ev) d = Some tenant /\
                           ev' = set_tenant tenant ev) evs evs' ->
  star sys_step (sys_at d t (Scanned (done_ ++ evs))) (sys_at d t (Scanned (done_ ++ evs'))).
Proof using Hj.
  intros Hf. revert done_. induction Hf as [|ev ev' evs evs' (tn & Ht & ->) Hf IH]; intros done_.
  { apply star_refl. }
  eapply star_trans; [apply star_one|].
  - unfold sys_at. eapply (ss_tenant d wire t ws _ j _ (length done_) ev tn);
      [apply sys_at_lookup|by apply list_lookup_middle|done].
  - rewrite sys_at_phase, insert_app_r_alt, Nat.sub_diag by lia. cbn [insert list_insert].
    specialize (IH (done_ ++ [set_tenant tn ev])). by rewrite <- !app_assoc in IH.
Qed.

Lemma turn_steps (w : World EvDb) x w' :
  turn (cons j) w = (x, w') ->
  star sys_step (sys_at (store w) (clock w) Resting) (sys_at (store w') (clock w') Resting).
Proof using Hj.
  unfold turn, bind, attempt. destruct (ScanBatch _ _ w) as [r w1] eqn:Es.
  apply ScanBatch_run in Es as (Hs & Hc & Hf).
  assert (Hi : 0 <= interval (cons j)).
  { unfold interval. destruct (Z.leb_spec (Interval (cons j)) 0); [by vm_compute|lia]. }
  assert (Hsleep : forall v y (o : Outcome), (sleep (interval (cons j)) ;! ret o) v = (y, w') ->
     star sys_step (sys_at (store v) (clock v) Resting) (sys_at (store w') (clock w') Resting)).
  { intros v y o [= _ <-]. by apply star_one, sys_at_tick. }
  destruct r as [e|[|ev evs]].
  - intros Hr. rewrite <- Hs, <- Hc. exact (Hsleep _ _ _ Hr).
  - intros Hr. rewrite <- Hs, <- Hc. exact (Hsleep _ _ _ Hr).
  - set (l := ev :: evs) in *. specialize (Hf l eq_refl).
    assert (Hscan : star sys_step (sys_at (store w) (clock w) Resting)
                                  (sys_at (store w) (clock w) (Scanned l))).
    { eapply star_trans; [apply star_one|eapply star_trans; [apply star_one|]].
      - unfold sys_at. apply ss_resume, sys_at_lookup.
      - rewrite sys_at_phase. eapply ss_scan, sys_at_lookup.
      - rewrite sys_at_phase. apply (tenants_steps _ _ []). exact Hf. }
    pose proof (IngestBatch_timeless (ConsumerID (cons j)) l w1) as Hct.
    destruct (IngestBatch _ l w1) as [[e|[created q]] w2] eqn:Ei; intros Hr; simpl in Hct.
    + apply IngestBatch_inl in Ei. apply Hsleep in Hr.
      eapply star_trans; [exact Hscan|]. eapply star_trans; [apply star_one, sys_at_rest|].
      by rewrite Ei, Hct, Hs, Hc in Hr.
    + injection Hr as _ <-. eapply star_trans; [exact Hscan|]. apply star_one.
      rewrite Hct, Hc, <- Hs. unfold sys_at at 2. rewrite <- (sys_at_phase Resting (Scanned l)).
      rewrite <- Hc.
      eapply (ss_ingest (store w1) wire (clock w1) ws _ j l (faults w1)); [apply sys_at_lookup|].
      replace (MkWorld _ _ _) with w1 by by destruct w1. exact Ei.
Qed.
End Simulate.

(** Checkpoints of other consumers stay; the consumer's own takes the maximum. *)
Lemma advance_others consumer seq t d c :
  ck_consumer c <> consumer ->
  c ∈ checkpoints (advance consumer seq t d) <-> c ∈ checkpoints d.
Proof using.
  intros Hne. unfold advance. destruct (any_where _ _); simpl.
  - rewrite elem_of_update_where. split.
    + intros [(c0 & Hc0 & Hp & ->)|[Hc _]]; [|done]. unfold of_consumer in Hp. simpl in Hne. b2p.
      tauto.
    + intros Hc. right. split; [done|]. unfold of_consumer. by rewrite (proj2 (String.eqb_neq _ _) Hne).
  - rewrite elem_of_app, list_elem_of_singleton. split; [|auto]. by intros [?| ->].
Qed.
Lemma last_seq_advance consumer seq t d :
  0 <= seq ->
  last_seq consumer (advance consumer seq t d) = Some (Z.max seq (default 0 (last_seq consumer d))).
Proof using.
  intros Hp. unfold last_seq, advance.
  destruct (first_where (of_consumer consumer) (checkpoints d)) as [k|] eqn:E.
  - assert (any_where (of_consumer consumer) (checkpoints d) = true) as ->.
    { apply any_where_spec. apply first_where_some in E. eauto. }
    cbn [checkpoints with_checkpoints]. rewrite first_where_update by done. rewrite E. simpl.
    apply first_where_some in E as [_ ->]. simpl.
    destruct (Z.leb_spec (ck_last k) seq); simpl; f_equal; lia.
  - assert (any_where (of_consumer consumer) (checkpoints d) = false) as ->.
    { apply any_where_false. intros r Hr. by eapply first_where_none. }
    cbn [checkpoints with_checkpoints]. rewrite first_where_app, E. simpl.
    unfold of_consumer. simpl. rewrite String.eqb_refl. simpl. f_equal. lia.
Qed.

(** ** A running consumer catches up *)

Section CatchUp.
Context (c : Consumer).
Abbreviation cid := (ConsumerID c).

(** Every payload of the outbox, and the stubs, pass the cast to jsonb. *)
Definition castable (d : EvDb) : Prop :=
  (forall o, o ∈ outbox (base d) -> is_Some (jsonb_in (jsonb_out (oe_payload o)))) /\
  is_Some (jsonb_in (stub ReasonForbiddenField)) /\ is_Some (jsonb_in (stub ReasonMalformedPayload)).
Definition position (d : EvDb) : Z := default 0 (last_seq cid d).
(** Published rows the consumer has not reached. *)
Definition behind (d : EvDb) : Z := count_where (past (position d)) (outbox (base d)).
Definition ready (d : EvDb) : Prop :=
  (exists wire, db_ok wire (base d)) /\ ev_ok d /\ castable d.

Lemma classification_castable d ev o :
  castable d -> o ∈ outbox (base d) -> copies o ev ->
  is_Some (jsonb_in (vd_content (classification d ev))).
Proof using.
  intros (Hp & Hf & Hm) Ho (_ & _ & _ & Hpay & _). unfold classification.
  destruct (retentionFor _) as [rt sp].
  destruct (payloadViolation_cases (ce_Payload ev)) as [E|[E|E]]; rewrite E;
    [|exact Hf|exact Hm].
  specialize (Hp o Ho). rewrite <- Hpay in Hp. cbn [String.eqb negb].
  destruct (_ =s _); [by destruct (plan_exists _ _)|].
  destruct (str_mem _ _); [by destruct (binding_exists _ _)|].
  destruct (_ =s _); [by destruct (provider_exists _ _)|done].
Qed.

Lemma classify_ok d t ev :
  classify ev (MkWorld d [] t) = (inr (classification d ev), MkWorld d [] t).
Proof using.
  unfold classify, classification. destruct (retentionFor _) as [rt sp].
  destruct (negb _); [done|].
  repeat (destruct (_ =s _); [by reflexivity|]).
  destruct (str_mem _ _); [by reflexivity|]. by destruct (_ =s _).
Qed.
Lemma ingestOne_ok d t ev :
  is_Some (jsonb_in (vd_content (classification d ev))) ->
  exists r, ingestOne ev (MkWorld d [] t) = (inr r, MkWorld (absorb t d ev) [] t).
Proof using.
  intros [content Hj]. unfold ingestOne. unfold bind at 1, now at 1. unfold bind at 1.
  rewrite classify_ok. cbn [clock]. unfold bind at 1, insert_record, stmt.
  cbn [failing faults hd pop_fault tail store clock]. rewrite Hj.
  assert (Hd : forall x, digest_ok (ev_digest (new_record x t ev (classification d ev) content)) = true)
    by (intros; apply sha256_digest_matches).
  cbv zeta. rewrite Hd. cbn [negb]. unfold absorb, is_known. rewrite Hj.
  destruct (any_where (has_event (ce_EventID ev)) (records d)) eqn:Ek; [by eexists|].
  unfold set_store. cbn [Z.eqb store faults clock]. unfold bind, query_row, stmt.
  cbn [failing faults hd pop_fault tail store clock push_record records].
  rewrite first_where_app. destruct (first_where _ (records d)) as [x|] eqn:Ef.
  - apply first_where_some in Ef as [Hx Hb]. by rewrite (proj1 (any_where_false _ _) Ek x Hx) in Hb.
  - unfold first_where, has_event. cbn [List.find new_record ev_event_id]. rewrite String.eqb_refl.
    by eexists.
Qed.

Lemma ingest_all_ok evs a d t :
  (forall ev, ev ∈ evs -> forall d', base d' = base d ->
     is_Some (jsonb_in (vd_content (classification d' ev)))) ->
  exists a', ingest_all evs a (MkWorld d [] t) = (inr a', MkWorld (absorb_all t evs d) [] t).
Proof using.
  revert a d. induction evs as [|ev evs IH]; intros a d Hc; simpl; [by eexists|].
  destruct (ingestOne_ok d t ev) as [r Hr]; [apply Hc; [by left|done]|].
  unfold bind. rewrite Hr. apply IH. intros e He d' Hd'. apply Hc; [by right|].
  rewrite Hd'. apply absorb_base.
Qed.

Lemma IngestBatch_ok evs d t :
  evs <> [] ->
  (forall ev, ev ∈ evs -> forall d', base d' = base d ->
     is_Some (jsonb_in (vd_content (classification d' ev)))) ->
  exists x, IngestBatch cid evs (MkWorld d [] t) =
    (inr x, MkWorld (advance cid (top_seq evs) t (absorb_all t evs d)) [] t).
Proof using.
  intros Hne Hc. destruct evs as [|ev evs]; [done|]. set (l := ev :: evs) in *.
  change (IngestBatch cid l) with
    (tx (let! t := now in
         let! a := ingest_all l (MkTally 0 [] 0) in
         upsert_checkpoint cid (ta_max a) t ;!
         ret (Commit (ta_created a, ta_quarantined a)))).
  destruct (ingest_all_ok l (MkTally 0 [] 0) d t Hc) as [a Ha].
  pose proof Ha as Hm. apply ingest_all_inr in Hm as (_ & _ & Hm & _); [|simpl; lia].
  cbn [ta_max] in Hm. assert (0 <= top_seq l) by apply max_of_nonneg. rewrite Z.max_r in Hm by lia.
  exists (ta_created a, ta_quarantined a). rewrite tx_ok.
  unfold bind, now. cbn [clock]. rewrite Ha, Hm. unfold upsert_checkpoint, insert_row, stmt.
  cbn [failing faults hd pop_fault tail store clock].
  destruct (Z.ltb_spec (top_seq l) 0); [lia|]. done.
Qed.

Lemma rows_where_sub {R} (p q : R -> bool) t :
  (forall r, p r = true -> q r = true) -> rows_where p t = rows_where p (rows_where q t).
Proof using.
  intros Hpq. induction t as [|r t IH]; [done|]. unfold rows_where in *. simpl.
  destruct (q r) eqn:Eq; simpl; destruct (p r) eqn:Ep; rewrite ?IH; try done.
  by rewrite (Hpq r Ep) in Eq.
Qed.

Lemma tenant_of_ok d wire o :
  db_ok wire (base d) -> o ∈ outbox (base d) -> is_Some (tenant_of (oe_id o) d).
Proof using.
  intros Hd Ho. destruct (ok_wf _ _ Hd) as (_ & Hid & Hrow). unfold tenant_of.
  destruct (first_where _ _) as [o'|] eqn:E.
  - apply first_where_some in E as [Ho' He]. apply Z.eqb_eq in He.
    assert (o' = o) as -> by by eapply (indexed_elem (fun _ => true) oe_id).
    destruct (Hrow o Ho) as [r Hr]. unfold event_row in Hr.
    by destruct (first_where _ (changes _)).
  - pose proof (first_where_none _ _ _ E Ho) as Hn. simpl in Hn. by rewrite Z.eqb_refl in Hn.
Qed.

Lemma attribute_ok d t evs :
  (forall ev, ev ∈ evs -> is_Some (tenant_of (ce_OutboxID ev) d)) ->
  exists evs', attribute evs (MkWorld d [] t) = (inr evs', MkWorld d [] t).
Proof using.
  induction evs as [|ev evs IH]; intros Ht; [by eexists|]. simpl.
  destruct (Ht ev) as [tn Hn]; [by left|]. destruct IH as [evs' He].
  { intros. apply Ht. by right. }
  exists (set_tenant tn ev :: evs'). unfold bind at 1. rewrite query_row_ok, Hn.
  unfold bind. by rewrite He.
Qed.

Lemma ScanBatch_ok d t :
  ready d ->
  exists evs, ScanBatch cid (batch c) (MkWorld d [] t) = (inr evs, MkWorld d [] t) /\
    batch_of (position d) (batch c) d evs.
Proof using.
  intros ([wire Hd] & Hok & _). pose proof (batch_pos c) as Hb.
  destruct (attribute_ok d t (map consumed (scan_rows (position d) (batch c) d))) as [evs He].
  { intros ev Hev. apply list_elem_of_fmap in Hev as (o & -> & Ho).
    apply scan_rows_elem in Ho as [Ho _]. by eapply tenant_of_ok. }
  assert (Hrun : ScanBatch cid (batch c) (MkWorld d [] t) = (inr evs, MkWorld d [] t)).
  { unfold ScanBatch. unfold bind at 1, catch. rewrite query_row_ok.
    assert (Hs : scan_from (position d) (batch c) (MkWorld d [] t) = (inr evs, MkWorld d [] t)).
    { unfold scan_from, bind, stmt. cbn [failing faults hd pop_fault tail store clock].
      destruct (Z.ltb_spec (batch c) 0); [lia|]. exact He. }
    unfold position in Hs. destruct (last_seq cid d); exact Hs. }
  exists evs. split; [done|]. apply ScanBatch_run in Hrun as (_ & _ & H1). by apply H1.
Qed.

Lemma batch_of_events last n d evs :
  batch_of last n d evs ->
  map ce_EventID evs = map oe_event_id (scan_rows last n d) /\
  top_seq evs = top_seq (map consumed (scan_rows last n d)) /\
  (forall ev, ev ∈ evs -> exists o, o ∈ scan_rows last n d /\ copies o ev) /\
  length evs = length (scan_rows last n d).
Proof using.
  unfold batch_of, top_seq. generalize (scan_rows last n d) as rows. intros rows Hf.
  remember (map consumed rows) as l eqn:El. revert rows El.
  induction Hf as [|ev ev' l evs (tn & _ & ->) Hf IH]; intros rows El.
  { destruct rows; [|done]. repeat split. intros ev He. by apply elem_of_nil in He. }
  destruct rows as [|o rows]; [done|]. injection El as -> ->.
  destruct (IH rows eq_refl) as (H1 & H2 & H3 & H4). simpl. rewrite H1, H2, H4. repeat split.
  intros e He. apply elem_of_cons in He as [->|He].
  - exists o. split; [by left|done].
  - destruct (H3 e He) as (o' & Ho' & Hc). exists o'. split; [by right|done].
Qed.

Lemma position_advance seq t d :
  0 <= seq -> position d <= seq -> position (advance cid seq t d) = seq.
Proof using. intros H0 Hle. unfold position. rewrite last_seq_advance by done. by apply Z.max_l. Qed.

(** A batch takes its rows off what is behind. *)
Lemma behind_batch d evs t d1 :
  ready d -> batch_of (position d) (batch c) d evs -> evs <> [] -> base d1 = base d ->
  checkpoints d1 = checkpoints d ->
  behind (advance cid (top_seq evs) t d1) <= Z.max 0 (behind d - batch c).
Proof using.
  intros (_ & Hok & _) Hb Hne Hb1 Hc1. apply batch_of_events in Hb as (_ & Htop & _ & Hlen).
  pose proof (batch_pos c) as Hpos. set (rows := scan_rows (position d) (batch c) d) in *.
  assert (Hne' : rows <> []) by (intros E; rewrite E in Hlen; by destruct evs).
  assert (Hp1 : position d1 = position d) by (unfold position, last_seq; by rewrite Hc1).
  assert (Hle : position d <= top_seq evs).
  { rewrite Htop. destruct (top_seq_elem rows Hne') as (o & Ho & <-); [by apply scan_pos|].
    apply scan_rows_elem in Ho as [_ Hp]. apply past_spec in Hp as (_ & k & Hk & ?).
    unfold seq_of. rewrite Hk. simpl. lia. }
  unfold behind. rewrite position_advance; [|apply max_of_nonneg|by rewrite Hp1].
  destruct (advance_same cid (top_seq evs) t d1) as [-> _]. rewrite Hb1.
  set (top := top_seq evs) in *. set (s := merge_sort seq_le
    (rows_where (past (position d)) (outbox (base d)))).
  assert (Hperm : s ≡ₚ rows_where (past (position d)) (outbox (base d)))
    by apply merge_sort_Permutation.
  assert (Hc : count_where (past top) (outbox (base d)) = Z.of_nat (length (rows_where (past top) s))).
  { unfold count_where. fold (rows_where (past top) (outbox (base d))).
    rewrite (rows_where_sub _ (past (position d))); [by rewrite Hperm|].
    intros o E. apply past_spec. apply past_spec in E as (? & k & ? & ?). eauto with lia. }
  rewrite Hc. unfold count_where. fold (rows_where (past (position d)) (outbox (base d))).
  rewrite <- Hperm, <- (take_drop (Z.to_nat (batch c)) s), rows_where_app.
  change (take _ s) with rows. rewrite (rows_where_none (past top) rows); [|].
  - simpl. rewrite length_app. pose proof (rows_where_length (past top) (drop (Z.to_nat (batch c)) s)).
    assert (length rows = Nat.min (Z.to_nat (batch c)) (length s)) by apply length_take.
    rewrite length_drop in *. lia.
  - intros o Ho. destruct (past top o) eqn:E; [|done]. apply past_spec in E as (_ & k & Hk & Hgt).
    pose proof (top_seq_ge rows o Ho) as Hge. unfold seq_of in Hge. rewrite Hk in Hge. simpl in Hge.
    lia.
Qed.

Lemma batch_phase_ok d evs :
  ready d -> batch_of (position d) (batch c) d evs -> cphase_ok d (Scanned evs).
Proof using.
  intros ([wire Hd] & Hok & _) Hb. apply batch_of_events in Hb as (Hids & Htop & Hcp & _).
  destruct (scan_phase_ok d wire _ _ Hd Hok (batch_pos c) (resume_phase_ok cid d Hok)) as (_ & Hc & Hm).
  split; [|split].
  - intros ev Hev. destruct (Hcp ev Hev) as (o & Ho & H1). exists o.
    split; [by apply scan_rows_elem in Ho as [? _]|done].
  - rewrite Htop. intros o k Ho Hp Hk Hle. destruct (Hc o k Ho Hp Hk Hle) as [?|Hin]; [by left|right].
    rewrite Hids. by rewrite List.map_map in Hin.
  - by rewrite Htop.
Qed.

Lemma turn_ok (w : World EvDb) :
  faults w = [] -> ready (store w) ->
  exists o w', turn c w = (inr o, w') /\ faults w' = [] /\ ready (store w') /\
    base (store w') = base (store w) /\ log_follows (store w) (store w') /\
    behind (store w') <= Z.max 0 (behind (store w) - batch c).
Proof using.
  intros Hf Hr. destruct w as [d fl t]. simpl in Hf, Hr. subst fl.
  destruct (ScanBatch_ok d t Hr) as (evs & Hs & Hb). unfold turn, bind, attempt. rewrite Hs.
  pose proof (batch_phase_ok d evs Hr Hb) as Hph. pose proof (batch_pos c) as Hpos.
  destruct evs as [|ev evs].
  - eexists _, _. split; [reflexivity|]. simpl. split; [done|]. split; [done|]. split; [done|].
    split; [apply log_follows_refl|]. apply batch_of_events in Hb as (_ & _ & _ & Hlen).
    unfold behind, count_where. fold (rows_where (past (position d)) (outbox (base d))).
    rewrite <- (merge_sort_Permutation seq_le). unfold scan_rows in Hlen.
    rewrite length_take in Hlen. simpl in Hlen. lia.
  - set (l := ev :: evs) in *. destruct (IngestBatch_ok l d t) as [x Hi]; [done| |].
    { destruct Hr as (_ & _ & Hcast). intros e He d' Hd'. apply batch_of_events in Hb as (_ & _ & Hcp & _).
      destruct (Hcp e He) as (o & Ho & Hc). apply scan_rows_elem in Ho as [Ho _].
      rewrite (classification_base d' d) by done. by eapply classification_castable. }
    rewrite Hi. destruct (ingest_ok _ _ _ _ _ _ _ (proj1 (proj2 Hr)) Hph Hi) as (Hok & Hbase & _).
    destruct x as [created q]. eexists _, _. split; [reflexivity|]. cbn [store faults] in *.
    split; [done|]. split.
    { destruct Hr as ([wire Hd] & _ & Hcast). unfold ready, castable. rewrite Hbase. eauto. }
    split; [done|]. split; [exact (IngestBatch_follows cid l _ _ _ Hi)|].
    apply behind_batch; [done|done|done|..]; apply absorb_all_base.
Qed.

Lemma Run_ok n (w : World EvDb) :
  faults w = [] -> ready (store w) ->
  exists w', Run c n w = (inr tt, w') /\ faults w' = [] /\ ready (store w') /\
    base (store w') = base (store w) /\ log_follows (store w) (store w') /\
    behind (store w') <= Z.max 0 (behind (store w) - Z.of_nat n * batch c).
Proof using.
  pose proof (batch_pos c) as Hpos.
  revert w. induction n as [|n IH]; intros w Hf Hr.
  { exists w. split; [done|]. split; [done|]. split; [done|]. split; [done|].
    split; [apply log_follows_refl|]. lia. }
  destruct (turn_ok w Hf Hr) as (o & w1 & Ht & Hf1 & Hr1 & Hb1 & Hl1 & Hm1).
  destruct (IH w1 Hf1 Hr1) as (w' & Hrun & Hf' & Hr' & Hb' & Hl' & Hm').
  exists w'. simpl. unfold bind. rewrite Ht. split; [done|]. split; [done|]. split; [done|].
  split; [congruence|]. split; [by eapply log_follows_trans|]. lia.
Qed.

Lemma caught_up d o :
  ready d -> behind d = 0 -> o ∈ outbox (base d) -> oe_status o = ObPublished ->
  is_known (oe_event_id o) d = true.
Proof using.
  intros ([wire Hd] & Hok & _) H0 Ho Hp. destruct (ok_status _ _ Hd o Ho Hp) as [k Hk].
  destruct (resume_phase_ok cid d Hok) as [Hc _]. fold (position d) in Hc.
  destruct (Z.le_gt_cases k (position d)) as [Hle|Hgt].
  - destruct (Hc o k Ho Hp Hk Hle) as [?|Hin]; [done|by apply elem_of_nil in Hin].
  - unfold behind in H0. apply count_where_zero with (r := o) in H0; [|done].
    assert (past (position d) o = true); [apply past_spec; eauto|congruence].
Qed.
End CatchUp.
End System.

Lemma star_fleet `{Jsonb} cfgs cons s f :
  star (step cfgs) (fleet_of s) f -> star (sys_step cfgs cons) s (with_fleet f s).
Proof.
  intros Hst. remember (fleet_of s) as f0 eqn:E. induction Hst as [f|f1 f2 f3 Hst IH Hstep]; subst.
  - destruct s as [[]]; apply star_refl.
  - eapply star_next; [by apply IH|].
    assert (Hf : fleet_of (with_fleet f2 s) = f2) by (by destruct f2).
    change (with_fleet f3 s) with (with_fleet f3 (with_fleet f2 s)).
    apply ss_fleet. by rewrite Hf.
Qed.

Lemma indexed_app_NoDup {R K} (key : R -> K) (a b : list R) :
  indexed (fun _ => true) key (a ++ b) -> NoDup (map key b).
Proof.
  intros Hi. apply NoDup_alt. intros i j k H1 H2. rewrite list_lookup_fmap in H1, H2.
  destruct (b !! i) as [x|] eqn:Ei; [|done]. destruct (b !! j) as [y|] eqn:Ej; [|done].
  simpl in H1, H2. injection H1 as <-. injection H2 as H2.
  assert (length a + i = length a + j)%nat; [|lia].
  apply (Hi _ _ x y); [| |done..]; rewrite lookup_app_r by lia; rewrite Nat.add_comm, Nat.add_sub; done.
Qed.

(** The repair's test is classify's. *)
Lemma repairable_classified `{Jsonb} o r d :
  records_row o r ->
  repairable d r = (ev_reason r =s ReasonBrokenLink) &&
                   (vd_state (classification d (consumed o)) =d StateLinked).
Proof.
  intros (H1 & H2 & H3 & H4 & H5 & H6 & H7 & H8). unfold repairable.
  rewrite H2 in *. rewrite H4 in *. unfold classification, consumed.
  cbn [ce_Topic ce_CreatedAt ce_Payload ce_AggregateID].
  destruct (retentionFor _) as [rt sp]. destruct (payloadViolation _ =s "") eqn:Ev; cbn [negb].
  - destruct H8 as [_ H8]. destruct (ev_state r); simpl; [by destruct H8 as [-> _]|].
    rewrite H8. destruct (linkable (oe_topic o)) eqn:El; [|done]. unfold linkable in El.
    apply orb_true_iff in El as [El|El]; [apply orb_true_iff in El as [El|El]|].
    + apply String.eqb_eq in El as ->. simpl. by destruct (plan_exists _ _).
    + apply str_mem_spec in El. unfold binding_topics in El.
      repeat (apply elem_of_cons in El as [El|El];
        [rewrite El; simpl; by destruct (binding_exists _ _)|]).
      by apply elem_of_nil in El.
    + apply String.eqb_eq in El as ->. simpl. by destruct (provider_exists _ _).
  - destruct H8 as (_ & -> & ->).
    destruct (payloadViolation_cases (jsonb_out (oe_payload o))) as [E|[E|E]]; by rewrite E.
Qed.

Module EvidenceProps.

(** The database's jsonb, as far as the examples use it. *)
Definition json_text : Jsonb := {| jsonb_in := unmarshal; jsonb_out := marshal |}.
Definition consumer0 : Consumer := MkConsumer "evidence" 0 0.
Definition consumers0 (_ : nat) : Consumer := consumer0.

(** A worker publishes the event of OutboxFleet's example; then the consumer
    takes a turn. *)
Definition sys0 : Sys :=
  MkSys (MkEvDb OutboxProps.db0 [] [] 1) (fun _ => False) 0 [Idle; Idle] [Resting].
Definition sys1 : Sys := with_fleet OutboxProps.fleet_marked sys0.
Definition world1 : World EvDb := MkWorld (sy_db sys1) [] (sy_now sys1).
Definition log1 : EvDb := Eval vm_compute in store (@turn json_text consumer0 world1).2.
Definition sys2 : Sys :=
  MkSys log1 OutboxProps.wire0 OutboxProps.t_steal (sy_workers sys1) [Resting].

Lemma sys0_ok : @sys_ok json_text sys0.
Proof.
  split; [apply OutboxProps.fleet0_ok|]. split; [|by repeat constructor].
  split; simpl.
  - intros o k Ho Hk. apply list_elem_of_singleton in Ho as ->. discriminate.
  - intros i j a b Hi. by rewrite lookup_nil in Hi.
  - intros r Hr. by apply elem_of_nil in Hr.
  - intros k Hk. by apply elem_of_nil in Hk.
Qed.
Lemma turn1_run : exists o, @turn json_text consumer0 world1 = (inr o, MkWorld log1 [] OutboxProps.t_steal).
Proof. eexists. vm_compute. reflexivity. Qed.
Lemma sys0_published : star (@sys_step json_text OutboxProps.cfgs0 consumers0) sys0 sys1.
Proof. apply star_fleet, OutboxProps.fleet0_marked. Qed.

(** C12.  While outbox workers publish, any number of consumers scan and ingest,
    and repairs run, in any order: a record once written is never removed and
    never changes except from QUARANTINED to LINKED; a consumer's checkpoint
    never goes back; no event has two records; every record is the record of
    an outbox row (its columns and the digest of its payload, with the payload
    stored unless it is in violation); and every row published up to a
    checkpoint has its record, so no event is skipped. *)
Theorem evidence_history `{Jsonb} cfgs cons s s' :
  sys_ok s -> star (sys_step cfgs cons) s s' ->
  log_follows (sy_db s) (sy_db s') /\
  (forall i j r r', records (sy_db s') !! i = Some r -> records (sy_db s') !! j = Some r' ->
     ev_event_id r = ev_event_id r' -> i = j) /\
  (forall r, r ∈ records (sy_db s') ->
     exists o, o ∈ outbox (base (sy_db s')) /\ records_row o r) /\
  (forall c o k, c ∈ checkpoints (sy_db s') -> o ∈ outbox (base (sy_db s')) ->
     oe_status o = ObPublished -> oe_published_seq o = Some k -> k <= ck_last c ->
     exists r, r ∈ records (sy_db s') /\ ev_event_id r = oe_event_id o).
Proof.
  intros Hok Hst.
  assert (sys_ok s') as (_ & [_ Honce Hrows Hck] & _).
  { eapply (star_invariant _ sys_ok); eauto using sys_step_ok. }
  split; [by eapply star_log_follows|]. split; [intros i j r r' Hi Hj; by eapply Honce|].
  split; [done|]. intros c o k Hc Ho Hp Hk Hle.
  destruct (proj1 (Hck c Hc) o k Ho Hp Hk Hle) as [Hkn|Hin]; [|by apply elem_of_nil in Hin].
  apply any_where_spec in Hkn as (r & Hr & He). exists r. split; [done|]. by apply String.eqb_eq.
Qed.
Lemma evidence_history_witness :
  map ck_last (checkpoints log1) = [1] /\ map ev_reason (records log1) = ["BROKEN_LINK"] /\
  exists r, r ∈ records log1 /\ ev_event_id r = "ev-1".
Proof.
  split; [reflexivity|]. split; [reflexivity|].
  assert (Hst : star (@sys_step json_text OutboxProps.cfgs0 consumers0) sys0 sys2).
  { eapply star_trans; [apply sys0_published|]. destruct turn1_run as [o Ho].
    exact (@turn_steps json_text OutboxProps.cfgs0 consumers0 0%nat _ (sy_workers sys1) [Resting]
             eq_refl world1 _ _ Ho). }
  destruct (@evidence_history json_text _ _ _ _ sys0_ok Hst) as (_ & _ & _ & H).
  apply (H (MkCheckpointRow "evidence" 1 OutboxProps.t_steal)
           (hd OutboxProps.event0 (outbox OutboxProps.db_marked)) 1); try reflexivity; by left.
Defined.

(** C13.  The red line: in every reachable state the content of every record,
    linked or quarantined, is a text without any of the forbidden words (the
    event's payload, or the stub stored in its place). *)
Theorem red_line `{Jsonb} cfgs cons s s' :
  sys_ok s -> star (sys_step cfgs cons) s s' ->
  forall r, r ∈ records (sy_db s') ->
  exists raw, jsonb_in raw = Some (ev_content r) /\
    Regex.match_string forbiddenContent raw = false /\
    exists o, o ∈ outbox (base (sy_db s')) /\ ev_event_id r = oe_event_id o /\
      (raw = jsonb_out (oe_payload o) \/
       raw = stub (payloadViolation (jsonb_out (oe_payload o))) /\ ev_state r = StateQuarantined).
Proof.
  intros Hok Hst r Hr.
  assert (sys_ok s') as (_ & [_ _ Hrows _] & _).
  { eapply (star_invariant _ sys_ok); eauto using sys_step_ok. }
  destruct (Hrows r Hr) as (o & Ho & Hrow). destruct Hrow as (He & _ & _ & _ & _ & _ & _ & Hc).
  destruct (payloadViolation (jsonb_out (oe_payload o)) =s "") eqn:Ev.
  - destruct Hc as [Hc _]. exists (jsonb_out (oe_payload o)). split; [done|]. split; [|eauto 10].
    apply String.eqb_eq in Ev. unfold payloadViolation in Ev.
    destruct (unmarshal _) as [[]|]; try discriminate;
      by destruct (Regex.match_string _ _).
  - destruct Hc as (Hc & Hs & _). eexists. split; [exact Hc|]. split; [|eauto 10].
    destruct (payloadViolation_cases (jsonb_out (oe_payload o))) as [E|[E|E]];
      rewrite E in *; [discriminate| |]; vm_compute; reflexivity.
Qed.
Lemma red_line_witness :
  Forall (fun r => exists raw, unmarshal raw = Some (ev_content r) /\
                     Regex.match_string forbiddenContent raw = false) (records log1).
Proof.
  assert (Hst : star (@sys_step json_text OutboxProps.cfgs0 consumers0) sys0 sys2).
  { eapply star_trans; [apply sys0_published|]. destruct turn1_run as [o Ho].
    exact (@turn_steps json_text OutboxProps.cfgs0 consumers0 0%nat _ (sy_workers sys1) [Resting]
             eq_refl world1 _ _ Ho). }
  apply Forall_forall. intros r Hr.
  destruct (@red_line json_text _ _ _ _ sys0_ok Hst r Hr) as (raw & H1 & H2 & _). by exists raw.
Defined.

Definition batch1 : list ConsumedEvent :=
  Eval vm_compute in match (@ScanBatch json_text "evidence" 100 world1).1 with
                     | inr l => l | inl _ => [] end.
Definition alarms1 : list Rec :=
  Eval vm_compute in match (@IngestBatch json_text "evidence" batch1 world1).1 with
                     | inr (_, q) => q | inl _ => [] end.

(** One batch, whatever the database's failures: if it returns, it has
    added one record per event id that was not known, in the order of first
    occurrence, with the state, reason, retention and content classify gives
    against the tables as they are, and nothing for known events; it reports
    their number and the quarantined ones among them; the consumer's checkpoint
    is the batch's highest number unless it was beyond it; no other table and
    no other checkpoint changes.  If it fails, nothing has changed. *)
Theorem IngestBatch_effect `{Jsonb} consumer evs (w : World EvDb) x w' :
  evs <> [] -> IngestBatch consumer evs w = (x, w') ->
  match x with
  | inl _ => store w' = store w
  | inr (created, quarantined) =>
      exists added,
        records (store w') = records (store w) ++ added /\
        created = Z.of_nat (length added) /\
        map re_EventID quarantined = map ev_event_id (rows_where alarmed added) /\
        (indexed (fun _ => true) ev_event_id (records (store w)) -> NoDup (map ev_event_id added)) /\
        (forall id, id ∈ map ev_event_id added <->
           id ∈ map ce_EventID evs /\ is_known id (store w) = false) /\
        (forall r, r ∈ added -> exists ev id c, ev ∈ evs /\
           jsonb_in (vd_content (classification (store w) ev)) = Some c /\
           r = new_record id (clock w) ev (classification (store w) ev) c) /\
        base (store w') = base (store w) /\
        (forall c, ck_consumer c <> consumer ->
           c ∈ checkpoints (store w') <-> c ∈ checkpoints (store w)) /\
        last_seq consumer (store w') =
          Some (Z.max (top_seq evs) (default 0 (last_seq consumer (store w))))
  end.
Proof.
  intros Hne Hr. destruct x as [e|[created quarantined]]; [by eapply IngestBatch_inl|].
  apply IngestBatch_inr in Hr as (-> & Hcr & Hq & Hall); [|done].
  set (t := clock w) in *. set (d := store w) in *. set (d1 := absorb_all t evs d) in *.
  destruct (advance_same consumer (top_seq evs) t d1) as [-> ->].
  pose proof (absorb_all_records t evs d) as Hrec. fold d1 in Hrec.
  destruct (absorb_all_base t evs d) as [Hb Hc]. fold d1 in Hb, Hc.
  exists (news t evs d). split; [done|]. split; [done|]. split; [done|]. split; [|split; [|split]].
  - intros Hi. apply absorb_all_once with (t := t) (evs := evs) in Hi. fold d1 in Hi.
    rewrite Hrec in Hi. by eapply indexed_app_NoDup.
  - intros id. split.
    + intros Hid. apply list_elem_of_fmap in Hid as (r & -> & Hr).
      apply news_spec in Hr as (ev & i & c & He & Hk & _ & ->). split; [|done].
      apply list_elem_of_fmap. by exists ev.
    + intros [Hid Hk]. apply list_elem_of_fmap in Hid as (ev & -> & He).
      apply (proj1 (Forall_forall _ _) Hall) in He. rewrite (is_known_app _ _ _ _ Hrec), Hk in He.
      apply any_where_spec in He as (r & Hr & E). apply list_elem_of_fmap. exists r.
      split; [|done]. symmetry. by apply String.eqb_eq.
  - intros r Hr. apply news_spec in Hr as (ev & i & c & He & _ & Hj & ->). by exists ev, i, c.
  - split; [done|]. rewrite <- Hc. split; [intros c; apply advance_others|].
    rewrite last_seq_advance by apply max_of_nonneg. unfold last_seq. by rewrite Hc.
Qed.
Lemma IngestBatch_effect_witness :
  exists added, records log1 = [] ++ added /\ 1 = Z.of_nat (length added).
Proof.
  destruct (@IngestBatch_effect json_text "evidence" batch1 world1 (inr (1, alarms1))
              (MkWorld log1 [] OutboxProps.t_steal)) as (added & H1 & H2 & _);
    [done|vm_compute; reflexivity|]. by exists added.
Defined.

(** A turn of the consumer's loop, whatever fails in it, is a sequence of
    the system's steps: reading the checkpoint, the rows and the tenants, the
    ingest transaction, the pause. *)
Theorem turn_refines `{Jsonb} cfgs cons j wire ws cs (w : World EvDb) x w' :
  cs !! j = Some Resting -> turn (cons j) w = (x, w') ->
  star (sys_step cfgs cons) (MkSys (store w) wire (clock w) ws cs)
                            (MkSys (store w') wire (clock w') ws cs).
Proof.
  intros Hj Hr. apply (turn_steps cfgs cons j wire ws cs Hj) in Hr.
  unfold sys_at in Hr. by rewrite !(list_insert_id cs j Resting Hj) in Hr.
Qed.
Lemma turn_refines_witness :
  star (@sys_step json_text OutboxProps.cfgs0 consumers0) sys1 sys2.
Proof.
  destruct turn1_run as [o Ho].
  exact (@turn_refines json_text OutboxProps.cfgs0 consumers0 0%nat _ (sy_workers sys1) [Resting]
           world1 _ _ eq_refl Ho).
Defined.

(** With a database that answers and payloads that pass the cast to jsonb,
    the loop terminates its work: after as many turns as batches cover the
    published rows past the checkpoint, every published row has its record. *)
Theorem Run_catches_up `{Jsonb} c n (w : World EvDb) :
  faults w = [] -> ready (store w) -> behind c (store w) <= Z.of_nat n * batch c ->
  exists w', Run c n w = (inr tt, w') /\ base (store w') = base (store w) /\
    log_follows (store w) (store w') /\ behind c (store w') = 0 /\
    forall o, o ∈ outbox (base (store w)) -> oe_status o = ObPublished ->
      exists r, r ∈ records (store w') /\ ev_event_id r = oe_event_id o.
Proof.
  intros Hf Hr Hn. destruct (Run_ok c n w Hf Hr) as (w' & Hrun & _ & Hr' & Hb & Hl & Hm).
  assert (H0 : behind c (store w') = 0).
  { pose proof (count_where_pos (past (position c (store w'))) (outbox (base (store w')))).
    unfold behind in *. lia. }
  exists w'. do 4 (split; [done|]). intros o Ho Hp. rewrite <- Hb in Ho.
  pose proof (caught_up c _ o Hr' H0 Ho Hp) as Hk.
  apply any_where_spec in Hk as (r & Hin & He). exists r. split; [done|]. by apply String.eqb_eq.
Qed.
Lemma Run_catches_up_witness :
  exists w', @Run json_text consumer0 1 world1 = (inr tt, w') /\
    exists r, r ∈ records (store w') /\ ev_event_id r = "ev-1".
Proof.
  assert (Hok : @sys_ok json_text sys1).
  { eapply (star_invariant _ (@sys_ok json_text)); [|apply sys0_ok|apply sys0_published].
    intros a b Ha Hs. by eapply sys_step_ok. }
  destruct Hok as ([Hd _] & He & _).
  destruct (@Run_catches_up json_text consumer0 1 world1) as (w' & Hrun & _ & _ & _ & Hall);
    [done| |by vm_compute|].
  - split; [by eexists|]. split; [done|]. split; [|split; by eexists].
    intros o Ho. apply list_elem_of_singleton in Ho as ->. by eexists.
  - exists w'. split; [done|].
    apply (Hall (hd OutboxProps.event0 (outbox OutboxProps.db_marked))); [by left|done].
Defined.

(** A repair sets exactly the BROKEN_LINK records LINKED that classify
    would link now, whatever set them aside, and reports their number; the
    prefix test on the topic in its WHERE clause decides as classify's list of
    topics does. *)
Theorem RepairQuarantined_reclassifies `{Jsonb} (w : World EvDb) n w' :
  ev_ok (store w) -> RepairQuarantined w = (inr n, w') ->
  base (store w') = base (store w) /\ checkpoints (store w') = checkpoints (store w) /\
  n = count_where (repairable (store w)) (records (store w)) /\
  forall i r, records (store w) !! i = Some r ->
  exists o, o ∈ outbox (base (store w)) /\ records_row o r /\
  records (store w') !! i = Some
    (if (ev_reason r =s ReasonBrokenLink) &&
        (vd_state (classification (store w) (consumed o)) =d StateLinked)
     then set_ev_link StateLinked "" (clock w) r else r).
Proof.
  intros Hok Hr. apply repair_inr in Hr as [-> ->]. split; [done|]. split; [done|]. split; [done|].
  intros i r Hi. destruct (ok_rows _ Hok r) as (o & Ho & Hrow); [by eapply list_elem_of_lookup_2|].
  exists o. split; [done|]. split; [done|]. cbn [records with_records].
  unfold update_where. rewrite lookup_map, Hi. simpl. by rewrite (repairable_classified o).
Qed.
Lemma RepairQuarantined_reclassifies_witness :
  0 = count_where (@repairable log1) (records log1).
Proof.
  assert (Hst : star (@sys_step json_text OutboxProps.cfgs0 consumers0) sys0 sys2).
  { eapply star_trans; [apply sys0_published|]. destruct turn1_run as [o Ho].
    exact (@turn_steps json_text OutboxProps.cfgs0 consumers0 0%nat _ (sy_workers sys1) [Resting]
             eq_refl world1 _ _ Ho). }
  assert (Hok : @sys_ok json_text sys2).
  { eapply (star_invariant _ (@sys_ok json_text)); [|apply sys0_ok|exact Hst].
    intros a b Ha Hs. by eapply sys_step_ok. }
  destruct (@RepairQuarantined_reclassifies json_text (MkWorld log1 [] 0) 0 (MkWorld log1 [] 0))
    as (_ & _ & H & _); [apply Hok|vm_compute; reflexivity|exact H].
Defined.
End EvidenceProps.
