(* ===== verification/EvidencePack.v ===== *)
(** * Evidence packs

    [src/internal/evidencepack]: the archive chain from evidence records to
    WORM objects.  Module [Pack] is pack.go (states, digest, manifest and the
    ObjectStore interface), Module [PackStore] store.go (the pack ledger),
    Module [Archive] archive.go (ArchiveOnce, archivePack, Recover), Module
    [Minio] minio_store.go over the S3 client.  An archive process holds the
    database and the object store; calls of the object store take time. *)

From S2P Require Import Prelude GoStd GoJson GoTime Sql Schema Evidence.

(** ** The tables of 00013 *)

(** Pack states. *)
Inductive PackState : Type :=
  PackPending | PackWriting | PackLocked | PackVerified | PackRetryable | PackQuarantined.
#[export] Instance PackState_eq_dec : EqDecision PackState.
Proof. solve_decision. Defined.

(** saoaf.evidence_archive_pack *)
Record PackRow : Type := MkPackRow {
  pk_id : Z;
  pk_pack : string;
  pk_state : PackState;
  pk_bucket : string;
  pk_key : string;
  pk_version : string;
  pk_manifest : string;
  pk_until : option Z;
  pk_hold : bool;
  pk_count : Z;
  pk_first : Z;
  pk_last : Z;
  pk_error : string;
  pk_attempts : Z;
  pk_locked_at : option Z;
  pk_verified_at : option Z;
}.
Definition set_pk_writing (r : PackRow) : PackRow :=
  MkPackRow (pk_id r) (pk_pack r) PackWriting (pk_bucket r) (pk_key r) (pk_version r)
    (pk_manifest r) (pk_until r) (pk_hold r) (pk_count r) (pk_first r) (pk_last r) (pk_error r)
    (pk_attempts r + 1) (pk_locked_at r) (pk_verified_at r).
Definition set_pk_written (version digest : string) (r : PackRow) : PackRow :=
  MkPackRow (pk_id r) (pk_pack r) (pk_state r) (pk_bucket r) (pk_key r) version
    digest (pk_until r) (pk_hold r) (pk_count r) (pk_first r) (pk_last r) (pk_error r)
    (pk_attempts r) (pk_locked_at r) (pk_verified_at r).
Definition set_pk_locked (until t : Z) (r : PackRow) : PackRow :=
  MkPackRow (pk_id r) (pk_pack r) PackLocked (pk_bucket r) (pk_key r) (pk_version r)
    (pk_manifest r) (Some until) (pk_hold r) (pk_count r) (pk_first r) (pk_last r) (pk_error r)
    (pk_attempts r) (Some t) (pk_verified_at r).
Definition set_pk_until (until : Z) (r : PackRow) : PackRow :=
  MkPackRow (pk_id r) (pk_pack r) (pk_state r) (pk_bucket r) (pk_key r) (pk_version r)
    (pk_manifest r) (Some until) (pk_hold r) (pk_count r) (pk_first r) (pk_last r) (pk_error r)
    (pk_attempts r) (pk_locked_at r) (pk_verified_at r).
Definition set_pk_verified (t : Z) (r : PackRow) : PackRow :=
  MkPackRow (pk_id r) (pk_pack r) PackVerified (pk_bucket r) (pk_key r) (pk_version r)
    (pk_manifest r) (pk_until r) (pk_hold r) (pk_count r) (pk_first r) (pk_last r) (pk_error r)
    (pk_attempts r) (pk_locked_at r) (Some t).
Definition set_pk_failed (st : PackState) (reason : string) (r : PackRow) : PackRow :=
  MkPackRow (pk_id r) (pk_pack r) st (pk_bucket r) (pk_key r) (pk_version r)
    (pk_manifest r) (pk_until r) (pk_hold r) (pk_count r) (pk_first r) (pk_last r) reason
    (pk_attempts r) (pk_locked_at r) (pk_verified_at r).
Definition set_pk_hold (hold : bool) (r : PackRow) : PackRow :=
  MkPackRow (pk_id r) (pk_pack r) (pk_state r) (pk_bucket r) (pk_key r) (pk_version r)
    (pk_manifest r) (pk_until r) hold (pk_count r) (pk_first r) (pk_last r) (pk_error r)
    (pk_attempts r) (pk_locked_at r) (pk_verified_at r).

(** saoaf.evidence_archive_link *)
Record LinkRow : Type := MkLinkRow {
  lk_pack : string;
  lk_record : Z;
  lk_version : string;
  lk_digest : string;
  lk_archived_at : Z;
}.
(** saoaf.evidence_archive_checkpoint *)
Record CursorRow : Type := MkCursorRow {
  cu_consumer : string;
  cu_last : Z;
  cu_updated_at : Z;
}.

(** [locks]: the session advisory locks held. *)
Record PackDb : Type := MkPackDb {
  evidence : EvDb;
  packs : list PackRow;
  links : list LinkRow;
  cursors : list CursorRow;
  locks : list Z;
  pk_next : Z;
}.
Definition with_evidence (v : EvDb) (d : PackDb) : PackDb :=
  MkPackDb v (packs d) (links d) (cursors d) (locks d) (pk_next d).
Definition with_packs (v : list PackRow) (d : PackDb) : PackDb :=
  MkPackDb (evidence d) v (links d) (cursors d) (locks d) (pk_next d).
Definition with_links (v : list LinkRow) (d : PackDb) : PackDb :=
  MkPackDb (evidence d) (packs d) v (cursors d) (locks d) (pk_next d).
Definition with_cursors (v : list CursorRow) (d : PackDb) : PackDb :=
  MkPackDb (evidence d) (packs d) (links d) v (locks d) (pk_next d).
Definition with_locks (v : list Z) (d : PackDb) : PackDb :=
  MkPackDb (evidence d) (packs d) (links d) (cursors d) v (pk_next d).

Module Pack.

(** ** The transition matrix of pack.go *)

Definition ValidTransitions (from : PackState) : list PackState :=
  match from with
  | PackPending => [PackWriting; PackRetryable; PackQuarantined]
  | PackWriting => [PackLocked; PackRetryable; PackQuarantined]
  | PackRetryable => [PackWriting; PackQuarantined]
  | PackLocked => [PackVerified; PackQuarantined]
  | PackQuarantined => []
  | PackVerified => []
  end.
Definition ValidateTransition (from to : PackState) : bool :=
  existsb (fun t => t =d to) (ValidTransitions from).

Definition errT (reason : string) : err := ETyped "" reason.
Definition ReasonInvalidTransition : string := "EVIDENCEPACK_INVALID_TRANSITION".
Definition ReasonNotFound : string := "EVIDENCEPACK_NOT_FOUND".
Definition ReasonStorageRetryable : string := "EVIDENCEPACK_STORAGE_RETRYABLE".
Definition ReasonDigestMismatch : string := "EVIDENCEPACK_DIGEST_MISMATCH".
Definition ReasonRetentionShrink : string := "EVIDENCEPACK_RETENTION_SHRINK".

(** Record: one evidence record selected for a pack. *)
Record Item : Type := MkItem {
  it_ID : Z;
  it_EventID : string;
  it_PayloadDigest : string;
  it_TenantRef : string;
  it_OccurredAt : Z;
}.

(** ** Digest and manifest *)

Definition newline : string := String "010" "".
Definition item_line (r : Item) : string :=
  dec (it_ID r) +:+ ":" +:+ it_EventID r +:+ ":" +:+ it_PayloadDigest r.
Definition lines (l : list string) : string :=
  fold_right (fun s acc => s +:+ newline +:+ acc) "" l.
(** What Digest hashes. *)
Definition digest_text (policyVersion : string) (records : list Item) : string :=
  "policy:" +:+ policyVersion +:+ newline +:+ lines (sort_strings (map item_line records)).
Definition Digest (policyVersion : string) (records : list Item) : string :=
  "pack-" +:+ String.substring 0 32 (sha256_hex (digest_text policyVersion records)).

Definition aliasTenant (tenant : string) : string :=
  if tenant =s "" then "unattributed" else "t-" +:+ tenant.
Definition jint (z : Z) : json := JNum (dec z).
Definition manifest_rec (r : Item) : json :=
  JObj [("record_id", jint (it_ID r)); ("event_id", JStr (it_EventID r));
        ("payload_digest", JStr (it_PayloadDigest r));
        ("tenant_alias", JStr (aliasTenant (it_TenantRef r)));
        ("occurred_at", JStr (GoTime.rfc3339 (it_OccurredAt r)))].
Definition first_id (records : list Item) : Z :=
  match records with [] => 0 | r :: _ => it_ID r end.
Definition last_id (records : list Item) : Z :=
  match last records with Some r => it_ID r | None => 0 end.
Definition manifest (packID policyVersion : string) (records : list Item) (days now : Z) : json :=
  JObj [("pack_id", JStr packID); ("policy_version", JStr policyVersion);
        ("records", JArr (map manifest_rec records));
        ("first_record_id", jint (first_id records)); ("last_record_id", jint (last_id records));
        ("generated_at", JStr (GoTime.rfc3339 now)); ("retention_days", jint days)].
Definition BuildManifest (packID policyVersion : string) (records : list Item) (days now : Z)
    : string := marshal (manifest packID policyVersion records days now).

(** ** ObjectStore

    A call returns its result, the time it took and the store after it. *)

Class ObjectStore (T : Type) : Type := {
  PutLocked : string -> string -> string -> string -> Z -> T -> (err + string) * Z * T;
  Head : string -> string -> string -> T -> (err + string) * Z * T;
  ExtendRetention : string -> string -> string -> Z -> T -> (err + unit) * Z * T;
  SetLegalHold : string -> string -> string -> bool -> T -> (err + unit) * Z * T;
  RetentionUntil : string -> string -> string -> T -> (err + option Z) * Z * T;
}.

(** What WORM storage documents: a version, once stored under a lock, keeps its
    body, and its lock only moves later.  [holds t b k v body u]: version [v]
    of [k] in [b] has this body and is locked until [u]. *)
Class WormStore (T : Type) `{ObjectStore T} : Type := {
  holds : T -> string -> string -> string -> string -> Z -> Prop;
  keeps_objects (t t' : T) : Prop :=
    forall b k v body u, holds t b k v body u -> exists u', u <= u' /\ holds t' b k v body u';
  put_lawful b k body ct u t r dt t' :
    PutLocked b k body ct u t = (r, dt, t') ->
    0 <= dt /\ keeps_objects t t' /\ (forall v, r = inr v -> holds t' b k v body u);
  head_lawful b k v t r dt t' :
    Head b k v t = (r, dt, t') ->
    0 <= dt /\ keeps_objects t t' /\
    (forall dg, r = inr dg -> forall body u, holds t b k v body u -> dg = sha256_digest body);
  extend_lawful b k v u t r dt t' :
    ExtendRetention b k v u t = (r, dt, t') -> 0 <= dt /\ keeps_objects t t';
  hold_lawful b k v h t r dt t' :
    SetLegalHold b k v h t = (r, dt, t') -> 0 <= dt /\ keeps_objects t t';
  until_lawful b k v t r dt t' :
    RetentionUntil b k v t = (r, dt, t') ->
    0 <= dt /\ keeps_objects t t' /\
    (forall n, r = inr (Some n) -> forall body u, holds t b k v body u -> holds t b k v body n);
}.
End Pack.

(** ** The pack ledger *)

Module PackStore.
Import Pack.

Definition bucketName : string := "saoaf-evidence".
Definition objectKeyFor (packID : string) : string := "packs/" +:+ packID +:+ "/manifest.json".

Definition is_pack (id : string) (p : PackRow) : bool := pk_pack p =s id.
Definition in_states (l : list PackState) (p : PackRow) : bool :=
  existsb (fun s => pk_state p =d s) l.
Definition item_of (r : EvidenceRow) : Item :=
  MkItem (ev_id r) (ev_event_id r) (ev_digest r) (ev_tenant r) (ev_occurred_at r).
Definition linked_record (id : Z) (d : PackDb) : bool :=
  any_where (fun l => lk_record l =? id) (links d).
(** state = 'LINKED' AND NOT EXISTS (link) *)
Definition unarchived (d : PackDb) (r : EvidenceRow) : bool :=
  (ev_state r =d StateLinked) && negb (linked_record (ev_id r) d).
Definition record_le (a b : EvidenceRow) : Prop := ev_id a <= ev_id b.
#[export] Instance record_le_dec a b : Decision (record_le a b) := Z_le_dec (ev_id a) (ev_id b).
(** The claim's window. *)
Definition window (n : Z) (d : PackDb) : list Item :=
  take (Z.to_nat n) (map item_of (merge_sort record_le
    (rows_where (unarchived d) (records (evidence d))))).

Definition new_pack (id : Z) (packID : string) (records : list Item) : PackRow :=
  MkPackRow id packID PackPending bucketName (objectKeyFor packID) "" "" None false
    (Z.of_nat (length records)) (first_id records) (last_id records) "" 0 None None.
(** INSERT ... ON CONFLICT (pack_id) DO NOTHING *)
Definition insert_pack (packID : string) (records : list Item) : M PackDb Z :=
  exec_n (fun d =>
    if any_where (is_pack packID) (packs d) then (0, d)
    else (1, MkPackDb (evidence d) (packs d ++ [new_pack (pk_next d) packID records]) (links d)
               (cursors d) (locks d) (pk_next d + 1))).

Definition ClaimWindow (batchSize : Z) (policyVersion : string)
    : M PackDb (string * list Item * bool) :=
  let n := if batchSize <=? 0 then 100 else batchSize in
  tx (let! records := query (window n) in
      match records with
      | [] => ret (Rollback ("", [], false))
      | _ =>
          let packID := Digest policyVersion records in
          let! k := insert_pack packID records in
          ret (Commit (packID, records, k =? 1))
      end).

(** [UPDATE ... WHERE p] whose RowsAffected must not be 0. *)
Definition update_pack (p : PackRow -> bool) (f : PackRow -> PackRow) (d : PackDb) : PackDb :=
  with_packs (update_where p f (packs d)) d.
Definition update_n (p : PackRow -> bool) (f : PackRow -> PackRow) : M PackDb Z :=
  exec_n (fun d => (count_where p (packs d), update_pack p f d)).
Definition cas (p : PackRow -> bool) (f : PackRow -> PackRow) : M PackDb unit :=
  let! n := update_n p f in
  guard (n =? 0) (errT ReasonInvalidTransition).

Definition MarkWriting (packID : string) : M PackDb unit :=
  cas (fun p => is_pack packID p && in_states [PackPending; PackRetryable] p) set_pk_writing.
Definition MarkWritten (packID version digest : string) : M PackDb unit :=
  cas (fun p => is_pack packID p && in_states [PackWriting] p) (set_pk_written version digest).
Definition MarkLocked (packID : string) (until : Z) : M PackDb unit :=
  let! t := now in
  cas (fun p => is_pack packID p && in_states [PackWriting] p && negb (pk_version p =s ""))
      (set_pk_locked until t).

Definition ExtendRetention (packID : string) (until : Z) : M PackDb unit :=
  let! n := update_n (fun p => is_pack packID p && in_states [PackLocked; PackVerified] p &&
                               match pk_until p with Some u => u <? until | None => false end)
              (set_pk_until until) in
  if n =? 0 then
    let! current := query_row (fun d => pk_until <$> first_where (is_pack packID) (packs d)) in
    match current with
    | Some u => throw (errT (if until <=? u then ReasonRetentionShrink else ReasonInvalidTransition))
    | None => throw (errT ReasonInvalidTransition)
    end
  else ret tt.

(** 00013: CHECK (digest ~ '^sha256:[0-9a-f]{64}$'); UNIQUE (record_id). *)
Definition insert_link (packID version : string) (t : Z) (r : Item) : M PackDb unit :=
  insert_row (fun d =>
    if negb (Index.digest_ok (it_PayloadDigest r)) then inl CheckViolation
    else if linked_record (it_ID r) d then inr d
    else inr (with_links (links d ++ [MkLinkRow packID (it_ID r) version (it_PayloadDigest r) t]) d)).
Definition in_pack (packID : string) (d : PackDb) (id : Z) : bool :=
  any_where (fun l => (lk_pack l =s packID) && (lk_record l =? id)) (links d).
Definition archive_records (packID : string) (d : PackDb) : PackDb :=
  with_evidence (with_records (update_where (fun r => in_pack packID d (ev_id r))
                                 (set_ev_worm WormArchived) (records (evidence d))) (evidence d)) d.

Definition MarkVerified (packID : string) (records : list Item) (version : string) : M PackDb unit :=
  tx (let! t := now in
      let! count := catch (query_row (fun d =>
          pk_count <$> first_where (fun p => is_pack packID p && in_states [PackLocked] p &&
                                             (pk_version p =s version)) (packs d)))
        (fun e => throw (if Index.is_no_rows e then errT ReasonInvalidTransition else e)) in
      guard (negb (count =? Z.of_nat (length records))) (errT ReasonDigestMismatch) ;!
      for_each records (insert_link packID version t) ;!
      cas (fun p => is_pack packID p && in_states [PackLocked] p) (set_pk_verified t) ;!
      exec (archive_records packID) ;!
      ret (Commit tt)).

(** The failure states are the two the callers pass; others are refused. *)
Definition MarkFailed (packID : string) (st : PackState) (reason : string) : M PackDb unit :=
  guard (negb (st =d PackRetryable) && negb (st =d PackQuarantined)) (ETyped "" "") ;!
  cas (fun p => is_pack packID p &&
                in_states [PackPending; PackWriting; PackRetryable; PackLocked] p)
      (set_pk_failed st reason).

Definition Get (packID : string) : M PackDb PackRow :=
  catch (query_row (fun d => first_where (is_pack packID) (packs d)))
    (fun e => throw (if Index.is_no_rows e then errT ReasonNotFound else e)).
Definition LinkCount (packID : string) : M PackDb Z :=
  query (fun d => count_where (fun l => lk_pack l =s packID) (links d)).

Definition of_cursor (id : string) (c : CursorRow) : bool := cu_consumer c =s id.
Definition advance_cursor (consumer : string) (last t : Z) (d : PackDb) : PackDb :=
  if any_where (of_cursor consumer) (cursors d)
  then with_cursors (update_where (fun c => of_cursor consumer c && (cu_last c <? last))
                       (fun c => MkCursorRow (cu_consumer c) last t) (cursors d)) d
  else with_cursors (cursors d ++ [MkCursorRow consumer last t]) d.
Definition AdvanceCheckpoint (consumer : string) (last : Z) : M PackDb unit :=
  let! t := now in exec (advance_cursor consumer last t).

Definition pack_le (a b : PackRow) : Prop := pk_id a <= pk_id b.
#[export] Instance pack_le_dec a b : Decision (pack_le a b) := Z_le_dec (pk_id a) (pk_id b).
Definition open_pack (p : PackRow) : bool :=
  in_states [PackPending; PackWriting; PackRetryable; PackLocked] p.
Definition PendingPacks : M PackDb (list string) :=
  query (fun d => map pk_pack (merge_sort pack_le (rows_where open_pack (packs d)))).

(** Session advisory locks; PostgreSQL's [hashtext] is a parameter.  A lock that
    is held is refused to everyone: PostgreSQL would grant it again to the
    session that holds it, which the pool keeps from other callers until it is
    released. *)
Section Locks.
Context (hashtext : string -> Z).
Definition lock_key (packID : string) : Z := hashtext ("evidencepack:drive:" +:+ packID).
Definition TryDriveLock (packID : string) : M PackDb bool :=
  connect ;!
  let! n := exec_n (fun d =>
    if bool_decide (lock_key packID ∈ locks d) then (0, d)
    else (1, with_locks (lock_key packID :: locks d) d)) in
  ret (n =? 1).
(** A failed unlock is ignored: the lock stays. *)
Definition release (packID : string) : M PackDb unit :=
  catch (exec (fun d => with_locks (List.filter (fun k => negb (k =? lock_key packID)) (locks d)) d))
        (fun _ => ret tt).
End Locks.
End PackStore.

(** ** The archive process *)

Module Archive.
Import Pack PackStore.

(** The database and the object store. *)
Record Archiver (T : Type) : Type := MkArchiver { ar_db : PackDb; ar_objects : T }.
Arguments MkArchiver {T}.
Arguments ar_db {T}.
Arguments ar_objects {T}.
Definition put_db {T} (d : PackDb) (a : Archiver T) : Archiver T := MkArchiver d (ar_objects a).

Section Archive.
Context {T : Type} `{ObjectStore T}.
(** [err.Error()]; the fingerprints of the locks; the settings. *)
Context (error_text : err -> string) (hashtext : string -> Z).
Context (policyVersion : string) (retentionDays : Z).
Abbreviation A := (M (Archiver T)).

Definition with_db {X} (m : M PackDb X) : A X := zoom ar_db put_db m.
(** A call of the object store. *)
Definition call {X} (f : T -> (err + X) * Z * T) : A X :=
  fun w => let '(r, dt, t') := f (ar_objects (store w)) in
           (r, MkWorld (MkArchiver (ar_db (store w)) t') (faults w) (clock w + dt)).
(** [_ = s.MarkFailed(...); return e] *)
Definition fail_as {X} (packID : string) (st : PackState) (reason : string) (e : err) : A X :=
  let! _ := attempt (with_db (MarkFailed packID st reason)) in throw e.

Definition storage_reason (e : err) : string := ReasonStorageRetryable +:+ ": " +:+ error_text e.

(** The WRITING part: upload under lock, record the version, verify the stored
    digest.  Returns the version. *)
Definition write_object (p : PackRow) (records : list Item) (retainUntil : Z) : A string :=
  let! t := now in
  let body := BuildManifest (pk_pack p) policyVersion records retentionDays t in
  let digest := sha256_digest body in
  let! r := attempt (call (PutLocked (pk_bucket p) (pk_key p) body "application/json" retainUntil)) in
  match r with
  | inl e => fail_as (pk_pack p) PackRetryable (storage_reason e) e
  | inr version =>
      with_db (MarkWritten (pk_pack p) version digest) ;!
      let! g := attempt (call (Head (pk_bucket p) (pk_key p) version)) in
      match g with
      | inl e => fail_as (pk_pack p) PackRetryable (storage_reason e) e
      | inr got =>
          if got =s digest then ret version
          else fail_as (pk_pack p) PackQuarantined
                 (ReasonDigestMismatch +:+ ": stored " +:+ got +:+ ", computed " +:+ digest)
                 (errT ReasonDigestMismatch)
      end
  end.

(** The object's lock covers the committed deadline, up to a minute. *)
Definition covers (lock : option Z) (committed : Z) : bool :=
  match lock with Some u => negb (u <? committed - GoTime.Minute) | None => false end.
(** The LOCKED part, with the deadline of the pack row. *)
Definition verify_lock (p : PackRow) (records : list Item) (version : string) (committed : Z) : A unit :=
  let! lock := call (RetentionUntil (pk_bucket p) (pk_key p) version) in
  (if covers lock committed then ret tt
   else
     call (Pack.ExtendRetention (pk_bucket p) (pk_key p) version committed) ;!
     let! lock2 := call (RetentionUntil (pk_bucket p) (pk_key p) version) in
     guard (negb (covers lock2 committed)) (errT ReasonDigestMismatch)) ;!
  with_db (MarkVerified (pk_pack p) records version).

Definition archivePack (packID : string) (records : list Item) : A unit :=
  let! p := with_db (Get packID) in
  let! t := now in
  let retainUntil := GoTime.add_days retentionDays t in
  let from_writing :=
    let! version := write_object p records retainUntil in
    with_db (MarkLocked packID retainUntil) ;!
    verify_lock p records version retainUntil in
  match pk_state p with
  | PackPending | PackRetryable => with_db (MarkWriting packID) ;! from_writing
  | PackWriting => from_writing
  | PackLocked =>
      match pk_until p with
      | None => throw (errT ReasonDigestMismatch)
      | Some u => verify_lock p records (pk_version p) u
      end
  | PackVerified | PackQuarantined => throw (errT ReasonInvalidTransition)
  end.

(** id BETWEEN first AND last, LINKED, without a link, ORDER BY id *)
Definition reload (p : PackRow) (d : PackDb) : list Item :=
  map item_of (merge_sort record_le (rows_where (fun r =>
    (pk_first p <=? ev_id r) && (ev_id r <=? pk_last p) && unarchived d r) (records (evidence d)))).
Definition count_drift (p : PackRow) (n : Z) : string :=
  "record window drift: pack " +:+ dec (pk_count p) +:+ ", reloadable " +:+ dec n +:+
  " (window no longer claimable — records re-pack normally)".
Definition set_drift (packID reloaded : string) : string :=
  "record set identity drift: pack " +:+ packID +:+ " reloaded " +:+ reloaded.

(** A PENDING pack is set RETRYABLE and recovered as such: two levels. *)
Fixpoint recover (fuel : nat) (packID : string) : A unit :=
  match fuel with
  | O => throw (errT "")
  | S fuel' =>
      let! p := with_db (Get packID) in
      match pk_state p with
      | PackVerified | PackQuarantined => ret tt
      | PackPending =>
          with_db (MarkFailed packID PackRetryable
            "PENDING pack adopted after crash between claim and MarkWriting") ;!
          recover fuel' packID
      | PackWriting | PackLocked | PackRetryable =>
          let! records := with_db (query (reload p)) in
          let n := Z.of_nat (length records) in
          if negb (n =? pk_count p) then
            with_db (MarkFailed packID PackQuarantined (count_drift p n)) ;!
            throw (errT ReasonDigestMismatch)
          else
            let reloaded := Digest policyVersion records in
            if negb (reloaded =s packID) then
              with_db (MarkFailed packID PackQuarantined (set_drift packID reloaded)) ;!
              throw (errT ReasonDigestMismatch)
            else archivePack packID records
      end
  end.
Definition Recover (packID : string) : A unit := recover 2 packID.

(** The sweep: every open pack whose lock is free; an error of Recover is
    dropped, an error of the lock ends the tick. *)
Fixpoint sweep (ids : list string) : A unit :=
  match ids with
  | [] => ret tt
  | pid :: ids' =>
      let! ok := with_db (TryDriveLock hashtext pid) in
      (if ok then
         let! _ := attempt (Recover pid) in with_db (release hashtext pid)
       else ret tt) ;!
      sweep ids'
  end.

(** [defer release()] *)
Definition locked {X} (packID : string) (m : A X) : A X :=
  let! r := attempt m in
  with_db (release hashtext packID) ;!
  match r with inl e => throw e | inr x => ret x end.

(** A tick: the sweep, then the next window.  The id of the pack claimed. *)
Definition ArchiveOnce (consumer : string) (batchSize : Z) : A string :=
  let! pending := with_db PendingPacks in
  sweep pending ;!
  let! claimed := with_db (ClaimWindow batchSize policyVersion) in
  let '(packID, records, created) := claimed in
  if packID =s "" then ret ""
  else if negb created then ret packID
  else
    let! ok := with_db (TryDriveLock hashtext packID) in
    if negb ok then ret packID
    else locked packID
           (archivePack packID records ;!
            with_db (AdvanceCheckpoint consumer (last_id records)) ;!
            ret packID).

(** SetHold, with the gate that authorises it. *)
Definition SetHold (gate : option (string -> bool -> bool)) (packID actor : string) (hold : bool)
    : A unit :=
  match gate with
  | None => throw (ETyped "" "")
  | Some authorized =>
      guard (negb (authorized actor (negb hold))) (errT "EVIDENCEPACK_HOLD_UNAUTHORIZED") ;!
      let! p := with_db (Get packID) in
      guard (negb (in_states [PackVerified; PackLocked] p)) (errT ReasonInvalidTransition) ;!
      guard (pk_version p =s "") (errT ReasonDigestMismatch) ;!
      call (SetLegalHold (pk_bucket p) (pk_key p) (pk_version p) hold) ;!
      with_db (cas (fun q => is_pack packID q && in_states [PackLocked; PackVerified] q)
                 (set_pk_hold hold))
  end.

Definition IsRetryable (e : err) : bool :=
  match e with ETyped _ r => r =s ReasonStorageRetryable | _ => false end.
End Archive.
End Archive.

(** ** minio_store.go over the S3 client *)

Module Minio.
Import Pack.

Class MinioClient (C : Type) : Type := {
  (** bucket, key, body, content type, retain-until under COMPLIANCE *)
  PutObject : string -> string -> string -> string -> option Z -> C -> (err + string) * Z * C;
  GetObject : string -> string -> string -> C -> (err + string) * Z * C;
  PutObjectRetention : string -> string -> string -> Z -> C -> (err + unit) * Z * C;
  PutObjectLegalHold : string -> string -> string -> bool -> C -> (err + unit) * Z * C;
  (** mode and date, each possibly absent *)
  GetObjectRetention : string -> string -> string -> C -> (err + option string * option Z) * Z * C;
  (** NoSuchObjectLockConfiguration *)
  no_lock_configured : err -> bool;
}.

(** MinIOStore: the client and its bucket, which the callers' argument does not
    override. *)
Record MinIOStore (C : Type) : Type := MkMinIOStore { cli : C; bucket : string }.
Arguments MkMinIOStore {C}.
Arguments cli {C}.
Arguments bucket {C}.

Section Minio.
Context {C : Type} `{MinioClient C}.
Definition through {X} (f : C -> (err + X) * Z * C) (s : MinIOStore C)
    : (err + X) * Z * MinIOStore C :=
  let '(r, dt, c') := f (cli s) in (r, dt, MkMinIOStore c' (bucket s)).

Definition minio_Put (b key body ct : string) (s : MinIOStore C) :=
  through (PutObject (bucket s) key body ct None) s.
Definition minio_PutLocked (b key body ct : string) (until : Z) (s : MinIOStore C) :=
  through (PutObject (bucket s) key body ct (Some until)) s.
(** The digest of the bytes read back. *)
Definition minio_Head (b key version : string) (s : MinIOStore C)
    : (err + string) * Z * MinIOStore C :=
  let '(r, dt, s') := through (GetObject (bucket s) key version) s in
  (match r with inl e => inl e | inr body => inr (sha256_digest body) end, dt, s').
Definition minio_ExtendRetention (b key version : string) (until : Z) (s : MinIOStore C) :=
  through (PutObjectRetention (bucket s) key version until) s.
Definition minio_SetLegalHold (b key version : string) (hold : bool) (s : MinIOStore C) :=
  through (PutObjectLegalHold (bucket s) key version hold) s.
Definition minio_RetentionUntil (b key version : string) (s : MinIOStore C)
    : (err + option Z) * Z * MinIOStore C :=
  let '(r, dt, s') := through (GetObjectRetention (bucket s) key version) s in
  (match r with
   | inl e => if no_lock_configured e then inr None else inl e
   | inr (Some _, Some u) => inr (Some u)
   | inr _ => inr None
   end, dt, s').

#[export] Instance minio_store : ObjectStore (MinIOStore C) := {|
  PutLocked := minio_PutLocked;
  Head := minio_Head;
  ExtendRetention := minio_ExtendRetention;
  SetLegalHold := minio_SetLegalHold;
  RetentionUntil := minio_RetentionUntil;
|}.
End Minio.

(** What S3 documents of a bucket with object lock, in terms of the client: a
    version put under COMPLIANCE keeps its bytes, its date only moves later,
    and reads return the bytes and the date. *)
Class LockedBucket (C : Type) `{MinioClient C} : Type := {
  s3_holds : C -> string -> string -> string -> string -> Z -> Prop;
  s3_keeps (c c' : C) : Prop :=
    forall b k v body u, s3_holds c b k v body u -> exists u', u <= u' /\ s3_holds c' b k v body u';
  put_object_lawful b k body ct u c r dt c' :
    PutObject b k body ct u c = (r, dt, c') ->
    0 <= dt /\ s3_keeps c c' /\
    (forall v t, r = inr v -> u = Some t -> s3_holds c' b k v body t);
  get_object_lawful b k v c r dt c' :
    GetObject b k v c = (r, dt, c') ->
    0 <= dt /\ s3_keeps c c' /\
    (forall got, r = inr got -> forall body u, s3_holds c b k v body u -> got = body);
  put_retention_lawful b k v u c r dt c' :
    PutObjectRetention b k v u c = (r, dt, c') -> 0 <= dt /\ s3_keeps c c';
  put_hold_lawful b k v h c r dt c' :
    PutObjectLegalHold b k v h c = (r, dt, c') -> 0 <= dt /\ s3_keeps c c';
  get_retention_lawful b k v c r dt c' :
    GetObjectRetention b k v c = (r, dt, c') ->
    0 <= dt /\ s3_keeps c c' /\
    (forall m n, r = inr (m, Some n) -> forall body u, s3_holds c b k v body u -> s3_holds c b k v body n);
}.

Section Lawful.
Context {C : Type} `{LB : LockedBucket C}.
(** The store's bucket is the configured one, whatever the caller names. *)
Definition minio_holds (s : MinIOStore C) (b k v body : string) (u : Z) : Prop :=
  s3_holds (cli s) (bucket s) k v body u.

Lemma through_run {X} (f : C -> (err + X) * Z * C) (s : MinIOStore C) r dt s' :
  through f s = (r, dt, s') -> exists c', f (cli s) = (r, dt, c') /\ s' = MkMinIOStore c' (bucket s).
Proof using. unfold through. destruct (f (cli s)) as [[r0 dt0] c']. intros [= <- <- <-]. eauto. Qed.
Lemma minio_keeps (s : MinIOStore C) c' :
  s3_keeps (cli s) c' ->
  forall b k v body u, minio_holds s b k v body u ->
  exists u', u <= u' /\ minio_holds (MkMinIOStore c' (bucket s)) b k v body u'.
Proof using. intros Hk b k v body u Hh. exact (Hk _ _ _ _ _ Hh). Qed.

#[export, refine] Instance minio_worm : WormStore (MinIOStore C) := {| holds := minio_holds |}.
Proof using LB.
  all: cbn.
  - intros b k body ct u s r dt s' Hr. apply through_run in Hr as (c' & Hr & ->).
    apply put_object_lawful in Hr as (Hd & Hk & Hh). split; [done|]. split; [by apply minio_keeps|].
    intros v Hv. exact (Hh v u Hv eq_refl).
  - intros b k v s r dt s' Hr. unfold minio_Head in Hr.
    destruct (through _ s) as [[r0 dt0] s0] eqn:E. injection Hr as <- <- <-.
    apply through_run in E as (c' & E & ->). apply get_object_lawful in E as (Hd & Hk & Hh).
    split; [done|]. split; [by apply minio_keeps|]. intros dg Hdg body u Hold.
    destruct r0 as [e|got]; [done|]. injection Hdg as <-. f_equal. exact (Hh got eq_refl _ _ Hold).
  - intros b k v u s r dt s' Hr. apply through_run in Hr as (c' & Hr & ->).
    apply put_retention_lawful in Hr as [Hd Hk]. split; [done|by apply minio_keeps].
  - intros b k v h s r dt s' Hr. apply through_run in Hr as (c' & Hr & ->).
    apply put_hold_lawful in Hr as [Hd Hk]. split; [done|by apply minio_keeps].
  - intros b k v s r dt s' Hr. unfold minio_RetentionUntil in Hr.
    destruct (through _ s) as [[r0 dt0] s0] eqn:E. injection Hr as <- <- <-.
    apply through_run in E as (c' & E & ->). apply get_retention_lawful in E as (Hd & Hk & Hh).
    split; [done|]. split; [by apply minio_keeps|]. intros n Hn body u Hold.
    destruct r0 as [e|[[m|] [t|]]]; try discriminate; [by destruct (no_lock_configured e)|].
    injection Hn as ->. exact (Hh (Some m) n eq_refl _ _ Hold).
Defined.
End Lawful.
End Minio.
