(* ===== verification/ArchiveLog.v ===== *)
(** * The archive ledger under concurrency

    What the pack ledger, the evidence index and the object store agree on
    while any number of archive processes, consumers and operators run and
    stop anywhere.  [archive_step] is that system.  The theorems: what holds in
    every history, that a tick of the archive process is such a history, what
    a pack that was archived guarantees, that recovery ends, and where the
    ledger stops making progress. *)

From S2P Require Import Prelude GoStd GoJson GoTime GoUnmarshal Sql Schema.
From S2P Require Import OutboxFleet Evidence EvidenceLog EvidencePack.
Import Index Pack PackStore Archive.

(** ** What the statements do *)

Lemma cas_inr p f (w : World PackDb) u w' :
  cas p f w = (inr u, w') ->
  store w' = update_pack p f (store w) /\ clock w' = clock w /\
  exists r, r ∈ packs (store w) /\ p r = true.
Proof.
  intros Hr. unfold cas, update_n in Hr. inv_run.
  match goal with E : (_, _) = (_, _) |- _ => injection E as Hn Hs end.
  split; [done|]. split; [congruence|].
  destruct (any_where p (packs (store w))) eqn:Ea; [by apply any_where_spec|].
  exfalso. match goal with E : (_ =? 0) = false |- _ => apply Z.eqb_neq in E; apply E end.
  rewrite <- Hn. apply count_where_zero. by apply any_where_false.
Qed.
Lemma cas_inl p f (w : World PackDb) e w' :
  cas p f w = (inl e, w') ->
  store w' = store w \/ (store w' = update_pack p f (store w) /\ count_where p (packs (store w)) = 0).
Proof.
  unfold cas, bind, update_n. destruct (exec_n _ w) as [[e1|n] w1] eqn:E.
  - intros [= _ <-]. left. by apply exec_n_inl in E.
  - apply exec_n_inr in E as [E _]. injection E as <- Hs. intros Hg. right.
    unfold guard in Hg. destruct (_ =? 0) eqn:Ez; [|discriminate]. injection Hg as _ <-.
    split; [done|lia].
Qed.
(** A CAS that finds no row changes nothing. *)
Lemma cas_inl_same p f (w : World PackDb) e w' : cas p f w = (inl e, w') -> store w' = store w.
Proof.
  intros Hr. apply cas_inl in Hr as [?|[-> Hz]]; [done|]. unfold update_pack.
  rewrite update_where_none by by apply count_where_zero. by destruct (store w).
Qed.

(** *** Links *)

Definition linked_now (packID version : string) (t : Z) (items : list Item) (l : LinkRow) : Prop :=
  lk_pack l = packID /\ lk_version l = version /\
  exists it, it ∈ items /\ lk_record l = it_ID it /\ lk_digest l = it_PayloadDigest it.
Definition same_but_links (d d' : PackDb) : Prop :=
  evidence d' = evidence d /\ packs d' = packs d /\ cursors d' = cursors d /\ locks d' = locks d /\
  pk_next d' = pk_next d.

Lemma same_but_links_eq d d' l : same_but_links d d' -> links d' = l -> d' = with_links l d.
Proof.
  destruct d, d'. unfold same_but_links, with_links. simpl. intros (-> & -> & -> & -> & ->) ->. done.
Qed.

Lemma insert_links_inr packID version t items (w : World PackDb) u w' :
  for_each items (insert_link packID version t) w = (inr u, w') ->
  clock w' = clock w /\ same_but_links (store w) (store w') /\
  exists added, links (store w') = links (store w) ++ added /\
    (forall l, l ∈ added -> linked_now packID version t items l) /\
    (indexed (fun _ => true) lk_record (links (store w)) ->
     indexed (fun _ => true) lk_record (links (store w'))) /\
    (forall l it, l ∈ added -> it ∈ items -> lk_record l = it_ID it ->
       linked_record (it_ID it) (store w) = false) /\
    (forall it, it ∈ items -> linked_record (it_ID it) (store w) = true \/
       exists l, l ∈ added /\ lk_record l = it_ID it).
Proof.
  revert w. induction items as [|it items IH]; intros w Hr; simpl in Hr.
  { inv_run. split; [done|]. split; [done|]. exists []. rewrite app_nil_r.
    split; [done|]. split; [by intros l Hl%elem_of_nil|]. split; [done|].
    split; [by intros l it Hl%elem_of_nil|by intros it Hl%elem_of_nil]. }
  apply bind_inr in Hr as (a & w1 & E & Hr). apply IH in Hr as (Hc & Hsame & added & Hl & Hnow & Hi & Hfree & Hall).
  unfold insert_link in E. apply insert_row_inr in E as [E Hc1].
  destruct (negb (digest_ok _)); [discriminate|].
  destruct (linked_record (it_ID it) (store w)) eqn:Ek; injection E as E.
  - rewrite <- E in *. split; [congruence|]. split; [done|]. exists added. split; [done|].
    split; [|split; [done|split]].
    + intros l Hin. destruct (Hnow l Hin) as (H1 & H2 & i & H3 & H4). split; [done|].
      split; [done|]. exists i. split; [by right|done].
    + intros l i Hin Hit Hid. apply elem_of_cons in Hit as [->|Hit]; [|by eapply Hfree].
      destruct (Hnow l Hin) as (_ & _ & i2 & H3 & H4 & _).
      rewrite <- Hid, H4. eapply Hfree; [exact Hin|exact H3|exact H4].
    + intros i Hit. apply elem_of_cons in Hit as [->|Hit]; [by left|auto].
  - set (l0 := MkLinkRow packID (it_ID it) version (it_PayloadDigest it) t) in *.
    assert (Hlk : forall id, linked_record id (store w1) = linked_record id (store w) || (it_ID it =? id)).
    { intros id. unfold linked_record, any_where. rewrite <- E. simpl.
      rewrite existsb_app. simpl. by rewrite orb_false_r. }
    split; [congruence|]. split; [by rewrite <- E in Hsame|]. exists (l0 :: added).
    rewrite Hl, <- E. simpl. rewrite <- app_assoc. split; [done|]. split; [|split; [|split]].
    + intros l Hin. apply elem_of_cons in Hin as [->|Hin].
      { split; [done|]. split; [done|]. exists it. split; [by left|done]. }
      destruct (Hnow l Hin) as (H1 & H2 & i & H3 & H4). split; [done|].
      split; [done|]. exists i. split; [by right|done].
    + intros Hix. rewrite Hl in Hi. rewrite <- E in Hi. simpl in Hi. rewrite <- app_assoc in Hi.
      apply Hi. apply (indexed_snoc Z.eqb Z.eqb_eq); [done|].
      apply (clashes_false Z.eqb Z.eqb_eq). intros _ l Hin _ He.
      eapply (any_where_false _ _) in Ek; [|exact Hin]. simpl in Ek, He. b2p. congruence.
    + intros l i Hin Hit Hid. apply elem_of_cons in Hin as [->|Hin].
      { simpl in Hid. by rewrite <- Hid. }
      destruct (Hnow l Hin) as (_ & _ & i2 & H3 & H4 & _).
      specialize (Hfree l i2 Hin H3 H4). rewrite Hlk in Hfree. b2p. rewrite <- Hid, H4. tauto.
    + intros i Hit. apply elem_of_cons in Hit as [->|Hit].
      { right. exists l0. split; [by left|done]. }
      destruct (Hall i Hit) as [Hk|(l & Hin & He)].
      * rewrite Hlk in Hk. b2p. destruct Hk as [?|<-]; [by left|].
        right. exists l0. split; [by left|done].
      * right. exists l. split; [by right|done].
Qed.

(** A verification's transaction. *)
Lemma MarkVerified_inr packID items version (w : World PackDb) u w' :
  MarkVerified packID items version w = (inr u, w') ->
  exists p added, p ∈ packs (store w) /\ pk_pack p = packID /\ pk_state p = PackLocked /\
    pk_version p = version /\ pk_count p = Z.of_nat (length items) /\
    (forall l, l ∈ added -> linked_now packID version (clock w) items l) /\
    (indexed (fun _ => true) lk_record (links (store w)) ->
     indexed (fun _ => true) lk_record (links (store w) ++ added)) /\
    (forall l it, l ∈ added -> it ∈ items -> lk_record l = it_ID it ->
       linked_record (it_ID it) (store w) = false) /\
    (forall it, it ∈ items -> linked_record (it_ID it) (store w) = true \/
       exists l, l ∈ added /\ lk_record l = it_ID it) /\
    store w' = archive_records packID
      (update_pack (fun q => is_pack packID q && in_states [PackLocked] q) (set_pk_verified (clock w))
         (with_links (links (store w) ++ added) (store w))).
Proof.
  intros Hr. unfold MarkVerified in Hr.
  apply tx_inr in Hr as (w0 & Hs & Hc & [(w1 & Hb & Hw)|(w1 & Hb & _)]); [|inv_run; discriminate].
  apply bind_inr in Hb as (t & wa & Et & Hb). apply now_inr in Et as [-> ->].
  apply bind_inr in Hb as (n & wb & Eq & Hb).
  unfold catch in Eq. destruct (query_row _ w0) as [[e|n0] wq] eqn:Eqr; [discriminate|].
  injection Eq as <- <-. apply query_row_inr in Eqr as (Hf & Hs1 & Hc1).
  destruct (first_where _ _) as [p|] eqn:Ef; [|discriminate]. simpl in Hf. injection Hf as <-.
  apply first_where_some in Ef as [Hp Hpp].
  apply bind_inr in Hb as (? & wc & Eg & Hb). apply guard_inr in Eg as [Hg ->].
  apply bind_inr in Hb as (? & wd & El & Hb).
  apply insert_links_inr in El as (Hc2 & Hsame & added & Hl & Hnow & Hi & Hfree & Hall).
  apply bind_inr in Hb as (? & we & Ec & Hb). apply cas_inr in Ec as (Hs2 & Hc3 & _).
  apply bind_inr in Hb as (? & wf & Ee & Hb). apply exec_inr in Ee as (Hs3 & _).
  apply ret_inr in Hb as [_ ->].
  assert (Hd : store wd = with_links (links (store w) ++ added) (store w)).
  { rewrite <- Hs, <- Hs1. by apply same_but_links_eq. }
  exists p, added. rewrite Hs in Hp. unfold is_pack, in_states in Hpp. simpl in Hpp. b2p.
  destruct Hpp as [[H1 [H2|H2]] H3]; [|done]. apply bool_decide_eq_true in H2.
  rewrite Hs1, Hs in *.
  rewrite Hw, Hs3, Hs2, Hd, <- Hc. rewrite Hl in Hi. repeat (split; [done|]).
  done.
Qed.

(** ** The system *)

Section System.
Context {T : Type} `{OS : ObjectStore T} {WS : WormStore T} {JS : Jsonb}.

(** What the evidence consumers, repairs and other components do. *)
Inductive evidence_moves : EvDb -> EvDb -> Prop :=
| em_ingest d fl t consumer evs x w' :
    IngestBatch consumer evs (MkWorld d fl t) = (inr x, w') -> evidence_moves d (store w')
| em_repair d fl t n w' :
    RepairQuarantined (MkWorld d fl t) = (inr n, w') -> evidence_moves d (store w')
| em_base d b : evidence_moves d (with_base b d).

(** The items of a window are records of the index. *)
Definition from_index (d : PackDb) (items : list Item) : Prop :=
  forall it, it ∈ items ->
  exists r, r ∈ records (evidence d) /\ ev_id r = it_ID it /\ ev_digest r = it_PayloadDigest it.

(** One statement or transaction of the ledger, by any process. *)
Inductive ledger_op (t : T) (d : PackDb) (fl : list bool) (c : Z) : PackDb -> Prop :=
| lo_claim n pv x w' :
    ClaimWindow n pv (MkWorld d fl c) = (inr x, w') -> ledger_op t d fl c (store w')
| lo_writing id w' :
    MarkWriting id (MkWorld d fl c) = (inr tt, w') -> ledger_op t d fl c (store w')
| lo_written id v dg p body u w' : (* a version the process has stored at the pack's key *)
    p ∈ packs d -> pk_pack p = id -> holds t (pk_bucket p) (pk_key p) v body u ->
    dg = sha256_digest body ->
    MarkWritten id v dg (MkWorld d fl c) = (inr tt, w') -> ledger_op t d fl c (store w')
| lo_locked id u w' :
    MarkLocked id u (MkWorld d fl c) = (inr tt, w') -> ledger_op t d fl c (store w')
| lo_extend id u w' :
    PackStore.ExtendRetention id u (MkWorld d fl c) = (inr tt, w') -> ledger_op t d fl c (store w')
| lo_verified id items v w' :
    from_index d items ->
    MarkVerified id items v (MkWorld d fl c) = (inr tt, w') -> ledger_op t d fl c (store w')
| lo_failed id st reason w' :
    MarkFailed id st reason (MkWorld d fl c) = (inr tt, w') -> ledger_op t d fl c (store w')
| lo_hold id h w' :
    cas (fun q => is_pack id q && in_states [PackLocked; PackVerified] q) (set_pk_hold h)
      (MkWorld d fl c) = (inr tt, w') -> ledger_op t d fl c (store w')
| lo_cursor consumer last :
    ledger_op t d fl c (advance_cursor consumer last c d)
| lo_locks l : ledger_op t d fl c (with_locks l d)
| lo_evidence e : evidence_moves (evidence d) e -> ledger_op t d fl c (with_evidence e d).

Inductive archive_step : PackDb * T -> PackDb * T -> Prop :=
| as_ledger d d' t fl c : ledger_op t d fl c d' -> archive_step (d, t) (d', t)
| as_objects d t t' : keeps_objects t t' -> archive_step (d, t) (d, t').

(** ** The invariant *)

Definition in_lock (p : PackRow) : bool := in_states [PackLocked; PackVerified] p.
(** The object a pack row names exists, with the recorded digest. *)
Definition stored (t : T) (p : PackRow) : Prop :=
  exists body u, holds t (pk_bucket p) (pk_key p) (pk_version p) body u /\
                 pk_manifest p = sha256_digest body.
(** What a link refers to: a verified pack at that version, and a record with
    that digest. *)
Definition grounded (d : PackDb) (l : LinkRow) : Prop :=
  (exists p, p ∈ packs d /\ pk_pack p = lk_pack l /\ pk_state p = PackVerified /\
             pk_version p = lk_version l) /\
  (exists r, r ∈ records (evidence d) /\ ev_id r = lk_record l /\ ev_digest r = lk_digest l).

Definition ids_ok (e : EvDb) : Prop :=
  indexed (fun _ => true) ev_id (records e) /\ forall r, r ∈ records e -> ev_id r < ev_next e.

Record ledger_ok (s : PackDb * T) : Prop := {
  ok_packs : indexed (fun _ => true) pk_pack (packs s.1);
  ok_stored : forall p, p ∈ packs s.1 -> pk_version p <> "" -> stored s.2 p;
  ok_locked : forall p, p ∈ packs s.1 -> in_lock p = true ->
    pk_version p <> "" /\ is_Some (pk_until p);
  ok_links : indexed (fun _ => true) lk_record (links s.1);
  ok_grounded : forall l, l ∈ links s.1 -> grounded s.1 l;
  ok_worm : forall r, r ∈ records (evidence s.1) ->
    ev_worm r = WormArchived <-> linked_record (ev_id r) s.1 = true;
  ok_ids : ids_ok (evidence s.1);
}.

(** *** Updates of one pack row *)

(** What later states keep of a pack: its identity; a verified pack keeps its
    object and its deadline only moves later; a quarantined pack stays. *)
Definition opt_le (a b : option Z) : Prop :=
  forall x, a = Some x -> exists y, b = Some y /\ x <= y.
Definition same_pack (p p' : PackRow) : Prop :=
  pk_id p' = pk_id p /\ pk_pack p' = pk_pack p /\ pk_bucket p' = pk_bucket p /\ pk_key p' = pk_key p /\
  pk_count p' = pk_count p /\ pk_first p' = pk_first p /\ pk_last p' = pk_last p.
Definition pack_later (p p' : PackRow) : Prop :=
  same_pack p p' /\
  (pk_state p = PackVerified ->
     pk_state p' = PackVerified /\ pk_version p' = pk_version p /\
     pk_manifest p' = pk_manifest p /\ opt_le (pk_until p) (pk_until p')) /\
  (pk_state p = PackQuarantined -> p' = p).

Lemma opt_le_refl a : opt_le a a.
Proof using. intros x ->. exists x. split; [done|lia]. Qed.
Lemma opt_le_trans a b c : opt_le a b -> opt_le b c -> opt_le a c.
Proof using.
  intros H1 H2 x Hx. destruct (H1 x Hx) as (y & Hy & ?). destruct (H2 y Hy) as (z & ? & ?).
  exists z. split; [done|lia].
Qed.
Lemma pack_later_refl p : pack_later p p.
Proof using. split; [done|]. split; [|done]. intros. repeat split; [done|apply opt_le_refl]. Qed.
Lemma pack_later_trans a b c : pack_later a b -> pack_later b c -> pack_later a c.
Proof using.
  intros (H1 & H2 & H3) (K1 & K2 & K3). split; [unfold same_pack in *; intuition congruence|]. split.
  - intros Hv. destruct (H2 Hv) as (Hs & Hv2 & Hm & Hu). destruct (K2 Hs) as (Ks & Kv & Km & Ku).
    split; [done|]. split; [congruence|]. split; [congruence|]. by eapply opt_le_trans.
  - intros Hq. pose proof (H3 Hq) as ->. by apply K3.
Qed.

(** An update that keeps the invariant: of rows it selects, it keeps the
    identity, does not lower what is verified, and leaves version, digest and
    deadline such that a stored object and a lock are still there. *)
Record fine (t : T) (d : PackDb) (p : PackRow -> bool) (f : PackRow -> PackRow) : Prop := {
  fine_later : forall r, r ∈ packs d -> p r = true -> pack_later r (f r);
  fine_stored : forall r, r ∈ packs d -> p r = true ->
    (pk_version r <> "" -> stored t r) -> pk_version (f r) <> "" -> stored t (f r);
  fine_locked : forall r, r ∈ packs d -> p r = true ->
    (in_lock r = true -> pk_version r <> "" /\ is_Some (pk_until r)) ->
    in_lock (f r) = true -> pk_version (f r) <> "" /\ is_Some (pk_until (f r));
}.

Lemma in_states_spec l p : in_states l p = true <-> pk_state p ∈ l.
Proof using.
  unfold in_states. rewrite existsb_exists. split.
  - intros (s & Hs & E). apply bool_decide_eq_true in E as ->. by apply list_elem_of_In.
  - intros Hs. exists (pk_state p). split; [by apply list_elem_of_In|by apply bool_decide_eq_true].
Qed.

Lemma update_pack_packs (p : PackRow -> bool) f d r :
  r ∈ packs (update_pack p f d) ->
  exists r0, r0 ∈ packs d /\ r = if p r0 then f r0 else r0.
Proof using.
  unfold update_pack. cbn [packs with_packs]. intros Hr.
  apply elem_of_update_where in Hr as [(r0 & H1 & H2 & ->)|[H1 H2]].
  - exists r0. by rewrite H2.
  - exists r. by rewrite H2.
Qed.
Lemma update_pack_kept (p : PackRow -> bool) f d r :
  r ∈ packs d -> (if p r then f r else r) ∈ packs (update_pack p f d).
Proof using. intros Hr. apply list_elem_of_fmap. by exists r. Qed.

Lemma update_ok t d p f :
  fine t d p f -> ledger_ok (d, t) -> ledger_ok (update_pack p f d, t).
Proof using.
  intros [Hl Hs Hk] [K1 K2 K3 K4 K5 K6 K7]. split; cbn [fst snd] in *; try done.
  - apply indexed_update; [done|]. intros r Hr Hp _. split; [done|].
    by destruct (Hl r Hr Hp) as ((_ & -> & _) & _).
  - intros r Hr Hv. apply update_pack_packs in Hr as (r0 & H0 & ->).
    destruct (p r0) eqn:Ep; [|by apply K2]. apply Hs; auto.
  - intros r Hr Hv. apply update_pack_packs in Hr as (r0 & H0 & ->).
    destruct (p r0) eqn:Ep; [|by apply K3]. apply Hk; auto.
  - intros l Hlk. destruct (K5 l Hlk) as [(q & Hq & E1 & E2 & E3) Hr]. split; [|done].
    exists (if p q then f q else q). split; [by apply update_pack_kept|].
    destruct (p q) eqn:Ep; [|done]. destruct (Hl q Hq Ep) as ((_ & I & _) & V & _).
    destruct (V E2) as (V1 & V2 & _). repeat split; congruence.
Qed.

(** *** The ledger's updates are fine *)

Lemma in_lock_spec p : in_lock p = true <-> pk_state p = PackLocked \/ pk_state p = PackVerified.
Proof using.
  unfold in_lock. rewrite in_states_spec, !elem_of_cons. split; [|tauto].
  intros [?|[?|Hx%elem_of_nil]]; tauto.
Qed.

Ltac pick_row Hp :=
  rewrite ?andb_true_iff, ?in_states_spec in Hp; destruct_and_hyps;
  repeat match goal with
  | H : _ ∈ _ :: _ |- _ => apply elem_of_cons in H as [H|H]
  | H : _ ∈ [] |- _ => by apply elem_of_nil in H
  end.

Lemma fine_writing t d id :
  fine t d (fun p => is_pack id p && in_states [PackPending; PackRetryable] p) set_pk_writing.
Proof using.
  split; intros r Hr Hp; pick_row Hp; try done.
  all: split; [done|]; split; intros E; congruence.
Qed.
Lemma fine_written t d id v dg :
  (exists p body u, p ∈ packs d /\ pk_pack p = id /\ holds t (pk_bucket p) (pk_key p) v body u /\
                    dg = sha256_digest body) ->
  indexed (fun _ => true) pk_pack (packs d) ->
  fine t d (fun p => is_pack id p && in_states [PackWriting] p) (set_pk_written v dg).
Proof using.
  intros (p & body & u & Hin & Hid & Hh & ->) Hi. split; intros r Hr Hp; pick_row Hp.
  - split; [done|]. split; intros E; congruence.
  - intros _ _. exists body, u. split; [|done]. simpl.
    assert (r = p) as ->; [|done]. eapply (indexed_elem (fun _ => true) pk_pack); eauto.
    unfold is_pack in *. b2p. congruence.
  - intros _ E. apply in_lock_spec in E. simpl in E. destruct E; congruence.
Qed.
Lemma fine_marked_locked t d id u c :
  fine t d (fun p => is_pack id p && in_states [PackWriting] p && negb (pk_version p =s ""))
           (set_pk_locked u c).
Proof using.
  split; intros r Hr Hp; pick_row Hp; try done.
  - split; [done|]. split; intros E; congruence.
  - intros _ _. split; [|by eexists]. simpl. b2p. done.
Qed.
Lemma fine_extend t d id u :
  fine t d (fun p => is_pack id p && in_states [PackLocked; PackVerified] p &&
                     match pk_until p with Some x => x <? u | None => false end) (set_pk_until u).
Proof using.
  split; intros r Hr Hp.
  - split; [done|]. split.
    + intros Hv. do 3 (split; [done|]). intros x Hx. exists u. split; [done|].
      apply andb_true_iff in Hp as [_ Hp]. rewrite Hx in Hp. b2p. lia.
    + intros Hq. exfalso. pick_row Hp; congruence.
  - done.
  - intros Hl Hk. split; [by apply Hl|by eexists].
Qed.
Lemma fine_verified t d id c :
  fine t d (fun p => is_pack id p && in_states [PackLocked] p) (set_pk_verified c).
Proof using.
  split; intros r Hr Hp; pick_row Hp; try done.
  - split; [done|]. split; intros E; congruence.
  - intros Hl _. apply Hl, in_lock_spec. by left.
Qed.
Lemma fine_failed t d id st reason :
  st = PackRetryable \/ st = PackQuarantined ->
  fine t d (fun p => is_pack id p &&
                     in_states [PackPending; PackWriting; PackRetryable; PackLocked] p)
           (set_pk_failed st reason).
Proof using.
  intros Hst. split; intros r Hr Hp; pick_row Hp; try done.
  all: try (split; [done|]; split; intros E; congruence).
  all: intros _ E; apply in_lock_spec in E; simpl in E; destruct E, Hst; congruence.
Qed.
Lemma fine_hold t d id h :
  fine t d (fun p => is_pack id p && in_states [PackLocked; PackVerified] p) (set_pk_hold h).
Proof using.
  split; intros r Hr Hp; try done. split; [done|]. split.
  - intros E. do 3 (split; [done|]). apply opt_le_refl.
  - intros E. exfalso. pick_row Hp; congruence.
Qed.

(** *** Evidence *)

(** Records keep their identity and digest; new ones are not archived. *)
Record records_move (d d' : EvDb) : Prop := {
  rm_kept : rows_kept ev_later (records d) (records d');
  rm_new : forall i r, records d' !! i = Some r -> (length (records d) <= i)%nat ->
    ev_worm r = WormNone /\ ev_next d <= ev_id r;
  rm_ids : ids_ok d -> ids_ok d';
  rm_next : ev_next d <= ev_next d';
}.

Lemma absorb_records_move t d ev : records_move d (absorb t d ev).
Proof using.
  unfold absorb. destruct (is_known _ _).
  { split; [apply rows_kept_refl, ev_later_refl| |done|lia].
    intros i r Hi Hl. apply lookup_lt_Some in Hi. lia. }
  destruct (jsonb_in _) as [c|].
  2:{ split; [apply rows_kept_refl, ev_later_refl| |done|lia].
      intros i r Hi Hl. apply lookup_lt_Some in Hi. lia. }
  split; cbn [records push_record ev_next].
  - apply rows_kept_app, ev_later_refl.
  - intros i r Hi Hl. apply lookup_app_Some in Hi as [Hi|[_ Hi]]; [apply lookup_lt_Some in Hi; lia|].
    apply list_lookup_singleton_Some in Hi as [_ <-]. split; [done|]. simpl. lia.
  - intros [Hi Hn]. split; simpl.
    + apply (indexed_snoc Z.eqb Z.eqb_eq); [done|]. apply (clashes_false Z.eqb Z.eqb_eq).
      intros _ r Hr _. specialize (Hn r Hr). simpl. lia.
    + intros r Hr. apply elem_of_app in Hr as [Hr|Hr]; [specialize (Hn r Hr); lia|].
      apply list_elem_of_singleton in Hr as ->. simpl. lia.
  - lia.
Qed.
Lemma records_move_trans a b c : records_move a b -> records_move b c -> records_move a c.
Proof using.
  intros [A1 A2 A3 A4] [B1 B2 B3 B4]. split; [| |auto|lia].
  - eapply rows_kept_trans; eauto using ev_later_trans.
  - intros i r Hi Hl. destruct (le_lt_dec (length (records b)) i) as [Hb|Hb].
    + destruct (B2 i r Hi Hb). split; [done|lia].
    + destruct (records b !! i) as [r0|] eqn:E; [|apply lookup_ge_None in E; lia].
      destruct (A2 i r0 E Hl) as [Hw Hid]. destruct (B1 i r0 E) as (r1 & H1 & Hlater).
      assert (r1 = r) as -> by congruence. by destruct Hlater as [->|[_ [t ->]]].
Qed.
Lemma absorb_all_records_move t evs d : records_move d (absorb_all t evs d).
Proof using.
  revert d. induction evs as [|ev evs IH]; intros d; simpl.
  - split; [apply rows_kept_refl, ev_later_refl| |done|lia].
    intros i r Hi Hl. apply lookup_lt_Some in Hi. lia.
  - eapply records_move_trans; [apply absorb_records_move|apply IH].
Qed.
Lemma records_move_same d d' :
  records d' = records d -> ev_next d' = ev_next d -> records_move d d'.
Proof using.
  intros E1 E2. split; rewrite ?E1, ?E2; [apply rows_kept_refl, ev_later_refl| | |lia].
  - intros i r Hi Hl. apply lookup_lt_Some in Hi. lia.
  - unfold ids_ok. by rewrite E1, E2.
Qed.
Lemma evidence_moves_records d d' : evidence_moves d d' -> records_move d d'.
Proof using.
  intros [d0 fl t consumer evs [created q] w' Hr|d0 fl t n w' Hr|d0 b].
  - destruct evs as [|ev evs].
    { injection Hr as _ _ <-. by apply records_move_same. }
    apply IngestBatch_inr in Hr as (-> & _); [|done]. cbn [store clock].
    set (l := ev :: evs). eapply records_move_trans; [apply (absorb_all_records_move t l)|].
    apply records_move_same; unfold advance; by destruct (any_where _ _).
  - apply repair_inr in Hr as [-> _]. cbn [store clock].
    split; cbn [records with_records ev_next].
    + apply rows_kept_update; [apply ev_later_refl|]. intros r Hr. right. unfold repairable in Hr.
      apply andb_true_iff in Hr as [Hr _]. apply andb_true_iff in Hr as [Hr _].
      apply bool_decide_eq_true in Hr. eauto.
    + intros i r Hi Hl. apply lookup_lt_Some in Hi. rewrite length_update_where in Hi. lia.
    + intros [Hi Hn]. split; cbn [records with_records ev_next].
      * by apply indexed_update.
      * intros r Hr. apply elem_of_update_where in Hr as [(r0 & H0 & _ & ->)|[Hr _]];
          [exact (Hn r0 H0)|exact (Hn r Hr)].
    + lia.
  - by apply records_move_same.
Qed.

Lemma ev_later_same r r' :
  ev_later r r' -> ev_id r' = ev_id r /\ ev_digest r' = ev_digest r /\ ev_worm r' = ev_worm r.
Proof using. by intros [->|[_ [t ->]]]. Qed.

Lemma ledger_evidence d t e :
  records_move (evidence d) e -> ledger_ok (d, t) -> ledger_ok (with_evidence e d, t).
Proof using.
  intros [Hk Hn Hi _] [K1 K2 K3 K4 K5 K6 K7]. split; cbn [fst snd] in *; try done; [| |by apply Hi].
  - intros l Hl. destruct (K5 l Hl) as [Hp (r & Hr & E1 & E2)]. split; [done|].
    apply list_elem_of_lookup_1 in Hr as [i Hr]. destruct (Hk i r Hr) as (r' & Hr' & Hlater).
    apply ev_later_same in Hlater as (F1 & F2 & _). exists r'.
    split; [by eapply list_elem_of_lookup_2|]. split; congruence.
  - intros r Hr. cbn [evidence with_evidence] in Hr. apply list_elem_of_lookup_1 in Hr as [i Hr].
    change (linked_record (ev_id r) (with_evidence e d)) with (linked_record (ev_id r) d).
    destruct (records (evidence d) !! i) as [r0|] eqn:E.
    + destruct (Hk i r0 E) as (r' & Hr' & Hlater). assert (r' = r) as -> by congruence.
      apply ev_later_same in Hlater as (-> & _ & ->). apply K6. by eapply list_elem_of_lookup_2.
    + apply lookup_ge_None in E. destruct (Hn i r Hr E) as [-> Hid]. split; [done|].
      intros Hlk. apply any_where_spec in Hlk as (l & Hl & Hid').
      destruct (K5 l Hl) as [_ (r0 & Hr0 & E1 & _)]. destruct K7 as [_ Hlt].
      specialize (Hlt r0 Hr0). b2p. lia.
Qed.

(** *** Claims *)

Lemma ClaimWindow_inr n pv (w : World PackDb) x w' :
  ClaimWindow n pv w = (inr x, w') ->
  let records := window (if n <=? 0 then 100 else n) (store w) in
  (records = [] /\ x = ("", [], false) /\ store w' = store w) \/
  (records <> [] /\
   let known := any_where (is_pack (Digest pv records)) (packs (store w)) in
   x = (Digest pv records, records, negb known) /\
   store w' = if known then store w
              else MkPackDb (evidence (store w))
                     (packs (store w) ++ [new_pack (pk_next (store w)) (Digest pv records) records])
                     (links (store w)) (cursors (store w)) (locks (store w)) (pk_next (store w) + 1)).
Proof using.
  intros Hr. unfold ClaimWindow in Hr.
  apply tx_inr in Hr as (w0 & Hs & Hc & [(w1 & Hb & Hw)|(w1 & Hb & Hw)]);
    apply bind_inr in Hb as (recs & wa & Eq & Hb); apply query_inr in Eq as (-> & Hs1 & _);
    rewrite Hs in *; set (recs := window _ _) in *; cbv zeta.
  - right. destruct recs as [|it recs'] eqn:E; [inv_run; discriminate|]. rewrite <- E in *.
    split; [by rewrite E|]. apply bind_inr in Hb as (k & wb & Ek & Hb).
    unfold insert_pack in Ek. apply exec_n_inr in Ek as [Ek _]. apply ret_inr in Hb as [Hx ->].
    injection Hx as ->. rewrite Hs1 in Ek.
    destruct (any_where _ _); injection Ek as <- Ek; (split; [done|]); by rewrite Hw, <- Ek.
  - left. destruct recs as [|it recs'] eqn:E; [|inv_run; discriminate]. by inv_run; repeat match goal with E : Rollback _ = Rollback _ |- _ => injection E as -> end.
Qed.

Lemma ledger_claim d t n pv fl c x w' :
  ledger_ok (d, t) -> ClaimWindow n pv (MkWorld d fl c) = (inr x, w') -> ledger_ok (store w', t).
Proof using.
  intros Hok Hr. apply ClaimWindow_inr in Hr as [(_ & _ & ->)|(_ & _ & ->)]; [done|].
  cbn [store]. destruct (any_where _ _) eqn:Ek; [done|].
  destruct Hok as [K1 K2 K3 K4 K5 K6 K7]. cbn [fst snd] in *.
  set (p0 := new_pack _ _ _). split; cbn [fst snd evidence packs links cursors locks]; try done.
  - apply (indexed_snoc String.eqb String.eqb_eq); [done|].
    apply (clashes_false String.eqb String.eqb_eq). intros _ p Hp _ He.
    eapply (any_where_false _ _) in Ek; [|exact Hp]. unfold is_pack in Ek. b2p. by apply Ek.
  - intros p Hp. apply elem_of_app in Hp as [Hp|Hp]; [by apply K2|].
    by apply list_elem_of_singleton in Hp as ->.
  - intros p Hp. apply elem_of_app in Hp as [Hp|Hp]; [by apply K3|].
    apply list_elem_of_singleton in Hp as ->. done.
  - intros l Hl. destruct (K5 l Hl) as [(p & Hp & Hrest) Hrec]. split; [|done].
    exists p. split; [apply elem_of_app; by left|done].
Qed.

(** *** Verification *)

Lemma archive_records_elem id d r :
  r ∈ records (evidence (archive_records id d)) ->
  exists r0, r0 ∈ records (evidence d) /\
    r = if in_pack id d (ev_id r0) then set_ev_worm WormArchived r0 else r0.
Proof using.
  unfold archive_records. cbn [evidence with_evidence records with_records]. intros Hr.
  apply elem_of_update_where in Hr as [(r0 & H1 & H2 & ->)|[H1 H2]].
  - exists r0. by rewrite H2.
  - exists r. by rewrite H2.
Qed.
Lemma archive_records_kept id d r :
  r ∈ records (evidence d) ->
  exists r', r' ∈ records (evidence (archive_records id d)) /\ ev_id r' = ev_id r /\
             ev_digest r' = ev_digest r.
Proof using.
  intros Hr. exists (if in_pack id d (ev_id r) then set_ev_worm WormArchived r else r).
  split; [apply list_elem_of_fmap; by exists r|]. by destruct (in_pack _ _ _).
Qed.

Lemma linked_record_spec id d :
  linked_record id d = true <-> exists l, l ∈ links d /\ lk_record l = id.
Proof using.
  unfold linked_record. rewrite any_where_spec.
  split; intros (l & Hl & E); exists l; (split; [done|]); by apply Z.eqb_eq.
Qed.
Lemma in_pack_spec id d k :
  in_pack id d k = true <-> exists l, l ∈ links d /\ lk_pack l = id /\ lk_record l = k.
Proof using.
  unfold in_pack. rewrite any_where_spec. split; intros (l & Hl & E); exists l; (split; [done|]).
  - b2p. done.
  - apply andb_true_iff. by rewrite String.eqb_eq, Z.eqb_eq.
Qed.

Lemma verified_ok d t id items v fl c w' :
  ledger_ok (d, t) -> from_index d items ->
  MarkVerified id items v (MkWorld d fl c) = (inr tt, w') -> ledger_ok (store w', t).
Proof using.
  intros Hok Hfrom Hr.
  apply MarkVerified_inr in Hr as (p & added & Hp & Hid & Hst & Hv & _ & Hnow & Hi & _ & _ & ->).
  cbn [store clock] in *. pose proof (update_ok _ _ _ _ (fine_verified t d id c) Hok) as Hup.
  set (q := fun q => is_pack id q && in_states [PackLocked] q) in *.
  destruct Hup as [K1 K2 K3 _ K5 _ _]. destruct Hok as [_ _ _ J4 _ J6 J7]. cbn [fst snd] in *.
  set (d1 := update_pack q (set_pk_verified c) (with_links (links d ++ added) d)).
  assert (Hpk : packs (archive_records id d1) = packs (update_pack q (set_pk_verified c) d)) by done.
  assert (Hlk : links (archive_records id d1) = links d ++ added) by done.
  assert (Hnewp : set_pk_verified c p ∈ packs (update_pack q (set_pk_verified c) d)).
  { assert (q p = true) as Eq.
    { unfold q, is_pack. rewrite Hid, str_eqb_refl. apply in_states_spec. rewrite Hst. by left. }
    pose proof (update_pack_kept q (set_pk_verified c) d p Hp) as Hin. by rewrite Eq in Hin. }
  split; cbn [fst snd]; rewrite ?Hpk, ?Hlk; [done|done|done|by apply Hi| | |].
  - intros l Hl. apply elem_of_app in Hl as [Hl|Hl].
    + destruct (K5 l Hl) as [Hpack (r & Hr & E1 & E2)]. split; [done|].
      destruct (archive_records_kept id d1 r Hr) as (r' & Hr' & F1 & F2). exists r'.
      split; [done|]. split; congruence.
    + destruct (Hnow l Hl) as (E1 & E2 & it & Hit & E3 & E4). split.
      * exists (set_pk_verified c p). split; [by rewrite Hpk|]. simpl. by rewrite E1, E2.
      * destruct (Hfrom it Hit) as (r & Hr & F1 & F2).
        destruct (archive_records_kept id d1 r Hr) as (r' & Hr' & G1 & G2). exists r'.
        split; [done|]. split; congruence.
  - intros r Hr. apply archive_records_elem in Hr as (r0 & Hr0 & ->).
    assert (Hlink : forall k, linked_record k (archive_records id d1) = true <->
      linked_record k d = true \/ exists l, l ∈ added /\ lk_record l = k).
    { intros k. rewrite !linked_record_spec, Hlk. setoid_rewrite elem_of_app.
      split; [intros (l & [Hl|Hl] & E); eauto|]. intros [(l & Hl & E)|(l & Hl & E)]; eauto. }
    assert (Hin : in_pack id d1 (ev_id r0) = true <->
      exists l, (l ∈ links d \/ l ∈ added) /\ lk_pack l = id /\ lk_record l = ev_id r0).
    { rewrite in_pack_spec. change (links d1) with (links d ++ added). by setoid_rewrite elem_of_app. }
    destruct (in_pack id d1 (ev_id r0)) eqn:E; simpl.
    + split; [|done]. intros _. apply Hlink.
      destruct (proj1 Hin eq_refl) as (l & [Hl|Hl] & _ & El); [left|right; eauto].
      apply linked_record_spec. eauto.
    + rewrite (J6 r0 Hr0), Hlink. split; [by left|]. intros [?|(l & Hl & El)]; [done|].
      destruct (Hnow l Hl) as (E1 & _). exfalso. assert (false = true); [|done]. apply Hin. eauto.
  - destruct J7 as [Hx Hlt]. split.
    + apply indexed_update; [done|]. by intros r _ _ _.
    + intros r Hr. apply archive_records_elem in Hr as (r0 & Hr0 & ->). specialize (Hlt r0 Hr0).
      by destruct (in_pack _ _ _).
Qed.

(** *** Steps *)

Lemma failed_inr id st reason (w : World PackDb) u w' :
  MarkFailed id st reason w = (inr u, w') ->
  (st = PackRetryable \/ st = PackQuarantined) /\
  store w' = update_pack (fun p => is_pack id p &&
               in_states [PackPending; PackWriting; PackRetryable; PackLocked] p)
               (set_pk_failed st reason) (store w).
Proof using.
  intros Hr. unfold MarkFailed in Hr. apply bind_inr in Hr as (x & w1 & Hg & Hr).
  apply guard_inr in Hg as [Hg ->]. apply cas_inr in Hr as [-> _]. split; [|done].
  destruct st; simpl in Hg; auto; discriminate.
Qed.
Lemma extend_inr id u (w : World PackDb) x w' :
  PackStore.ExtendRetention id u w = (inr x, w') ->
  store w' = update_pack (fun p => is_pack id p && in_states [PackLocked; PackVerified] p &&
                            match pk_until p with Some y => y <? u | None => false end)
               (set_pk_until u) (store w).
Proof using.
  intros Hr. unfold PackStore.ExtendRetention, update_n in Hr. apply bind_inr in Hr as (n & w1 & E & Hr).
  apply exec_n_inr in E as [E _]. injection E as <- E. destruct (_ =? 0).
  - apply bind_inr in Hr as (o & w2 & _ & Hr). destruct o; discriminate.
  - by apply ret_inr in Hr as [_ ->].
Qed.
Lemma locked_inr id u (w : World PackDb) x w' :
  MarkLocked id u w = (inr x, w') ->
  store w' = update_pack (fun p => is_pack id p && in_states [PackWriting] p &&
                            negb (pk_version p =s "")) (set_pk_locked u (clock w)) (store w).
Proof using.
  intros Hr. unfold MarkLocked in Hr. apply bind_inr in Hr as (t & w1 & E & Hr).
  apply now_inr in E as [-> ->]. by apply cas_inr in Hr as [-> _].
Qed.

(** A ledger operation updates one pack's row, or is one of the others. *)
Lemma ledger_op_ok t d fl c d' :
  ledger_op t d fl c d' -> ledger_ok (d, t) ->
  ledger_ok (d', t) /\ rows_kept pack_later (packs d) (packs d') /\ extends (links d) (links d').
Proof using.
  assert (Hupd : forall p f, fine t d p f -> ledger_ok (d, t) ->
    ledger_ok (update_pack p f d, t) /\ rows_kept pack_later (packs d) (packs (update_pack p f d)) /\
    extends (links d) (links (update_pack p f d))).
  { intros p f Hf Hok. split; [by apply update_ok|]. split; [|apply extends_refl].
    apply rows_kept_update_in; [apply pack_later_refl|]. apply (fine_later _ _ _ _ Hf). }
  assert (Hsame : rows_kept pack_later (packs d) (packs d)) by apply rows_kept_refl, pack_later_refl.
  intros Hop Hok. destruct Hop.
  - split; [by eapply ledger_claim|]. apply ClaimWindow_inr in H as [(_ & _ & ->)|(_ & _ & ->)]; [by split|].
    destruct (any_where _ _); [by split|]. split; [apply rows_kept_app, pack_later_refl|apply extends_refl].
  - apply cas_inr in H as [-> _]. apply Hupd; [apply fine_writing|done].
  - apply cas_inr in H3 as [-> _]. apply Hupd; [|done].
    apply fine_written; [eauto 10|apply (ok_packs _ Hok)].
  - apply locked_inr in H as ->. apply Hupd; [apply fine_marked_locked|done].
  - apply extend_inr in H as ->. apply Hupd; [apply fine_extend|done].
  - split; [by eapply verified_ok|]. pose proof (Hupd _ _ (fine_verified t d id c) Hok) as (_ & Hk & _).
    apply MarkVerified_inr in H0 as (p & added & _ & _ & _ & _ & _ & _ & _ & _ & _ & ->).
    split; [exact Hk|]. by exists added.
  - apply failed_inr in H as [Hst ->]. apply Hupd; [by apply fine_failed|done].
  - apply cas_inr in H as [-> _]. apply Hupd; [apply fine_hold|done].
  - unfold advance_cursor. destruct (any_where _ _); (split; [by destruct Hok|by split]).
  - split; [by destruct Hok|by split].
  - split; [by apply ledger_evidence, Hok; apply evidence_moves_records|by split].
Qed.

Lemma ledger_objects d t t' : keeps_objects t t' -> ledger_ok (d, t) -> ledger_ok (d, t').
Proof using.
  intros Hk [K1 K2 K3 K4 K5 K6 K7]. split; try done. intros p Hp Hv.
  destruct (K2 p Hp Hv) as (body & u & Hh & Hm). destruct (Hk _ _ _ _ _ Hh) as (u' & _ & Hh').
  exists body, u'. by split.
Qed.

(** What every later state keeps: packs, links, stored objects. *)
Definition archive_later (s s' : PackDb * T) : Prop :=
  rows_kept pack_later (packs s.1) (packs s'.1) /\ extends (links s.1) (links s'.1) /\
  keeps_objects s.2 s'.2.
Lemma keeps_objects_refl t : keeps_objects t t.
Proof using. intros b k v body u Hh. exists u. split; [lia|done]. Qed.
Lemma keeps_objects_trans a b c : keeps_objects a b -> keeps_objects b c -> keeps_objects a c.
Proof using.
  intros H1 H2 bk k v body u Hh. destruct (H1 _ _ _ _ _ Hh) as (u1 & ? & Hh1).
  destruct (H2 _ _ _ _ _ Hh1) as (u2 & ? & ?). exists u2. split; [lia|done].
Qed.

Lemma archive_step_ok s s' : archive_step s s' -> ledger_ok s -> ledger_ok s' /\ archive_later s s'.
Proof using.
  intros [d d' t fl c Hop|d t t' Hk] Hok.
  - destruct (ledger_op_ok _ _ _ _ _ Hop Hok) as (H1 & H2 & H3). split; [done|].
    split; [done|]. split; [done|]. apply keeps_objects_refl.
  - split; [by eapply ledger_objects|]. split; [apply rows_kept_refl, pack_later_refl|].
    split; [apply extends_refl|done].
Qed.
Lemma star_archive s s' :
  star archive_step s s' -> ledger_ok s -> ledger_ok s' /\ archive_later s s'.
Proof using.
  intros Hst Hok. induction Hst as [|s1 s2 s3 Hst IH Hs].
  - split; [done|]. split; [apply rows_kept_refl, pack_later_refl|].
    split; [apply extends_refl|apply keeps_objects_refl].
  - destruct (IH Hok) as (Hok2 & L1 & L2 & L3). destruct (archive_step_ok _ _ Hs Hok2) as (Hok3 & M1 & M2 & M3).
    split; [done|]. split; [eapply rows_kept_trans; eauto using pack_later_trans|].
    split; [by eapply extends_trans|by eapply keeps_objects_trans].
Qed.

(** ** A tick of the archive process is a history *)

Section Simulation.
Context (error_text : err -> string) (hashtext : string -> Z).
Context (policyVersion : string) (retentionDays : Z).
Implicit Types (P : Archiver T -> Prop).
Abbreviation Ar := (M (Archiver T)).

Definition pair_of (s : Archiver T) : PackDb * T := (ar_db s, ar_objects s).
(** [m], from a state with [P], goes by steps of the system; a value it returns
    satisfies [Q] with the state it ends in. *)
Definition goes {X} P (m : Ar X) (Q : X -> Archiver T -> Prop) : Prop :=
  forall w x w', P (store w) -> m w = (x, w') ->
  star archive_step (pair_of (store w)) (pair_of (store w')) /\
  forall a, x = inr a -> Q a (store w').

Lemma goes_bind {X Y} P (m : Ar X) Q (k : X -> Ar Y) R :
  goes P m Q -> (forall a, goes (Q a) (k a) R) -> goes P (bind m k) R.
Proof using.
  intros Hm Hk w y w' HP Hr. unfold bind in Hr. destruct (m w) as [[e|a] w1] eqn:E.
  - injection Hr as <- <-. destruct (Hm _ _ _ HP E) as [Hst _]. by split.
  - destruct (Hm _ _ _ HP E) as [Hst HQ]. destruct (Hk a _ _ _ (HQ a eq_refl) Hr) as [Hst2 HR].
    split; [by eapply star_trans|done].
Qed.
Lemma goes_ret {X} P (a : X) (Q : X -> Archiver T -> Prop) :
  (forall s, P s -> Q a s) -> goes P (ret a) Q.
Proof using. intros HQ w x w' HP [= <- <-]. split; [apply star_refl|]. intros b [= <-]. auto. Qed.
Lemma goes_throw {X} P e (Q : X -> Archiver T -> Prop) : goes P (throw e) Q.
Proof using. intros w x w' _ [= <- <-]. split; [apply star_refl|done]. Qed.
Lemma goes_guard P b e : goes P (guard b e) (fun _ => P).
Proof using. destruct b; [apply goes_throw|by apply goes_ret]. Qed.
Lemma goes_now P : goes P now (fun _ => P).
Proof using. intros w x w' HP [= <- <-]. split; [apply star_refl|]. intros b _. done. Qed.
Lemma goes_attempt {X} P (m : Ar X) Q :
  goes P m Q -> goes P (attempt m) (fun r s => forall a, r = inr a -> Q a s).
Proof using.
  intros Hm w x w' HP Hr. unfold attempt in Hr. destruct (m w) as [r w1] eqn:E.
  injection Hr as <- <-. destruct (Hm _ _ _ HP E) as [Hst HQ]. split; [done|]. by intros b [= <-].
Qed.
Lemma goes_weaken {X} P P' (m : Ar X) (Q Q' : X -> Archiver T -> Prop) :
  goes P' m Q' -> (forall s, P s -> P' s) -> (forall a s, Q' a s -> Q a s) -> goes P m Q.
Proof using.
  intros Hm HP HQ w x w' H0 Hr. destruct (Hm _ _ _ (HP _ H0) Hr) as [Hst H1]. eauto.
Qed.

(** An operation of the ledger: nothing, or one of the system's. *)
Lemma goes_db {X} P (m : M PackDb X) (Q : X -> Archiver T -> Prop) :
  (forall d t fl c x w', P (MkArchiver d t) -> m (MkWorld d fl c) = (x, w') ->
     (store w' = d \/ ledger_op t d fl c (store w')) /\
     forall a, x = inr a -> Q a (MkArchiver (store w') t)) ->
  goes P (with_db m) Q.
Proof using.
  intros Hm [[d t] fl c] x w' HP Hr. unfold with_db, zoom in Hr. cbn [store ar_db faults clock] in Hr.
  destruct (m _) as [r v] eqn:E. injection Hr as <- <-. destruct (Hm _ _ _ _ _ _ HP E) as [Hst HQ].
  split; [|done]. unfold pair_of. simpl. destruct Hst as [->|Hop]; [apply star_refl|].
  apply star_one. by eapply as_ledger.
Qed.
(** A call of the object store. *)
Lemma goes_call {X} P (f : T -> (err + X) * Z * T) (Q : X -> Archiver T -> Prop) :
  (forall d t r dt t', P (MkArchiver d t) -> f t = (r, dt, t') ->
     keeps_objects t t' /\ forall a, r = inr a -> Q a (MkArchiver d t')) ->
  goes P (call f) Q.
Proof using.
  intros Hf [[d t] fl c] x w' HP Hr. unfold call in Hr. cbn [store ar_objects] in Hr.
  destruct (f t) as [[r dt] t'] eqn:E. injection Hr as <- <-.
  destruct (Hf _ _ _ _ _ HP E) as [Hk HQ]. split; [|done]. apply star_one. by apply as_objects.
Qed.

(** *** The ledger's operations *)

Definition anything (s : Archiver T) : Prop := True.
(** The pack [p] as a process read it, and records it read. *)
Definition holding (p : PackRow) (items : list Item) (s : Archiver T) : Prop :=
  (exists q, q ∈ packs (ar_db s) /\ pk_pack q = pk_pack p /\ pk_bucket q = pk_bucket p /\
             pk_key q = pk_key p) /\ from_index (ar_db s) items.

Lemma holding_update p items q f d t t' :
  (forall r, same_pack r (f r)) -> holding p items (MkArchiver d t) ->
  holding p items (MkArchiver (update_pack q f d) t').
Proof using.
  intros Hf [(r & Hr & E1 & E2 & E3) Hi]. split; [|exact Hi].
  exists (if q r then f r else r). split; [by apply update_pack_kept|].
  destruct (q r); [|done]. destruct (Hf r) as (_ & -> & -> & -> & _). done.
Qed.

Lemma goes_writing p items id : goes (holding p items) (with_db (MarkWriting id)) (fun _ => holding p items).
Proof using.
  apply goes_db. intros d t fl c x w' HP Hr. split.
  - destruct x as [e|[]]; [left; by apply cas_inl_same in Hr|right; by eapply lo_writing].
  - intros [] ->. apply cas_inr in Hr as [-> _]. by apply (holding_update _ _ _ _ d t).
Qed.
Lemma goes_written p items v body :
  goes (fun s => holding p items s /\ exists u, holds (ar_objects s) (pk_bucket p) (pk_key p) v body u)
    (with_db (MarkWritten (pk_pack p) v (sha256_digest body))) (fun _ => holding p items).
Proof using.
  apply goes_db. intros d t fl c x w' [Hh [u Hu]] Hr. cbn [ar_db ar_objects] in *. split.
  - destruct x as [e|[]]; [left; by apply cas_inl_same in Hr|right].
    destruct Hh as [(q & Hq & E1 & E2 & E3) _]. eapply lo_written; [exact Hq|exact E1| |reflexivity|exact Hr].
    rewrite E2, E3. exact Hu.
  - intros [] ->. apply cas_inr in Hr as [-> _]. by apply (holding_update _ _ _ _ d t).
Qed.
Lemma goes_locked p items id u : goes (holding p items) (with_db (MarkLocked id u)) (fun _ => holding p items).
Proof using.
  apply goes_db. intros d t fl c x w' HP Hr. split.
  - destruct x as [e|[]]; [left|right; by eapply lo_locked].
    unfold MarkLocked, bind, now in Hr. by apply cas_inl_same in Hr.
  - intros [] ->. apply locked_inr in Hr as ->. by apply (holding_update _ _ _ _ d t).
Qed.
Lemma goes_failed P id st reason : goes P (with_db (MarkFailed id st reason)) (fun _ => anything).
Proof using.
  apply goes_db. intros d t fl c x w' _ Hr. split; [|done].
  destruct x as [e|[]]; [left|right; by eapply lo_failed].
  unfold MarkFailed, bind, guard in Hr.
  destruct (_ && _); [by injection Hr as _ <-|]. by apply cas_inl_same in Hr.
Qed.
Lemma goes_verified p items id v :
  goes (holding p items) (with_db (MarkVerified id items v)) (fun _ => anything).
Proof using.
  apply goes_db. intros d t fl c x w' [_ Hi] Hr. split; [|done].
  destruct x as [e|[]]; [left; by apply tx_inl in Hr|right]. by eapply lo_verified.
Qed.
Lemma goes_get P id :
  (forall d t, P (MkArchiver d t) -> True) ->
  goes P (with_db (Get id)) (fun p s => P s /\ p ∈ packs (ar_db s) /\ pk_pack p = id).
Proof using.
  intros _. apply goes_db. intros d t fl c x w' HP Hr. unfold Get, catch in Hr.
  destruct (query_row _ _) as [[e|p] v] eqn:E.
  - apply query_row_inl in E. injection Hr as <- <-. split; [by left|done].
  - injection Hr as <- <-. apply query_row_inr in E as (Hf & Hs & _). cbn [store] in *.
    split; [by left|]. intros a [= <-]. rewrite Hs. split; [done|].
    apply first_where_some in Hf as [Hin Hp]. split; [done|]. by apply String.eqb_eq.
Qed.

Lemma goes_fail_as {X} P id st reason e (Q : X -> Archiver T -> Prop) :
  goes P (fail_as id st reason e) Q.
Proof using.
  unfold fail_as. eapply goes_bind; [apply goes_attempt, goes_failed|]. intros a. apply goes_throw.
Qed.

(** *** The chain *)

Lemma goes_write_object p items u :
  goes (holding p items) (write_object error_text policyVersion retentionDays p items u)
    (fun _ => holding p items).
Proof using.
  unfold write_object. eapply goes_bind; [apply goes_now|]. intros t0. cbv zeta.
  set (body := BuildManifest _ _ _ _ _).
  eapply goes_bind; [apply goes_attempt|].
  { apply goes_call with (Q := fun v s => holding p items s /\
      exists u, holds (ar_objects s) (pk_bucket p) (pk_key p) v body u).
    intros d t r dt t' HP Hf. apply put_lawful in Hf as (_ & Hk & Hh). split; [done|].
    intros v ->. split; [exact HP|]. exists u. by apply Hh. }
  intros [e|v]; [apply goes_fail_as|].
  eapply goes_bind; [eapply goes_weaken; [apply (goes_written p items v body)| |by intros ? ? Hx; exact Hx]|].
  { intros s Hs. by apply Hs. }
  intros []. eapply goes_bind; [apply goes_attempt|].
  { apply goes_call with (Q := fun _ => holding p items). intros d t r dt t' HP Hf.
    apply head_lawful in Hf as (_ & Hk & _). by split. }
  intros [e|got]; [apply goes_fail_as|].
  destruct (got =s _); [|apply goes_fail_as]. apply goes_ret. intros s Hs. by eapply Hs.
Qed.

Lemma goes_verify_lock p items v u :
  goes (holding p items) (verify_lock p items v u) (fun _ => anything).
Proof using.
  unfold verify_lock.
  assert (Hlock : goes (holding p items) (call (RetentionUntil (pk_bucket p) (pk_key p) v))
                    (fun _ => holding p items)).
  { apply goes_call. intros d t r dt t' HP Hf. apply until_lawful in Hf as (_ & Hk & _). by split. }
  eapply goes_bind; [exact Hlock|]. intros lock.
  eapply goes_bind with (Q := fun _ => holding p items); [|intros []; apply goes_verified].
  destruct (covers lock u); [by apply goes_ret|].
  eapply goes_bind with (Q := fun _ => holding p items).
  { apply goes_call. intros d t r dt t' HP Hf. apply extend_lawful in Hf as (_ & Hk). by split. }
  intros []. eapply goes_bind; [exact Hlock|]. intros lock2. apply goes_guard.
Qed.

Lemma goes_archivePack id items :
  goes (fun s => from_index (ar_db s) items)
    (archivePack error_text policyVersion retentionDays id items) (fun _ => anything).
Proof using.
  unfold archivePack. eapply goes_bind; [by apply goes_get|]. intros p.
  eapply goes_weaken with (P' := fun s => holding p items s /\ pk_pack p = id);
    [|intros s (Hi & Hp & Hid); split; [|done]; split; [by exists p|done]|done].
  eapply goes_weaken with (P' := holding p items); [|by intros s [Hs _]|done].
  eapply goes_bind; [apply goes_now|]. intros t. cbv zeta.
  set (u := GoTime.add_days _ _).
  assert (Hw : goes (holding p items)
    (let! version := write_object error_text policyVersion retentionDays p items u in
     with_db (MarkLocked id u) ;! verify_lock p items version u) (fun _ => anything)).
  { eapply goes_bind; [apply goes_write_object|]. intros v.
    eapply goes_bind; [apply goes_locked|]. intros []. apply goes_verify_lock. }
  destruct (pk_state p); try apply goes_throw.
  - eapply goes_bind; [apply goes_writing|]. by intros [].
  - done.
  - destruct (pk_until p); [apply goes_verify_lock|apply goes_throw].
  - eapply goes_bind; [apply goes_writing|]. by intros [].
Qed.

Lemma from_index_rows d (rows : list EvidenceRow) :
  (forall r, r ∈ rows -> r ∈ records (evidence d)) -> from_index d (map item_of rows).
Proof using.
  intros Hr it Hit. apply list_elem_of_fmap in Hit as (r & -> & Hin). exists r. auto.
Qed.
Lemma sorted_rows_elem p (t : list EvidenceRow) r :
  r ∈ merge_sort record_le (rows_where p t) -> r ∈ t /\ p r = true.
Proof using. rewrite merge_sort_Permutation. apply elem_of_rows_where. Qed.
Lemma reload_from_index p d : from_index d (reload p d).
Proof using. apply from_index_rows. intros r Hr. by apply sorted_rows_elem in Hr as [? _]. Qed.
Lemma window_from_index n d : from_index d (window n d).
Proof using.
  intros it Hit. apply elem_of_take in Hit as (i & Hi & _). apply list_elem_of_lookup_2 in Hi.
  revert it Hi. apply from_index_rows. intros r Hr. by apply sorted_rows_elem in Hr as [? _].
Qed.

Lemma goes_recover fuel id :
  goes anything (recover error_text policyVersion retentionDays fuel id) (fun _ => anything).
Proof using.
  induction fuel as [|fuel IH]; simpl; [apply goes_throw|].
  eapply goes_bind; [by apply (goes_get anything)|]. intros p.
  eapply goes_weaken with (P' := anything); [|done|done].
  assert (Hdrive : goes anything
    (let! items := with_db (query (reload p)) in
     if negb (Z.of_nat (length items) =? pk_count p) then
       with_db (MarkFailed id PackQuarantined (count_drift p (Z.of_nat (length items)))) ;!
       throw (errT ReasonDigestMismatch)
     else if negb (Digest policyVersion items =s id) then
       with_db (MarkFailed id PackQuarantined (set_drift id (Digest policyVersion items))) ;!
       throw (errT ReasonDigestMismatch)
     else archivePack error_text policyVersion retentionDays id items) (fun _ => anything)).
  { eapply goes_bind with (Q := fun items s => from_index (ar_db s) items).
    - apply goes_db. intros d t fl c x w' _ Hr. destruct x as [e|items].
      + unfold query, stmt in Hr. destruct (failing _); [|discriminate].
        injection Hr as _ <-. split; [by left|done].
      + apply query_inr in Hr as (-> & Hs & _). cbn [store] in Hs. rewrite Hs. split; [by left|].
        intros a [= <-]. apply reload_from_index.
    - intros items. destruct (negb _).
      { eapply goes_bind; [apply goes_failed|]. intros []. apply goes_throw. }
      destruct (negb _); [|apply goes_archivePack].
      eapply goes_bind; [apply goes_failed|]. intros []. apply goes_throw. }
  destruct (pk_state p); try done; try by apply goes_ret.
  eapply goes_bind; [apply goes_failed|]. intros []. exact IH.
Qed.

Lemma goes_locks {X} P (m : M PackDb X) :
  (forall w x w', m w = (x, w') -> exists l, store w' = with_locks l (store w)) ->
  goes P (with_db m) (fun _ => anything).
Proof using.
  intros Hm. apply goes_db. intros d t fl c x w' _ Hr. split; [|done].
  apply Hm in Hr as [l Hl]. cbn [store] in Hl. rewrite Hl. right. apply lo_locks.
Qed.
Lemma with_locks_same d : with_locks (locks d) d = d.
Proof using. by destruct d. Qed.
Lemma goes_try P id : goes P (with_db (TryDriveLock hashtext id)) (fun _ => anything).
Proof using.
  apply goes_locks. intros w x w' Hr. unfold TryDriveLock, bind in Hr.
  destruct (connect w) as [[e|u] w1] eqn:Ec.
  - apply connect_inl in Ec. injection Hr as _ <-. exists (locks (store w)). by rewrite with_locks_same.
  - apply connect_inr in Ec as [Ec _]. destruct (exec_n _ w1) as [[e|n] w2] eqn:Ee.
    + apply exec_n_inl in Ee. injection Hr as _ <-. exists (locks (store w)).
      rewrite with_locks_same. congruence.
    + apply exec_n_inr in Ee as [Ee _]. injection Hr as _ <-. rewrite Ec in Ee.
      destruct (bool_decide _); injection Ee as _ <-; [|by eexists].
      exists (locks (store w)). by rewrite with_locks_same.
Qed.
Lemma goes_release P id : goes P (with_db (release hashtext id)) (fun _ => anything).
Proof using.
  apply goes_locks. intros w x w' Hr. unfold release, catch in Hr.
  destruct (exec _ w) as [[e|u] w1] eqn:Ee.
  - apply exec_inl in Ee. injection Hr as _ <-. exists (locks (store w)). by rewrite with_locks_same.
  - apply exec_inr in Ee as [Ee _]. injection Hr as _ <-. rewrite Ee. by eexists.
Qed.

Lemma goes_sweep ids :
  goes anything (sweep error_text hashtext policyVersion retentionDays ids) (fun _ => anything).
Proof using.
  induction ids as [|id ids IH]; simpl; [by apply goes_ret|].
  eapply goes_bind; [apply goes_try|]. intros ok.
  eapply goes_bind with (Q := fun _ => anything); [|by intros []].
  destruct ok; [|by apply goes_ret].
  eapply goes_bind; [apply goes_attempt, goes_recover|]. intros r. apply goes_release.
Qed.

Lemma goes_query {X} P (f : PackDb -> X) : goes P (with_db (query f)) (fun _ => anything).
Proof using.
  apply goes_db. intros d t fl c x w' _ Hr. split; [left|done]. unfold query, stmt in Hr.
  destruct (failing _); by injection Hr as _ <-.
Qed.

Lemma goes_ArchiveOnce consumer n :
  goes anything (ArchiveOnce error_text hashtext policyVersion retentionDays consumer n)
    (fun _ => anything).
Proof using.
  unfold ArchiveOnce. eapply goes_bind; [apply goes_query|]. intros pending.
  eapply goes_bind; [apply goes_sweep|]. intros [].
  eapply goes_bind with (Q := fun x s => from_index (ar_db s) x.1.2).
  { apply goes_db. intros d t fl c x w' _ Hr. destruct x as [e|x].
    - apply tx_inl in Hr. split; [by left|done].
    - split; [right; by eapply lo_claim|]. intros a [= <-].
      pose proof Hr as Hw. apply ClaimWindow_inr in Hw as [(Hn & -> & Hs)|(_ & -> & Hs)]; cbn [fst snd ar_db].
      + intros it Hit%elem_of_nil. done.
      + cbn [store] in Hs. assert (He : evidence (store w') = evidence d).
        { rewrite Hs. by destruct (any_where _ _). }
        intros it Hit. rewrite He. eapply window_from_index, Hit. }
  intros [[id items] created]. cbn [fst snd].
  destruct (id =s ""); [by apply goes_ret|]. destruct (negb created); [by apply goes_ret|].
  eapply goes_bind with (Q := fun _ s => from_index (ar_db s) items).
  { intros w x w' HP Hr. destruct (goes_try (fun _ => True) id w x w' I Hr) as [Hst _].
    split; [done|]. intros a _. unfold with_db, zoom in Hr. destruct (TryDriveLock _ _ _) as [r v] eqn:E.
    injection Hr as _ <-. simpl. unfold TryDriveLock in E.
    assert (He : evidence (store v) = evidence (ar_db (store w))); [|intros it Hit; rewrite He; auto].
    unfold bind in E. destruct (connect _) as [[e|u] w1] eqn:Ec.
    - apply connect_inl in Ec. injection E as _ <-. by rewrite Ec.
    - apply connect_inr in Ec as [Ec _]. destruct (exec_n _ w1) as [[e|k] w2] eqn:Ee.
      + apply exec_n_inl in Ee. injection E as _ <-. by rewrite Ee, Ec.
      + apply exec_n_inr in Ee as [Ee _]. injection E as _ <-. rewrite Ec in Ee.
        destruct (bool_decide _); by injection Ee as _ <-; rewrite ?Ec. }
  intros ok. destruct (negb ok); [by apply goes_ret|]. unfold locked.
  eapply goes_bind; [apply goes_attempt with (Q := fun _ => anything)|].
  { eapply goes_bind; [apply goes_archivePack|]. intros [].
    eapply goes_bind with (Q := fun _ => anything); [|intros []; by apply goes_ret].
    apply goes_db. intros d t fl c x w' _ Hr. split; [|done].
    destruct x as [e|[]]; [left|right]; unfold AdvanceCheckpoint, bind, now in Hr.
    - by apply exec_inl in Hr.
    - apply exec_inr in Hr as [-> _]. apply lo_cursor. }
  intros r. eapply goes_bind; [apply goes_release|]. intros [].
  destruct r; [apply goes_throw|by apply goes_ret].
Qed.
End Simulation.

(** ** What a pack that was archived guarantees *)

Section Archived.
Context (error_text : err -> string) (policyVersion : string) (retentionDays : Z).

(** A pack on its way: its row at [st] with version [v] and digest of [body],
    whose object is stored. *)
Definition on_the_way (p : PackRow) (items : list Item) (st : PackState) (until : option Z)
    (v body : string) (s : Archiver T) : Prop :=
  (exists q, q ∈ packs (ar_db s) /\ pk_pack q = pk_pack p /\ pk_bucket q = pk_bucket p /\
     pk_key q = pk_key p /\ pk_state q = st /\ pk_version q = v /\ pk_manifest q = sha256_digest body /\
     (st = PackLocked -> pk_until q = until)) /\
  from_index (ar_db s) items /\ indexed (fun _ => true) pk_pack (packs (ar_db s)) /\
  exists u, holds (ar_objects s) (pk_bucket p) (pk_key p) v body u.

(** The pack verified: every record of [items] is linked, those that were not
    linked in [d0] by this pack at version [v]; the object holds [body] and is
    locked up to the deadline, less a minute. *)
Definition archived (d0 : PackDb) (p : PackRow) (items : list Item) (u : Z) (v body : string)
    (s : Archiver T) : Prop :=
  (exists q, q ∈ packs (ar_db s) /\ pk_pack q = pk_pack p /\ pk_state q = PackVerified /\
     pk_version q = v /\ pk_manifest q = sha256_digest body /\ pk_until q = Some u /\
     pk_count q = Z.of_nat (length items)) /\
  (forall it, it ∈ items -> exists l, l ∈ links (ar_db s) /\ lk_record l = it_ID it /\
     (linked_record (it_ID it) d0 = false -> lk_pack l = pk_pack p /\ lk_version l = v)) /\
  exists lock, holds (ar_objects s) (pk_bucket p) (pk_key p) v body lock /\
    u - GoTime.Minute <= lock.

Lemma goes_verified_archived d0 p items u v body lock :
  goes (fun s => on_the_way p items PackLocked (Some u) v body s /\ links (ar_db s) = links d0 /\
          holds (ar_objects s) (pk_bucket p) (pk_key p) v body lock)
    (with_db (MarkVerified (pk_pack p) items v))
    (fun _ s => u - GoTime.Minute <= lock -> archived d0 p items u v body s).
Proof using.
  apply goes_db. intros d t fl c x w' (((q & Hq & E1 & E2 & E3 & E4 & E5 & E6 & E7) & Hi & Hix & _) & Hl & Hh) Hr.
  cbn [ar_db ar_objects] in *. split.
  { destruct x as [e|[]]; [left; by apply tx_inl in Hr|right]. by eapply lo_verified. }
  intros [] -> Hlock.
  apply MarkVerified_inr in Hr as (q' & added & Hq' & F1 & F2 & F3 & F4 & Hnow & _ & _ & Hall & ->).
  cbn [store clock] in *. split; [|split; [|by exists lock]].
  - assert (q' = q) as ->.
    { eapply (indexed_elem (fun _ => true) pk_pack); eauto. congruence. }
    exists (set_pk_verified c q). split; [|by rewrite <- E7].
    pose proof (update_pack_kept (fun q => is_pack (pk_pack p) q && in_states [PackLocked] q)
                  (set_pk_verified c) d q Hq) as Hin.
    assert (is_pack (pk_pack p) q && in_states [PackLocked] q = true) as Eq.
    { apply andb_true_iff. split; [by apply String.eqb_eq|]. apply in_states_spec. rewrite E4. by left. }
    cbv beta in Hin. by rewrite Eq in Hin.
  - intros it Hit. change (links (ar_db _)) with (links d ++ added).
    destruct (Hall it Hit) as [Hk|(l & Hin & He)].
    + pose proof Hk as Hk2. apply linked_record_spec in Hk as (l & Hin & He). exists l.
      split; [apply elem_of_app; by left|]. split; [done|]. intros Hno. unfold linked_record in *. congruence.
    + exists l. split; [apply elem_of_app; by right|]. split; [done|]. intros _.
      by destruct (Hnow l Hin) as (? & ? & _).
Qed.

Lemma on_the_way_keeps p items st u v body d t t' :
  keeps_objects t t' -> on_the_way p items st u v body (MkArchiver d t) ->
  on_the_way p items st u v body (MkArchiver d t').
Proof using.
  intros Hk (Hq & Hi & Hix & lk & Hh). split; [done|]. split; [done|]. split; [done|].
  destruct (Hk _ _ _ _ _ Hh) as (lk' & _ & Hh'). by exists lk'.
Qed.

Lemma goes_verify_archived d0 p items u v body :
  goes (fun s => on_the_way p items PackLocked (Some u) v body s /\ links (ar_db s) = links d0)
    (verify_lock p items v u) (fun _ => archived d0 p items u v body).
Proof using.
  unfold verify_lock. set (Inv := fun s => on_the_way p items PackLocked (Some u) v body s /\
                                     links (ar_db s) = links d0).
  set (at_least := fun n s => Inv s /\ exists lk, n <= lk /\
                      holds (ar_objects s) (pk_bucket p) (pk_key p) v body lk).
  assert (Hlock : goes Inv (call (RetentionUntil (pk_bucket p) (pk_key p) v))
                    (fun lock s => Inv s /\ forall n, lock = Some n -> at_least n s)).
  { apply goes_call. intros d t r dt t' [HP Hl] Hf. apply until_lawful in Hf as (_ & Hk & Hh).
    split; [done|]. intros a ->.
    assert (HI : Inv (MkArchiver d t')) by (split; [by eapply on_the_way_keeps|done]).
    split; [done|]. intros n ->. split; [done|]. destruct HP as (_ & _ & _ & lk & Hlk).
    specialize (Hh n eq_refl _ _ Hlk). by destruct (Hk _ _ _ _ _ Hh) as (lk' & ? & ?); eauto. }
  assert (Hcov : forall lock s, covers lock u = true ->
    (Inv s /\ forall n, lock = Some n -> at_least n s) -> at_least (u - GoTime.Minute) s).
  { intros [n|] s Hc [_ Hn]; [|discriminate]. destruct (Hn n eq_refl) as (HI & lk & Hle & Hh).
    split; [done|]. exists lk. split; [|done]. simpl in Hc. b2p. lia. }
  eapply goes_bind; [exact Hlock|]. intros lock.
  eapply goes_bind with (Q := fun _ => at_least (u - GoTime.Minute)).
  { destruct (covers lock u) eqn:Ec; [apply goes_ret; intros s; by apply Hcov|].
    eapply goes_bind with (Q := fun _ => Inv).
    { apply goes_call. intros d t r dt t' [[HP Hl] _] Hf. apply extend_lawful in Hf as (_ & Hk).
      split; [done|]. intros a _. split; [by eapply on_the_way_keeps|done]. }
    intros []. eapply goes_bind; [exact Hlock|]. intros lock2.
    destruct (covers lock2 u) eqn:Ec2; [apply goes_ret; intros s; by apply Hcov|apply goes_throw]. }
  intros []. intros w x w' [HI (lk & Hle & Hh)] Hr.
  destruct (goes_verified_archived d0 p items u v body lk w x w' (conj (proj1 HI) (conj (proj2 HI) Hh)) Hr)
    as [Hst HQ]. split; [done|]. intros a Ha. by apply (HQ a Ha).
Qed.

(** *** The chain, for a pack that is not terminal *)

Definition manifest_at (p : PackRow) (items : list Item) (body : string) : Prop :=
  exists t, body = BuildManifest (pk_pack p) policyVersion items retentionDays t.
(** The records a process holds for [p], and nothing linked since [d0]. *)
Definition chain (d0 : PackDb) (p : PackRow) (items : list Item) (s : Archiver T) : Prop :=
  holding p items s /\ indexed (fun _ => true) pk_pack (packs (ar_db s)) /\
  links (ar_db s) = links d0.

Lemma chain_update d0 p items q f d t t' :
  (forall r, same_pack r (f r)) -> chain d0 p items (MkArchiver d t) ->
  chain d0 p items (MkArchiver (update_pack q f d) t').
Proof using.
  intros Hf (Hh & Hi & Hl). split; [by eapply holding_update|]. split; [|done].
  apply indexed_update; [done|]. intros r _ _ _. split; [done|]. by destruct (Hf r) as (_ & -> & _).
Qed.

Lemma goes_chain_writing d0 p items id :
  goes (chain d0 p items) (with_db (MarkWriting id)) (fun _ => chain d0 p items).
Proof using.
  apply goes_db. intros d t fl c x w' HP Hr. split.
  - destruct x as [e|[]]; [left; by apply cas_inl_same in Hr|right; by eapply lo_writing].
  - intros [] ->. apply cas_inr in Hr as [-> _]. by apply (chain_update _ _ _ _ _ d t).
Qed.

(** A row that an update of its id and state wrote. *)
Lemma only_state id st x :
  is_pack id x && in_states [st] x = true -> is_pack id x = true /\ pk_state x = st.
Proof using.
  intros [? Hs]%andb_true_iff. split; [done|]. apply in_states_spec in Hs.
  by apply list_elem_of_singleton in Hs.
Qed.
Lemma update_pack_mine id st q f d r r' :
  (forall x, q x = true -> is_pack id x = true /\ pk_state x = st) ->
  indexed (fun _ => true) pk_pack (packs d) -> r ∈ packs d -> pk_pack r = id ->
  r' ∈ packs d -> q r' = true -> r' = r /\ pk_state r = st /\ f r ∈ packs (update_pack q f d).
Proof using.
  intros Hq Hi Hr Hid Hr' Hqr. destruct (Hq r' Hqr) as [Hp Hst].
  assert (r' = r) as ->.
  { eapply (indexed_elem (fun _ => true) pk_pack); eauto. apply String.eqb_eq in Hp. congruence. }
  split; [done|]. split; [done|]. pose proof (update_pack_kept q f d r Hr) as Hin.
  cbv beta in Hin. by rewrite Hqr in Hin.
Qed.

Lemma goes_chain_written d0 p items v body :
  goes (fun s => chain d0 p items s /\ exists u, holds (ar_objects s) (pk_bucket p) (pk_key p) v body u)
    (with_db (MarkWritten (pk_pack p) v (sha256_digest body)))
    (fun _ s => on_the_way p items PackWriting None v body s /\ links (ar_db s) = links d0).
Proof using.
  apply goes_db. intros d t fl c x w' [[[(q & Hq & E1 & E2 & E3) Hi] [Hix Hl]] [u Hu]] Hr.
  cbn [ar_db ar_objects] in *. split.
  { destruct x as [e|[]]; [left; by apply cas_inl_same in Hr|right].
    eapply lo_written; [exact Hq|exact E1| |reflexivity|exact Hr]. by rewrite E2, E3. }
  intros [] ->. apply cas_inr in Hr as (-> & _ & r & Hin & Hsel). cbn [store] in *.
  destruct (update_pack_mine (pk_pack p) PackWriting _ (set_pk_written v (sha256_digest body)) d q r
              (only_state _ _) Hix Hq E1 Hin Hsel) as (-> & Hst & Hnew).
  split; [|done]. split; [|split; [exact Hi|split]].
  - eexists. split; [exact Hnew|]. simpl. done.
  - apply indexed_update; [done|]. by intros ? _ _ _.
  - by exists u.
Qed.

Lemma goes_write_chain d0 p items u :
  goes (chain d0 p items) (write_object error_text policyVersion retentionDays p items u)
    (fun v s => exists body, manifest_at p items body /\
       on_the_way p items PackWriting None v body s /\ links (ar_db s) = links d0).
Proof using.
  unfold write_object. eapply goes_bind; [apply goes_now|]. intros t0. cbv zeta.
  set (body := BuildManifest _ _ _ _ _).
  eapply goes_bind; [apply goes_attempt|].
  { apply goes_call with (Q := fun v s => chain d0 p items s /\
      exists u, holds (ar_objects s) (pk_bucket p) (pk_key p) v body u).
    intros d t r dt t' HP Hf. apply put_lawful in Hf as (_ & Hk & Hh). split; [done|].
    intros v ->. split; [exact HP|]. exists u. by apply Hh. }
  intros [e|v]; [apply goes_fail_as|].
  eapply goes_bind; [eapply goes_weaken; [apply (goes_chain_written d0 p items v body)| |by intros ? ? Hx; exact Hx]|].
  { intros s Hs. by apply Hs. }
  intros []. eapply goes_bind; [apply goes_attempt|].
  { apply goes_call with (Q := fun _ s => on_the_way p items PackWriting None v body s /\
      links (ar_db s) = links d0).
    intros d t r dt t' [HP Hl] Hf. apply head_lawful in Hf as (_ & Hk & _). split; [done|].
    intros a _. split; [by eapply on_the_way_keeps|done]. }
  intros [e|got]; [apply goes_fail_as|].
  destruct (got =s _); [|apply goes_fail_as]. apply goes_ret. intros s Hs. exists body.
  split; [by exists t0|]. by eapply Hs.
Qed.

Lemma goes_chain_locked d0 p items u v body :
  goes (fun s => on_the_way p items PackWriting None v body s /\ links (ar_db s) = links d0)
    (with_db (MarkLocked (pk_pack p) u))
    (fun _ s => on_the_way p items PackLocked (Some u) v body s /\ links (ar_db s) = links d0).
Proof using.
  apply goes_db. intros d t fl c x w' [((q & Hq & E1 & E2 & E3 & E4 & E5 & E6 & _) & Hi & Hix & Hh) Hl] Hr.
  cbn [ar_db ar_objects] in *. split.
  { destruct x as [e|[]]; [left|right; by eapply lo_locked].
    unfold MarkLocked, bind, now in Hr. by apply cas_inl_same in Hr. }
  intros [] ->. unfold MarkLocked in Hr. apply bind_inr in Hr as (t1 & w1 & E & Hr).
  apply now_inr in E as [-> ->]. apply cas_inr in Hr as (-> & _ & r & Hin & Hsel). cbn [store clock] in *.
  destruct (update_pack_mine (pk_pack p) PackWriting _ (set_pk_locked u c) d q r
              (fun x Hx => only_state _ _ x (proj1 (proj1 (andb_true_iff _ _) Hx)))
              Hix Hq E1 Hin Hsel) as (-> & _ & Hnew).
  split; [|done]. split; [|split; [exact Hi|split; [|exact Hh]]].
  - eexists. split; [exact Hnew|]. simpl. done.
  - apply indexed_update; [done|]. by intros ? _ _ _.
Qed.

(** From WRITING on, with the deadline [u]. *)
Lemma goes_from_writing d0 p items u :
  goes (chain d0 p items)
    (let! v := write_object error_text policyVersion retentionDays p items u in
     with_db (MarkLocked (pk_pack p) u) ;! verify_lock p items v u)
    (fun _ s => exists v body, manifest_at p items body /\ archived d0 p items u v body s).
Proof using.
  eapply goes_bind; [apply goes_write_chain|]. intros v w x w' (body & Hm & HP) Hr.
  assert (Hg : goes (fun s => on_the_way p items PackWriting None v body s /\ links (ar_db s) = links d0)
    (with_db (MarkLocked (pk_pack p) u) ;! verify_lock p items v u)
    (fun _ => archived d0 p items u v body)).
  { eapply goes_bind; [apply goes_chain_locked|]. intros []. apply goes_verify_archived. }
  destruct (Hg w x w' HP Hr) as [Hst HQ]. split; [done|]. intros a Ha. exists v, body.
  split; [done|]. by apply (HQ a).
Qed.
End Archived.

Lemma get_run id (w : World (Archiver T)) p w' :
  with_db (Get id) w = (inr p, w') ->
  store w' = store w /\ clock w' = clock w /\ p ∈ packs (ar_db (store w)) /\ pk_pack p = id.
Proof using.
  destruct w as [[d t] fl c]. unfold with_db, zoom, Get, catch. cbn [store ar_db faults clock].
  destruct (query_row _ _) as [[e|q] v] eqn:E; [done|]. intros [= -> <-].
  apply query_row_inr in E as (Hf & Hs & Hc). cbn [store clock] in *. unfold put_db. simpl.
  rewrite Hs, Hc. do 2 (split; [done|]). apply first_where_some in Hf as [Hin Hp].
  split; [done|]. by apply String.eqb_eq.
Qed.

Lemma archivePack_chain error_text pv days id items (w : World (Archiver T)) p w' :
  ledger_ok (pair_of (store w)) -> from_index (ar_db (store w)) items ->
  p ∈ packs (ar_db (store w)) -> pk_pack p = id ->
  archivePack error_text pv days id items w = (inr tt, w') ->
  exists u v body, archived (ar_db (store w)) p items u v body (store w') /\
    match pk_state p with
    | PackLocked => pk_until p = Some u /\ pk_version p = v
    | _ => u = GoTime.add_days days (clock w) /\ manifest_at pv days p items body
    end.
Proof using JS OS T WS.
  intros Hok Hix Hp Hid Hr. unfold archivePack in Hr.
  apply bind_inr in Hr as (q & w1 & Eg & Hr). apply get_run in Eg as (Hs1 & Hc1 & Hq & Hqid).
  assert (q = p) as ->.
  { eapply (indexed_elem (fun _ => true) pk_pack); [apply (ok_packs _ Hok)| | | | |]; eauto. congruence. }
  apply bind_inr in Hr as (t & w2 & Et & Hr). apply now_inr in Et as [-> ->]. cbv zeta in Hr.
  rewrite Hc1 in Hr. rewrite <- Hid in *. set (d0 := ar_db (store w)) in *. set (u := GoTime.add_days _ _) in *.
  assert (Hc : chain d0 p items (store w1)).
  { rewrite Hs1. split; [|split; [apply (ok_packs _ Hok)|done]]. split; [by exists p|done]. }
  assert (Hdrive : forall m, (forall w x w', chain d0 p items (store w) -> m w = (x, w') ->
      forall a : unit, x = inr a -> chain d0 p items (store w')) ->
    (m ;! let! v := write_object error_text pv days p items u in
          with_db (MarkLocked (pk_pack p) u) ;! verify_lock p items v u) w1 = (inr tt, w') ->
    exists u' v body, archived d0 p items u' v body (store w') /\
      u' = GoTime.add_days days (clock w) /\ manifest_at pv days p items body).
  { intros m Hm Hrun. apply bind_inr in Hrun as ([] & w3 & Em & Hrun).
    pose proof (Hm _ _ _ Hc Em tt eq_refl) as Hc3.
    destruct (goes_from_writing error_text pv days d0 p items u _ _ _ Hc3 Hrun) as [_ HQ].
    destruct (HQ tt eq_refl) as (v & body & Hm1 & Ha). by exists u, v, body. }
  assert (Hw : forall w x w', chain d0 p items (store w) -> with_db (MarkWriting (pk_pack p)) w = (x, w') ->
      forall a : unit, x = inr a -> chain d0 p items (store w')).
  { intros wa x wb HP Hwr. by apply (goes_chain_writing d0 p items (pk_pack p) _ _ _ HP Hwr). }
  destruct (pk_state p) eqn:Est; try discriminate.
  - exact (Hdrive _ Hw Hr).
  - apply (Hdrive (ret tt)); [|exact Hr]. by intros wa x wb HP [= <- <-].
  - destruct (ok_locked _ Hok p Hp) as [Hv [u0 Hu]]; [apply in_lock_spec; by left|]. rewrite Hu in Hr.
    destruct (ok_stored _ Hok p Hp Hv) as (body & u1 & Hh & Hm).
    destruct (goes_verify_archived d0 p items u0 (pk_version p) body w1 (inr tt) w') as [_ HQ];
      [|exact Hr|].
    { split; [|by destruct Hc as (_ & _ & Hl)]. split; [|split; [|split]].
      - rewrite Hs1. exists p. by repeat split.
      - by rewrite Hs1.
      - rewrite Hs1. apply (ok_packs _ Hok).
      - rewrite Hs1. by exists u1. }
    exists u0, (pk_version p), body. split; [by apply (HQ tt)|done].
  - exact (Hdrive _ Hw Hr).
Qed.

(** ** A window whose pack is quarantined *)

(** Ticks of one process, and the packs they answer with. *)
Fixpoint ticks error_text hashtext pv days consumer n (k : nat) : M (Archiver T) (list string) :=
  match k with
  | O => ret []
  | S k' =>
      let! id := ArchiveOnce error_text hashtext pv days consumer n in
      let! ids := ticks error_text hashtext pv days consumer n k' in
      ret (id :: ids)
  end.

Lemma pending_query {X} (f : PackDb -> X) (w : World (Archiver T)) :
  faults w = [] -> with_db (query f) w = (inr (f (ar_db (store w))), w).
Proof using. destruct w as [[d t] fl c]. simpl. intros ->. done. Qed.

Lemma tick_stuck error_text hashtext pv days consumer n (w : World (Archiver T)) :
  let d := ar_db (store w) in
  let items := window (if n <=? 0 then 100 else n) d in
  faults w = [] -> items <> [] -> rows_where open_pack (packs d) = [] ->
  any_where (is_pack (Digest pv items)) (packs d) = true ->
  ArchiveOnce error_text hashtext pv days consumer n w = (inr (Digest pv items), w).
Proof using.
  intros d items Hf Hne Hopen Hk.
  assert (Hclaim : forall fl c, fl = [] ->
    ClaimWindow n pv (MkWorld d fl c) = (inr (Digest pv items, items, false), MkWorld d fl c)).
  { intros fl c ->. unfold ClaimWindow, tx, bind, connect, query, stmt. simpl. fold items.
    destruct items as [|it l] eqn:E; [done|]. rewrite <- E in *. unfold insert_pack, exec_n, stmt. simpl.
    by rewrite Hk. }
  assert (Hpend : with_db PendingPacks w = (inr [], w)).
  { unfold PendingPacks. rewrite pending_query by done. fold d. by rewrite Hopen. }
  assert (Hcl : with_db (ClaimWindow n pv) w = (inr (Digest pv items, items, false), w)).
  { destruct w as [[d1 t] fl c]. simpl in Hf. unfold with_db, zoom.
    change (store (MkWorld (MkArchiver d1 t) fl c)) with (MkArchiver d1 t). cbn [ar_db faults clock].
    by rewrite (Hclaim fl c Hf : ClaimWindow n pv (MkWorld d1 fl c) = (_, MkWorld d1 fl c)). }
  unfold ArchiveOnce, bind. rewrite Hpend. cbn [sweep ret]. unfold ret. by rewrite Hcl.
Qed.

Lemma ticks_stuck error_text hashtext pv days consumer n (w : World (Archiver T)) k :
  let d := ar_db (store w) in
  let items := window (if n <=? 0 then 100 else n) d in
  faults w = [] -> items <> [] -> rows_where open_pack (packs d) = [] ->
  any_where (is_pack (Digest pv items)) (packs d) = true ->
  ticks error_text hashtext pv days consumer n k w = (inr (repeat (Digest pv items) k), w).
Proof using.
  intros d items Hf Hne Hopen Hk. induction k as [|k IH]; [done|]. cbn [ticks]. unfold bind at 1.
  rewrite tick_stuck by done. unfold bind. by rewrite IH.
Qed.

(** ** Recovery *)

Section Recovery.
Context (error_text : err -> string) (policyVersion : string) (retentionDays : Z).
Local Abbreviation rec := (recover error_text policyVersion retentionDays).

(** After a failed PENDING pack was set RETRYABLE it is read as such. *)
Lemma adopted id reason p (w w1 w2 : World (Archiver T)) q :
  indexed (fun _ => true) pk_pack (packs (ar_db (store w))) ->
  p ∈ packs (ar_db (store w)) -> pk_pack p = id -> open_pack p = true ->
  with_db (MarkFailed id PackRetryable reason) w = (inr tt, w1) ->
  with_db (Get id) w1 = (inr q, w2) -> pk_state q = PackRetryable.
Proof using.
  intros Hix Hp Hid Ho Hm Hg. apply get_run in Hg as (_ & _ & Hq & Hqid).
  destruct w as [[d t] fl c]. unfold with_db, zoom in Hm. cbn [store ar_db faults clock] in *.
  destruct (MarkFailed _ _ _ _) as [[e|[]] v] eqn:E; [done|]. injection Hm as <-.
  apply failed_inr in E as [_ E]. cbn [store ar_db put_db] in *. rewrite E in Hq.
  unfold update_pack in Hq. cbn [packs with_packs] in Hq.
  apply elem_of_update_where in Hq as [(r & _ & _ & ->)|[Hr Hn]]; [done|].
  assert (q = p) as ->.
  { eapply (indexed_elem (fun _ => true) pk_pack); eauto. congruence. }
  exfalso. unfold open_pack, is_pack in *. rewrite Hqid, str_eqb_refl in Hn.
  rewrite andb_true_l in Hn. apply in_states_spec in Ho.
  assert (in_states [PackPending; PackWriting; PackRetryable; PackLocked] p = true); [|congruence].
  by apply in_states_spec.
Qed.

Lemma bind_same {X Y} (m : M (Archiver T) X) (k k' : X -> M (Archiver T) Y) w :
  (forall a w1, m w = (inr a, w1) -> k a w1 = k' a w1) -> bind m k w = bind m k' w.
Proof using. intros Hk. unfold bind. destruct (m w) as [[e|a] w1]; [done|]. by apply Hk. Qed.
Lemma recover_fuel id n (w : World (Archiver T)) :
  indexed (fun _ => true) pk_pack (packs (ar_db (store w))) -> rec (2 + n) id w = rec 2 id w.
Proof using.
  intros Hix. cbn [plus recover]. apply bind_same. intros p w1 Eg.
  apply get_run in Eg as (Hs & _ & Hp & Hid). destruct (pk_state p) eqn:Est; try done.
  apply bind_same. intros [] w2 Em. apply bind_same. intros q w3 Eg2. rewrite <- Hs in *.
  assert (pk_state q = PackRetryable) as ->; [|done].
  eapply (adopted id _ p w1 w2 w3 q); [done|done|done| |exact Em|exact Eg2].
  apply in_states_spec. rewrite Est. by left.
Qed.

Lemma recover_done fuel id (w w' : World (Archiver T)) :
  ledger_ok (pair_of (store w)) -> rec fuel id w = (inr tt, w') ->
  exists q, q ∈ packs (ar_db (store w')) /\ pk_pack q = id /\ open_pack q = false.
Proof using JS OS T WS.
  revert w. induction fuel as [|fuel IH]; intros w Hok Hr; [discriminate|]. cbn [recover] in Hr.
  apply bind_inr in Hr as (p & w1 & Eg & Hr). apply get_run in Eg as (Hs & _ & Hp & Hid).
  rewrite <- Hs in *.
  assert (Hdrive : (let! items := with_db (query (reload p)) in
     if negb (Z.of_nat (length items) =? pk_count p) then
       with_db (MarkFailed id PackQuarantined (count_drift p (Z.of_nat (length items)))) ;!
       throw (errT ReasonDigestMismatch)
     else if negb (Digest policyVersion items =s id) then
       with_db (MarkFailed id PackQuarantined (set_drift id (Digest policyVersion items))) ;!
       throw (errT ReasonDigestMismatch)
     else archivePack error_text policyVersion retentionDays id items) w1 = (inr tt, w') ->
    exists q, q ∈ packs (ar_db (store w')) /\ pk_pack q = id /\ open_pack q = false).
  { intros Hd. apply bind_inr in Hd as (items & w2 & Eq & Hd).
    assert (store w2 = store w1 /\ items = reload p (ar_db (store w1))) as [Hs2 Hitems].
    { destruct w1 as [[d t] fl c]. unfold with_db, zoom in Eq. cbn [store ar_db faults clock] in Eq.
      destruct (query _ _) as [[e|x] v] eqn:E; [done|]. injection Eq as -> <-.
      apply query_inr in E as (-> & Es & _). cbn [store] in *. by rewrite Es. }
    rewrite Hitems in Hd. clear items Hitems Eq.
    destruct (negb _); [apply bind_inr in Hd as (? & ? & _ & Hd); discriminate|].
    destruct (negb _); [apply bind_inr in Hd as (? & ? & _ & Hd); discriminate|].
    rewrite <- Hs2 in *.
    apply (archivePack_chain _ _ _ _ _ _ p) in Hd as Hd;
      [|done|apply reload_from_index|done|done].
    destruct Hd as (u & v & body & ((q & Hq & Hqid & Hst & _) & _) & _).
    exists q. split; [done|]. split; [congruence|]. unfold open_pack, in_states. by rewrite Hst. }
  destruct (pk_state p) eqn:Est; auto.
  - apply bind_inr in Hr as ([] & w2 & Em & Hr). apply (IH w2); [|done].
    destruct (goes_failed anything id PackRetryable _ _ _ _ I Em) as [Hst _].
    by destruct (star_archive _ _ Hst Hok).
  - apply ret_inr in Hr as [_ ->]. exists p. split; [done|]. split; [done|].
    unfold open_pack, in_states. by rewrite Est.
  - apply ret_inr in Hr as [_ ->]. exists p. split; [done|]. split; [done|].
    unfold open_pack, in_states. by rewrite Est.
Qed.
End Recovery.
End System.

(** ** The theorems *)

Module ArchiveProps.
Import EvidenceProps.

(** An object store: versions under their lock. *)
Record Obj : Type := MkObj { o_bucket : string; o_key : string; o_version : string;
                             o_body : string; o_until : Z }.
Definition is_obj (b k v : string) (o : Obj) : bool :=
  (o_bucket o =s b) && (o_key o =s k) && (o_version o =s v).
Definition find_obj (b k v : string) (t : list Obj) : option Obj := first_where (is_obj b k v) t.
Definition relock (u : Z) (o : Obj) : Obj :=
  MkObj (o_bucket o) (o_key o) (o_version o) (o_body o) (Z.max (o_until o) u).
Definition shelf_put (b k body ct : string) (u : Z) (t : list Obj) : (err + string) * Z * list Obj :=
  let v := "v" +:+ dec (Z.of_nat (length t)) in
  match find_obj b k v t with
  | Some _ => (inl (ETyped "" ""), 1, t)
  | None => (inr v, 1, t ++ [MkObj b k v body u])
  end.
Definition shelf_head (b k v : string) (t : list Obj) : (err + string) * Z * list Obj :=
  (match find_obj b k v t with Some o => inr (sha256_digest (o_body o)) | None => inl (ETyped "" "") end, 1, t).
Definition shelf_extend (b k v : string) (u : Z) (t : list Obj) : (err + unit) * Z * list Obj :=
  (inr tt, 1, update_where (is_obj b k v) (relock u) t).
Definition shelf_hold (b k v : string) (h : bool) (t : list Obj) : (err + unit) * Z * list Obj :=
  (inr tt, 1, t).
Definition shelf_until (b k v : string) (t : list Obj) : (err + option Z) * Z * list Obj :=
  (inr (o_until <$> find_obj b k v t), 1, t).
#[local] Instance shelf_store : ObjectStore (list Obj) := {|
  PutLocked := shelf_put; Head := shelf_head; Pack.ExtendRetention := shelf_extend;
  SetLegalHold := shelf_hold; RetentionUntil := shelf_until;
|}.
Definition on_shelf (t : list Obj) (b k v body : string) (u : Z) : Prop :=
  exists o, find_obj b k v t = Some o /\ o_body o = body /\ o_until o = u.
Lemma on_shelf_refl t b k v body u :
  on_shelf t b k v body u -> exists u', u <= u' /\ on_shelf t b k v body u'.
Proof. intros Hh. exists u. split; [lia|done]. Qed.
Lemma find_obj_app b k v t t' o :
  find_obj b k v t = Some o -> find_obj b k v (t ++ t') = Some o.
Proof. unfold find_obj. rewrite first_where_app. by intros ->. Qed.
Lemma find_obj_new b k v t o :
  find_obj b k v t = None -> is_obj b k v o = true -> find_obj b k v (t ++ [o]) = Some o.
Proof. unfold find_obj. rewrite first_where_app. intros -> Ho. simpl. by rewrite Ho. Qed.
Lemma find_obj_relock b k v b' k' v' u t o :
  find_obj b k v t = Some o ->
  exists o', find_obj b k v (update_where (is_obj b' k' v') (relock u) t) = Some o' /\
    o_body o' = o_body o /\ o_until o <= o_until o'.
Proof.
  unfold find_obj. intros Ho. rewrite first_where_update by done. rewrite Ho. eexists.
  split; [reflexivity|]. destruct (is_obj b' k' v' o); simpl; (split; [done|lia]).
Qed.

#[refine, local] Instance shelf_worm : WormStore (list Obj) := {| holds := on_shelf |}.
Proof.
  all: simpl.
  - intros b k body ct u t r dt t'. unfold shelf_put.
    destruct (find_obj b k _ t) eqn:E; intros [= <- <- <-].
    + split; [lia|]. split; [|done]. intros *. apply on_shelf_refl.
    + split; [lia|]. split.
      * intros b' k' v' body' u' (o & Ho & H1 & H2). exists u'. split; [lia|]. exists o.
        split; [by apply find_obj_app|done].
      * intros v [= <-]. eexists. split; [apply find_obj_new; [done|]|done].
        unfold is_obj. simpl. by rewrite !String.eqb_refl.
  - intros b k v t r dt t'. unfold shelf_head. intros [= <- <- <-].
    split; [lia|]. split; [intros *; apply on_shelf_refl|].
    intros dg Hdg body u (o & Ho & <- & _). rewrite Ho in Hdg. by injection Hdg as <-.
  - intros b k v u t r dt t'. unfold shelf_extend. intros [= <- <- <-]. split; [lia|].
    intros b' k' v' body' u' (o & Ho & H1 & H2).
    destruct (find_obj_relock b' k' v' b k v u t o Ho) as (o' & Hf & Hb & Hle). exists (o_until o').
    split; [lia|]. exists o'. by rewrite Hb.
  - intros b k v h t r dt t'. unfold shelf_hold. intros [= <- <- <-].
    split; [lia|]. intros *. apply on_shelf_refl.
  - intros b k v t r dt t'. unfold shelf_until. intros [= <- <- <-].
    split; [lia|]. split; [intros *; apply on_shelf_refl|].
    intros n Hn body u (o & Ho & H1 & H2). rewrite Ho in Hn. injection Hn as <-. by exists o.
Defined.

(** One LINKED record, a policy and a process that archives it. *)
Definition record0 : EvidenceRow :=
  MkEvidenceRow 1 "ev-1" "plan.created" "PLAN" "agg-1" 1 "acme" 0 0 (sha256_digest "{}") (JObj []) ""
    "plan_item" None WormNone StateLinked "" 0.
Definition db1 : PackDb :=
  MkPackDb (MkEvDb OutboxProps.db0 [record0] [] 2) [] [] [] [] 1.
Definition start : World (Archiver (list Obj)) := MkWorld (MkArchiver db1 []) [] 1000000000.
Definition no_text (e : err) : string := "".
Definition no_hash (s : string) : Z := 7.
Definition tick (w : World (Archiver (list Obj))) :=
  ArchiveOnce no_text no_hash "v1" 30 "archiver" 10 w.
Definition archived_db : World (Archiver (list Obj)) := Eval vm_compute in (tick start).2.

Lemma db1_ok : ledger_ok (db1, []).
Proof.
  split; simpl.
  - intros i j a b Hi. by rewrite lookup_nil in Hi.
  - by intros p Hp%elem_of_nil.
  - by intros p Hp%elem_of_nil.
  - intros i j a b Hi. by rewrite lookup_nil in Hi.
  - by intros l Hl%elem_of_nil.
  - intros r Hr. apply list_elem_of_singleton in Hr as ->. done.
  - split; simpl.
    + intros i j a b Hi Hj _ _ _. apply list_lookup_singleton_Some in Hi as [-> _].
      by apply list_lookup_singleton_Some in Hj as [-> _].
    + intros r Hr. by apply list_elem_of_singleton in Hr as ->.
Qed.
(** The window claimed. *)
Definition claimed : World (Archiver (list Obj)) := (with_db (ClaimWindow 10 "v1") start).2.
Lemma claimed_ok : ledger_ok (pair_of (store claimed)).
Proof.
  assert (Hc : exists x w1, ClaimWindow 10 "v1" (MkWorld db1 [] 1000000000) = (inr x, w1) /\
                            store w1 = ar_db (store claimed)).
  { eexists _, _. split; vm_compute; reflexivity. }
  destruct Hc as (x & w1 & Hrun & Hs).
  pose proof (ledger_claim db1 [] 10 "v1" [] 1000000000 x w1 db1_ok Hrun) as Hok. by rewrite Hs in Hok.
Qed.
Lemma tick_run : exists id, tick start = (inr id, archived_db).
Proof. eexists. vm_compute. reflexivity. Qed.

(** C14.  While archive processes, consumers, repairs and operators act in any
    order and stop anywhere: packs are kept, a VERIFIED pack keeps its state,
    version and digest and its deadline only moves later, a QUARANTINED pack
    never changes, links are only added; a record is linked once, and only to
    a VERIFIED pack at that pack's version and with the record's digest; a
    record is ARCHIVED exactly when it is linked; the object a pack names is
    stored with the recorded digest, and stays stored under a lock that only
    moves later. *)
Theorem archive_history {T} `{OS : ObjectStore T, WS : !WormStore T} `{JS : Jsonb} (s s' : PackDb * T) :
  ledger_ok s -> star archive_step s s' ->
  rows_kept pack_later (packs s.1) (packs s'.1) /\ extends (links s.1) (links s'.1) /\
  (forall i j a b, links s'.1 !! i = Some a -> links s'.1 !! j = Some b ->
     lk_record a = lk_record b -> i = j) /\
  (forall l, l ∈ links s'.1 -> grounded s'.1 l) /\
  (forall r, r ∈ records (evidence s'.1) ->
     ev_worm r = WormArchived <-> exists l, l ∈ links s'.1 /\ lk_record l = ev_id r) /\
  (forall p, p ∈ packs s'.1 -> pk_version p <> "" -> stored s'.2 p) /\
  (forall b k v body u, holds s.2 b k v body u ->
     exists u', u <= u' /\ holds s'.2 b k v body u').
Proof.
  intros Hok Hst. destruct (star_archive _ _ Hst Hok) as ([_ K2 _ K4 K5 K6 _] & H1 & H2 & H3).
  do 2 (split; [done|]). split; [intros i j a b Ha Hb; by eapply K4|]. split; [done|].
  split; [|split; [done|exact H3]].
  intros r Hr. rewrite (K6 r Hr). apply linked_record_spec.
Qed.
Lemma archive_history_witness :
  exists l, links (ar_db (store archived_db)) = [l] /\ grounded (ar_db (store archived_db)) l.
Proof.
  destruct tick_run as [id Hr].
  assert (Hst : star (@archive_step (list Obj) shelf_store shelf_worm json_text) (db1, [])
                  (pair_of (store archived_db))).
  { exact (proj1 (@goes_ArchiveOnce (list Obj) shelf_store shelf_worm json_text no_text no_hash "v1" 30
                    "archiver" 10 start _ _ I Hr)). }
  destruct (@archive_history (list Obj) shelf_store shelf_worm json_text _ _ db1_ok Hst)
    as (_ & _ & _ & Hg & _).
  eexists. split; [vm_compute; reflexivity|]. apply Hg. left.
Defined.

(** A tick of an archive process, sweep and claim, whatever fails in the
    database or the object store and wherever it stops, is a sequence of the
    system's steps. *)
Theorem ArchiveOnce_refines {T} `{OS : ObjectStore T, WS : !WormStore T} `{JS : Jsonb}
    error_text hashtext pv days consumer n (w : World (Archiver T)) x w' :
  ArchiveOnce error_text hashtext pv days consumer n w = (x, w') ->
  star archive_step (pair_of (store w)) (pair_of (store w')).
Proof. intros Hr. by destruct (goes_ArchiveOnce error_text hashtext pv days consumer n w x w' I Hr). Qed.
Lemma ArchiveOnce_refines_witness :
  star (@archive_step (list Obj) shelf_store shelf_worm json_text) (db1, []) (pair_of (store archived_db)).
Proof.
  destruct tick_run as [id Hr].
  exact (@ArchiveOnce_refines (list Obj) shelf_store shelf_worm json_text no_text no_hash "v1" 30
           "archiver" 10 start _ _ Hr).
Defined.

(** When archivePack succeeds, the pack is VERIFIED at a version whose
    object holds the manifest of exactly these records and is locked up to the
    pack's deadline, less a minute; every record is linked, those that were
    not before by this pack at this version.  A pack found LOCKED keeps the
    deadline and the version of its row; otherwise the deadline is the
    retention from now. *)
Theorem archivePack_archives {T} `{OS : ObjectStore T, WS : !WormStore T} `{JS : Jsonb}
    error_text pv days id items (w : World (Archiver T)) p w' :
  ledger_ok (pair_of (store w)) -> from_index (ar_db (store w)) items ->
  p ∈ packs (ar_db (store w)) -> pk_pack p = id ->
  archivePack error_text pv days id items w = (inr tt, w') ->
  exists u v body, archived (ar_db (store w)) p items u v body (store w') /\
    match pk_state p with
    | PackLocked => pk_until p = Some u /\ pk_version p = v
    | _ => u = GoTime.add_days days (clock w) /\ manifest_at pv days p items body
    end.
Proof. apply archivePack_chain. Qed.
Lemma archivePack_archives_witness :
  let w := claimed in
  exists p u v body, packs (ar_db (store w)) = [p] /\
    archived (ar_db (store w)) p [item_of record0] u v body
      (@archivePack (list Obj) shelf_store no_text "v1" 30 (pk_pack p) [item_of record0] w).2.(store).
Proof.
  set (w := claimed).
  set (p := new_pack 1 (Digest "v1" [item_of record0]) [item_of record0]).
  destruct (@archivePack_archives (list Obj) shelf_store shelf_worm json_text no_text "v1" 30 (pk_pack p)
              [item_of record0] w p
              (@archivePack (list Obj) shelf_store no_text "v1" 30 (pk_pack p) [item_of record0] w).2)
    as (u & v & body & Ha & _).
  - exact claimed_ok.
  - intros it Hit. apply list_elem_of_singleton in Hit as ->. exists record0. split; [left|done].
  - assert (packs (ar_db (store w)) = [p]) as -> by (vm_compute; reflexivity). left.
  - done.
  - vm_compute. reflexivity.
  - exists p, u, v, body. split; [vm_compute; reflexivity|exact Ha].
Defined.

(** Recovery of a pack ends: it calls itself at most once, whatever the
    fuel, and when it succeeds the pack is VERIFIED or QUARANTINED. *)
Theorem Recover_terminal {T} `{OS : ObjectStore T, WS : !WormStore T} `{JS : Jsonb}
    error_text pv days id (w : World (Archiver T)) :
  ledger_ok (pair_of (store w)) ->
  (forall n, recover error_text pv days (2 + n) id w = Recover error_text pv days id w) /\
  (forall w', Recover error_text pv days id w = (inr tt, w') ->
     exists q, q ∈ packs (ar_db (store w')) /\ pk_pack q = id /\
       (pk_state q = PackVerified \/ pk_state q = PackQuarantined)).
Proof.
  intros Hok. split; [intros n; apply recover_fuel, (ok_packs _ Hok)|]. intros w' Hr.
  destruct (recover_done error_text pv days 2 id w w' Hok Hr) as (q & Hq & Hid & Ho). exists q. do 2 (split; [done|]).
  unfold open_pack, in_states in Ho. simpl in Ho. destruct (pk_state q); auto; discriminate.
Qed.
Lemma Recover_terminal_witness :
  exists q, q ∈ packs (ar_db (store (Recover no_text "v1" 30 (Digest "v1" [item_of record0]) claimed).2)) /\
    (pk_state q = PackVerified \/ pk_state q = PackQuarantined).
Proof.
  destruct (@Recover_terminal (list Obj) shelf_store shelf_worm json_text no_text "v1" 30
              (Digest "v1" [item_of record0]) claimed claimed_ok) as [_ Ht].
  destruct (Ht (Recover no_text "v1" 30 (Digest "v1" [item_of record0]) claimed).2) as (q & Hq & _ & Hst);
    [vm_compute; reflexivity|]. by exists q.
Defined.

(** A window whose pack is QUARANTINED stops the archive: as long as the
    oldest unarchived records are the same, every tick claims them again, finds
    the pack's id taken and changes nothing, so these records and those behind
    them are never archived. *)
Theorem quarantined_window_stuck {T} `{OS : ObjectStore T}
    error_text hashtext pv days consumer n (w : World (Archiver T)) p :
  let d := ar_db (store w) in
  let items := window (if n <=? 0 then 100 else n) d in
  faults w = [] -> items <> [] -> (forall q, q ∈ packs d -> open_pack q = false) ->
  p ∈ packs d -> pk_pack p = Digest pv items -> pk_state p = PackQuarantined ->
  forall k, ticks error_text hashtext pv days consumer n k w = (inr (repeat (Digest pv items) k), w).
Proof.
  intros d items Hf Hne Hopen Hp Hid _ k. apply ticks_stuck; [done|done| |].
  - apply rows_where_none. exact Hopen.
  - apply any_where_spec. exists p. split; [done|]. by apply String.eqb_eq.
Qed.
Lemma quarantined_window_stuck_witness :
  let p := set_pk_failed PackQuarantined ReasonDigestMismatch
             (new_pack 1 (Digest "v1" [item_of record0]) [item_of record0]) in
  let w := MkWorld (MkArchiver (with_packs [p] db1) ([] : list Obj)) [] 0 in
  ticks no_text no_hash "v1" 30 "archiver" 10 1000 w = (inr (repeat (pk_pack p) 1000), w).
Proof.
  intros p w. apply (quarantined_window_stuck no_text no_hash "v1" 30 "archiver" 10 w p);
    [done|discriminate| |left|done|done].
  intros q Hq. apply list_elem_of_singleton in Hq as ->. done.
Defined.
End ArchiveProps.
