(* ===== verification/ExitPack.v ===== *)
(** * The exit pack registry (src/internal/exitpack)

    Versioned exit packages per vendor.  Module [Pack] is the domain part of
    pack.go (completeness, the export bundle and its digest, the red-line
    scan), module [PackStore] its store over saoaf.exit_pack of migration
    00011 with the freeze trigger and the index that allows one ACTIVE pack
    per vendor.  A process may stop between the read and the write of an
    operation while others run: [xp_step].  The theorems: what every such
    history keeps, what each operation does, that an export can be read back,
    what reading a stored pack loses, and the race of Validate. *)

From S2P Require Import Prelude GoStd GoJson GoTime GoUnmarshal Sql Schema Evidence.

(** ** The table *)

Inductive XpState : Type := XpDraft | XpValidated | XpActive | XpExpired | XpSuperseded.
#[export] Instance XpState_eq_dec : EqDecision XpState.
Proof. solve_decision. Defined.

(** saoaf.exit_pack *)
Record XpRow : Type := MkXpRow {
  xp_key : string;
  xp_vendor : string;
  xp_rev : Z;
  xp_state : XpState;
  xp_owner : string;
  xp_subst : string;
  xp_steps : json;
  xp_refs : json;
  xp_check : json;
  xp_until : option Z;
  xp_digest : option string;
  xp_manifest : option string;
  xp_created_by : string;
  xp_validated_at : option Z;
  xp_activated_at : option Z;
  xp_superseded_at : option Z;
  xp_expired_at : option Z;
  xp_created_at : Z;
}.
Definition set_xp_validated (digest manifest : string) (t : Z) (r : XpRow) : XpRow :=
  MkXpRow (xp_key r) (xp_vendor r) (xp_rev r) XpValidated (xp_owner r) (xp_subst r) (xp_steps r)
    (xp_refs r) (xp_check r) (xp_until r) (Some digest) (Some manifest) (xp_created_by r) (Some t)
    (xp_activated_at r) (xp_superseded_at r) (xp_expired_at r) (xp_created_at r).
Definition set_xp_superseded (t : Z) (r : XpRow) : XpRow :=
  MkXpRow (xp_key r) (xp_vendor r) (xp_rev r) XpSuperseded (xp_owner r) (xp_subst r) (xp_steps r)
    (xp_refs r) (xp_check r) (xp_until r) (xp_digest r) (xp_manifest r) (xp_created_by r)
    (xp_validated_at r) (xp_activated_at r) (Some t) (xp_expired_at r) (xp_created_at r).
Definition set_xp_active (t : Z) (r : XpRow) : XpRow :=
  MkXpRow (xp_key r) (xp_vendor r) (xp_rev r) XpActive (xp_owner r) (xp_subst r) (xp_steps r)
    (xp_refs r) (xp_check r) (xp_until r) (xp_digest r) (xp_manifest r) (xp_created_by r)
    (xp_validated_at r) (Some t) (xp_superseded_at r) (xp_expired_at r) (xp_created_at r).
Definition set_xp_expired (t : Z) (r : XpRow) : XpRow :=
  MkXpRow (xp_key r) (xp_vendor r) (xp_rev r) XpExpired (xp_owner r) (xp_subst r) (xp_steps r)
    (xp_refs r) (xp_check r) (xp_until r) (xp_digest r) (xp_manifest r) (xp_created_by r)
    (xp_validated_at r) (xp_activated_at r) (xp_superseded_at r) (Some t) (xp_created_at r).

(** The packs, and the evidence index their references point into. *)
Record XpDb : Type := MkXpDb { xpacks : list XpRow; xevidence : EvDb }.
Definition with_xpacks (v : list XpRow) (d : XpDb) : XpDb := MkXpDb v (xevidence d).

(** *** The trigger and the unique index *)

Definition verified (s : XpState) : bool := negb (s =d XpDraft).
Definition same_content (a b : XpRow) : Prop :=
  xp_vendor b = xp_vendor a /\ xp_key b = xp_key a /\ xp_rev b = xp_rev a /\
  xp_owner b = xp_owner a /\ xp_subst b = xp_subst a /\ xp_steps b = xp_steps a /\
  xp_refs b = xp_refs a /\ xp_check b = xp_check a /\ xp_until b = xp_until a /\
  xp_digest b = xp_digest a /\ xp_manifest b = xp_manifest a /\ xp_created_by b = xp_created_by a.
#[export] Instance json_eq_dec : EqDecision json.
Proof.
  refine (fix go (a b : json) : Decision (a = b) :=
    match a, b with
    | JNull, JNull => left eq_refl
    | JBool x, JBool y => cast_if (decide (x = y))
    | JNum x, JNum y => cast_if (decide (x = y))
    | JStr x, JStr y => cast_if (decide (x = y))
    | JArr x, JArr y => cast_if (list_eq_dec (dec := go) x y)
    | JObj x, JObj y => cast_if (list_eq_dec (dec := fun p q =>
        match p, q with
        | (k, v), (k', v') => cast_if_and (decide (k = k')) (go v v')
        end) x y)
    | _, _ => right _
    end); abstract congruence.
Defined.
#[export] Instance same_content_dec a b : Decision (same_content a b).
Proof. unfold same_content. apply _. Defined.
(** freeze_exitpack_content on UPDATE: a verified row keeps its content and
    does not become a draft. *)
Definition freeze_ok (old new : XpRow) : bool :=
  negb (verified (xp_state old)) ||
  (bool_decide (same_content old new) && verified (xp_state new)).
Definition is_active (r : XpRow) : bool := xp_state r =d XpActive.
Definition active_unique (t : list XpRow) : bool := unique_on String.eqb is_active xp_vendor t.

(** [UPDATE saoaf.exit_pack SET f WHERE p], its RowsAffected. *)
Definition update_packs (p : XpRow -> bool) (f : XpRow -> XpRow) : M XpDb Z :=
  stmt (fun d =>
    let t := update_where p f (xpacks d) in
    if any_where (fun r => p r && negb (freeze_ok r (f r))) (xpacks d) then inl CheckViolation
    else if active_unique t then inr (count_where p (xpacks d), with_xpacks t d)
    else inl (Unique "exitpack_active")).

(** ** The domain part of pack.go *)

Module Pack.

Definition errV (reason : string) : err := ETyped "" reason.
Definition ReasonMissingOwner : string := "EXITPACK_MISSING_OWNER".
Definition ReasonMissingSubstitute : string := "EXITPACK_MISSING_SUBSTITUTE_PROVIDER".
Definition ReasonMissingRecovery : string := "EXITPACK_MISSING_RECOVERY_STEPS".
Definition ReasonMissingEvidence : string := "EXITPACK_MISSING_EVIDENCE".
Definition ReasonInvalidState : string := "EXITPACK_INVALID_TRANSITION".
Definition ReasonRevisionConflict : string := "EXITPACK_REVISION_CONFLICT".
Definition ReasonAlreadyActive : string := "EXITPACK_ALREADY_ACTIVE".
Definition ReasonForbiddenContent : string := "EXITPACK_FORBIDDEN_CONTENT".
Definition ErrNotFound : err := ETyped "exitpack: not found" "".

(** Pack.  [None] is a nil slice or map; a map's fields are in the order of
    their keys. *)
Record Pack : Type := MkPack {
  PackKey : string;
  Vendor : string;
  Revision : Z;
  State : XpState;
  OwnerRef : string;
  SubstituteProvider : string;
  RecoverySteps : option (list string);
  EvidenceRefs : option (list string);
  Checklist : option (list (string * json));
  ValidUntil : option Z;
  PDigest : string;
  CreatedBy : string;
}.

(** [len(s) == 0] *)
Definition no_items {X} (s : option (list X)) : bool :=
  match s with Some (_ :: _) => false | _ => true end.
Definition ValidateCompleteness (p : Pack) : err + unit :=
  if OwnerRef p =s "" then inl (errV ReasonMissingOwner)
  else if SubstituteProvider p =s "" then inl (errV ReasonMissingSubstitute)
  else if no_items (RecoverySteps p) then inl (errV ReasonMissingRecovery)
  else if no_items (EvidenceRefs p) then inl (errV ReasonMissingEvidence)
  else inr tt.

(** *** The export *)

Definition jslice (s : option (list string)) : json :=
  match s with Some l => jstrings l | None => JNull end.
Definition jmap (m : option (list (string * json))) : json :=
  match m with Some fs => JObj fs | None => JNull end.
(** The map BuildExport encodes, in the order of its keys. *)
Definition export_json (p : Pack) : json :=
  JObj [("checklist", jmap (Checklist p)); ("evidence_refs", jslice (EvidenceRefs p));
        ("owner_ref", JStr (OwnerRef p)); ("pack_key", JStr (PackKey p));
        ("recovery_steps", jslice (RecoverySteps p));
        ("substitute_provider", JStr (SubstituteProvider p)); ("vendor", JStr (Vendor p));
        ("version", JNum (dec (Revision p)))].
Definition BuildExport (p : Pack) : string * string :=
  let manifest := marshal (export_json p) in (manifest, sha256_digest manifest).
Definition VerifyExport (manifest want : string) : err + unit :=
  if sha256_digest manifest =s want then inr tt else inl plain_error.

Definition sep : Regex.re := Regex.opt (Regex.one_of "_-").
Definition two_words (a b : string) : Regex.re :=
  Regex.RSeq (Regex.fold_word a) (Regex.RSeq sep (Regex.fold_word b)).
Definition exportForbidden : Regex.re :=
  Regex.alts [Regex.fold_word "credential"; Regex.fold_word "secret"; Regex.fold_word "password";
              two_words "api" "key"; two_words "private" "key"; Regex.fold_word "prompt";
              two_words "model" "response"; two_words "tool" "param"; two_words "agent" "message"].
Definition ScanExportForForbidden (manifest : string) : err + unit :=
  if Regex.match_string exportForbidden manifest then inl (errV ReasonForbiddenContent) else inr tt.
End Pack.

(** ** The store *)

Module PackStore.
Import Pack.

(** The text PostgreSQL gives an instant: ISO style, date and time apart by a
    space and a numeric zone, so without the letter T. *)
Class PgTime : Type := {
  timestamptz_text : Z -> string;
  text_no_T t : "T"%char ∉ bytes_of_string (timestamptz_text t);
}.

Section Store.
Context `{Jsonb, PgTime}.
(** The text encoding/json gives the float64 that a literal of a decoded value
    stands for; the database's text collation. *)
Context (float_text : string -> string) (text_compare : string -> string -> comparison).

(** *** Reading the columns back *)

(** A decoded value as [json.Marshal] will print it: numbers through float64,
    the last of repeated names, names sorted. *)
Fixpoint put_field (k : string) (v : json) (fs : list (string * json)) : list (string * json) :=
  match fs with
  | [] => [(k, v)]
  | (k', v') :: fs' =>
      match String.compare k k' with
      | Eq => (k, v) :: fs'
      | Lt => (k, v) :: (k', v') :: fs'
      | Gt => (k', v') :: put_field k v fs'
      end
  end.
Definition to_map (fs : list (string * json)) : list (string * json) :=
  fold_left (fun m kv => put_field kv.1 kv.2 m) fs [].
Fixpoint decoded (j : json) : json :=
  match j with
  | JNum l => JNum (float_text l)
  | JArr l => JArr (map decoded l)
  | JObj fs => JObj (to_map (map (fun kv => (kv.1, decoded kv.2)) fs))
  | _ => j
  end.
(** [json.Unmarshal(col, &s)] for [[]string] and [map[string]any]; errors are
    dropped, an element of another kind is left empty. *)
Definition string_item (j : json) : string := match j with JStr s => s | _ => "" end.
Definition read_slice (col : json) : option (list string) :=
  match unmarshal (jsonb_out col) with
  | Some (JArr l) => Some (map string_item l)
  | _ => None
  end.
Definition read_map (col : json) : option (list (string * json)) :=
  match unmarshal (jsonb_out col) with
  | Some (JObj fs) => match decoded (JObj fs) with JObj fs' => Some fs' | _ => None end
  | _ => None
  end.
(** [COALESCE(valid_until::text, '')], then [time.Parse(time.RFC3339Nano, ..)]. *)
Definition read_until (u : option Z) : option Z :=
  match u with
  | Some t => GoTime.parse_rfc3339_nano (timestamptz_text t)
  | None => None
  end.
Definition scanPack (r : XpRow) : Pack :=
  MkPack (xp_key r) (xp_vendor r) (xp_rev r) (xp_state r) (xp_owner r) (xp_subst r)
    (read_slice (xp_steps r)) (read_slice (xp_refs r)) (read_map (xp_check r))
    (read_until (xp_until r)) (default "" (xp_digest r)) "".

Definition is_pack (key : string) (rev : Z) (r : XpRow) : bool :=
  (xp_key r =s key) && (xp_rev r =? rev).
Definition find_pack (key : string) (rev : Z) : M XpDb XpRow :=
  query_row (fun d => first_where (is_pack key rev) (xpacks d)).
Definition not_found {A} (e : err) : M XpDb A := if is_no_rows e then throw ErrNotFound else throw e.

(** *** CreateDraft *)

Definition max_int32 : Z := 2147483647.
(** COALESCE(MAX(revision), 0) + 1, an int4 *)
Definition next_revision (key : string) : M XpDb Z :=
  stmt (fun d =>
    let m := max_of xp_rev (rows_where (fun r => xp_key r =s key) (xpacks d)) in
    if max_int32 <=? m then inl BadInput else inr (m + 1, d)).
Definition draft_row (p : Pack) (rev t : Z) (steps refs check : json) : XpRow :=
  MkXpRow (PackKey p) (Vendor p) rev XpDraft (OwnerRef p) (SubstituteProvider p) steps refs check
    (ValidUntil p) None None (CreatedBy p) None None None None t.
Definition insert_draft (p : Pack) (rev t : Z) : M XpDb unit :=
  insert_row (fun d =>
    match jsonb_in (marshal (jslice (RecoverySteps p))),
          jsonb_in (marshal (jslice (EvidenceRefs p))),
          jsonb_in (marshal (jmap (Checklist p))) with
    | Some steps, Some refs, Some check =>
        if any_where (is_pack (PackKey p) rev) (xpacks d)
        then inl (Unique "exit_pack_pack_key_revision_key")
        else inr (with_xpacks (xpacks d ++ [draft_row p rev t steps refs check]) d)
    | _, _, _ => inl BadInput
    end).
Definition draft_write (p : Pack) (rev : Z) : M XpDb unit :=
  let! t := now in
  catch (insert_draft p rev t)
    (fun e => throw (if isUniqueViolation e then errV ReasonRevisionConflict else e)).
(** The revision that was claimed. *)
Definition CreateDraft (p : Pack) : M XpDb Z :=
  connect ;! let! rev := next_revision (PackKey p) in draft_write p rev ;! ret rev.

(** *** Validate *)

(** What Validate does with the pack it has read. *)
Definition validate_write (key : string) (rev : Z) (p : Pack) : M XpDb unit :=
  guard (negb (State p =d XpDraft)) (errV ReasonInvalidState) ;!
  (match ValidateCompleteness p with inl e => throw e | inr _ => ret tt end) ;!
  let '(manifest, digest) := BuildExport p in
  (match ScanExportForForbidden manifest with inl e => throw e | inr _ => ret tt end) ;!
  let! t := now in
  let! _ := update_packs (is_pack key rev) (set_xp_validated digest manifest t) in ret tt.
Definition read_pack (key : string) (rev : Z) : M XpDb Pack :=
  let! r := catch (find_pack key rev) not_found in ret (scanPack r).
(** withPackTx *)
Definition withPackTx (key : string) (rev : Z) (fn : Pack -> M XpDb unit) : M XpDb unit :=
  tx (let! p := read_pack key rev in fn p ;! ret (Commit tt)).
Definition Validate (key : string) (rev : Z) : M XpDb unit :=
  withPackTx key rev (validate_write key rev).

(** *** Activate *)

Definition on_active_slot (e : err) : M XpDb Z :=
  throw (if isUniqueViolation e then errV ReasonAlreadyActive else e).
(** The two updates: the vendor's other ACTIVE pack is superseded, this one
    activated. *)
Definition supersedable (vendor key : string) (rev : Z) (r : XpRow) : bool :=
  (xp_vendor r =s vendor) && is_active r && negb (is_pack key rev r).
Definition activatable (key : string) (rev : Z) (r : XpRow) : bool :=
  is_pack key rev r && ((xp_state r =d XpValidated) || (xp_state r =d XpSuperseded)).
Definition activate_write (vendor key : string) (rev : Z) : M XpDb unit :=
  let! t := now in
  let! _ := update_packs (supersedable vendor key rev) (set_xp_superseded t) in
  let! n := catch (update_packs (activatable key rev) (set_xp_active t)) on_active_slot in
  guard (n =? 0) (errV ReasonInvalidState).
Definition Activate (key : string) (rev : Z) : M XpDb unit :=
  tx (let! r := catch (find_pack key rev) not_found in
      if xp_state r =d XpActive then ret (Rollback tt)
      else if negb (xp_state r =d XpValidated) && negb (xp_state r =d XpSuperseded)
      then throw (errV ReasonInvalidState)
      else activate_write (xp_vendor r) key rev ;! ret (Commit tt)).

(** *** SweepExpired and the reads *)

Definition overdue (t : Z) (r : XpRow) : bool :=
  is_active r && match xp_until r with Some u => u <? t | None => false end.
(** UPDATE ... RETURNING: key, vendor and revision of the packs that expired. *)
Definition SweepExpired (t : Z) : M XpDb (list (string * string * Z)) :=
  let! at_ := now in
  stmt (fun d =>
    inr (map (fun r => (xp_key r, xp_vendor r, xp_rev r)) (rows_where (overdue t) (xpacks d)),
         with_xpacks (update_where (overdue t) (set_xp_expired at_) (xpacks d)) d)).

(** jsonb_array_elements_text over the references; an element that is not
    text is its JSON text. *)
Definition ref_texts (col : json) : list string :=
  match col with
  | JArr l => map (fun j => match j with JStr s => s | _ => jsonb_out j end) l
  | _ => []
  end.
Definition linked_event (e : EvDb) (id : string) : bool :=
  any_where (fun r => (ev_state r =d StateLinked) && (ev_event_id r =s id)) (records e).
Definition at_risk (d : XpDb) (r : XpRow) : bool :=
  (xp_state r =d XpExpired) || (xp_state r =d XpSuperseded) ||
  (is_active r && existsb (fun id => negb (linked_event (xevidence d) id)) (ref_texts (xp_refs r))).
Definition by_vendor (a b : XpRow) : comparison :=
  Index.then_by (text_compare (xp_vendor a) (xp_vendor b))
    (Index.then_by (text_compare (xp_key a) (xp_key b)) (xp_rev a ?= xp_rev b)).
Definition vendor_le (a b : XpRow) : Prop := by_vendor a b <> Gt.
#[local] Instance vendor_le_dec a b : Decision (vendor_le a b).
Proof using. unfold vendor_le. apply _. Defined.
Definition RiskView : M XpDb (list Pack) :=
  query (fun d => map scanPack (merge_sort vendor_le (rows_where (at_risk d) (xpacks d)))).

Definition Get (key : string) (rev : Z) : M XpDb Pack := connect ;! read_pack key rev.
(** The newest revision that is not a draft. *)
Definition latest (key : string) (d : XpDb) : option XpRow :=
  max_by xp_rev (rows_where (fun r => (xp_key r =s key) && verified (xp_state r)) (xpacks d)).
Definition LatestValidated (key : string) : M XpDb Pack :=
  connect ;! let! r := catch (query_row (latest key)) not_found in ret (scanPack r).
End Store.
End PackStore.

(** ** Any number of processes

    A process may stop, or others run, between the read and the write of an
    operation; the writes of one transaction are one step. *)

Section Log.
Import Pack PackStore.
Context `{JS : Jsonb, PT : PgTime}.
Context (float_text : string -> string).

Inductive Proc : Type :=
| Resting
| Drafting (p : Pack) (rev : Z)
| Validating (key : string) (rev : Z) (p : Pack)
| Activating (vendor key : string) (rev : Z).

Definition Sys : Type := XpDb * list Proc.
Inductive xp_step : Sys -> Sys -> Prop :=
| xs_draft_read d ps j p rev fl t w' :
    ps !! j = Some Resting -> next_revision (PackKey p) (MkWorld d fl t) = (inr rev, w') ->
    xp_step (d, ps) (d, <[j := Drafting p rev]> ps)
| xs_draft_write d ps j p rev fl t w' :
    ps !! j = Some (Drafting p rev) -> draft_write p rev (MkWorld d fl t) = (inr tt, w') ->
    xp_step (d, ps) (store w', <[j := Resting]> ps)
| xs_validate_read d ps j key rev p fl t w' :
    ps !! j = Some Resting -> read_pack float_text key rev (MkWorld d fl t) = (inr p, w') ->
    xp_step (d, ps) (d, <[j := Validating key rev p]> ps)
| xs_validate_write d ps j key rev p fl t w' :
    ps !! j = Some (Validating key rev p) ->
    validate_write key rev p (MkWorld d fl t) = (inr tt, w') ->
    xp_step (d, ps) (store w', <[j := Resting]> ps)
| xs_activate_read d ps j key rev r fl t w' :
    ps !! j = Some Resting -> find_pack key rev (MkWorld d fl t) = (inr r, w') ->
    xp_step (d, ps) (d, <[j := Activating (xp_vendor r) key rev]> ps)
| xs_activate_write d ps j vendor key rev fl t w' :
    ps !! j = Some (Activating vendor key rev) ->
    activate_write vendor key rev (MkWorld d fl t) = (inr tt, w') ->
    xp_step (d, ps) (store w', <[j := Resting]> ps)
| xs_sweep d ps n fl t out w' :
    SweepExpired n (MkWorld d fl t) = (inr out, w') -> xp_step (d, ps) (store w', ps)
| xs_stop d ps j : xp_step (d, ps) (d, <[j := Resting]> ps)
| xs_evidence d ps e : xp_step (d, ps) (MkXpDb (xpacks d) e, ps).

(** ** The invariant *)

(** The columns no statement writes. *)
Definition same_draft (a b : XpRow) : Prop :=
  xp_key b = xp_key a /\ xp_vendor b = xp_vendor a /\ xp_rev b = xp_rev a /\
  xp_owner b = xp_owner a /\ xp_subst b = xp_subst a /\ xp_steps b = xp_steps a /\
  xp_refs b = xp_refs a /\ xp_check b = xp_check a /\ xp_until b = xp_until a /\
  xp_created_by b = xp_created_by a.
(** What later states keep of a row. *)
Definition xp_later (a b : XpRow) : Prop :=
  same_draft a b /\
  (verified (xp_state a) = true ->
     verified (xp_state b) = true /\ xp_digest b = xp_digest a /\ xp_manifest b = xp_manifest a).
(** A verified row: complete, and its digest that of its manifest, the export
    of its content, which passed the scan. *)
Definition sealed (r : XpRow) : Prop :=
  let p := scanPack float_text r in
  ValidateCompleteness p = inr tt /\ xp_manifest r = Some (BuildExport p).1 /\
  xp_digest r = Some (BuildExport p).2 /\ ScanExportForForbidden (BuildExport p).1 = inr tt.
(** Two packs with the same content. *)
Definition same_pack (p q : Pack) : Prop :=
  ValidateCompleteness p = ValidateCompleteness q /\ export_json p = export_json q.

Record table_ok (t : list XpRow) : Prop := {
  ok_keys : indexed (fun _ => true) (fun r => (xp_key r, xp_rev r)) t;
  ok_active : indexed is_active xp_vendor t;
  ok_sealed : forall r, r ∈ t -> verified (xp_state r) = true -> sealed r;
}.
Definition proc_ok (t : list XpRow) (c : Proc) : Prop :=
  match c with
  | Validating key rev p =>
      exists r, r ∈ t /\ is_pack key rev r = true /\ same_pack p (scanPack float_text r)
  | _ => True
  end.
Definition sys_ok (s : Sys) : Prop := table_ok (xpacks s.1) /\ Forall (proc_ok (xpacks s.1)) s.2.

Lemma is_pack_spec key rev r : is_pack key rev r = true <-> xp_key r = key /\ xp_rev r = rev.
Proof using. unfold is_pack. by rewrite andb_true_iff, String.eqb_eq, Z.eqb_eq. Qed.
Lemma is_pack_one t key rev r r' :
  table_ok t -> r ∈ t -> r' ∈ t -> is_pack key rev r = true -> is_pack key rev r' = true -> r' = r.
Proof using.
  intros Hok Hr Hr' [E1 E2]%is_pack_spec [F1 F2]%is_pack_spec.
  eapply (indexed_elem (fun _ => true)); [apply (ok_keys _ Hok)|done|done|done|done|].
  simpl. congruence.
Qed.
Lemma same_draft_scan a b : same_draft a b -> same_pack (scanPack float_text a) (scanPack float_text b).
Proof using.
  destruct a, b. unfold same_draft, same_pack, ValidateCompleteness, export_json. simpl.
  intros (-> & -> & -> & -> & -> & -> & -> & -> & -> & ->). done.
Qed.
Lemma same_pack_trans p q r : same_pack p q -> same_pack q r -> same_pack p r.
Proof using. intros [E1 E2] [F1 F2]. split; congruence. Qed.
Lemma xp_later_refl a : xp_later a a.
Proof using. by repeat split. Qed.
Lemma xp_later_trans a b c : xp_later a b -> xp_later b c -> xp_later a c.
Proof using.
  intros [H1 H2] [K1 K2]. split; [unfold same_draft in *; intuition congruence|].
  intros Hv. destruct (H2 Hv) as (Hv2 & E1 & E2). destruct (K2 Hv2) as (? & F1 & F2).
  split; [done|]. split; congruence.
Qed.

(** *** Updates *)

Lemma update_packs_inr p f (w : World XpDb) n w' :
  update_packs p f w = (inr n, w') ->
  store w' = with_xpacks (update_where p f (xpacks (store w))) (store w) /\ clock w' = clock w /\
  n = count_where p (xpacks (store w)) /\
  active_unique (update_where p f (xpacks (store w))) = true /\
  forall r, r ∈ xpacks (store w) -> p r = true -> freeze_ok r (f r) = true.
Proof using.
  intros Hr. unfold update_packs in Hr. apply stmt_inr in Hr as [Hf Hc].
  destruct (any_where _ _) eqn:Ea; [discriminate|]. destruct (active_unique _) eqn:Eu; [|discriminate].
  injection Hf as <- <-. do 4 (split; [done|]). intros r Hr Hp.
  eapply (any_where_false _ _) in Ea; [|exact Hr]. rewrite Hp in Ea. simpl in Ea.
  by destruct (freeze_ok r (f r)).
Qed.

Lemma sealed_same a b :
  same_draft a b -> xp_digest b = xp_digest a -> xp_manifest b = xp_manifest a -> sealed a -> sealed b.
Proof using.
  intros Hd E1 E2 (H1 & H2 & H3 & H4). destruct (same_draft_scan a b Hd) as [F1 F2].
  unfold sealed, BuildExport in *. cbn [fst snd] in *. rewrite <- F1, <- F2, E1, E2. done.
Qed.
Lemma freeze_later r r' :
  same_draft r r' -> freeze_ok r r' = true -> xp_later r r'.
Proof using.
  intros Hd Hf. split; [done|]. intros Hv. unfold freeze_ok in Hf. rewrite Hv in Hf. simpl in Hf.
  apply andb_true_iff in Hf as [Hc Hv']. apply bool_decide_eq_true in Hc.
  unfold same_content in Hc. intuition.
Qed.

(** An update of rows that keeps their content. *)
Lemma update_table t p f :
  table_ok t -> (forall r, same_draft r (f r)) ->
  active_unique (update_where p f t) = true ->
  (forall r, r ∈ t -> p r = true -> freeze_ok r (f r) = true) ->
  (forall r, r ∈ t -> p r = true -> verified (xp_state r) = false ->
     verified (xp_state (f r)) = true -> sealed (f r)) ->
  table_ok (update_where p f t) /\ rows_kept xp_later t (update_where p f t).
Proof using.
  intros [K1 K2 K3] Hd Hu Hf Hs. split.
  - split.
    + apply indexed_update; [done|]. intros r _ _ _. split; [done|].
      destruct (Hd r) as (-> & _ & -> & _). done.
    + by apply (unique_on_spec String.eqb String.eqb_eq).
    + intros r Hr Hv. apply elem_of_update_where in Hr as [(r0 & Hr0 & Hp & ->)|[Hr _]]; [|by apply K3].
      destruct (verified (xp_state r0)) eqn:Ev; [|by apply Hs].
      destruct (freeze_later _ _ (Hd r0) (Hf r0 Hr0 Hp)) as [_ Hl]. destruct (Hl Ev) as (_ & E1 & E2).
      eapply sealed_same; [apply Hd|done|done|by apply K3].
  - apply rows_kept_update_in; [apply xp_later_refl|]. intros r Hr Hp.
    apply freeze_later; [apply Hd|by apply Hf].
Qed.
Lemma procs_kept t t' ps :
  rows_kept xp_later t t' -> Forall (proc_ok t) ps -> Forall (proc_ok t') ps.
Proof using.
  intros Hk Hps. eapply Forall_impl; [exact Hps|]. intros [| |key rev p|]; try done. intros (r & Hr & He & Hp).
  apply list_elem_of_lookup_1 in Hr as [i Hr]. destruct (Hk i r Hr) as (r' & Hr' & Hd & _).
  exists r'. split; [by eapply list_elem_of_lookup_2|]. split.
  - apply is_pack_spec in He as [E1 E2]. apply is_pack_spec. destruct Hd as (-> & _ & -> & _). done.
  - eapply same_pack_trans; [exact Hp|]. by apply same_draft_scan.
Qed.
Lemma active_unique_spec t : active_unique t = true <-> indexed is_active xp_vendor t.
Proof using. apply (unique_on_spec String.eqb String.eqb_eq). Qed.

(** *** The writes *)

Lemma draft_write_ok d fl t p rev w' :
  table_ok (xpacks d) -> draft_write p rev (MkWorld d fl t) = (inr tt, w') ->
  exists steps refs check,
    jsonb_in (marshal (jslice (RecoverySteps p))) = Some steps /\
    jsonb_in (marshal (jslice (EvidenceRefs p))) = Some refs /\
    jsonb_in (marshal (jmap (Checklist p))) = Some check /\
    any_where (is_pack (PackKey p) rev) (xpacks d) = false /\
    xpacks (store w') = xpacks d ++ [draft_row p rev t steps refs check] /\
    clock w' = t /\ table_ok (xpacks (store w')).
Proof using.
  intros [K1 K2 K3] Hr. unfold draft_write, bind, now, catch in Hr. cbn [clock] in Hr.
  destruct (insert_draft p rev t _) as [[e|[]] v] eqn:E; [discriminate|]. injection Hr as <-.
  unfold insert_draft in E. apply insert_row_inr in E as [E Hc]. cbn [store clock] in *.
  destruct (jsonb_in (marshal (jslice (RecoverySteps p)))) as [steps|]; [|discriminate].
  destruct (jsonb_in (marshal (jslice (EvidenceRefs p)))) as [refs|]; [|discriminate].
  destruct (jsonb_in (marshal (jmap (Checklist p)))) as [check|]; [|discriminate].
  destruct (any_where _ _) eqn:Ea; [discriminate|]. injection E as <-.
  exists steps, refs, check. do 6 (split; [done|]). cbn [xpacks with_xpacks]. split.
  - apply (indexed_snoc (pair_eqb String.eqb Z.eqb) (pair_eqb_spec _ _ String.eqb_eq Z.eqb_eq)); [done|].
    apply (clashes_false _ (pair_eqb_spec _ _ String.eqb_eq Z.eqb_eq)). intros _ r Hr _ He.
    eapply (any_where_false _ _) in Ea; [|exact Hr]. simpl in He. injection He as E1 E2.
    assert (is_pack (PackKey p) rev r = true); [|congruence]. by apply is_pack_spec.
  - apply (indexed_snoc String.eqb String.eqb_eq); [done|].
    by apply (clashes_false String.eqb String.eqb_eq).
  - intros r Hr Hv. apply elem_of_app in Hr as [Hr|Hr]; [by apply K3|].
    apply list_elem_of_singleton in Hr as ->. discriminate.
Qed.

Lemma validate_write_inr key rev p (w : World XpDb) w' :
  validate_write key rev p w = (inr tt, w') ->
  State p = XpDraft /\ ValidateCompleteness p = inr tt /\
  ScanExportForForbidden (BuildExport p).1 = inr tt /\
  exists n, update_packs (is_pack key rev)
    (set_xp_validated (BuildExport p).2 (BuildExport p).1 (clock w)) w = (inr n, w').
Proof using.
  intros Hr. unfold validate_write in Hr. apply bind_inr in Hr as (u & w1 & Hg & Hr).
  apply guard_inr in Hg as [Hg ->]. destruct (State p =d XpDraft) eqn:Es; [|discriminate].
  apply bool_decide_eq_true in Es. split; [done|].
  apply bind_inr in Hr as (u1 & w2 & Hv & Hr). destruct (ValidateCompleteness p) as [e|[]]; [discriminate|].
  apply ret_inr in Hv as [_ ->]. split; [done|].
  destruct (BuildExport p) as [manifest digest] eqn:Eb. cbn [fst snd] in *.
  apply bind_inr in Hr as (u2 & w3 & Hv & Hr).
  destruct (ScanExportForForbidden manifest) as [e|[]]; [discriminate|].
  apply ret_inr in Hv as [_ ->]. split; [done|].
  apply bind_inr in Hr as (t & w4 & Ht & Hr). apply now_inr in Ht as [-> ->].
  apply bind_inr in Hr as (n & w5 & Hu & Hr). apply ret_inr in Hr as [_ ->]. by exists n.
Qed.
Lemma validate_write_ok d fl t key rev p w' :
  table_ok (xpacks d) -> proc_ok (xpacks d) (Validating key rev p) ->
  validate_write key rev p (MkWorld d fl t) = (inr tt, w') ->
  table_ok (xpacks (store w')) /\ rows_kept xp_later (xpacks d) (xpacks (store w')).
Proof using.
  intros Hok (r0 & Hr0 & Hk0 & Hsame) Hr.
  apply validate_write_inr in Hr as (_ & Hc & Hs & n & Hu).
  apply update_packs_inr in Hu as (-> & _ & _ & Hun & Hfz). cbn [store clock xpacks with_xpacks] in *.
  apply update_table; [done|done|done|done|]. intros r Hr Hp _ _.
  rewrite (is_pack_one _ key rev r0 r Hok Hr0 Hr Hk0 Hp). destruct Hsame as [F1 F2].
  destruct (same_draft_scan r0 (set_xp_validated (BuildExport p).2 (BuildExport p).1 t r0))
    as [G1 G2]; [done|].
  assert (Hb : BuildExport (scanPack float_text (set_xp_validated (BuildExport p).2 (BuildExport p).1 t r0))
               = BuildExport p).
  { unfold BuildExport at 1. by rewrite <- G2, <- F2. }
  unfold sealed. rewrite Hb. split; [congruence|]. done.
Qed.

Lemma activate_write_inr vendor key rev (w : World XpDb) w' :
  activate_write vendor key rev w = (inr tt, w') ->
  exists n1 n2 w1,
    update_packs (supersedable vendor key rev) (set_xp_superseded (clock w)) w = (inr n1, w1) /\
    update_packs (activatable key rev) (set_xp_active (clock w)) w1 = (inr n2, w') /\ n2 <> 0.
Proof using.
  intros Hr. unfold activate_write in Hr. apply bind_inr in Hr as (t & w1 & Ht & Hr).
  apply now_inr in Ht as [-> ->]. apply bind_inr in Hr as (n1 & w2 & Hu & Hr).
  apply bind_inr in Hr as (n2 & w3 & Ha & Hr). apply guard_inr in Hr as [Hg ->].
  exists n1, n2, w2. split; [done|]. split; [|by apply Z.eqb_neq].
  unfold catch in Ha. by destruct (update_packs (activatable key rev) _ w2) as [[e|n] v].
Qed.
(** An update between states that are not DRAFT. *)
Lemma update_move t p f :
  table_ok t -> (forall r, same_draft r (f r)) -> active_unique (update_where p f t) = true ->
  (forall r, p r = true -> verified (xp_state r) = true) ->
  (forall r, same_content r (f r) /\ verified (xp_state (f r)) = true) ->
  table_ok (update_where p f t) /\ rows_kept xp_later t (update_where p f t).
Proof using.
  intros Hok Hd Hu Hp Hf. apply update_table; [done|done|done| |].
  - intros r _ _. unfold freeze_ok. destruct (Hf r) as [Hc ->]. apply orb_true_iff. right.
    rewrite andb_true_r. by apply bool_decide_eq_true.
  - intros r _ Hpr Hv. rewrite (Hp r Hpr) in Hv. discriminate.
Qed.
Lemma activate_write_ok d fl t vendor key rev w' :
  table_ok (xpacks d) -> activate_write vendor key rev (MkWorld d fl t) = (inr tt, w') ->
  table_ok (xpacks (store w')) /\ rows_kept xp_later (xpacks d) (xpacks (store w')).
Proof using.
  intros Hok Hr. apply activate_write_inr in Hr as (n1 & n2 & w1 & H1 & H2 & _).
  apply update_packs_inr in H1 as (E1 & C1 & _ & U1 & _).
  apply update_packs_inr in H2 as (E2 & _ & _ & U2 & _). cbn [store clock] in *.
  rewrite E2, E1 in *. cbn [xpacks with_xpacks] in *.
  destruct (update_move (xpacks d) (supersedable vendor key rev) (set_xp_superseded t))
    as [Hok1 Hk1]; [done|done|done| |done|].
  { intros r Hr. unfold supersedable, is_active in Hr. b2p. destruct Hr as [[_ Hs] _].
    apply bool_decide_eq_true in Hs. by rewrite Hs. }
  destruct (update_move _ (activatable key rev) (set_xp_active t) Hok1) as [Hok2 Hk2]; [done|done| |done|].
  { intros r Hr. unfold activatable in Hr. b2p.
    destruct Hr as [_ [Hs|Hs]]; apply bool_decide_eq_true in Hs; by rewrite Hs. }
  split; [done|]. eapply rows_kept_trans; eauto using xp_later_trans.
Qed.
Lemma sweep_ok d fl t n out w' :
  table_ok (xpacks d) -> SweepExpired n (MkWorld d fl t) = (inr out, w') ->
  table_ok (xpacks (store w')) /\ rows_kept xp_later (xpacks d) (xpacks (store w')).
Proof using.
  intros Hok Hr. unfold SweepExpired in Hr. apply bind_inr in Hr as (t1 & w1 & Ht & Hr).
  apply now_inr in Ht as [-> ->]. apply stmt_inr in Hr as [Hf _]. injection Hf as _ <-.
  cbn [store clock xpacks with_xpacks]. apply update_move; [done|done| | |done].
  - apply active_unique_spec. apply indexed_update; [apply (ok_active _ Hok)|]. by intros r _ _.
  - intros r Hr. unfold overdue, is_active in Hr. b2p. destruct Hr as [Hs _].
    apply bool_decide_eq_true in Hs. by rewrite Hs.
Qed.

Lemma xp_step_ok s s' : xp_step s s' -> sys_ok s -> sys_ok s' /\ rows_kept xp_later (xpacks s.1) (xpacks s'.1).
Proof using.
  assert (Hsame : forall t, rows_kept xp_later t t) by (intros; apply rows_kept_refl, xp_later_refl).
  intros Hst [Hok Hps]. destruct Hst; cbn [fst snd] in *.
  - split; [|done]. split; [done|]. by apply Forall_insert.
  - destruct (draft_write_ok _ _ _ _ _ _ Hok H0) as (st & rf & ck & _ & _ & _ & _ & E & _ & Hok').
    assert (Hk : rows_kept xp_later (xpacks d) (xpacks (store w'))).
    { rewrite E. apply rows_kept_app, xp_later_refl. }
    split; [|done]. split; [done|]. apply Forall_insert; [by eapply procs_kept|done].
  - split; [|done]. split; [done|]. apply Forall_insert; [done|]. unfold read_pack in H0.
    apply bind_inr in H0 as (r & w1 & Hf & Hr). apply ret_inr in Hr as [-> _]. unfold catch in Hf.
    destruct (find_pack key rev _) as [[e|r0] v] eqn:E.
    { unfold not_found in Hf. by destruct (is_no_rows e). }
    injection Hf as -> _. apply query_row_inr in E as (Ef & _). cbn [store] in Ef.
    apply first_where_some in Ef as [Hin Hp]. exists r. by split.
  - pose proof (proj1 (Forall_forall _ _) Hps _ (list_elem_of_lookup_2 _ _ _ H)) as Hp.
    destruct (validate_write_ok _ _ _ _ _ _ _ Hok Hp H0) as [Hok' Hk]. split; [|done].
    split; [done|]. apply Forall_insert; [by eapply procs_kept|done].
  - split; [|done]. split; [done|]. by apply Forall_insert.
  - destruct (activate_write_ok _ _ _ _ _ _ _ Hok H0) as [Hok' Hk]. split; [|done].
    split; [done|]. apply Forall_insert; [by eapply procs_kept|done].
  - destruct (sweep_ok _ _ _ _ _ _ Hok H) as [Hok' Hk]. split; [|done]. split; [done|].
    by eapply procs_kept.
  - split; [|done]. split; [done|]. by apply Forall_insert.
  - split; [|done]. by split.
Qed.
Lemma star_xp s s' :
  star xp_step s s' -> sys_ok s -> sys_ok s' /\ rows_kept xp_later (xpacks s.1) (xpacks s'.1).
Proof using.
  intros Hst Hok. induction Hst as [|s1 s2 s3 Hst IH Hs].
  - split; [done|]. apply rows_kept_refl, xp_later_refl.
  - destruct (IH Hok) as [Hok2 H2]. destruct (xp_step_ok _ _ Hs Hok2) as [Hok3 H3]. split; [done|].
    eapply rows_kept_trans; eauto using xp_later_trans.
Qed.

(** ** Runs without failures *)

Lemma update_packs_ok p f d t :
  (forall r, r ∈ xpacks d -> p r = true -> freeze_ok r (f r) = true) ->
  active_unique (update_where p f (xpacks d)) = true ->
  update_packs p f (MkWorld d [] t) =
    (inr (count_where p (xpacks d)), MkWorld (with_xpacks (update_where p f (xpacks d)) d) [] t).
Proof using.
  intros Hf Hu. unfold update_packs. rewrite stmt_ok, Hu.
  replace (any_where _ (xpacks d)) with false; [done|]. symmetry. apply any_where_false.
  intros r Hr. destruct (p r) eqn:E; [|done]. by rewrite (Hf r Hr E).
Qed.
Lemma freeze_move r r' : same_content r r' -> verified (xp_state r') = true -> freeze_ok r r' = true.
Proof using.
  intros Hc Hv. unfold freeze_ok. rewrite Hv, bool_decide_eq_true_2 by done. apply orb_true_r.
Qed.

(** The table after an activation, row by row. *)
Definition activate_row (t : Z) (vendor key : string) (rev : Z) (r : XpRow) : XpRow :=
  let h := if supersedable vendor key rev r then set_xp_superseded t r else r in
  if activatable key rev h then set_xp_active t h else h.
Definition activated (t : Z) (vendor key : string) (rev : Z) (tab : list XpRow) : list XpRow :=
  map (activate_row t vendor key rev) tab.
Lemma activated_updates t vendor key rev tab :
  update_where (activatable key rev) (set_xp_active t)
    (update_where (supersedable vendor key rev) (set_xp_superseded t) tab) =
  activated t vendor key rev tab.
Proof using. unfold update_where, activated. rewrite List.map_map. done. Qed.

Lemma activate_row_vendor t vendor key rev r : xp_vendor (activate_row t vendor key rev r) = xp_vendor r.
Proof using. unfold activate_row. by repeat case_match. Qed.
Lemma activate_row_active t vendor key rev r :
  is_active (activate_row t vendor key rev r) = true ->
  is_pack key rev r = true \/ (is_active r = true /\ supersedable vendor key rev r = false).
Proof using.
  unfold activate_row. destruct (supersedable vendor key rev r) eqn:Es.
  - destruct (activatable key rev _) eqn:Ea; [|done]. intros _. left.
    unfold activatable in Ea. by apply andb_true_iff in Ea as [? _].
  - destruct (activatable key rev r) eqn:Ea; [|by right]. intros _. left.
    unfold activatable in Ea. by apply andb_true_iff in Ea as [? _].
Qed.
Lemma activated_unique t r key rev tab :
  table_ok tab -> r ∈ tab -> is_pack key rev r = true ->
  indexed is_active xp_vendor (activated t (xp_vendor r) key rev tab) /\
  forall r', r' ∈ activated t (xp_vendor r) key rev tab -> xp_vendor r' = xp_vendor r ->
    is_active r' = true -> exists r0, r0 = r /\ r' = activate_row t (xp_vendor r) key rev r0.
Proof using.
  intros Hok Hr Hk. set (g := activate_row t (xp_vendor r) key rev).
  assert (Hone : forall a, a ∈ tab -> is_active (g a) = true -> xp_vendor (g a) = xp_vendor r -> a = r).
  { intros a Ha Hact Hv. unfold g in *. rewrite activate_row_vendor in Hv.
    apply activate_row_active in Hact as [Hp|[Hact Hs]]; [by eapply (is_pack_one tab key rev r a)|].
    unfold supersedable in Hs. rewrite Hv, str_eqb_refl, Hact in Hs. simpl in Hs.
    apply negb_false_iff in Hs. by eapply (is_pack_one tab key rev r a). }
  split.
  - intros i j a b Hi Hj Ha Hb Hv. unfold activated in *. rewrite lookup_map in Hi, Hj.
    destruct (tab !! i) as [a0|] eqn:Ei; [|discriminate]. destruct (tab !! j) as [b0|] eqn:Ej; [|discriminate].
    simpl in Hi, Hj. injection Hi as <-. injection Hj as <-. fold g in Ha, Hb, Hv.
    pose proof (list_elem_of_lookup_2 _ _ _ Ei) as Hia. pose proof (list_elem_of_lookup_2 _ _ _ Ej) as Hjb.
    destruct (String.eqb (xp_vendor (g a0)) (xp_vendor r)) eqn:E.
    + apply String.eqb_eq in E. pose proof (Hone a0 Hia Ha E) as ->.
      pose proof (Hone b0 Hjb Hb (eq_trans (eq_sym Hv) E)) as ->.
      eapply (ok_keys _ Hok); eauto.
    + apply String.eqb_neq in E. unfold g in *. rewrite !activate_row_vendor in *.
      assert (forall c, c ∈ tab -> xp_vendor c <> xp_vendor r ->
                is_active (activate_row t (xp_vendor r) key rev c) = true -> is_active c = true) as Hc.
      { intros c Hin Hne Hc. apply activate_row_active in Hc as [Hp|[? _]]; [|done].
        exfalso. apply Hne. by rewrite (is_pack_one tab key rev r c). }
      eapply (ok_active _ Hok); eauto. apply Hc; [done|congruence|done].
  - intros r' Hr' Hv Ha. unfold activated in Hr'. apply list_elem_of_In, in_map_iff in Hr' as (a & <- & Hin).
    apply list_elem_of_In in Hin. exists r. split; [done|]. fold g in Hv, Ha |- *. by rewrite (Hone a).
Qed.

Lemma find_pack_ok key rev d t :
  catch (find_pack key rev) not_found (MkWorld d [] t) =
  match first_where (is_pack key rev) (xpacks d) with
  | Some r => (inr r, MkWorld d [] t)
  | None => (inl ErrNotFound, MkWorld d [] t)
  end.
Proof using. unfold catch, find_pack. rewrite query_row_ok. by destruct (first_where _ _). Qed.

Lemma activate_write_run r key rev d t :
  table_ok (xpacks d) -> r ∈ xpacks d -> is_pack key rev r = true ->
  xp_state r = XpValidated \/ xp_state r = XpSuperseded ->
  activate_write (xp_vendor r) key rev (MkWorld d [] t) =
    (inr tt, MkWorld (with_xpacks (activated t (xp_vendor r) key rev (xpacks d)) d) [] t).
Proof using.
  intros Hok Hr Hk Hst. unfold activate_write. unfold bind at 1, now. cbn [clock]. unfold bind at 1.
  rewrite update_packs_ok.
  2:{ intros x _ _. by apply freeze_move. }
  2:{ apply active_unique_spec, indexed_update; [apply (ok_active _ Hok)|]. by intros x _ _. }
  unfold bind at 1, catch. rewrite update_packs_ok; cbn [xpacks with_xpacks]; rewrite ?activated_updates.
  2:{ intros x _ _. by apply freeze_move. }
  2:{ apply active_unique_spec. by apply activated_unique. }
  assert (Hn : supersedable (xp_vendor r) key rev r = false).
  { unfold supersedable. rewrite Hk. by rewrite andb_false_r. }
  unfold guard. replace (count_where _ _ =? 0) with false; [done|]. symmetry. apply Z.eqb_neq. intros Hz.
  apply count_where_zero with (r := r) in Hz.
  - unfold activatable in Hz. rewrite Hk in Hz. by destruct Hst as [E|E]; rewrite E in Hz.
  - apply list_elem_of_In, in_map_iff. exists r. rewrite Hn. split; [done|by apply list_elem_of_In].
Qed.

Lemma Activate_run key rev d t :
  table_ok (xpacks d) ->
  Activate key rev (MkWorld d [] t) =
  match first_where (is_pack key rev) (xpacks d) with
  | None => (inl ErrNotFound, MkWorld d [] t)
  | Some r =>
      match xp_state r with
      | XpActive => (inr tt, MkWorld d [] t)
      | XpValidated | XpSuperseded =>
          (inr tt, MkWorld (with_xpacks (activated t (xp_vendor r) key rev (xpacks d)) d) [] t)
      | XpDraft | XpExpired => (inl (errV ReasonInvalidState), MkWorld d [] t)
      end
  end.
Proof using.
  intros Hok. unfold Activate. rewrite tx_ok. unfold bind at 1. rewrite find_pack_ok.
  destruct (first_where _ _) as [r|] eqn:Ef; [|done]. apply first_where_some in Ef as [Hr Hk].
  destruct (xp_state r) eqn:Es; try done; simpl; unfold bind;
    rewrite activate_write_run by (done || rewrite Es; auto); done.
Qed.

(** ** The race of Validate *)

Lemma validate_race key rev p d ps j r :
  sys_ok (d, ps) -> ps !! j = Some (Validating key rev p) -> State p = XpDraft ->
  r ∈ xpacks d -> is_pack key rev r = true -> xp_state r = XpActive ->
  exists d', xp_step (d, ps) (d', <[j := Resting]> ps) /\
    (exists r', r' ∈ xpacks d' /\ is_pack key rev r' = true /\ xp_state r' = XpValidated) /\
    forall r', r' ∈ xpacks d' -> xp_vendor r' = xp_vendor r -> is_active r' = false.
Proof using.
  intros [Hok Hps] Hj Hst Hr Hk Hact.
  pose proof (proj1 (Forall_forall _ _) Hps _ (list_elem_of_lookup_2 _ _ _ Hj)) as (r0 & Hr0 & Hk0 & F1 & F2).
  pose proof (is_pack_one _ key rev r r0 Hok Hr Hr0 Hk Hk0) as ->.
  assert (Hv : verified (xp_state r) = true) by (by rewrite Hact).
  destruct (ok_sealed _ Hok r Hr Hv) as (Hc & Hm & Hd & Hs). rewrite <- F1 in Hc.
  assert (Hb : BuildExport (scanPack float_text r) = BuildExport p) by (unfold BuildExport; by rewrite F2).
  rewrite Hb in *. set (f := set_xp_validated (BuildExport p).2 (BuildExport p).1 0).
  set (d' := with_xpacks (update_where (is_pack key rev) f (xpacks d)) d). exists d'.
  assert (Hrow : forall x, x ∈ xpacks d' ->
    (x = f r /\ is_pack key rev x = true) \/ (x ∈ xpacks d /\ is_pack key rev x = false)).
  { intros x Hx. apply elem_of_update_where in Hx as [(x0 & Hx0 & Hp & ->)|[? ?]]; [left|by right].
    by rewrite (is_pack_one _ key rev r x0 Hok Hr Hx0 Hk Hp). }
  split.
  - assert (Hrun : validate_write key rev p (MkWorld d [] 0) = (inr tt, MkWorld d' [] 0)).
    { unfold validate_write. destruct (BuildExport p) as [manifest digest] eqn:Eb. cbn [fst snd] in *.
      rewrite Hst, Hc, Hs. unfold guard. rewrite bool_decide_eq_true_2 by done. cbn [negb].
      unfold bind, ret, now. cbn [clock]. rewrite update_packs_ok; [done| |].
      - intros x Hx Hp. rewrite (is_pack_one _ key rev r x Hok Hr Hx Hk Hp).
        apply freeze_move; [|done]. unfold same_content. simpl. rewrite Hd, Hm. by repeat split.
      - apply active_unique_spec, indexed_update; [apply (ok_active _ Hok)|]. by intros x _ _. }
    exact (xs_validate_write d ps j key rev p [] 0 (MkWorld d' [] 0) Hj Hrun).
  - split.
    + exists (f r). split; [|done]. apply list_elem_of_In, in_map_iff. exists r. rewrite Hk.
      split; [done|by apply list_elem_of_In].
    + intros x Hx Hvx. destruct (Hrow x Hx) as [[-> _]|[Hin Hp]]; [done|].
      destruct (is_active x) eqn:Ea; [|done]. exfalso.
      assert (x = r) as ->; [|congruence].
      eapply (indexed_elem is_active xp_vendor); [apply (ok_active _ Hok)|done|done|done| |done].
      unfold is_active. by rewrite Hact.
Qed.

(** ** An operation is a history of one process *)

Lemma done_resting (ps : list Proc) j c : ps !! j = Some Resting -> <[j := Resting]> (<[j := c]> ps) = ps.
Proof using. intros Hj. rewrite list_insert_insert_eq. by apply list_insert_id. Qed.
Lemma still_resting (ps : list Proc) j c : ps !! j = Some Resting -> <[j := c]> ps !! j = Some c.
Proof using. intros Hj. apply list_lookup_insert_eq. by eapply lookup_lt_Some. Qed.

Lemma next_revision_store key (w : World XpDb) n w' :
  next_revision key w = (inr n, w') ->
  store w' = store w /\
  n = max_of xp_rev (rows_where (fun r => xp_key r =s key) (xpacks (store w))) + 1 /\ n <= max_int32.
Proof using.
  unfold next_revision. intros Hr. apply stmt_inr in Hr as [Hf _].
  destruct (max_int32 <=? _) eqn:E; [discriminate|]. injection Hf as <- <-. split; [done|]. b2p. lia.
Qed.
Lemma stmt_inl {A} (f : XpDb -> sqlerr + A * XpDb) w e w' : stmt f w = (inl e, w') -> store w' = store w.
Proof using.
  unfold stmt, pop_fault. destruct (failing w); [by intros [= _ <-]|]. simpl.
  destruct (f (store w)) as [|[a d]]; [by intros [= _ <-]|discriminate].
Qed.
Lemma draft_write_inl p rev (w : World XpDb) e w' : draft_write p rev w = (inl e, w') -> store w' = store w.
Proof using.
  unfold draft_write, bind, now, catch. destruct (insert_draft p rev (clock w) w) as [[e0|u] v] eqn:E; [|discriminate].
  intros [= _ <-]. unfold insert_draft, insert_row in E. by apply stmt_inl in E.
Qed.

Lemma CreateDraft_steps p ps j (w : World XpDb) x w' :
  ps !! j = Some Resting -> CreateDraft p w = (x, w') ->
  star xp_step (store w, ps) (store w', ps).
Proof using.
  intros Hj Hr. unfold CreateDraft, bind at 1 in Hr.
  destruct (connect w) as [[e|u] w1] eqn:Ec.
  { injection Hr as _ <-. apply connect_inl in Ec as ->. apply star_refl. }
  apply connect_inr in Ec as [Es _]. rewrite <- Es. unfold bind at 1 in Hr.
  destruct (next_revision (PackKey p) w1) as [[e|rev] w2] eqn:En.
  { injection Hr as _ <-. apply stmt_inl in En as ->. apply star_refl. }
  pose proof (next_revision_store _ _ _ _ En) as [Es2 _].
  unfold bind in Hr. destruct (draft_write p rev w2) as [[e|[]] w3] eqn:Ew.
  { injection Hr as _ <-. apply draft_write_inl in Ew as ->. rewrite Es2. apply star_refl. }
  injection Hr as _ <-. destruct w1 as [d1 f1 t1], w2 as [d2 f2 t2]. cbn [store] in *. subst d2.
  eapply star_next; [eapply star_one, xs_draft_read; [exact Hj|exact En]|].
  rewrite <- (done_resting ps j (Drafting p rev) Hj) at 2.
  eapply xs_draft_write; [by apply still_resting|exact Ew].
Qed.

Lemma find_pack_store key rev (w : World XpDb) r w' :
  catch (find_pack key rev) not_found w = (inr r, w') -> find_pack key rev w = (inr r, w') /\ store w' = store w.
Proof using.
  unfold catch. destruct (find_pack key rev w) as [[e|r0] v] eqn:E.
  { unfold not_found. by destruct (is_no_rows e). }
  intros [= -> <-]. split; [done|]. by apply query_row_inr in E as (_ & ? & _).
Qed.
Lemma Validate_steps key rev ps j (w : World XpDb) x w' :
  ps !! j = Some Resting -> Validate float_text key rev w = (x, w') ->
  star xp_step (store w, ps) (store w', ps).
Proof using.
  intros Hj Hr. unfold Validate, withPackTx in Hr. destruct x as [e|u].
  { apply tx_inl in Hr as ->. apply star_refl. }
  apply tx_inr in Hr as (w0 & Hs & _ & [(w1 & Hb & ->)|(w1 & Hb & ->)]); [|apply star_refl].
  rewrite <- Hs. apply bind_inr in Hb as (p & w2 & Hp & Hb).
  apply bind_inr in Hb as ([] & w3 & Hv & Hb). apply ret_inr in Hb as [_ ->].
  assert (Hs2 : store w2 = store w0).
  { unfold read_pack in Hp. apply bind_inr in Hp as (r & wr & Hf & Hp). apply ret_inr in Hp as [_ ->].
    by apply find_pack_store in Hf as [_ ?]. }
  destruct w0 as [d0 f0 t0], w2 as [d2 f2 t2]. cbn [store] in *. subst d2.
  eapply star_next; [eapply star_one, xs_validate_read; [exact Hj|exact Hp]|].
  rewrite <- (done_resting ps j (Validating key rev p) Hj) at 2.
  eapply xs_validate_write; [by apply still_resting|exact Hv].
Qed.
Lemma Activate_steps key rev ps j (w : World XpDb) x w' :
  ps !! j = Some Resting -> Activate key rev w = (x, w') ->
  star xp_step (store w, ps) (store w', ps).
Proof using JS PT.
  intros Hj Hr. unfold Activate in Hr. destruct x as [e|u].
  { apply tx_inl in Hr as ->. apply star_refl. }
  apply tx_inr in Hr as (w0 & Hs & _ & [(w1 & Hb & ->)|(w1 & Hb & ->)]); [|apply star_refl].
  rewrite <- Hs. apply bind_inr in Hb as (r & w2 & Hf & Hb). apply find_pack_store in Hf as [Hf Hs2].
  destruct (xp_state r =d XpActive); [by apply ret_inr in Hb as [? _]|].
  destruct (_ && _); [discriminate|].
  apply bind_inr in Hb as ([] & w3 & Hv & Hb). apply ret_inr in Hb as [_ ->].
  destruct w0 as [d0 f0 t0], w2 as [d2 f2 t2]. cbn [store] in *. subst d2.
  eapply star_next; [eapply star_one, xs_activate_read; [exact Hj|exact Hf]|].
  rewrite <- (done_resting ps j (Activating (xp_vendor r) key rev) Hj) at 2.
  eapply xs_activate_write; [by apply still_resting|exact Hv].
Qed.
Lemma Sweep_steps n ps (w : World XpDb) x w' :
  SweepExpired n w = (x, w') -> star xp_step (store w, ps) (store w', ps).
Proof using.
  intros Hr. destruct w as [d fl t]. destruct x as [e|out].
  - unfold SweepExpired, bind, now in Hr. apply stmt_inl in Hr. rewrite Hr. apply star_refl.
  - eapply star_one, xs_sweep. exact Hr.
Qed.
End Log.

(** ** Reading back *)

Section ReadBack.
Import Pack PackStore.

Definition utf8_slice (s : option (list string)) : bool :=
  match s with Some l => forallb valid_utf8 l | None => true end.
(** What PostgreSQL documents of jsonb on arrays of strings. *)
Class JsonbStrings `{Jsonb} : Prop :=
  jsonb_slice s c : jsonb_in (marshal (jslice s)) = Some c -> utf8_slice s = true ->
                    unmarshal (jsonb_out c) = Some (jslice s).

(** A pack whose export is JSON text any decoder reads: UTF-8, int64 numbers,
    nesting within the decoder's bound. *)
Definition readable (p : Pack) : Prop :=
  forallb valid_utf8 [OwnerRef p; PackKey p; SubstituteProvider p; Vendor p] = true /\
  utf8_slice (EvidenceRefs p) = true /\ utf8_slice (RecoverySteps p) = true /\
  well_formed (jmap (Checklist p)) = true /\ int64s (jmap (Checklist p)) /\
  within (maxNestingDepth - 1) (jmap (Checklist p)) = true /\ - 2 ^ 63 <= Revision p < 2 ^ 63.

Lemma jslice_wf s : well_formed (jslice s) = utf8_slice s.
Proof using. destruct s as [l|]; [apply jstrings_wf|done]. Qed.
Lemma jslice_numbers s : numbers (jslice s) = [].
Proof using. destruct s as [l|]; [|done]. simpl. by induction l. Qed.
Lemma jslice_within s n : 1 <= n -> within n (jslice s) = true.
Proof using.
  intros Hn. destruct s as [l|]; [|done]. simpl. apply andb_true_iff. split; [lia|].
  apply forallb_forall. intros x Hx. apply in_map_iff in Hx as (y & <- & _). done.
Qed.
Lemma jslice_inj s s' : jslice s = jslice s' -> s = s'.
Proof using.
  destruct s as [l|], s' as [l'|]; try done. intros H. f_equal. by apply jstrings_inj.
Qed.
Lemma jmap_inj m m' : jmap m = jmap m' -> m = m'.
Proof using. destruct m, m'; simpl; congruence. Qed.

Lemma export_text p :
  readable p -> unmarshal (BuildExport p).1 = Some (export_json p).
Proof using.
  intros (Hu & Hr & Hs & Hm & Hi & Hd & Hz). cbn [forallb] in Hu. b2p. destruct Hu as (U1 & U2 & U3 & U4 & _).
  apply unmarshal_marshal.
  - cbn [export_json well_formed forallb fst snd]. rewrite !jslice_wf, Hm, Hr, Hs, U1, U2, U3, U4.
    by rewrite dec_num_lit.
  - intros s Hin. cbn [export_json numbers map concat fst snd] in Hin. rewrite !jslice_numbers, !app_nil_l, app_nil_r in Hin.
    apply elem_of_app in Hin as [Hin|Hin]; [by apply Hi|]. apply list_elem_of_singleton in Hin as ->.
    by exists (Revision p).
  - cbn [export_json within forallb snd]. rewrite Hd, !jslice_within by (unfold maxNestingDepth; lia). done.
Qed.
Lemma export_inj p q :
  export_json p = export_json q ->
  (Checklist p, EvidenceRefs p, OwnerRef p, PackKey p, RecoverySteps p, SubstituteProvider p,
   Vendor p, Revision p) =
  (Checklist q, EvidenceRefs q, OwnerRef q, PackKey q, RecoverySteps q, SubstituteProvider q,
   Vendor q, Revision q).
Proof using.
  unfold export_json. intros H. injection H as H1 H2 -> -> H3 -> -> H4.
  apply jmap_inj in H1 as ->. apply jslice_inj in H2 as ->. apply jslice_inj in H3 as ->.
  by apply dec_inj in H4 as ->.
Qed.

Lemma read_slice_back `{JsonbStrings} s c :
  jsonb_in (marshal (jslice s)) = Some c -> utf8_slice s = true -> read_slice c = s.
Proof using.
  intros Hc Hu. unfold read_slice. rewrite (jsonb_slice s c Hc Hu). destruct s as [l|]; [|done].
  simpl. f_equal. rewrite List.map_map. apply map_id.
Qed.
Lemma read_until_none `{PgTime} u : read_until u = None.
Proof using.
  destruct u as [t|]; [|done]. simpl. destruct (GoTime.parse_rfc3339_nano _) as [x|] eqn:E; [|done].
  apply GoTime.parse_has_T in E. by apply text_no_T in E.
Qed.

Lemma draft_back `{JS : Jsonb, !JsonbStrings, PgTime} float_text p rev (w w1 : World XpDb) t :
  table_ok float_text (xpacks (store w)) ->
  utf8_slice (RecoverySteps p) = true -> utf8_slice (EvidenceRefs p) = true ->
  CreateDraft p w = (inr rev, w1) ->
  exists check,
  Get float_text (PackKey p) rev (MkWorld (store w1) [] t) =
    (inr (MkPack (PackKey p) (Vendor p) rev XpDraft (OwnerRef p) (SubstituteProvider p)
            (RecoverySteps p) (EvidenceRefs p) check None "" ""), MkWorld (store w1) [] t).
Proof using.
  intros Hok Hs Hr Hrun. unfold CreateDraft in Hrun. apply bind_inr in Hrun as (u & wa & Hc & Hrun).
  apply connect_inr in Hc as [Es _]. apply bind_inr in Hrun as (rev' & wb & Hn & Hrun).
  apply next_revision_store in Hn as [Es2 _]. apply bind_inr in Hrun as ([] & wc & Hw & Hrun).
  apply ret_inr in Hrun as [-> ->]. destruct wb as [d fl tb]. cbn [store] in Es2. rewrite <- Es, <- Es2 in Hok.
  destruct (draft_write_ok float_text d fl tb p rev' wc Hok Hw)
    as (steps & refs & check & H1 & H2 & H3 & Ha & E & _).
  exists (read_map float_text check). unfold Get, read_pack, connect, bind at 1. rewrite query_ok.
  unfold bind at 1. rewrite find_pack_ok, E, first_where_app.
  assert (Hn : first_where (is_pack (PackKey p) rev') (xpacks d) = None).
  { destruct (first_where _ _) as [r|] eqn:Ef; [|done]. apply first_where_some in Ef as [Hin Hp].
    eapply (any_where_false _ _) in Ha; [|exact Hin]. congruence. }
  rewrite Hn. unfold first_where, List.find. rewrite (proj2 (is_pack_spec _ _ _)) by done.
  unfold ret, scanPack. cbn [draft_row xp_key xp_vendor xp_rev xp_state xp_owner xp_subst xp_steps
    xp_refs xp_check xp_until xp_digest default].
  by rewrite (read_slice_back _ _ H1 Hs), (read_slice_back _ _ H2 Hr), read_until_none.
Qed.
End ReadBack.

(** ** The theorems *)

Module ExitPackProps.
Import Pack PackStore.

(** A database whose jsonb keeps the text, and whose timestamps have a space
    where RFC 3339 has a T. *)
#[local] Instance plain_jsonb : Jsonb := {| jsonb_in := unmarshal; jsonb_out := marshal |}.
#[local] Instance plain_strings : JsonbStrings.
Proof.
  intros s c Hc Hu. destruct s as [l|]; [|by injection Hc as <-].
  assert (Hm : unmarshal (marshal (jslice (Some l))) = Some (jslice (Some l))).
  { apply unmarshal_marshal; [by rewrite jslice_wf|intros x Hx; rewrite jslice_numbers in Hx; by apply elem_of_nil in Hx|].
    by apply jslice_within. }
  change (jsonb_in (marshal (jslice (Some l)))) with (unmarshal (marshal (jslice (Some l)))) in Hc.
  rewrite Hm in Hc. by injection Hc as <-.
Qed.
Definition space_for_T (c : ascii) : ascii := if Ascii.eqb c "T" then " "%char else c.
#[local, refine] Instance plain_time : PgTime := {|
  timestamptz_text t :=
    String.string_of_list_ascii (map space_for_T (bytes_of_string (GoTime.rfc3339_nano t)));
|}.
Proof.
  intros t Hin. unfold bytes_of_string at 1 in Hin.
  rewrite String.list_ascii_of_string_of_list_ascii in Hin.
  apply list_elem_of_In, in_map_iff in Hin as (c & Hc & _). unfold space_for_T in Hc.
  destruct (Ascii.eqb c "T") eqn:E; [discriminate|]. subst c. discriminate.
Defined.
Definition same_text (s : string) : string := s.

(** A draft of a vendor, and the history of two processes around it. *)
Definition draft0 : Pack :=
  MkPack "acme:llm" "acme" 0 XpDraft "team-a" "beta" (Some ["export"; "switch"]) (Some ["ev-1"])
    (Some [("owner", JStr "team-a"); ("regions", JNum "2")]) (Some 1000) "" "ops".
Definition db0 : XpDb := MkXpDb [] (MkEvDb empty_db [] [] 1).
Definition step_to {A} (m : M XpDb A) (d : XpDb) : XpDb := store (m (MkWorld d [] 5)).2.
Definition drafted : XpDb := Eval vm_compute in step_to (CreateDraft draft0) db0.
Definition read0 : Pack :=
  MkPack "acme:llm" "acme" 1 XpDraft "team-a" "beta" (Some ["export"; "switch"]) (Some ["ev-1"])
    (Some [("owner", JStr "team-a"); ("regions", JNum "2")]) None "" "".
Definition validated : XpDb := Eval vm_compute in step_to (Validate same_text "acme:llm" 1) drafted.
Definition active : XpDb := Eval vm_compute in step_to (Activate "acme:llm" 1) validated.
Definition idle : list Proc := [Resting; Resting].
Definition reading : list Proc := [Validating "acme:llm" 1 read0; Resting].

Lemma db0_ok : sys_ok same_text (db0, idle).
Proof.
  split; [|by repeat constructor]. split; simpl.
  - intros i j a b Hi. by rewrite lookup_nil in Hi.
  - intros i j a b Hi. by rewrite lookup_nil in Hi.
  - by intros r Hr%elem_of_nil.
Qed.
(** Process 0 reads the draft; process 1 validates and activates it. *)
Lemma run_steps {A} ps j (m : M XpDb A) d d' :
  (forall w x w', m w = (x, w') -> ps !! j = Some Resting ->
     star (xp_step same_text) (store w, ps) (store w', ps)) ->
  ps !! j = Some Resting -> step_to m d = d' -> star (xp_step same_text) (d, ps) (d', ps).
Proof. intros Hm Hj <-. apply (Hm (MkWorld d [] 5) _ _ (surjective_pairing _) Hj). Qed.
Lemma to_validated ps j : ps !! j = Some Resting -> star (xp_step same_text) (drafted, ps) (validated, ps).
Proof.
  intros Hj. apply (run_steps ps j (Validate same_text "acme:llm" 1)); [|done|vm_compute; reflexivity].
  intros w x w' Hr Hp. by eapply Validate_steps.
Qed.
Lemma to_drafted : star (xp_step same_text) (db0, idle) (drafted, idle).
Proof.
  apply (run_steps idle 1 (CreateDraft draft0)); [|done|vm_compute; reflexivity].
  intros w x w' Hr Hp. by eapply CreateDraft_steps.
Qed.
Lemma to_active : star (xp_step same_text) (db0, idle) (active, reading).
Proof.
  apply (star_trans _ _ (drafted, idle)); [exact to_drafted|].
  apply (star_trans _ _ (drafted, reading)).
  { eapply star_one, (xs_validate_read same_text drafted idle 0 "acme:llm" 1 read0 [] 5);
      [reflexivity|vm_compute; reflexivity]. }
  apply (star_trans _ _ (validated, reading)); [by apply (to_validated reading 1)|].
  apply (run_steps reading 1 (Activate "acme:llm" 1)); [|done|vm_compute; reflexivity].
  intros w x w' Hr Hp. by eapply Activate_steps.
Qed.

(** C15.  Whatever processes draft, validate, activate and sweep, and wherever
    they stop between a read and a write: rows are kept with their content; a
    row that is not a draft never becomes one and keeps its digest and
    manifest; a key has one row per revision and a vendor one ACTIVE pack;
    every row that is not a draft is complete, its manifest is the export of
    its content, verifies against its digest and passed the red-line scan. *)
Theorem exitpack_history `{JS : Jsonb, PT : PgTime} float_text s s' :
  sys_ok float_text s -> star (xp_step float_text) s s' ->
  rows_kept xp_later (xpacks s.1) (xpacks s'.1) /\
  (forall i j a b, xpacks s'.1 !! i = Some a -> xpacks s'.1 !! j = Some b ->
     xp_key a = xp_key b -> xp_rev a = xp_rev b -> i = j) /\
  (forall i j a b, xpacks s'.1 !! i = Some a -> xpacks s'.1 !! j = Some b ->
     xp_state a = XpActive -> xp_state b = XpActive -> xp_vendor a = xp_vendor b -> i = j) /\
  (forall r, r ∈ xpacks s'.1 -> verified (xp_state r) = true ->
     ValidateCompleteness (scanPack float_text r) = inr tt /\
     exists m d, xp_manifest r = Some m /\ xp_digest r = Some d /\
       m = (BuildExport (scanPack float_text r)).1 /\
       VerifyExport m d = inr tt /\ ScanExportForForbidden m = inr tt).
Proof.
  intros Hok Hst. destruct (star_xp float_text s s' Hst Hok) as [[[K1 K2 K3] _] Hk].
  split; [done|]. split; [|split].
  - intros i j a b Ha Hb E1 E2. eapply K1; eauto. congruence.
  - intros i j a b Ha Hb E1 E2 Hv. eapply K2; eauto; unfold is_active; by rewrite ?E1, ?E2.
  - intros r Hr Hv. destruct (K3 r Hr Hv) as (Hc & Hm & Hd & Hs). split; [done|].
    eexists _, _. split; [exact Hm|]. split; [exact Hd|]. split; [done|]. split; [|done].
    unfold VerifyExport, BuildExport. cbn [fst snd]. by rewrite str_eqb_refl.
Qed.
Lemma exitpack_history_witness :
  exists r, xpacks active = [r] /\ xp_state r = XpActive /\
    ValidateCompleteness (scanPack same_text r) = inr tt.
Proof.
  destruct (exitpack_history same_text _ _ db0_ok to_active) as (_ & _ & _ & H).
  eexists. split; [reflexivity|]. split; [reflexivity|]. by apply H; [left|].
Defined.

(** Each operation, whatever fails in it, is a history of one process. *)
Theorem exitpack_refines `{JS : Jsonb, PT : PgTime} float_text ps j p key rev n (w : World XpDb) :
  ps !! j = Some Resting ->
  star (xp_step float_text) (store w, ps) (store (CreateDraft p w).2, ps) /\
  star (xp_step float_text) (store w, ps) (store (Validate float_text key rev w).2, ps) /\
  star (xp_step float_text) (store w, ps) (store (Activate key rev w).2, ps) /\
  star (xp_step float_text) (store w, ps) (store (SweepExpired n w).2, ps).
Proof.
  intros Hj. split; [|split; [|split]].
  - by eapply CreateDraft_steps; [|apply surjective_pairing].
  - by eapply Validate_steps; [|apply surjective_pairing].
  - by eapply Activate_steps; [|apply surjective_pairing].
  - by eapply Sweep_steps, surjective_pairing.
Qed.
Lemma exitpack_refines_witness :
  star (xp_step same_text) (drafted, idle)
    (store (Validate same_text "acme:llm" 1 (MkWorld drafted [] 5)).2, idle).
Proof.
  exact (proj1 (proj2 (exitpack_refines same_text idle 0 draft0 "acme:llm" 1 0 (MkWorld drafted [] 5) eq_refl))).
Defined.

(** Activate, with a database that answers: an unknown revision is not
    found, a draft or expired one is refused, an active one is left alone; a
    validated or superseded one becomes ACTIVE, its vendor's other active pack
    SUPERSEDED, and it is the only ACTIVE pack of its vendor. *)
Theorem Activate_spec `{JS : Jsonb, PT : PgTime} float_text key rev d t :
  table_ok float_text (xpacks d) ->
  Activate key rev (MkWorld d [] t) =
  match first_where (is_pack key rev) (xpacks d) with
  | None => (inl ErrNotFound, MkWorld d [] t)
  | Some r =>
      match xp_state r with
      | XpActive => (inr tt, MkWorld d [] t)
      | XpValidated | XpSuperseded =>
          (inr tt, MkWorld (with_xpacks (activated t (xp_vendor r) key rev (xpacks d)) d) [] t)
      | XpDraft | XpExpired => (inl (errV ReasonInvalidState), MkWorld d [] t)
      end
  end /\
  forall r r', r ∈ xpacks d -> is_pack key rev r = true ->
    r' ∈ activated t (xp_vendor r) key rev (xpacks d) ->
    xp_vendor r' = xp_vendor r -> xp_state r' = XpActive -> is_pack key rev r' = true.
Proof.
  intros Hok. split; [by eapply Activate_run|]. intros r r' Hr Hk Hr' Hv Ha.
  destruct (activated_unique float_text t r key rev _ Hok Hr Hk) as [_ Hone].
  destruct (Hone r' Hr' Hv) as (r0 & -> & ->); [unfold is_active; by rewrite Ha|].
  unfold activate_row. by repeat case_match.
Qed.
Lemma Activate_spec_witness :
  Activate "acme:llm" 1 (MkWorld validated [] 9) =
    (inr tt, MkWorld (with_xpacks (activated 9 "acme" "acme:llm" 1 (xpacks validated)) validated) [] 9).
Proof.
  pose proof (star_trans _ _ _ _ to_drafted (to_validated idle 1 eq_refl)) as Hst.
  destruct (star_xp same_text _ _ Hst db0_ok) as [[Hok _] _].
  exact (proj1 (Activate_spec same_text "acme:llm" 1 validated 9 Hok)).
Defined.

(** A validation that read the draft may write after another process has
    validated and activated the same revision: its update has no state guard
    and the trigger lets it pass, so the ACTIVE pack goes back to VALIDATED and
    its vendor has no ACTIVE pack. *)
Theorem Validate_reverts_active `{JS : Jsonb, PT : PgTime} float_text key rev p d ps j r :
  sys_ok float_text (d, ps) -> ps !! j = Some (Validating key rev p) -> State p = XpDraft ->
  r ∈ xpacks d -> is_pack key rev r = true -> xp_state r = XpActive ->
  exists d', xp_step float_text (d, ps) (d', <[j := Resting]> ps) /\
    (exists r', r' ∈ xpacks d' /\ is_pack key rev r' = true /\ xp_state r' = XpValidated) /\
    forall r', r' ∈ xpacks d' -> xp_vendor r' = xp_vendor r -> is_active r' = false.
Proof. apply validate_race. Qed.
Lemma Validate_reverts_active_witness :
  exists d', star (xp_step same_text) (db0, idle) (d', idle) /\
    exists r', r' ∈ xpacks d' /\ xp_state r' = XpValidated.
Proof.
  destruct (star_xp same_text _ _ to_active db0_ok) as [Hok _].
  destruct (xpacks active) as [|r0 l] eqn:E; [discriminate E|].
  destruct (Validate_reverts_active same_text "acme:llm" 1 read0 active reading 0 r0 Hok)
    as (d' & Hst & (r' & Hr' & _ & Hs) & _);
    [done|done|rewrite E; left| | |].
  - injection E as <- _. reflexivity.
  - injection E as <- _. reflexivity.
  - exists d'. split; [|by exists r']. eapply star_next; [exact to_active|exact Hst].
Defined.

(** C28.  An export can be read back: any JSON decoder gets the pack's fields
    from the manifest, the manifest verifies against its digest, packs with
    the same manifest have the same fields, and bytes that verify against the
    digest have the manifest's SHA-256. *)
Theorem export_roundtrip p :
  readable p ->
  unmarshal (BuildExport p).1 = Some (export_json p) /\
  VerifyExport (BuildExport p).1 (BuildExport p).2 = inr tt /\
  (forall q, readable q -> (BuildExport q).1 = (BuildExport p).1 ->
     (Checklist p, EvidenceRefs p, OwnerRef p, PackKey p, RecoverySteps p, SubstituteProvider p,
      Vendor p, Revision p) =
     (Checklist q, EvidenceRefs q, OwnerRef q, PackKey q, RecoverySteps q, SubstituteProvider q,
      Vendor q, Revision q)) /\
  (forall m, VerifyExport m (BuildExport p).2 = inr tt ->
     sha256_hex m = sha256_hex (BuildExport p).1).
Proof.
  intros Hp. pose proof (export_text p Hp) as He. split; [done|]. split; [|split].
  - unfold VerifyExport, BuildExport. cbn [fst snd]. by rewrite str_eqb_refl.
  - intros q Hq Hm. pose proof (export_text q Hq) as Hq'. rewrite Hm, He in Hq'.
    apply export_inj. by apply Some_inj in Hq'.
  - intros m Hv. unfold VerifyExport in Hv. destruct (_ =s _) eqn:E; [|discriminate].
    apply String.eqb_eq in E. unfold BuildExport in E |- *. cbn [fst snd] in *.
    unfold sha256_digest in E. by apply (inj (String.append "sha256:")) in E.
Qed.
Lemma export_roundtrip_witness :
  unmarshal (BuildExport draft0).1 = Some (export_json draft0).
Proof.
  apply (export_roundtrip draft0). split; [by vm_compute|]. do 3 (split; [by vm_compute|]).
  split; [|split; [by vm_compute|done]].
  intros s Hs. apply list_elem_of_singleton in Hs as ->. by exists 2.
Defined.

(** A draft reads back as it was created, with its revision, except that
    its expiry is lost: the text PostgreSQL gives a timestamp never parses as
    RFC 3339, so ValidUntil is nil whatever the row holds. *)
Theorem CreateDraft_read_back `{JS : Jsonb, !JsonbStrings, PT : PgTime} float_text p rev (w w1 : World XpDb) t :
  table_ok float_text (xpacks (store w)) ->
  utf8_slice (RecoverySteps p) = true -> utf8_slice (EvidenceRefs p) = true ->
  CreateDraft p w = (inr rev, w1) ->
  exists check,
  Get float_text (PackKey p) rev (MkWorld (store w1) [] t) =
    (inr (MkPack (PackKey p) (Vendor p) rev XpDraft (OwnerRef p) (SubstituteProvider p)
            (RecoverySteps p) (EvidenceRefs p) check None "" ""), MkWorld (store w1) [] t).
Proof. apply draft_back. Qed.
Lemma CreateDraft_read_back_witness :
  exists check, Get same_text "acme:llm" 1 (MkWorld drafted [] 0) =
    (inr (MkPack "acme:llm" "acme" 1 XpDraft "team-a" "beta" (Some ["export"; "switch"]) (Some ["ev-1"])
            check None "" ""), MkWorld drafted [] 0).
Proof.
  exact (CreateDraft_read_back same_text draft0 1 (MkWorld db0 [] 5) (MkWorld drafted [] 5) 0
           (proj1 db0_ok) eq_refl eq_refl eq_refl).
Defined.
End ExitPackProps.
