(* ===== verification/Mmr.v ===== *)
(** * The model router adapter (src/internal/mmr)

    Module [Adapter] is the contract with the router (headers, the decision id
    of a response or of an error body, outcomes), module [Correlator] the
    ledger of plan and decision ids, module [ModeStore] the routing modes of
    migration 00008 and their transitions, audited in saoaf.change_record.
    The theorems: the audit rows of a scope are a path of legal transitions
    that ends in its mode; what SetMode does on every branch; which mode a
    request gets; when a decision id is accepted; that recording is
    idempotent. *)

From S2P Require Import Prelude GoStd GoJson GoUnmarshal GoHttp Sql Schema.

(** ** Tables of migration 00008 *)

(** saoaf.model_route_correlation *)
Record CorrRow : Type := MkCorrRow {
  mc_id : Z;
  mc_plan : string;
  mc_item : string;
  mc_decision : string;
  mc_outcome : string;
  mc_usage : string;
  mc_trace : string;
  mc_recorded_at : Z;
}.
(** saoaf.mmr_routing_mode *)
Record ModeRow : Type := MkModeRow {
  mo_tenant : string;
  mo_agent : string;
  mo_mode : string;
  mo_static : string;
  mo_updated_by : string;
  mo_updated_at : Z;
}.
Record MmrDb : Type := MkMmrDb {
  mbase : Database;
  correlations : list CorrRow;
  modes : list ModeRow;
  mc_next : Z;
}.
Definition with_mbase (v : Database) (d : MmrDb) : MmrDb :=
  MkMmrDb v (correlations d) (modes d) (mc_next d).
Definition with_modes (v : list ModeRow) (d : MmrDb) : MmrDb :=
  MkMmrDb (mbase d) (correlations d) v (mc_next d).

(** ** The contract with the router *)

Module Adapter.

Definition OutcomeSucceeded : string := "SUCCEEDED".
Definition OutcomeFallback : string := "FALLBACK".
Definition OutcomeQuota : string := "QUOTA".
Definition OutcomeTimeout : string := "TIMEOUT".
Definition OutcomeFailed : string := "FAILED".
Definition ErrMissingDecisionID : err := ETyped "mmr: response missing model_route_decision_id" "".
Definition ErrCorrelationRejected : err := ETyped "mmr: correlation rejected" "".

Record Invocation : Type := MkInvocation {
  Profile : string;
  ResourcePlanID : string;
  ResourcePlanItemID : string;
  TenantRef : string;
  Traceparent : string;
  StreamingRequired : bool;
}.

Definition Headers (inv : Invocation) : Header :=
  let h := header_set "X-Tenant-Ref" (TenantRef inv)
             (header_set "X-Resource-Plan-Item-ID" (ResourcePlanItemID inv)
                (header_set "X-Resource-Plan-ID" (ResourcePlanID inv) [])) in
  if Traceparent inv =s "" then h else header_set "traceparent" (Traceparent inv) h.

Definition ValidateResponse (inv : Invocation) (h : Header) : err + string :=
  let decisionID := GoString.trim_space (header_get h "X-Model-Route-Decision-ID") in
  if decisionID =s "" then inl ErrMissingDecisionID
  else
    let echoed := header_get h "X-Resource-Plan-ID" in
    if negb (echoed =s "") && negb (echoed =s ResourcePlanID inv) then inl ErrCorrelationRejected
    else inr decisionID.

(** The field [error], a struct of two strings. *)
Definition error_member (bad : bool) (kv : string * json) : bool :=
  if names "error" kv.1 then
    match kv.2 with
    | JObj fs => bad || (field string_value "" "code" fs).1 || (field string_value "" "message" fs).1
    | JNull => bad
    | _ => true
    end
  else bad.

(** ErrorEnvelope: the ids; [None] is an error of json.Unmarshal. *)
Record ErrorEnvelope : Type := MkErrorEnvelope { EnvDecisionID : string; EnvPlanID : string }.
Definition decode_envelope (body : string) : option ErrorEnvelope :=
  match unmarshal body with
  | Some (JObj fs) =>
      let '(bad1, decision) := field string_value "" "model_route_decision_id" fs in
      let '(bad2, plan) := field string_value "" "resource_plan_id" fs in
      if bad1 || bad2 || fold_left error_member fs false then None
      else Some (MkErrorEnvelope decision plan)
  | Some JNull => Some (MkErrorEnvelope "" "")
  | _ => None
  end.
Definition DecisionFromError (inv : Invocation) (body : string) : err + string :=
  match decode_envelope body with
  | None => inl plain_error
  | Some env =>
      if EnvDecisionID env =s "" then inl ErrMissingDecisionID
      else if negb (EnvPlanID env =s "") && negb (EnvPlanID env =s ResourcePlanID inv)
      then inl ErrCorrelationRejected
      else inr (EnvDecisionID env)
  end.

Definition OutcomeForStatus (status : Z) : string :=
  if status =? 200 then OutcomeSucceeded
  else if status =? 429 then OutcomeQuota
  else if status =? 503 then OutcomeFailed
  else OutcomeFailed.
(** The field [status] of the body; an error leaves the outcome SUCCEEDED. *)
Definition decode_status (body : string) : option string :=
  match unmarshal body with
  | Some (JObj fs) => let '(bad, s) := field string_value "" "status" fs in if bad : bool then None else Some s
  | Some JNull => Some ""
  | _ => None
  end.
Definition OutcomeFromBody (status : Z) (body : string) : string :=
  if negb (status =? 200) then OutcomeForStatus status
  else match decode_status body with
       | None => OutcomeSucceeded
       | Some s => if s =s OutcomeFallback then OutcomeFallback else OutcomeSucceeded
       end.
End Adapter.

(** ** The correlation ledger *)

Module Correlator.
Import Adapter.

Record Correlation : Type := MkCorrelation {
  CoPlanID : string;
  CoItemID : string;
  CoDecisionID : string;
  CoOutcome : string;
  UsageRef : string;
  TraceID : string;
}.
(** 00008: CHECK (outcome IN ...) *)
Definition outcomes : list string :=
  [OutcomeSucceeded; OutcomeFallback; OutcomeQuota; OutcomeTimeout; OutcomeFailed].
Definition same_decision (c : Correlation) (r : CorrRow) : bool :=
  (mc_item r =s CoItemID c) && (mc_decision r =s CoDecisionID c).
Definition corr_row (c : Correlation) (id t : Z) : CorrRow :=
  MkCorrRow id (CoPlanID c) (CoItemID c) (CoDecisionID c) (CoOutcome c) (UsageRef c) (TraceID c) t.
(** INSERT ... ON CONFLICT (resource_plan_item_id, model_route_decision_id) DO NOTHING *)
Definition insert_correlation (c : Correlation) (t : Z) : M MmrDb unit :=
  insert_row (fun d =>
    if negb (str_mem (CoOutcome c) outcomes) then inl CheckViolation
    else if any_where (same_decision c) (correlations d) then inr d
    else inr (MkMmrDb (mbase d) (correlations d ++ [corr_row c (mc_next d) t]) (modes d) (mc_next d + 1))).
Definition Record_ (c : Correlation) : M MmrDb unit :=
  guard (CoOutcome c =s "") plain_error ;!
  guard ((CoPlanID c =s "") || (CoItemID c =s "") || (CoDecisionID c =s "")) plain_error ;!
  let! t := now in insert_correlation c t.
End Correlator.

(** ** Routing modes *)

Module ModeStore.

Record RoutingMode : Type := MkRoutingMode {
  ScopeTenant : string;
  ScopeAgent : string;
  Mode_ : string;
  StaticProfileRef : string;
  UpdatedBy : string;
  UpdatedAt : Z;
}.

Definition legalModeTransitions (from : string) : list string :=
  if from =s "SHADOW" then ["GRAY"; "ROLLED_BACK"]
  else if from =s "GRAY" then ["FULL"; "SHADOW"; "ROLLED_BACK"]
  else if from =s "FULL" then ["ROLLED_BACK"]
  else if from =s "ROLLED_BACK" then ["SHADOW"; "GRAY"]
  else [].
Definition ValidateModeTransition (from to : string) : bool :=
  if from =s "" then str_mem to ["SHADOW"; "GRAY"; "FULL"; "ROLLED_BACK"]
  else str_mem to (legalModeTransitions from).

Definition of_scope (tenant agent : string) (r : ModeRow) : bool :=
  (mo_tenant r =s tenant) && (mo_agent r =s agent).
Definition mode_of (r : ModeRow) : RoutingMode :=
  MkRoutingMode (mo_tenant r) (mo_agent r) (mo_mode r) (mo_static r) (mo_updated_by r) (mo_updated_at r).
(** The loop over the scopes, most specific first. *)
Fixpoint first_scope (scopes : list (string * string)) : M MmrDb (option RoutingMode) :=
  match scopes with
  | [] => ret None
  | (tenant, agent) :: rest =>
      let! r := attempt (query_row (fun d => first_where (of_scope tenant agent) (modes d))) in
      match r with
      | inr row => ret (Some (mode_of row))
      | inl e => if is_no_rows e then first_scope rest else throw e
      end
  end.
Definition Mode (tenant agent : string) : M MmrDb (option RoutingMode) :=
  first_scope [(tenant, agent); (tenant, ""); ("", "")].

Definition mode_row (m : RoutingMode) (t : Z) : ModeRow :=
  MkModeRow (ScopeTenant m) (ScopeAgent m) (Mode_ m) (StaticProfileRef m) (UpdatedBy m) t.
(** INSERT ... ON CONFLICT (scope) DO UPDATE ... WHERE mode = expectedFrom *)
Definition upsert_mode (m : RoutingMode) (expectedFrom : string) (t : Z) : M MmrDb Z :=
  exec_n (fun d =>
    let scope := of_scope (ScopeTenant m) (ScopeAgent m) in
    match first_where scope (modes d) with
    | None => (1, with_modes (modes d ++ [mode_row m t]) d)
    | Some r =>
        if mo_mode r =s expectedFrom
        then (1, with_modes (update_where scope (fun _ => mode_row m t) (modes d)) d)
        else (0, d)
    end).
Definition tenant_text (tenant : string) : string := if tenant =s "" then "_global" else tenant.
Definition audit_tenant (m : RoutingMode) : string := tenant_text (ScopeTenant m).
Definition scope_text (tenant agent : string) : string := tenant +:+ "/" +:+ agent.
Definition audit_kind : string := "mmr-routing-mode".
(** jsonb_build_object, in the order jsonb keeps. *)
Definition audit_summary (m : RoutingMode) (expectedFrom : string) : json :=
  JObj [("to", JStr (Mode_ m)); ("from", JStr expectedFrom);
        ("static_profile_ref", JStr (StaticProfileRef m))].
Definition on_base {A} (m : Db A) : M MmrDb A := zoom mbase with_mbase m.
Definition SetMode (m : RoutingMode) (expectedFrom : string) : M MmrDb unit :=
  guard (negb (ValidateModeTransition expectedFrom (Mode_ m))) plain_error ;!
  tx (let! t := now in
      let! n := upsert_mode m expectedFrom t in
      guard (n =? 0) plain_error ;!
      let! _ := on_base (insert_change t (audit_tenant m) (UpdatedBy m) "" audit_kind
                           (scope_text (ScopeTenant m) (ScopeAgent m)) "TRANSITION" ""
                           (audit_summary m expectedFrom)) in
      ret (Commit tt)).
End ModeStore.

(** ** Histories *)

Section Log.
Import Correlator ModeStore.

(** A call of the adapter, whatever statements fail, or what the other
    components do. *)
Inductive mode_step : MmrDb -> MmrDb -> Prop :=
| ms_set w m from : mode_step (store w) (store (SetMode m from w).2)
| ms_record w c : mode_step (store w) (store (Record_ c w).2)
| ms_base d b added :
    changes b = changes (mbase d) ++ added ->
    Forall (fun c => cr_kind c <> audit_kind) added -> mode_step d (with_mbase b d).

(** The audited transitions of a scope, oldest first. *)
Definition transition_of (c : ChangeRow) : string * string :=
  match cr_summary c with
  | JObj [(_, JStr to); (_, JStr from); _] => (from, to)
  | _ => ("", "")
  end.
Definition audits (tenant agent : string) (c : ChangeRow) : bool :=
  (cr_kind c =s audit_kind) && (cr_tenant c =s tenant_text tenant) && (cr_entity c =s scope_text tenant agent).
Definition trail (tenant agent : string) (d : MmrDb) : list (string * string) :=
  map transition_of (rows_where (audits tenant agent) (changes (mbase d))).
(** Legal transitions, each from where the one before it ended. *)
Definition linked (l : list (string * string)) : Prop :=
  forall pre a b post, l = pre ++ a :: b :: post -> a.2 = b.1.
Definition legal (l : list (string * string)) : Prop :=
  Forall (fun p => ValidateModeTransition p.1 p.2 = true) l.

Record modes_ok (d : MmrDb) : Prop := {
  ok_scopes : indexed (fun _ => true) (fun r => (mo_tenant r, mo_agent r)) (modes d);
  ok_trail : forall r, r ∈ modes d ->
    let l := trail (mo_tenant r) (mo_agent r) d in
    legal l /\ linked l /\ exists from, last l = Some (from, mo_mode r);
  ok_unset : forall tenant agent,
    any_where (of_scope tenant agent) (modes d) = false -> trail tenant agent d = [];
  ok_decisions : indexed (fun _ => true) (fun r => (mc_item r, mc_decision r)) (correlations d);
}.

(** The tenant and the entity of an audit row tell the scope; the entity alone
    does not ([shared_entity] below). *)
Lemma audit_key_inj t1 a1 t2 a2 :
  tenant_text t1 = tenant_text t2 -> scope_text t1 a1 = scope_text t2 a2 -> t1 = t2 /\ a1 = a2.
Proof using.
  unfold tenant_text, scope_text.
  destruct (String.eqb_spec t1 "") as [->|N1], (String.eqb_spec t2 "") as [->|N2]; cbn.
  - intros _ H. injection H as H. by split.
  - intros <-. discriminate.
  - intros ->. discriminate.
  - intros -> H%(inj (String.append _)). injection H as H. by split.
Qed.
Lemma of_scope_spec tenant agent r :
  of_scope tenant agent r = true <-> mo_tenant r = tenant /\ mo_agent r = agent.
Proof using. unfold of_scope. by rewrite andb_true_iff, !String.eqb_eq. Qed.

Lemma SetMode_inr m from (w : World MmrDb) u w' :
  SetMode m from w = (inr u, w') ->
  ValidateModeTransition from (Mode_ m) = true /\
  change_ok (audit_tenant m) (UpdatedBy m) = true /\
  let scope := of_scope (ScopeTenant m) (ScopeAgent m) in
  let c := new_change (mbase (store w)) (clock w) (audit_tenant m) (UpdatedBy m) "" audit_kind
             (scope_text (ScopeTenant m) (ScopeAgent m)) "TRANSITION" "" (audit_summary m from) in
  mbase (store w') = push_change c (mbase (store w)) /\
  correlations (store w') = correlations (store w) /\
  match first_where scope (modes (store w)) with
  | None => modes (store w') = modes (store w) ++ [mode_row m (clock w)]
  | Some r => mo_mode r = from /\
              modes (store w') = update_where scope (fun _ => mode_row m (clock w)) (modes (store w))
  end.
Proof using.
  intros Hr. unfold SetMode in Hr. apply bind_inr in Hr as (u0 & w0 & Hg & Hr).
  apply guard_inr in Hg as [Hv ->]. apply negb_false_iff in Hv. split; [done|].
  apply tx_inr in Hr as (wa & Hs & Hc & [(wb & Hb & Hw)|(wb & Hb & _)]).
  2: { inv_run. congruence. }
  apply bind_inr in Hb as (t & w1 & Ht & Hb). apply now_inr in Ht as [-> ->].
  apply bind_inr in Hb as (n & w2 & Hu & Hb). apply exec_n_inr in Hu as [Hu Hc2].
  apply bind_inr in Hb as (u1 & w3 & Hg & Hb). apply guard_inr in Hg as [Hn ->].
  apply bind_inr in Hb as (id & w4 & Hi & Hb). injection Hb as _ <-.
  unfold on_base, zoom in Hi.
  destruct (insert_change _ _ _ _ _ _ _ _ _ _) as [[e|i] v] eqn:Ei; [discriminate|].
  injection Hi as _ Hw4. apply insert_change_inr in Ei as (_ & Hok & _ & Ev). cbn [store] in Ev.
  split; [done|]. cbv zeta. rewrite Hw, <- Hw4. cbn [store mbase correlations modes with_mbase].
  rewrite Ev, Hc, Hs in *. cbv zeta in Hu.
  destruct (first_where _ (modes (store w))) as [r|] eqn:Ef.
  - destruct (mo_mode r =s from) eqn:Em; [|injection Hu as <- _; discriminate].
    apply String.eqb_eq in Em. injection Hu as _ <-. done.
  - injection Hu as _ <-. done.
Qed.
Lemma SetMode_inl m from (w : World MmrDb) e w' : SetMode m from w = (inl e, w') -> store w' = store w.
Proof using.
  unfold SetMode, bind at 1, guard at 1. destruct (negb _); [by intros [= _ <-]|].
  apply tx_inl.
Qed.

(** The trail after an audit row. *)
Lemma trail_push tenant agent d b c :
  mbase d = push_change c b ->
  trail tenant agent d = map transition_of (rows_where (audits tenant agent) (changes b)) ++
                         (if audits tenant agent c then [transition_of c] else []).
Proof using.
  intros E. unfold trail. rewrite E. cbn [push_change changes with_next_id with_changes].
  rewrite rows_where_app, map_app. unfold rows_where at 2. simpl. by destruct (audits tenant agent c).
Qed.
Lemma linked_snoc l a : linked l -> (forall x, last l = Some x -> x.2 = a.1) -> linked (l ++ [a]).
Proof using.
  intros Hl Hx pre x y post E.
  destruct post as [|z post _] using rev_ind.
  - assert (Hsn : l ++ [a] = (pre ++ [x]) ++ [y]) by (by rewrite E, <- app_assoc).
    apply app_inj_tail in Hsn as [-> ->]. apply Hx. by rewrite last_snoc.
  - assert (Hsn : l ++ [a] = (pre ++ x :: y :: post) ++ [z]).
    { rewrite E, <- app_assoc. done. }
    apply app_inj_tail in Hsn as [-> _]. by eapply Hl.
Qed.

Lemma set_ok m from d fl t w' :
  modes_ok d -> SetMode m from (MkWorld d fl t) = (inr tt, w') -> modes_ok (store w').
Proof using.
  intros [K1 K3 K4 K5] Hr. apply SetMode_inr in Hr as (Hv & _ & Hb & Hco & Hm).
  cbn [store clock] in *. set (d' := store w') in *.
  set (scope := of_scope (ScopeTenant m) (ScopeAgent m)) in *.
  assert (Htr : forall tenant agent, trail tenant agent d' = trail tenant agent d ++
      (if bool_decide ((tenant, agent) = (ScopeTenant m, ScopeAgent m)) then [(from, Mode_ m)] else [])).
  { intros tenant agent. rewrite (trail_push _ _ _ _ _ Hb). f_equal. unfold audits, audit_tenant.
    cbn [new_change cr_kind cr_tenant cr_entity]. rewrite str_eqb_refl, andb_true_l.
    case_bool_decide as E; [injection E as -> ->; by rewrite !str_eqb_refl|].
    destruct (_ && _) eqn:E2; [|done]. exfalso. apply E. apply andb_true_iff in E2 as [E2 E3].
    apply String.eqb_eq in E2, E3. by destruct (audit_key_inj _ _ _ _ E2 E3) as [-> ->]. }
  assert (Hother : forall tenant agent, (tenant, agent) <> (ScopeTenant m, ScopeAgent m) ->
    trail tenant agent d' = trail tenant agent d).
  { intros tenant agent Hne. rewrite Htr, bool_decide_false by done. apply app_nil_r. }
  (* the scope's own trail *)
  set (own := trail (ScopeTenant m) (ScopeAgent m)) in *.
  assert (Hown : legal (own d') /\ linked (own d') /\ last (own d') = Some (from, Mode_ m)).
  { unfold own. rewrite Htr, bool_decide_true by done. fold own.
    assert (Hold : legal (own d) /\ linked (own d) /\ forall x, last (own d) = Some x -> x.2 = from).
    { destruct (first_where scope (modes d)) as [r|] eqn:Ef.
      - destruct Hm as [Hm _]. apply first_where_some in Ef as [Hr Hs].
        apply of_scope_spec in Hs as [E1 E2]. destruct (K3 r Hr) as (L1 & L2 & f & L3).
        rewrite E1, E2 in *. fold own in L1, L2, L3. split; [done|]. split; [done|].
        intros x Hx. rewrite L3 in Hx. by injection Hx as <-.
      - unfold own. rewrite K4.
        + split; [constructor|]. split; [|done]. intros pre a b post E. by destruct pre.
        + apply any_where_false. intros r Hr. eapply first_where_none; eauto. }
    destruct Hold as (L1 & L2 & L3). split; [|split].
    - apply Forall_app. split; [done|]. by repeat constructor.
    - by apply linked_snoc.
    - apply last_snoc. }
  assert (Hrows : forall r, r ∈ modes d' ->
    r = mode_row m t \/ (r ∈ modes d /\ (mo_tenant r, mo_agent r) <> (ScopeTenant m, ScopeAgent m))).
  { intros r Hr. destruct (first_where scope (modes d)) as [r0|] eqn:Ef.
    - destruct Hm as [_ Hm]. rewrite Hm in Hr.
      apply elem_of_update_where in Hr as [(x & _ & _ & ->)|[Hr Hs]]; [by left|right].
      split; [done|]. intros [= E1 E2]. assert (scope r = true); [|congruence]. by apply of_scope_spec.
    - rewrite Hm in Hr. apply elem_of_app in Hr as [Hr|Hr]; [right|left; by apply list_elem_of_singleton in Hr].
      split; [done|]. intros [= E1 E2]. eapply first_where_none in Ef; [|exact Hr].
      assert (scope r = true); [|congruence]. by apply of_scope_spec. }
  split.
  - destruct (first_where scope (modes d)) as [r0|] eqn:Ef.
    + destruct Hm as [_ ->]. apply indexed_update; [done|]. intros r Hr Hs _. split; [done|].
      apply of_scope_spec in Hs as [E1 E2]. simpl. by rewrite E1, E2.
    + rewrite Hm. apply (indexed_snoc (pair_eqb String.eqb String.eqb)
                           (pair_eqb_spec _ _ String.eqb_eq String.eqb_eq)); [done|].
      apply (clashes_false _ (pair_eqb_spec _ _ String.eqb_eq String.eqb_eq)). intros _ r Hr _ [= E1 E2].
      eapply first_where_none in Ef; [|exact Hr]. assert (scope r = true); [|congruence].
      by apply of_scope_spec.
  - intros r Hr. destruct (Hrows r Hr) as [->|[Hin Hne]].
    + destruct Hown as (L1 & L2 & L3). split; [exact L1|]. split; [exact L2|]. by exists from.
    + cbv zeta. rewrite Hother; [by apply K3|done].
  - intros tenant agent Ha. destruct (decide ((tenant, agent) = (ScopeTenant m, ScopeAgent m))) as [E|E].
    + exfalso. injection E as -> ->. eapply (any_where_false _ _) with (r := mode_row m t) in Ha.
      * unfold of_scope in Ha. simpl in Ha. by rewrite !str_eqb_refl in Ha.
      * destruct (first_where scope (modes d)) as [r0|] eqn:Ef.
        -- destruct Hm as [_ ->]. apply first_where_some in Ef as [Hr0 Hs0].
           apply list_elem_of_In, in_map_iff. exists r0. rewrite Hs0. split; [done|by apply list_elem_of_In].
        -- rewrite Hm. apply elem_of_app. right. left.
    + rewrite Hother by done. apply K4. apply any_where_false. intros r Hr.
      destruct (of_scope tenant agent r) eqn:Es; [|done]. exfalso.
      assert (Hr' : exists r', r' ∈ modes d' /\ of_scope tenant agent r' = true).
      { exists r. split; [|done]. apply of_scope_spec in Es as [E1 E2].
        destruct (first_where scope (modes d)) as [r0|] eqn:Ef.
        - destruct Hm as [_ ->]. apply list_elem_of_In, in_map_iff. exists r.
          split; [|by apply list_elem_of_In]. destruct (scope r) eqn:E3; [|done].
          apply of_scope_spec in E3 as [E3 E4]. exfalso. apply E. congruence.
        - rewrite Hm. apply elem_of_app. by left. }
      destruct Hr' as (r' & Hr' & Hs'). eapply (any_where_false _ _) in Ha; [|exact Hr']. congruence.
  - by rewrite Hco.
Qed.

Lemma Record_inr c (w : World MmrDb) u w' :
  Record_ c w = (inr u, w') ->
  (CoOutcome c <> "" /\ CoPlanID c <> "" /\ CoItemID c <> "" /\ CoDecisionID c <> "" /\
   CoOutcome c ∈ outcomes) /\
  mbase (store w') = mbase (store w) /\ modes (store w') = modes (store w) /\
  correlations (store w') =
    if any_where (same_decision c) (correlations (store w)) then correlations (store w)
    else correlations (store w) ++ [corr_row c (mc_next (store w)) (clock w)].
Proof using.
  intros Hr. unfold Record_ in Hr. apply bind_inr in Hr as (x & w1 & Hg & Hr).
  apply guard_inr in Hg as [Hg ->]. apply bind_inr in Hr as (x1 & w2 & Hg2 & Hr).
  apply guard_inr in Hg2 as [Hg2 ->]. apply bind_inr in Hr as (t & w3 & Ht & Hr).
  apply now_inr in Ht as [-> ->]. apply insert_row_inr in Hr as [Hf _].
  destruct (str_mem (CoOutcome c) outcomes) eqn:Em; [|discriminate]. simpl in Hf.
  apply orb_false_iff in Hg2 as [Hg2 Hg5]. apply orb_false_iff in Hg2 as [Hg3 Hg4].
  apply String.eqb_neq in Hg, Hg3, Hg4, Hg5. split; [by apply str_mem_spec in Em|].
  destruct (any_where _ _); injection Hf as <-; done.
Qed.
Lemma Record_inl c (w : World MmrDb) e w' : Record_ c w = (inl e, w') -> store w' = store w.
Proof using.
  unfold Record_, bind, guard, now. destruct (_ =s ""); [by intros [= _ <-]|]. destruct (_ || _); [by intros [= _ <-]|].
  unfold insert_correlation, insert_row, stmt, ret. cbv beta iota zeta.
  destruct (failing w); [intros [= _ <-]; done|]. intros H.
  destruct (if negb _ then _ else _); [by injection H as _ <-|discriminate].
Qed.
Lemma mode_step_ok d d' :
  mode_step d d' -> modes_ok d ->
  modes_ok d' /\ extends (changes (mbase d)) (changes (mbase d')) /\
  extends (correlations d) (correlations d').
Proof using.
  intros Hst Hok. destruct Hst as [[d fl t] m from|[d fl t] c|d b added Hb Hk]; cbn [store] in *.
  - destruct (SetMode m from _) as [[e|[]] w'] eqn:Hr; cbn [snd].
    { apply SetMode_inl in Hr. rewrite Hr. auto. }
    split; [by eapply set_ok|]. apply SetMode_inr in Hr as (_ & _ & -> & -> & _).
    split; [apply extends_app|apply extends_refl].
  - destruct (Record_ c _) as [[e|u] w'] eqn:Hr; cbn [snd].
    { apply Record_inl in Hr. rewrite Hr. auto. }
    apply Record_inr in Hr as (_ & Hb & Hm & Hc). cbn [store clock] in *. rewrite Hb, Hc.
    split; [|split; [apply extends_refl|destruct (any_where _ _); auto]].
    destruct Hok as [K1 K3 K4 K5]. unfold trail in *. split; unfold trail; rewrite ?Hb, ?Hm; try done.
    rewrite Hc. destruct (any_where _ _) eqn:Ea; [done|].
    apply (indexed_snoc (pair_eqb String.eqb String.eqb) (pair_eqb_spec _ _ String.eqb_eq String.eqb_eq)); [done|].
    apply (clashes_false _ (pair_eqb_spec _ _ String.eqb_eq String.eqb_eq)). intros _ r Hr _ [= E1 E2].
    eapply (any_where_false _ _) in Ea; [|exact Hr]. unfold same_decision in Ea.
    by rewrite E1, E2, !str_eqb_refl in Ea.
  - cbn [mbase with_mbase correlations]. split; [|split; [by exists added|done]].
    assert (Ht : forall tenant agent, trail tenant agent (with_mbase b d) = trail tenant agent d).
    { intros tenant agent. unfold trail. cbn [mbase with_mbase]. rewrite Hb, rows_where_app.
      rewrite (rows_where_none _ added); [by rewrite app_nil_r|]. intros c Hc.
      apply (proj1 (Forall_forall _ _) Hk) in Hc. unfold audits.
      destruct (cr_kind c =s audit_kind) eqn:E; [|done]. by apply String.eqb_eq in E. }
    destruct Hok as [K1 K3 K4 K5]. split; try done; cbn [modes with_mbase] in *.
    + intros r Hr. cbv zeta. rewrite Ht. by apply K3.
    + intros tenant agent Ha. rewrite Ht. by apply K4.
Qed.
Lemma star_modes d d' :
  star mode_step d d' -> modes_ok d ->
  modes_ok d' /\ extends (changes (mbase d)) (changes (mbase d')) /\
  extends (correlations d) (correlations d').
Proof using.
  intros Hst Hok. induction Hst as [|d1 d2 d3 Hst IH Hs]; [done|].
  destruct (IH Hok) as (Hok2 & E1 & E2). destruct (mode_step_ok _ _ Hs Hok2) as (Hok3 & F1 & F2).
  split; [done|]. split; by eapply extends_trans.
Qed.
End Log.

Module MmrProps.
Import Adapter Correlator ModeStore.

(** The database after a successful SetMode. *)
Definition mode_set (m : RoutingMode) (from : string) (t : Z) (d : MmrDb) : MmrDb :=
  let scope := of_scope (ScopeTenant m) (ScopeAgent m) in
  let rows := if any_where scope (modes d) then update_where scope (fun _ => mode_row m t) (modes d)
              else modes d ++ [mode_row m t] in
  with_mbase (push_change (new_change (mbase d) t (audit_tenant m) (UpdatedBy m) "" audit_kind
                             (scope_text (ScopeTenant m) (ScopeAgent m)) "TRANSITION" "" (audit_summary m from))
                (mbase d))
    (with_modes rows d).
Definition mode_in (d : MmrDb) (tenant agent : string) : option string :=
  option_map mo_mode (first_where (of_scope tenant agent) (modes d)).

Lemma modes_ok_empty d :
  modes d = [] -> correlations d = [] ->
  Forall (fun c => cr_kind c <> audit_kind) (changes (mbase d)) -> modes_ok d.
Proof.
  intros Hm Hc Hk. split; rewrite ?Hm, ?Hc.
  - intros i j a b Ha. by rewrite lookup_nil in Ha.
  - intros r Hr. by apply elem_of_nil in Hr.
  - intros tenant agent _. unfold trail. rewrite rows_where_none; [done|]. intros c Hin.
    apply (proj1 (Forall_forall _ _) Hk) in Hin. unfold audits.
    destruct (cr_kind c =s audit_kind) eqn:E; [|done]. by apply String.eqb_eq in E.
  - intros i j a b Ha. by rewrite lookup_nil in Ha.
Qed.

Lemma insert_change_ok t tenant actor trace kind entity operation decision summary d ts :
  insert_change t tenant actor trace kind entity operation decision summary (MkWorld d [] ts) =
  if change_ok tenant actor
  then (inr (next_id d), MkWorld (push_change (new_change d t tenant actor trace kind entity operation decision summary) d) [] ts)
  else (inl (ESql CheckViolation), MkWorld d [] ts).
Proof. unfold insert_change. rewrite stmt_ok. by destruct (change_ok _ _). Qed.

Definition fresh_db : MmrDb := MkMmrDb empty_db [] [] 1.
Definition acme (mode : string) : RoutingMode := MkRoutingMode "acme" "planner" mode "static/v1" "ops" 0.
Definition shadowed : MmrDb := store (SetMode (acme "SHADOW") "" (MkWorld fresh_db [] 10)).2.
Definition grayed : MmrDb := store (SetMode (acme "GRAY") "SHADOW" (MkWorld shadowed [] 20)).2.
Lemma to_grayed : star mode_step fresh_db grayed.
Proof.
  eapply star_next; [eapply star_next; [constructor|]|].
  - apply (ms_set (MkWorld fresh_db [] 10)).
  - apply (ms_set (MkWorld shadowed [] 20)).
Qed.

(** C19.  From a database without modes, correlations or mode audits, whatever
    SetMode and Record calls run, with any scopes and any failures, beside the
    other components: a scope has one row; the audited transitions of a scope,
    told by tenant and entity of the audit row, are legal moves of the state
    machine, each from the mode the one before it reached, and they end in the
    mode the scope has, none for a scope without a row; an item and a decision
    have one correlation, and neither correlations nor audits are lost. *)
Theorem mode_history d0 d :
  modes d0 = [] -> correlations d0 = [] ->
  Forall (fun c => cr_kind c <> audit_kind) (changes (mbase d0)) ->
  star mode_step d0 d ->
  (forall i j a b, modes d !! i = Some a -> modes d !! j = Some b ->
     mo_tenant a = mo_tenant b -> mo_agent a = mo_agent b -> i = j) /\
  (forall tenant agent,
     let l := trail tenant agent d in
     legal l /\ linked l /\ option_map snd (last l) = mode_in d tenant agent) /\
  (forall i j a b, correlations d !! i = Some a -> correlations d !! j = Some b ->
     mc_item a = mc_item b -> mc_decision a = mc_decision b -> i = j) /\
  extends (changes (mbase d0)) (changes (mbase d)).
Proof.
  intros Hm Hc Hk Hst.
  destruct (star_modes _ _ Hst (modes_ok_empty _ Hm Hc Hk)) as ([K1 K3 K4 K5] & He & _).
  split; [|split; [|split; [|done]]].
  - intros i j a b Ha Hb E1 E2. eapply K1; eauto. congruence.
  - intros tenant agent. cbv zeta. unfold mode_in.
    destruct (first_where (of_scope tenant agent) (modes d)) as [r|] eqn:Ef.
    + apply first_where_some in Ef as [Hr Hs]. apply of_scope_spec in Hs as [<- <-].
      destruct (K3 r Hr) as (L1 & L2 & from & L3). split; [done|]. split; [done|]. by rewrite L3.
    + rewrite K4.
      * split; [constructor|]. split; [|done]. intros pre a b post E. by destruct pre.
      * apply any_where_false. intros r Hr. eapply first_where_none; eauto.
  - intros i j a b Ha Hb E1 E2. eapply K5; eauto. congruence.
Qed.
Lemma mode_history_witness :
  trail "acme" "planner" grayed = [("", "SHADOW"); ("SHADOW", "GRAY")] /\
  option_map snd (last (trail "acme" "planner" grayed)) = mode_in grayed "acme" "planner".
Proof.
  split; [vm_compute; reflexivity|].
  destruct (mode_history fresh_db grayed eq_refl eq_refl (Forall_nil_2 _) to_grayed) as (_ & H & _).
  exact (proj2 (proj2 (H "acme" "planner"))).
Defined.
(** Two scopes whose audit rows have the same entity: only the tenant column
    tells their trails apart. *)
Definition slashed (tenant agent mode : string) : RoutingMode := MkRoutingMode tenant agent mode "static/v1" "ops" 0.
Definition two_scopes : MmrDb :=
  store (SetMode (slashed "a" "b/c" "FULL") "" (SetMode (slashed "a/b" "c" "SHADOW") "" (MkWorld fresh_db [] 10)).2).2.
Example shared_entity :
  (map cr_entity (changes (mbase two_scopes)), trail "a/b" "c" two_scopes, trail "a" "b/c" two_scopes) =
  (["a/b/c"; "a/b/c"], [("", "SHADOW")], [("", "FULL")]).
Proof. vm_compute. reflexivity. Qed.

(** SetMode with a database that answers: an illegal transition and a
    scope in another mode than expected are refused; otherwise the scope's row
    and the audit row are written together, or neither when the audit row is
    not acceptable.  A scope without a row takes any legal transition: its
    first audited move may start from a mode it never had. *)
Theorem SetMode_spec m from d t :
  SetMode m from (MkWorld d [] t) =
  if negb (ValidateModeTransition from (Mode_ m)) then (inl plain_error, MkWorld d [] t)
  else if match mode_in d (ScopeTenant m) (ScopeAgent m) with Some mode => negb (mode =s from) | None => false end
  then (inl plain_error, MkWorld d [] t)
  else if change_ok (audit_tenant m) (UpdatedBy m) then (inr tt, MkWorld (mode_set m from t d) [] t)
  else (inl (ESql CheckViolation), MkWorld d [] t).
Proof.
  unfold SetMode, bind at 1, guard at 1. destruct (negb (ValidateModeTransition _ _)); [done|].
  cbv beta iota. run_ok. unfold upsert_mode, on_base, mode_in, mode_set, zoom. run_ok.
  destruct (first_where (of_scope (ScopeTenant m) (ScopeAgent m)) (modes d)) as [r|] eqn:Ef;
    cbn [option_map fst snd].
  - rewrite (proj2 (any_where_spec _ _) (ex_intro _ r (first_where_some _ _ _ Ef))).
    destruct (mo_mode r =s from); [|done]. cbn -[insert_change new_change push_change change_ok]. rewrite insert_change_ok.
    by destruct (change_ok _ _).
  - rewrite (proj2 (any_where_false _ _)); [|by intros r; apply first_where_none].
    cbn -[insert_change new_change push_change change_ok]. rewrite insert_change_ok. by destruct (change_ok _ _).
Qed.

(** A request gets the mode of its agent, else of its tenant, else the global
    one, else none. *)
Theorem Mode_most_specific tenant agent d t :
  Mode tenant agent (MkWorld d [] t) =
  (inr (option_map mode_of
          (match first_where (of_scope tenant agent) (modes d) with
           | Some r => Some r
           | None => match first_where (of_scope tenant "") (modes d) with
                     | Some r => Some r
                     | None => first_where (of_scope "" "") (modes d)
                     end
           end)), MkWorld d [] t).
Proof.
  assert (Hq : forall scope, attempt (query_row (fun d => first_where scope (modes d))) (MkWorld d [] t) =
    (inr (match first_where scope (modes d) with Some r => inr r | None => inl (ESql NoRows) end), MkWorld d [] t)).
  { intros scope. unfold attempt. rewrite query_row_ok. by destruct (first_where _ _). }
  unfold Mode, first_scope, bind. rewrite Hq.
  destruct (first_where (of_scope tenant agent) _); [done|]. cbn [is_no_rows]. rewrite Hq.
  destruct (first_where (of_scope tenant "") _); [done|]. cbn [is_no_rows]. rewrite Hq.
  by destruct (first_where (of_scope "" "") _).
Qed.

(** A second report for the same item and decision changes nothing, whatever
    outcome it carries. *)
Theorem Record_idempotent c c' d fl t w1 fl' t' w2 :
  CoItemID c' = CoItemID c -> CoDecisionID c' = CoDecisionID c ->
  Record_ c (MkWorld d fl t) = (inr tt, w1) ->
  Record_ c' (MkWorld (store w1) fl' t') = (inr tt, w2) ->
  correlations (store w2) = correlations (store w1).
Proof.
  intros E1 E2 H1 H2. apply Record_inr in H1 as (_ & _ & _ & H1), H2 as (_ & _ & _ & H2).
  cbn [store clock] in *.
  assert (Hs : same_decision c' = same_decision c) by (unfold same_decision; by rewrite E1, E2).
  rewrite H2, Hs. replace (any_where (same_decision c) (correlations (store w1))) with true; [done|].
  symmetry. rewrite H1. destruct (any_where _ (correlations d)) eqn:Ed; [done|].
  apply any_where_spec. eexists. split; [apply elem_of_app; right; left|].
  unfold same_decision. cbn [corr_row mc_item mc_decision]. by rewrite !str_eqb_refl.
Qed.
End MmrProps.
