(* ===== verification/ExitDrill.v ===== *)
(** * Exit drills (src/internal/exitdrill)

    [Matrix] is the state machine of drill.go.  [DrillStore] is its store over
    the four tables of migration 00012: each command is one transaction that
    moves the drill along the matrix by compare-and-swap and appends the audit
    row.  [DrillWorker] is worker.go: claiming steps, running them through an
    external executor, and driving a drill to its end.  The theorems: the audit
    rows of a drill are a path of the matrix that ends in its state, approval
    is by another person, CLOSED needs evidence and no open finding, under any
    sequence of calls; what each command does on each branch; RunDrill ends. *)

From S2P Require Import Prelude GoStd GoJson GoTime Sql Schema.

(** ** States *)

Module Matrix.

Inductive DrillState : Type :=
| StateDraft | StateApproved | StateScheduled | StateRunning | StateSucceeded
| StateFailed | StateAborted | StateRemediationOpen | StateClosed.
#[export] Instance DrillState_eq_dec : EqDecision DrillState.
Proof. solve_decision. Defined.

Definition legalTransitions (from : DrillState) : list DrillState :=
  match from with
  | StateDraft => [StateApproved]
  | StateApproved => [StateScheduled]
  | StateScheduled => [StateRunning; StateAborted]
  | StateRunning => [StateSucceeded; StateFailed; StateAborted]
  | StateSucceeded => [StateRemediationOpen]
  | StateFailed => [StateRemediationOpen]
  | StateAborted => [StateRemediationOpen]
  | StateRemediationOpen => [StateClosed; StateAborted]
  | StateClosed => []
  end.
Definition ValidateTransition (from to : DrillState) : bool :=
  existsb (fun t => t =d to) (legalTransitions from).
End Matrix.
Import Matrix.

(** ** Errors *)

Definition errT (reason : string) : err := ETyped "" reason.
Definition ReasonInvalidTransition : string := "DRILL_INVALID_TRANSITION".
Definition ReasonSelfApproval : string := "DRILL_SELF_APPROVAL_FORBIDDEN".
Definition ReasonNotFound : string := "DRILL_NOT_FOUND".
Definition ReasonOpenFindings : string := "DRILL_OPEN_FINDINGS_BLOCK_CLOSE".
Definition ReasonMissingEvidence : string := "DRILL_RESULT_EVIDENCE_REQUIRED".
Definition ReasonCasConflict : string := "DRILL_CAS_CONFLICT".
Definition ErrNotFound : err := ETyped "exitdrill: drill not found" "".

(** ** Tables of migration 00012 *)

Inductive StepState : Type := StepPending | StepRunning | StepDone | StepFailed | StepSkipped.
#[export] Instance StepState_eq_dec : EqDecision StepState.
Proof. solve_decision. Defined.

(** saoaf.exit_drill *)
Record DrillRow : Type := MkDrillRow {
  dr_key : string;
  dr_vendor : string;
  dr_pack : string;
  dr_initiator : string;
  dr_approver : string;
  dr_state : DrillState;
  dr_evidence : string;
  dr_approved_at : option Z;
  dr_finished_at : option Z;
  dr_created_at : Z;
}.
(** saoaf.exit_drill_step *)
Record StepRow : Type := MkStepRow {
  sp_drill : string;
  sp_no : Z;
  sp_action : string;
  sp_idem : string;
  sp_state : StepState;
  sp_lease : option Z;
  sp_claimed_by : string;
  sp_attempts : Z;
  sp_timeout : option Z;
  sp_evidence : string;
}.
(** saoaf.exit_drill_finding *)
Record FindingRow : Type := MkFindingRow {
  fi_drill : string;
  fi_key : string;
  fi_description : string;
  fi_severity : string;
  fi_open : bool; (* state: OPEN or RESOLVED *)
  fi_remediation : string;
  fi_evidence : string;
  fi_resolved_at : option Z;
  fi_created_at : Z;
}.
(** saoaf.exit_drill_transition *)
Record TransRow : Type := MkTransRow {
  tr_id : Z;
  tr_drill : string;
  tr_from : DrillState;
  tr_to : DrillState;
  tr_actor : string;
  tr_at : Z;
}.

Record DrillDb : Type := MkDrillDb {
  drills : list DrillRow;
  steps : list StepRow;
  findings : list FindingRow;
  transitions : list TransRow;
  dd_next : Z;
}.
Definition with_drills v (d : DrillDb) : DrillDb :=
  MkDrillDb v (steps d) (findings d) (transitions d) (dd_next d).
Definition with_steps v (d : DrillDb) : DrillDb :=
  MkDrillDb (drills d) v (findings d) (transitions d) (dd_next d).
Definition with_findings v (d : DrillDb) : DrillDb :=
  MkDrillDb (drills d) (steps d) v (transitions d) (dd_next d).
Definition empty_drills : DrillDb := MkDrillDb [] [] [] [] 1.
Abbreviation Dd A := (M DrillDb A).

Definition set_dr_state (s : DrillState) (r : DrillRow) : DrillRow :=
  MkDrillRow (dr_key r) (dr_vendor r) (dr_pack r) (dr_initiator r) (dr_approver r) s
    (dr_evidence r) (dr_approved_at r) (dr_finished_at r) (dr_created_at r).
Definition set_dr_approval (approver : string) (t : Z) (r : DrillRow) : DrillRow :=
  MkDrillRow (dr_key r) (dr_vendor r) (dr_pack r) (dr_initiator r) approver (dr_state r)
    (dr_evidence r) (Some t) (dr_finished_at r) (dr_created_at r).
Definition set_dr_result (evidence : string) (t : Z) (r : DrillRow) : DrillRow :=
  MkDrillRow (dr_key r) (dr_vendor r) (dr_pack r) (dr_initiator r) (dr_approver r) (dr_state r)
    evidence (dr_approved_at r) (Some t) (dr_created_at r).
Definition set_step (s : StepState) (lease : option Z) (claimed : string) (attempts : Z)
    (evidence : string) (r : StepRow) : StepRow :=
  MkStepRow (sp_drill r) (sp_no r) (sp_action r) (sp_idem r) s lease claimed attempts
    (sp_timeout r) evidence.

Definition is_drill (key : string) (r : DrillRow) : bool := dr_key r =s key.
Definition of_drill (key : string) (f : FindingRow) : bool := fi_drill f =s key.

(** ** drill.go *)

Module DrillStore.

(** The argument of Create. *)
Record NewDrill : Type := MkNewDrill {
  DrillKey : string; Vendor : string; ExitPackKey : string; Initiator : string }.

Definition Create (d : NewDrill) : Dd unit :=
  guard ((DrillKey d =s "") || (Vendor d =s "") || (Initiator d =s ""))
    (errT ReasonInvalidTransition) ;!
  let! t := now in
  insert_row (fun db =>
    if any_where (is_drill (DrillKey d)) (drills db) then inl (Unique "exit_drill_drill_key_key")
    else inr (with_drills (drills db ++
      [MkDrillRow (DrillKey d) (Vendor d) (ExitPackKey d) (Initiator d) "" StateDraft "" None None t])
      db)).

Definition find_drill (key : string) : Dd DrillRow :=
  query_row (fun d => first_where (is_drill key) (drills d)).
(** [errors.Is(err, pgx.ErrNoRows)] *)
Definition not_found {A} (e : err) : Dd A := if is_no_rows e then throw ErrNotFound else throw e.

Definition Get (key : string) : Dd DrillRow := catch (find_drill key) not_found.

(** UPDATE ... SET state = to WHERE drill_key = key AND state = from *)
Definition cas (key : string) (from to : DrillState) : Dd Z :=
  exec_n (fun d =>
    let p r := is_drill key r && (dr_state r =d from) in
    (count_where p (drills d), with_drills (update_where p (set_dr_state to) (drills d)) d)).
Definition insert_transition (key : string) (from to : DrillState) (actor : string) : Dd unit :=
  let! t := now in
  exec (fun d => MkDrillDb (drills d) (steps d) (findings d)
          (transitions d ++ [MkTransRow (dd_next d) key from to actor t]) (dd_next d + 1)).

Definition txTransition (key : string) (from to : DrillState) (actor : string) : Dd unit :=
  guard (negb (ValidateTransition from to)) (errT ReasonInvalidTransition) ;!
  let! n := cas key from to in
  guard (n =? 0) (errT ReasonCasConflict) ;!
  insert_transition key from to actor.

Definition transition (key : string) (from to : DrillState) (mutate : DrillRow -> Dd unit)
    (actor : string) : Dd unit :=
  tx (let! d := catch (find_drill key) not_found in
      if (dr_state d =d to) && (from =d to) then ret (Commit tt)
      else if negb (dr_state d =d from) then
        if dr_state d =d to then ret (Commit tt)
        else if negb (ValidateTransition (dr_state d) to) then throw (errT ReasonInvalidTransition)
        else throw (errT ReasonCasConflict)
      else if negb (ValidateTransition from to) then throw (errT ReasonInvalidTransition)
      else
        let! n := cas key from to in
        guard (n =? 0) (errT ReasonCasConflict) ;!
        insert_transition key from to actor ;!
        mutate d ;!
        ret (Commit tt)).
Definition no_mutation (_ : DrillRow) : Dd unit := ret tt.

Definition Approve (key approver : string) : Dd unit :=
  transition key StateDraft StateApproved (fun d =>
    guard (approver =s dr_initiator d) (errT ReasonSelfApproval) ;!
    let! t := now in
    exec (fun db => with_drills
      (update_where (is_drill key) (set_dr_approval approver t) (drills db)) db)) approver.
Definition Schedule (key actor : string) : Dd unit :=
  transition key StateApproved StateScheduled no_mutation actor.
Definition Start (key worker : string) : Dd unit :=
  transition key StateScheduled StateRunning no_mutation worker.
Definition Abort (key actor : string) : Dd unit :=
  let! d := Get key in
  guard (negb (ValidateTransition (dr_state d) StateAborted)) (errT ReasonInvalidTransition) ;!
  transition key (dr_state d) StateAborted no_mutation actor.
Definition Finish (key : string) (to : DrillState) (actor evidence : string) : Dd unit :=
  guard (negb (to =d StateSucceeded) && negb (to =d StateFailed)) (errT ReasonInvalidTransition) ;!
  transition key StateRunning to (fun _ =>
    let! t := now in
    exec (fun db => with_drills
      (update_where (is_drill key) (set_dr_result evidence t) (drills db)) db) ;!
    if to =d StateSucceeded then
      let! n := query (fun db => count_where (of_drill key) (findings db)) in
      when (n >? 0) (txTransition key StateSucceeded StateRemediationOpen actor)
    else ret tt) actor.
Definition Close (key actor : string) : Dd unit :=
  transition key StateRemediationOpen StateClosed (fun d =>
    let! n := query (fun db => count_where (fun f => of_drill key f && fi_open f) (findings db)) in
    guard (n >? 0) (errT ReasonOpenFindings) ;!
    guard (dr_evidence d =s "") (errT ReasonMissingEvidence)) actor.

Definition severities : list string := ["LOW"; "MEDIUM"; "HIGH"; "CRITICAL"].
(** INSERT INTO saoaf.exit_drill_finding ... ON CONFLICT DO NOTHING *)
Definition insert_finding (key fkey description severity : string) : Dd unit :=
  let! t := now in
  insert_row (fun d =>
    if negb (str_mem severity severities) then inl CheckViolation
    else if any_where (fun f => of_drill key f && (fi_key f =s fkey)) (findings d) then inr d
    else inr (with_findings (findings d ++
                [MkFindingRow key fkey description severity true "" "" None t]) d)).
Definition AddFinding (key fkey description severity actor : string) : Dd unit :=
  tx (let! d := catch (find_drill key) not_found in
      match dr_state d with
      | StateSucceeded | StateRemediationOpen | StateRunning => ret tt
      | StateFailed | StateAborted => txTransition key (dr_state d) StateRemediationOpen actor
      | _ => throw (errT ReasonInvalidTransition)
      end ;!
      insert_finding key fkey description severity ;!
      when (dr_state d =d StateSucceeded)
        (txTransition key StateSucceeded StateRemediationOpen actor) ;!
      ret (Commit tt)).
Definition ResolveFinding (key fkey remediation evidence : string) : Dd unit :=
  let! t := now in
  let p f := of_drill key f && (fi_key f =s fkey) && fi_open f in
  let! n := exec_n (fun d =>
    (count_where p (findings d),
     with_findings (update_where p (fun f =>
       MkFindingRow (fi_drill f) (fi_key f) (fi_description f) (fi_severity f) false
         remediation evidence (Some t) (fi_created_at f)) (findings d)) d)) in
  guard (n =? 0) (errT ReasonNotFound).

Definition RecoverableDrills : Dd (list string) :=
  let! rows := query (fun d =>
    map dr_key (rows_where (fun r => dr_state r =d StateRunning) (drills d))) in
  connect ;! (* rows.Err() *)
  ret rows.

Definition trans_le (a b : TransRow) : Prop :=
  tr_at a < tr_at b \/ (tr_at a = tr_at b /\ tr_id a <= tr_id b).
#[export] Instance trans_le_dec a b : Decision (trans_le a b).
Proof. unfold trans_le. apply _. Defined.
Definition TransitionLog (key : string) : Dd (list (DrillState * DrillState * string * Z)) :=
  let! rows := query (fun d =>
    merge_sort trans_le (rows_where (fun t => tr_drill t =s key) (transitions d))) in
  connect ;!
  ret (map (fun t => (tr_from t, tr_to t, tr_actor t, tr_at t)) rows).
End DrillStore.
Import DrillStore.

(** ** worker.go *)

Module DrillWorker.

(** exitdrill.Step, as claimed. *)
Record Step : Type := MkStep {
  DrillKey : string;
  StepNo : Z;
  Action : string;
  IdempotencyKey : string;
  State : StepState;
  Attempts : Z;
  TimeoutAt : option Z;
  ResultEvidence : string;
}.
Record DrillWorkerConfig : Type := MkDrillWorker {
  WorkerID : string; LeaseTTL : Z; MaxAttempts : Z }.
Definition leaseTTL (w : DrillWorkerConfig) : Z :=
  if LeaseTTL w >? 0 then LeaseTTL w else 30 * GoTime.Second.
Definition maxAttempts (w : DrillWorkerConfig) : Z :=
  if MaxAttempts w >? 0 then MaxAttempts w else 3.

Definition is_step (key : string) (no : Z) (s : StepRow) : bool :=
  (sp_drill s =s key) && (sp_no s =? no).
Definition runnable (key : string) (t : Z) (s : StepRow) : bool :=
  (sp_drill s =s key) &&
  ((sp_state s =d StepPending) ||
   ((sp_state s =d StepRunning) && match sp_lease s with Some l => l <? t | None => false end)).
Definition step_le (a b : StepRow) : Prop := sp_no a <= sp_no b.
#[export] Instance step_le_dec a b : Decision (step_le a b) := Z_le_dec (sp_no a) (sp_no b).
(** ORDER BY step_no LIMIT 1 *)
Definition next_step (key : string) (t : Z) (d : DrillDb) : option StepRow :=
  head (merge_sort step_le (rows_where (runnable key t) (steps d))).
Definition update_steps (p : StepRow -> bool) (f : StepRow -> StepRow) (d : DrillDb) : DrillDb :=
  with_steps (update_where p f (steps d)) d.

(** How ClaimNext leaves its transaction. *)
Inductive claim_result : Type :=
| NothingToClaim
| Exhausted
| Claimed (s : Step).
Definition claimed_step (worker : string) (until : Z) (s : StepRow) : StepRow :=
  set_step StepRunning (Some until) worker (sp_attempts s + 1) (sp_evidence s) s.
Definition failed_step (s : StepRow) : StepRow :=
  set_step StepFailed None (sp_claimed_by s) (sp_attempts s) (sp_evidence s) s.
Definition pending_step (s : StepRow) : StepRow :=
  set_step StepPending None (sp_claimed_by s) (sp_attempts s) (sp_evidence s) s.
Definition done_step (evidence : string) (s : StepRow) : StepRow :=
  set_step StepDone None (sp_claimed_by s) (sp_attempts s) evidence s.

Definition ClaimNext (w : DrillWorkerConfig) (key : string) : Dd (option Step) :=
  let! r := tx (
    let! t := now in
    let! d := find_drill key in
    if negb (dr_state d =d StateRunning) then ret (Rollback NothingToClaim)
    else
      let! s := catch (let! s := query_row (next_step key t) in ret (Some s))
                  (fun e => if is_no_rows e then ret None else throw e) in
      match s with
      | None => ret (Rollback NothingToClaim)
      | Some s =>
          if sp_attempts s >=? maxAttempts w then
            exec (update_steps (is_step key (sp_no s)) failed_step) ;!
            ret (Commit Exhausted)
          else
            exec (update_steps (is_step key (sp_no s))
              (claimed_step (WorkerID w) (t + GoTime.Seconds (leaseTTL w) * GoTime.Second))) ;!
            ret (Commit (Claimed (MkStep (sp_drill s) (sp_no s) (sp_action s) (sp_idem s)
                                    StepRunning (sp_attempts s + 1) (sp_timeout s) (sp_evidence s))))
      end) in
  match r with
  | NothingToClaim => ret None
  | Exhausted => throw plain_error
  | Claimed s => ret (Some s)
  end.

(** The two statements of RunStep. *)
Definition release_step (s : Step) : Dd unit :=
  exec (update_steps (is_step (DrillKey s) (StepNo s)) pending_step).
Definition confirm_step (w : DrillWorkerConfig) (s : Step) (evidence : string) : Dd Z :=
  let p r := is_step (DrillKey s) (StepNo s) r &&
             ((sp_state r =d StepRunning) || (sp_state r =d StepPending)) &&
             ((sp_claimed_by r =s WorkerID w) || (sp_claimed_by r =s "")) in
  exec_n (fun d => (count_where p (steps d), update_steps p (done_step evidence) d)).

Definition TimeoutSweep (t : Z) : Dd Z :=
  let p r := (sp_state r =d StepRunning) &&
             match sp_timeout r with Some x => x <? t | None => false end in
  exec_n (fun d => (count_where p (steps d), update_steps p pending_step d)).

(** *** Running *)

(** The worker's process: the database and the external systems. *)
Record DrillProc (X : Type) : Type := MkDrillProc { dp_db : DrillDb; dp_ext : X }.
Arguments MkDrillProc {X}.
Arguments dp_db {X}.
Arguments dp_ext {X}.

Section Run.
Context {X : Type} (Executor : Step -> X -> (err + string) * Z * X) (w : DrillWorkerConfig).
Abbreviation Pr A := (M (DrillProc X) A).

Definition drill_db {A} (m : Dd A) : Pr A := zoom dp_db (fun d p => MkDrillProc d (dp_ext p)) m.
(** The executor: its answer, the time it took, the external world after it. *)
Definition execute (s : Step) : Pr (err + string) :=
  fun wd => let '(r, dt, x) := Executor s (dp_ext (store wd)) in
            (inr r, MkWorld (MkDrillProc (dp_db (store wd)) x) (faults wd) (clock wd + dt)).

Definition RunStep (s : Step) : Pr unit :=
  let! r := execute s in
  match r with
  | inl e => let! _ := attempt (drill_db (release_step s)) in throw e
  | inr evidence => let! _ := drill_db (confirm_step w s evidence) in ret tt
  end.

(** The loop of RunDrill; [false]: the fuel did not suffice. *)
Fixpoint run_steps (fuel : nat) (key : string) : Pr bool :=
  match fuel with
  | O => ret false
  | S fuel' =>
      let! s := drill_db (ClaimNext w key) in
      match s with
      | None => ret true
      | Some s => RunStep s ;! run_steps fuel' key
      end
  end.

Definition step_counts (key : string) (d : DrillDb) : Z * Z * Z :=
  let t := rows_where (fun s => sp_drill s =s key) (steps d) in
  (count_where (fun s => sp_state s =d StepDone) t, count_where (fun s => sp_state s =d StepFailed) t,
   count_where (fun _ => true) t).
Definition conclude (key : string) : Pr unit :=
  let! x := drill_db (query (step_counts key)) in
  let '(done, failed, total) := x in
  if total =? 0 then ret tt
  else if failed >? 0 then
    drill_db (Finish key StateFailed (WorkerID w) "steps failed (retry budget exhausted)")
  else if done =? total then
    drill_db (Finish key StateSucceeded (WorkerID w) "all steps done")
  else ret tt.

(** [None]: the fuel did not suffice. *)
Definition RunDrill (fuel : nat) (key : string) : Pr (option unit) :=
  let! ended := run_steps fuel key in
  if ended then conclude key ;! ret (Some tt) else ret None.
End Run.
End DrillWorker.

(** ** The audit trail *)

(** The state a trail of audit rows leads to, when each row is an edge of the
    matrix that starts where the one before ended. *)
Fixpoint follow (s : DrillState) (l : list TransRow) : option DrillState :=
  match l with
  | [] => Some s
  | t :: l' =>
      if (tr_from t =d s) && ValidateTransition (tr_from t) (tr_to t)
      then follow (tr_to t) l' else None
  end.
Definition in_trail (key : string) (t : TransRow) : bool := tr_drill t =s key.
Definition trail (key : string) (d : DrillDb) : list TransRow :=
  rows_where (in_trail key) (transitions d).

Lemma follow_snoc s l t :
  follow s (l ++ [t]) =
  match follow s l with
  | Some s' => if (tr_from t =d s') && ValidateTransition (tr_from t) (tr_to t)
               then Some (tr_to t) else None
  | None => None
  end.
Proof.
  revert s. induction l as [|x l IH]; intros s; simpl; [done|].
  by destruct (_ && _).
Qed.

(** *** The invariant *)

(** Keys, trails, and no audit row without its drill. *)
Record trails_ok (d : DrillDb) : Prop := {
  tk_unique : indexed (fun _ => true) dr_key (drills d);
  tk_trail : forall r, r ∈ drills d -> follow StateDraft (trail (dr_key r) d) = Some (dr_state r);
  tk_owned : forall t, t ∈ transitions d -> exists r, r ∈ drills d /\ dr_key r = tr_drill t;
}.
(** Separation of duties. *)
Definition approval_ok (r : DrillRow) : Prop :=
  dr_initiator r <> "" /\ (dr_state r <> StateDraft -> dr_approver r <> dr_initiator r).
Definition closing_ok (fs : list FindingRow) (r : DrillRow) : Prop :=
  dr_state r = StateClosed ->
  dr_evidence r <> "" /\ forall f, f ∈ fs -> of_drill (dr_key r) f = true -> fi_open f = false.
Record drills_ok (d : DrillDb) : Prop := {
  dk_trails : trails_ok d;
  dk_approval : forall r, r ∈ drills d -> approval_ok r;
  dk_closing : forall r, r ∈ drills d -> closing_ok (findings d) r;
}.

(** What a drill and a finding keep. *)
Definition drill_kept (r r' : DrillRow) : Prop :=
  dr_key r' = dr_key r /\ dr_vendor r' = dr_vendor r /\ dr_pack r' = dr_pack r /\
  dr_initiator r' = dr_initiator r /\ dr_created_at r' = dr_created_at r.
Definition finding_kept (f f' : FindingRow) : Prop :=
  fi_drill f' = fi_drill f /\ fi_key f' = fi_key f /\ fi_description f' = fi_description f /\
  fi_severity f' = fi_severity f /\ (fi_open f = false -> f' = f).
Lemma drill_kept_refl r : drill_kept r r.
Proof. done. Qed.
Lemma drill_kept_trans a b c : drill_kept a b -> drill_kept b c -> drill_kept a c.
Proof. unfold drill_kept. intuition congruence. Qed.
Lemma finding_kept_refl f : finding_kept f f.
Proof. done. Qed.
Lemma finding_kept_trans a b c : finding_kept a b -> finding_kept b c -> finding_kept a c.
Proof.
  intros (H1 & H2 & H3 & H4 & H5) (K1 & K2 & K3 & K4 & K5). repeat split; try congruence.
  intros Ha. rewrite <- (H5 Ha). apply K5. by rewrite (H5 Ha).
Qed.
Record drills_later (d d' : DrillDb) : Prop := {
  dl_ok : drills_ok d';
  dl_log : extends (transitions d) (transitions d');
  dl_drills : rows_kept drill_kept (drills d) (drills d');
  dl_findings : rows_kept finding_kept (findings d) (findings d');
}.
Lemma drills_later_refl d : drills_ok d -> drills_later d d.
Proof.
  split; [done|apply extends_refl|apply rows_kept_refl, drill_kept_refl|
          apply rows_kept_refl, finding_kept_refl].
Qed.
Lemma drills_later_trans a b c : drills_later a b -> drills_later b c -> drills_later a c.
Proof.
  intros [] []. split; [done|by eapply extends_trans|..];
    eapply rows_kept_trans; eauto using drill_kept_trans, finding_kept_trans.
Qed.

(** *** One edge *)

Definition at_state (key : string) (from : DrillState) (r : DrillRow) : bool :=
  is_drill key r && (dr_state r =d from).
(** The two writes of a transition. *)
Definition moved_db (key : string) (from to : DrillState) (actor : string) (t : Z) (d : DrillDb)
    : DrillDb :=
  MkDrillDb (update_where (at_state key from) (set_dr_state to) (drills d)) (steps d) (findings d)
    (transitions d ++ [MkTransRow (dd_next d) key from to actor t]) (dd_next d + 1).

Lemma first_drill key d r :
  first_where (is_drill key) (drills d) = Some r -> r ∈ drills d /\ dr_key r = key.
Proof. intros H. apply first_where_some in H as [? H]. unfold is_drill in H. b2p. done. Qed.

Section Edge.
Context (d : DrillDb) (key : string) (from to : DrillState) (actor : string) (t : Z) (r0 : DrillRow).
Context (Hok : trails_ok d) (Hfound : first_where (is_drill key) (drills d) = Some r0)
  (Hfrom : dr_state r0 = from).

(** The one row that moves. *)
Lemma at_state_iff r : r ∈ drills d -> at_state key from r = true <-> r = r0.
Proof using Hok Hfound Hfrom.
  intros Hr. destruct (first_drill _ _ _ Hfound) as [Hr0 Hk]. unfold at_state, is_drill. split.
  - intros H. b2p. eapply (indexed_elem (fun _ => true) dr_key); eauto using tk_unique.
    destruct H. congruence.
  - intros ->. b2p. split; [done|]. by apply bool_decide_eq_true_2.
Qed.
Lemma edge_elem r' :
  r' ∈ drills (moved_db key from to actor t d) ->
  r' = set_dr_state to r0 \/ (r' ∈ drills d /\ dr_key r' <> key).
Proof using Hok Hfound Hfrom.
  simpl. intros H. apply elem_of_update_where in H as [(r & Hr & Hp & ->)|[Hr Hp]].
  - left. apply at_state_iff in Hp as ->; done.
  - right. split; [done|]. intros Hk. destruct (first_drill _ _ _ Hfound) as [Hr0 Hk0].
    assert (r' = r0) as ->.
    { eapply (indexed_elem (fun _ => true) dr_key); eauto using tk_unique. congruence. }
    apply not_true_iff_false in Hp. apply Hp. by apply at_state_iff.
Qed.
Lemma trail_moved k :
  trail k (moved_db key from to actor t d) =
  trail k d ++ (if key =s k then [MkTransRow (dd_next d) key from to actor t] else []).
Proof using.
  unfold trail, moved_db. simpl. by rewrite rows_where_app.
Qed.
Lemma trails_ok_moved :
  ValidateTransition from to = true -> trails_ok (moved_db key from to actor t d).
Proof using Hok Hfound Hfrom.
  intros Hv. destruct (first_drill _ _ _ Hfound) as [Hr0 Hk0]. split.
  - apply indexed_update; [apply (tk_unique _ Hok)|]. done.
  - intros r' Hr'. rewrite trail_moved. destruct (edge_elem _ Hr') as [->|[Hr Hn]].
    + simpl. rewrite Hk0, str_eqb_refl, follow_snoc, <- Hk0, (tk_trail _ Hok r0 Hr0). simpl.
      rewrite Hfrom, bool_decide_eq_true_2 by done. simpl. by rewrite Hv.
    + destruct (key =s dr_key r') eqn:E; [b2p; congruence|]. rewrite app_nil_r.
      by apply (tk_trail _ Hok).
  - intros x Hx. simpl in Hx. apply elem_of_app in Hx as [Hx|Hx].
    + destruct (tk_owned _ Hok x Hx) as (r & Hr & Hk).
      simpl. destruct (at_state key from r) eqn:E.
      * exists (set_dr_state to r). split; [|done]. apply elem_of_update_where. eauto.
      * exists r. split; [|done]. apply elem_of_update_where. eauto.
    + apply list_elem_of_singleton in Hx as ->. exists (set_dr_state to r0). split; [|done].
      simpl. apply elem_of_update_where. left. exists r0. split; [done|]. split; [|done].
      by apply at_state_iff.
Qed.
Lemma approval_moved :
  from <> StateDraft -> (forall r, r ∈ drills d -> approval_ok r) ->
  forall r, r ∈ drills (moved_db key from to actor t d) -> approval_ok r.
Proof using Hok Hfound Hfrom.
  intros Hd Ha r Hr. destruct (first_drill _ _ _ Hfound) as [Hr0 _].
  destruct (edge_elem _ Hr) as [->|[? _]]; [|auto]. destruct (Ha r0 Hr0) as [Hi Hs].
  split; [done|]. intros _. apply Hs. congruence.
Qed.
Lemma closing_moved :
  to <> StateClosed -> (forall r, r ∈ drills d -> closing_ok (findings d) r) ->
  forall r, r ∈ drills (moved_db key from to actor t d) -> closing_ok (findings d) r.
Proof using Hok Hfound Hfrom.
  intros Hd Ha r Hr. destruct (edge_elem _ Hr) as [->|[? _]]; [|auto]. by intros Hc.
Qed.
Lemma edge_kept :
  extends (transitions d) (transitions (moved_db key from to actor t d)) /\
  rows_kept drill_kept (drills d) (drills (moved_db key from to actor t d)).
Proof using.
  split; [apply extends_app|]. apply rows_kept_update; [apply drill_kept_refl|done].
Qed.
Lemma edge_first :
  first_where (is_drill key) (drills (moved_db key from to actor t d)) = Some (set_dr_state to r0).
Proof using Hok Hfound Hfrom.
  simpl. rewrite first_where_update by done. rewrite Hfound. simpl.
  destruct (first_drill _ _ _ Hfound) as [Hr0 _].
  assert (at_state key from r0 = true) as -> by by apply at_state_iff. done.
Qed.
End Edge.

(** *** The commands on success *)

Lemma find_or_not_found key w d w' :
  catch (find_drill key) not_found w = (inr d, w') ->
  first_where (is_drill key) (drills (store w)) = Some d /\ store w' = store w /\ clock w' = clock w.
Proof.
  unfold catch. destruct (find_drill key w) as [[e|x] w1] eqn:E.
  - unfold not_found. destruct (is_no_rows e); discriminate.
  - intros [= -> ->]. by apply query_row_inr in E.
Qed.

Lemma insert_transition_inr key from to actor w u w' :
  insert_transition key from to actor w = (inr u, w') ->
  store w' = MkDrillDb (drills (store w)) (steps (store w)) (findings (store w))
    (transitions (store w) ++ [MkTransRow (dd_next (store w)) key from to actor (clock w)])
    (dd_next (store w) + 1) /\ clock w' = clock w.
Proof. unfold insert_transition. intros H. inv_run. done. Qed.

(** The compare-and-swap with its audit row. *)
Lemma edge_inr key from to actor w u w' :
  (let! n := cas key from to in guard (n =? 0) (errT ReasonCasConflict) ;!
   insert_transition key from to actor) w = (inr u, w') ->
  store w' = moved_db key from to actor (clock w) (store w) /\ clock w' = clock w /\
  any_where (at_state key from) (drills (store w)) = true.
Proof.
  unfold cas. intros H. inv_run. apply insert_transition_inr in H as [Hs Hc].
  match goal with H : (_, _) = (_, _) |- _ => injection H as Hn Hst end.
  rewrite <- Hst in Hs. simpl in Hs. match goal with H : clock _ = clock w |- _ => rewrite H in * end.
  split; [exact Hs|].
  split; [done|]. apply not_false_iff_true. intros Hf. 
  match goal with H : (_ =? 0) = false |- _ => apply Z.eqb_neq in H; apply H end.
  rewrite <- Hn. apply count_where_zero. by apply any_where_false.
Qed.

Lemma txTransition_inr key from to actor w u w' :
  txTransition key from to actor w = (inr u, w') ->
  ValidateTransition from to = true /\
  store w' = moved_db key from to actor (clock w) (store w) /\ clock w' = clock w /\
  any_where (at_state key from) (drills (store w)) = true.
Proof.
  unfold txTransition. intros H. apply bind_inr in H as (u0 & w0 & Hg & H).
  apply guard_inr in Hg as [Hv ->]. apply negb_false_iff in Hv. split; [done|]. by eapply edge_inr.
Qed.

Lemma drill_transition_inr key from to mutate actor w u w' :
  transition key from to mutate actor w = (inr u, w') ->
  exists d, first_where (is_drill key) (drills (store w)) = Some d /\
    ((dr_state d = to /\ store w' = store w) \/
     (dr_state d = from /\ ValidateTransition from to = true /\ exists w1 w2,
        store w1 = moved_db key from to actor (clock w) (store w) /\ clock w1 = clock w /\
        mutate d w1 = (inr tt, w2) /\ store w' = store w2)).
Proof.
  intros H. apply tx_inr in H as (w0 & Hs & Hc & [(w1 & Hb & Hw)|(w1 & Hb & Hw)]).
  - apply bind_inr in Hb as (d & wd & Hd & Hb).
    apply find_or_not_found in Hd as (Hf & Hsd & Hcd). exists d. rewrite <- Hs. split; [done|].
    destruct ((dr_state d =d to) && (from =d to)) eqn:E1.
    { apply ret_inr in Hb as [_ ->]. left. apply andb_true_iff in E1 as [E1 _].
      apply bool_decide_eq_true_1 in E1. split; [done|congruence]. }
    destruct (dr_state d =d from) eqn:E2; simpl in Hb.
    + destruct (ValidateTransition from to) eqn:Ev; [|discriminate]. simpl in Hb.
      right. apply bool_decide_eq_true_1 in E2. split; [done|]. split; [done|].
      apply bind_inr in Hb as (n & wa & Ha & Hb). apply bind_inr in Hb as (u1 & wb & Hg & Hb).
      apply bind_inr in Hb as (u2 & wc & Hi & Hb). apply bind_inr in Hb as ([] & we & Hm & Hb).
      apply ret_inr in Hb as [_ ->].
      assert (He : (let! n := cas key from to in guard (n =? 0) (errT ReasonCasConflict) ;!
                    insert_transition key from to actor) wd = (inr u2, wc)).
      { unfold bind. rewrite Ha, Hg. exact Hi. }
      apply edge_inr in He as (He & Hce & _). exists wc, we. rewrite Hsd, Hcd, Hc in He.
      split; [done|]. split; [congruence|]. split; [done|]. congruence.
    + destruct (dr_state d =d to) eqn:E3; [|by destruct (ValidateTransition _ _)].
      apply ret_inr in Hb as [_ ->]. left. apply bool_decide_eq_true_1 in E3.
      split; [done|congruence].
  - exfalso. apply bind_inr in Hb as (d & wd & Hd & Hb).
    destruct ((dr_state d =d to) && (from =d to)); [discriminate|].
    destruct (negb (dr_state d =d from)).
    { destruct (dr_state d =d to); [discriminate|]. by destruct (negb _). }
    destruct (negb _); [discriminate|].
    repeat (apply bind_inr in Hb as (? & ? & _ & Hb)). discriminate.
Qed.

(** *** What each write does to the invariant *)

Lemma found_at_state d key from :
  trails_ok d -> any_where (at_state key from) (drills d) = true ->
  exists r0, first_where (is_drill key) (drills d) = Some r0 /\ dr_state r0 = from.
Proof.
  intros Hok Ha. apply any_where_spec in Ha as (r & Hr & Hp). unfold at_state in Hp.
  apply andb_true_iff in Hp as [Hk Hs]. apply bool_decide_eq_true_1 in Hs.
  destruct (first_where (is_drill key) (drills d)) as [r0|] eqn:E.
  - exists r0. split; [done|]. apply first_drill in E as [Hr0 Hk0]. unfold is_drill in Hk. b2p.
    assert (r0 = r) as ->; [|done]. eapply (indexed_elem (fun _ => true) dr_key);
      eauto using tk_unique. congruence.
  - by rewrite (first_where_none _ _ _ E Hr) in Hk.
Qed.

Lemma edge_later d key from to actor t :
  drills_ok d -> any_where (at_state key from) (drills d) = true ->
  ValidateTransition from to = true -> from <> StateDraft -> to <> StateClosed ->
  drills_later d (moved_db key from to actor t d).
Proof.
  intros [Ht Ha Hc] Hf Hv Hd Hn. destruct (found_at_state _ _ _ Ht Hf) as (r0 & Hr0 & Hs).
  destruct (edge_kept d key from to actor t) as [Hx Hk]. split; [|done|done|].
  - split; [by eapply (trails_ok_moved d)|by eapply (approval_moved d)|by eapply (closing_moved d)].
  - apply rows_kept_refl, finding_kept_refl.
Qed.

(** A write to columns of one drill other than its key and state. *)
Lemma trails_ok_columns d key f :
  (forall r, dr_key (f r) = dr_key r) -> (forall r, dr_state (f r) = dr_state r) ->
  trails_ok d -> trails_ok (with_drills (update_where (is_drill key) f (drills d)) d).
Proof.
  intros Hk Hs [H1 H2 H3]. split; simpl.
  - apply indexed_update; [done|]. auto.
  - intros r Hr. apply elem_of_update_where in Hr as [(r1 & Hr & _ & ->)|[Hr _]].
    + rewrite Hk, Hs. by apply H2.
    + by apply H2.
  - intros x Hx. destruct (H3 x Hx) as (r & Hr & He).
    destruct (is_drill key r) eqn:E; [exists (f r)|exists r];
      (split; [apply elem_of_update_where; eauto|]); [by rewrite Hk|done].
Qed.

Lemma result_later d key evidence t :
  drills_ok d -> (forall r, r ∈ drills d -> dr_key r = key -> dr_state r <> StateClosed) ->
  drills_later d (with_drills (update_where (is_drill key) (set_dr_result evidence t) (drills d)) d).
Proof.
  intros [Ht Ha Hc] Hn.
  assert (Hr : forall r, r ∈ update_where (is_drill key) (set_dr_result evidence t) (drills d) ->
    approval_ok r /\ closing_ok (findings d) r).
  { intros r Hr. apply elem_of_update_where in Hr as [(r1 & Hr & Hk & ->)|[Hr _]]; [|auto].
    unfold is_drill in Hk. b2p. split; [exact (Ha r1 Hr)|].
    intros Hs. by destruct (Hn r1 Hr Hk). }
  split; simpl; [|apply extends_refl| |apply rows_kept_refl, finding_kept_refl].
  - split; [by apply trails_ok_columns|..]; intros r; simpl; apply Hr.
  - apply rows_kept_update; [apply drill_kept_refl|done].
Qed.

Lemma findings_later d fs :
  drills_ok d -> rows_kept finding_kept (findings d) fs ->
  (forall f, f ∈ fs -> fi_open f = true -> f ∈ findings d \/
     forall r, r ∈ drills d -> of_drill (dr_key r) f = true -> dr_state r <> StateClosed) ->
  drills_later d (with_findings fs d).
Proof.
  intros [Ht Ha Hc] Hk Hn. split; simpl; [|apply extends_refl|apply rows_kept_refl, drill_kept_refl|done].
  split; simpl; [by destruct Ht|done|]. intros r Hr Hs. destruct (Hc r Hr Hs) as [He Hf].
  split; [done|]. intros f Hin Hof. destruct (fi_open f) eqn:Eo; [|done].
  destruct (Hn f Hin Eo) as [Hold|Hnot]; [rewrite <- Eo; auto|]. by destruct (Hnot r Hr Hof).
Qed.

Lemma steps_later d s : drills_ok d -> drills_later d (with_steps s d).
Proof.
  intros [[] ? ?]. split; simpl; [split; [by split|done|done]|apply extends_refl|..];
    [apply rows_kept_refl, drill_kept_refl|apply rows_kept_refl, finding_kept_refl].
Qed.

Lemma create_later d k v p i t :
  drills_ok d -> i <> "" -> any_where (is_drill k) (drills d) = false ->
  drills_later d (with_drills (drills d ++ [MkDrillRow k v p i "" StateDraft "" None None t]) d).
Proof.
  intros [[H1 H2 H3] Ha Hc] Hi Hnew.
  assert (Hk : forall r, r ∈ drills d -> dr_key r <> k).
  { intros r Hr He. assert (is_drill k r = false) by (by eapply any_where_false in Hnew).
    unfold is_drill in *. b2p. done. }
  set (r0 := MkDrillRow _ _ _ _ _ _ _ _ _ _).
  assert (Hin : forall r, r ∈ drills d ++ [r0] -> r ∈ drills d \/ r = r0).
  { intros r Hr. apply elem_of_app in Hr as [?|Hr]; [by left|right].
    by apply list_elem_of_singleton in Hr. }
  split; simpl; [split; simpl; [split; simpl|..]|apply extends_refl
    |apply rows_kept_app, drill_kept_refl|apply rows_kept_refl, finding_kept_refl].
  - intros a b x y Hx Hy _ _ He. apply lookup_app_Some in Hx as [Hx|[Hl Hx]], Hy as [Hy|[Hl' Hy]].
    all: try (apply list_lookup_singleton_Some in Hx as [? <-]).
    all: try (apply list_lookup_singleton_Some in Hy as [? <-]).
    + by eapply H1.
    + by destruct (Hk x (list_elem_of_lookup_2 _ _ _ Hx) He).
    + by destruct (Hk y (list_elem_of_lookup_2 _ _ _ Hy) (eq_sym He)).
    + lia.
  - intros r Hr. destruct (Hin r Hr) as [Hr'| ->]; [by apply H2|].
    unfold trail. simpl. rewrite rows_where_none; [done|]. intros x Hx.
    destruct (H3 x Hx) as (r1 & Hr1 & He). unfold in_trail. apply String.eqb_neq.
    rewrite <- He. auto.
  - intros x Hx. destruct (H3 x Hx) as (r & Hr & He). exists r. split; [|done].
    apply elem_of_app. by left.
  - intros r Hr. destruct (Hin r Hr) as [Hr'| ->]; [auto|]. by split.
  - intros r Hr. destruct (Hin r Hr) as [Hr'| ->]; [auto|]. by intros Hs.
Qed.

(** *** The calls keep the invariant *)

Import DrillWorker.
Section Keep.
Context (d0 : DrillDb).
Abbreviation I := (drills_later d0).

Lemma keeps_later {A} (m : Dd A) :
  (forall w a w', drills_ok (store w) -> m w = (inr a, w') -> drills_later (store w) (store w')) ->
  (forall w e w', m w = (inl e, w') -> store w' = store w) -> keeps I m.
Proof using.
  intros Hr Hl w Hw. destruct (m w) as [[e|a] w'] eqn:E; simpl.
  - by rewrite (Hl _ _ _ E).
  - eapply drills_later_trans; [exact Hw|]. eapply Hr; [by destruct Hw|exact E].
Qed.

Lemma transition_later key from to mutate actor w u w' :
  drills_ok (store w) -> transition key from to mutate actor w = (inr u, w') ->
  (forall r0 w1 w2, first_where (is_drill key) (drills (store w)) = Some r0 -> dr_state r0 = from ->
     ValidateTransition from to = true ->
     store w1 = moved_db key from to actor (clock w) (store w) -> mutate r0 w1 = (inr tt, w2) ->
     drills_later (store w) (store w2)) ->
  drills_later (store w) (store w').
Proof using.
  intros Hok H Hm. apply drill_transition_inr in H as (r0 & Hf & [[_ ->]|(Hs & Hv & w1 & w2 & H1 & _ & H2 & ->)]);
    [by apply drills_later_refl|eauto].
Qed.

Lemma found_any d key r0 from :
  first_where (is_drill key) (drills d) = Some r0 -> dr_state r0 = from ->
  any_where (at_state key from) (drills d) = true.
Proof using.
  intros H Hs. apply first_where_some in H as [Hr Hk]. apply any_where_spec. exists r0.
  split; [done|]. unfold at_state. rewrite Hk. by apply bool_decide_eq_true_2.
Qed.

Lemma plain_later key from to actor w u w' :
  drills_ok (store w) -> from <> StateDraft -> to <> StateClosed ->
  transition key from to no_mutation actor w = (inr u, w') ->
  drills_later (store w) (store w').
Proof using.
  intros Hok Hd Hn H. eapply transition_later; [done|exact H|].
  intros r0 w1 w2 Hf Hs Hv Hm H2. injection H2 as <-. rewrite Hm.
  apply edge_later; eauto using found_any.
Qed.
Lemma keeps_plain key from to actor :
  from <> StateDraft -> to <> StateClosed -> keeps I (transition key from to no_mutation actor).
Proof using.
  intros Hd Hn. apply keeps_later; [|intros w e w'; apply tx_inl].
  intros w a w' Hok H. by eapply plain_later.
Qed.

Lemma keeps_create n : keeps I (Create n).
Proof using.
  unfold Create. intros w Hw. unfold bind, guard.
  destruct ((DrillStore.DrillKey n =s "") || _ || _) eqn:Eg; [done|]. simpl.
  apply orb_false_iff in Eg as [_ Ei]. b2p.
  generalize (clock w). intros t. revert w Hw. apply (keeps_insert_row I).
  intros d d' Hd Hx. destruct (any_where _ _) eqn:E; [discriminate|]. injection Hx as <-.
  eapply drills_later_trans; [exact Hd|]. apply create_later; [by destruct Hd|done|done].
Qed.

Lemma keeps_approve key approver : keeps I (Approve key approver).
Proof using.
  apply keeps_later; [|intros w e w'; apply tx_inl]. intros w a w' Hok H.
  eapply transition_later; [done|exact H|]. intros r0 w1 w2 Hf Hs Hv Hm H2.
  cbv beta in H2. inv_run. match goal with H : store w2 = _ |- _ => rewrite H end. subst. rewrite Hm.
  pose proof Hok as [Ht Ha Hc]. set (d1 := moved_db _ _ _ _ _ _).
  assert (Hr : forall r, r ∈ drills d1 -> (r = set_dr_state StateApproved r0 /\ dr_key r = key) \/
     (r ∈ drills (store w) /\ is_drill key r = false)).
  { intros r Hr. eapply edge_elem in Hr as [->|[Hr Hn]]; eauto.
    - left. split; [done|]. by apply first_drill in Hf as [_ ?].
    - right. split; [done|]. unfold is_drill. b2p. done. }
  assert (Hu : forall r, r ∈ update_where (is_drill key) (set_dr_approval approver (clock w1)) (drills d1) ->
    r = set_dr_approval approver (clock w1) (set_dr_state StateApproved r0) \/ r ∈ drills (store w)).
  { intros r Hin. apply elem_of_update_where in Hin as [(r1 & Hin & Hk & ->)|[Hin Hk]].
    - destruct (Hr r1 Hin) as [[-> _]|[_ Hn]]; [by left|congruence].
    - destruct (Hr r Hin) as [[_ He]|[? _]]; [|by right]. unfold is_drill in Hk. b2p. congruence. }
  destruct (edge_kept (store w) key StateDraft StateApproved approver (clock w)) as [Hx Hk].
  split; [|exact Hx| |apply rows_kept_refl, finding_kept_refl].
  - split; [apply trails_ok_columns; [done..|by eapply (trails_ok_moved (store w))]|..].
    + intros r Hin. destruct (Hu r Hin) as [->|Hin']; [|auto].
      apply first_drill in Hf as [Hr0 _]. destruct (Ha r0 Hr0) as [Hi _].
      split; [done|]. intros _. simpl. b2p. done.
    + intros r Hin. destruct (Hu r Hin) as [->|Hin']; [by intros ?|simpl; auto].
  - eapply rows_kept_trans; [apply drill_kept_trans|exact Hk|].
    apply rows_kept_update; [apply drill_kept_refl|done].
Qed.

Lemma keeps_abort key actor : keeps I (Abort key actor).
Proof using.
  unfold Abort, Get. apply keeps_bind; [|intros d].
  - apply keeps_catch; [apply keeps_query_row|]. intros e. unfold not_found.
    destruct (is_no_rows e); apply keeps_throw.
  - unfold guard. destruct (ValidateTransition (dr_state d) StateAborted) eqn:E; simpl.
    + apply keeps_plain; [|done]. intros Hd. rewrite Hd in E. discriminate.
    + intros w Hw. exact Hw.
Qed.

Lemma keeps_finish key to actor evidence : keeps I (Finish key to actor evidence).
Proof using.
  unfold Finish. apply keeps_bind; [apply keeps_guard|intros _].
  apply keeps_later; [|intros w e w'; apply tx_inl]. intros w a w' Hok H.
  eapply transition_later; [done|exact H|]. intros r0 w1 w2 Hf Hs Hv Hm H2.
  assert (Hcl : to <> StateClosed) by (intros ->; discriminate).
  assert (H1 : drills_later (store w) (store w1)).
  { rewrite Hm. by apply edge_later; eauto using found_any. }
  apply bind_inr in H2 as (t & wa & Hn & H2). apply now_inr in Hn as [-> ->].
  apply bind_inr in H2 as (u & wb & He & H2). apply exec_inr in He as [He Hc].
  assert (H3 : drills_later (store w1) (store wb)).
  { rewrite He. apply result_later; [by destruct H1|]. intros r Hr Hk. rewrite Hm in Hr.
    eapply edge_elem in Hr as [->|[_ Hne]]; eauto. by destruct Hok. }
  eapply drills_later_trans; [exact H1|]. eapply drills_later_trans; [exact H3|].
  destruct (to =d StateSucceeded); [|injection H2 as <-; apply drills_later_refl; by destruct H3].
  inv_run. unfold when in H2. destruct (_ >? 0).
  - apply txTransition_inr in H2 as (Hv2 & -> & _ & Hany).
    match goal with H : store _ = store wb |- _ => rewrite H in * end.
    apply edge_later; [by destruct H3|done..].
  - injection H2 as <-. match goal with H : store _ = store wb |- _ => rewrite H end.
    apply drills_later_refl. by destruct H3.
Qed.

Lemma keeps_close key actor : keeps I (Close key actor).
Proof using.
  apply keeps_later; [|intros w e w'; apply tx_inl]. intros w a w' Hok H.
  eapply transition_later; [done|exact H|]. intros r0 w1 w2 Hf Hs Hv Hm H2.
  cbv beta in H2. inv_run. subst.
  match goal with H : store ?v = store w1 |- context [store ?v] => rewrite H end. rewrite Hm in *.
  pose proof Hok as [Ht Ha Hc].
  match goal with H : (_ >? 0) = false |- _ => rename H into Hz end.
  match goal with H : (dr_evidence r0 =s "") = false |- _ => rename H into He end.
  destruct (edge_kept (store w) key StateRemediationOpen StateClosed actor (clock w)) as [Hx Hk].
  split; [|done|done|apply rows_kept_refl, finding_kept_refl].
  split; [by eapply (trails_ok_moved (store w))|by eapply (approval_moved (store w))|].
  intros r Hr. eapply (edge_elem (store w)) in Hr as [->|[Hr _]]; [|by apply Hc|done..].
  intros _. simpl. b2p. split; [done|]. intros f Hin Hof.
  destruct (fi_open f) eqn:Eo; [|done]. exfalso.
  assert (Hzero : count_where (fun f => of_drill key f && fi_open f) (findings (store w)) = 0).
  { pose proof (count_where_pos (fun f => of_drill key f && fi_open f) (findings (store w))).
    simpl in Hz. lia. }
  apply count_where_zero with (r := f) in Hzero; [|done].
  apply first_drill in Hf as [_ Hkey]. rewrite Hkey in Hof. by rewrite Hof, Eo in Hzero.
Qed.

Lemma insert_finding_inr key fkey description severity w u w' :
  insert_finding key fkey description severity w = (inr u, w') ->
  clock w' = clock w /\ (store w' = store w \/
    store w' = with_findings (findings (store w) ++
      [MkFindingRow key fkey description severity true "" "" None (clock w)]) (store w)).
Proof using.
  intros H. apply bind_inr in H as (t & w1 & Ht & H). apply now_inr in Ht as [-> ->].
  apply insert_row_inr in H as [H Hc]. split; [done|].
  destruct (negb _); [discriminate|]. destruct (any_where _ _); injection H as <-; auto.
Qed.

(** A finding is added to a drill that is not closed. *)
Lemma finding_added d key fkey description severity t r0 :
  drills_ok d -> first_where (is_drill key) (drills d) = Some r0 -> dr_state r0 <> StateClosed ->
  drills_later d (with_findings (findings d ++
    [MkFindingRow key fkey description severity true "" "" None t]) d).
Proof using.
  intros Hok Hf Hn. apply findings_later; [done|apply rows_kept_app, finding_kept_refl|].
  intros f Hin _. apply elem_of_app in Hin as [?|Hin]; [by left|right].
  apply list_elem_of_singleton in Hin as ->. intros r Hr Ho. unfold of_drill in Ho. simpl in Ho. b2p.
  destruct (first_drill _ _ _ Hf) as [Hr0 Hk0]. assert (r = r0) as ->; [|done].
  eapply (indexed_elem (fun _ => true) dr_key); eauto; [by destruct Hok as [[]]|congruence].
Qed.

Lemma keeps_add_finding key fkey description severity actor :
  keeps I (AddFinding key fkey description severity actor).
Proof using.
  apply keeps_later; [|intros w e w'; apply tx_inl]. intros w a w' Hok H.
  apply tx_inr in H as (w0 & Hs0 & _ & [(w1 & Hb & ->)|(w1 & _ & ->)]); [|by apply drills_later_refl].
  apply bind_inr in Hb as (r0 & wd & Hd & Hb).
  apply find_or_not_found in Hd as (Hf & Hsd & _).
  apply bind_inr in Hb as (u1 & wa & Ha & Hb). apply bind_inr in Hb as (u2 & wb & Hi & Hb).
  apply bind_inr in Hb as (u3 & wc & Hw & Hb). apply ret_inr in Hb as [_ ->].
  rewrite Hs0 in *.
  assert (H1 : drills_later (store w) (store wa) /\
    exists ra, first_where (is_drill key) (drills (store wa)) = Some ra /\ dr_state ra <> StateClosed).
  { assert (Hsame : dr_state r0 <> StateClosed -> store wa = store w ->
      drills_later (store w) (store wa) /\ exists ra,
        first_where (is_drill key) (drills (store wa)) = Some ra /\ dr_state ra <> StateClosed).
    { intros Hne ->. split; [by apply drills_later_refl|eauto]. }
    assert (Hedge : dr_state r0 <> StateDraft ->
        txTransition key (dr_state r0) StateRemediationOpen actor wd = (inr u1, wa) ->
        drills_later (store w) (store wa) /\ exists ra,
        first_where (is_drill key) (drills (store wa)) = Some ra /\ dr_state ra <> StateClosed).
    { intros Hne Hx. apply txTransition_inr in Hx as (Hv & -> & _ & Hany). rewrite Hsd in *.
      split; [by apply edge_later|]. exists (set_dr_state StateRemediationOpen r0).
      split; [|done]. apply edge_first; [by destruct Hok|done|done]. }
    destruct (dr_state r0) eqn:Es; try discriminate; try (by apply Hedge);
      apply ret_inr in Ha as [_ ->]; by apply Hsame. }
  destruct H1 as (H1 & ra & Hfa & Hna).
  assert (H2 : drills_later (store wa) (store wb)).
  { apply insert_finding_inr in Hi as [_ [->| ->]]; [apply drills_later_refl|eapply finding_added];
      eauto; by destruct H1. }
  eapply drills_later_trans; [exact H1|]. eapply drills_later_trans; [exact H2|].
  unfold when in Hw. destruct (dr_state r0 =d StateSucceeded).
  - apply txTransition_inr in Hw as (Hv & -> & _ & Hany). apply edge_later; [by destruct H2|done..].
  - apply ret_inr in Hw as [_ ->]. apply drills_later_refl. by destruct H2.
Qed.

Lemma keeps_resolve key fkey remediation evidence :
  keeps I (ResolveFinding key fkey remediation evidence).
Proof using.
  unfold ResolveFinding. apply keeps_bind; [apply keeps_now|intros t].
  apply keeps_bind; [|intros n; apply keeps_guard].
  apply keeps_exec_n. intros d Hd. simpl. eapply drills_later_trans; [exact Hd|].
  assert (Hp : forall f, of_drill key f && (fi_key f =s fkey) && fi_open f = true -> fi_open f = true).
  { intros f Hf. by apply andb_true_iff in Hf as [_ ?]. }
  apply findings_later; [by destruct Hd|..].
  - apply rows_kept_update; [apply finding_kept_refl|]. intros f Hf. repeat split.
    intros Ho. rewrite (Hp f Hf) in Ho. discriminate.
  - intros f Hin Ho. apply elem_of_update_where in Hin as [(f0 & _ & _ & ->)|[Hin _]]; [discriminate|by left].
Qed.

Lemma keeps_steps_write p f : keeps I (exec (update_steps p f)).
Proof using.
  apply keeps_exec. intros d Hd. eapply drills_later_trans; [exact Hd|].
  apply steps_later. by destruct Hd.
Qed.
Lemma keeps_steps_count (p : StepRow -> bool) q f :
  keeps I (exec_n (fun d => (count_where p (steps d), update_steps q f d))).
Proof using.
  apply keeps_exec_n. intros d Hd. eapply drills_later_trans; [exact Hd|].
  apply steps_later. by destruct Hd.
Qed.

Lemma keeps_claim w key : keeps I (ClaimNext w key).
Proof using.
  unfold ClaimNext. apply keeps_bind; [|intros [| |s]; [apply keeps_ret|apply keeps_throw|apply keeps_ret]].
  apply keeps_tx_body.
  apply keeps_bind; [apply keeps_now|intros t]. apply keeps_bind; [apply keeps_query_row|intros d].
  destruct (negb _); [apply keeps_ret|]. apply keeps_bind.
  - apply keeps_catch; [keeps_walk|]. intros e. destruct (is_no_rows e); [apply keeps_ret|apply keeps_throw].
  - intros [s|]; [|apply keeps_ret].
    destruct (_ >=? _); (apply keeps_bind; [apply keeps_steps_write|intros; apply keeps_ret]).
Qed.
End Keep.

(** The calls that write the drill tables. *)
Inductive drill_call : Dd unit -> Prop :=
| call_create n : drill_call (Create n)
| call_approve key approver : drill_call (Approve key approver)
| call_schedule key actor : drill_call (Schedule key actor)
| call_start key worker : drill_call (Start key worker)
| call_abort key actor : drill_call (Abort key actor)
| call_finish key to actor evidence : drill_call (Finish key to actor evidence)
| call_close key actor : drill_call (Close key actor)
| call_add_finding key fkey description severity actor :
    drill_call (AddFinding key fkey description severity actor)
| call_resolve key fkey remediation evidence :
    drill_call (ResolveFinding key fkey remediation evidence)
| call_claim w key : drill_call (ClaimNext w key ;! ret tt)
| call_release_step s : drill_call (release_step s)
| call_confirm_step w s evidence : drill_call (confirm_step w s evidence ;! ret tt)
| call_sweep t : drill_call (TimeoutSweep t ;! ret tt).
Definition drill_step (d d' : DrillDb) : Prop :=
  exists m w, drill_call m /\ store w = d /\ store (m w).2 = d'.

Lemma keeps_call d0 m : drill_call m -> keeps (drills_later d0) m.
Proof.
  intros []; try (apply keeps_plain; done).
  - apply keeps_create.
  - apply keeps_approve.
  - apply keeps_abort.
  - apply keeps_finish.
  - apply keeps_close.
  - apply keeps_add_finding.
  - apply keeps_resolve.
  - apply keeps_bind; [apply keeps_claim|intros; apply keeps_ret].
  - apply keeps_steps_write.
  - apply keeps_bind; [apply keeps_steps_count|intros; apply keeps_ret].
  - apply keeps_bind; [apply keeps_steps_count|intros; apply keeps_ret].
Qed.
Lemma drill_star_later d d' : drills_ok d -> star drill_step d d' -> drills_later d d'.
Proof.
  intros Hok Hst. apply (star_invariant drill_step (drills_later d) d d'); [|by apply drills_later_refl|done].
  intros a b Ha (m & w & Hm & <- & <-). by apply (keeps_call d m Hm).
Qed.

(** ** RunDrill ends *)

Section Budget.
Context (max : Z) (key : string).

(** The claims that are left: an attempt is one claim. *)
Definition left_of (s : StepRow) : Z :=
  if sp_drill s =s key then Z.max 0 (max - sp_attempts s) else 0.
Definition budget_of (l : list StepRow) : Z := fold_right (fun s n => left_of s + n) 0 l.
Definition budget (d : DrillDb) : Z := budget_of (steps d).

Lemma left_nonneg s : 0 <= left_of s.
Proof using. unfold left_of. destruct (_ =s _); lia. Qed.
Lemma budget_nonneg l : 0 <= budget_of l.
Proof using. induction l as [|s l IH]; simpl; [lia|]. pose proof (left_nonneg s). lia. Qed.

Lemma budget_update p f l :
  (forall s, left_of (f s) <= left_of s) -> budget_of (update_where p f l) <= budget_of l.
Proof using.
  intros Hf. induction l as [|s l IH]; simpl; [lia|]. specialize (Hf s). destruct (p s); lia.
Qed.
Lemma budget_update_lt p f l s :
  (forall s, left_of (f s) <= left_of s) -> s ∈ l -> p s = true -> left_of (f s) < left_of s ->
  budget_of (update_where p f l) < budget_of l.
Proof using.
  intros Hf Hin Hp Hlt. induction Hin as [x l|x y l Hin IH]; simpl.
  - rewrite Hp. pose proof (budget_update p f l Hf). lia.
  - specialize (Hf y). specialize (IH Hp Hlt). destruct (p y); lia.
Qed.
End Budget.

Lemma next_step_some key t d s :
  next_step key t d = Some s -> s ∈ steps d /\ runnable key t s = true /\
  forall s', s' ∈ steps d -> runnable key t s' = true -> sp_no s <= sp_no s'.
Proof.
  unfold next_step. set (l := rows_where (runnable key t) (steps d)). intros H.
  assert (Hs : StronglySorted step_le (merge_sort step_le l)).
  { apply StronglySorted_merge_sort; [intros ? ? ?|intros a b]; unfold step_le; lia. }
  assert (Hp : forall x, x ∈ merge_sort step_le l <-> x ∈ steps d /\ runnable key t x = true).
  { intros x. rewrite merge_sort_Permutation. apply elem_of_rows_where. }
  destruct (merge_sort step_le l) as [|x l'] eqn:E; [discriminate|]. injection H as ->.
  assert (Hin : s ∈ s :: l') by constructor. apply Hp in Hin as [? ?]. split; [done|]. split; [done|].
  intros s' Hs' Hr'. apply StronglySorted_inv in Hs as [_ Hall].
  assert (Hin' : s' ∈ s :: l') by by apply Hp. apply elem_of_cons in Hin' as [->|Hin']; [lia|].
  rewrite Forall_forall in Hall. by apply (Hall s').
Qed.
Lemma next_step_none key t d s :
  next_step key t d = None -> s ∈ steps d -> runnable key t s = false.
Proof.
  unfold next_step. intros H Hs. destruct (runnable key t s) eqn:E; [|done].
  assert (Hin : s ∈ merge_sort step_le (rows_where (runnable key t) (steps d))).
  { rewrite merge_sort_Permutation. by apply elem_of_rows_where. }
  destruct (merge_sort _ _); [by apply elem_of_nil in Hin|discriminate].
Qed.

Definition step_of (s : StepRow) : Step :=
  MkStep (sp_drill s) (sp_no s) (sp_action s) (sp_idem s) StepRunning (sp_attempts s + 1)
    (sp_timeout s) (sp_evidence s).
Definition lease_until (w : DrillWorkerConfig) (t : Z) : Z :=
  t + GoTime.Seconds (leaseTTL w) * GoTime.Second.

(** A claim that hands out a step took the runnable one with the smallest number
    and used one of its attempts. *)
Lemma ClaimNext_inr w key wd s wd' :
  ClaimNext w key wd = (inr (Some s), wd') ->
  exists row, next_step key (clock wd) (store wd) = Some row /\ s = step_of row /\
    sp_attempts row < maxAttempts w /\
    store wd' = update_steps (is_step key (sp_no row))
                  (claimed_step (WorkerID w) (lease_until w (clock wd))) (store wd).
Proof.
  unfold ClaimNext. intros H. apply bind_inr in H as (r & w1 & Htx & H).
  destruct r as [| |s']; [discriminate|discriminate|]. injection H as -> ->.
  apply tx_inr in Htx as (w0 & Hs0 & Hc0 & [(w2 & Hb & ->)|(w2 & Hb & _)]).
  - apply bind_inr in Hb as (t & wa & Ht & Hb). apply now_inr in Ht as [-> ->].
    apply bind_inr in Hb as (d & wb & Hd & Hb). apply query_row_inr in Hd as (_ & Hsb & Hcb).
    destruct (negb _); [discriminate|].
    apply bind_inr in Hb as (o & wc & Ho & Hb).
    assert (Ho' : o = next_step key (clock w0) (store wb) /\ store wc = store wb).
    { unfold catch, bind in Ho. destruct (query_row _ wb) as [[e|x] wx] eqn:Eq.
      - destruct (is_no_rows e) eqn:En; [|discriminate]. injection Ho as <- <-.
        split; [|by apply query_row_inl in Eq].
        unfold query_row, stmt in Eq. destruct (failing wb); [injection Eq as <- _; discriminate|].
        simpl in Eq. by destruct (next_step _ _ _).
      - injection Ho as <- <-. apply query_row_inr in Eq as (Eq & ? & _). done. }
    destruct Ho' as [-> Hsc].
    destruct (next_step key (clock w0) (store wb)) as [row|] eqn:En; [|discriminate].
    destruct (_ >=? _) eqn:Eg.
    { apply bind_inr in Hb as (? & ? & _ & Hb). discriminate. }
    apply bind_inr in Hb as (u & we & Hx & Hb). apply exec_inr in Hx as [Hx _].
    injection Hb as <- <-. exists row. rewrite Hc0, Hsb, Hs0 in En. split; [done|].
    split; [done|]. split; [lia|]. rewrite Hx, Hsc, Hsb, Hs0, Hc0. done.
  - exfalso. apply bind_inr in Hb as (t & wa & Ht & Hb). apply bind_inr in Hb as (d & wb & Hd & Hb).
    destruct (negb _); [discriminate|]. apply bind_inr in Hb as (o & wc & Ho & Hb).
    destruct o as [row|]; [|discriminate].
    destruct (_ >=? _); apply bind_inr in Hb as (? & ? & _ & Hb); discriminate.
Qed.

Lemma claim_budget w key wd s wd' :
  ClaimNext w key wd = (inr (Some s), wd') ->
  budget (maxAttempts w) key (store wd') < budget (maxAttempts w) key (store wd).
Proof.
  intros H. apply ClaimNext_inr in H as (row & Hn & _ & Ha & ->).
  apply next_step_some in Hn as (Hin & Hr & _). unfold budget, update_steps. simpl.
  unfold runnable in Hr. apply andb_true_iff in Hr as [Hk _].
  apply (budget_update_lt _ _ _ _ _ row); [|done| |].
  - intros s0. unfold left_of. simpl. destruct (sp_drill s0 =s key); lia.
  - unfold is_step. rewrite Hk. b2p. done.
  - unfold left_of. simpl. rewrite Hk. lia.
Qed.

Section Ends.
Context {X : Type} (Executor : Step -> X -> (err + string) * Z * X) (w : DrillWorkerConfig).

Lemma drill_db_run {A} (m : Dd A) (wd : World (DrillProc X)) r wd' :
  drill_db m wd = (r, wd') ->
  exists v v', store v = dp_db (store wd) /\ clock v = clock wd /\ m v = (r, v') /\
    dp_db (store wd') = store v' /\ dp_ext (store wd') = dp_ext (store wd) /\ clock wd' = clock v'.
Proof using.
  intros H. apply zoom_run in H as (v & v' & H1 & H2 & H3 & H4 & H5). exists v, v'.
  rewrite H4. done.
Qed.

Lemma RunStep_budget max key s wd u wd' :
  RunStep Executor w s wd = (inr u, wd') ->
  budget max key (dp_db (store wd')) = budget max key (dp_db (store wd)).
Proof using.
  unfold RunStep. intros H. apply bind_inr in H as (r & w1 & He & H).
  unfold execute in He. destruct (Executor _ _) as [[r' dt] x]. injection He as <- <-.
  destruct r' as [e|evidence].
  - apply bind_inr in H as (? & ? & _ & H). discriminate.
  - apply bind_inr in H as (n & w2 & Hc & H). injection H as <- <-.
    apply drill_db_run in Hc as (v & v' & Hv & _ & Hm & Hd & _).
    unfold confirm_step in Hm. apply exec_n_inr in Hm as [Hm _]. injection Hm as _ Hm.
    rewrite Hd, <- Hm. simpl in Hv. rewrite Hv. unfold budget, update_steps. simpl.
    induction (steps (dp_db (store wd))) as [|x0 l IH]; [done|]. simpl. rewrite IH.
    by destruct (_ && _).
Qed.

Lemma run_steps_fuel fuel key wd :
  budget (maxAttempts w) key (dp_db (store wd)) < Z.of_nat fuel ->
  (run_steps Executor w fuel key wd).1 <> inr false.
Proof using.
  revert wd. induction fuel as [|fuel IH]; intros wd Hb.
  { pose proof (budget_nonneg (maxAttempts w) key (steps (dp_db (store wd)))).
    unfold budget in Hb. lia. }
  simpl. unfold bind. destruct (drill_db (ClaimNext w key) wd) as [[e|[s|]] w1] eqn:Ec; [done| |done].
  apply drill_db_run in Ec as (v & v' & Hv & _ & Hm & Hd & _). apply claim_budget in Hm.
  destruct (RunStep Executor w s w1) as [[e|[]] w2] eqn:Er; [done|]. apply IH.
  rewrite (RunStep_budget _ _ _ _ _ _ Er), Hd. rewrite Hv in Hm. lia.
Qed.

(** More fuel than needed changes nothing. *)
Lemma run_steps_more fuel fuel' key wd :
  (fuel <= fuel')%nat -> (run_steps Executor w fuel key wd).1 <> inr false ->
  run_steps Executor w fuel' key wd = run_steps Executor w fuel key wd.
Proof using.
  revert fuel' wd. induction fuel as [|fuel IH]; intros [|fuel'] wd Hle Hf; simpl in *; [done|done|lia|].
  unfold bind in *. destruct (drill_db (ClaimNext w key) wd) as [[e|[s|]] w1]; [done| |done].
  destruct (RunStep Executor w s w1) as [[e|[]] w2]; [done|]. apply IH; [lia|done].
Qed.
End Ends.

(** *** Runs without failures *)

Lemma count_where_some {R} (p : R -> bool) t r :
  r ∈ t -> p r = true -> (count_where p t =? 0) = false /\ (count_where p t >? 0) = true.
Proof.
  intros Hr Hp. pose proof (count_where_pos p t) as Hn.
  assert (count_where p t <> 0).
  { intros Hz. by rewrite (proj1 (count_where_zero p t) Hz r Hr) in Hp. }
  split; b2p; lia.
Qed.

Lemma edge_ok key from to actor d t r0 :
  first_where (is_drill key) (drills d) = Some r0 -> dr_state r0 = from ->
  (let! n := cas key from to in guard (n =? 0) (errT ReasonCasConflict) ;!
   insert_transition key from to actor) (MkWorld d [] t)
  = (inr tt, MkWorld (moved_db key from to actor t d) [] t).
Proof.
  intros Hf Hs. apply first_where_some in Hf as [Hin Hk].
  destruct (count_where_some (at_state key from) (drills d) r0 Hin) as [Hz _].
  { unfold at_state. rewrite Hk. by apply bool_decide_eq_true_2. }
  unfold bind, cas. rewrite exec_n_ok. cbn [fst snd]. unfold at_state in Hz. rewrite Hz. done.
Qed.

Lemma first_updated key p f d r0 :
  (forall r, dr_key (f r) = dr_key r) -> first_where (is_drill key) (drills d) = Some r0 ->
  first_where (is_drill key) (update_where p f (drills d)) = Some (if p r0 then f r0 else r0).
Proof.
  intros Hf Hr. rewrite first_where_update; [by rewrite Hr|]. intros r. unfold is_drill. by rewrite Hf.
Qed.

Lemma transition_ok key from to mutate actor d t r0 d' :
  first_where (is_drill key) (drills d) = Some r0 -> dr_state r0 = from -> from <> to ->
  ValidateTransition from to = true ->
  mutate r0 (MkWorld (moved_db key from to actor t d) [] t) = (inr tt, MkWorld d' [] t) ->
  transition key from to mutate actor (MkWorld d [] t) = (inr tt, MkWorld d' [] t).
Proof.
  intros Hf Hs Hne Hv Hm. unfold transition. rewrite tx_ok. unfold bind at 1, catch, find_drill.
  rewrite query_row_ok, Hf. rewrite Hs, Hv. rewrite (bool_decide_eq_false_2 (from = to)) by done.
  rewrite andb_false_r. rewrite (bool_decide_eq_true_2 (from = from)) by done. cbn [negb].
  pose proof (edge_ok key from to actor d t r0 Hf Hs) as He. unfold bind in *.
  destruct (cas key from to _) as [[e|n] wa]; [discriminate|].
  destruct (guard _ _ wa) as [[e|u] wb]; [discriminate|]. rewrite He, Hm. done.
Qed.

(** Where a finished drill is left. *)
Definition finished_state (key : string) (d : DrillDb) : DrillState :=
  if any_where (of_drill key) (findings d) then StateRemediationOpen else StateSucceeded.

Lemma Finish_ok key actor evidence d t r0 :
  first_where (is_drill key) (drills d) = Some r0 -> dr_state r0 = StateRunning ->
  exists d' r', Finish key StateSucceeded actor evidence (MkWorld d [] t) = (inr tt, MkWorld d' [] t) /\
    steps d' = steps d /\ first_where (is_drill key) (drills d') = Some r' /\
    dr_state r' = finished_state key d /\ dr_evidence r' = evidence.
Proof.
  intros Hf Hs. unfold Finish. simpl.
  set (d1 := moved_db key StateRunning StateSucceeded actor t d).
  assert (Hk : is_drill key r0 = true) by by destruct (first_where_some _ _ _ Hf).
  assert (Hf1 : first_where (is_drill key) (drills d1) = Some (set_dr_state StateSucceeded r0)).
  { unfold d1. simpl. rewrite (first_updated key _ _ d r0) by done. unfold at_state.
    by rewrite Hk, Hs. }
  set (d2 := with_drills (update_where (is_drill key) (set_dr_result evidence t) (drills d1)) d1).
  set (r2 := set_dr_result evidence t (set_dr_state StateSucceeded r0)).
  assert (Hf2 : first_where (is_drill key) (drills d2) = Some r2).
  { unfold d2. simpl. rewrite (first_updated key _ _ d1 (set_dr_state StateSucceeded r0)) by done.
    change (is_drill key (set_dr_state StateSucceeded r0)) with (is_drill key r0). by rewrite Hk. }
  unfold finished_state. destruct (any_where (of_drill key) (findings d)) eqn:Ea.
  - exists (moved_db key StateSucceeded StateRemediationOpen actor t d2),
      (set_dr_state StateRemediationOpen r2).
    split; [|split; [done|split; [|done]]].
    + unfold guard, bind at 1. simpl. eapply transition_ok; [exact Hf|done..|].
      unfold bind at 1, now. unfold bind at 1. rewrite exec_ok.
      fold d1. cbv beta. cbn [clock]. fold d2. unfold bind at 1. rewrite query_ok.
      apply any_where_spec in Ea as (f & Hin & Hof).
      destruct (count_where_some (of_drill key) (findings d) f Hin Hof) as [_ Hp].
      change (findings d2) with (findings d). rewrite Hp. unfold when, txTransition.
      unfold guard at 1, bind at 1. simpl. by apply (edge_ok _ _ _ _ _ _ r2).
    + simpl. rewrite (first_updated key _ _ d2 r2) by done. unfold at_state.
      assert (is_drill key r2 = true) as -> by exact Hk. done.
  - exists d2, r2. split; [|done]. unfold guard, bind at 1. simpl.
    eapply transition_ok; [exact Hf|done..|]. unfold bind at 1, now. unfold bind at 1. rewrite exec_ok.
    fold d1. cbv beta. cbn [clock]. fold d2. unfold bind at 1. rewrite query_ok.
    change (findings d2) with (findings d).
    rewrite (proj2 (count_where_zero _ _)); [done|]. by apply any_where_false.
Qed.

Lemma ClaimNext_ok w key d t r0 :
  first_where (is_drill key) (drills d) = Some r0 -> dr_state r0 = StateRunning ->
  (forall s, next_step key t d = Some s -> sp_attempts s < maxAttempts w) ->
  ClaimNext w key (MkWorld d [] t) =
  match next_step key t d with
  | None => (inr None, MkWorld d [] t)
  | Some s => (inr (Some (step_of s)),
      MkWorld (update_steps (is_step key (sp_no s)) (claimed_step (WorkerID w) (lease_until w t)) d) [] t)
  end.
Proof.
  intros Hf Hs Ha. unfold ClaimNext. unfold bind at 1. rewrite tx_ok. unfold bind at 1, now.
  unfold bind at 1, find_drill. rewrite query_row_ok, Hf, Hs. simpl.
  unfold bind at 1, catch, bind at 1. rewrite query_row_ok.
  destruct (next_step key t d) as [s|] eqn:En; [|done]. specialize (Ha s eq_refl).
  unfold ret at 1. destruct (sp_attempts s >=? maxAttempts w) eqn:E; [lia|]. done.
Qed.

(** *** A drill whose steps succeed *)

Section Success.
Context {X : Type} (Executor : Step -> X -> (err + string) * Z * X) (w : DrillWorkerConfig)
  (key : string) (l0 : list StepRow) (fs0 : list FindingRow).
Context (Hexec : forall s x, exists evidence dt x', Executor s x = (inr evidence, dt, x')).
Context (Hfresh : forall s, s ∈ l0 -> sp_drill s = key ->
  sp_state s = StepPending /\ sp_attempts s < maxAttempts w).
Context (Hnum : indexed (fun s => sp_drill s =s key) sp_no l0).

(** A step that ran once. *)
Definition ran (s s' : StepRow) : Prop :=
  sp_state s' = StepDone /\ sp_attempts s' = sp_attempts s + 1 /\ sp_drill s' = sp_drill s /\
  sp_no s' = sp_no s /\ sp_action s' = sp_action s /\ sp_idem s' = sp_idem s.
Definition advanced (s s' : StepRow) : Prop := s' = s \/ (sp_drill s = key /\ ran s s').
Definition running_drill (wd : World (DrillProc X)) : Prop :=
  faults wd = [] /\ findings (dp_db (store wd)) = fs0 /\
  (exists r0, first_where (is_drill key) (drills (dp_db (store wd))) = Some r0 /\
     dr_state r0 = StateRunning) /\
  Forall2 advanced l0 (steps (dp_db (store wd))).

Lemma advanced_keys s s' : advanced s s' -> sp_drill s' = sp_drill s /\ sp_no s' = sp_no s.
Proof using. intros [->|(_ & _ & _ & ? & ? & _)]; done. Qed.

(** Claim and confirmation of one step, as one write. *)
Definition ran_step (evidence : string) (until : Z) (s : StepRow) : StepRow :=
  done_step evidence (claimed_step (WorkerID w) until s).
Lemma step_written row evidence until d :
  update_steps (fun r => is_step (sp_drill row) (sp_no row) r &&
      ((sp_state r =d StepRunning) || (sp_state r =d StepPending)) &&
      ((sp_claimed_by r =s WorkerID w) || (sp_claimed_by r =s ""))) (done_step evidence)
    (update_steps (is_step (sp_drill row) (sp_no row)) (claimed_step (WorkerID w) until) d)
  = update_steps (is_step (sp_drill row) (sp_no row)) (ran_step evidence until) d.
Proof using.
  unfold update_steps, with_steps. simpl. f_equal. unfold update_where. rewrite List.map_map.
  apply List.map_ext. intros s. destruct (is_step _ _ s) eqn:E; [|by rewrite E].
  change (is_step _ _ (claimed_step (WorkerID w) until s)) with (is_step (sp_drill row) (sp_no row) s).
  rewrite E. simpl. by rewrite str_eqb_refl.
Qed.

Lemma advanced_write l row evidence until :
  Forall2 advanced l0 l -> row ∈ l -> sp_drill row = key -> sp_state row = StepPending ->
  Forall2 advanced l0 (update_where (is_step key (sp_no row)) (ran_step evidence until) l).
Proof using Hnum.
  intros Hl Hrow Hk Hs. apply list_elem_of_lookup_1 in Hrow as [i Hi].
  assert (H0 : l0 !! i = Some row).
  { destruct (Forall2_lookup_r _ _ _ _ _ Hl Hi) as (s & Hs0 & [->|(_ & Hd & _)]); congruence. }
  apply Forall2_same_length_lookup_2.
  { rewrite length_update_where. by eapply Forall2_length. }
  intros j x y Hx Hy.
  destruct (Forall2_lookup_l _ _ _ _ _ Hl Hx) as (y0 & Hy0 & Ha).
  rewrite (lookup_update_where _ _ _ _ _ Hy0) in Hy. injection Hy as <-.
  destruct (is_step key (sp_no row) y0) eqn:E; [|done].
  destruct (advanced_keys _ _ Ha) as [Hd Hn]. unfold is_step in E. rewrite Hd, Hn in E. b2p.
  destruct E as [Ed En].
  assert (j = i) as -> by (eapply (Hnum j i x row); eauto; b2p; congruence).
  assert (y0 = row) as -> by congruence. assert (x = row) as -> by congruence.
  right. split; [done|]. by repeat split.
Qed.

Lemma RunStep_ok row until wd :
  faults wd = [] -> sp_drill row = key ->
  let d := dp_db (store wd) in
  exists evidence t x, RunStep Executor w (step_of row)
      (MkWorld (MkDrillProc (update_steps (is_step key (sp_no row)) (claimed_step (WorkerID w) until) d)
                  (dp_ext (store wd))) [] (clock wd))
    = (inr tt, MkWorld (MkDrillProc
         (update_steps (is_step key (sp_no row)) (ran_step evidence until) d) x) [] t).
Proof using Hexec.
  intros Hf Hk d. unfold RunStep, execute. unfold bind at 1. simpl.
  destruct (Hexec (step_of row) (dp_ext (store wd))) as (evidence & dt & x & ->).
  exists evidence, (clock wd + dt), x. unfold bind, drill_db, zoom, confirm_step. simpl.
  rewrite <- Hk.
  pose proof (step_written row evidence until d) as Hw. rewrite Hw. done.
Qed.

Lemma run_steps_runs fuel wd :
  running_drill wd ->
  exists b wd', run_steps Executor w fuel key wd = (inr b, wd') /\ running_drill wd' /\
    (b = true -> forall s, s ∈ steps (dp_db (store wd')) -> sp_drill s = key -> sp_state s = StepDone).
Proof using Hexec Hfresh Hnum.
  revert wd. induction fuel as [|fuel IH]; intros wd Hrun; [by exists false, wd|].
  pose proof Hrun as (Hf & Hfs & (r0 & Hr0 & Hs0) & Hadv).
  set (d := dp_db (store wd)) in *.
  assert (Hrows : forall s, s ∈ steps d -> sp_drill s = key ->
    (sp_state s = StepPending /\ sp_attempts s < maxAttempts w) \/ sp_state s = StepDone).
  { intros s Hin Hk. apply list_elem_of_lookup_1 in Hin as [i Hi].
    destruct (Forall2_lookup_r _ _ _ _ _ Hadv Hi) as (x & Hx & [->|(_ & ? & _)]); [|by right].
    left. apply Hfresh; [by eapply list_elem_of_lookup_2|done]. }
  assert (Hnext : forall s, next_step key (clock wd) d = Some s ->
    sp_drill s = key /\ sp_state s = StepPending /\ sp_attempts s < maxAttempts w /\ s ∈ steps d).
  { intros s Hn. apply next_step_some in Hn as (Hin & Hr & _). unfold runnable in Hr. b2p.
    destruct Hr as [Hk Hr]. destruct (Hrows s Hin Hk) as [[Hp Ha]|Hd]; [done|].
    rewrite Hd in Hr. destruct Hr as [Hr|[Hr _]]; discriminate. }
  assert (Hc : drill_db (ClaimNext w key) wd =
    match next_step key (clock wd) d with
    | None => (inr None, MkWorld (store wd) [] (clock wd))
    | Some s => (inr (Some (step_of s)),
        MkWorld (MkDrillProc (update_steps (is_step key (sp_no s))
          (claimed_step (WorkerID w) (lease_until w (clock wd))) d) (dp_ext (store wd))) [] (clock wd))
    end).
  { unfold drill_db, zoom. rewrite Hf. fold d. rewrite (ClaimNext_ok w key d _ r0 Hr0 Hs0).
    - destruct (next_step key (clock wd) d); [done|]. simpl. unfold d. by destruct (store wd).
    - intros s Hn. by destruct (Hnext s Hn) as (_ & _ & ? & _). }
  simpl. unfold bind. rewrite Hc. destruct (next_step key (clock wd) d) as [row|] eqn:En.
  - destruct (Hnext row eq_refl) as (Hk & Hp & _ & Hin).
    destruct (RunStep_ok row (lease_until w (clock wd)) wd Hf Hk) as (evidence & t & x & Hr).
    fold d in Hr. rewrite Hr. apply IH. split; [done|]. split; [done|]. split; [by exists r0|].
    simpl. by apply advanced_write.
  - exists true, (MkWorld (store wd) [] (clock wd)). split; [done|].
    split; [split; [done|exact (proj2 Hrun)]|].
    intros _ s Hin Hk. destruct (Hrows s Hin Hk) as [[Hp _]|]; [|done].
    pose proof (next_step_none _ _ _ _ En Hin) as Hn. unfold runnable in Hn.
    rewrite Hp, Hk, str_eqb_refl in Hn. discriminate.
Qed.
End Success.

(** ** A drill that was aborted before it finished *)

Section Stuck.
Context (key : string).

(** Aborted or in remediation, and without result evidence. *)
Definition stuck_row (r : DrillRow) : Prop :=
  (dr_state r = StateAborted \/ dr_state r = StateRemediationOpen) /\ dr_evidence r = "".
Definition stuck (d : DrillDb) : Prop :=
  (exists r, r ∈ drills d /\ dr_key r = key) /\
  forall r, r ∈ drills d -> dr_key r = key -> stuck_row r.

Lemma stuck_update d p f (d' : DrillDb) :
  drills d' = update_where p f (drills d) -> (forall r, dr_key (f r) = dr_key r) ->
  (forall r, r ∈ drills d -> p r = true -> dr_key r = key -> stuck_row r -> stuck_row (f r)) ->
  stuck d -> stuck d'.
Proof using.
  intros Hd Hk Hf [(r0 & Hr0 & Hk0) Hs]. unfold stuck. rewrite Hd. split.
  - destruct (p r0) eqn:E; [exists (f r0)|exists r0];
      (split; [apply elem_of_update_where; eauto|congruence]).
  - intros r Hr He. apply elem_of_update_where in Hr as [(r1 & Hr1 & Hp & ->)|[Hr _]]; [|auto].
    rewrite Hk in He. apply Hf; auto.
Qed.
Lemma stuck_edge d k from to actor t :
  ValidateTransition from to = true -> to <> StateClosed ->
  stuck d -> stuck (moved_db k from to actor t d).
Proof using.
  intros Hv Hn. eapply stuck_update; [done|done|]. intros r _ Hp _ [Hs He].
  unfold at_state in Hp. apply andb_true_iff in Hp as [_ Hp]. apply bool_decide_eq_true_1 in Hp.
  split; [|done]. simpl.
  destruct Hs as [Hs|Hs]; rewrite Hs in Hp; subst from; destruct to; try discriminate; auto; done.
Qed.
Lemma stuck_found d k r0 :
  stuck d -> first_where (is_drill k) (drills d) = Some r0 -> k = key -> stuck_row r0.
Proof using. intros [_ H] Hf ->. apply first_drill in Hf as [? ?]. auto. Qed.
(** Rows of other drills may be written in any column but the key. *)
Lemma stuck_other d k f (d' : DrillDb) :
  drills d' = update_where (is_drill k) f (drills d) -> (forall r, dr_key (f r) = dr_key r) ->
  k <> key -> stuck d -> stuck d'.
Proof using.
  intros Hd Hk Hne. eapply stuck_update; [done|done|]. intros r _ Hp He. unfold is_drill in Hp. b2p.
  congruence.
Qed.

Lemma keeps_stuck_tx k from to mutate actor :
  to <> StateClosed ->
  (forall d r0 w1 w2, stuck d -> first_where (is_drill k) (drills d) = Some r0 -> dr_state r0 = from ->
     stuck (store w1) -> mutate r0 w1 = (inr tt, w2) -> stuck (store w2)) ->
  keeps stuck (transition k from to mutate actor).
Proof using.
  intros Hn Hm w Hw. destruct (transition _ _ _ _ _ w) as [[e|[]] w'] eqn:E; simpl.
  - apply tx_inl in E. by rewrite E.
  - apply drill_transition_inr in E as (r0 & Hf & [[_ ->]|(Hs & Hv & w1 & w2 & H1 & _ & H2 & ->)]); [done|].
    apply (Hm (store w) r0 w1 w2); [done..| |done]. rewrite H1. by apply stuck_edge.
Qed.

Lemma keeps_stuck_finish k to actor evidence : keeps stuck (Finish k to actor evidence).
Proof using.
  unfold Finish. intros w Hw. unfold bind at 1, guard at 1.
  destruct (negb (to =d StateSucceeded) && _) eqn:Et; [done|]. simpl. revert w Hw.
  apply keeps_stuck_tx.
  { intros ->. discriminate. }
  intros d r0 w1 w2 Hd Hf Hs H1 H2.
  assert (Hne : k <> key).
  { intros ->. destruct (stuck_found _ _ _ Hd Hf eq_refl) as [[Hx|Hx] _]; congruence. }
  apply bind_inr in H2 as (t & wa & Ht & H2). apply now_inr in Ht as [-> ->].
  apply bind_inr in H2 as (u & wb & He & H2). apply exec_inr in He as [He _].
  assert (Hb : stuck (store wb)) by (rewrite He; by eapply stuck_other).
  destruct (to =d StateSucceeded); [|by apply ret_inr in H2 as [_ ->]].
  apply bind_inr in H2 as (n & wc & Hq & H2). apply query_inr in Hq as (_ & Hq & _).
  unfold when in H2. destruct (_ >? 0); [|apply ret_inr in H2 as [_ ->]; by rewrite Hq].
  apply txTransition_inr in H2 as (Hv & -> & _). apply stuck_edge; [done|done|by rewrite Hq].
Qed.

Lemma keeps_stuck_close k actor : keeps stuck (Close k actor).
Proof using.
  intros w Hw. destruct (Close k actor w) as [[e|[]] w'] eqn:E; simpl.
  { apply tx_inl in E. by rewrite E. }
  apply drill_transition_inr in E as (r0 & Hf & [[_ ->]|(Hs & Hv & w1 & w2 & H1 & _ & H2 & ->)]); [done|].
  apply bind_inr in H2 as (n & wa & Hq & H2). apply query_inr in Hq as (_ & Hq & _).
  apply bind_inr in H2 as (u & wb & Hg & H2). apply guard_inr in Hg as [_ ->].
  apply guard_inr in H2 as [He ->]. rewrite Hq, H1. b2p.
  apply (stuck_update (store w) (at_state k StateRemediationOpen) (set_dr_state StateClosed)); try done.
  intros r Hr Hp Hk [_ Hev]. exfalso. apply He.
  assert (k = key) as ->; [|by destruct (stuck_found _ _ _ Hw Hf eq_refl)].
  unfold at_state, is_drill in Hp. b2p. destruct Hp. congruence.
Qed.

Lemma keeps_stuck_plain k from to actor :
  to <> StateClosed -> keeps stuck (transition k from to no_mutation actor).
Proof using.
  intros Hn. apply keeps_stuck_tx; [done|]. intros d r0 w1 w2 _ _ _ H1 H2. by injection H2 as <-.
Qed.

Lemma keeps_stuck_add k fkey description severity actor :
  keeps stuck (AddFinding k fkey description severity actor).
Proof using.
  apply keeps_tx. intros w w' a Hw Hb.
  apply bind_inr in Hb as (r0 & wd & Hd & Hb). apply find_or_not_found in Hd as (Hf & Hsd & _).
  apply bind_inr in Hb as (u1 & wa & Ha & Hb). apply bind_inr in Hb as (u2 & wb & Hi & Hb).
  apply bind_inr in Hb as (u3 & wc & Hwh & Hb). apply ret_inr in Hb as [_ ->].
  assert (Hedge : forall s v v' u, stuck (store v) ->
    txTransition k s StateRemediationOpen actor v = (inr u, v') -> stuck (store v')).
  { intros s v v' u Hv Hx. apply txTransition_inr in Hx as (Hv2 & -> & _). by apply stuck_edge. }
  rewrite <- Hsd in Hw.
  assert (H1 : stuck (store wa)).
  { destruct (dr_state r0); try discriminate; try (apply ret_inr in Ha as [_ ->]; done);
      by eapply Hedge. }
  assert (H2 : stuck (store wb)) by (apply insert_finding_inr in Hi as [_ [->| ->]]; done).
  unfold when in Hwh. destruct (_ =d StateSucceeded); [by eapply Hedge|].
  by apply ret_inr in Hwh as [_ ->].
Qed.

Lemma keeps_stuck_drills (m : Dd unit) :
  (forall w, drills (store (m w).2) = drills (store w)) -> keeps stuck m.
Proof using. intros Hm w Hw. unfold stuck. by rewrite Hm. Qed.
Definition same_drills (l : list DrillRow) (d : DrillDb) : Prop := drills d = l.
Lemma keeps_same {A} (m : Dd A) : (forall l, keeps (same_drills l) m) -> keeps stuck m.
Proof using. intros Hm w Hw. unfold stuck. by rewrite (Hm (drills (store w)) w eq_refl). Qed.

Lemma keeps_stuck_call m : drill_call m -> keeps stuck m.
Proof using.
  intros [].
  - apply keeps_bind; [apply keeps_guard|intros _].
    apply keeps_bind; [apply keeps_now|intros t]. apply keeps_insert_row. intros d d' Hd Hx.
    destruct (any_where _ _) eqn:E; [discriminate|]. injection Hx as <-.
    destruct Hd as [(r & Hr & Hk) Hs]. split; [exists r; split; [apply elem_of_app; by left|done]|].
    intros r' Hr' Hk'. simpl in Hr'. apply elem_of_app in Hr' as [Hr'|Hr']; [auto|].
    apply list_elem_of_singleton in Hr' as ->. simpl in Hk'.
    assert (Hx : is_drill (DrillStore.DrillKey n) r = false) by (by eapply any_where_false in E).
    unfold is_drill in Hx. b2p. congruence.
  - apply keeps_stuck_tx; [done|]. intros d r0 w1 w2 Hd Hf Hs H1 H2. cbv beta in H2. inv_run.
    match goal with H : store w2 = _ |- _ => rewrite H end.
    eapply stuck_update; [done|done| |exact H1]. by intros r _ _ _ [? ?].
  - by apply keeps_stuck_plain.
  - by apply keeps_stuck_plain.
  - apply keeps_bind; [|intros d].
    + apply keeps_catch; [apply keeps_query_row|]. intros e. unfold not_found.
      destruct (is_no_rows e); apply keeps_throw.
    + apply keeps_bind; [apply keeps_guard|intros _]. by apply keeps_stuck_plain.
  - apply keeps_stuck_finish.
  - apply keeps_stuck_close.
  - apply keeps_stuck_add.
  - apply keeps_same. intros l. unfold ResolveFinding. keeps_walk. apply keeps_exec_n. done.
  - apply keeps_same. intros l. apply keeps_bind; [|intros; apply keeps_ret]. unfold ClaimNext.
    apply keeps_bind; [|intros [| |]; [apply keeps_ret|apply keeps_throw|apply keeps_ret]].
    apply keeps_tx_body. unfold find_drill. keeps_walk; by apply keeps_exec.
  - apply keeps_same. intros l. by apply keeps_exec.
  - apply keeps_same. intros l. apply keeps_bind; [by apply keeps_exec_n|intros; apply keeps_ret].
  - apply keeps_same. intros l. apply keeps_bind; [by apply keeps_exec_n|intros; apply keeps_ret].
Qed.
End Stuck.

(** ** Properties *)

Module DrillProps.

Definition new0 : NewDrill := MkNewDrill "drill-1" "vendor-a" "" "alice".
Definition dw0 : World DrillDb := MkWorld empty_drills [] 10.
Definition dw1 : World DrillDb := Eval vm_compute in (Create new0 dw0).2.
Definition dw2 : World DrillDb := Eval vm_compute in (Approve "drill-1" "bob" dw1).2.
Definition dw3 : World DrillDb := Eval vm_compute in (Schedule "drill-1" "bob" dw2).2.
Definition dw_run : World DrillDb := Eval vm_compute in (Start "drill-1" "w1" dw3).2.
Definition dw_aborted : World DrillDb := Eval vm_compute in (Abort "drill-1" "bob" dw_run).2.

Lemma dw_step m w w' : drill_call m -> (m w).2 = w' -> drill_step (store w) (store w').
Proof. intros Hm <-. by exists m, w. Qed.
Lemma dw_history : star drill_step empty_drills (store dw_run).
Proof.
  eapply star_next; [|apply (dw_step (Start "drill-1" "w1") dw3); [constructor|by vm_compute]].
  eapply star_next; [|apply (dw_step (Schedule "drill-1" "bob") dw2); [constructor|by vm_compute]].
  eapply star_next; [|apply (dw_step (Approve "drill-1" "bob") dw1); [constructor|by vm_compute]].
  apply star_one. apply (dw_step (Create new0) dw0); [constructor|by vm_compute].
Qed.
Lemma empty_drills_ok : drills_ok empty_drills.
Proof.
  split; [split|..]; simpl; try (intros ? H; by apply elem_of_nil in H).
  intros i j a b Hi. by rewrite lookup_nil in Hi.
Qed.

(** C17.  Through any sequence of calls of the store and the worker, whatever
    statements fail: audit rows, drills and findings are never lost, a drill
    keeps its key, vendor, pack, initiator and creation time and a resolved
    finding stays resolved; the audit rows of each drill are a path of the legal matrix from
    DRAFT to its current state; whoever approved it is not its initiator; and a
    CLOSED drill has result evidence and no open finding. *)
Theorem drill_history d d' :
  drills_ok d -> star drill_step d d' ->
  extends (transitions d) (transitions d') /\ rows_kept drill_kept (drills d) (drills d') /\
  rows_kept finding_kept (findings d) (findings d') /\
  forall r, r ∈ drills d' ->
    follow StateDraft (trail (dr_key r) d') = Some (dr_state r) /\
    (dr_state r <> StateDraft -> dr_approver r <> dr_initiator r) /\
    (dr_state r = StateClosed -> dr_evidence r <> "" /\
       forall f, f ∈ findings d' -> fi_drill f = dr_key r -> fi_open f = false).
Proof.
  intros Hok Hst. destruct (drill_star_later d d' Hok Hst) as [[Ht Ha Hc] H1 H2 H3].
  split; [done|]. split; [done|]. split; [done|]. intros r Hr.
  split; [by apply (tk_trail _ Ht)|]. split; [by apply (Ha r Hr)|].
  intros Hs. destruct (Hc r Hr Hs) as [He Hf]. split; [done|]. intros f Hin Hk. apply Hf; [done|].
  unfold of_drill. by b2p.
Qed.
Lemma drill_history_witness :
  Forall (fun r => follow StateDraft (trail (dr_key r) (store dw_run)) = Some (dr_state r))
         (drills (store dw_run)).
Proof.
  apply Forall_forall. intros r Hr.
  by destruct (drill_history empty_drills (store dw_run) empty_drills_ok dw_history) as (_ & _ & _ & H);
    apply H.
Defined.

(** C34.  RunDrill ends: every claim uses one of the attempts the steps have
    left, so one more turn of the loop than that suffices, whatever the
    executor answers and whatever statements fail, and more turns change
    nothing. *)
Theorem RunDrill_terminates {X} (Executor : Step -> X -> (err + string) * Z * X) w key wd fuel :
  budget (maxAttempts w) key (dp_db (store wd)) < Z.of_nat fuel ->
  (RunDrill Executor w fuel key wd).1 <> inr None /\
  forall fuel', (fuel <= fuel')%nat -> RunDrill Executor w fuel' key wd = RunDrill Executor w fuel key wd.
Proof.
  intros Hb. pose proof (run_steps_fuel Executor w fuel key wd Hb) as Hf. split.
  - unfold RunDrill, bind. destruct (run_steps _ _ _ _ _) as [[e|[]] w1]; [done| |done].
    by destruct (conclude w key w1) as [[e|u] w2].
  - intros fuel' Hle. unfold RunDrill, bind. by rewrite (run_steps_more _ _ fuel fuel').
Qed.

(** An executor that counts its calls, and a drill of two steps. *)
Definition counting (s : Step) (n : Z) : (err + string) * Z * Z := (inr "ok", 1, n + 1).
Definition step0 (no : Z) (idem : string) : StepRow :=
  MkStepRow "drill-1" no "switch" idem StepPending None "" 0 None "".
Definition steps0 : list StepRow := [step0 2 "k2"; step0 1 "k1"].
Definition worker0 : DrillWorkerConfig := MkDrillWorker "w1" 0 0.
Definition proc_run : World (DrillProc Z) :=
  MkWorld (MkDrillProc (with_steps steps0 (store dw_run)) 0) [] 10.

Lemma RunDrill_terminates_witness : (RunDrill counting worker0 7 "drill-1" proc_run).1 <> inr None.
Proof. apply (RunDrill_terminates counting worker0 "drill-1" proc_run 7). vm_compute. reflexivity. Defined.

(** With every step of a drill DONE, and at least one, the drill is finished. *)
Lemma conclude_done {X} w key (wd : World (DrillProc X)) d2 :
  faults wd = [] ->
  (exists s, s ∈ rows_where (fun s => sp_drill s =s key) (steps (dp_db (store wd)))) ->
  (forall s, s ∈ rows_where (fun s => sp_drill s =s key) (steps (dp_db (store wd))) -> sp_state s = StepDone) ->
  Finish key StateSucceeded (WorkerID w) "all steps done" (MkWorld (dp_db (store wd)) [] (clock wd)) = (inr tt, MkWorld d2 [] (clock wd)) ->
  conclude w key wd = (inr tt, MkWorld (MkDrillProc d2 (dp_ext (store wd))) [] (clock wd)).
Proof.
  intros Hf Hone Hall Hfin. unfold conclude, bind, drill_db, zoom. rewrite Hf, query_ok. unfold step_counts.
  set (l := rows_where _ (steps (dp_db (store wd)))) in *.
  assert (Htot : (count_where (fun _ => true) l =? 0) = false).
  { destruct Hone as [s Hs]. by destruct (count_where_some (fun _ => true) l s Hs eq_refl). }
  assert (Hfail : count_where (fun s => sp_state s =d StepFailed) l = 0).
  { apply count_where_zero. intros s Hs. by rewrite (Hall s Hs). }
  assert (Hdn : count_where (fun s => sp_state s =d StepDone) l = count_where (fun _ => true) l).
  { unfold count_where. do 2 f_equal. apply List.filter_ext_in. intros s Hs.
    apply list_elem_of_In in Hs. by rewrite (Hall s Hs). }
  rewrite Htot, Hfail, Hdn, Z.eqb_refl. simpl. by rewrite Hfin.
Qed.
(** Steps that were pending and are DONE have run. *)
Lemma advanced_done_ran w key ss ss' :
  Forall2 (advanced key) ss ss' ->
  (forall s, s ∈ ss' -> sp_drill s = key -> sp_state s = StepDone) ->
  (forall s, s ∈ ss -> sp_drill s = key -> sp_state s = StepPending /\ sp_attempts s < maxAttempts w) ->
  Forall2 (fun s s' => if sp_drill s =s key then ran s s' else s' = s) ss ss'.
Proof.
  intros Hadv. induction Hadv as [|s s' l l' Ha _ IH]; intros Hdone Hfresh; constructor.
  - destruct (sp_drill s =s key) eqn:E; b2p.
    + destruct Ha as [->|[_ Ha]]; [|done].
      destruct (Hfresh s) as [Hp _]; [constructor|done|].
      rewrite (Hdone s) in Hp; [discriminate|constructor|done].
    + destruct Ha as [->|[Hk _]]; [done|congruence].
  - apply IH; intros ? ?; [apply Hdone|apply Hfresh]; by constructor.
Qed.

(** C18.  A RUNNING drill whose steps are pending with attempts left, run with
    an executor that succeeds and a database that answers: every step is DONE
    after one attempt, and the drill is SUCCEEDED, or in remediation when it
    has findings, with its result evidence; steps of other drills are
    untouched. *)
Theorem RunDrill_succeeds {X} (Executor : Step -> X -> (err + string) * Z * X) w key fuel
    (d : DrillDb) x t r0 :
  (forall s x, exists evidence dt x', Executor s x = (inr evidence, dt, x')) ->
  first_where (is_drill key) (drills d) = Some r0 -> dr_state r0 = StateRunning ->
  (exists s, s ∈ steps d /\ sp_drill s = key) ->
  (forall s, s ∈ steps d -> sp_drill s = key ->
     sp_state s = StepPending /\ sp_attempts s < maxAttempts w) ->
  indexed (fun s => sp_drill s =s key) sp_no (steps d) ->
  budget (maxAttempts w) key d < Z.of_nat fuel ->
  exists wd', RunDrill Executor w fuel key (MkWorld (MkDrillProc d x) [] t) = (inr (Some tt), wd') /\
    Forall2 (fun s s' => if sp_drill s =s key then ran s s' else s' = s)
      (steps d) (steps (dp_db (store wd'))) /\
    exists r', first_where (is_drill key) (drills (dp_db (store wd'))) = Some r' /\
      dr_state r' = finished_state key d /\ dr_evidence r' = "all steps done".
Proof.
  intros He Hr0 Hs0 [s1 [Hs1 Hk1]] Hfresh Hnum Hb. set (wd := MkWorld (MkDrillProc d x) [] t).
  assert (Hrun : running_drill key (steps d) (findings d) wd).
  { split; [done|]. split; [done|]. split; [by exists r0|]. apply Forall_Forall2_diag, Forall_forall.
    intros s _. by left. }
  destruct (run_steps_runs Executor w key (steps d) (findings d) He Hfresh Hnum fuel wd Hrun)
    as (b & wd1 & Hst & (Hf1 & Hfs1 & (r1 & Hr1 & Hr1s) & Hadv) & Hdone).
  assert (b = true) as ->.
  { destruct b; [done|]. pose proof (run_steps_fuel Executor w fuel key wd Hb) as Hx.
    by rewrite Hst in Hx. }
  specialize (Hdone eq_refl). set (d1 := dp_db (store wd1)) in *.
  destruct (Finish_ok key (WorkerID w) "all steps done" d1 (clock wd1) r1 Hr1 Hr1s)
    as (d2 & r2 & Hfin & Hsteps & Hr2 & Hst2 & Hev).
  exists (MkWorld (MkDrillProc d2 (dp_ext (store wd1))) [] (clock wd1)).
  assert (Hone : exists s, s ∈ rows_where (fun s => sp_drill s =s key) (steps d1)).
  { apply list_elem_of_lookup_1 in Hs1 as [i Hi].
    destruct (Forall2_lookup_l _ _ _ _ _ Hadv Hi) as (s' & Hi' & Ha).
    apply advanced_keys in Ha as [Hd _]. exists s'. apply elem_of_rows_where.
    split; [by eapply list_elem_of_lookup_2|]. b2p. congruence. }
  assert (Hall : forall s, s ∈ rows_where (fun s => sp_drill s =s key) (steps d1) ->
    sp_state s = StepDone).
  { intros s Hs. apply elem_of_rows_where in Hs as [Hs Hk]. b2p. by apply Hdone. }
  assert (Hcon : conclude w key wd1 = (inr tt, MkWorld (MkDrillProc d2 (dp_ext (store wd1))) [] (clock wd1)))
    by (apply conclude_done; auto).
  split; [unfold RunDrill, bind; by rewrite Hst, Hcon|]. split.
  - simpl. rewrite Hsteps. by apply (advanced_done_ran w).
  - exists r2. split; [done|]. split; [|done]. rewrite Hst2. unfold finished_state.
    by rewrite Hfs1.
Qed.
Lemma RunDrill_succeeds_witness :
  exists wd', RunDrill counting worker0 7 "drill-1" proc_run = (inr (Some tt), wd').
Proof.
  destruct (RunDrill_succeeds counting worker0 "drill-1" 7 (with_steps steps0 (store dw_run)) 0 10
              (MkDrillRow "drill-1" "vendor-a" "" "alice" "bob" StateRunning "" (Some 10) None 10))
    as (wd' & Hr & _).
  - intros s x. by eexists _, _, _.
  - reflexivity.
  - reflexivity.
  - exists (step0 1 "k1"). split; [repeat constructor|done].
  - intros s Hs _. apply elem_of_cons in Hs as [->|Hs]; [done|].
    by apply list_elem_of_singleton in Hs as ->.
  - intros [|[|i]] [|[|j]] a b Hi Hj _ _ Hn; simpl in *; try done;
      injection Hi as <-; injection Hj as <-; discriminate.
  - vm_compute. reflexivity.
  - exists wd'. exact Hr.
Defined.

(** A drill that was aborted without result evidence can never be CLOSED,
    whatever calls follow: only Finish writes the evidence Close asks for, and
    only from RUNNING. *)
Theorem aborted_never_closes d d' r :
  indexed (fun _ => true) dr_key (drills d) -> r ∈ drills d ->
  dr_state r = StateAborted -> dr_evidence r = "" -> star drill_step d d' ->
  forall r', r' ∈ drills d' -> dr_key r' = dr_key r -> dr_state r' <> StateClosed.
Proof.
  intros Hu Hr Hs He Hst r' Hr' Hk.
  assert (Hstuck : stuck (dr_key r) d').
  { eapply (star_invariant drill_step (stuck (dr_key r))); [| |exact Hst].
    - intros a b Ha (m & w & Hm & <- & <-). by apply (keeps_stuck_call (dr_key r) m Hm).
    - split; [by exists r|]. intros r1 Hr1 Hk1.
      assert (r1 = r) as -> by by eapply (indexed_elem (fun _ => true) dr_key). split; [by left|done]. }
  destruct Hstuck as [_ H]. destruct (H r' Hr' Hk) as [[Hx|Hx] _]; congruence.
Qed.
Lemma aborted_never_closes_witness :
  Forall (fun r' => dr_key r' = "drill-1" -> dr_state r' <> StateClosed) (drills (store dw_aborted)).
Proof.
  apply Forall_forall, (aborted_never_closes (store dw_aborted) (store dw_aborted)
    (MkDrillRow "drill-1" "vendor-a" "" "alice" "bob" StateAborted "" (Some 10) None 10));
    [|constructor|reflexivity|reflexivity|apply star_refl].
  intros i j a b Hi Hj _ _ _. apply list_lookup_singleton_Some in Hi as [-> _].
  by apply list_lookup_singleton_Some in Hj as [-> _].
Defined.

(** A step that is DONE runs again: when a worker's lease has run out and
    another worker has finished its step, a late failure of the first sets it
    back to PENDING, without a check of state or owner. *)
Definition late : Step := step_of (step0 1 "k1").
Theorem done_step_repeats :
  let d := with_steps [done_step "ok" (claimed_step "w2" 40 (step0 1 "k1"))] (store dw_run) in
  map sp_state (steps d) = [StepDone] /\
  map sp_state (steps (store (release_step late (MkWorld d [] 50)).2)) = [StepPending].
Proof. split; reflexivity. Qed.
End DrillProps.
