(* ===== verification/ChainVerify.v ===== *)
(** * The exit-drill evidence chain (src/internal/exitdrillverify)

    The checker reads the tables of the drills, exit packs, correlations, plans
    and evidence and renders a verdict; cmd/exit-chain-verify turns it into an
    exit status.  A hop of the export is a [Link], a reason against it a
    [Break] with the values its message prints.  Every statement reads the
    database of the run: other writers between two statements are not
    modelled.  Which row QueryRow takes when several qualify is a parameter,
    [RowChoice].  The theorems: a chain is complete exactly when the tables
    hold the evidence, whatever statements fail; what a GO means over
    databases the other components can reach; that a named plan without a
    correlation goes unnoticed. *)

From S2P Require Import Prelude GoStd GoJson GoTime Sql Schema Evidence ExitPack Mmr ExitDrill.

(** The tables the checker reads; the plans are those of [xevidence]. *)
Record ChainDb : Type := MkChainDb {
  cd_drill : DrillDb;
  cd_xp : XpDb;
  cd_corr : list CorrRow;
}.
Definition cd_base (d : ChainDb) : Database := base (xevidence (cd_xp d)).
Definition cd_packs (d : ChainDb) : list XpRow := xpacks (cd_xp d).
Definition cd_evidence (d : ChainDb) : list EvidenceRow := records (xevidence (cd_xp d)).

Module Checker.
Import Matrix.

(** ChainLink, by its Kind. *)
Inductive Link : Type :=
| LDrill (id vendor : string) (state : DrillState) (initiator : string)
| LPack (id : string) (state : XpState)
| LPlan (id : string) (status : PlanStatus) (items : Z)
| LDecision (id outcome usage trace : string) (recorded_at : Z)
| LEvidence (id : string) (n : Z)
| LFindings (id : string) (opened resolved : Z)
| LAudit (id : string) (n : Z).
Inductive Break : Type :=
| BUnfinished
| BNoPack
| BNoCorrelation
| BPlanMissing (decision plan : string)
| BPlanEmpty (plan : string)
| BNoEvidence (plan : string)
| BOpenHigh (n : Z)
| BNoAudit
| BApprover (approver initiator : string)
| BNotApproved.

Record Chain : Type := MkChain {
  ChDrillKey : string;
  VerifiedAt : string;
  Complete : bool;
  Breaks : list Break;
  Links : list Link;
  ARRConfigDiff : string;
  AgentCodeDiff : string;
  AttributionMode : string;
  AttributionPlans : option (list string); (* a nil slice is None *)
}.
Definition add_link (l : Link) (ch : Chain) : Chain :=
  MkChain (ChDrillKey ch) (VerifiedAt ch) (Complete ch) (Breaks ch) (Links ch ++ [l])
    (ARRConfigDiff ch) (AgentCodeDiff ch) (AttributionMode ch) (AttributionPlans ch).
Definition add_break (b : Break) (ch : Chain) : Chain :=
  MkChain (ChDrillKey ch) (VerifiedAt ch) (Complete ch) (Breaks ch ++ [b]) (Links ch)
    (ARRConfigDiff ch) (AgentCodeDiff ch) (AttributionMode ch) (AttributionPlans ch).
Definition broken (link : string) : err := ETyped "chain broken at" link.

Section Check.
Context `{RC : RowChoice}.

Definition new_chain (key : string) (plans : option (list string)) (t : Z) : Chain :=
  MkChain key (GoTime.rfc3339 t) false [] [] "" ""
    (match plans with None => "provider-scope" | Some _ => "exact-plans" end) plans.
Definition completion (s : DrillState) : bool :=
  (s =d StateSucceeded) || (s =d StateRemediationOpen) || (s =d StateClosed).
Definition the_drill (key : string) (d : ChainDb) : option DrillRow :=
  first_where (is_drill key) (drills (cd_drill d)).

(** *** The exit pack *)

Definition usable (s : XpState) : bool := (s =d XpActive) || (s =d XpValidated).
(** SELECT pack_key ... ORDER BY revision DESC LIMIT 1 *)
Definition vendor_pack (vendor : string) (d : ChainDb) : option string :=
  let ps := rows_where (fun p => (xp_vendor p =s vendor) && usable (xp_state p)) (cd_packs d) in
  option_map xp_key
    (choose (rows_where (fun p => forallb (fun p' => xp_rev p' <=? xp_rev p) ps) ps)).
(** COALESCE(NULLIF(d.exit_pack_key, ''), ...) *)
Definition pack_key (r : DrillRow) (d : ChainDb) : option string :=
  if dr_pack r =s "" then vendor_pack (dr_vendor r) d else Some (dr_pack r).
Definition keyed (key : option string) (p : XpRow) : bool :=
  match key with Some k => xp_key p =s k | None => false end.
Definition chain_pack (key : string) (d : ChainDb) : option XpRow :=
  match the_drill key d with
  | None => None
  | Some r => choose (rows_where (fun p => keyed (pack_key r d) p && usable (xp_state p)) (cd_packs d))
  end.

(** *** Attribution *)

Definition item_of (c : CorrRow) (i : PlanItemRow) : bool :=
  (pt_plan_id i =s mc_plan c) && (pt_requirement_id i =s mc_item c).
(** The rows of the LEFT JOIN for one correlation. *)
Definition joined (d : ChainDb) (c : CorrRow) : list (CorrRow * option PlanItemRow) :=
  match rows_where (item_of c) (plan_items (cd_base d)) with
  | [] => [(c, None)]
  | items => map (fun i => (c, Some i)) items
  end.
Definition in_window (r : DrillRow) (t : Z) (c : CorrRow) : bool :=
  (dr_created_at r <=? mc_recorded_at c) &&
  (mc_recorded_at c <=? default t (dr_finished_at r)).
Definition of_provider (r : DrillRow) (d : ChainDb) (i : PlanItemRow) : bool :=
  (pt_provider_key i =s dr_vendor r) ||
  any_where (fun p => keyed (pack_key r d) p && (pt_provider_key i =s xp_subst p)) (cd_packs d).
Definition attributed (r : DrillRow) (plans : option (list string)) (d : ChainDb) (t : Z)
    (ci : CorrRow * option PlanItemRow) : bool :=
  in_window r t ci.1 &&
  match plans with
  | Some l => str_mem (mc_plan ci.1) l
  | None => match ci.2 with None => true | Some i => of_provider r d i end
  end.
Definition recorded_le (a b : CorrRow * option PlanItemRow) : Prop :=
  mc_recorded_at a.1 <= mc_recorded_at b.1.
#[local] Instance recorded_le_dec a b : Decision (recorded_le a b).
Proof using. unfold recorded_le. apply _. Defined.
Definition correlations_of (key : string) (plans : option (list string)) (t : Z) (d : ChainDb) : list CorrRow :=
  match the_drill key d with
  | None => []
  | Some r => map fst (merge_sort recorded_le
                (rows_where (attributed r plans d t) (flat_map (joined d) (cd_corr d))))
  end.

(** *** Plans and evidence *)

Definition plan_row (plan : string) (d : ChainDb) : option (PlanStatus * Z) :=
  option_map (fun p => (pl_status p, count_where (fun i => pt_plan_id i =s plan) (plan_items (cd_base d))))
    (first_where (fun p => pl_id p =s plan) (Schema.plans (cd_base d))).
Fixpoint check_plans (cs : list CorrRow) (ch : Chain) : M ChainDb Chain :=
  match cs with
  | [] => ret ch
  | c :: rest =>
      let! r := attempt (query_row (plan_row (mc_plan c))) in
      match r with
      | inl e => if is_no_rows e then check_plans rest (add_break (BPlanMissing (mc_decision c) (mc_plan c)) ch)
                 else throw e
      | inr (status, items) =>
          let ch := if items =? 0 then add_break (BPlanEmpty (mc_plan c)) ch else ch in
          let ch := add_link (LPlan (mc_plan c) status items) ch in
          check_plans rest
            (add_link (LDecision (mc_decision c) (mc_outcome c) (mc_usage c) (mc_trace c) (mc_recorded_at c)) ch)
      end
  end.
Definition evidence_count (plan : string) (d : ChainDb) : Z :=
  count_where (fun e => ev_plan e =s plan) (cd_evidence d).
(** The loop with seenPlans. *)
Fixpoint check_evidence (seen : list string) (cs : list CorrRow) (ch : Chain) : M ChainDb Chain :=
  match cs with
  | [] => ret ch
  | c :: rest =>
      if str_mem (mc_plan c) seen then check_evidence seen rest ch
      else
        let! n := query (evidence_count (mc_plan c)) in
        check_evidence (mc_plan c :: seen) rest
          (if n =? 0 then add_break (BNoEvidence (mc_plan c)) ch
           else add_link (LEvidence (mc_plan c) n) ch)
  end.

(** *** Findings and the audit trail *)

Definition open_finding (key : string) (f : FindingRow) : bool := of_drill key f && fi_open f.
Definition resolved_finding (key : string) (f : FindingRow) : bool := of_drill key f && negb (fi_open f).
Definition high_finding (key : string) (f : FindingRow) : bool :=
  open_finding key f && ((fi_severity f =s "HIGH") || (fi_severity f =s "CRITICAL")).
Definition check_findings (key : string) (ch : Chain) : M ChainDb Chain :=
  let! n := query (fun d => (count_where (open_finding key) (findings (cd_drill d)),
                             count_where (resolved_finding key) (findings (cd_drill d)))) in
  let ch := add_link (LFindings key n.1 n.2) ch in
  if 0 <? n.1 then
    let! h := query (fun d => count_where (high_finding key) (findings (cd_drill d))) in
    ret (if 0 <? h then add_break (BOpenHigh h) ch else ch)
  else ret ch.

Definition by_approver (key approver : string) (x : TransRow) : bool :=
  (tr_drill x =s key) && (tr_to x =d StateApproved) && (tr_actor x =s approver).
Definition check_audit (key : string) (ch : Chain) : M ChainDb Chain :=
  let! n := query (fun d => count_where (fun x => tr_drill x =s key) (transitions (cd_drill d))) in
  if n =? 0 then ret (add_break BNoAudit ch)
  else
    let! r := query_row (the_drill key) in
    let! ch :=
      (if (dr_approver r =s "") || (dr_approver r =s dr_initiator r)
       then ret (add_break (BApprover (dr_approver r) (dr_initiator r)) ch)
       else
         let! a := query (fun d => count_where (by_approver key (dr_approver r)) (transitions (cd_drill d))) in
         ret (if a =? 0 then add_break BNotApproved ch else ch)) in
    ret (add_link (LAudit key n) ch).

(** *** The checker *)

Definition conclude (ch : Chain) : Chain :=
  MkChain (ChDrillKey ch) (VerifiedAt ch) (match Breaks ch with [] => true | _ => false end)
    (Breaks ch) (Links ch) "unverified" "unverified" (AttributionMode ch) (AttributionPlans ch).
(** The statements after the drill's row. *)
Definition check_rest (key : string) (plans : option (list string)) (ch : Chain) : M ChainDb Chain :=
  let! f := query_row (fun d => option_map dr_finished_at (the_drill key d)) in
  let ch := match f with None => add_break BUnfinished ch | Some _ => ch end in
  let! p := attempt (query_row (chain_pack key)) in
  let! ch := (match p with
              | inr p => ret (add_link (LPack (xp_key p) (xp_state p)) ch)
              | inl e => if is_no_rows e then ret (add_break BNoPack ch) else throw e
              end) in
  let! t := now in
  let! cs := query (correlations_of key plans t) in
  let ch := match cs with [] => add_break BNoCorrelation ch | _ => ch end in
  let! ch := check_plans cs ch in
  let! ch := check_evidence [] cs ch in
  let! ch := check_findings key ch in
  let! ch := check_audit key ch in
  ret (conclude ch).
(** The chain and the typed break beside it; [throw] is a nil chain. *)
Definition VerifyDrillChainScoped (key : string) (plans : option (list string)) :
    M ChainDb (Chain * option err) :=
  let! t := now in
  let ch := new_chain key plans t in
  let! r := attempt (query_row (the_drill key)) in
  match r with
  | inl e => if is_no_rows e then ret (ch, Some (broken "drill")) else throw e
  | inr r =>
      let ch := add_link (LDrill key (dr_vendor r) (dr_state r) (dr_initiator r)) ch in
      if negb (completion (dr_state r)) then ret (ch, Some (broken "drill"))
      else let! ch := check_rest key plans ch in ret (ch, None)
  end.
Definition VerifyDrillChain (key : string) : M ChainDb (Chain * option err) :=
  VerifyDrillChainScoped key None.

Definition MarkARRZeroChange (verified : bool) (ch : Chain) : Chain :=
  if verified then
    MkChain (ChDrillKey ch) (VerifiedAt ch) (Complete ch) (Breaks ch) (Links ch) "0"
      (AgentCodeDiff ch) (AttributionMode ch) (AttributionPlans ch)
  else ch.
Definition MarkAgentZeroChange (verified : bool) (ch : Chain) : Chain :=
  if verified then
    MkChain (ChDrillKey ch) (VerifiedAt ch) (Complete ch) (Breaks ch) (Links ch) (ARRConfigDiff ch)
      "0" (AttributionMode ch) (AttributionPlans ch)
  else ch.
Inductive Reason : Type := RIncomplete (n : Z) | RArr | RAgent.
Definition GoNoGo (ch : Chain) : string * list Reason :=
  let reasons :=
    (if Complete ch then [] else [RIncomplete (Z.of_nat (length (Breaks ch)))]) ++
    (if ARRConfigDiff ch =s "0" then [] else [RArr]) ++
    (if AgentCodeDiff ch =s "0" then [] else [RAgent]) in
  match reasons with [] => ("GO", []) | _ => ("NO-GO", reasons) end.

(** *** cmd/exit-chain-verify *)

Record Flags : Type := MkFlags {
  FlagDsn : string; FlagDrill : string; FlagPlan : string; ArrZero : bool; AgentZero : bool }.
Definition plan_list (plans : string) : option (list string) :=
  if plans =s "" then None
  else match List.filter (fun p => negb (p =s "")) (map GoString.trim_space (GoString.split_at "," plans)) with
       | [] => None
       | l => Some l
       end.
(** The exit status. *)
Definition main (f : Flags) : M ChainDb Z :=
  if (FlagDsn f =s "") || (FlagDrill f =s "") then ret 2
  else
    let! r := attempt (VerifyDrillChainScoped (FlagDrill f) (plan_list (FlagPlan f))) in
    match r with
    | inl _ | inr (_, Some _) => ret 1
    | inr (ch, None) =>
        let ch := MarkAgentZeroChange (AgentZero f) (MarkARRZeroChange (ArrZero f) ch) in
        ret (if (GoNoGo ch).1 =s "GO" then 0 else 1)
    end.
End Check.
End Checker.

(** ** What a run finds *)

Section Runs.
Import Matrix Checker.
Context `{RC : RowChoice}.

(** A check adds breaks unless [P]. *)
Definition grows (P : Prop) (ch ch' : Chain) : Prop :=
  exists bs, Breaks ch' = Breaks ch ++ bs /\ (bs = [] <-> P).
Lemma grows_refl (P : Prop) ch : P -> grows P ch ch.
Proof using. intros H. exists []. by rewrite app_nil_r. Qed.
Lemma grows_link P l ch ch' : grows P (add_link l ch) ch' -> grows P ch ch'.
Proof using. done. Qed.
Lemma grows_link_r P l ch ch' : grows P ch ch' -> grows P ch (add_link l ch').
Proof using. done. Qed.
Lemma grows_break (P : Prop) b ch : ~ P -> grows P ch (add_break b ch).
Proof using. intros H. exists [b]. split; [done|]. by split. Qed.
Lemma grows_if (P : Prop) (q : bool) b ch :
  (q = false <-> P) -> grows P ch (if q then add_break b ch else ch).
Proof using. intros H. destruct q; [apply grows_break|apply grows_refl]; rewrite <- H; done. Qed.
Lemma grows_trans P Q a b c : grows P a b -> grows Q b c -> grows (P /\ Q) a c.
Proof using.
  intros (x & Hx & Ex) (y & Hy & Ey). exists (x ++ y). rewrite Hy, Hx, app_assoc. split; [done|].
  rewrite <- Ex, <- Ey. split; [by intros [? ?]%app_eq_nil|by intros [-> ->]].
Qed.
Lemma grows_iff P Q ch ch' : (P <-> Q) -> grows P ch ch' -> grows Q ch ch'.
Proof using. intros H (x & Hx & E). exists x. by rewrite <- H. Qed.

(** A row of the query or none. *)
Lemma attempt_row {A} (f : ChainDb -> option A) w r w1 :
  attempt (query_row f) w = (inr r, w1) ->
  store w1 = store w /\
  match r with inr a => f (store w) = Some a | inl e => is_no_rows e = true -> f (store w) = None end.
Proof using.
  intros H. apply attempt_inr in H. destruct r as [e|a].
  - split; [by eapply query_row_inl|]. intros He. unfold query_row, stmt in H.
    destruct (failing w); [by injection H as <- _|].
    destruct (f (store w)) eqn:Ef; [simpl in H; rewrite Ef in H; discriminate|done].
  - by apply query_row_inr in H as (? & ? & _).
Qed.

Definition has_plan (d : ChainDb) (plan : string) : Prop :=
  exists p, p ∈ Schema.plans (cd_base d) /\ pl_id p = plan.
Definition has_item (d : ChainDb) (plan : string) : Prop :=
  exists i, i ∈ plan_items (cd_base d) /\ pt_plan_id i = plan.
Definition has_evidence (d : ChainDb) (plan : string) : Prop :=
  exists e, e ∈ cd_evidence d /\ ev_plan e = plan.

Lemma count_zero {R} (q : R -> bool) l (P : R -> Prop) :
  (forall x, q x = true <-> P x) -> ((count_where q l =? 0) = false <-> exists x, x ∈ l /\ P x).
Proof using.
  intros Hq. rewrite Z.eqb_neq, count_where_zero. split.
  - intros H. destruct (any_where q l) eqn:E.
    + apply any_where_spec in E as (x & Hx & E). exists x. by rewrite <- Hq.
    + destruct H. by apply any_where_false.
  - intros (x & Hx & Hp) H. apply Hq in Hp. rewrite H in Hp; done.
Qed.
Lemma plan_row_some plan d s n :
  plan_row plan d = Some (s, n) -> has_plan d plan /\ ((n =? 0) = false <-> has_item d plan).
Proof using.
  unfold plan_row. destruct (first_where _ _) as [p|] eqn:E; [|discriminate]. intros [= <- <-].
  apply first_where_some in E as [Hp Hk]. apply String.eqb_eq in Hk. split; [by exists p|].
  apply count_zero. intros i. apply String.eqb_eq.
Qed.
Lemma plan_row_none plan d : plan_row plan d = None -> ~ has_plan d plan.
Proof using.
  unfold plan_row. destruct (first_where _ _) as [p|] eqn:E; [discriminate|]. intros _ (p & Hp & Hk).
  eapply first_where_none in E; [|exact Hp]. by apply String.eqb_neq in E.
Qed.

Lemma check_plans_inr cs ch w ch' w' :
  check_plans cs ch w = (inr ch', w') ->
  store w' = store w /\
  grows (forall c, c ∈ cs -> has_plan (store w) (mc_plan c) /\ has_item (store w) (mc_plan c)) ch ch'.
Proof using.
  revert ch w. induction cs as [|c cs IH]; intros ch w H; cbn [check_plans] in H.
  { apply ret_inr in H as [-> ->]. split; [done|]. apply grows_refl. intros c Hc. by apply elem_of_nil in Hc. }
  apply bind_inr in H as (r & w1 & Hr & H). apply attempt_row in Hr as [Hs Hr].
  destruct r as [e|[s n]].
  - destruct (is_no_rows e); [|discriminate]. apply IH in H as [Hs' H]. rewrite Hs in *.
    split; [done|]. eapply grows_iff; [|eapply (grows_trans False); [apply grows_break; tauto|exact H]].
    split; [by intros []|]. intros Hc. destruct (plan_row_none _ _ (Hr eq_refl)). by destruct (Hc c (list_elem_of_here _ _)).
  - apply IH in H as [Hs' H]. rewrite Hs in *. split; [done|]. apply plan_row_some in Hr as [Hp Hi].
    eapply grows_iff; [|eapply (grows_trans (has_item (store w) (mc_plan c)));
      [apply grows_if; exact Hi|apply grows_link in H; apply grows_link in H; exact H]].
    split.
    + intros [Hc Hrest] x Hx. apply elem_of_cons in Hx as [->|Hx]; auto.
    + intros Hc. split; [by destruct (Hc c (list_elem_of_here _ _))|]. intros x Hx. apply Hc. by right.
Qed.
Lemma check_evidence_inr seen cs ch w ch' w' :
  check_evidence seen cs ch w = (inr ch', w') ->
  store w' = store w /\
  grows (forall c, c ∈ cs -> mc_plan c ∈ seen \/ has_evidence (store w) (mc_plan c)) ch ch'.
Proof using.
  revert seen ch w. induction cs as [|c cs IH]; intros seen ch w H; cbn [check_evidence] in H.
  { apply ret_inr in H as [-> ->]. split; [done|]. apply grows_refl. intros c Hc. by apply elem_of_nil in Hc. }
  destruct (str_mem (mc_plan c) seen) eqn:Em.
  - apply str_mem_spec in Em. apply IH in H as [Hs H]. split; [done|]. eapply grows_iff; [|exact H]. split.
    + intros Hc x Hx. apply elem_of_cons in Hx as [->|Hx]; auto.
    + intros Hc x Hx. apply Hc. by right.
  - apply bind_inr in H as (n & w1 & Hq & H). apply query_inr in Hq as (-> & Hs & _).
    apply IH in H as [Hs' H]. rewrite Hs in *. split; [done|].
    assert (Hn : (evidence_count (mc_plan c) (store w) =? 0) = false <-> has_evidence (store w) (mc_plan c)).
    { apply count_zero. intros e. apply String.eqb_eq. }
    eapply grows_iff; [|eapply (grows_trans (has_evidence (store w) (mc_plan c))); [|exact H]].
    + split.
      * intros [Hc Hr] x Hx. apply elem_of_cons in Hx as [->|Hx]; [by right|].
        destruct (Hr x Hx) as [Hin|Hin]; [|by right].
        apply elem_of_cons in Hin as [->|Hin]; [by right|by left].
      * intros Hc. split.
        -- destruct (Hc c) as [Hin|Hin]; [left|apply str_mem_spec in Hin; congruence|done].
        -- intros x Hx. destruct (Hc x) as [Hin|Hin]; [by right| |by right]. left. by right.
    + destruct (evidence_count _ _ =? 0); [apply grows_break|apply grows_link_r, grows_refl]; rewrite <- Hn; done.
Qed.
Definition blocking (key : string) (f : FindingRow) : Prop :=
  fi_drill f = key /\ fi_open f = true /\ (fi_severity f = "HIGH" \/ fi_severity f = "CRITICAL").
Lemma high_finding_spec key f : high_finding key f = true <-> blocking key f.
Proof using.
  unfold high_finding, open_finding, of_drill, blocking.
  rewrite !andb_true_iff, orb_true_iff, !String.eqb_eq. tauto.
Qed.
Lemma count_pos {R} (q : R -> bool) l (P : R -> Prop) :
  (forall x, q x = true <-> P x) -> ((0 <? count_where q l) = false <-> forall x, x ∈ l -> ~ P x).
Proof using.
  intros Hq. pose proof (count_zero q l P Hq) as Hz. rewrite Z.eqb_neq in Hz.
  pose proof (count_where_pos q l). split.
  - intros H0 x Hx Hp. assert (count_where q l <> 0) by (apply Hz; eauto). lia.
  - intros H0. destruct (0 <? count_where q l) eqn:E; [|done].
    destruct (proj1 Hz) as (x & Hx & Hp); [lia|]. by destruct (H0 x).
Qed.
Lemma check_findings_inr key ch w ch' w' :
  check_findings key ch w = (inr ch', w') ->
  store w' = store w /\ grows (forall f, f ∈ findings (cd_drill (store w)) -> ~ blocking key f) ch ch'.
Proof using.
  intros H. unfold check_findings in H. apply bind_inr in H as (n & w1 & Hn & H).
  apply query_inr in Hn as (-> & Hs & _). cbn [fst snd] in H.
  pose proof (count_pos (high_finding key) (findings (cd_drill (store w))) _ (high_finding_spec key)) as Hh.
  destruct (0 <? count_where (open_finding key) _) eqn:E.
  - apply bind_inr in H as (h & w2 & Hq & H). apply query_inr in Hq as (-> & Hs2 & _).
    apply ret_inr in H as [-> ->]. rewrite Hs2, Hs in *. split; [done|].
    eapply grows_link, grows_if, Hh.
  - apply ret_inr in H as [-> ->]. split; [done|]. apply grows_link_r, grows_refl.
    intros f Hf (Hk & Ho & _). revert E. apply not_false_iff_true. apply Z.ltb_lt.
    pose proof (count_where_pos (open_finding key) (findings (cd_drill (store w)))) as Hp.
    assert (count_where (open_finding key) (findings (cd_drill (store w))) <> 0); [|lia].
    intros Hz. rewrite count_where_zero in Hz. specialize (Hz f Hf). unfold open_finding, of_drill in Hz.
    by rewrite Hk, Ho, str_eqb_refl in Hz.
Qed.

(** The approval in the audit trail: by the recorded approver, another than
    the initiator. *)
Definition approved_by_other (key : string) (d : ChainDb) : Prop :=
  exists r x, the_drill key d = Some r /\ dr_approver r <> "" /\ dr_approver r <> dr_initiator r /\
    x ∈ transitions (cd_drill d) /\ tr_drill x = key /\ tr_to x = StateApproved /\ tr_actor x = dr_approver r.
Lemma by_approver_spec key a x :
  by_approver key a x = true <-> tr_drill x = key /\ tr_to x = StateApproved /\ tr_actor x = a.
Proof using.
  unfold by_approver. rewrite !andb_true_iff, !String.eqb_eq, bool_decide_eq_true. tauto.
Qed.
Lemma check_audit_inr key ch w ch' w' :
  check_audit key ch w = (inr ch', w') ->
  store w' = store w /\ grows (approved_by_other key (store w)) ch ch'.
Proof using.
  intros H. unfold check_audit in H. apply bind_inr in H as (n & w1 & Hn & H).
  apply query_inr in Hn as (-> & Hs & _).
  pose proof (count_zero (fun x => tr_drill x =s key) (transitions (cd_drill (store w))) _
                (fun x => String.eqb_eq (tr_drill x) key)) as Hz.
  destruct (_ =? 0).
  { apply ret_inr in H as [-> ->]. split; [done|]. apply grows_break.
    intros (r & x & _ & _ & _ & Hx & Hk & _). enough (true = false) by done. apply Hz. eauto. }
  apply bind_inr in H as (r & w2 & Hr & H). apply query_row_inr in Hr as (Hr & Hs2 & _).
  apply bind_inr in H as (c & w3 & Hc & H). apply ret_inr in H as [-> ->]. rewrite Hs in *.
  assert (Hg : store w3 = store w2 /\ grows (approved_by_other key (store w)) ch c).
  { destruct (_ || _) eqn:Eo.
    - apply ret_inr in Hc as [-> ->]. split; [done|]. apply grows_break.
      intros (r' & x & Hr' & H1 & H2 & _). rewrite Hr in Hr'. injection Hr' as <-.
      apply orb_true_iff in Eo as [Eo|Eo]; by apply String.eqb_eq in Eo.
    - apply bind_inr in Hc as (a & w4 & Ha & Hc). apply query_inr in Ha as (-> & Hs4 & _).
      apply ret_inr in Hc as [-> ->]. split; [done|]. rewrite Hs2.
      apply orb_false_iff in Eo as [E1 E2]. apply String.eqb_neq in E1, E2.
      apply grows_if. rewrite (count_zero _ _ _ (by_approver_spec key (dr_approver r))). split.
      + intros (x & Hx & Hk & Ht & Ha). by exists r, x.
      + intros (r' & x & Hr' & _ & _ & Hx & Hk & Ht & Ha). rewrite Hr in Hr'. injection Hr' as <-. eauto. }
  destruct Hg as [Hs3 Hg]. rewrite Hs3, Hs2. split; [done|]. by apply grows_link_r.
Qed.

(** ** The evidence *)

(** The correlations attributed to a drill that finished at [f]. *)
Definition attributed_to (r : DrillRow) (plans : option (list string)) (d : ChainDb) (f : Z) (c : CorrRow) : Prop :=
  c ∈ cd_corr d /\ dr_created_at r <= mc_recorded_at c <= f /\
  match plans with
  | Some l => mc_plan c ∈ l
  | None => (forall i, i ∈ plan_items (cd_base d) -> item_of c i = false) \/
            exists i, i ∈ plan_items (cd_base d) /\ item_of c i = true /\ of_provider r d i = true
  end.
Record chain_holds (key : string) (plans : option (list string)) (d : ChainDb) (r : DrillRow) (f : Z) : Prop := {
  ch_drill : the_drill key d = Some r /\ completion (dr_state r) = true /\ dr_finished_at r = Some f;
  ch_pack : exists p, p ∈ cd_packs d /\ pack_key r d = Some (xp_key p) /\ usable (xp_state p) = true;
  ch_outcome : exists c, attributed_to r plans d f c;
  ch_plans : forall c, attributed_to r plans d f c ->
    has_plan d (mc_plan c) /\ has_item d (mc_plan c) /\ has_evidence d (mc_plan c);
  ch_findings : forall x, x ∈ findings (cd_drill d) -> ~ blocking key x;
  ch_audit : approved_by_other key d;
}.

Lemma elem_of_left_join d c ci :
  ci ∈ joined d c <->
  ci.1 = c /\ match ci.2 with
              | None => forall i, i ∈ plan_items (cd_base d) -> item_of c i = false
              | Some i => i ∈ plan_items (cd_base d) /\ item_of c i = true
              end.
Proof using.
  unfold joined. destruct ci as [c' oi]; cbn [fst snd].
  destruct (rows_where (item_of c) (plan_items (cd_base d))) as [|i l] eqn:E.
  - rewrite list_elem_of_singleton. split.
    + intros [= -> ->]. split; [done|]. intros i Hi. destruct (item_of c i) eqn:Ei; [|done].
      assert (Hin : i ∈ rows_where (item_of c) (plan_items (cd_base d))) by by apply elem_of_rows_where.
      rewrite E in Hin. by apply elem_of_nil in Hin.
    + intros [-> H]. destruct oi as [i|]; [|done]. apply elem_of_rows_where in H. rewrite E in H.
      by apply elem_of_nil in H.
  - rewrite <- E. rewrite list_elem_of_In, in_map_iff. split.
    + intros (j & [= <- <-] & Hj). split; [done|]. by apply elem_of_rows_where, list_elem_of_In.
    + intros [-> H]. destruct oi as [j|].
      * exists j. split; [done|]. by apply list_elem_of_In, elem_of_rows_where.
      * exfalso. assert (Hi : i ∈ rows_where (item_of c) (plan_items (cd_base d))) by (rewrite E; left).
        apply elem_of_rows_where in Hi as [Hi Hc]. by rewrite H in Hc.
Qed.
Lemma elem_of_correlations key plans t d r f c :
  the_drill key d = Some r -> dr_finished_at r = Some f ->
  (c ∈ correlations_of key plans t d <-> attributed_to r plans d f c).
Proof using.
  intros Hr Hf. unfold correlations_of. rewrite Hr. rewrite list_elem_of_In, in_map_iff.
  setoid_rewrite <- list_elem_of_In. setoid_rewrite merge_sort_Permutation.
  setoid_rewrite elem_of_rows_where. unfold attributed, in_window, attributed_to. rewrite Hf. cbn [default].
  setoid_rewrite list_elem_of_In. setoid_rewrite in_flat_map. setoid_rewrite <- list_elem_of_In.
  setoid_rewrite elem_of_left_join. split.
  - intros ([c' oi] & <- & (x & Hx & <- & Hi) & Hb). cbn [fst snd] in *.
    rewrite !andb_true_iff, !Z.leb_le in Hb. destruct Hb as [[H1 H2] Hb]. split; [done|]. split; [done|].
    destruct plans as [l|]; [by apply str_mem_spec|].
    destruct oi as [i|]; [right|by left]. destruct Hi. eauto.
  - intros (Hc & [H1 H2] & Hb). destruct plans as [l|].
    + exists (c, head (rows_where (item_of c) (plan_items (cd_base d)))). cbn [fst snd]. split; [done|].
      split; [exists c; split; [done|]; split; [done|]|].
      * destruct (rows_where _ _) as [|i its] eqn:E; cbn [head].
        -- intros i Hi. destruct (item_of c i) eqn:Ei; [|done].
           assert (Hin : i ∈ rows_where (item_of c) (plan_items (cd_base d))) by by apply elem_of_rows_where.
           rewrite E in Hin. by apply elem_of_nil in Hin.
        -- apply elem_of_rows_where. rewrite E. left.
      * rewrite !andb_true_iff, !Z.leb_le, str_mem_spec. done.
    + destruct Hb as [Hb|(i & Hi & Hit & Hp)]; [exists (c, None)|exists (c, Some i)]; cbn [fst snd];
        (split; [done|]; split; [by exists c|]; rewrite !andb_true_iff, !Z.leb_le; done).
Qed.
Lemma chain_pack_spec key d r :
  the_drill key d = Some r ->
  (chain_pack key d <> None <->
   exists p, p ∈ cd_packs d /\ pack_key r d = Some (xp_key p) /\ usable (xp_state p) = true).
Proof using.
  intros Hr. unfold chain_pack. rewrite Hr.
  assert (Hk : forall p, keyed (pack_key r d) p = true <-> pack_key r d = Some (xp_key p)).
  { intros p. unfold keyed. destruct (pack_key r d) as [k|]; [|done]. rewrite String.eqb_eq.
    split; [by intros ->|by intros [= ->]]. }
  split.
  - intros H. destruct (choose _) as [p|] eqn:E; [|done]. apply choose_elem, elem_of_rows_where in E as [Hp E].
    apply andb_true_iff in E as [E1 E2]. apply Hk in E1. eauto.
  - intros (p & Hp & E1 & E2) H. apply choose_none in H. eapply elem_of_nil. rewrite <- H.
    apply elem_of_rows_where. split; [exact Hp|]. by rewrite E2, andb_true_r, Hk.
Qed.

Lemma chain_holds_iff key plans d r t :
  the_drill key d = Some r -> completion (dr_state r) = true ->
  (((dr_finished_at r <> None /\ chain_pack key d <> None) /\ correlations_of key plans t d <> []) /\
   (forall c, c ∈ correlations_of key plans t d -> has_plan d (mc_plan c) /\ has_item d (mc_plan c)) /\
   (forall c, c ∈ correlations_of key plans t d -> mc_plan c ∈ [] \/ has_evidence d (mc_plan c)) /\
   (forall f, f ∈ findings (cd_drill d) -> ~ blocking key f) /\ approved_by_other key d
   <-> exists f, chain_holds key plans d r f).
Proof using.
  intros Hr Hc. rewrite (chain_pack_spec key d r Hr). split.
  - intros ([[Hf Hp] Ho] & Hpl & Hev & Hfi & Ha). destruct (dr_finished_at r) as [f|] eqn:Ef; [|done].
    exists f. assert (Hin := fun c => elem_of_correlations key plans t d r f c Hr Ef).
    split; [done|done| | |done|done].
    + destruct (correlations_of _ _ _ _) as [|c l] eqn:E; [done|]. exists c. apply Hin. left.
    + intros c Hc'. apply Hin in Hc'. destruct (Hpl c Hc') as [H1 H2]. split; [done|]. split; [done|].
      destruct (Hev c Hc') as [H|H]; [by apply elem_of_nil in H|done].
  - intros (f & [(_ & _ & Hf) Hp (c & Ho) Hpl Hfi Ha]).
    assert (Hin := fun c => elem_of_correlations key plans t d r f c Hr Hf).
    split; [|split; [|split; [|done]]].
    + split; [split; [by rewrite Hf|done]|]. apply Hin in Ho. intros E. rewrite E in Ho. by apply elem_of_nil in Ho.
    + intros c' Hc'. apply Hin in Hc'. by destruct (Hpl c' Hc') as (? & ? & _).
    + intros c' Hc'. apply Hin in Hc'. right. by destruct (Hpl c' Hc') as (_ & _ & ?).
Qed.

Lemma check_rest_inr key plans ch w ch' w' r :
  the_drill key (store w) = Some r -> completion (dr_state r) = true -> Breaks ch = [] ->
  check_rest key plans ch w = (inr ch', w') ->
  store w' = store w /\ ARRConfigDiff ch' = "unverified" /\ AgentCodeDiff ch' = "unverified" /\
  (Complete ch' = true <-> exists f, chain_holds key plans (store w) r f).
Proof using.
  intros Hr Hc Hb H. unfold check_rest in H.
  apply bind_inr in H as (f & w1 & Hf & H). apply query_row_inr in Hf as (Hf & S1 & _).
  rewrite Hr in Hf. injection Hf as <-.
  apply bind_inr in H as (p & w2 & Hp & H). apply attempt_row in Hp as [S2 Hp].
  apply bind_inr in H as (c1 & w3 & H1 & H). apply bind_inr in H as (t & w4 & Ht & H).
  apply now_inr in Ht as [-> ->]. apply bind_inr in H as (cs & w5 & Hq & H).
  apply query_inr in Hq as (-> & S5 & _). apply bind_inr in H as (c2 & w6 & H2 & H).
  apply check_plans_inr in H2 as [S6 G2]. apply bind_inr in H as (c3 & w7 & H3 & H).
  apply check_evidence_inr in H3 as [S7 G3]. apply bind_inr in H as (c4 & w8 & H4 & H).
  apply check_findings_inr in H4 as [S8 G4]. apply bind_inr in H as (c5 & w9 & H5 & H).
  apply check_audit_inr in H5 as [S9 G5]. apply ret_inr in H as [-> ->].
  assert (G1 : store w3 = store w2 /\
               grows (dr_finished_at r <> None /\ chain_pack key (store w) <> None) ch c1).
  { rewrite S1 in Hp. set (ca := match dr_finished_at r with None => _ | Some _ => _ end) in *.
    assert (Ga : grows (dr_finished_at r <> None) ch ca)
      by (unfold ca; destruct (dr_finished_at r); [by apply grows_refl|apply grows_break; naive_solver]).
    destruct p as [e|p].
    - destruct (is_no_rows e); [|discriminate]. apply ret_inr in H1 as [-> ->]. split; [done|].
      eapply grows_trans; [exact Ga|]. apply grows_break. rewrite Hp; naive_solver.
    - apply ret_inr in H1 as [-> ->]. split; [done|]. eapply grows_trans; [exact Ga|].
      apply grows_link_r, grows_refl. by rewrite Hp. }
  destruct G1 as [S3 G1].
  rewrite S9, S8, S7, S6, S5, S3, S2, S1 in *. split; [done|]. split; [done|]. split; [done|].
  rewrite <- (chain_holds_iff key plans (store w) r (clock w3) Hr Hc).
  assert (G : grows (correlations_of key plans (clock w3) (store w) <> []) c1
    (match correlations_of key plans (clock w3) (store w) with [] => add_break BNoCorrelation c1 | _ => c1 end)).
  { destruct (correlations_of _ _ _ _); [apply grows_break|apply grows_refl]; naive_solver. }
  destruct (grows_trans _ _ _ _ _ (grows_trans _ _ _ _ _ G1 G)
             (grows_trans _ _ _ _ _ G2 (grows_trans _ _ _ _ _ G3 (grows_trans _ _ _ _ _ G4 G5)))) as (bs & E & Hbs).
  rewrite <- Hbs. cbn [conclude Complete]. rewrite E, Hb. by destruct bs.
Qed.
End Runs.

(** ** Properties *)

Module ChainProps.
Import Matrix Checker.

Section Answers.
Context `{RC : RowChoice}.
(** With a database that answers, a run returns and leaves it as it was. *)
Definition answers {A} (m : M ChainDb A) : Prop :=
  forall d t, exists a, m (MkWorld d [] t) = (inr a, MkWorld d [] t).
Lemma answers_ret {A} (a : A) : answers (ret a).
Proof using. intros d t. by exists a. Qed.
Lemma answers_bind {A B} (m : M ChainDb A) (k : A -> M ChainDb B) :
  answers m -> (forall a, answers (k a)) -> answers (bind m k).
Proof using. intros Hm Hk d t. destruct (Hm d t) as [a E]. unfold bind. rewrite E. apply Hk. Qed.
Lemma answers_query {A} (f : ChainDb -> A) : answers (query f).
Proof using. intros d t. eexists. apply query_ok. Qed.
(** QueryRow whose ErrNoRows is handled, or whose row is there. *)
Lemma attempt_row_ok {A} (f : ChainDb -> option A) d t :
  attempt (query_row f) (MkWorld d [] t) =
  (inr (match f d with Some a => inr a | None => inl (ESql NoRows) end), MkWorld d [] t).
Proof using. unfold attempt. rewrite query_row_ok. by destruct (f d). Qed.
Lemma answers_plans cs ch : answers (check_plans cs ch).
Proof using.
  revert ch. induction cs as [|c cs IH]; intros ch d t; [by eexists|]. cbn [check_plans].
  unfold bind. rewrite attempt_row_ok. destruct (plan_row _ _) as [[s n]|]; apply IH.
Qed.
Lemma answers_evidence seen cs ch : answers (check_evidence seen cs ch).
Proof using.
  revert seen ch. induction cs as [|c cs IH]; intros seen ch; [apply answers_ret|]. cbn [check_evidence].
  destruct (str_mem _ _); [apply IH|]. apply answers_bind; [apply answers_query|intros; apply IH].
Qed.
Lemma answers_findings key ch : answers (check_findings key ch).
Proof using.
  apply answers_bind; [apply answers_query|intros n].
  destruct (0 <? n.1); [apply answers_bind; [apply answers_query|intros]|]; apply answers_ret.
Qed.
Lemma audit_ok key ch d t r :
  the_drill key d = Some r -> exists a, check_audit key ch (MkWorld d [] t) = (inr a, MkWorld d [] t).
Proof using.
  intros Hr. unfold check_audit, bind at 1. rewrite query_ok. destruct (_ =? 0); [by eexists|].
  unfold bind at 1. rewrite query_row_ok, Hr. unfold bind at 1.
  destruct (_ || _); [by eexists|]. unfold bind at 1. rewrite query_ok. by eexists.
Qed.
Lemma rest_ok key plans ch d t r :
  the_drill key d = Some r -> exists a, check_rest key plans ch (MkWorld d [] t) = (inr a, MkWorld d [] t).
Proof using.
  intros Hr. unfold check_rest, bind at 1. rewrite query_row_ok, Hr. cbn [option_map].
  unfold bind at 1. rewrite attempt_row_ok. unfold bind at 1.
  set (m := match chain_pack key d with Some _ => _ | None => _ end).
  assert (Hm : exists c, (match m with
    | inr p => ret (add_link (LPack (xp_key p) (xp_state p))
                 (match dr_finished_at r with None => add_break BUnfinished ch | Some _ => ch end))
    | inl e => if is_no_rows e then ret (add_break BNoPack
                 (match dr_finished_at r with None => add_break BUnfinished ch | Some _ => ch end)) else throw e
    end) (MkWorld d [] t) = (inr c, MkWorld d [] t)) by (unfold m; destruct (chain_pack _ _); by eexists).
  destruct Hm as [c ->]. unfold bind at 1. cbn [now fst snd]. unfold bind at 1. rewrite query_ok.
  unfold bind at 1. destruct (answers_plans (correlations_of key plans t d)
    (match correlations_of key plans t d with [] => add_break BNoCorrelation c | _ => c end) d t) as [c2 E2].
  cbn [clock]. rewrite E2. unfold bind at 1.
  destruct (answers_evidence [] (correlations_of key plans t d) c2 d t) as [c3 ->]. unfold bind at 1.
  destruct (answers_findings key c3 d t) as [c4 ->]. unfold bind at 1.
  destruct (audit_ok key c4 d t r Hr) as [c5 ->]. by eexists.
Qed.

Lemma verify_inr key plans w ch e w' :
  VerifyDrillChainScoped key plans w = (inr (ch, e), w') ->
  match e with
  | Some _ => forall r, the_drill key (store w) = Some r -> completion (dr_state r) = false
  | None => ARRConfigDiff ch = "unverified" /\ AgentCodeDiff ch = "unverified" /\
            (Complete ch = true <-> exists r f, chain_holds key plans (store w) r f)
  end.
Proof using.
  intros H. unfold VerifyDrillChainScoped in H. apply bind_inr in H as (t & w1 & Ht & H).
  apply now_inr in Ht as [-> ->]. apply bind_inr in H as (r & w2 & Hr & H).
  apply attempt_row in Hr as [Hs Hr]. destruct r as [x|r].
  - destruct (is_no_rows x); [|discriminate]. injection H as _ <- _. intros r. by rewrite Hr.
  - destruct (completion (dr_state r)) eqn:Ec; cbn [negb] in H.
    + apply bind_inr in H as (c & w3 & Hc & H). injection H as <- <- _. rewrite <- Hs in Hr.
      eapply check_rest_inr in Hc as (_ & Ha & Hb & Hc); [|exact Hr|done|done]. rewrite Hs in *.
      split; [done|]. split; [done|]. rewrite Hc. split; [intros (f & Hf); by exists r, f|].
      intros (r' & f & Hf). exists f. by destruct (ch_drill _ _ _ _ _ Hf) as [E _]; rewrite Hr in E; injection E as <-.
    + injection H as _ <- _. intros r'. rewrite Hr. by intros [= <-].
Qed.
End Answers.

(** C23.  The checker is exact.  Whatever statements fail, a chain it returns
    without an error is complete if and only if the tables hold the evidence:
    the drill completed with a finish time, a usable exit pack it points to, a
    correlation attributed to it in its window, every such correlation with a
    plan, plan items and evidence records, no open HIGH or CRITICAL finding,
    and an approval in the trail by the recorded approver, who is not the
    initiator.  A database that answers gets a chain. *)
Theorem verify_exact `{RC : RowChoice} key plans :
  (forall w ch w', VerifyDrillChainScoped key plans w = (inr (ch, None), w') ->
     (Complete ch = true <-> exists r f, chain_holds key plans (store w) r f)) /\
  (forall w ch e w', VerifyDrillChainScoped key plans w = (inr (ch, Some e), w') ->
     forall r f, ~ chain_holds key plans (store w) r f) /\
  (forall d t, exists x, VerifyDrillChainScoped key plans (MkWorld d [] t) = (inr x, MkWorld d [] t)).
Proof.
  split; [|split].
  - intros w ch w' H. by apply verify_inr in H as (_ & _ & H).
  - intros w ch e w' H r f [(Hr & Hc & _)]. apply verify_inr in H. apply H in Hr. congruence.
  - intros d t. unfold VerifyDrillChainScoped, bind at 1. cbn [now]. unfold bind at 1. cbn [clock].
    rewrite attempt_row_ok. destruct (the_drill key d) as [r|] eqn:Hr; [|by eexists].
    destruct (negb (completion (dr_state r))); [by eexists|]. unfold bind at 1.
    edestruct (rest_ok key plans) as [c ->]; [exact Hr|]. by eexists.
Qed.

Lemma main_go `{RC : RowChoice} fl w w' :
  main fl w = (inr 0, w') ->
  (exists r f, chain_holds (FlagDrill fl) (plan_list (FlagPlan fl)) (store w) r f) /\
  ArrZero fl = true /\ AgentZero fl = true.
Proof.
  intros H. unfold main in H. destruct (_ || _); [discriminate|].
  apply bind_inr in H as (r & w1 & Hr & H). apply attempt_inr in Hr.
  destruct r as [e|[ch [e|]]]; [discriminate..|].
  apply verify_inr in Hr as (Ea & Eb & Hc). injection H as H _.
  destruct ((GoNoGo _).1 =s "GO") eqn:E; [clear H|discriminate]. rewrite <- Hc. revert E.
  unfold MarkAgentZeroChange, MarkARRZeroChange, GoNoGo.
  destruct (ArrZero fl), (AgentZero fl), (Complete ch) eqn:Ec;
    cbn [Complete ARRConfigDiff AgentCodeDiff]; rewrite ?Ec, ?Ea, ?Eb; cbn; done.
Qed.

(** C5.  What an exit status 0 of exit-chain-verify says of a database the
    drills and exit packs reach by their operations, for any drill key: both
    zero-change flags were given; the drill ended, its audit rows are a path of
    the legal matrix from DRAFT to its state and contain an approval by its
    approver, who is not its initiator; it has no open HIGH or CRITICAL
    finding; the exit pack it points to is complete, and its stored manifest is
    the export of its content and verifies against its digest; at least one
    correlation is attributed to it, and each attributed one has a plan with
    items and evidence. *)
Theorem go_means `{RC : RowChoice, JS : Jsonb, PT : PackStore.PgTime} float_text fl w w' :
  main fl w = (inr 0, w') ->
  drills_ok (cd_drill (store w)) -> table_ok float_text (cd_packs (store w)) ->
  ArrZero fl = true /\ AgentZero fl = true /\
  exists r f p m g,
    r ∈ drills (cd_drill (store w)) /\ dr_key r = FlagDrill fl /\ dr_finished_at r = Some f /\
    follow StateDraft (trail (dr_key r) (cd_drill (store w))) = Some (dr_state r) /\
    (exists x, x ∈ transitions (cd_drill (store w)) /\ tr_drill x = dr_key r /\
       tr_to x = StateApproved /\ tr_actor x = dr_approver r) /\ dr_approver r <> dr_initiator r /\
    (forall y, y ∈ findings (cd_drill (store w)) -> ~ blocking (dr_key r) y) /\
    p ∈ cd_packs (store w) /\ pack_key r (store w) = Some (xp_key p) /\
    Pack.ValidateCompleteness (PackStore.scanPack float_text p) = inr tt /\
    xp_manifest p = Some m /\ xp_digest p = Some g /\
    m = (Pack.BuildExport (PackStore.scanPack float_text p)).1 /\ Pack.VerifyExport m g = inr tt /\
    (exists c, attributed_to r (plan_list (FlagPlan fl)) (store w) f c) /\
    forall c, attributed_to r (plan_list (FlagPlan fl)) (store w) f c ->
      has_plan (store w) (mc_plan c) /\ has_item (store w) (mc_plan c) /\ has_evidence (store w) (mc_plan c).
Proof.
  intros Hm Hd Hp. apply main_go in Hm as ((r & f & [(Hr & Hc & Hf) (p & Hpin & Hpk & Hu) Ho Hpl Hfi Ha]) & H1 & H2).
  split; [done|]. split; [done|]. destruct Ha as (r' & x & Hr' & _ & Hne & Hx & Hxk & Hxt & Hxa).
  rewrite Hr in Hr'. injection Hr' as <-. apply first_where_some in Hr as [Hin Hk]. apply String.eqb_eq in Hk.
  assert (Hv : verified (xp_state p) = true) by (destruct (xp_state p); done).
  destruct (ok_sealed _ _ Hp p Hpin Hv) as (Hcomp & Hman & Hdig & _).
  exists r, f, p. eexists _, _. rewrite Hk. split; [done|]. split; [done|]. split; [done|].
  split; [rewrite <- Hk; by apply (tk_trail _ (dk_trails _ Hd))|].
  split; [by exists x|]. split; [done|]. split; [done|]. split; [done|]. split; [done|].
  split; [done|]. split; [exact Hman|]. split; [exact Hdig|]. split; [done|]. split; [|done].
  unfold Pack.VerifyExport, Pack.BuildExport. cbn [fst snd]. by rewrite str_eqb_refl.
Qed.

(** A named plan without a correlation changes no verdict. *)
Lemma named_plan_holds `{RC : RowChoice} key p l d r f :
  (forall c, c ∈ cd_corr d -> mc_plan c <> p) ->
  (chain_holds key (Some (p :: l)) d r f <-> chain_holds key (Some l) d r f).
Proof.
  intros Hn.
  assert (Ha : forall c, attributed_to r (Some (p :: l)) d f c <-> attributed_to r (Some l) d f c).
  { intros c. unfold attributed_to. rewrite elem_of_cons. split.
    - intros (Hc & Hw & [Hp|Hp]); [by destruct (Hn c Hc)|done].
    - intros (Hc & Hw & Hp). auto. }
  split; intros [? ? (c & Hc) Hpl ? ?]; (split; [done|done| | |done|done]).
  - exists c. by apply Ha.
  - intros x Hx. by apply Hpl, Ha.
  - exists c. by apply Ha.
  - intros x Hx. by apply Hpl, Ha.
Qed.
(** Exact attribution does not ask for every named plan: a plan id that no
    correlation names, such as a misspelt one or a plan whose outcomes are
    missing, changes neither the completeness of the chain nor so the
    verdict. *)
Theorem named_plan_unnoticed `{RC : RowChoice} key p l w w2 ch ch' w1 w1' :
  (forall c, c ∈ cd_corr (store w) -> mc_plan c <> p) -> store w2 = store w ->
  VerifyDrillChainScoped key (Some (p :: l)) w = (inr (ch, None), w1) ->
  VerifyDrillChainScoped key (Some l) w2 = (inr (ch', None), w1') ->
  Complete ch = Complete ch'.
Proof.
  intros Hn Hs H1 H2. apply verify_inr in H1 as (_ & _ & H1), H2 as (_ & _ & H2). rewrite Hs in H2.
  apply eq_true_iff_eq. rewrite H1, H2.
  split; intros (r & f & H); exists r, f; by apply (named_plan_holds key p l).
Qed.

(** *** A drill and its evidence *)

Definition cw_new : DrillStore.NewDrill := DrillStore.MkNewDrill "drill-7" "acme" "acme:llm" "alice".
Definition after {A} (m : Dd A) (d : DrillDb) (t : Z) : DrillDb := store (m (MkWorld d [] t)).2.
Definition cw_d1 : DrillDb := Eval vm_compute in after (DrillStore.Create cw_new) empty_drills 10.
Definition cw_d2 : DrillDb := Eval vm_compute in after (DrillStore.Approve "drill-7" "bob") cw_d1 11.
Definition cw_d3 : DrillDb := Eval vm_compute in after (DrillStore.Schedule "drill-7" "bob") cw_d2 12.
Definition cw_d4 : DrillDb := Eval vm_compute in after (DrillStore.Start "drill-7" "w1") cw_d3 13.
Definition cw_d5 : DrillDb :=
  Eval vm_compute in after (DrillStore.Finish "drill-7" StateSucceeded "w1" "ev-7") cw_d4 90.
Lemma cw_step m d t d' : drill_call m -> after m d t = d' -> drill_step d d'.
Proof. intros Hm <-. by exists m, (MkWorld d [] t). Qed.
Lemma cw_drills_ok : drills_ok cw_d5.
Proof.
  assert (Hst : star drill_step empty_drills cw_d5).
  { eapply star_next; [|apply (cw_step (DrillStore.Finish "drill-7" StateSucceeded "w1" "ev-7") cw_d4 90);
                        [constructor|by vm_compute]].
    eapply star_next; [|apply (cw_step (DrillStore.Start "drill-7" "w1") cw_d3 13); [constructor|by vm_compute]].
    eapply star_next; [|apply (cw_step (DrillStore.Schedule "drill-7" "bob") cw_d2 12); [constructor|by vm_compute]].
    eapply star_next; [|apply (cw_step (DrillStore.Approve "drill-7" "bob") cw_d1 11); [constructor|by vm_compute]].
    apply star_one. apply (cw_step (DrillStore.Create cw_new) empty_drills 10); [constructor|by vm_compute]. }
  exact (dl_ok _ _ (drill_star_later _ _ DrillProps.empty_drills_ok Hst)).
Qed.
Definition cw_plan : PlanRow :=
  MkPlanRow "plan-1" "caller" "t1" "task" PlanResolved "f" "g" "key" "" 0 "tr" 40 400.
Definition cw_item : PlanItemRow :=
  MkPlanItemRow "plan-1" "r1" "chat" 1 1 "k" 2 "beta" 3 "c1" "default" [].
Definition cw_corr : CorrRow := MkCorrRow 1 "plan-1" "r1" "mrd-1" "SUCCEEDED" "" "tr" 50.
Definition cw_evidence : EvidenceRow :=
  MkEvidenceRow 1 "e1" "t" "k" "a" 1 "t1" 41 42 "d" (JObj []) "plan-1" "c" None WormPending StateLinked "" 42.
Definition cw_base : Database := with_plan_items [cw_item] (with_plans [cw_plan] empty_db).
Definition cw_db : ChainDb :=
  MkChainDb cw_d5 (MkXpDb (xpacks ExitPackProps.active) (MkEvDb cw_base [cw_evidence] [] 2)) [cw_corr].
Definition cw_flags : Flags := MkFlags "dsn" "drill-7" " plan-1," true true.


Section Witness.
#[local] Existing Instance ExitPackProps.plain_jsonb.
#[local] Existing Instance ExitPackProps.plain_time.

Lemma cw_goes : main cw_flags (MkWorld cw_db [] 100) = (inr 0, MkWorld cw_db [] 100).
Proof. vm_compute. reflexivity. Qed.
Lemma cw_packs_ok : table_ok ExitPackProps.same_text (cd_packs cw_db).
Proof.
  exact (proj1 (proj1 (star_xp ExitPackProps.same_text _ _ ExitPackProps.to_active ExitPackProps.db0_ok))).
Qed.

Lemma go_means_witness :
  exists r p, dr_key r = "drill-7" /\ p ∈ cd_packs cw_db /\
    Pack.ValidateCompleteness (PackStore.scanPack ExitPackProps.same_text p) = inr tt.
Proof.
  destruct (go_means ExitPackProps.same_text cw_flags _ _ cw_goes cw_drills_ok cw_packs_ok)
    as (_ & _ & r & f & p & m & g & _ & Hk & _ & _ & _ & _ & _ & Hp & _ & Hc & _).
  by exists r, p.
Defined.

Definition cw_chain (plans : list string) : Chain :=
  match (VerifyDrillChainScoped "drill-7" (Some plans) (MkWorld cw_db [] 100)).1 with
  | inr (ch, _) => ch
  | inl _ => new_chain "" None 0
  end.
Lemma verify_exact_witness :
  Complete (cw_chain ["plan-1"]) = true /\ exists r f, chain_holds "drill-7" (Some ["plan-1"]) cw_db r f.
Proof.
  assert (H : Complete (cw_chain ["plan-1"]) = true) by (vm_compute; reflexivity).
  split; [exact H|].
  refine (proj1 (proj1 (verify_exact "drill-7" (Some ["plan-1"])) (MkWorld cw_db [] 100) (cw_chain ["plan-1"])
                   (MkWorld cw_db [] 100) _) H).
  vm_compute. reflexivity.
Defined.
Lemma named_plan_unnoticed_witness :
  Complete (cw_chain ["plan-2"; "plan-1"]) = Complete (cw_chain ["plan-1"]).
Proof.
  apply (named_plan_unnoticed "drill-7" "plan-2" ["plan-1"] (MkWorld cw_db [] 100) (MkWorld cw_db [] 100)
           (cw_chain ["plan-2"; "plan-1"]) (cw_chain ["plan-1"]) (MkWorld cw_db [] 100) (MkWorld cw_db [] 100)).
  - intros c Hc. apply list_elem_of_singleton in Hc as ->. discriminate.
  - reflexivity.
  - vm_compute. reflexivity.
  - vm_compute. reflexivity.
Defined.
End Witness.

(** A drill that FAILED also gets a GO, once its findings are resolved: it
    passes through REMEDIATION_OPEN, a completion state. *)
Definition cf_d5 : DrillDb :=
  Eval vm_compute in after (DrillStore.Finish "drill-7" StateFailed "w1" "ev-7") cw_d4 90.
Definition cf_d6 : DrillDb :=
  Eval vm_compute in after (DrillStore.AddFinding "drill-7" "f1" "rollback failed" "CRITICAL" "bob") cf_d5 91.
Definition cf_d7 : DrillDb :=
  Eval vm_compute in after (DrillStore.ResolveFinding "drill-7" "f1" "noted" "ev-8") cf_d6 92.
Definition cf_db : ChainDb := MkChainDb cf_d7 (cd_xp cw_db) [cw_corr].
Theorem failed_drill_goes :
  star drill_step cw_d4 cf_d7 /\
  (exists x, x ∈ transitions cf_d7 /\ tr_to x = StateFailed) /\
  (main cw_flags (MkWorld cf_db [] 100)).1 = inr 0.
Proof.
  split; [|split; [|vm_compute; reflexivity]].
  - eapply star_next; [|apply (cw_step (DrillStore.ResolveFinding "drill-7" "f1" "noted" "ev-8") cf_d6 92);
                        [constructor|by vm_compute]].
    eapply star_next; [|apply (cw_step (DrillStore.AddFinding "drill-7" "f1" "rollback failed" "CRITICAL" "bob") cf_d5 91);
                        [constructor|by vm_compute]].
    apply star_one. apply (cw_step (DrillStore.Finish "drill-7" StateFailed "w1" "ev-7") cw_d4 90);
      [constructor|by vm_compute].
  - exists (MkTransRow 4 "drill-7" StateRunning StateFailed "w1" 90). split; [|done].
    apply list_elem_of_In. vm_compute. tauto.
Qed.
End ChainProps.
