(* ===== verification/Metrics.v ===== *)
(** * Sovereignty metrics and the risk ledger (src/internal/metrics)

    [Extract] reads the dataset and fingerprints it, [Formula] computes the
    metrics of formula v1, [Ledger] stores results and alerts (migration
    00010) and answers the queries.  Values are binary64 floats, sums wrap at 64
    bits, a Go map is the list of its entries in key order ([None] is a nil
    map) and each range over one takes an order of its own ([MapOrder]).
    Parameters: the collation of text and the order of jsonb in ORDER BY, the
    printable runes of [%q], the text of a float in JSON, goose's migration
    table.  The theorems: neither row order nor map order matters to a
    computation; the revision is determined by the rows and determines them
    up to a collision of the hash; when the coverage alert is raised; what a
    persisted batch leaves, and that a recomputation changes only
    timestamps. *)

From S2P Require Import Prelude GoStd GoJson GoQuote GoFloat GoTime Sql Schema.

(** ** Data *)

Record DimRow : Type := MkDimRow {
  Capability : string;
  Provider : string;
  Vendor : string;
  Environment : string;
  Tenant : string;
  ActiveBindings : Z;
  BindingsWithSubstitute : Z;
  BindingIssues : Z;
  UnknownVendor : bool;
  DupProviderRows : Z;
}.
Record Dataset : Type := MkDataset { Revision : Z; Rows : list DimRow }.

Definition Dims : Type := option (list (string * string)).
Record MetricResult : Type := MkMetricResult {
  MetricKey : string;
  Dimensions : Dims;
  Value : option Float64.t;
  Status : string;
  StatusReason : string;
  DatasetRevision : Z;
  FormulaVersion : string;
  EvidenceRef : string;
}.
(** saoaf.metric_result and saoaf.risk_alert *)
Record MetricRow : Type := MkMetricRow { mr_id : Z; mr_result : MetricResult; mr_at : Z }.
Record AlertRow : Type := MkAlertRow {
  ra_id : Z;
  ra_rule : string;
  ra_kind : string;
  ra_entity : string;
  ra_revision : Z;
  ra_severity : string;
  ra_detail : json;
  ra_state : string;
  ra_first : Z;
  ra_last : Z;
}.
Record MetricsDb : Type := MkMetricsDb {
  xbase : Database;
  migration_version : Z; (* MAX(version_id) of goose_db_version, 0 without rows *)
  results : list MetricRow;
  alerts : list AlertRow;
  mx_next : Z;
}.
Definition with_results (v : list MetricRow) (n : Z) (d : MetricsDb) : MetricsDb :=
  MkMetricsDb (xbase d) (migration_version d) v (alerts d) n.
Definition with_alerts (v : list AlertRow) (n : Z) (d : MetricsDb) : MetricsDb :=
  MkMetricsDb (xbase d) (migration_version d) (results d) v n.

Definition KeySubstitutionCoverage : string := "substitution_coverage".
Definition KeyVendorConcentration : string := "vendor_concentration".
Definition KeyProtocolCompat : string := "protocol_compatibility".
Definition StatusOK : string := "OK".
Definition StatusNotApplicable : string := "NOT_APPLICABLE".
Definition StatusUnknown : string := "UNKNOWN".
Definition StatusInsufficientData : string := "INSUFFICIENT_DATA".
Definition SeverityLow : string := "LOW".
Definition SeverityMedium : string := "MEDIUM".
Definition SeverityHigh : string := "HIGH".
Definition FormulaV1 : string := "v1".

(** ** The dataset *)

Module Extract.
Section Extract.
Context (text_compare : string -> string -> comparison) (is_print : chars -> bool).

Definition live (t : Z) (cb : BindingRow) (ps : SnapshotRow) : bool :=
  (cb_state cb =d BindPublished) && cb_is_active cb &&
  (ps_state ps =d RegPublished) && (t <? ps_valid_until ps).
(** EXISTS a live binding of the capability to another provider. *)
Definition has_substitute (d : Database) (cb : BindingRow) : bool :=
  (cb_state cb =d BindPublished) && cb_is_active cb &&
  any_where (fun cb2 => (cb_capability_id cb2 =? cb_capability_id cb) && (cb_state cb2 =d BindPublished) &&
               cb_is_active cb2 && negb (cb_provider_id cb2 =? cb_provider_id cb)) (bindings d).
Definition one_if (b : bool) : Z := if b then 1 else 0.
Definition dim_row (t : Z) (d : Database) (cd : CapabilityRow) (cb : BindingRow) (rp : ProviderRow)
    (ps : SnapshotRow) : DimRow :=
  MkDimRow (ca_key cd) (rp_key rp) (rp_owner rp) (cb_environment cb) (cb_tenant_ref cb)
    (one_if (live t cb ps)) (one_if (has_substitute d cb)) (one_if (negb (live t cb ps)))
    (rp_owner rp =s "") 0.
(** The joined rows, with the revision the order uses. *)
Definition joined (t : Z) (d : Database) : list (DimRow * Z) :=
  flat_map (fun cb =>
    match first_where (fun cd => ca_id cd =? cb_capability_id cb) (capabilities d),
          first_where (fun rp => rp_id rp =? cb_provider_id cb) (providers d),
          first_where (fun ps => ps_id ps =? cb_snapshot_id cb) (snapshots d) with
    | Some cd, Some rp, Some ps => [(dim_row t d cd cb rp ps, cb_revision cb)]
    | _, _, _ => []
    end) (bindings d).
Definition then_by (c d : comparison) : comparison := match c with Eq => d | _ => c end.
Definition by_key (a b : DimRow * Z) : comparison :=
  then_by (text_compare (Capability a.1) (Capability b.1))
    (then_by (text_compare (Provider a.1) (Provider b.1))
       (then_by (text_compare (Environment a.1) (Environment b.1)) (a.2 ?= b.2))).
Definition key_le (a b : DimRow * Z) : Prop := by_key a b <> Gt.
#[local] Instance key_le_dec a b : Decision (key_le a b).
Proof using. unfold key_le. apply _. Defined.
Definition extracted (t : Z) (d : Database) : list DimRow := map fst (merge_sort key_le (joined t d)).

(** The loop that marks duplicate providers. *)
Definition same_pair (a b : DimRow) : bool := (Capability a =s Capability b) && (Provider a =s Provider b).
Definition set_dup (n : Z) (r : DimRow) : DimRow :=
  MkDimRow (Capability r) (Provider r) (Vendor r) (Environment r) (Tenant r) (ActiveBindings r)
    (BindingsWithSubstitute r) (BindingIssues r) (UnknownVendor r) n.
Definition mark_duplicates (rows : list DimRow) : list DimRow :=
  map (fun r => let n := count_where (same_pair r) rows in if 1 <? n then set_dup (n - 1) r else r) rows.

(** [fmt.Sprintf("%q,%q,%q,%q,%q,%d,%d,%d,%d,%v", ...)] *)
Definition row_text (r : DimRow) : string :=
  let q := GoQuote.quote is_print in
  q (Capability r) +:+ "," +:+ q (Provider r) +:+ "," +:+ q (Vendor r) +:+ "," +:+
  q (Environment r) +:+ "," +:+ q (Tenant r) +:+ "," +:+ dec (ActiveBindings r) +:+ "," +:+
  dec (BindingsWithSubstitute r) +:+ "," +:+ dec (BindingIssues r) +:+ "," +:+
  dec (DupProviderRows r) +:+ "," +:+ (if UnknownVendor r then "true" else "false").
(** What the hash is fed. *)
Definition preimage (mv : Z) (rows : list DimRow) : string :=
  "mv=" +:+ dec mv +:+ ";" +:+ String.concat "" (map (fun s => s +:+ ";") (sort_strings (map row_text rows))).
(** [binary.BigEndian.Uint64(sum[:8]) &^ (1 << 63)] *)
Definition contentRevision (mv : Z) (rows : list DimRow) : Z :=
  let sum := Sha256.sum256 (bytes_val (preimage mv rows)) in
  Z.ldiff (Z.lor (Z.shiftl (Sha256.ra sum) 32) (Sha256.rb sum)) (Z.shiftl 1 63).

Definition ExtractDataset : M MetricsDb Dataset :=
  let! t := now in
  let! rows := query (fun d => mark_duplicates (extracted t (xbase d))) in
  let! mv := query migration_version in
  ret (MkDataset (contentRevision mv rows) rows).
End Extract.
End Extract.

(** ** Formula v1 *)

(** The order of the n-th range over a map. *)
Class MapOrder := {
  order : nat -> list string -> list string;
  order_perm : forall n l, order n l ≡ₚ l;
}.
#[export] Instance key_order : MapOrder.
Proof. by refine {| order n l := l |}. Defined.

Module Formula.
Section Formula.
Context `{MO : MapOrder}.

(** A loop that adds to an int. *)
Definition sum64 (f : DimRow -> Z) (rows : list DimRow) : Z :=
  fold_left (fun acc r => Int64.wrap (acc + f r)) rows 0.
Definition mr (key : string) (dims : list (string * string)) (value : option Float64.t)
    (status reason : string) (rev : Z) (formula : string) : MetricResult :=
  MkMetricResult key (Some dims) value status reason rev formula
    ("dataset:" +:+ dec rev +:+ "@" +:+ formula).
(** The keys of a map filled from the rows. *)
Definition distinct (l : list string) : list string := remove_dups l.
Definition rows_of (cap : string) (rows : list DimRow) : list DimRow :=
  rows_where (fun r => Capability r =s cap) rows.
(** byCap, without the empty key. *)
Definition byCap (rows : list DimRow) : list string :=
  List.filter (fun k => negb (k =s "")) (distinct (map Capability rows)).

Definition substitution (rev : Z) (rows : list DimRow) (cap : string) : MetricResult :=
  let total := sum64 ActiveBindings (rows_of cap rows) in
  let withSub := sum64 BindingsWithSubstitute (rows_of cap rows) in
  let dims := [("capability", cap)] in
  if total =? 0
  then mr KeySubstitutionCoverage dims None StatusNotApplicable
         "no live bindings for capability (empty denominator)" rev FormulaV1
  else mr KeySubstitutionCoverage dims (Some (Float64.quotient withSub total)) StatusOK "" rev FormulaV1.

Definition known (r : DimRow) : bool := negb (UnknownVendor r).
Definition vendor_bindings (rows : list DimRow) (v : string) : Z :=
  sum64 ActiveBindings (rows_where (fun r => known r && (Vendor r =s v)) rows).
Definition top_vendor (rows : list DimRow) : Z :=
  fold_left (fun top v => if top <? vendor_bindings rows v then vendor_bindings rows v else top)
    (order 1 (distinct (map Vendor (rows_where known rows)))) 0.
Definition concentration (rev : Z) (rows : list DimRow) : MetricResult :=
  let bindings := sum64 ActiveBindings rows in
  let dup := sum64 DupProviderRows rows in
  let unknown := count_where UnknownVendor rows in
  if bindings =? 0
  then mr KeyVendorConcentration [] None StatusNotApplicable "no live bindings (empty denominator)" rev FormulaV1
  else if 0 <? unknown
  then mr KeyVendorConcentration [] None StatusUnknown (dec unknown +:+ " rows have unresolvable vendors") rev FormulaV1
  else mr KeyVendorConcentration [] (Some (Float64.quotient (top_vendor rows) bindings)) StatusOK
         (if 0 <? dup then "duplicate provider rows: " +:+ dec dup else "") rev FormulaV1.

Definition compatibility (rev : Z) (rows : list DimRow) (cap : string) : MetricResult :=
  let live := sum64 (fun r => Int64.wrap (ActiveBindings r + BindingIssues r)) (rows_of cap rows) in
  let healthy := sum64 ActiveBindings (rows_of cap rows) in
  let dims := [("capability", cap)] in
  if live =? 0
  then mr KeyProtocolCompat dims None StatusNotApplicable
         "no bindings for capability (empty denominator)" rev FormulaV1
  else if healthy =? 0
  then mr KeyProtocolCompat dims None StatusInsufficientData
         "all bindings inactive/expired snapshots" rev FormulaV1
  else mr KeyProtocolCompat dims (Some (Float64.quotient healthy live)) StatusOK "" rev FormulaV1.

Definition mustDims (m : Dims) : string :=
  GoString.join "," (map (fun kv => kv.1 +:+ "=" +:+ kv.2) (default [] m)).
Definition result_le (a b : MetricResult) : Prop :=
  if MetricKey a =s MetricKey b then String.le (mustDims (Dimensions a)) (mustDims (Dimensions b))
  else String.le (MetricKey a) (MetricKey b).
#[export] Instance result_le_dec a b : Decision (result_le a b).
Proof using. unfold result_le. destruct (MetricKey a =s MetricKey b); apply _. Defined.
Definition sortResults (l : list MetricResult) : list MetricResult := merge_sort result_le l.

Definition computed (d : Dataset) : list MetricResult :=
  map (substitution (Revision d) (Rows d)) (order 0 (byCap (Rows d))) ++
  [concentration (Revision d) (Rows d)] ++
  map (compatibility (Revision d) (Rows d)) (order 2 (byCap (Rows d))).
Definition ComputeV1 (d : Dataset) : list MetricResult := sortResults (computed d).
End Formula.
End Formula.

(** ** Results and alerts *)

Module Ledger.
Section Ledger.
Context (text_compare : string -> string -> comparison) (dims_compare : Dims -> Dims -> comparison).
Context (float_text : Float64.t -> string).

Definition same_key (a b : MetricResult) : bool :=
  (MetricKey a =s MetricKey b) && (Dimensions a =d Dimensions b) &&
  (DatasetRevision a =? DatasetRevision b) && (FormulaVersion a =s FormulaVersion b).
Definition statuses : list string := [StatusOK; StatusNotApplicable; StatusUnknown; StatusInsufficientData].
(** INSERT ... ON CONFLICT DO UPDATE *)
Definition upsert_result (r : MetricResult) (t : Z) : M MetricsDb unit :=
  insert_row (fun d =>
    if negb (str_mem (Status r) statuses) then inl CheckViolation
    else if any_where (fun x => same_key r (mr_result x)) (results d)
    then inr (with_results (update_where (fun x => same_key r (mr_result x))
                              (fun x => MkMetricRow (mr_id x) r t) (results d)) (mx_next d) d)
    else inr (with_results (results d ++ [MkMetricRow (mx_next d) r t]) (mx_next d + 1) d)).

Definition is_alert (rule kind entity : string) (rev : Z) (a : AlertRow) : bool :=
  (ra_rule a =s rule) && (ra_kind a =s kind) && (ra_entity a =s entity) && (ra_revision a =? rev).
Definition set_last (t : Z) (a : AlertRow) : AlertRow :=
  MkAlertRow (ra_id a) (ra_rule a) (ra_kind a) (ra_entity a) (ra_revision a) (ra_severity a)
    (ra_detail a) (ra_state a) (ra_first a) t.
Definition upsertAlert (rule kind entity : string) (rev : Z) (severity : string) (detail : json) (t : Z) :
    M MetricsDb unit :=
  if entity =s "" then ret tt
  else insert_row (fun d =>
    if any_where (is_alert rule kind entity rev) (alerts d)
    then inr (with_alerts (update_where (is_alert rule kind entity rev) (set_last t) (alerts d)) (mx_next d) d)
    else inr (with_alerts (alerts d ++
                [MkAlertRow (mx_next d) rule kind entity rev severity detail "OPEN" t t]) (mx_next d + 1) d)).

Definition dim (m : Dims) (k : string) : string :=
  match List.find (fun kv => kv.1 =s k) (default [] m) with Some kv => kv.2 | None => "" end.
(** A float that json.Marshal accepts. *)
Definition finite (v : Float64.t) : bool :=
  match v with SpecFloat.S754_nan | SpecFloat.S754_infinity _ => false | _ => true end.
(** The value of a coverage below the floor. *)
Definition below_floor (r : MetricResult) : option Float64.t :=
  match Value r with
  | Some v => if (MetricKey r =s KeySubstitutionCoverage) && (Status r =s StatusOK) && Float64.lt v Float64.half
              then Some v else None
  | None => None
  end.
Definition deriveAlertsV1 (r : MetricResult) (t : Z) : M MetricsDb unit :=
  match below_floor r with
  | Some v =>
      if dim (Dimensions r) "capability" =s "" then ret tt
      else guard (negb (finite v)) plain_error ;!
           upsertAlert "substitution_coverage_below_floor.v1" "capability" (dim (Dimensions r) "capability")
             (DatasetRevision r) SeverityMedium
             (JObj [("floor", JNum "0.5"); ("coverage", JNum (float_text v))]) t
  | None =>
      if (MetricKey r =s KeyVendorConcentration) && (Status r =s StatusUnknown)
      then upsertAlert "unknown_vendor_present.v1" "environment" "*" (DatasetRevision r) SeverityHigh
             (JObj [("reason", JStr (StatusReason r))]) t
      else if (MetricKey r =s KeyProtocolCompat) && (Status r =s StatusInsufficientData)
      then upsertAlert "binding_health_insufficient.v1" "environment" "*" (DatasetRevision r) SeverityLow
             (JObj [("reason", JStr (StatusReason r))]) t
      else ret tt
  end.
Fixpoint persist_all (rs : list MetricResult) : M MetricsDb unit :=
  match rs with
  | [] => ret tt
  | r :: rest =>
      let! t := now in
      upsert_result r t ;!
      deriveAlertsV1 r t ;!
      persist_all rest
  end.
Definition PersistResults (rs : list MetricResult) : M MetricsDb unit :=
  tx (persist_all rs ;! ret (Commit tt)).

(** *** Queries *)

(** [dimensions @> filter] for the objects the rows hold. *)
Definition contains (row filter : Dims) : bool :=
  match default [] filter with
  | [] => true
  | kvs => match row with
           | Some entries => forallb (fun kv => existsb (fun e => (e.1 =s kv.1) && (e.2 =s kv.2)) entries) kvs
           | None => false
           end
  end.
Definition by_metric (a b : MetricRow) : comparison :=
  Extract.then_by (text_compare (MetricKey (mr_result a)) (MetricKey (mr_result b)))
    (Extract.then_by (dims_compare (Dimensions (mr_result a)) (Dimensions (mr_result b)))
       (mr_at b ?= mr_at a)).
Definition metric_le (a b : MetricRow) : Prop := by_metric a b <> Gt.
#[local] Instance metric_le_dec a b : Decision (metric_le a b).
Proof using. unfold metric_le. apply _. Defined.
(** DISTINCT ON (metric_key, dimensions): the first row of each group. *)
Fixpoint distinct_on (seen : list (string * Dims)) (l : list MetricRow) : list MetricRow :=
  match l with
  | [] => []
  | r :: rest =>
      let k := (MetricKey (mr_result r), Dimensions (mr_result r)) in
      if bool_decide (k ∈ seen) then distinct_on seen rest else r :: distinct_on (k :: seen) rest
  end.
(** A zero time is [None]. *)
Definition latest_rows (formula metric : string) (filter : Dims) (since until_ : option Z) (t : Z)
    (d : MetricsDb) : list MetricRow :=
  let until_ := default (t + 24 * GoTime.Hour) until_ in
  rows_where (fun r =>
    (FormulaVersion (mr_result r) =s formula) &&
    ((metric =s "") || (MetricKey (mr_result r) =s metric)) &&
    contains (Dimensions (mr_result r)) filter &&
    match since with None => true | Some s => (s =? 0) || (s <=? mr_at r) end &&
    (mr_at r <=? until_)) (results d).
Definition Latest (formula metric : string) (filter : Dims) (since until_ : option Z) (limit : Z) :
    M MetricsDb (list MetricResult) :=
  let limit := if limit <=? 0 then 100 else limit in
  let! t := now in
  query (fun d => map mr_result (take (Z.to_nat limit)
    (distinct_on [] (merge_sort metric_le (latest_rows formula metric filter since until_ t d))))).
Definition by_time (a b : MetricRow) : comparison :=
  Extract.then_by (mr_at a ?= mr_at b)
    (text_compare (FormulaVersion (mr_result a)) (FormulaVersion (mr_result b))).
Definition time_le (a b : MetricRow) : Prop := by_time a b <> Gt.
#[local] Instance time_le_dec a b : Decision (time_le a b).
Proof using. unfold time_le. apply _. Defined.
Definition History (metric : string) (dims : Dims) : M MetricsDb (list MetricResult) :=
  query (fun d => map mr_result (merge_sort time_le
    (rows_where (fun r => (MetricKey (mr_result r) =s metric) && (Dimensions (mr_result r) =d dims)) (results d)))).
Definition OpenAlertCount : M MetricsDb Z :=
  query (fun d => count_where (fun a => ra_state a =s "OPEN") (alerts d)).
End Ledger.
End Ledger.

(** ** Order does not matter *)

Section Order.
Import Formula.

Lemma wrap_add a b : Int64.wrap (Int64.wrap a + b) = Int64.wrap (a + b).
Proof using.
  unfold Int64.wrap. f_equal.
  replace ((a + 2 ^ 63) mod 2 ^ 64 - 2 ^ 63 + b + 2 ^ 63) with ((a + 2 ^ 63) mod 2 ^ 64 + b) by lia.
  rewrite Zplus_mod_idemp_l. f_equal. lia.
Qed.
Definition sum_of (f : DimRow -> Z) (rows : list DimRow) : Z := fold_right (fun r acc => f r + acc) 0 rows.
Lemma sum64_sum_of f rows : sum64 f rows = Int64.wrap (sum_of f rows).
Proof using.
  assert (H : forall a, fold_left (fun acc r => Int64.wrap (acc + f r)) rows (Int64.wrap a) =
                        Int64.wrap (a + sum_of f rows)).
  { induction rows as [|r rows IH]; intros a; simpl; [by rewrite Z.add_0_r|].
    rewrite wrap_add, IH. f_equal. lia. }
  exact (H 0).
Qed.
Lemma sum_of_perm f rows rows' : rows ≡ₚ rows' -> sum_of f rows = sum_of f rows'.
Proof using. induction 1; simpl; lia. Qed.
Lemma sum64_perm f rows rows' : rows ≡ₚ rows' -> sum64 f rows = sum64 f rows'.
Proof using. intros H. by rewrite !sum64_sum_of, (sum_of_perm f _ _ H). Qed.
Lemma count_where_perm {R} (p : R -> bool) l l' : l ≡ₚ l' -> count_where p l = count_where p l'.
Proof using. intros H. unfold count_where. f_equal. apply Permutation_length. by apply (rows_where_perm p). Qed.
Lemma distinct_perm l l' : (forall x, x ∈ l <-> x ∈ l') -> distinct l ≡ₚ distinct l'.
Proof using.
  intros H. apply NoDup_Permutation; [apply NoDup_remove_dups..|]. intros x. unfold distinct.
  by rewrite !elem_of_remove_dups.
Qed.
Lemma elem_of_map_perm {A B} (f : A -> B) l l' : l ≡ₚ l' -> forall x, x ∈ map f l <-> x ∈ map f l'.
Proof using. intros H x. by rewrite (Permutation_map f H). Qed.

Lemma fold_max {A} (g : A -> Z) l a :
  fold_left (fun top v => if top <? g v then g v else top) l a =
  fold_right (fun v acc => Z.max (g v) acc) a l.
Proof using.
  revert a. induction l as [|x l IH]; intros a; simpl; [done|]. rewrite IH. clear IH.
  induction l as [|y l IH]; simpl; [destruct (Z.ltb_spec a (g x)); lia|]. rewrite IH. lia.
Qed.
Lemma fold_max_perm {A} (g : A -> Z) l l' a :
  l ≡ₚ l' -> fold_right (fun v acc => Z.max (g v) acc) a l = fold_right (fun v acc => Z.max (g v) acc) a l'.
Proof using. induction 1; simpl; lia. Qed.
Lemma fold_max_ext {A} (g g' : A -> Z) l a :
  (forall x, g x = g' x) -> fold_right (fun v acc => Z.max (g v) acc) a l = fold_right (fun v acc => Z.max (g' v) acc) a l.
Proof using. intros H. induction l; simpl; [done|]. by rewrite H, IHl. Qed.

Lemma top_vendor_perm (O1 O2 : MapOrder) rows rows' :
  rows ≡ₚ rows' -> top_vendor (MO := O1) rows = top_vendor (MO := O2) rows'.
Proof using.
  intros H. unfold top_vendor. rewrite !fold_max.
  rewrite (fold_max_ext _ (vendor_bindings rows')).
  - apply fold_max_perm. rewrite !order_perm. apply distinct_perm, elem_of_map_perm. by apply rows_where_perm.
  - intros v. apply sum64_perm. by apply rows_where_perm.
Qed.
Lemma byCap_perm rows rows' : rows ≡ₚ rows' -> byCap rows ≡ₚ byCap rows'.
Proof using.
  intros H. apply (rows_where_perm (fun k => negb (k =s ""))), distinct_perm. by apply elem_of_map_perm.
Qed.
Lemma substitution_perm rev rows rows' cap :
  rows ≡ₚ rows' -> substitution rev rows cap = substitution rev rows' cap.
Proof using.
  intros H. unfold substitution.
  rewrite !(sum64_perm _ (rows_of cap rows) (rows_of cap rows')); [done|by apply rows_where_perm..].
Qed.
Lemma compatibility_perm rev rows rows' cap :
  rows ≡ₚ rows' -> compatibility rev rows cap = compatibility rev rows' cap.
Proof using.
  intros H. unfold compatibility.
  rewrite !(sum64_perm _ (rows_of cap rows) (rows_of cap rows')); [done|by apply rows_where_perm..].
Qed.
Lemma concentration_perm (O1 O2 : MapOrder) rev rows rows' :
  rows ≡ₚ rows' -> concentration (MO := O1) rev rows = concentration (MO := O2) rev rows'.
Proof using.
  intros H. unfold concentration. rewrite (top_vendor_perm O1 O2 rows rows' H).
  by rewrite !(sum64_perm _ rows rows' H), (count_where_perm _ rows rows' H).
Qed.
Lemma map_ext_all {A B} (f g : A -> B) l : (forall x, f x = g x) -> map f l = map g l.
Proof using. intros H. by apply map_ext. Qed.
Lemma computed_perm (O1 O2 : MapOrder) rev rows rows' :
  rows ≡ₚ rows' ->
  computed (MO := O1) (MkDataset rev rows) ≡ₚ computed (MO := O2) (MkDataset rev rows').
Proof using.
  intros H. unfold computed. cbn [Revision Rows].
  rewrite (concentration_perm O1 O2 rev rows rows' H).
  rewrite (map_ext_all _ _ _ (fun c => substitution_perm rev rows rows' c H)).
  rewrite (map_ext_all _ _ _ (fun c => compatibility_perm rev rows rows' c H)).
  rewrite !order_perm. by rewrite (byCap_perm rows rows' H).
Qed.

(** *** Sorting results *)

#[global] Instance result_le_trans : Transitive result_le.
Proof using.
  intros a b c. unfold result_le. destruct (String.eqb_spec (MetricKey a) (MetricKey b)) as [E1|E1],
    (String.eqb_spec (MetricKey b) (MetricKey c)) as [E2|E2].
  - rewrite E1, E2, str_eqb_refl. apply transitivity.
  - rewrite E1. destruct (String.eqb_spec (MetricKey b) (MetricKey c)); done.
  - rewrite <- E2. destruct (String.eqb_spec (MetricKey a) (MetricKey b)); done.
  - intros H1 H2. destruct (String.eqb_spec (MetricKey a) (MetricKey c)) as [E|E]; [|by etrans].
    exfalso. apply E1. rewrite <- E in H2. by apply (anti_symm String.le).
Qed.
#[global] Instance result_le_total : Total result_le.
Proof using.
  intros a b. unfold result_le. rewrite (String.eqb_sym (MetricKey b)).
  destruct (_ =s _); apply (total String.le).
Qed.
Lemma result_le_antisym a b :
  result_le a b -> result_le b a ->
  MetricKey a = MetricKey b /\ mustDims (Dimensions a) = mustDims (Dimensions b).
Proof using.
  unfold result_le. rewrite (String.eqb_sym (MetricKey b)).
  destruct (String.eqb_spec (MetricKey a) (MetricKey b)) as [E|E]; intros H1 H2.
  - split; [done|]. by apply (anti_symm String.le).
  - destruct E. by apply (anti_symm String.le).
Qed.

Lemma elem_of_computed (O : MapOrder) d r :
  r ∈ computed d <->
  r = concentration (Revision d) (Rows d) \/
  exists cap, cap ∈ byCap (Rows d) /\
    (r = substitution (Revision d) (Rows d) cap \/ r = compatibility (Revision d) (Rows d) cap).
Proof using.
  unfold computed. rewrite !elem_of_app, list_elem_of_singleton, !list_elem_of_In, !in_map_iff.
  setoid_rewrite <- list_elem_of_In. setoid_rewrite order_perm. split.
  - intros [(c & <- & Hc)|[->|(c & <- & Hc)]]; eauto 6.
  - intros [->|(c & Hc & [->| ->])]; eauto 6.
Qed.
Lemma substitution_key rev rows cap :
  MetricKey (substitution rev rows cap) = KeySubstitutionCoverage /\
  Dimensions (substitution rev rows cap) = Some [("capability", cap)].
Proof using. unfold substitution. by destruct (_ =? 0). Qed.
Lemma compatibility_key rev rows cap :
  MetricKey (compatibility rev rows cap) = KeyProtocolCompat /\
  Dimensions (compatibility rev rows cap) = Some [("capability", cap)].
Proof using. unfold compatibility. by repeat destruct (_ =? 0). Qed.
Lemma concentration_key (O : MapOrder) rev rows :
  MetricKey (concentration rev rows) = KeyVendorConcentration /\
  Dimensions (concentration rev rows) = Some [].
Proof using. unfold concentration. destruct (_ =? 0); [done|]. by destruct (0 <? _). Qed.
Lemma capability_dims a b :
  mustDims (Some [("capability", a)]) = mustDims (Some [("capability", b)]) -> a = b.
Proof using. unfold mustDims, GoString.join. cbn. intros H. by injection H. Qed.

(** Results with one key and dimensions are one result. *)
Lemma computed_keyed (O : MapOrder) d a b :
  a ∈ computed d -> b ∈ computed d -> MetricKey a = MetricKey b ->
  mustDims (Dimensions a) = mustDims (Dimensions b) -> a = b.
Proof using.
  intros Ha Hb Hk Hd. apply elem_of_computed in Ha, Hb.
  assert (Hx : forall r, r = concentration (Revision d) (Rows d) \/
    (exists cap, cap ∈ byCap (Rows d) /\ (r = substitution (Revision d) (Rows d) cap \/
       r = compatibility (Revision d) (Rows d) cap)) ->
    (r = concentration (Revision d) (Rows d) /\ MetricKey r = KeyVendorConcentration) \/
    exists cap, Dimensions r = Some [("capability", cap)] /\
      ((r = substitution (Revision d) (Rows d) cap /\ MetricKey r = KeySubstitutionCoverage) \/
       (r = compatibility (Revision d) (Rows d) cap /\ MetricKey r = KeyProtocolCompat))).
  { intros r [->|(cap & _ & [->| ->])].
    - left. split; [done|]. apply concentration_key.
    - right. exists cap. destruct (substitution_key (Revision d) (Rows d) cap). auto.
    - right. exists cap. destruct (compatibility_key (Revision d) (Rows d) cap). auto. }
  apply Hx in Ha, Hb.
  destruct Ha as [[-> Ea]|(ca & Da & [[Ea' Ea]|[Ea' Ea]])], Hb as [[-> Eb]|(cb & Db & [[Eb' Eb]|[Eb' Eb]])];
    rewrite ?Ea, ?Eb in Hk; try discriminate; [done|..];
    rewrite Da, Db in Hd; apply capability_dims in Hd; subst ca; congruence.
Qed.
Lemma ComputeV1_perm (O1 O2 : MapOrder) rev rows rows' :
  rows ≡ₚ rows' -> ComputeV1 (MO := O1) (MkDataset rev rows) = ComputeV1 (MO := O2) (MkDataset rev rows').
Proof using.
  intros H. pose proof (computed_perm O1 O2 rev rows rows' H) as Hp. unfold ComputeV1, sortResults.
  apply (StronglySorted_unique_strong result_le).
  - intros a b Ha Hb H1 H2. rewrite merge_sort_Permutation in Ha, Hb. rewrite <- Hp in Hb.
    destruct (result_le_antisym a b H1 H2) as [Ek Ed]. exact (computed_keyed O1 (MkDataset rev rows) a b Ha Hb Ek Ed).
  - apply StronglySorted_merge_sort; apply _.
  - apply StronglySorted_merge_sort; apply _.
  - by rewrite !merge_sort_Permutation.
Qed.
End Order.

(** ** The revision *)

Section Revision.
Import Extract.
Context (is_print : chars -> bool).

(** A text of one class of characters ends at the first of another. *)
Lemma class_prefix (p : ascii -> bool) l1 l2 c1 c2 t1 t2 :
  forallb p l1 = true -> forallb p l2 = true -> p c1 = false -> p c2 = false ->
  l1 ++ c1 :: t1 = l2 ++ c2 :: t2 -> l1 = l2 /\ c1 :: t1 = c2 :: t2.
Proof using.
  revert l2. induction l1 as [|x l1 IH]; intros [|y l2] H1 H2 Hc1 Hc2 H; simpl in *; [done| | |].
  - injection H as -> _. apply andb_true_iff in H2 as [H2 _]. congruence.
  - injection H as -> _. apply andb_true_iff in H1 as [H1 _]. congruence.
  - injection H as -> H. apply andb_true_iff in H1 as [_ H1], H2 as [_ H2].
    by destruct (IH l2 H1 H2 Hc1 Hc2 H) as [-> ->].
Qed.
Lemma dec_prefix z1 z2 c1 c2 t1 t2 :
  num_char c1 = false -> num_char c2 = false ->
  txt (dec z1) ++ c1 :: t1 = txt (dec z2) ++ c2 :: t2 -> z1 = z2 /\ c1 :: t1 = c2 :: t2.
Proof using.
  intros H1 H2 H. apply (class_prefix num_char) in H as [H ->]; try done; try apply dec_num.
  split; [|done]. apply dec_inj. apply (f_equal String.string_of_list_ascii) in H.
  unfold txt, bytes_of_string in H. by rewrite !String.string_of_list_ascii_of_string in H.
Qed.

Definition row_chars (r : DimRow) : chars :=
  let q s := GoQuote.quote_chars is_print s in
  q (Capability r) ++ txt "," ++ q (Provider r) ++ txt "," ++ q (Vendor r) ++ txt "," ++
  q (Environment r) ++ txt "," ++ q (Tenant r) ++ txt "," ++ txt (dec (ActiveBindings r)) ++ txt "," ++
  txt (dec (BindingsWithSubstitute r)) ++ txt "," ++ txt (dec (BindingIssues r)) ++ txt "," ++
  txt (dec (DupProviderRows r)) ++ txt "," ++ txt (if UnknownVendor r then "true" else "false").
Lemma txt_quote s : txt (GoQuote.quote is_print s) = GoQuote.quote_chars is_print s.
Proof using. apply String.list_ascii_of_string_of_list_ascii. Qed.
Lemma row_text_chars r : txt (row_text is_print r) = row_chars r.
Proof using. unfold row_text, row_chars, txt. rewrite !Sha256.bytes_of_app. by rewrite <- !txt_quote. Qed.

Lemma comma_prefix (a b : chars) : txt "," ++ a = txt "," ++ b -> a = b.
Proof using. by intros [= H]. Qed.
Lemma dec_comma z1 z2 t1 t2 :
  txt (dec z1) ++ txt "," ++ t1 = txt (dec z2) ++ txt "," ++ t2 -> z1 = z2 /\ t1 = t2.
Proof using. intros H. apply (dec_prefix z1 z2 "," ",") in H as [-> H]; [|done..]. by injection H. Qed.
Lemma bool_prefix (b1 b2 : bool) t1 t2 :
  txt (if b1 then "true" else "false") ++ t1 = txt (if b2 then "true" else "false") ++ t2 -> b1 = b2 /\ t1 = t2.
Proof using. destruct b1, b2; intros H; try discriminate; by injection H. Qed.
Lemma row_prefix r1 r2 t1 t2 : row_chars r1 ++ t1 = row_chars r2 ++ t2 -> r1 = r2 /\ t1 = t2.
Proof using.
  unfold row_chars. rewrite <- !app_assoc. intros H.
  do 5 (apply GoQuote.quote_prefix in H as [? H]; apply comma_prefix in H).
  do 4 (apply dec_comma in H as [? H]). apply bool_prefix in H as [? H].
  destruct r1, r2. simpl in *. by subst.
Qed.
Lemma row_text_inj : Inj (=) (=) (row_text is_print).
Proof using.
  intros r1 r2 H. apply (f_equal txt) in H. rewrite !row_text_chars in H.
  rewrite <- (app_nil_r (row_chars r1)), <- (app_nil_r (row_chars r2)) in H. by apply row_prefix in H as [? _].
Qed.

Definition rows_chars (rows : list DimRow) : chars := concat (map (fun r => row_chars r ++ txt ";") rows).
Lemma rows_chars_inj l1 l2 : rows_chars l1 = rows_chars l2 -> l1 = l2.
Proof using.
  assert (Hne : forall r l, rows_chars (r :: l) <> []).
  { intros r l H. unfold rows_chars in H. cbn in H. discriminate H. }
  revert l2. induction l1 as [|r1 l1 IH]; intros [|r2 l2] H; [done|by destruct (Hne r2 l2)|by destruct (Hne r1 l1)|].
  unfold rows_chars in H. cbn [map concat] in H. rewrite <- !app_assoc in H. apply row_prefix in H as [-> H].
  f_equal. apply IH. by injection H.
Qed.
Lemma txt_concat l : txt (String.concat "" l) = concat (map txt l).
Proof using.
  induction l as [|x [|y l] IH]; [done|simpl; by rewrite app_nil_r|].
  change (String.concat "" (x :: y :: l)) with (x +:+ ("" +:+ String.concat "" (y :: l))).
  cbn [map concat] in *. unfold txt in *. rewrite !Sha256.bytes_of_app. by rewrite IH.
Qed.
Lemma preimage_inj mv1 mv2 rows1 rows2 :
  preimage is_print mv1 rows1 = preimage is_print mv2 rows2 -> mv1 = mv2 /\ rows1 ≡ₚ rows2.
Proof using.
  intros H. apply (f_equal txt) in H. unfold preimage, txt in H. rewrite !Sha256.bytes_of_app in H.
  apply app_inv_head in H. apply (dec_prefix mv1 mv2 ";" ";") in H as [-> H]; [|done..]. injection H as H.
  split; [done|].
  assert (Hs : forall rows, exists l, l ≡ₚ rows /\ sort_strings (map (row_text is_print) rows) = map (row_text is_print) l).
  { intros rows. destruct (Permutation_map_inv (row_text is_print) rows (sort_strings_perm _)) as (l & El & Hl).
    exists l. split; [by symmetry|done]. }
  destruct (Hs rows1) as (l1 & P1 & E1), (Hs rows2) as (l2 & P2 & E2). rewrite E1, E2 in H.
  fold txt in H. rewrite <- P1, <- P2. enough (l1 = l2) as ->; [done|]. apply rows_chars_inj.
  rewrite !map_map in H. unfold rows_chars.
  assert (Et : forall l, bytes_of_string (String.concat "" (map (fun r => row_text is_print r +:+ ";") l)) =
                         concat (map (fun r => row_chars r ++ txt ";") l)).
  { intros l. etrans; [apply txt_concat|]. rewrite map_map. f_equal. apply map_ext. intros r.
    unfold txt. rewrite Sha256.bytes_of_app. f_equal. apply row_text_chars. }
  rewrite !Et in H. exact H.
Qed.
End Revision.

(** ** What a batch leaves *)

Section Batch.
Import Formula Ledger.
Context (float_text : Float64.t -> string).

Definition put_result (r : MetricResult) (t : Z) (d : MetricsDb) : MetricsDb :=
  if any_where (fun x => same_key r (mr_result x)) (results d)
  then with_results (update_where (fun x => same_key r (mr_result x))
                       (fun x => MkMetricRow (mr_id x) r t) (results d)) (mx_next d) d
  else with_results (results d ++ [MkMetricRow (mx_next d) r t]) (mx_next d + 1) d.
(** The alert a result raises. *)
Record Alert : Type := MkAlert { al_rule : string; al_kind : string; al_entity : string;
                                 al_severity : string; al_detail : json }.
Definition alert_of (r : MetricResult) : option Alert :=
  match below_floor r with
  | Some v =>
      if dim (Dimensions r) "capability" =s "" then None
      else Some (MkAlert "substitution_coverage_below_floor.v1" "capability" (dim (Dimensions r) "capability")
                   SeverityMedium (JObj [("floor", JNum "0.5"); ("coverage", JNum (float_text v))]))
  | None =>
      if (MetricKey r =s KeyVendorConcentration) && (Status r =s StatusUnknown)
      then Some (MkAlert "unknown_vendor_present.v1" "environment" "*" SeverityHigh
                   (JObj [("reason", JStr (StatusReason r))]))
      else if (MetricKey r =s KeyProtocolCompat) && (Status r =s StatusInsufficientData)
      then Some (MkAlert "binding_health_insufficient.v1" "environment" "*" SeverityLow
                   (JObj [("reason", JStr (StatusReason r))]))
      else None
  end.
Definition alert_key (a : Alert) (rev : Z) : AlertRow -> bool := is_alert (al_rule a) (al_kind a) (al_entity a) rev.
Definition put_alert (r : MetricResult) (t : Z) (d : MetricsDb) : MetricsDb :=
  match alert_of r with
  | None => d
  | Some a =>
      if any_where (alert_key a (DatasetRevision r)) (alerts d)
      then with_alerts (update_where (alert_key a (DatasetRevision r)) (set_last t) (alerts d)) (mx_next d) d
      else with_alerts (alerts d ++ [MkAlertRow (mx_next d) (al_rule a) (al_kind a) (al_entity a)
             (DatasetRevision r) (al_severity a) (al_detail a) "OPEN" t t]) (mx_next d + 1) d
  end.
Definition put (t : Z) (d : MetricsDb) (r : MetricResult) : MetricsDb := put_alert r t (put_result r t d).

Lemma upsertAlert_inr a rev t w u w' :
  al_entity a <> "" ->
  upsertAlert (al_rule a) (al_kind a) (al_entity a) rev (al_severity a) (al_detail a) t w = (inr u, w') ->
  clock w' = clock w /\
  store w' =
    if any_where (alert_key a rev) (alerts (store w))
    then with_alerts (update_where (alert_key a rev) (set_last t) (alerts (store w))) (mx_next (store w)) (store w)
    else with_alerts (alerts (store w) ++ [MkAlertRow (mx_next (store w)) (al_rule a) (al_kind a) (al_entity a)
           rev (al_severity a) (al_detail a) "OPEN" t t]) (mx_next (store w) + 1) (store w).
Proof using.
  intros He H. unfold upsertAlert in H. apply String.eqb_neq in He. rewrite He in H.
  apply insert_row_inr in H as [H Hc]. split; [done|]. unfold alert_key.
  destruct (any_where _ _); by injection H as <-.
Qed.
Lemma alert_of_entity r a : alert_of r = Some a -> al_entity a <> "".
Proof using.
  unfold alert_of. destruct (below_floor r).
  - destruct (_ =s "") eqn:E; [done|]. intros [= <-]. by apply String.eqb_neq.
  - destruct (_ && _); [by intros [= <-]|]. destruct (_ && _); [by intros [= <-]|done].
Qed.
Lemma deriveAlerts_inr r t w u w' :
  deriveAlertsV1 float_text r t w = (inr u, w') -> clock w' = clock w /\ store w' = put_alert r t (store w).
Proof using.
  intros H. pose proof (alert_of_entity r) as He. unfold put_alert. unfold alert_of in *. unfold deriveAlertsV1 in H.
  destruct (below_floor r) as [v|].
  - destruct (dim (Dimensions r) "capability" =s ""); [by apply ret_inr in H as [_ ->]|].
    apply bind_inr in H as (u0 & w0 & Hg & H). apply guard_inr in Hg as [_ ->].
    exact (upsertAlert_inr _ _ _ _ _ _ (He _ eq_refl) H).
  - destruct (_ && _); [exact (upsertAlert_inr _ _ _ _ _ _ (He _ eq_refl) H)|].
    destruct (_ && _); [exact (upsertAlert_inr _ _ _ _ _ _ (He _ eq_refl) H)|].
    by apply ret_inr in H as [_ ->].
Qed.
Lemma persist_all_inr rs w u w' :
  persist_all float_text rs w = (inr u, w') ->
  clock w' = clock w /\ store w' = fold_left (put (clock w)) rs (store w).
Proof using.
  revert w. induction rs as [|r rs IH]; intros w H; cbn [persist_all] in H.
  { by apply ret_inr in H as [_ ->]. }
  apply bind_inr in H as (t & w1 & Ht & H). apply now_inr in Ht as [-> ->].
  apply bind_inr in H as (u1 & w2 & Hu & H). apply insert_row_inr in Hu as [Hu Hc2].
  apply bind_inr in H as (u2 & w3 & Ha & H). apply deriveAlerts_inr in Ha as [Hc3 Hs3].
  apply IH in H as [Hc Hs]. rewrite Hc, Hs, Hs3, Hc3, Hc2. split; [done|].
  assert (E : store w2 = put_result r (clock w) (store w)).
  { unfold put_result. destruct (negb _); [discriminate|]. by destruct (any_where _ _); injection Hu as <-. }
  by rewrite E.
Qed.
Lemma PersistResults_inr rs w u w' :
  PersistResults float_text rs w = (inr u, w') -> store w' = fold_left (put (clock w)) rs (store w).
Proof using.
  intros H. unfold PersistResults in H. apply tx_inr in H as (w0 & Hs & Hc & [(w1 & Hb & Hw)|(w1 & Hb & _)]).
  - apply bind_inr in Hb as (u1 & w2 & Hp & Hr). injection Hr as _ <-.
    apply persist_all_inr in Hp as [_ Hp]. by rewrite Hw, Hp, Hs, Hc.
  - apply bind_inr in Hb as (u1 & w2 & _ & Hr). discriminate.
Qed.

(** *** The invariant *)

Definition result_key (r : MetricResult) : string * Dims * Z * string :=
  (MetricKey r, Dimensions r, DatasetRevision r, FormulaVersion r).
Definition ledger_key (a : AlertRow) : string * string * string * Z :=
  (ra_rule a, ra_kind a, ra_entity a, ra_revision a).
Lemma same_key_spec a b : same_key a b = true <-> result_key a = result_key b.
Proof using.
  unfold same_key, result_key. rewrite !andb_true_iff, !String.eqb_eq, Z.eqb_eq, bool_decide_eq_true.
  split; [intros (((-> & ->) & ->) & ->); done|by intros [= -> -> -> ->]].
Qed.
Lemma alert_key_spec a rev x :
  alert_key a rev x = true <-> ledger_key x = (al_rule a, al_kind a, al_entity a, rev).
Proof using.
  unfold alert_key, is_alert, ledger_key. rewrite !andb_true_iff, !String.eqb_eq, Z.eqb_eq.
  split; [intros (((-> & ->) & ->) & ->); done|by intros [= -> -> -> ->]].
Qed.
Record ledger_ok (d : MetricsDb) : Prop := {
  lg_results : indexed (fun _ => true) (fun x => result_key (mr_result x)) (results d);
  lg_alerts : indexed (fun _ => true) ledger_key (alerts d);
}.
(** A stored result keeps its id and key, an alert all but the time it was last
    seen. *)
Definition result_later (a b : MetricRow) : Prop :=
  mr_id b = mr_id a /\ result_key (mr_result b) = result_key (mr_result a).
Definition alert_later (a b : AlertRow) : Prop := set_last 0 b = set_last 0 a.
Lemma put_result_ok r t d : ledger_ok d -> ledger_ok (put_result r t d).
Proof using.
  intros [K1 K2]. unfold put_result. destruct (any_where _ _) eqn:Ea; (split; [|done]); cbn [results with_results].
  - apply indexed_update; [done|]. intros x Hx Hk _. split; [done|]. by apply same_key_spec in Hk.
  - apply indexed_add; [done|]. intros _ x Hx _ Hk. cbn [mr_result] in Hk.
    eapply (any_where_false _ _) in Ea; [|exact Hx]. cbv beta in Ea.
    assert (same_key r (mr_result x) = true) by by apply same_key_spec. congruence.
Qed.
Lemma put_alert_ok r t d : ledger_ok d -> ledger_ok (put_alert r t d).
Proof using.
  intros [K1 K2]. unfold put_alert. destruct (alert_of r) as [a|]; [|done].
  destruct (any_where _ _) eqn:Ea; (split; [done|]); cbn [alerts with_alerts].
  - by apply indexed_update.
  - apply indexed_add; [done|]. intros _ x Hx _ Hk.
    eapply (any_where_false _ _) in Ea; [|exact Hx].
    assert (alert_key a (DatasetRevision r) x = true) by by apply alert_key_spec. congruence.
Qed.
Lemma put_ok t d r : ledger_ok d -> ledger_ok (put t d r).
Proof using. intros H. by apply put_alert_ok, put_result_ok. Qed.

Lemma result_later_trans a b c : result_later a b -> result_later b c -> result_later a c.
Proof using. unfold result_later. intuition congruence. Qed.
Lemma alert_later_trans a b c : alert_later a b -> alert_later b c -> alert_later a c.
Proof using. unfold alert_later. congruence. Qed.
Lemma put_results_kept t d r : rows_kept result_later (results d) (results (put t d r)).
Proof using.
  assert (E : results (put t d r) = results (put_result r t d)).
  { unfold put, put_alert. destruct (alert_of r); [|done]. by destruct (any_where _ _). }
  rewrite E. unfold put_result. destruct (any_where _ _); cbn [results with_results].
  - apply rows_kept_update; [done|]. intros x Hx. apply same_key_spec in Hx. by split.
  - by apply rows_kept_app.
Qed.
Lemma put_alerts_kept t d r : rows_kept alert_later (alerts d) (alerts (put t d r)).
Proof using.
  assert (E : alerts (put_result r t d) = alerts d) by (unfold put_result; by destruct (any_where _ _)).
  unfold put, put_alert. rewrite E. destruct (alert_of r); [|rewrite E; by apply rows_kept_refl].
  destruct (any_where _ _); cbn [alerts with_alerts].
  - by apply rows_kept_update.
  - by apply rows_kept_app.
Qed.
Lemma batch_ok rs t d :
  ledger_ok d ->
  ledger_ok (fold_left (put t) rs d) /\
  rows_kept result_later (results d) (results (fold_left (put t) rs d)) /\
  rows_kept alert_later (alerts d) (alerts (fold_left (put t) rs d)).
Proof using.
  revert d. induction rs as [|r rs IH]; intros d Hd; cbn [fold_left].
  { split; [done|]. split; by apply rows_kept_refl. }
  destruct (IH _ (put_ok t d r Hd)) as (H1 & H2 & H3). split; [done|]. split.
  - eapply rows_kept_trans; [exact result_later_trans|apply put_results_kept|done].
  - eapply rows_kept_trans; [exact alert_later_trans|apply put_alerts_kept|done].
Qed.

(** *** What is there afterwards *)

(** Results that agree where their keys do. *)
Definition consistent (rs : list MetricResult) : Prop :=
  forall a b, a ∈ rs -> b ∈ rs -> result_key a = result_key b -> a = b.
Lemma put_results t d r : results (put t d r) = results (put_result r t d).
Proof using.
  unfold put, put_alert. destruct (alert_of r); [|done]. by destruct (any_where _ _).
Qed.
Lemma put_result_alerts t d r : alerts (put_result r t d) = alerts d.
Proof using. unfold put_result. by destruct (any_where _ _). Qed.
Lemma put_from t d r x :
  x ∈ results (put t d r) ->
  (mr_result x = r /\ mr_at x = t) \/ (x ∈ results d /\ result_key (mr_result x) <> result_key r).
Proof using.
  rewrite put_results. unfold put_result.
  destruct (any_where _ _) eqn:Ea; cbn [results with_results]; intros Hx.
  - apply elem_of_update_where in Hx as [(y & _ & _ & ->)|[Hx Hk]]; [by left|right]. split; [done|].
    intros E. assert (same_key r (mr_result x) = true) by by apply same_key_spec. congruence.
  - apply elem_of_app in Hx as [Hx|Hx]; [right|left; by apply list_elem_of_singleton in Hx as ->].
    split; [done|]. intros E. eapply (any_where_false _ _) in Ea; [|exact Hx]. cbv beta in Ea.
    assert (same_key r (mr_result x) = true) by by apply same_key_spec. congruence.
Qed.
Lemma put_keeps t d r x :
  x ∈ results d -> result_key (mr_result x) <> result_key r -> x ∈ results (put t d r).
Proof using.
  intros Hx Hk. rewrite put_results. unfold put_result.
  destruct (any_where _ _); cbn [results with_results]; [|apply elem_of_app; by left].
  apply elem_of_update_where. right. split; [done|]. apply not_true_iff_false. by rewrite same_key_spec.
Qed.
Lemma put_has t d r : exists x, x ∈ results (put t d r) /\ mr_result x = r /\ mr_at x = t.
Proof using.
  rewrite put_results. unfold put_result. destruct (any_where _ _) eqn:Ea; cbn [results with_results].
  - apply any_where_spec in Ea as (y & Hy & Hk). exists (MkMetricRow (mr_id y) r t). split; [|done].
    apply elem_of_update_where. left. by exists y.
  - exists (MkMetricRow (mx_next d) r t). split; [|done]. apply elem_of_app. right. left.
Qed.
Lemma batch_has rs t d r :
  consistent rs -> r ∈ rs ->
  exists x, x ∈ results (fold_left (put t) rs d) /\ mr_result x = r /\ mr_at x = t.
Proof using.
  intros Hc Hr.
  assert (H : (exists x, x ∈ results d /\ mr_result x = r /\ mr_at x = t) \/ r ∈ rs) by by right.
  assert (Hc' : forall b, b ∈ rs -> result_key b = result_key r -> b = r) by (intros b Hb E; by apply Hc).
  clear Hr Hc. revert d H Hc'. induction rs as [|a rs IH]; intros d H Hc; cbn [fold_left].
  { destruct H as [H|H]; [done|by apply elem_of_nil in H]. }
  apply IH; [|intros b Hb; apply Hc; by right].
  destruct (decide (result_key a = result_key r)) as [E|Hne].
  { left. rewrite (Hc a ltac:(left) E). apply put_has. }
  destruct H as [(x & Hx & Er & Et)|H]; [|right; apply elem_of_cons in H as [->|H]; done].
  left. exists x. split; [|done]. apply put_keeps; [done|]. rewrite Er. congruence.
Qed.
Lemma batch_keeps rs t d x :
  x ∈ results d -> (forall r, r ∈ rs -> result_key r <> result_key (mr_result x)) ->
  x ∈ results (fold_left (put t) rs d).
Proof using.
  revert d. induction rs as [|r rs IH]; intros d Hx Hk; cbn [fold_left]; [done|]. apply IH.
  - apply put_keeps; [done|]. intros E. apply (Hk r); [left|done].
  - intros r' Hr'. apply Hk. by right.
Qed.
Lemma batch_from rs t d x :
  x ∈ results (fold_left (put t) rs d) -> (mr_result x ∈ rs /\ mr_at x = t) \/ x ∈ results d.
Proof using.
  revert d. induction rs as [|r rs IH]; intros d Hx; cbn [fold_left] in *; [by right|].
  apply IH in Hx as [[Hx Ht]|Hx]; [left; split; [by right|done]|].
  apply put_from in Hx as [[Hx Ht]|[Hx _]]; [left; rewrite Hx; split; [left|done]|by right].
Qed.

Definition raised (r : MetricResult) (l : list AlertRow) : Prop :=
  forall a, alert_of r = Some a -> exists x, x ∈ l /\ alert_key a (DatasetRevision r) x = true.
Lemma kept_raised r l l' : rows_kept alert_later l l' -> raised r l -> raised r l'.
Proof using.
  intros Hk H a Ha. destruct (H a Ha) as (x & Hx & Hxk). apply list_elem_of_lookup_1 in Hx as [i Hi].
  destruct (Hk i x Hi) as (y & Hy & Hl). exists y. split; [by eapply list_elem_of_lookup_2|].
  rewrite alert_key_spec in *. rewrite <- Hxk. unfold alert_later, set_last in Hl.
  unfold ledger_key. by injection Hl as _ -> -> -> -> _.
Qed.
Lemma put_raised t d r : raised r (alerts (put t d r)).
Proof using.
  intros a Ha. unfold put, put_alert. rewrite Ha. destruct (any_where _ _) eqn:Ea; cbn [alerts with_alerts].
  - apply any_where_spec in Ea as (x & Hx & Hk). exists (set_last t x). split; [|by apply alert_key_spec in Hk; apply alert_key_spec].
    apply elem_of_update_where. left. by exists x.
  - eexists. split; [apply elem_of_app; right; left|]. by apply alert_key_spec.
Qed.
Lemma batch_raised rs t d r : r ∈ rs -> raised r (alerts (fold_left (put t) rs d)).
Proof using.
  intros Hr. assert (H : raised r (alerts d) \/ r ∈ rs) by by right. clear Hr. revert d H.
  induction rs as [|a rs IH]; intros d H; cbn [fold_left].
  { destruct H as [H|H]; [done|by apply elem_of_nil in H]. }
  apply IH. destruct H as [H|H]; [left; eapply kept_raised; [apply put_alerts_kept|done]|].
  apply elem_of_cons in H as [->|H]; [left; apply put_raised|by right].
Qed.
Lemma batch_alert_from rs t d x :
  x ∈ alerts (fold_left (put t) rs d) ->
  x ∈ alerts d \/ exists r a, r ∈ rs /\ alert_of r = Some a /\ alert_key a (DatasetRevision r) x = true /\ ra_last x = t.
Proof using.
  revert d. induction rs as [|r rs IH]; intros d Hx; cbn [fold_left] in *; [by left|].
  apply IH in Hx as [Hx|(r' & a & Hr & H)]; [|right; exists r', a; split; [by right|done]].
  unfold put, put_alert in Hx. rewrite put_result_alerts in Hx.
  destruct (alert_of r) as [a|] eqn:Ea; [|rewrite put_result_alerts in Hx; by left].
  destruct (any_where _ _); cbn [alerts with_alerts] in Hx.
  - apply elem_of_update_where in Hx as [(y & Hy & Hk & ->)|[Hx _]]; [right|by left].
    exists r, a. split; [left|]. split; [done|]. split; [|done]. by rewrite alert_key_spec in *.
  - apply elem_of_app in Hx as [Hx|Hx]; [by left|right]. apply list_elem_of_singleton in Hx as ->.
    exists r, a. split; [left|]. split; [done|]. split; [|done]. by apply alert_key_spec.
Qed.

(** *** Again *)

(** A second run of a batch changes timestamps only. *)
Lemma put_again t d r :
  ledger_ok d -> (exists x, x ∈ results d /\ mr_result x = r) -> raised r (alerts d) ->
  map mr_result (results (put t d r)) = map mr_result (results d) /\
  map (set_last 0) (alerts (put t d r)) = map (set_last 0) (alerts d).
Proof using.
  intros Hok (x & Hx & Er) Hr. split.
  - rewrite put_results. unfold put_result.
    rewrite (proj2 (any_where_spec (fun x => same_key r (mr_result x)) _)).
    2: { exists x. split; [done|]. apply same_key_spec. by rewrite Er. }
    cbn [results with_results]. unfold update_where. rewrite map_map. apply map_ext_in.
    intros y Hy. apply list_elem_of_In in Hy. destruct (same_key r (mr_result y)) eqn:Ek; [|done]. cbn [mr_result].
    apply same_key_spec in Ek. rewrite <- Er in Ek |- *.
    f_equal. by eapply (indexed_elem (fun _ => true) (fun x => result_key (mr_result x))); [apply (lg_results _ Hok)|..].
  - unfold put, put_alert. rewrite put_result_alerts. destruct (alert_of r) as [a|] eqn:Ea; [|by rewrite put_result_alerts].
    destruct (Hr a Ea) as (y & Hy & Hk). rewrite (proj2 (any_where_spec _ _)); [|by exists y].
    cbn [alerts with_alerts]. unfold update_where. rewrite map_map. apply map_ext. intros z. by destruct (alert_key _ _ z).
Qed.
Lemma batch_again rs t d :
  ledger_ok d ->
  (forall r, r ∈ rs -> (exists x, x ∈ results d /\ mr_result x = r) /\ raised r (alerts d)) ->
  map mr_result (results (fold_left (put t) rs d)) = map mr_result (results d) /\
  map (set_last 0) (alerts (fold_left (put t) rs d)) = map (set_last 0) (alerts d).
Proof using.
  intros Hok H. revert d Hok H. induction rs as [|r rs IH]; intros d Hok H; cbn [fold_left]; [done|].
  destruct (H r ltac:(left)) as [Hx Hr]. destruct (put_again t d r Hok Hx Hr) as [E1 E2].
  rewrite <- E1, <- E2. apply IH; [by apply put_ok|].
  intros r' Hr'. destruct (H r' ltac:(by right)) as [(x & Hx' & Er) Hrz]. split.
  - assert (Hin : r' ∈ map mr_result (results (put t d r))).
    { rewrite E1, <- Er. apply list_elem_of_In, in_map. by apply list_elem_of_In. }
    apply list_elem_of_In, in_map_iff in Hin as (y & Hy & Hin). exists y. split; [by apply list_elem_of_In|done].
  - eapply kept_raised; [apply put_alerts_kept|done].
Qed.
End Batch.

(** ** Properties *)

Module MetricsProps.
Import Extract Formula Ledger.

Lemma preimage_perm is_print mv rows rows' :
  rows ≡ₚ rows' -> preimage is_print mv rows = preimage is_print mv rows'.
Proof.
  intros H. unfold preimage.
  by rewrite (sort_strings_unique _ _ (Permutation_map (row_text is_print) H)).
Qed.

(** C24.  The computation is a function of the multiset of rows: whatever order
    the rows are read in and whatever order Go ranges over its maps, the
    dataset has the same revision and the results are the same list. *)
Theorem ComputeV1_deterministic (O1 O2 : MapOrder) is_print mv rows rows' :
  rows ≡ₚ rows' ->
  contentRevision is_print mv rows = contentRevision is_print mv rows' /\
  ComputeV1 (MO := O1) (MkDataset (contentRevision is_print mv rows) rows) =
  ComputeV1 (MO := O2) (MkDataset (contentRevision is_print mv rows') rows').
Proof.
  intros H.
  assert (E : contentRevision is_print mv rows = contentRevision is_print mv rows')
    by (unfold contentRevision; by rewrite (preimage_perm is_print mv rows rows' H)).
  split; [done|]. rewrite E. by apply ComputeV1_perm.
Qed.

Lemma high_bit a k n : 0 <= a < 2 ^ k -> 0 <= k <= n -> Z.testbit a n = false.
Proof. intros Ha Hn. rewrite <- (Z.mod_small a (2 ^ k)) by done. by apply Z.mod_pow2_bits_high. Qed.
(** The revision is a hash of the rows: what is hashed determines the
    migration version and the rows up to order (no two datasets share it), and
    the revision is a non-negative int64. *)
Theorem revision_content is_print mv mv' rows rows' :
  (preimage is_print mv rows = preimage is_print mv' rows' <-> mv = mv' /\ rows ≡ₚ rows') /\
  0 <= contentRevision is_print mv rows <= Int64.max.
Proof.
  split; [split; [apply preimage_inj|]|].
  - intros [-> H]. by apply preimage_perm.
  - unfold contentRevision. pose proof (Sha256.sum256_regs32 (bytes_val (preimage is_print mv rows))) as Hw.
    destruct (Sha256.sum256 _) as [a b c d e f g h]. apply Forall_cons in Hw as [Ha Hw].
    apply Forall_cons in Hw as [Hb _]. unfold Sha256.word32 in *. simpl in Ha, Hb. cbn [Sha256.ra Sha256.rb].
    set (x := Z.lor (Z.shiftl a 32) b).
    assert (Hx : 0 <= x) by (apply Z.lor_nonneg; split; [apply Z.shiftl_nonneg; lia|lia]).
    assert (Hz : 0 <= Z.ldiff x (Z.shiftl 1 63)) by (apply Z.ldiff_nonneg; by left).
    split; [done|]. unfold Int64.max.
    enough (E : Z.ldiff x (Z.shiftl 1 63) = Z.ldiff x (Z.shiftl 1 63) mod 2 ^ 63)
      by (rewrite E; pose proof (Z.mod_pos_bound (Z.ldiff x (Z.shiftl 1 63)) (2 ^ 63) ltac:(lia)); lia).
    apply Z.bits_inj'. intros n Hn. destruct (Z.lt_ge_cases n 63) as [H|H].
    + by rewrite Z.mod_pow2_bits_low.
    + rewrite Z.mod_pow2_bits_high by lia. rewrite Z.ldiff_spec. unfold x.
      rewrite Z.lor_spec, Z.shiftl_spec by done. destruct (Z.eq_dec n 63) as [->|Hne]; [by rewrite andb_false_r|].
      rewrite (high_bit a 32 (n - 32)), (high_bit b 32 n) by lia. done.
Qed.

(** *** Witness *)

Definition row (cap prov vendor : string) (act sub iss : Z) : DimRow :=
  MkDimRow cap prov vendor "prod" "t1" act sub iss false 0.
Definition rows0 : list DimRow :=
  [row "chat" "p1" "v1" 1 0 0; row "chat" "p2" "v1" 1 0 0; row "chat" "p3" "v2" 1 1 0; row "embed" "p1" "v1" 0 0 1].
Definition plain (r : chars) : bool := true.
(** An order of the ranges other than the keys'. *)
Definition reversed : MapOrder.
Proof. refine {| order n l := rev l |}. intros n l. symmetry. apply Permutation_rev. Defined.
Definition data0 : Dataset := MkDataset 7 rows0.
Lemma ComputeV1_deterministic_witness :
  contentRevision plain 13 rows0 = contentRevision plain 13 (rev rows0) /\
  ComputeV1 (MO := key_order) (MkDataset (contentRevision plain 13 rows0) rows0) =
  ComputeV1 (MO := reversed) (MkDataset (contentRevision plain 13 (rev rows0)) (rev rows0)).
Proof. apply ComputeV1_deterministic. apply Permutation_rev. Defined.
Lemma ComputeV1_results :
  map (fun r => (MetricKey r, Status r)) (ComputeV1 data0) =
  [(KeyProtocolCompat, StatusOK); (KeyProtocolCompat, StatusInsufficientData);
   (KeySubstitutionCoverage, StatusOK); (KeySubstitutionCoverage, StatusNotApplicable);
   (KeyVendorConcentration, StatusOK)].
Proof. vm_compute. reflexivity. Qed.

(** *** The ledger *)

(** Results of one computation agree where their keys do. *)
Lemma computed_consistent (O : MapOrder) d : consistent (ComputeV1 d).
Proof.
  intros a b Ha Hb Hk. unfold ComputeV1, sortResults in Ha, Hb. rewrite merge_sort_Permutation in Ha, Hb.
  injection Hk as E1 E2 _ _. eapply computed_keyed; [exact Ha|exact Hb|done|by rewrite E2].
Qed.
Definition persist_step (float_text : Float64.t -> string) (d d' : MetricsDb) : Prop :=
  exists rs fl t u w', PersistResults float_text rs (MkWorld d fl t) = (inr u, w') /\ d' = store w'.

(** Through any sequence of persisted batches: a metric, its dimensions,
    revision and formula have one stored result, a rule, entity and revision
    one alert; no result or alert is lost, a result keeps its id and key, and
    an alert everything but the time it was last seen. *)
Theorem ledger_history float_text d d' :
  ledger_ok d -> star (persist_step float_text) d d' ->
  (forall i j a b, results d' !! i = Some a -> results d' !! j = Some b ->
     result_key (mr_result a) = result_key (mr_result b) -> i = j) /\
  (forall i j a b, alerts d' !! i = Some a -> alerts d' !! j = Some b ->
     ledger_key a = ledger_key b -> i = j) /\
  rows_kept result_later (results d) (results d') /\ rows_kept alert_later (alerts d) (alerts d').
Proof.
  intros Hok Hst.
  assert (H : ledger_ok d' /\ rows_kept result_later (results d) (results d') /\
              rows_kept alert_later (alerts d) (alerts d')).
  { induction Hst as [|d1 d2 d3 Hst IH (rs & fl & t & u & w' & Hr & ->)].
    { split; [done|]. split; by apply rows_kept_refl. }
    destruct (IH Hok) as (K & Kr & Ka). apply PersistResults_inr in Hr as ->. cbn [store clock].
    destruct (batch_ok float_text rs t d2 K) as (K' & Kr' & Ka'). split; [done|]. split.
    - eapply rows_kept_trans; [exact result_later_trans|done|done].
    - eapply rows_kept_trans; [exact alert_later_trans|done|done]. }
  destruct H as ([K1 K2] & Hr & Ha). split; [|split; [|done]].
  - intros i j a b Hi Hj E. by eapply K1.
  - intros i j a b Hi Hj E. by eapply K2.
Qed.

(** What a persisted batch whose results agree on equal keys leaves: a row
    with each result, computed now; every other stored result as it was; an
    alert for each result that raises one; no other result.  Persisting the
    batch again at a later time changes only timestamps. *)
Theorem PersistResults_effect float_text rs w w' w2 w2' u u' :
  ledger_ok (store w) -> consistent rs ->
  PersistResults float_text rs w = (inr u, w') ->
  ((forall r, r ∈ rs -> exists x, x ∈ results (store w') /\ mr_result x = r /\ mr_at x = clock w) /\
   (forall x, x ∈ results (store w) -> (forall r, r ∈ rs -> result_key r <> result_key (mr_result x)) ->
      x ∈ results (store w')) /\
   (forall x, x ∈ results (store w') -> mr_result x ∈ rs \/ x ∈ results (store w)) /\
   (forall r a, r ∈ rs -> alert_of float_text r = Some a ->
      exists x, x ∈ alerts (store w') /\ alert_key a (DatasetRevision r) x = true)) /\
  (store w2 = store w' -> PersistResults float_text rs w2 = (inr u', w2') ->
   map mr_result (results (store w2')) = map mr_result (results (store w')) /\
   map (set_last 0) (alerts (store w2')) = map (set_last 0) (alerts (store w'))).
Proof.
  intros Hok Hc H. apply PersistResults_inr in H as E.
  destruct (batch_ok float_text rs (clock w) (store w) Hok) as (Hok' & _ & _). rewrite <- E in Hok'.
  split; [split; [|split; [|split]]|].
  - intros r Hr. rewrite E. by apply batch_has.
  - intros x Hx Hk. rewrite E. by apply batch_keeps.
  - intros x Hx. rewrite E in Hx. apply batch_from in Hx as [[Hx _]|Hx]; auto.
  - intros r a Hr Ha. rewrite E. by eapply batch_raised.
  - intros E2 H2. apply PersistResults_inr in H2 as ->. rewrite E2. apply batch_again; [done|].
    intros r Hr. split.
    + rewrite E. destruct (batch_has float_text rs (clock w) (store w) r Hc Hr) as (x & Hx & Er & _). by exists x.
    + rewrite E. by apply batch_raised.
Qed.

(** *** The coverage alert *)

(** Counts as the extraction makes them. *)
Definition counted (rows : list DimRow) : Prop :=
  Z.of_nat (length rows) < 2 ^ 53 /\
  Forall (fun r => 0 <= ActiveBindings r <= 1 /\ 0 <= BindingsWithSubstitute r <= 1) rows.
Lemma sum_of_bound f rows :
  Forall (fun r => 0 <= f r <= 1) rows -> 0 <= sum_of f rows <= Z.of_nat (length rows).
Proof. induction 1 as [|r rows H1 H2 IH]; simpl length; cbn [sum_of fold_right]; unfold sum_of in *; lia. Qed.
Lemma counted_sums rows cap :
  counted rows ->
  0 <= sum_of ActiveBindings (rows_of cap rows) < 2 ^ 53 /\
  0 <= sum_of BindingsWithSubstitute (rows_of cap rows) < 2 ^ 53.
Proof.
  intros [Hl Hf]. pose proof (rows_where_length (fun r => Capability r =s cap) rows) as Hle. fold (rows_of cap rows) in Hle.
  assert (Hf' : Forall (fun r => 0 <= ActiveBindings r <= 1 /\ 0 <= BindingsWithSubstitute r <= 1) (rows_of cap rows)).
  { apply Forall_forall. intros r Hr. apply elem_of_rows_where in Hr as [Hr _].
    by apply (proj1 (Forall_forall _ _) Hf). }
  split.
  - pose proof (sum_of_bound ActiveBindings (rows_of cap rows) (Forall_impl _ _ _ Hf' (fun r H => proj1 H))). lia.
  - pose proof (sum_of_bound BindingsWithSubstitute (rows_of cap rows) (Forall_impl _ _ _ Hf' (fun r H => proj2 H))). lia.
Qed.
Lemma below_floor_iff rev rows cap :
  counted rows ->
  (below_floor (substitution rev rows cap) <> None <->
   2 * sum_of BindingsWithSubstitute (rows_of cap rows) < sum_of ActiveBindings (rows_of cap rows)).
Proof.
  intros Hc. destruct (counted_sums rows cap Hc) as [Ha Hs].
  unfold substitution. rewrite !sum64_sum_of.
  rewrite !Int64.wrap_id by (unfold Int64.min, Int64.max; lia).
  destruct (Z.eqb_spec (sum_of ActiveBindings (rows_of cap rows)) 0) as [E|E].
  - cbn. split; [done|]. lia.
  - unfold below_floor. cbn [Value MetricKey Status mr]. rewrite !str_eqb_refl. cbn [andb].
    rewrite Float64.below_half by lia. rewrite <- Z.ltb_lt. by destruct (_ <? _).
Qed.

Definition floor_rule : string := "substitution_coverage_below_floor.v1".
Lemma floor_alert float_text r a :
  alert_of float_text r = Some a -> al_rule a = floor_rule ->
  below_floor r <> None /\ al_kind a = "capability" /\ al_entity a = dim (Dimensions r) "capability".
Proof.
  unfold alert_of. destruct (below_floor r).
  - destruct (_ =s _); [done|]. by intros [= <-].
  - destruct (_ && _); [by intros [= <-]|]. destruct (_ && _); [by intros [= <-]|done].
Qed.
Lemma below_floor_key r : below_floor r <> None -> MetricKey r = KeySubstitutionCoverage.
Proof.
  unfold below_floor. destruct (Value r); [|done].
  destruct (String.eqb_spec (MetricKey r) KeySubstitutionCoverage); [done|]. by intros [].
Qed.
Lemma substitution_dim rev rows cap : dim (Dimensions (substitution rev rows cap)) "capability" = cap.
Proof. by rewrite (proj2 (substitution_key rev rows cap)). Qed.

(** The coverage alert, from the rows to the ledger: after the metrics of
    a dataset are persisted, a capability has an alert of this revision exactly
    when fewer than half as many of its rows have a substitute as are live.
    The comparison is made on the rounded float64 quotient; for counts below
    2^53 it is exact. *)
Theorem coverage_alert `{MO : MapOrder} float_text rev rows cap w w' u :
  counted rows -> cap <> "" ->
  (forall x, x ∈ alerts (store w) -> ra_revision x <> rev) ->
  PersistResults float_text (ComputeV1 (MkDataset rev rows)) w = (inr u, w') ->
  ((exists x, x ∈ alerts (store w') /\ ra_rule x = floor_rule /\ ra_entity x = cap /\ ra_revision x = rev) <->
   2 * sum_of BindingsWithSubstitute (rows_of cap rows) < sum_of ActiveBindings (rows_of cap rows)).
Proof.
  intros Hc Hne Hold H. apply PersistResults_inr in H. rewrite H. clear H.
  rewrite <- (below_floor_iff rev rows cap Hc). split.
  - intros (x & Hx & Hrule & He & Hrev). apply batch_alert_from in Hx as [Hx|(r & a & Hr & Ha & Hk & _)].
    { by destruct (Hold x Hx). }
    apply alert_key_spec in Hk. injection Hk as K1 K2 K3 K4. rewrite Hrule in K1.
    destruct (floor_alert _ _ _ Ha (eq_sym K1)) as (Hb & _ & Hent).
    unfold ComputeV1, sortResults in Hr. rewrite merge_sort_Permutation in Hr.
    pose proof (below_floor_key r Hb) as Hkey.
    apply elem_of_computed in Hr as [->|(c & _ & [->| ->])].
    + by rewrite (proj1 (concentration_key _ _ _)) in Hkey.
    + rewrite substitution_dim in Hent. by rewrite <- He, K3, Hent.
    + by rewrite (proj1 (compatibility_key _ _ _)) in Hkey.
  - intros Hb. set (r := substitution rev rows cap) in *.
    assert (Hin : r ∈ ComputeV1 (MkDataset rev rows)).
    { unfold ComputeV1, sortResults. rewrite merge_sort_Permutation. apply elem_of_computed. right.
      exists cap. split; [|by left]. apply list_elem_of_In, filter_In. split; [|by apply negb_true_iff, String.eqb_neq].
      apply list_elem_of_In, elem_of_remove_dups. destruct (rows_of cap rows) as [|y l] eqn:E.
      - exfalso. unfold r, substitution in Hb. rewrite E in Hb. by apply Hb.
      - assert (Hy : y ∈ rows_of cap rows) by (rewrite E; left). apply elem_of_rows_where in Hy as [Hy Hk].
        apply String.eqb_eq in Hk. rewrite <- Hk. apply list_elem_of_In, in_map. by apply list_elem_of_In. }
    destruct (below_floor r) as [v|] eqn:Ev; [|done].
    assert (Ha : alert_of float_text r = Some (MkAlert floor_rule "capability" cap SeverityMedium
                   (JObj [("floor", JNum "0.5"); ("coverage", JNum (float_text v))]))).
    { unfold alert_of. rewrite Ev. unfold r. rewrite substitution_dim. apply String.eqb_neq in Hne. by rewrite Hne. }
    destruct (batch_raised float_text _ (clock w) (store w) r Hin _ Ha) as (x & Hx & Hk).
    apply alert_key_spec in Hk. injection Hk as K1 K2 K3 K4. exists x. split; [done|]. split; [done|]. split; [done|].
    rewrite K4. unfold r, substitution. by destruct (_ =? 0).
Qed.

Definition text_of (v : Float64.t) : string := "0".
Definition empty_ledger : MetricsDb := MkMetricsDb empty_db 13 [] [] 1.
Lemma empty_ledger_ok : ledger_ok empty_ledger.
Proof. split; intros i j a b Hi; discriminate Hi. Qed.
Definition once : World MetricsDb :=
  Eval vm_compute in (PersistResults text_of (ComputeV1 data0) (MkWorld empty_ledger [] 5)).2.
Definition twice : World MetricsDb :=
  Eval vm_compute in (PersistResults text_of (ComputeV1 data0) (MkWorld (store once) [] 9)).2.
Lemma run_once : PersistResults text_of (ComputeV1 data0) (MkWorld empty_ledger [] 5) = (inr tt, once).
Proof. vm_compute. reflexivity. Qed.
Lemma run_twice : PersistResults text_of (ComputeV1 data0) (MkWorld (store once) [] 9) = (inr tt, twice).
Proof. vm_compute. reflexivity. Qed.

Lemma coverage_alert_witness :
  exists x, x ∈ alerts (store once) /\ ra_rule x = floor_rule /\ ra_entity x = "chat" /\ ra_revision x = 7.
Proof.
  apply (coverage_alert text_of 7 rows0 "chat" (MkWorld empty_ledger [] 5) _ tt);
    [|discriminate|intros x Hx; by apply elem_of_nil in Hx|exact run_once|].
  - split; [vm_compute; reflexivity|]. repeat constructor; vm_compute; discriminate.
  - vm_compute. reflexivity.
Defined.
Lemma ledger_history_witness : rows_kept result_later (results (store once)) (results (store twice)).
Proof.
  apply (ledger_history text_of).
  - destruct (batch_ok text_of (ComputeV1 data0) 5 empty_ledger empty_ledger_ok) as (H & _ & _).
    rewrite (PersistResults_inr _ _ _ _ _ run_once). exact H.
  - apply star_one. exists (ComputeV1 data0), [], 9, tt, twice. split; [exact run_twice|reflexivity].
Defined.
Lemma PersistResults_effect_witness :
  map mr_result (results (store twice)) = map mr_result (results (store once)).
Proof.
  exact (proj1 (proj2 (PersistResults_effect text_of (ComputeV1 data0) (MkWorld empty_ledger [] 5) once
    (MkWorld (store once) [] 9) twice tt tt empty_ledger_ok (computed_consistent _ _) run_once) eq_refl run_twice)).
Defined.

(** *** A substitute that is not live *)

Definition binding (id prov snap : Z) (key : string) : BindingRow :=
  MkBindingRow id key 1 prov snap "default" "prod" (MkScope [] [] [] []) "" (JObj []) 0 BindPublished 1 true
    "" "" "" None "t1".
Definition expired_db : Database :=
  with_bindings [binding 10 2 4 "k1"; binding 11 3 5 "k2"]
    (with_snapshots [MkSnapshotRow 4 2 1 "c1" "" "" "" [] 0 1000 RegPublished;
                     MkSnapshotRow 5 3 1 "c1" "" "" "" [] 0 50 RegPublished]
      (with_providers [MkProviderRow 2 "p" "t" "e" "o" "w" RegPublished 1 1 None;
                       MkProviderRow 3 "q" "t" "e" "o2" "w" RegPublished 1 1 None]
        (with_capabilities [MkCapabilityRow 1 "chat" 1 1 "t" (JObj []) RegPublished] empty_db))).
Definition expired_rows : list DimRow :=
  mark_duplicates (extracted String.compare 100 expired_db).
(** A binding whose snapshot has expired still counts as substitute, and
    its own row counts as substituted: with one live binding and one expired,
    the coverage of the capability is the float 2.0, not 0, and no alert is
    raised. *)
Theorem coverage_above_one rev :
  map (fun r => (ActiveBindings r, BindingsWithSubstitute r)) expired_rows = [(1, 1); (0, 1)] /\
  Value (substitution rev expired_rows "chat") = Some (SpecFloat.S754_finite false 4503599627370496 (-51)) /\
  Float64.of_int 2 = SpecFloat.S754_finite false 4503599627370496 (-51) /\
  below_floor (substitution rev expired_rows "chat") = None.
Proof. vm_compute. done. Qed.
End MetricsProps.
