(* ===== verification/Auth.v ===== *)
(** * Identity, decisions and approvals (src/internal/platform)

    Module [Authn] is authn/validator.go: the key cache, the validation of an
    access token, the trusted identity.  [Authz] is authz/pdp.go, [Approval]
    approval/client.go, [Workload] workload/verify.go.  A call of another
    service is an [http_do] of [GoHttp]; golang-jwt is the interface [Jwt],
    which says what the options handed to its parser promise.  The theorems:
    what an accepted token has passed and where its key comes from; that only
    an allowing 200 reply of the decision point allows; when an approval
    covers a requester. *)

From S2P Require Import Prelude GoStd GoJson GoTime GoUnmarshal GoHttp Sql Schema.

(** [strings.TrimRight(s, "/")] *)
Fixpoint drop_slashes (s : list ascii) : list ascii :=
  match s with
  | c :: s' => if Ascii.eqb c "/" then drop_slashes s' else s
  | [] => []
  end.
Definition trim_slashes (s : string) : string :=
  String.string_of_list_ascii (rev (drop_slashes (rev (bytes_of_string s)))).

(** ** Access tokens *)

Module Authn.

Definition ErrUnauthenticated : err := ETyped "unauthenticated" "".

(** The members of a decoded JSON object. *)
Definition Claims : Type := list (string * json).

Record Identity : Type := MkIdentity {
  Subject : string;
  TenantRef : string;
  Scopes : list string;
  TokenID : string;
  Expiry : option Z;
  Environments : list string;
}.
Definition HasScope (i : Identity) (s : string) : bool := existsb (fun sc => sc =s s) (Scopes i).

(** rsa.PublicKey *)
Record PublicKey : Type := MkPublicKey { pk_N : Z; pk_E : Z }.
Definition jwkToRSAPublic (nB64 eB64 : string) : option PublicKey :=
  n ← base64_raw_url nB64;
  e ← base64_raw_url eB64;
  if 8 <? Z.of_nat (length e) then None
  else
    let E := Int64.wrap (big_endian e) in
    if (E =? 0) || (Z.rem E 2 =? 0) then None else Some (MkPublicKey (big_endian n) E).

Record Jwk : Type := MkJwk { Kid : string; Kty : string; N_ : string; E_ : string }.
Definition jwk_value : decoder Jwk := fun old j =>
  match struct_members j with
  | None => (true, old)
  | Some fs =>
      let '(b1, kid) := field string_value (Kid old) "kid" fs in
      let '(b2, kty) := field string_value (Kty old) "kty" fs in
      let '(b3, n) := field string_value (N_ old) "n" fs in
      let '(b4, e) := field string_value (E_ old) "e" fs in
      (b1 || b2 || b3 || b4, MkJwk kid kty n e)
  end.
Definition jwksDoc (body : string) : option (list Jwk) :=
  j ← first_value body;
  fs ← struct_members j;
  let '(bad, ks) := field (slice_value jwk_value (MkJwk "" "" "" "")) [] "keys" fs in
  if bad : bool then None else Some ks.
(** The keys of a document that can be used, the last of an id in force. *)
Definition add_key (m : gmap string PublicKey) (k : Jwk) : gmap string PublicKey :=
  if negb (Kty k =s "RSA") then m
  else match jwkToRSAPublic (N_ k) (E_ k) with
       | Some pk => <[Kid k := pk]> m
       | None => m
       end.
Definition usable (doc : list Jwk) : gmap string PublicKey := fold_left add_key doc ∅.

(** Validator: the configuration, and the cache of keys.  A [fetched] of
    [None] is the zero time. *)
Record Validator : Type := MkValidator { issuer : string; audience : string; jwksURL : string }.
Record KeyCache : Type := MkKeyCache { keys : gmap string PublicKey; fetched : option Z }.
Definition cacheTTL : Z := 10 * GoTime.Minute.
Definition leeway : Z := 5 * GoTime.Second.
Record AuthState : Type := MkAuthState { cached : KeyCache; net : Net }.
Definition with_net (n : Net) (s : AuthState) : AuthState := MkAuthState (cached s) n.
Definition with_cached (c : KeyCache) (s : AuthState) : AuthState := MkAuthState c (net s).
Definition Auth A : Type := M AuthState A.
Definition on_net {A} (m : M Net A) : Auth A := zoom net with_net m.

Definition GET (url : string) (h : Header) : HttpRequest := MkHttpRequest "GET" url h "".
(** [Do], and the body of a 200 reply. *)
Definition get_ok (q : HttpRequest) : M Net string :=
  let! r := http_do q in
  match r with
  | Some (status, body) => if status =? 200 then ret body else throw plain_error
  | None => throw plain_error
  end.

Definition discovery_url (iss : string) : string := trim_slashes iss +:+ "/.well-known/openid-configuration".
Definition discoverJWKS (iss : string) : M Net string :=
  let! body := get_ok (GET (discovery_url iss) []) in
  match first_value body with
  | Some j =>
      match struct_members j with
      | Some fs =>
          let '(bad, uri) := field string_value "" "jwks_uri" fs in
          if bad || (uri =s "") then throw plain_error else ret uri
      | None => throw plain_error
      end
  | None => throw plain_error
  end.
(** [url_parses]: whether url.Parse takes the text. *)
Definition NewValidator (url_parses : string -> bool) (iss aud : string) : M Net Validator :=
  guard ((iss =s "") || (aud =s "")) plain_error ;!
  guard (negb (url_parses (discovery_url iss))) plain_error ;!
  let! r := attempt (discoverJWKS iss) in
  ret (MkValidator iss aud
         match r with
         | inr jwks => jwks
         | inl _ => trim_slashes iss +:+ "/protocol/openid-connect/certs"
         end).

Section Validate.
Context (v : Validator).

Definition is_fresh (t : Z) (c : KeyCache) : bool :=
  match fetched c with
  | Some f => (t - f <? cacheTTL) && negb (bool_decide (keys c = ∅))
  | None => false
  end.
Definition refreshKeys (force : bool) : Auth unit :=
  let! t := now in
  let! fresh := gets (fun s => is_fresh t (cached s)) in
  if fresh && negb force then ret tt
  else
    let! body := on_net (get_ok (GET (jwksURL v) [])) in
    match jwksDoc body with
    | None => throw plain_error
    | Some doc =>
        guard (bool_decide (usable doc = ∅)) plain_error ;!
        let! t := now in
        modify (with_cached (MkKeyCache (usable doc) (Some t)))
    end.

Definition key_of (kid : string) : Auth (option PublicKey) := gets (fun s => keys (cached s) !! kid).
(** The function the parser asks for the key of a token with this header. *)
Definition keyfunc (header : Claims) : Auth PublicKey :=
  let kid := str (last_member "kid" header) in
  guard (kid =s "") ErrUnauthenticated ;!
  catch (refreshKeys false) (fun _ => throw ErrUnauthenticated) ;!
  let! key := key_of kid in
  match key with
  | Some key => ret key
  | None =>
      catch (refreshKeys true) (fun _ => throw ErrUnauthenticated) ;!
      let! key := key_of kid in
      match key with
      | Some key => ret key
      | None => throw ErrUnauthenticated
      end
  end.
End Validate.

(** golang-jwt's parser.  [unverified]: header and claims of a well-formed
    token signed with the one method allowed, RS256; [verifies]: its signature
    under a key; [claims_valid]: the options WithIssuer, WithAudience,
    WithExpirationRequired and WithLeeway; [expiration]:
    GetExpirationTime. *)
Class Jwt := {
  unverified : string -> option (Claims * Claims);
  verifies : string -> PublicKey -> bool;
  claims_valid : string -> string -> Z -> Z -> Claims -> bool;
  expiration : Claims -> option Z;
  valid_issuer iss aud l t c : claims_valid iss aud l t c = true -> last_member "iss" c = Some (JStr iss);
  valid_audience iss aud l t c : claims_valid iss aud l t c = true ->
    last_member "aud" c = Some (JStr aud) \/
    exists l, last_member "aud" c = Some (JArr l) /\ JStr aud ∈ l;
  valid_expiry iss aud l t c : claims_valid iss aud l t c = true ->
    exists e, expiration c = Some e /\ t < e + l;
}.

Section Token.
Context `{Jwt} (v : Validator).

(** ParseWithClaims: the parser decodes, asks for the key, checks the
    signature and then the claims. *)
Definition ParseWithClaims (raw : string) : Auth Claims :=
  match unverified raw with
  | None => throw ErrUnauthenticated
  | Some (header, claims) =>
      let! key := keyfunc v header in
      guard (negb (verifies raw key)) ErrUnauthenticated ;!
      let! t := now in
      guard (negb (claims_valid (issuer v) (audience v) leeway t claims)) ErrUnauthenticated ;!
      ret claims
  end.

Definition userinfoSubject (raw : string) : M Net string :=
  let! body := get_ok (GET (trim_slashes (issuer v) +:+ "/protocol/openid-connect/userinfo")
                         (header_set "Authorization" ("Bearer " +:+ raw) [])) in
  match first_value body with
  | Some j =>
      match struct_members j with
      | Some fs =>
          let '(bad, sub) := field string_value "" "sub" fs in
          if bad || (sub =s "") then throw plain_error else ret sub
      | None => throw plain_error
      end
  | None => throw plain_error
  end.

Definition scopes_of (claims : Claims) : list string :=
  match last_member "scope" claims with Some (JStr sc) => strings_Fields sc | _ => [] end.
Definition environments_of (claims : Claims) : list string :=
  match last_member "environments" claims with
  | Some (JArr l) => List.filter (fun s => negb (s =s "")) (map (fun e => str (Some e)) l)
  | _ => []
  end.
Definition Validate (rawToken : string) : Auth Identity :=
  let raw := GoString.trim_space rawToken in
  guard (raw =s "") ErrUnauthenticated ;!
  let! claims := catch (ParseWithClaims raw) (fun _ => throw ErrUnauthenticated) in
  let sub := str (last_member "sub" claims) in
  let! subject := (if sub =s ""
                   then catch (on_net (userinfoSubject raw)) (fun _ => throw ErrUnauthenticated)
                   else ret sub) in
  ret (MkIdentity subject (str (last_member "tenant_ref" claims)) (scopes_of claims)
         (str (last_member "jti" claims)) (expiration claims) (environments_of claims)).
End Token.

(** [%x-%x-%x-%x-%x] of 16 random bytes; [None] is an error of rand.Read. *)
Definition hex_bytes (bs : list Z) : string :=
  String.string_of_list_ascii
    (concat (map (fun b => [hexdigit (b / 16); hexdigit (b mod 16)]) bs)).
Definition nil_uuid : string := "00000000-0000-0000-0000-000000000000".
Definition set_byte (i : nat) (f : Z -> Z) (bs : list Z) : list Z := alter f i bs.
Definition NewRequestID (rand : option (list Z)) : string :=
  match rand with
  | None => nil_uuid
  | Some b =>
      let b := set_byte 6 (fun x => Z.lor (Z.land x 15) 64) b in
      let b := set_byte 8 (fun x => Z.lor (Z.land x 63) 128) b in
      GoString.join "-" (map (fun '(i, n) => hex_bytes (take n (drop i b)))
                           [(0, 4); (4, 2); (6, 2); (8, 2); (10, 6)]%nat)
  end.
End Authn.

(** ** The decision point *)

Module Authz.

Record Entity : Type := MkEntity {
  Type_ : string;
  ID : string;
  Name : string;
  Properties : list (string * json); (* in the order of their names *)
}.
Record Evaluation : Type := MkEvaluation {
  EvSubject : Entity;
  EvAction : Entity;
  EvResource : Entity;
  EvContext : list (string * json);  (* in the order of their names *)
}.
Record Decision : Type := MkDecision {
  Allow : bool;
  Context_ : list (string * json);
  DecisionID : string;
}.
Definition ErrDenied : err := ETyped "forbidden" "".

Definition omit (k : string) (empty : bool) (j : json) : list (string * json) := if empty then [] else [(k, j)].
Definition entity_json (e : Entity) : json :=
  JObj (omit "type" (Type_ e =s "") (JStr (Type_ e)) ++ omit "id" (ID e =s "") (JStr (ID e)) ++
        omit "name" (Name e =s "") (JStr (Name e)) ++
        omit "properties" (bool_decide (Properties e = [])) (JObj (Properties e))).
Definition evaluation_json (ev : Evaluation) : json :=
  JObj ([("subject", entity_json (EvSubject ev)); ("action", entity_json (EvAction ev));
         ("resource", entity_json (EvResource ev))] ++
        omit "context" (bool_decide (EvContext ev = [])) (JObj (EvContext ev))).

Section Client.
Context (endpoint : string).

Definition request_headers (rid : string) : Header :=
  header_set "X-Request-ID" (if rid =s "" then Authn.nil_uuid else rid)
    (header_set "Content-Type" "application/json" []).
Definition evaluation_request (rid : string) (ev : Evaluation) : HttpRequest :=
  MkHttpRequest "POST" endpoint (request_headers rid) (marshal (evaluation_json ev)).
Definition decode_decision (body : string) : option Decision :=
  j ← first_value body;
  fs ← struct_members j;
  let '(b1, allow) := field bool_value false "decision" fs in
  let '(b2, ctx) := field object_value [] "context" fs in
  if b1 || b2 then None else Some (MkDecision allow ctx (str (last_member "policy_decision_id" ctx))).
Definition Evaluate (rid : string) (ev : Evaluation) : M Net Decision :=
  let! r := http_do (evaluation_request rid ev) in
  match r with
  | None => throw ErrDenied
  | Some (status, body) =>
      guard (negb (status =? 200)) ErrDenied ;!
      match decode_decision body with
      | None => throw ErrDenied
      | Some out => guard (negb (Allow out)) ErrDenied ;! ret out
      end
  end.
End Client.
End Authz.

(** ** Approvals *)

Module Approval.

Record Request : Type := MkRequest {
  Action : string;
  ResourceRef : string;
  RqRequesterRef : string;
  RqTenantRef : string;
  RqObjectDigest : string;
  ExpiresAt : Z; (* in UTC *)
}.
Record Decision : Type := MkDecision {
  ApprovalRef : string;
  Status : string;
  RequesterRef : string;
  ApproverRefs : list string;
  DecidedAt : option Z;
  ObjectDigest : string;
}.
Definition wildcardDigest : string := "sha256:mock".
Definition ErrRejected : err := ETyped "approval rejected" "".

Definition request_json (q : Request) : json :=
  JObj ([("action", JStr (Action q)); ("resource_ref", JStr (ResourceRef q));
         ("requester_ref", JStr (RqRequesterRef q))] ++
        Authz.omit "tenant_ref" (RqTenantRef q =s "") (JStr (RqTenantRef q)) ++
        [("object_digest", JStr (RqObjectDigest q)); ("expires_at", JStr (GoTime.rfc3339_nano (ExpiresAt q)))]).
Definition decode_decision (body : string) : option Decision :=
  j ← first_value body;
  fs ← struct_members j;
  let '(b1, ref) := field string_value "" "approval_ref" fs in
  let '(b2, status) := field string_value "" "status" fs in
  let '(b3, requester) := field string_value "" "requester_ref" fs in
  let '(b4, approvers) := field (slice_value string_value "") [] "approver_refs" fs in
  let '(b5, at_) := field time_value None "decided_at" fs in
  let '(b6, digest) := field string_value "" "object_digest" fs in
  if b1 || b2 || b3 || b4 || b5 || b6 then None
  else Some (MkDecision ref status requester approvers at_ digest).

Section Client.
Context (baseURL : string).
Definition createEndpoint : string := baseURL +:+ "/approvals/v1/requests".
(** The template with its one verb replaced; the base URL holds no percent sign. *)
Definition get_url (ref : string) : string := baseURL +:+ "/approvals/v1/requests/" +:+ ref.
Definition rid_header (rid : string) (h : Header) : Header :=
  header_set "X-Request-ID" (if rid =s "" then Authn.nil_uuid else rid) h.
(** The decision in a reply with an accepted status. *)
Definition decision_of (ok : Z -> bool) (r : option (Z * string)) : M Net Decision :=
  match r with
  | None => throw ErrRejected
  | Some (status, body) =>
      guard (negb (ok status)) ErrRejected ;!
      match decode_decision body with
      | None => throw ErrRejected
      | Some d => ret d
      end
  end.
Definition Create (rid : string) (q : Request) : M Net Decision :=
  let! r := http_do (MkHttpRequest "POST" createEndpoint
                       (rid_header rid (header_set "Content-Type" "application/json" []))
                       (marshal (request_json q))) in
  decision_of (fun s => (s =? 202) || (s =? 200)) r.
Definition Get (rid ref : string) : M Net Decision :=
  let! r := http_do (MkHttpRequest "GET" (get_url ref) (rid_header rid []) "") in
  decision_of (fun s => s =? 200) r.
End Client.

Definition SatisfiedFor (d : Decision) (requesterRef objectDigest : string) : bool :=
  if negb (Status d =s "APPROVED") || bool_decide (DecidedAt d = None) || (ApprovalRef d =s "") then false
  else if (RequesterRef d =s "") || negb (RequesterRef d =s requesterRef) then false
  else if existsb (fun a => a =s requesterRef) (ApproverRefs d) then false
  else if bool_decide (ApproverRefs d = []) then false
  else if negb (ObjectDigest d =s "") && negb (objectDigest =s "") &&
          negb (ObjectDigest d =s objectDigest) && negb (ObjectDigest d =s wildcardDigest) then false
  else true.
End Approval.

(** ** Workload certificates *)

Module Workload.

Definition ErrRejected : err := ETyped "workload certificate rejected" "".
Definition AllowedSAN : string := "spiffe://saoaf.test/".

(** url.URL: the scheme, the text of [String] and the path. *)
Record URL : Type := MkURL { Scheme : string; Text : string; Path : string }.
(** x509.Certificate: the URIs; [None] is a nil pointer. *)
Record Certificate : Type := MkCertificate { URIs : list (option URL); Raw : string }.
Record Chain : Type := MkChain { Leaf : option Certificate; Intermediates : list Certificate }.

Definition SPIFFESAN (c : Certificate) : err + string :=
  match List.find (fun u => match u with Some u => Scheme u =s "spiffe" | None => false end) (URIs c) with
  | Some (Some u) => inr (Text u)
  | _ => inl ErrRejected
  end.

Section Verifier.
(** [verifies roots leaf intermediates]: x509's verification for client
    authentication; [certs]: AppendCertsFromPEM; [parse]: url.Parse. *)
Context (Pool : Type) (verifies : Pool -> Certificate -> list Certificate -> bool)
        (certs : string -> option Pool) (empty_pool : Pool) (parse : string -> option URL).

Definition trust_domain (d : string) : string :=
  let d := if d =s "" then AllowedSAN else d in
  if GoString.has_prefix (GoString.rev_string d) "/" then d else d +:+ "/".
Record Verifier : Type := MkVerifier { roots : Pool; trustDomain : string }.
Definition NewVerifier (rootsPEM domain : string) : err + Verifier :=
  match (if rootsPEM =s "" then Some empty_pool else certs rootsPEM) with
  | None => inl plain_error
  | Some pool => inr (MkVerifier pool (trust_domain domain))
  end.
Definition Verify (v : Verifier) (chain : Chain) : option err :=
  match Leaf chain with
  | None => Some ErrRejected
  | Some leaf =>
      if negb (verifies (roots v) leaf (Intermediates chain)) then Some ErrRejected
      else match SPIFFESAN leaf with
           | inl e => Some e
           | inr san => if GoString.has_prefix san (trustDomain v) then None else Some ErrRejected
           end
  end.
Definition SANWorkloadID (c : Certificate) : err + string :=
  match SPIFFESAN c with
  | inl e => inl e
  | inr san => match parse san with
               | None => inl ErrRejected
               | Some u => inr (GoString.trim_prefix (Path u) "/ns/")
               end
  end.
End Verifier.
End Workload.

(** ** Lemmas *)

Section Runs.
Import Authn.

Lemma catch_throw_inr {DB A} (m : M DB A) e w a w' :
  catch m (fun _ => throw e) w = (inr a, w') -> m w = (inr a, w').
Proof. unfold catch. by destruct (m w) as [[?|?] ?]. Qed.

Lemma catch_throw_inl {DB A} (m : M DB A) e w e' w' :
  catch m (fun _ => throw e) w = (inl e', w') -> e' = e.
Proof. unfold catch. destruct (m w) as [[?|?] ?]; [by intros [= <- _]|discriminate]. Qed.

Lemma get_ok_inr q w body w' :
  get_ok q w = (inr body, w') ->
  net_grows (store w) (store w') /\ exchanged (store w) (store w') q (Some (200, body)) /\ clock w <= clock w'.
Proof.
  unfold get_ok. intros H. apply bind_inr in H as (a & w1 & E & H).
  apply http_do_run in E as (x & [= <-] & Hg & Hx & Hc & _).
  destruct a as [[s b]|]; [|discriminate]. destruct (Z.eqb_spec s 200) as [->|]; [|discriminate].
  by apply ret_inr in H as [-> ->].
Qed.
Lemma on_net_inr {A} (m : M Net A) w a w' :
  on_net m w = (inr a, w') ->
  exists v v', store v = net (store w) /\ clock v = clock w /\ m v = (inr a, v') /\
    net (store w') = store v' /\ cached (store w') = cached (store w) /\ clock w' = clock v'.
Proof.
  intros H. apply zoom_run in H as (v & v' & H1 & H2 & H3 & H4 & H5). exists v, v'. by rewrite H4.
Qed.
Lemma on_net_get_inr q w body w' :
  on_net (get_ok q) w = (inr body, w') ->
  net_grows (net (store w)) (net (store w')) /\
  exchanged (net (store w)) (net (store w')) q (Some (200, body)) /\
  cached (store w') = cached (store w) /\ clock w <= clock w'.
Proof.
  intros H. apply on_net_inr in H as (x & x' & H1 & H2 & H3 & H4 & H5 & H6).
  apply get_ok_inr in H3 as (? & ? & ?). by rewrite <- H1, H4, H5, H6, <- H2.
Qed.

(** The cache holds a key for [kid] that the key endpoint has served: it was
    served before [s0] and is no older than [cacheTTL], or it was served
    between [s0] and [s]. *)
Definition served (v : Validator) (n n' : Net) (kid : string) (key : PublicKey) : Prop :=
  exists body doc, exchanged n n' (GET (jwksURL v) []) (Some (200, body)) /\
    jwksDoc body = Some doc /\ usable doc !! kid = Some key.

(** What a refresh leaves: the cache it found, fresh, or the document just served. *)
Lemma refreshKeys_inr v force w u w' :
  refreshKeys v force w = (inr u, w') ->
  net_grows (net (store w)) (net (store w')) /\ clock w <= clock w' /\
  is_fresh (clock w') (cached (store w')) = true /\
  ((force = false /\ w' = w) \/
   forall kid key, keys (cached (store w')) !! kid = Some key ->
     served v (net (store w)) (net (store w')) kid key).
Proof.
  unfold refreshKeys. intros H. apply bind_inr in H as (t & w0 & E & H). apply now_inr in E as [-> ->].
  apply bind_inr in H as (fr & w1 & E & H).
  apply gets_inr in E as [-> ->]. destruct (is_fresh (clock w) (cached (store w)) && negb force) eqn:Ef.
  - apply ret_inr in H as [_ ->]. apply andb_true_iff in Ef as [Ef Ff]. split; [apply net_grows_refl|].
    split; [lia|]. split; [done|]. left. by destruct force.
  - apply bind_inr in H as (body & w2 & E & H). apply on_net_get_inr in E as (Hg & Hx & Hc & Ht).
    destruct (jwksDoc body) as [doc|] eqn:Ed; [|discriminate].
    apply bind_inr in H as (u1 & w3 & E & H). apply guard_inr in E as [Hne ->].
    apply bind_inr in H as (t & w0 & E & H). apply now_inr in E as [-> ->]. apply modify_inr in H as ->. simpl. split; [done|]. split; [done|].
    split.
    + unfold is_fresh. simpl. rewrite Z.sub_diag, Hne. by apply bool_decide_eq_false in Hne.
    + right. intros kid key Hk. by exists body, doc.
Qed.

Lemma served_wider v n n1 n2 n' kid key :
  net_grows n n1 -> net_grows n2 n' -> served v n1 n2 kid key -> served v n n' kid key.
Proof.
  intros H1 H2 (body & doc & Hx & Hd & Hk). exists body, doc. split; [|done].
  eapply exchanged_earlier; [done|]. by eapply exchanged_later.
Qed.

Lemma keyfunc_inr v header w key w' :
  keyfunc v header w = (inr key, w') ->
  exists kid, last_member "kid" header = Some (JStr kid) /\ kid <> "" /\
    keys (cached (store w')) !! kid = Some key /\ is_fresh (clock w') (cached (store w')) = true /\
    net_grows (net (store w)) (net (store w')) /\ clock w <= clock w' /\
    (cached (store w') = cached (store w) \/
     served v (net (store w)) (net (store w')) kid key).
Proof.
  unfold keyfunc. intros H. apply bind_inr in H as (u & w1 & E & H). apply guard_inr in E as [Hne ->].
  set (kid := str _) in *. exists kid.
  assert (Hkid : last_member "kid" header = Some (JStr kid)).
  { subst kid. apply String.eqb_neq in Hne. destruct (last_member "kid" header) as [[]|]; simpl in *; congruence. }
  split; [done|]. apply String.eqb_neq in Hne. split; [done|].
  apply bind_inr in H as (u1 & w1 & E & H). apply catch_throw_inr, refreshKeys_inr in E as (Hg & Ht & Hf & Hs).
  apply bind_inr in H as (k & w2 & E & H). apply gets_inr in E as [-> ->].
  destruct (keys (cached (store w1)) !! kid) as [k|] eqn:Ek.
  - apply ret_inr in H as [-> ->]. split_and!; auto. destruct Hs as [[_ ->]|Hs]; auto.
  - apply bind_inr in H as (u2 & w2 & E & H).
    apply catch_throw_inr, refreshKeys_inr in E as (Hg2 & Ht2 & Hf2 & Hs2).
    apply bind_inr in H as (k2 & w3 & E & H). apply gets_inr in E as [-> ->].
    destruct (keys (cached (store w2)) !! kid) as [k2|] eqn:Ek2; [|discriminate].
    apply ret_inr in H as [-> ->]. split_and!; auto; [by eapply net_grows_trans|lia|].
    destruct Hs2 as [[? _]|Hs2]; [done|]. right.
    eapply served_wider; [done|apply net_grows_refl|by apply Hs2].
Qed.
End Runs.

(** ** Theorems *)

Module AuthProps.
Section Tokens.
Import Authn.
Context `{Jwt} (v : Validator).

Lemma ParseWithClaims_inr raw w claims w' :
  ParseWithClaims v raw w = (inr claims, w') ->
  exists header key, unverified raw = Some (header, claims) /\ keyfunc v header w = (inr key, w') /\
    verifies raw key = true /\ claims_valid (issuer v) (audience v) leeway (clock w') claims = true.
Proof using.
  unfold ParseWithClaims. destruct (unverified raw) as [[header c]|]; [|discriminate].
  intros Hr. apply bind_inr in Hr as (key & w1 & E & Hr). apply bind_inr in Hr as (u & w2 & E1 & Hr).
  apply guard_inr in E1 as [E1 ->]. apply bind_inr in Hr as (t & w2 & E2 & Hr). apply now_inr in E2 as [-> ->].
  apply bind_inr in Hr as (u2 & w2 & E2 & Hr). apply guard_inr in E2 as [E2 ->].
  apply ret_inr in Hr as [-> ->]. apply negb_false_iff in E1, E2. by exists header, key.
Qed.

(** The subject: the claim, or the answer of the userinfo endpoint to this token. *)
Definition subject_of (raw : string) (claims : Claims) (n n' : Net) (sub : string) : Prop :=
  sub <> "" /\
  (last_member "sub" claims = Some (JStr sub) \/
   str (last_member "sub" claims) = "" /\
   exists body j fs, exchanged n n' (GET (trim_slashes (issuer v) +:+ "/protocol/openid-connect/userinfo")
       (header_set "Authorization" ("Bearer " +:+ raw) [])) (Some (200, body)) /\
     first_value body = Some j /\ struct_members j = Some fs /\ field string_value "" "sub" fs = (false, sub)).

Lemma subject_inr raw claims w sub w' :
  (if str (last_member "sub" claims) =s ""
   then catch (on_net (userinfoSubject v raw)) (fun _ => throw ErrUnauthenticated)
   else ret (str (last_member "sub" claims))) w = (inr sub, w') ->
  cached (store w') = cached (store w) /\ clock w <= clock w' /\
  net_grows (net (store w)) (net (store w')) /\
  subject_of raw claims (net (store w)) (net (store w')) sub.
Proof using.
  destruct (String.eqb_spec (str (last_member "sub" claims)) "") as [He|Hne]; intros Hr.
  - apply catch_throw_inr, on_net_inr in Hr as (x & x' & H1 & H2 & H3 & H4 & H5 & H6).
    unfold userinfoSubject in H3. apply bind_inr in H3 as (body & x1 & E & H3).
    apply get_ok_inr in E as (G1 & G2 & G3).
    destruct (first_value body) as [j|] eqn:E1; [|discriminate].
    destruct (struct_members j) as [fs|] eqn:E2; [|discriminate].
    destruct (field string_value "" "sub" fs) as [bad s] eqn:E3.
    destruct (bad || (s =s "")) eqn:E4; [discriminate|]. apply ret_inr in H3 as [-> ->].
    apply orb_false_iff in E4 as [-> E4]. apply String.eqb_neq in E4.
    rewrite H4, H5, H6, <- H1, <- H2. split_and!; auto. split; [done|]. right. split; [done|].
    by exists body, j, fs.
  - apply ret_inr in Hr as [-> ->]. split_and!; auto; [lia|apply net_grows_refl|]. split; [done|]. left.
    by destruct (last_member "sub" claims) as [[]|].
Qed.

(** C21. An identity is only given to a token whose signature verifies under
    the cached key of its kid, the cache being less than ten minutes old when
    the claims are checked and the key, unless it was cached before, one the
    issuer's key endpoint has just served; the token was issued by the issuer
    for the audience and expired at most five seconds ago; tenant, scopes and
    environments are the token's claims, and the subject is the claim or what
    the userinfo endpoint says of this token.  Every refusal is the one coarse
    error. *)
Theorem Validate_sound raw w x w' (Hrun : Validate v raw w = (x, w')) :
  match x with
  | inl e => e = ErrUnauthenticated
  | inr id =>
      let tok := GoString.trim_space raw in
      exists header claims kid key t,
        unverified tok = Some (header, claims) /\ last_member "kid" header = Some (JStr kid) /\
        verifies tok key = true /\ keys (cached (store w')) !! kid = Some key /\
        clock w <= t <= clock w' /\ is_fresh t (cached (store w')) = true /\
        (cached (store w') = cached (store w) \/ served v (net (store w)) (net (store w')) kid key) /\
        last_member "iss" claims = Some (JStr (issuer v)) /\
        (last_member "aud" claims = Some (JStr (audience v)) \/
         exists l, last_member "aud" claims = Some (JArr l) /\ JStr (audience v) ∈ l) /\
        (exists e, Expiry id = Some e /\ t < e + leeway) /\
        subject_of tok claims (net (store w)) (net (store w')) (Subject id) /\
        TenantRef id = str (last_member "tenant_ref" claims) /\ Scopes id = scopes_of claims /\
        Environments id = environments_of claims
  end.
Proof using.
  destruct x as [e|id].
  - unfold Validate, bind in Hrun. unfold guard in Hrun.
    destruct (_ =s ""); [by injection Hrun|]. simpl in Hrun.
    destruct (catch _ _ w) as [[e1|claims] w1] eqn:E; [apply catch_throw_inl in E; congruence|].
    destruct (str (last_member "sub" claims) =s ""); [|discriminate].
    destruct (catch _ _ w1) as [[e1|sub] w2] eqn:E1; [apply catch_throw_inl in E1; congruence|discriminate].
  - unfold Validate in Hrun. apply bind_inr in Hrun as (u & w1 & E & Hrun). apply guard_inr in E as [_ ->].
    apply bind_inr in Hrun as (claims & w1 & E & Hrun).
    apply catch_throw_inr, ParseWithClaims_inr in E as (header & key & Eu & Ek & Ev & Ec).
    apply keyfunc_inr in Ek as (kid & Hkid & _ & Hk & Hf & Hg & Ht & Hs).
    apply bind_inr in Hrun as (sub & w2 & E & Hrun). apply subject_inr in E as (Hc & Ht2 & Hg2 & Hsub).
    apply ret_inr in Hrun as [-> ->]. cbv zeta. exists header, claims, kid, key, (clock w1). rewrite Hc.
    split_and!; auto.
    + destruct Hs as [->|Hs]; [by left|right]. eapply served_wider; [apply net_grows_refl|done|done].
    + by eapply valid_issuer.
    + by eapply valid_audience.
    + by eapply valid_expiry.
    + destruct Hsub as [Hne [Hsub|(He & body & j & fs & Hx & Hj)]]; split; auto. right. split; [done|].
      exists body, j, fs. split; [|done]. by eapply exchanged_earlier.
Qed.
End Tokens.

(** Only a 200 reply to this evaluation whose decision is true allows. *)
Lemma Evaluate_run endpoint rid ev w x w' :
  Authz.Evaluate endpoint rid ev w = (x, w') ->
  net_grows (store w) (store w') /\
  match x with
  | inl e => e = Authz.ErrDenied
  | inr d => exists body, exchanged (store w) (store w') (Authz.evaluation_request endpoint rid ev) (Some (200, body)) /\
               Authz.decode_decision body = Some d /\ Authz.Allow d = true
  end.
Proof.
  unfold Authz.Evaluate. unfold bind at 1.
  destruct (http_do _ w) as [r w1] eqn:E. apply http_do_run in E as (a & -> & Hg & Hx & _ & _).
  destruct a as [[s body]|]; [|by intros [= <- <-]].
  unfold bind, guard. destruct (Z.eqb_spec s 200) as [->|]; simpl; [|by intros [= <- <-]].
  destruct (Authz.decode_decision body) as [d|] eqn:Ed; [|by intros [= <- <-]].
  destruct (Authz.Allow d) eqn:Ea; simpl; intros [= <- <-]; split; auto. by exists body.
Qed.
Lemma Get_inr base rid ref w d w' :
  Approval.Get base rid ref w = (inr d, w') ->
  net_grows (store w) (store w') /\
  exists body, exchanged (store w) (store w')
      (MkHttpRequest "GET" (Approval.get_url base ref) (Approval.rid_header rid []) "") (Some (200, body)) /\
    Approval.decode_decision body = Some d.
Proof.
  unfold Approval.Get. intros H. apply bind_inr in H as (a & w1 & E & H).
  apply http_do_run in E as (x & [= <-] & Hg & Hx & _ & _).
  unfold Approval.decision_of in H. destruct a as [[s body]|]; [|discriminate].
  apply bind_inr in H as (u & w2 & E & H). apply guard_inr in E as [E ->].
  destruct (Z.eqb_spec s 200) as [->|]; [|discriminate].
  destruct (Approval.decode_decision body) as [d'|] eqn:Ed; [|discriminate].
  apply ret_inr in H as [-> ->]. split; [done|]. by exists body.
Qed.

(** When an approval covers a requester and an object: it is approved and
    decided, it was issued to this requester, who is none of its approvers, it
    has an approver, and its digest is the object's where both are known. *)
Lemma SatisfiedFor_iff d requester digest :
  Approval.SatisfiedFor d requester digest = true <->
  Approval.Status d = "APPROVED" /\ Approval.DecidedAt d <> None /\ Approval.ApprovalRef d <> "" /\
  requester <> "" /\ Approval.RequesterRef d = requester /\
  Approval.ApproverRefs d <> [] /\ (requester ∉ Approval.ApproverRefs d) /\
  (Approval.ObjectDigest d = "" \/ digest = "" \/ Approval.ObjectDigest d = digest \/
   Approval.ObjectDigest d = Approval.wildcardDigest).
Proof.
  unfold Approval.SatisfiedFor. fold (str_mem requester (Approval.ApproverRefs d)).
  assert (Hno : forall P : Prop, ~ P -> false = true <-> P) by (intros P HP; split; [discriminate|tauto]).
  destruct (String.eqb_spec (Approval.Status d) "APPROVED"); simpl; [|apply Hno; tauto].
  case_bool_decide; simpl; [apply Hno; tauto|].
  destruct (String.eqb_spec (Approval.ApprovalRef d) ""); simpl; [apply Hno; tauto|].
  destruct (String.eqb_spec (Approval.RequesterRef d) ""); simpl; [apply Hno; intuition congruence|].
  destruct (String.eqb_spec (Approval.RequesterRef d) requester); simpl; [|apply Hno; tauto].
  destruct (str_mem requester (Approval.ApproverRefs d)) eqn:Em.
  { apply str_mem_spec in Em. apply Hno. tauto. }
  apply str_mem_false in Em. case_bool_decide; [apply Hno; tauto|].
  destruct (String.eqb_spec (Approval.ObjectDigest d) ""), (String.eqb_spec digest ""),
    (String.eqb_spec (Approval.ObjectDigest d) digest),
    (String.eqb_spec (Approval.ObjectDigest d) Approval.wildcardDigest); simpl;
    first [apply Hno; tauto | split; [intros _|done]; split_and!; auto; congruence].
Qed.

(** The workload's SPIFFE id is in the trust domain: what follows the domain
    starts with a slash, so that no longer domain name passes. *)
Lemma Verify_trust_domain {Pool} verifies certs empty pem domain
    (v : Workload.Verifier Pool) chain :
  Workload.NewVerifier Pool certs empty pem domain = inr v ->
  Workload.Verify Pool verifies v chain = None ->
  exists leaf u rest, Workload.Leaf chain = Some leaf /\
    verifies (Workload.roots Pool v) leaf (Workload.Intermediates chain) = true /\
    Some u ∈ Workload.URIs leaf /\ Workload.Scheme u = "spiffe" /\
    Workload.Text u = Workload.trust_domain domain +:+ rest.
Proof.
  unfold Workload.NewVerifier, Workload.Verify. intros Hn Hv.
  destruct (if pem =s "" then Some empty else certs pem); [|discriminate]. injection Hn as <-.
  simpl in Hv. destruct (Workload.Leaf chain) as [leaf|]; [|discriminate].
  destruct (verifies p leaf (Workload.Intermediates chain)) eqn:E; [|discriminate]. simpl in Hv.
  unfold Workload.SPIFFESAN in Hv. destruct (List.find _ _) as [[u|]|] eqn:Ef; [|discriminate..].
  apply find_some in Ef as [Hin Hs]. apply list_elem_of_In in Hin. apply String.eqb_eq in Hs.
  destruct (GoString.has_prefix _ _) eqn:Ep; [|discriminate].
  apply GoString.has_prefix_spec in Ep as [rest Ep]. by exists leaf, u, rest.
Qed.

(** The version and the variant of a minted id. *)
Example request_id :
  Authn.NewRequestID (Some (map Z.of_nat (seq 240 16))) = "f0f1f2f3-f4f5-46f7-b8f9-fafbfcfdfeff".
Proof. vm_compute. reflexivity. Qed.

(** *** A run: a token whose key is fetched *)

Definition is_str (s : string) (v : option json) : bool := match v with Some (JStr x) => x =s s | _ => false end.
Lemma is_str_spec s v : is_str s v = true -> v = Some (JStr s).
Proof. destruct v as [[]|]; try discriminate. simpl. by intros <-%String.eqb_eq. Qed.
(** A parser of one token, with the checks of the options. *)
Definition plain_valid (iss aud : string) (l t : Z) (c : Authn.Claims) : bool :=
  is_str iss (last_member "iss" c) && is_str aud (last_member "aud" c) &&
  match last_member "exp" c with
  | Some (JNum n) => match atoi n with Some e => t <? e * GoTime.Second + l | None => false end
  | _ => false
  end.
Definition plain_expiration (c : Authn.Claims) : option Z :=
  match last_member "exp" c with
  | Some (JNum n) => (fun e => e * GoTime.Second) <$> atoi n
  | _ => None
  end.
Definition plain_jwt (token : string) (header claims : Authn.Claims) : Authn.Jwt.
Proof.
  refine {| Authn.unverified := fun raw => if raw =s token then Some (header, claims) else None;
            Authn.verifies := fun _ k => Authn.pk_E k =? 65537;
            Authn.claims_valid := plain_valid; Authn.expiration := plain_expiration |};
    unfold plain_valid, plain_expiration; intros iss aud l t c Hc; repeat apply andb_true_iff in Hc as [Hc ?].
  - by apply is_str_spec.
  - left. by apply is_str_spec.
  - destruct (last_member "exp" c) as [[]|]; try discriminate. destruct (atoi lit); [|discriminate].
    eexists. split; [done|]. by apply Z.ltb_lt.
Defined.

Definition header1 : Authn.Claims := [("alg", JStr "RS256"); ("kid", JStr "k1")].
Definition claims1 : Authn.Claims :=
  [("iss", JStr "https://idp"); ("aud", JStr "saoaf-control-plane"); ("exp", JNum "100");
   ("sub", JStr "user:alice"); ("tenant_ref", JStr "t1"); ("scope", JStr "resource.publish ops.read")].
#[local] Instance jwt1 : Authn.Jwt := plain_jwt "token" header1 claims1.
Definition validator1 : Authn.Validator :=
  Authn.MkValidator "https://idp" "saoaf-control-plane" "https://idp/certs".
Definition jwks1 : string :=
  marshal (JObj [("keys", JArr [JObj [("kty", JStr "RSA"); ("kid", JStr "k1"); ("n", JStr "yw");
                                      ("e", JStr "AQAB")]])]).
Definition no_keys (n : Net) : Authn.AuthState := Authn.MkAuthState (Authn.MkKeyCache ∅ None) n.
Definition auth_w0 : World Authn.AuthState :=
  MkWorld (no_keys (MkNet [MkReply 5 (Some (200, jwks1))] [])) [] (50 * GoTime.Second).
Definition alice : Authn.Identity :=
  Authn.MkIdentity "user:alice" "t1" ["resource.publish"; "ops.read"] "" (Some (100 * GoTime.Second)) [].
Definition auth_w1 : World Authn.AuthState := Eval vm_compute in (Authn.Validate validator1 " token " auth_w0).2.
Lemma Validate_run : Authn.Validate validator1 " token " auth_w0 = (inr alice, auth_w1).
Proof. vm_compute. reflexivity. Qed.
Lemma Validate_sound_witness :
  exists (kid : string) (key : Authn.PublicKey), Authn.keys (Authn.cached (store auth_w1)) !! kid = Some key /\
    served validator1 (Authn.net (store auth_w0)) (Authn.net (store auth_w1)) kid key.
Proof.
  destruct (Validate_sound _ _ _ _ _ Validate_run)
    as (h & c & kid & key & t & _ & _ & _ & Hk & _ & _ & [E|Hs] & _); [discriminate E|].
  by exists kid, key.
Defined.
End AuthProps.
