(* ===== verification/Gateway.v ===== *)
(** * The admin gateway

    Module [Middleware] is src/internal/platform/middleware/middleware.go: the
    identity, scope and approval gates and the rate limiter.  [Admin] is
    src/internal/platform/httpapi/admin.go: the publish endpoint behind them,
    whoami, the audit sink (src/internal/platform/audit/sink.go) and the guard
    against shadowed routes.  [Root] is what
    src/cmd/control-plane-api/main.go puts behind the hooks: the binding
    store's Republish and the audit table.  The theorems: what has to hold for
    the endpoint to change the database, and what it changes; what each answer
    says; the burst of the rate limiter. *)

From S2P Require Import Prelude GoStd GoJson GoTime GoUnmarshal GoFloat GoHttp Sql Schema.
From S2P Require Import Binding BindingStore Auth.

(** The process: the validator's cache and the network, the buckets of the
    rate limiter, the database. *)
Record Bucket : Type := MkBucket { tokens : Float64.t; last_seen : Z }.
Record Api : Type := MkApi {
  auth : Authn.AuthState;
  buckets : gmap string Bucket;
  adb : Database;
}.
Definition with_auth (v : Authn.AuthState) (s : Api) : Api := MkApi v (buckets s) (adb s).
Definition with_buckets (v : gmap string Bucket) (s : Api) : Api := MkApi (auth s) v (adb s).
Definition with_adb (v : Database) (s : Api) : Api := MkApi (auth s) (buckets s) v.
Definition Http A : Type := M Api A.
Definition on_auth {A} (m : Authn.Auth A) : Http A := zoom auth with_auth m.
Definition on_api_net {A} (m : M Net A) : Http A := on_auth (Authn.on_net m).
Definition on_adb {A} (m : Db A) : Http A := zoom adb with_adb m.

(** A request: its headers, the {id} of its path, its body if it has one, and
    the id minted for it when it brings none. *)
Record Incoming : Type := MkIncoming {
  headers : Header;
  url_id : string;
  req_body : option string;
  minted : string;
}.
Record Response : Type := MkResponse { status : Z; body : json }.
Definition WriteErr (s : Z) (code : string) : Response := MkResponse s (JObj [("error_code", JStr code)]).
(** What the middlewares put in the request's context. *)
Record Ctx : Type := MkCtx { IdentityFrom : option Authn.Identity; RequestIDFrom : string }.
Definition Handler : Type := Ctx -> Http Response.

Module Middleware.

Definition bearerToken (q : Incoming) : string :=
  let h := header_get (headers q) "Authorization" in
  if (7 <? GoString.len h) && (to_lower (String.substring 0 7 h) =s "bearer ")
  then GoString.drop 7 h else "".
Definition requestID (q : Incoming) : string :=
  let id := header_get (headers q) "X-Request-ID" in if id =s "" then minted q else id.

Section Gates.
Context `{Authn.Jwt} (v : Authn.Validator) (pdp approvals : string).

Definition RequireIdentity (next : Handler) (q : Incoming) : Http Response :=
  let! r := attempt (on_auth (Authn.Validate v (bearerToken q))) in
  match r with
  | inl _ => ret (WriteErr 401 "UNAUTHENTICATED")
  | inr id => next (MkCtx (Some id) (requestID q))
  end.

Definition RequireScope (scope : string) (next : Handler) : Handler := fun ctx =>
  match IdentityFrom ctx with
  | Some id => if Authn.HasScope id scope then next ctx else ret (WriteErr 403 "FORBIDDEN")
  | None => ret (WriteErr 403 "FORBIDDEN")
  end.

Definition evaluation (id : Authn.Identity) (action : string) (q : Incoming) : Authz.Evaluation :=
  Authz.MkEvaluation
    (Authz.MkEntity "identity" (Authn.Subject id) "" [])
    (Authz.MkEntity "" "" action [])
    (Authz.MkEntity "binding" (url_id q) "" [])
    [("environment", JStr (header_get (headers q) "X-Saoaf-Environment"));
     ("tenant_ref", JStr (Authn.TenantRef id))].
Definition objectDigest (q : Incoming) : string := "sha256:binding:" +:+ url_id q.
Definition ApprovalGate (action : string) (next : Handler) (q : Incoming) : Handler := fun ctx =>
  let refused := ret (WriteErr 403 "FORBIDDEN") in
  match IdentityFrom ctx with
  | None => refused
  | Some id =>
      let! dec := attempt (on_api_net (Authz.Evaluate pdp (RequestIDFrom ctx) (evaluation id action q))) in
      match dec with
      | inl _ => refused
      | inr _ =>
          let ref := header_get (headers q) "X-Saoaf-Approval-Ref" in
          if ref =s "" then refused
          else
            let! ad := attempt (on_api_net (Approval.Get approvals (RequestIDFrom ctx) ref)) in
            match ad with
            | inl _ => refused
            | inr d =>
                if negb (Approval.ApprovalRef d =s ref) then refused
                else if negb (Approval.SatisfiedFor d (Authn.Subject id) (objectDigest q)) then refused
                else next ctx
            end
      end
  end.
End Gates.

(** *** The rate limiter *)

Section Limit.
Context (rate burst : Z).
Definition refill : Z := if 0 <? rate then Z.quot GoTime.Second rate else 0.
(** [now.Sub(last)]: a Duration. *)
Definition elapsed (t last : Z) : Z := Z.max Int64.min (Z.min Int64.max (t - last)).
Definition bucket_key (ctx : Ctx) : string :=
  match IdentityFrom ctx with Some id => Authn.Subject id | None => "anonymous" end.
Definition full_bucket (t : Z) : Bucket := MkBucket (Float64.of_int burst) t.
Definition refilled (b : Bucket) (t : Z) : Float64.t :=
  if 0 <? refill then
    let x := Float64.add (tokens b) (Float64.quotient (elapsed t (last_seen b)) refill) in
    if Float64.lt (Float64.of_int burst) x then Float64.of_int burst else x
  else tokens b.
(** One token of the bucket, if it has one. *)
Definition draw (b : Bucket) (t : Z) : bool * Bucket :=
  let x := refilled b t in
  if Float64.le Float64.one x then (true, MkBucket (Float64.sub x Float64.one) t) else (false, MkBucket x t).
Definition RateLimit (next : Handler) : Handler := fun ctx =>
  if refill =? 0 then next ctx
  else
    let! t := now in
    let! bs := gets buckets in
    let '(allowed, b) := draw (default (full_bucket t) (bs !! bucket_key ctx)) t in
    modify (with_buckets (<[bucket_key ctx := b]> bs)) ;!
    if allowed : bool then next ctx else ret (WriteErr 429 "RATE_LIMITED").
End Limit.
End Middleware.

Module Admin.
Import Middleware.

Definition ErrPublishNotFound : err := ETyped "publish: binding not found" "".
Definition ErrPublishConflict : err := ETyped "publish: conflict" "".
Definition ErrPublishInvalidTransition : err := ETyped "publish: invalid state transition" "".
Definition ErrPublishValidation : err := ETyped "publish: validation rejected" "".
Definition ErrPublishUnavailable : err := ETyped "publish: store unavailable" "".

Record PublishInput : Type := MkPublishInput {
  BindingID : string;
  ExpectedRevision : Z;
  ApprovalRef : string;
  ChangeReason : string;
  TicketRef : string;
  IdempotencyKey : string;
  Actor : string;
  TenantRef : string;
  TraceID : string;
}.
Record PublishResult : Type := MkPublishResult { Revision : Z; State : string; IdempotentReplay : bool }.

(** audit.Entry *)
Record Entry : Type := MkEntry {
  EnTenantRef : string;
  EnActor : string;
  EnTraceID : string;
  EntityKind : string;
  EntityID : string;
  Operation : string;
  DecisionRef : string;
}.
Definition NoopSink (e : Entry) : Http unit := ret tt.
(** The summary, in the order jsonb keeps. *)
Definition sink_summary (e : Entry) (t : Z) : json :=
  JObj [("recorded_at", JStr (GoTime.rfc3339_nano t)); ("decision_ref", JStr (DecisionRef e))].
Definition PostgresSink (e : Entry) : Http unit :=
  on_adb (connect ;!
          let! t := now in
          let! _ := insert_change t (EnTenantRef e) (EnActor e) (EnTraceID e) (EntityKind e) (EntityID e)
                      (Operation e) (DecisionRef e) (sink_summary e t) in
          ret tt).

(** The body of a publish; what does not decode leaves its fields. *)
Record PublishBody : Type := MkPublishBody {
  b_expected : option Z; b_reason : string; b_ticket : string }.
Definition maxBody : nat := Z.to_nat 65536.
Definition decode_body (b : option string) : PublishBody :=
  match (s ← b; j ← first_value (String.substring 0 maxBody s); struct_members j) with
  | None => MkPublishBody None "" ""
  | Some fs => MkPublishBody (field int_ptr_value None "expected_revision" fs).2
                 (field string_value "" "change_reason" fs).2 (field string_value "" "ticket_ref" fs).2
  end.
Definition expected_revision (q : Incoming) (b : PublishBody) : option Z :=
  let h := header_get (headers q) "If-Match" in
  let text := if h =s "" then match b_expected b with Some n => dec n | None => "" end else h in
  n ← atoi text; if n <? 1 then None else Some n.

Definition publish_error (e : err) : Response :=
  if e =d ErrPublishNotFound then WriteErr 404 "NOT_FOUND"
  else if (e =d ErrPublishConflict) || (e =d ErrPublishInvalidTransition) then WriteErr 409 "CONFLICT"
  else if e =d ErrPublishValidation then WriteErr 400 "VALIDATION_MISSING_REQUIRED"
  else if e =d ErrPublishUnavailable then WriteErr 503 "INTERNAL"
  else WriteErr 500 "INTERNAL".

Section Config.
Context `{Authn.Jwt} (v : Authn.Validator) (pdp approvals : string) (RatePerSec RateBurst : Z).
Context (PublishBinding : option (PublishInput -> Http PublishResult)) (Audit : Entry -> Http unit).

Definition publish_input (q : Incoming) (ctx : Ctx) (id : Authn.Identity) (rev : Z) (b : PublishBody) : PublishInput :=
  MkPublishInput (url_id q) rev (header_get (headers q) "X-Saoaf-Approval-Ref") (b_reason b) (b_ticket b)
    (header_get (headers q) "Idempotency-Key") (Authn.Subject id) (Authn.TenantRef id) (RequestIDFrom ctx).
Definition audit_entry (i : PublishInput) : Entry :=
  MkEntry (TenantRef i) (Actor i) (TraceID i) "binding" (BindingID i) "PUBLISH" (ApprovalRef i).
Definition publish_answer (i : PublishInput) (res : PublishResult) : Response :=
  MkResponse 200 (JObj [("binding_id", JStr (BindingID i)); ("decision_ref", JStr (ApprovalRef i));
    ("request_id", JStr (TraceID i)); ("revision", JNum (dec (Revision res))); ("state", JStr (State res));
    ("status", JStr (if IdempotentReplay res then "already-published" else "published"))]).
Definition publishBinding (q : Incoming) : Handler := fun ctx =>
  match IdentityFrom ctx with
  | None => ret (WriteErr 500 "INTERNAL") (* not reached behind RequireIdentity *)
  | Some id =>
      match PublishBinding with
      | None => ret (WriteErr 503 "INTERNAL")
      | Some hook =>
          let b := decode_body (req_body q) in
          match expected_revision q b with
          | None => ret (WriteErr 400 "VALIDATION_MISSING_REQUIRED")
          | Some rev =>
              if b_reason b =s "" then ret (WriteErr 400 "VALIDATION_MISSING_REQUIRED")
              else
                let i := publish_input q ctx id rev b in
                let! r := attempt (hook i) in
                match r with
                | inl e => ret (publish_error e)
                | inr res =>
                    let! a := attempt (Audit (audit_entry i)) in
                    match a with
                    | inl _ => ret (WriteErr 500 "INTERNAL")
                    | inr _ => ret (publish_answer i res)
                    end
                end
          end
      end
  end.

(** MountAdmin: POST /admin/v1/bindings/{id}/publish and GET /admin/v1/whoami. *)
Definition admin_publish (q : Incoming) : Http Response :=
  RequireIdentity v
    (RateLimit RatePerSec RateBurst
       (RequireScope "resource.publish"
          (ApprovalGate pdp approvals "resource.publish" (publishBinding q) q))) q.
Definition whoami_handler : Handler := fun ctx =>
  match IdentityFrom ctx with
  | None => ret (WriteErr 500 "INTERNAL") (* not reached behind RequireIdentity *)
  | Some id => ret (MkResponse 200 (JObj [("scopes", jstrings_nil (Authn.Scopes id));
                 ("subject", JStr (Authn.Subject id)); ("tenant_ref", JStr (Authn.TenantRef id))]))
  end.
Definition whoami (q : Incoming) : Http Response :=
  RequireIdentity v (RateLimit RatePerSec RateBurst whoami_handler) q.
End Config.

(** *** The guard against shadowed routes

    The recorder of a router and of the routers [With] derives from it share
    one map. *)
Inductive Registration : Type :=
| Get (pattern : string)
| Post (pattern : string)
| Put (pattern : string)
| Patch (pattern : string)
| Delete (pattern : string)
| Head (pattern : string)
| Options (pattern : string)
| Trace (pattern : string)
| Connect (pattern : string)
| Method (method pattern : string)
| HandleFunc (pattern : string)
| Handle (pattern : string).
Definition route (r : Registration) : string * string :=
  match r with
  | Get p => ("GET", p) | Post p => ("POST", p) | Put p => ("PUT", p) | Patch p => ("PATCH", p)
  | Delete p => ("DELETE", p) | Head p => ("HEAD", p) | Options p => ("OPTIONS", p)
  | Trace p => ("TRACE", p) | Connect p => ("CONNECT", p) | Method m p => (m, p)
  | HandleFunc p => ("HANDLEFUNC", p) | Handle p => ("HANDLE", p)
  end.
Definition route_key (r : Registration) : string := (route r).1 +:+ " " +:+ (route r).2.
(** [None] is a panic. *)
Definition record_route (r : Registration) (seen : gset string) : option (gset string) :=
  if bool_decide (route_key r ∈ seen) then None else Some ({[route_key r]} ∪ seen).
Fixpoint record_routes (l : list Registration) (seen : gset string) : option (gset string) :=
  match l with
  | [] => Some seen
  | r :: l' => seen' ← record_route r seen; record_routes l' seen'
  end.
End Admin.

(** ** The composition root *)

Module Root.
Import Admin.
Section Root.
Context `{Normalizer} (MaxBacklog : Z).

(** mapPublishError *)
Definition mapPublishError (e : err) : err :=
  match e with
  | ETyped sentinel reason =>
      if (sentinel =s "") && negb (reason =s "") then ErrPublishValidation
      else if sentinel =s BindingStore.ErrNotFound then ErrPublishNotFound
      else if str_mem sentinel [ErrRevisionConflict; ErrScopeConflict; ErrDuplicateActive; ErrIdemKeyReuse]
      then ErrPublishConflict
      else if sentinel =s BindingStore.ErrInvalidTransition then ErrPublishInvalidTransition
      else if sentinel =s ErrBacklogBlocked then ErrPublishUnavailable
      else e
  | _ => e
  end.
Definition republish_request (i : PublishInput) : RepublishReq :=
  MkRepublishReq (BindingID i) (ExpectedRevision i) (ApprovalRef i) (ChangeReason i) (TicketRef i)
    (TenantRef i) (Actor i) (TraceID i) (IdempotencyKey i).
Definition publishBindingAdapter (i : PublishInput) : Http PublishResult :=
  let! res := catch (on_adb (Republish MaxBacklog (republish_request i))) (fun e => throw (mapPublishError e)) in
  ret (MkPublishResult (res_revision res) (state_name (res_state res)) (Replayed res)).

(** adminConfigFromEnv, with SAOAF_DB_DSN set or not. *)
Definition hook (dsn : bool) : option (PublishInput -> Http PublishResult) :=
  if dsn then Some publishBindingAdapter else None.
Definition sink (dsn : bool) : Entry -> Http unit := if dsn then PostgresSink else NoopSink.
Definition publish_endpoint `{Authn.Jwt} (v : Authn.Validator) (pdp approvals : string) (dsn : bool)
    (q : Incoming) : Http Response :=
  admin_publish v pdp approvals 100 200 (hook dsn) (sink dsn) q.
End Root.
End Root.

(** ** The rate limiter *)

Section Burst.
Import Middleware.
Context (rate burst : Z) (Hrefill : 0 < refill rate) (Hburst : 0 <= burst < 2 ^ 53).

Lemma refill_small : refill rate < 2 ^ 53.
Proof using.
  unfold refill. destruct (Z.ltb_spec 0 rate); [|lia]. change GoTime.Second with 1000000000.
  rewrite Z.quot_div_nonneg by lia.
  pose proof (Z.div_le_upper_bound 1000000000 rate 1000000000 ltac:(lia) ltac:(nia)). lia.
Qed.
Lemma full_enough c : 0 <= c <= burst ->
  refilled rate burst (MkBucket (Float64.of_int c) 0) 0 = Float64.of_int c.
Proof using Hrefill Hburst.
  intros Hc. pose proof refill_small. unfold refilled. replace (0 <? refill rate) with true by lia. simpl.
  rewrite FloatInts.add_nothing, FloatInts.lt_of_int by lia. by replace (burst <? c) with false by lia.
Qed.
(** A bucket with [c] tokens last used now. *)
Definition holds_tokens (t c : Z) (b : Bucket) : Prop := tokens b = Float64.of_int c /\ last_seen b = t.
Lemma draw_now t c b :
  holds_tokens t c b -> 0 <= c <= burst ->
  let '(allowed, b') := draw rate burst b t in
  allowed = (1 <=? c) /\ holds_tokens t (if 1 <=? c then c - 1 else c) b'.
Proof using Hrefill Hburst.
  intros [Ht Hl] Hc. assert (Hr : refilled rate burst b t = Float64.of_int c).
  { rewrite <- (full_enough c Hc). unfold refilled, elapsed. simpl. by rewrite Ht, Hl, Z.sub_diag. }
  assert (Hle : Float64.le Float64.one (Float64.of_int c) = (1 <=? c))
    by (rewrite FloatInts.one_int; apply FloatInts.le_of_int; lia).
  unfold draw. rewrite Hr, Hle. destruct (Z.leb_spec 1 c); (split; [done|split; [|done]]); [|done].
  apply FloatInts.sub_one. lia.
Qed.

(** One request after another at one instant, each answered 200 by what is
    behind the limiter. *)
Definition passed : Response := MkResponse 200 JNull.
Definition limited : Response := WriteErr 429 "RATE_LIMITED".
Fixpoint limit_run (ctxs : list Ctx) : Http (list Response) :=
  match ctxs with
  | [] => ret []
  | c :: cs =>
      let! r := RateLimit rate burst (fun _ => ret passed) c in
      let! rs := limit_run cs in
      ret (r :: rs)
  end.
(** The answers to the requests of one key. *)
Fixpoint answers_to (k : string) (ctxs : list Ctx) (rs : list Response) : list Response :=
  match ctxs, rs with
  | c :: cs, r :: rs => if bucket_key c =s k then r :: answers_to k cs rs else answers_to k cs rs
  | _, _ => []
  end.
Definition first_pass (c n : nat) : list Response := repeat passed (Nat.min c n) ++ repeat limited (n - c).
Lemma first_pass_S c n : first_pass c (S n) = match c with O => limited :: first_pass 0 n | S c' => passed :: first_pass c' n end.
Proof using. destruct c; unfold first_pass; [by rewrite !Nat.sub_0_r|done]. Qed.

Lemma RateLimit_run ctx w r w' :
  RateLimit rate burst (fun _ => ret passed) ctx w = (inr r, w') ->
  clock w' = clock w /\
  let '(allowed, b) := draw rate burst (default (full_bucket burst (clock w)) (buckets (store w) !! bucket_key ctx)) (clock w) in
  r = (if allowed then passed else limited) /\ buckets (store w') = <[bucket_key ctx := b]> (buckets (store w)).
Proof using Hrefill.
  unfold RateLimit. replace (refill rate =? 0) with false by lia. intros H.
  apply bind_inr in H as (t & w1 & E & H). apply now_inr in E as [-> ->].
  apply bind_inr in H as (bs & w1 & E & H). apply gets_inr in E as [-> ->].
  destruct (draw _ _ _ _) as [allowed b]. apply bind_inr in H as (u & w1 & E & H).
  apply modify_inr in E as ->. destruct allowed; by apply ret_inr in H as [-> ->].
Qed.

Lemma limit_run_key k ctxs w rs w' c :
  limit_run ctxs w = (inr rs, w') -> (0 <= Z.of_nat c <= burst) ->
  holds_tokens (clock w) (Z.of_nat c) (default (full_bucket burst (clock w)) (buckets (store w) !! k)) ->
  answers_to k ctxs rs = first_pass c (length (answers_to k ctxs rs)).
Proof using Hrefill Hburst.
  revert w rs c. induction ctxs as [|ctx cs IH]; intros w rs c H Hc Hk; simpl in H.
  - apply ret_inr in H as [-> ->]. unfold first_pass. by rewrite Nat.min_0_r.
  - apply bind_inr in H as (r & w1 & E & H). apply bind_inr in H as (rs1 & w2 & E1 & H).
    apply ret_inr in H as [-> ->]. apply RateLimit_run in E as (Hcl & E). rewrite <- Hcl in *.
    cbn [answers_to]. destruct (String.eqb_spec (bucket_key ctx) k) as [Hkey|Hkey].
    + rewrite Hkey in E. pose proof (draw_now _ _ _ Hk Hc) as Hd. destruct (draw _ _ _ _) as [allowed b].
      destruct E as [-> Hb], Hd as [-> Hb']. cbn [length]. rewrite first_pass_S.
      destruct c as [|c].
      * f_equal. apply (IH w1 rs1 0%nat E1); [lia|]. by rewrite Hb, lookup_insert_eq.
      * assert (Hle : (1 <=? Z.of_nat (S c)) = true) by (apply Z.leb_le; lia).
        rewrite Hle in *. f_equal. apply (IH w1 rs1 c E1); [lia|].
        rewrite Hb, lookup_insert_eq. simpl default.
        by replace (Z.of_nat c) with (Z.of_nat (S c) - 1) by lia.
    + destruct (draw _ _ _ _) as [allowed b]. destruct E as [_ Hb].
      apply (IH w1 rs1 c E1 Hc). by rewrite Hb, lookup_insert_ne.
Qed.
End Burst.

(** ** The publish endpoint *)

Section Endpoint.
Import Middleware Admin.

Lemma on_auth_inr {A} (m : Authn.Auth A) w r w' :
  on_auth m w = (r, w') ->
  exists v v', store v = auth (store w) /\ clock v = clock w /\ m v = (r, v') /\
    auth (store w') = store v' /\ adb (store w') = adb (store w) /\ buckets (store w') = buckets (store w) /\
    clock w' = clock v'.
Proof. intros H. apply zoom_run in H as (v & v' & H1 & H2 & H3 & H4 & H5). exists v, v'. by rewrite H4. Qed.
Lemma on_api_net_run {A} (m : M Net A) w r w' :
  on_api_net m w = (r, w') ->
  exists v v', store v = Authn.net (auth (store w)) /\ m v = (r, v') /\
    Authn.net (auth (store w')) = store v' /\ adb (store w') = adb (store w) /\
    buckets (store w') = buckets (store w).
Proof.
  intros H. apply on_auth_inr in H as (x & x' & H1 & H2 & H3 & H4 & H5 & H6 & _).
  apply zoom_run in H3 as (y & y' & K1 & K2 & K3 & K4 & K5). exists y, y'. by rewrite H4, K4, K1, H1.
Qed.
Lemma on_adb_run {A} (m : Db A) w r w' :
  on_adb m w = (r, w') ->
  exists v v', store v = adb (store w) /\ clock v = clock w /\ m v = (r, v') /\
    adb (store w') = store v' /\ auth (store w') = auth (store w) /\ buckets (store w') = buckets (store w).
Proof. intros H. apply zoom_run in H as (v & v' & H1 & H2 & H3 & H4 & H5). exists v, v'. by rewrite H4. Qed.

Context `{Authn.Jwt} (v : Authn.Validator) (pdp approvals : string).

(** Between the states [w] and [w'] of the process, the token of the request
    was accepted, at the time the request came in, and then, at the time [t]
    the validation was done, the bucket of the subject had a token, which was
    taken; a new subject's bucket is full. *)
Definition admitted (rate burst : Z) (q : Incoming) (w w' : World Api) (id : Authn.Identity) : Prop :=
  exists wa wb : World Authn.AuthState,
    store wa = auth (store w) /\ clock wa = clock w /\ Authn.Validate v (bearerToken q) wa = (inr id, wb) /\
    let t := clock wb in
    let b := default (full_bucket burst t) (buckets (store w) !! Authn.Subject id) in
    clock w <= t <= clock w' /\
    (refill rate = 0 \/
     Float64.le Float64.one (refilled rate burst b t) = true /\
     buckets (store w') !! Authn.Subject id =
       Some (MkBucket (Float64.sub (refilled rate burst b t) Float64.one) t)).
(** What a request has passed when it gets behind the gates. *)
Record authorised (rate burst : Z) (scope : string) (q : Incoming) (w w' : World Api) (id : Authn.Identity) : Prop := {
  az_admitted : admitted rate burst q w w' id;
  az_scope : Authn.HasScope id scope = true;
  az_decision : exists body d,
    exchanged (Authn.net (auth (store w))) (Authn.net (auth (store w')))
      (Authz.evaluation_request pdp (requestID q) (evaluation id scope q)) (Some (200, body)) /\
    Authz.decode_decision body = Some d /\ Authz.Allow d = true;
  az_approval : exists body d,
    let ref := header_get (headers q) "X-Saoaf-Approval-Ref" in
    exchanged (Authn.net (auth (store w))) (Authn.net (auth (store w')))
      (MkHttpRequest "GET" (Approval.get_url approvals ref) (Approval.rid_header (requestID q) []) "")
      (Some (200, body)) /\
    Approval.decode_decision body = Some d /\ Approval.ApprovalRef d = ref /\
    Approval.SatisfiedFor d (Authn.Subject id) (objectDigest q) = true;
}.

(** A refusal of the gates. *)
Definition refusal (x : err + Response) : Prop :=
  x = inr (WriteErr 401 "UNAUTHENTICATED") \/ x = inr (WriteErr 403 "FORBIDDEN") \/
  x = inr (WriteErr 429 "RATE_LIMITED").

Lemma admitted_later rate burst q w w1 w2 id :
  admitted rate burst q w w1 id -> clock w1 <= clock w2 -> buckets (store w2) = buckets (store w1) ->
  admitted rate burst q w w2 id.
Proof using.
  intros (wa & wb & H1 & H2 & H3 & Ht & Hb) Hc E. exists wa, wb. cbv zeta in *. rewrite E. split_and!; auto; lia.
Qed.

(** *** Through the gates, one at a time *)

(** A gate refuses and leaves the database, or is passed. *)
Definition gated (q : Incoming) (w : World Api) (x : err + Response) (w' : World Api)
    (P : World Api -> Ctx -> Prop) (next : Handler) : Prop :=
  (refusal x /\ adb (store w') = adb (store w)) \/
  exists w1 ctx, P w1 ctx /\ adb (store w1) = adb (store w) /\ next ctx w1 = (x, w').

Lemma net_of_validate raw (wa wb : World Authn.AuthState) id :
  Authn.Validate v raw wa = (inr id, wb) -> net_grows (Authn.net (store wa)) (Authn.net (store wb)).
Proof using.
  unfold Authn.Validate. intros Hr. apply bind_inr in Hr as (u & w1 & E & Hr). apply guard_inr in E as [_ ->].
  apply bind_inr in Hr as (claims & w1 & E & Hr).
  apply catch_throw_inr, AuthProps.ParseWithClaims_inr in E as (header & key & _ & Ek & _).
  apply keyfunc_inr in Ek as (kid & _ & _ & _ & _ & Hg & _).
  apply bind_inr in Hr as (sub & w2 & E & Hr). apply AuthProps.subject_inr in E as (_ & _ & Hg2 & _).
  apply ret_inr in Hr as [_ ->]. by eapply net_grows_trans.
Qed.

Lemma Validate_advances raw : advances (Authn.Validate v raw).
Proof using.
  assert (Hget : forall r, advances (Authn.on_net (Authn.get_ok r))).
  { intros r. unfold Authn.on_net, Authn.get_ok. advances_walk. apply http_do_advances. }
  assert (Hkey : forall h, advances (Authn.keyfunc v h)).
  { intros h. unfold Authn.keyfunc, Authn.refreshKeys, Authn.key_of. cbv zeta. advances_walk; apply Hget. }
  unfold Authn.Validate, Authn.ParseWithClaims, Authn.userinfoSubject. cbv zeta.
  advances_walk; try apply Hkey. unfold Authn.on_net, Authn.get_ok. advances_walk. apply http_do_advances.
Qed.

Lemma RequireIdentity_run next q w x w' :
  RequireIdentity v next q w = (x, w') ->
  gated q w x w' (fun w1 ctx => exists id wa wb, ctx = MkCtx (Some id) (requestID q) /\
    store wa = auth (store w) /\ clock wa = clock w /\ Authn.Validate v (bearerToken q) wa = (inr id, wb) /\
    auth (store w1) = store wb /\ buckets (store w1) = buckets (store w) /\ clock w1 = clock wb) next.
Proof using.
  unfold RequireIdentity, bind at 1, attempt. destruct (on_auth _ w) as [r w1] eqn:E.
  apply on_auth_inr in E as (wa & wb & H1 & Hc & Hv & H3 & H4 & H5 & H6). destruct r as [e|id].
  - intros [= <- <-]. left. split; [by left|done].
  - intros Hr. right. exists w1, (MkCtx (Some id) (requestID q)). split; [by exists id, wa, wb|done].
Qed.
Lemma RateLimit_gate rate burst next q ctx w x w' :
  RateLimit rate burst next ctx w = (x, w') ->
  gated q w x w' (fun w1 c => c = ctx /\ auth (store w1) = auth (store w) /\ clock w1 = clock w /\
    let k := bucket_key ctx in
    let y := refilled rate burst (default (full_bucket burst (clock w)) (buckets (store w) !! k)) (clock w) in
    (refill rate = 0 \/ Float64.le Float64.one y = true /\
       buckets (store w1) !! k = Some (MkBucket (Float64.sub y Float64.one) (clock w)))) next.
Proof using.
  unfold RateLimit. destruct (Z.eqb_spec (refill rate) 0) as [E|E].
  - intros Hr. right. exists w, ctx. split; [|done]. split_and!; auto.
  - unfold bind, now, gets, modify, draw. cbv zeta. destruct (Float64.le _ _) eqn:Ed.
    + intros Hr. right. eexists _, ctx. split; [|split; [|exact Hr]]; [|done]. split_and!; auto.
      right. split; [done|]. apply lookup_insert_eq.
    + intros [= <- <-]. left. split; [by right; right|done].
Qed.
(** Through both: identity, then a token of the bucket. *)
Lemma admitted_run rate burst next q w x w' :
  RequireIdentity v (RateLimit rate burst next) q w = (x, w') ->
  (refusal x /\ adb (store w') = adb (store w)) \/
  exists id w1, admitted rate burst q w w1 id /\ adb (store w1) = adb (store w) /\
    net_grows (Authn.net (auth (store w))) (Authn.net (auth (store w1))) /\
    next (MkCtx (Some id) (requestID q)) w1 = (x, w').
Proof using.
  intros Hr.
  apply RequireIdentity_run in Hr as [Hr|(w1 & ctx & (id & wa & wb & -> & A1 & A2 & A3 & A4 & A5 & A6) & D1 & Hr)]; [by left|].
  apply (RateLimit_gate _ _ _ q) in Hr as [[Hr Hd]|(w2 & c & (-> & B1 & B2 & B3) & D2 & Hr)];
    [left; split; [done|congruence]|].
  right. exists id, w2. split; [|split; [congruence|split; [|done]]].
  - exists wa, wb. cbv zeta in *. rewrite A6 in B2, B3. rewrite A5 in B3. split; [done|]. split; [done|]. split; [done|].
    split; [|exact B3]. pose proof (advances_run _ _ _ _ (Validate_advances _) A3). lia.
  - rewrite B1, A4, <- A1. by eapply net_of_validate.
Qed.
Lemma RequireScope_gate scope next q ctx w x w' :
  RequireScope scope next ctx w = (x, w') ->
  gated q w x w' (fun w1 c => c = ctx /\ w1 = w /\
    exists id, IdentityFrom ctx = Some id /\ Authn.HasScope id scope = true) next.
Proof using.
  unfold RequireScope. destruct (IdentityFrom ctx) as [id|] eqn:E;
    [|intros [= <- <-]; left; split; [by right; left|done]].
  destruct (Authn.HasScope id scope) eqn:Es; [|intros [= <- <-]; left; split; [by right; left|done]].
  intros Hr. right. exists w, ctx. split_and!; eauto.
Qed.
Lemma Evaluate_advances url rid ev : advances (on_api_net (Authz.Evaluate url rid ev)).
Proof using.
  unfold on_api_net, on_auth, Authn.on_net, Authz.Evaluate. advances_walk. apply http_do_advances.
Qed.
Lemma Get_advances url rid ref : advances (on_api_net (Approval.Get url rid ref)).
Proof using.
  unfold on_api_net, on_auth, Authn.on_net, Approval.Get, Approval.decision_of. advances_walk. apply http_do_advances.
Qed.
Lemma ApprovalGate_gate action next q ctx w x w' :
  ApprovalGate pdp approvals action next q ctx w = (x, w') ->
  gated q w x w' (fun w1 c => c = ctx /\ clock w <= clock w1 /\ buckets (store w1) = buckets (store w) /\
    exists id, IdentityFrom ctx = Some id /\
    (exists body d, exchanged (Authn.net (auth (store w))) (Authn.net (auth (store w1)))
       (Authz.evaluation_request pdp (RequestIDFrom ctx) (evaluation id action q)) (Some (200, body)) /\
       Authz.decode_decision body = Some d /\ Authz.Allow d = true) /\
    (exists body d, let ref := header_get (headers q) "X-Saoaf-Approval-Ref" in
       exchanged (Authn.net (auth (store w))) (Authn.net (auth (store w1)))
         (MkHttpRequest "GET" (Approval.get_url approvals ref) (Approval.rid_header (RequestIDFrom ctx) []) "")
         (Some (200, body)) /\
       Approval.decode_decision body = Some d /\ Approval.ApprovalRef d = ref /\
       Approval.SatisfiedFor d (Authn.Subject id) (objectDigest q) = true)) next.
Proof using.
  unfold ApprovalGate. assert (Href : forall wr, (inr (WriteErr 403 "FORBIDDEN"), wr) = (x, w') ->
    adb (store wr) = adb (store w) -> refusal x /\ adb (store w') = adb (store w))
    by (intros wr [= <- <-] Hd; split; [by right; left|done]).
  destruct (IdentityFrom ctx) as [id|]; [|intros Hr; left; by eapply Href].
  unfold bind at 1, attempt at 1. destruct (on_api_net _ w) as [dec w1] eqn:E.
  pose proof (advances_run _ _ _ _ (Evaluate_advances _ _ _) E) as C1.
  apply on_api_net_run in E as (x1 & y1 & A1 & A2 & A3 & A4 & A5).
  destruct dec as [e|dec]; [intros Hr; left; by eapply Href|].
  apply AuthProps.Evaluate_run in A2 as (G1 & body1 & X1 & D1 & L1).
  destruct (header_get _ "X-Saoaf-Approval-Ref" =s "") eqn:Eref; [intros Hr; left; by eapply Href|].
  unfold bind at 1, attempt at 1. destruct (on_api_net _ w1) as [ad w2] eqn:E.
  pose proof (advances_run _ _ _ _ (Get_advances _ _ _) E) as C2.
  apply on_api_net_run in E as (x2 & y2 & B1 & B2 & B3 & B4 & B5).
  assert (Hdb : adb (store w2) = adb (store w)) by congruence.
  destruct ad as [e|d]; [intros Hr; left; by eapply Href|].
  apply AuthProps.Get_inr in B2 as (G2 & body2 & X2 & D2).
  destruct (String.eqb_spec (Approval.ApprovalRef d) (header_get (headers q) "X-Saoaf-Approval-Ref")) as [Er|Er];
    [cbn [negb]|intros Hr; left; by eapply Href].
  destruct (Approval.SatisfiedFor d (Authn.Subject id) (objectDigest q)) eqn:Es;
    [cbn [negb]|intros Hr; left; by eapply Href].
  intros Hr. right. exists w2, ctx. split_and!; [done|lia|congruence| |done|done]. exists id. split; [done|].
  rewrite A1, <- A3 in X1. rewrite A1, <- A3 in G1. rewrite B1, <- B3 in X2. rewrite B1, <- B3 in G2.
  split.
  - exists body1, dec. split; [|done]. by eapply exchanged_later.
  - exists body2, d. split; [|done]. by eapply exchanged_earlier.
Qed.
End Endpoint.

Section Publish.
Import Middleware Admin Root.
Context `{Normalizer} (MaxBacklog : Z).

Lemma stmt_error {DB A} (f : DB -> sqlerr + A * DB) w e w' : stmt f w = (inl e, w') -> exists s, e = ESql s.
Proof using.
  unfold stmt. destruct (failing w); [intros [= <- _]; by eexists|].
  destruct (f _) as [s|[a d]]; [intros [= <- _]; by eexists|discriminate].
Qed.

(** What a publish that is no replay leaves behind [r], the latest row of its key. *)
Definition republished (req : RepublishReq) (r : BindingRow) (d d' : Database) : Prop :=
  latest (r_key req) d = Some r /\
  exists t, published (republish_req req r) (target_of r) t d d'.
(** A replay of its idempotency key, which changes nothing. *)
Definition replayed (req : RepublishReq) (r : BindingRow) (d d' : Database) : Prop :=
  latest (r_key req) d = Some r /\ d' = d /\ r_idempotency req <> "" /\
  exists l, first_where (fun l => pi_key l =s r_idempotency req) (ledger d) = Some l /\
    pi_fingerprint l = requestFingerprint (republish_req req r) (target_of r).

(** Republish: an error that is not the database's changes nothing; one of the
    database's can come after the publish, from reading its result. *)
Lemma Republish_run req w x w' :
  Republish MaxBacklog req w = (x, w') -> binding_ok (bindings (store w)) ->
  match x with
  | inl e => store w' = store w \/ ((exists s, e = ESql s) /\ exists r, republished req r (store w) (store w'))
  | inr res => exists r cur, (republished req r (store w) (store w') \/ replayed req r (store w) (store w')) /\
      cur ∈ bindings (store w') /\ cb_key cur = r_key req /\ cb_is_active cur = true /\
      res_revision res = cb_revision cur /\ res_state res = cb_state cur
  end.
Proof using.
  unfold Republish. unfold bind at 1. intros Hr Hok.
  destruct (connect w) as [[e|u] w1] eqn:Ec; [injection Hr as <- <-; left; by apply connect_inl in Ec|].
  apply connect_inr in Ec as [H1 _]. unfold bind at 1, catch at 1 in Hr.
  destruct (query_row (latest (r_key req)) w1) as [[e|r] wq] eqn:E.
  { apply query_row_inl in E. destruct (is_no_rows e); injection Hr as <- <-; left; congruence. }
  apply query_row_inr in E as (Hl & H2 & _). unfold bind at 1 in Hr. set (m := catch _ _) in Hr.
  assert (Hm : exists ar w3, m wq = (inr ar, w3) /\ store w3 = store wq).
  { subst m. unfold catch. destruct (query_row _ wq) as [[e2|ar] w3] eqn:E; eexists _, _.
    - split; [done|]. by apply query_row_inl in E.
    - split; [done|]. apply query_row_inr in E. tauto. }
  destruct Hm as (ar & w3 & Em & H3). rewrite Em in Hr. clear m Em.
  assert (Hs : store w3 = store w) by congruence. rewrite H1 in Hl.
  unfold bind at 1 in Hr. destruct (Publish _ _ _ w3) as [[e|u3] w4] eqn:Ep.
  { injection Hr as <- <-. left. apply publish_call_inl in Ep. congruence. }
  apply publish_call_inr in Ep as (_ & w5 & H5 & Hp); [|by rewrite Hs].
  assert (Hout : republished req r (store w) (store w4) \/ replayed req r (store w) (store w4)).
  { destruct Hp as [(w6 & Hr1 & H6)|[_ Hp]].
    - right. apply ledger_replay_inr in Hr1 as (_ & _ & Hi & l & Hf & Hfp & _).
      split; [done|]. split; [congruence|]. split; [done|]. exists l. by rewrite <- Hs, <- H5.
    - left. split; [done|]. exists (clock w3). by rewrite <- Hs. }
  unfold bind in Hr. destruct (query_row _ w4) as [[e|cur] w6] eqn:E.
  - injection Hr as <- <-. pose proof (query_row_inl _ _ _ _ E) as H6. apply stmt_error in E.
    rewrite H6. destruct Hout as [Ho|(_ & Ho & _)]; [right; split; [done|by exists r]|by left].
  - apply query_row_inr in E as (Hf & H6 & _). injection Hr as <- <-. simpl.
    apply first_where_some in Hf as [Hin Hact]. unfold active_of in Hact. b2p. rewrite H6.
    exists r, cur. split_and!; auto; apply Hact.
Qed.

(** The audit row of an applied publish. *)
Definition gateway_audit (i : PublishInput) (d d' : Database) : Prop :=
  exists t, d' = push_change (new_change d t (TenantRef i) (Actor i) (TraceID i) "binding" (BindingID i)
                                "PUBLISH" (ApprovalRef i) (sink_summary (audit_entry i) t)) d.
Lemma PostgresSink_run i w x w' :
  PostgresSink (audit_entry i) w = (x, w') ->
  auth (store w') = auth (store w) /\ buckets (store w') = buckets (store w) /\
  match x with
  | inl _ => adb (store w') = adb (store w)
  | inr _ => gateway_audit i (adb (store w)) (adb (store w'))
  end.
Proof using.
  intros Hr. apply on_adb_run in Hr as (y & y' & H1 & _ & Hr & H3 & H4 & H5). split; [done|]. split; [done|].
  unfold bind at 1 in Hr. destruct (connect y) as [[e|u] y1] eqn:Ec;
    [injection Hr as <- <-; apply connect_inl in Ec; congruence|].
  apply connect_inr in Ec as [Ec _]. unfold bind at 1, now in Hr. unfold bind in Hr.
  destruct (insert_change _ _ _ _ _ _ _ _ _ y1) as [[e|c] y2] eqn:E.
  - injection Hr as <- <-. unfold insert_change, stmt in E. destruct (failing y1);
      [injection E as _ <-; simpl in *; congruence|].
    destruct (change_ok _ _); [discriminate|]. injection E as _ <-. simpl in *. congruence.
  - apply ret_inr in Hr as [-> ->] || (injection Hr as <- <-).
    apply insert_change_inr in E as (_ & _ & _ & E). exists (clock y1).
    rewrite H3, E, Ec, H1. done.
Qed.

(** *** What the handler answers *)

Section Handler.
Context `{Authn.Jwt} (q : Incoming) (id : Authn.Identity) (rid : string).
Let ctx := MkCtx (Some id) rid.
Definition applied (i : PublishInput) (r : BindingRow) (d d' : Database) : Prop :=
  republished (republish_request i) r d d' \/ replayed (republish_request i) r d d'.
(** The result names the active revision. *)
Definition reports (i : PublishInput) (res : PublishResult) (d : Database) : Prop :=
  exists cur, cur ∈ bindings d /\ cb_key cur = BindingID i /\ cb_is_active cur = true /\
    Admin.Revision res = cb_revision cur /\ State res = state_name (cb_state cur).

Definition answers (dsn : bool) (d d' : Database) (x : err + Response) : Prop :=
  let body := decode_body (req_body q) in
  exists resp, x = inr resp /\
  ( (* published, or a replay, and audited *)
   (dsn = true /\ exists rev i r d1 res,
      i = publish_input q ctx id rev body /\ expected_revision q body = Some rev /\ b_reason body <> "" /\
      applied i r d d1 /\ reports i res d1 /\ gateway_audit i d1 d' /\ resp = publish_answer i res) \/
   (* published, without its audit row or its answer *)
   (dsn = true /\ exists rev i r, resp = WriteErr 500 "INTERNAL" /\
      i = publish_input q ctx id rev body /\ expected_revision q body = Some rev /\
      republished (republish_request i) r d d') \/
   (* refused *)
   (d' = d /\ exists s code, resp = WriteErr s code /\
      (s, code) ∈ [(400, "VALIDATION_MISSING_REQUIRED"); (404, "NOT_FOUND"); (409, "CONFLICT");
                   (500, "INTERNAL"); (503, "INTERNAL")])).

Lemma publish_error_table e :
  exists s code, publish_error e = WriteErr s code /\
    (s, code) ∈ [(400, "VALIDATION_MISSING_REQUIRED"); (404, "NOT_FOUND"); (409, "CONFLICT");
                 (500, "INTERNAL"); (503, "INTERNAL")].
Proof using.
  unfold publish_error. repeat case_match; eexists _, _; (split; [done|]);
    repeat (first [left; done | right]).
Qed.
Lemma publishBinding_run dsn w x w' :
  publishBinding (hook MaxBacklog dsn) (sink dsn) q ctx w = (x, w') ->
  binding_ok (bindings (adb (store w))) ->
  (auth (store w') = auth (store w) /\ buckets (store w') = buckets (store w)) /\
  answers dsn (adb (store w)) (adb (store w')) x.
Proof using.
  unfold publishBinding, hook, sink. cbn [IdentityFrom ctx]. intros Hr Hok.
  assert (Href : forall s code wr, (inr (WriteErr s code), wr) = (x, w') -> store wr = store w ->
    (s, code) ∈ [(400, "VALIDATION_MISSING_REQUIRED"); (404, "NOT_FOUND"); (409, "CONFLICT");
                 (500, "INTERNAL"); (503, "INTERNAL")] ->
    (auth (store w') = auth (store w) /\ buckets (store w') = buckets (store w)) /\
    answers dsn (adb (store w)) (adb (store w')) x).
  { intros s code wr [= <- <-] Hs Hin. rewrite Hs. split; [done|]. unfold answers. eexists. split; [done|].
    right. right. split; [done|]. by exists s, code. }
  destruct dsn; [|by eapply (Href 503); [exact Hr|done|do 4 right; left]].
  destruct (expected_revision q _) as [rev|] eqn:Erev;
    [|by eapply (Href 400); [exact Hr|done|left]].
  destruct (b_reason _ =s "") eqn:Ereason; [by eapply (Href 400); [exact Hr|done|left]|].
  apply String.eqb_neq in Ereason. set (i := publish_input _ _ _ _ _) in *.
  unfold bind at 1, attempt at 1 in Hr.
  destruct (publishBindingAdapter MaxBacklog i w) as [y w1] eqn:E.
  assert (Ha : (auth (store w1) = auth (store w) /\ buckets (store w1) = buckets (store w)) /\
    match y with
    | inl e => adb (store w1) = adb (store w) \/
               (publish_error e = WriteErr 500 "INTERNAL" /\
                exists r, republished (republish_request i) r (adb (store w)) (adb (store w1)))
    | inr res => exists r, applied i r (adb (store w)) (adb (store w1)) /\ reports i res (adb (store w1))
    end).
  { unfold publishBindingAdapter, bind at 1, catch in E.
    destruct (on_adb _ w) as [z w2] eqn:Ez. apply on_adb_run in Ez as (a & b & A1 & _ & A2 & A3 & A4 & A5).
    apply Republish_run in A2; [|by rewrite A1]. rewrite A1, <- A3 in A2. destruct z as [e|res].
    - injection E as <- <-. split; [done|]. destruct A2 as [A2|[(s & ->) A2]]; [by left|right]. by split.
    - apply ret_inr in E as [-> ->] || (injection E as <- <-). split; [done|].
      destruct A2 as (r & cur & A2 & Hcur & Hk & Hact & Hrev & Hst). exists r. split; [done|].
      exists cur. simpl. by rewrite A3, Hrev, Hst in *. }
  destruct Ha as [Hauth Ha]. destruct y as [e|res].
  - injection Hr as <- <-. split; [done|]. unfold answers. eexists. split; [done|].
    destruct Ha as [Ha|(He & r & Ha)].
    + right. right. split; [done|]. apply publish_error_table.
    + right. left. split; [done|]. exists rev, i, r. auto.
  - destruct Ha as (r & Ha & Hrep). unfold bind, attempt in Hr. destruct (PostgresSink _ w1) as [a w2] eqn:Es.
    apply PostgresSink_run in Es as (Hauth2 & Hb2 & Es). destruct Hauth as [Hauth Hb]. destruct a as [e|u]; injection Hr as <- <-;
      (split; [split; congruence|]); unfold answers; (eexists; split; [done|]).
    + rewrite Es. destruct Ha as [Ha|(? & -> & _)].
      * right. left. split; [done|]. exists rev, i, r. auto.
      * right. right. split; [done|]. exists 500, "INTERNAL". split; [done|]. do 3 right. left.
    + left. split; [done|]. exists rev, i, r, (adb (store w1)), res. by split_and!.
Qed.
End Handler.
End Publish.

(** ** Theorems *)

Module GatewayProps.
Import Middleware Admin Root.

Section Statements.
Context `{Normalizer} `{Authn.Jwt} (MaxBacklog : Z) (v : Authn.Validator) (pdp approvals : string).

(** Through all the gates. *)
Lemma admin_publish_run rate burst hook audit q w x w' :
  admin_publish v pdp approvals rate burst hook audit q w = (x, w') ->
  (refusal x /\ adb (store w') = adb (store w)) \/
  exists id w1, authorised v pdp approvals rate burst "resource.publish" q w w1 id /\
    adb (store w1) = adb (store w) /\
    publishBinding hook audit q (MkCtx (Some id) (requestID q)) w1 = (x, w').
Proof using.
  unfold admin_publish. intros [Hr|(id & w2 & Hadm & D2 & Hg & Hr)]%admitted_run; [by left|].
  apply (RequireScope_gate _ _ q) in Hr as [[Hr Hd]|(w3 & c & (-> & -> & id' & [= <-] & Hs) & _ & Hr)];
    [left; split; [done|congruence]|].
  apply ApprovalGate_gate in Hr as [[Hr Hd]|(w3 & c & (-> & Hc & Hb & id' & [= <-] & Hp & Ha) & D3 & Hr)];
    [left; split; [done|congruence]|].
  right. exists id, w3. split; [|split; [congruence|done]]. split; [|done| |].
  - by eapply admitted_later.
  - destruct Hp as (body & d & Hx & Hd). exists body, d. split; [by eapply exchanged_earlier|done].
  - destruct Ha as (body & d & Hx & Hd). exists body, d. split; [by eapply exchanged_earlier|done].
Qed.

Lemma Publish_advances req b : advances (Publish MaxBacklog req b).
Proof using.
  unfold Publish, backlog_gate, ledger_replay, overlapGuard, supersede, publish_writes, insert_binding,
    insert_change, insert_outbox, insert_ledger, when.
  cbv zeta. advances_walk.
Qed.
Lemma publishBinding_advances dsn q ctx : advances (publishBinding (hook MaxBacklog dsn) (sink dsn) q ctx).
Proof using.
  unfold publishBinding, hook, sink, publishBindingAdapter, PostgresSink, NoopSink, on_adb, Republish, insert_change.
  destruct dsn; cbv zeta; advances_walk; apply Publish_advances.
Qed.

Lemma publish_endpoint_run dsn q w x w' :
  publish_endpoint MaxBacklog v pdp approvals dsn q w = (x, w') -> binding_ok (bindings (adb (store w))) ->
  (refusal x /\ adb (store w') = adb (store w)) \/
  exists id, authorised v pdp approvals 100 200 "resource.publish" q w w' id /\
    answers q id (requestID q) dsn (adb (store w)) (adb (store w')) x.
Proof using.
  intros Hr Hok. apply admin_publish_run in Hr as [Hr|(id & w1 & Ha & Hd & Hr)]; [by left|right].
  pose proof (advances_run _ _ _ _ (publishBinding_advances _ _ _) Hr) as Hc.
  apply publishBinding_run in Hr as [[Hauth Hb] Hr]; [|by rewrite Hd]. rewrite Hd in Hr.
  exists id. split; [|done]. destruct Ha as [T S D A]. rewrite <- Hauth in D, A. split; [|done..].
  by eapply admitted_later.
Qed.

(** The input of a publish by [id]. *)
Definition input_of (q : Incoming) (id : Authn.Identity) (rev : Z) : PublishInput :=
  publish_input q (MkCtx (Some id) (requestID q)) id rev (decode_body (req_body q)).

(** C3. The publish endpoint changes the database only for a request whose
    bearer token was accepted when it came in, whose identity holds the scope
    resource.publish and at that time had a token left in its bucket, which it
    has paid with, for which the decision point, asked about this subject,
    action, binding and tenant, answered 200 with a true decision, and for which the approval service
    answered, for the reference the request names, an approval issued to this
    subject, decided and approved by others, whose digest is that of this
    binding or not told; and the change is a publish of the binding's latest
    content at the revision the request names, in the subject's name, with one
    more audit row at most. *)
Theorem publish_authorised dsn q w x w'
    (Hok : binding_ok (bindings (adb (store w))))
    (Hrun : publish_endpoint MaxBacklog v pdp approvals dsn q w = (x, w'))
    (Hchanged : adb (store w') <> adb (store w)) :
  exists id rev r d1,
    authorised v pdp approvals 100 200 "resource.publish" q w w' id /\
    expected_revision q (decode_body (req_body q)) = Some rev /\
    applied (input_of q id rev) r (adb (store w)) d1 /\
    (adb (store w') = d1 \/ gateway_audit (input_of q id rev) d1 (adb (store w'))).
Proof using.
  apply publish_endpoint_run in Hrun as [[_ ?]|(id & Ha & Hans)]; [done| |done].
  destruct Hans as (resp & _ & [(_ & rev & i & r & d1 & res & -> & He & _ & Hp & _ & Hg & _)|
    [(_ & rev & i & r & _ & -> & He & Hp)|[? _]]]); [| |done].
  - exists id, rev, r, d1. auto.
  - exists id, rev, r, (adb (store w')). split_and!; auto. by left.
Qed.

(** C22. Every request is answered.  200 says that the binding was published,
    or its idempotency key replayed, that an audit row with the approval was
    written after it, and which revision is active; 400, 401, 403, 404, 409,
    429 and 503 say that nothing was changed; 500 leaves two cases, nothing
    changed or published without that audit row. *)
Theorem publish_answers dsn q w x w'
    (Hok : binding_ok (bindings (adb (store w))))
    (Hrun : publish_endpoint MaxBacklog v pdp approvals dsn q w = (x, w')) :
  exists resp, x = inr resp /\
    status resp ∈ [200; 400; 401; 403; 404; 409; 429; 500; 503] /\
    (status resp = 200 -> exists id rev r d1 res,
       applied (input_of q id rev) r (adb (store w)) d1 /\ reports (input_of q id rev) res d1 /\
       gateway_audit (input_of q id rev) d1 (adb (store w')) /\ resp = publish_answer (input_of q id rev) res) /\
    (status resp = 500 -> adb (store w') = adb (store w) \/
       exists id rev r, republished (republish_request (input_of q id rev)) r (adb (store w)) (adb (store w'))) /\
    (status resp <> 200 -> status resp <> 500 -> adb (store w') = adb (store w)).
Proof using.
  apply publish_endpoint_run in Hrun as [[Hx Hd]|(id & _ & resp & -> & Hans)]; [| |done].
  - destruct Hx as [->|[->| ->]]; eexists; (split; [done|]); simpl; split_and!; try done; try (by left);
      repeat (first [left; done|right]).
  - exists resp. split; [done|].
    destruct Hans as [(_ & rev & i & r & d1 & res & -> & _ & _ & Hp & Hrep & Hg & ->)|
      [(_ & rev & i & r & -> & -> & _ & Hp)|(Hd & s & code & -> & Hin)]]; simpl.
    + split_and!; try done; [left|]. intros _. by exists id, rev, r, d1, res.
    + split_and!; try done; [repeat (first [left; done|right])|]. intros _. right. by exists id, rev, r.
    + assert (Hs : s ∈ [400; 404; 409; 500; 503]) by (apply (list_elem_of_fmap_2 fst) in Hin; exact Hin).
      split_and!; try done; [| |by left].
      * revert Hs. rewrite !elem_of_cons. intuition.
      * intros ->. apply list_elem_of_In in Hs. simpl in Hs. lia.
Qed.

(** C33. At one instant the rate limiter lets a subject's first [burst]
    requests through and refuses its others, whatever other subjects send in
    between, when the subject has not been seen before; a rate that is not
    positive, or is above a thousand million, lets every request through. *)
Theorem RateLimit_burst rate burst k ctxs w rs w'
    (Hburst : 0 <= burst < 2 ^ 53) (Hrun : limit_run rate burst ctxs w = (inr rs, w'))
    (Hnew : buckets (store w) !! k = None) :
  answers_to k ctxs rs =
  (if (0 <? rate) && (rate <=? GoTime.Second)
   then first_pass (Z.to_nat burst) (length (answers_to k ctxs rs))
   else repeat passed (length (answers_to k ctxs rs))).
Proof using.
  assert (Hr : refill rate = if (0 <? rate) && (rate <=? GoTime.Second) then refill rate else 0).
  { unfold refill. destruct (Z.ltb_spec 0 rate); [|done]. destruct (Z.leb_spec rate GoTime.Second); [done|].
    simpl. by apply Z.quot_small. }
  destruct ((0 <? rate) && (rate <=? GoTime.Second)) eqn:E.
  - apply andb_true_iff in E as [E1 E2]. apply Z.ltb_lt in E1. apply Z.leb_le in E2.
    assert (Hpos : 0 < refill rate).
    { unfold refill. replace (0 <? rate) with true by lia. apply Z.quot_str_pos. lia. }
    eapply limit_run_key; [done|done|done|lia|]. rewrite Hnew. simpl. split; [|done]. simpl. f_equal. lia.
  - clear Hnew E. revert w rs Hrun. induction ctxs as [|c cs IH]; intros w rs Hrun; simpl in Hrun.
    + by apply ret_inr in Hrun as [-> _].
    + apply bind_inr in Hrun as (r & w1 & E & Hrun). apply bind_inr in Hrun as (rs1 & w2 & E1 & Hrun).
      apply ret_inr in Hrun as [-> ->]. unfold RateLimit in E. rewrite Hr in E.
      apply ret_inr in E as [-> ->]. specialize (IH _ _ E1). cbn [answers_to].
      destruct (bucket_key c =s k); [|done]. cbn [length repeat]. by f_equal.
Qed.
End Statements.

(** *** A run: the publish of a binding, the caller naming an environment *)

#[local] Existing Instance BindingStoreProps.plain_normalizer.
#[local] Existing Instance AuthProps.jwt1.

Definition body_of (fs : list (string * json)) : string := marshal (JObj fs).
Definition allow_reply : Reply := MkReply 1 (Some (200, body_of [("decision", JBool true)])).
Definition approval_reply : Reply := MkReply 1 (Some (200, body_of
  [("approval_ref", JStr "apr-1"); ("status", JStr "APPROVED"); ("requester_ref", JStr "user:alice");
   ("approver_refs", jstrings ["user:bob"]); ("decided_at", JStr "2026-01-02T03:04:05Z")])).
Definition keys_reply : Reply := MkReply 5 (Some (200, AuthProps.jwks1)).
Definition publish_request : Incoming :=
  MkIncoming [("Authorization", ["Bearer token"]); ("X-Saoaf-Approval-Ref", ["apr-1"]); ("If-Match", ["1"]);
              ("X-Saoaf-Environment", ["staging"]); ("X-Request-Id", ["rid"])]
    "k" (Some (body_of [("change_reason", JStr "first")])) "minted".
Definition api_of (rs : list Reply) (fl : list bool) : World Api :=
  MkWorld (MkApi (AuthProps.no_keys (MkNet rs [])) ∅ (store BindingStoreProps.bs_w1)) fl (50 * GoTime.Second).
Definition endpoint (q : Incoming) : Http Response :=
  publish_endpoint 1000 AuthProps.validator1 "https://pdp" "https://approvals" true q.
Definition gw_w0 : World Api := api_of [keys_reply; allow_reply; approval_reply] [].
Definition gw_out : (err + Response) * World Api := Eval vm_compute in endpoint publish_request gw_w0.
Lemma gw_run : endpoint publish_request gw_w0 = (gw_out.1, gw_out.2).
Proof. vm_compute. reflexivity. Qed.
Lemma gw_rows :
  map (fun r => (cb_revision r, cb_environment r, cb_is_active r)) (bindings (adb (store gw_out.2))) =
    [(1, "production", false); (2, "production", true)] /\
  length (changes (adb (store gw_out.2))) = 3%nat.
Proof. by vm_compute. Qed.
(** The decision point was asked about the environment the caller named; the
    binding it published is one of production. *)
Lemma publish_authorised_witness :
  exists id, authorised AuthProps.validator1 "https://pdp" "https://approvals" 100 200 "resource.publish" publish_request
      gw_w0 gw_out.2 id /\
    last_member "environment" (Authz.EvContext (evaluation id "resource.publish" publish_request)) =
      Some (JStr "staging") /\
    exists r, r ∈ bindings (adb (store gw_out.2)) /\ cb_environment r = "production" /\ cb_is_active r = true.
Proof.
  destruct (publish_authorised 1000 AuthProps.validator1 "https://pdp" "https://approvals" true publish_request
              gw_w0 _ _ (proj1 BindingStoreProps.bs_w1_ok) gw_run) as (id & rev & r & d1 & Ha & _).
  { intros E. apply (f_equal (fun d => length (changes d))) in E. by vm_compute in E. }
  exists id. split; [exact Ha|]. split; [done|].
  destruct (bindings (adb (store gw_out.2))) as [|b1 [|b2 l]] eqn:E; [by vm_compute in E..|].
  exists b2. vm_compute in E. injection E as <- <- <-. split; [right; left|done].
Defined.
(** With an empty bucket the request is refused; a hundredth of a second later
    a token is back. *)
Definition drained (seen : Z) : World Api :=
  MkWorld (with_buckets {["user:alice" := MkBucket (Float64.of_int 0) seen]} (store gw_w0)) [] (clock gw_w0).
Example empty_bucket :
  let answer := fun seen => match (endpoint publish_request (drained seen)).1 with inr r => status r | inl _ => 0 end in
  (answer (50 * GoTime.Second), answer (50 * GoTime.Second - 10 * GoTime.Millisecond)) = (429, 200).
Proof. vm_compute. reflexivity. Qed.
Lemma publish_answers_witness :
  exists resp, gw_out.1 = inr resp /\ status resp = 200.
Proof.
  destruct (publish_answers 1000 AuthProps.validator1 "https://pdp" "https://approvals" true publish_request
              gw_w0 _ _ (proj1 BindingStoreProps.bs_w1_ok) gw_run) as (resp & Hx & _).
  exists resp. split; [done|]. vm_compute in Hx. by injection Hx as <-.
Defined.
(** The last statement, the audit row's, fails: the answer is 500, the binding
    is published. *)
Definition failing_sink : list bool := repeat false 17 ++ [true].
Example unaudited :
  let out := endpoint publish_request (api_of [keys_reply; allow_reply; approval_reply] failing_sink) in
  (match out.1 with inr r => status r | inl _ => 0 end, length (bindings (adb (store out.2))),
   length (changes (adb (store out.2)))) = (500, 2%nat, 2%nat).
Proof. vm_compute. reflexivity. Qed.

(** The recorder panics exactly when one key is registered twice. *)
Lemma record_routes_spec l seen :
  record_routes l seen <> None <-> NoDup (map route_key l) /\ forall r, r ∈ l -> route_key r ∉ seen.
Proof.
  revert seen. induction l as [|r l IH]; intros seen; simpl.
  - split; [|done]. intros _. split; [constructor|]. by intros r ?%elem_of_nil.
  - unfold record_route. case_bool_decide as Hin; simpl.
    + split; [done|]. intros [_ Hn]. exfalso. by apply (Hn r); [left|].
    + rewrite IH, NoDup_cons. rewrite list_elem_of_In, in_map_iff. split.
      * intros [Hnd Hn]. split_and!; [|done|].
        -- intros (x & Hk & Hx). apply (Hn x); [by apply list_elem_of_In|].
           rewrite Hk. by apply elem_of_union_l, elem_of_singleton.
        -- intros x [->|Hx]%elem_of_cons; [done|]. specialize (Hn x Hx).
           by apply not_elem_of_union in Hn as [_ Hn].
      * intros [[Hr Hnd] Hn]. split; [done|]. intros x Hx. apply not_elem_of_union. split.
        -- intros Hk%elem_of_singleton. apply Hr. exists x. split; [done|]. by apply list_elem_of_In.
        -- apply Hn. by right.
Qed.
(** A route for every method under the same pattern has another key. *)
Example handle_shadows_post : record_routes [Post "/bindings/{id}/publish"; Handle "/bindings/{id}/publish"] ∅ <> None.
Proof.
  apply record_routes_spec. split; [|intros r _; by apply not_elem_of_empty].
  apply NoDup_cons. split; [|apply NoDup_singleton]. by intros ?%list_elem_of_singleton.
Qed.

Definition caller (s : string) : Ctx := MkCtx (Some (Authn.MkIdentity s "" [] "" None [])) "".
Definition limit_w0 : World Api := api_of [] [].
Definition limit_out : (err + list Response) * World Api :=
  Eval vm_compute in limit_run 100 2 [caller "a"; caller "b"; caller "a"; caller "a"; caller "b"] limit_w0.
Lemma limit_out_run :
  limit_run 100 2 [caller "a"; caller "b"; caller "a"; caller "a"; caller "b"] limit_w0 =
  (inr [passed; passed; passed; limited; passed], limit_out.2).
Proof. vm_compute. reflexivity. Qed.
Lemma RateLimit_burst_witness :
  [passed; passed; limited] = repeat passed 2 ++ repeat limited 1.
Proof.
  exact (RateLimit_burst 100 2 "a" _ limit_w0 _ _ ltac:(lia) limit_out_run eq_refl).
Defined.
End GatewayProps.
