(* ===== verification/Ops.v ===== *)
(** * The read APIs

    [OpsApi] is src/internal/ops: metrics, evidence, alerts, exit packs and
    drills for the operations UI.  [HubApi] is src/internal/hub: bindings and
    plans for the management UI.  A handler reads the tables of the components
    that write them, gives an [Answer] and writes nothing.  A SELECT of many
    rows can fail in [Query], which is answered 500, or while its rows are
    read, which no handler looks at ([next_rows]).  What PostgreSQL leaves open
    is the interface [Reads].  The theorems: what a caller confined to a tenant
    and environments is shown; that the pages of the metrics list show every
    series once; what an answer says when statements fail; that the log of a
    drill leads to its state. *)

From S2P Require Import Prelude GoStd GoJson GoFloat GoTime GoUnmarshal GoHttp Sql Schema.
From S2P Require Import Evidence ExitPack ExitDrill Metrics Auth.

(** The order ORDER BY gives text (the collation) and jsonb objects; the order
    in which rows reach a sort, which decides between rows it takes for equal;
    whether a select list is evaluated before the sort; how a text parameter
    becomes a timestamptz. *)
Class Reads := {
  text_compare : string -> string -> comparison;
  dims_compare : Dims -> Dims -> comparison;
  arrange : forall {A : Type}, Z -> Z -> list A -> list A;
  arrange_perm : forall A l o (xs : list A), arrange l o xs ≡ₚ xs;
  eager : bool;
  timestamptz_in : string -> option Z;
}.

(** url.Values: the parameters in order; [Get] takes the first of a name. *)
Definition Values : Type := list (string * string).
Definition Get (q : Values) (k : string) : string :=
  match List.find (fun kv => kv.1 =s k) q with Some kv => kv.2 | None => "" end.
Definition is_nil {A} (l : list A) : bool := match l with [] => true | _ => false end.

(** One element of an answer, with the columns it shows. *)
Inductive View : Type :=
| VMetric (r : MetricResult) (computed_at : Z)
| VPoint (r : MetricResult) (computed_at : Z) (* without the key *)
| VBroken (r : MetricResult) (computed_at : Z) (broken_reason : string)
| VEvidence (event topic kind aggregate : string) (revision : Z) (tenant : string) (occurred : Z)
    (digest plan class : string) (until : option Z) (worm : WormStatus)
| VAlert (rule kind entity severity : string) (detail : json) (state : string) (first_seen last_seen : Z)
| VPack (key vendor : string) (revision : Z) (state declared owner subst : string) (until : option Z)
    (digest : option string) (steps evidence : Z) (created : Z)
| VDrill (key vendor state initiator approver : string) (created : Z) (evidence : string) (open : option Z)
| VFinding (key description severity state remediation evidence : string) (created : Z) (resolved : option Z)
| VTransition (from to actor : string) (at_ : Z)
| VBinding (key hash : string) (priority : Z) (state : BindState) (revision : Z)
| VPlan (id fingerprint : string) (status : PlanStatus)
| VItem (requirement provider : string).
(** An answer; the count beside a list is its length. *)
Inductive Answer : Type :=
| Refused (status : Z) (code : string)
| Page (items : list View) (limit offset : Z)
| Items (items : list View)
| Detail (v : View) (items : list View)
| Overview (open_alerts expired_packs active_drills open_findings quarantine_depth : Z)
    (unknown_fields : list string) (unknown_metrics : option Z).

Section Rows.
Context {DB : Type}.
(** [for rows.Next() { ... }]: an error ends the loop and stays in rows.Err(). *)
Fixpoint next_rows {A} (l : list A) : M DB (list A) :=
  match l with
  | [] => ret []
  | x :: l' =>
      let! r := attempt (query (fun _ => tt)) in
      match r with
      | inl _ => ret []
      | inr _ => let! xs := next_rows l' in ret (x :: xs)
      end
  end.
(** [Query] and its loop; [None] is an error of the execution. *)
Definition query_rows {A} (rows : DB -> option (list A)) : M DB (list A) :=
  let! l := query rows in next_rows (default [] l).
Definition or_500 {A} (m : M DB A) (k : A -> M DB Answer) : M DB Answer :=
  let! r := attempt m in
  match r with
  | inl _ => ret (Refused 500 "INTERNAL")
  | inr a => k a
  end.
(** A list of rows, each scanned and shown. *)
Definition shown {A} (view : A -> option View) (answer : list View -> Answer) (l : list A) : M DB Answer :=
  ret (match mapM view l with Some out => answer out | None => Refused 500 "INTERNAL" end).
Definition found_or_404 {A} (m : M DB A) (k : A -> M DB Answer) : M DB Answer :=
  let! r := attempt m in
  match r with
  | inl e => ret (if is_no_rows e then Refused 404 "NOT_FOUND" else Refused 500 "INTERNAL")
  | inr a => k a
  end.
End Rows.
(** LIMIT l OFFSET o *)
Definition page {A} (l o : Z) (xs : list A) : list A := take (Z.to_nat l) (drop (Z.to_nat o) xs).

Module OpsApi.
Import Matrix.

(** The tables the views read. *)
Record OpsDb : Type := MkOpsDb { o_drill : DrillDb; o_xp : XpDb; o_metrics : MetricsDb }.
Definition o_evidence (d : OpsDb) : list EvidenceRow := records (xevidence (o_xp d)).

Definition contains (xs : list string) (v : string) : bool := str_mem v xs.
(** The tenant filter ("" is none) and the environments; [None] is a refusal. *)
Definition scope (id : option Authn.Identity) (q : Values) : option (string * list string) :=
  match id with
  | None => None
  | Some id =>
      let envs := Authn.Environments id in
      let e := Get q "environment" in
      let t := Get q "tenant" in
      if negb (is_nil envs) && negb (e =s "") && negb (contains envs e) then None
      else if Authn.HasScope id "ops.all-tenants" then Some ("", envs)
      else if negb (t =s "") && negb (t =s Authn.TenantRef id) then None
      else Some (Authn.TenantRef id, envs)
  end.
Definition parseLimit (q : Values) : Z :=
  let limit := match atoi (Get q "limit") with Some n => if n <=? 0 then 50 else n | None => 50 end in
  if 200 <? limit then 200 else limit.
Definition parseOffset (q : Values) : Z :=
  match atoi (Get q "offset") with Some n => if n <? 0 then 0 else n | None => 0 end.

Section Views.
Context `{Reads}.
Abbreviation Ops A := (M OpsDb A).

Definition forbidden : Answer := Refused 403 "FORBIDDEN".
Definition Listing (q : Values) (out : list View) : Answer := Page out (parseLimit q) (parseOffset q).
(** The rows of a page, each with a view. *)
Definition list_page {A} (q : Values) (rows : OpsDb -> option (list A)) (view : A -> option View) : Ops Answer :=
  or_500 (query_rows rows) (shown view (Listing q)).

(** *** Metrics *)

(** [dimensions->>'k' = v] *)
Definition dim_is (k v : string) (r : MetricResult) : bool :=
  existsb (fun e => (e.1 =s k) && (e.2 =s v)) (default [] (Dimensions r)).
(** A filter that is added when its value is not empty. *)
Definition given (v : string) (p : string -> bool) : bool := (v =s "") || p v.
Definition confined (tenant : string) (envs : list string) (r : MetricResult) : bool :=
  given tenant (fun v => dim_is "tenant" v r) &&
  (is_nil envs || existsb (fun e => dim_is "environment" e r) envs).
Definition axes : list string := ["capability"; "provider"; "vendor"; "environment"; "tenant"].
Definition metric_where (q : Values) (tenant : string) (envs : list string) (since : option Z) (r : MetricRow) : bool :=
  given (Get q "metric") (fun v => MetricKey (mr_result r) =s v) &&
  forallb (fun k => given (Get q k) (fun v => dim_is k v (mr_result r))) axes &&
  confined tenant envs (mr_result r) &&
  match since with None => true | Some s => s <=? mr_at r end.

(** DISTINCT ON (metric_key, dimensions) ... computed_at DESC *)
#[local] Existing Instance Ledger.metric_le_dec.
Definition latest (l o : Z) (d : OpsDb) : list MetricRow :=
  Ledger.distinct_on [] (merge_sort (Ledger.metric_le text_compare dims_compare) (arrange l o (results (o_metrics d)))).
Definition series (r : MetricRow) : string * Dims := (MetricKey (mr_result r), Dimensions (mr_result r)).
Definition series_le (a b : MetricRow) : Prop :=
  Extract.then_by (text_compare (series a).1 (series b).1) (dims_compare (series a).2 (series b).2) <> Gt.
#[local] Instance series_le_dec a b : Decision (series_le a b).
Proof using. unfold series_le. apply _. Defined.
Definition latest_page (q : Values) (p : MetricRow -> bool) (d : OpsDb) : list MetricRow :=
  let l := parseLimit q in
  let o := parseOffset q in
  page l o (merge_sort series_le (rows_where p (latest l o d))).

(** The [since] filter: none, not RFC 3339, or the text it is sent as. *)
Inductive Since : Type := NoSince | BadSince | SinceText (text : string).
(** A text that is sent must be a timestamptz. *)
Definition timed {A} (s : Since) (rows : option Z -> OpsDb -> list A) (d : OpsDb) : option (list A) :=
  match s with
  | SinceText text => t ← timestamptz_in text; Some (rows (Some t) d)
  | _ => Some (rows None d)
  end.
Definition metric_since (v : string) : Since :=
  if v =s "" then NoSince
  else match GoTime.parse_rfc3339_zone v with
       | Some (t, off) => SinceText (GoTime.rfc3339_in off t)
       | None => BadSince
       end.
Definition listMetrics (id : option Authn.Identity) (q : Values) : Ops Answer :=
  match scope id q with
  | None => ret forbidden
  | Some (tenant, envs) =>
      match metric_since (Get q "since") with
      | BadSince => ret (Refused 400 "VALIDATION_INVALID_ENUM")
      | s => list_page q (timed s (fun since => latest_page q (metric_where q tenant envs since)))
               (fun r => Some (VMetric (mr_result r) (mr_at r)))
      end
  end.

Definition recent_le (a b : MetricRow) : Prop := mr_at b < mr_at a \/ (mr_at a = mr_at b /\ mr_id b <= mr_id a).
#[local] Instance recent_le_dec a b : Decision (recent_le a b).
Proof using. unfold recent_le. apply _. Defined.
Definition history_where (key : string) (q : Values) (tenant : string) (envs : list string) (r : MetricRow) : bool :=
  (MetricKey (mr_result r) =s key) && confined tenant envs (mr_result r) &&
  given (Get q "environment") (fun v => dim_is "environment" v (mr_result r)).
Definition metricHistory (id : option Authn.Identity) (q : Values) : Ops Answer :=
  let key := Get q "metric" in
  if key =s "" then ret (Refused 400 "VALIDATION_MISSING_REQUIRED")
  else
    match scope id q with
    | None => ret forbidden
    | Some (tenant, envs) =>
        let l := parseLimit q in
        let o := parseOffset q in
        list_page q
          (fun d => Some (page l o (merge_sort recent_le
                      (rows_where (history_where key q tenant envs) (arrange l o (results (o_metrics d)))))))
          (fun r => Some (VPoint (mr_result r) (mr_at r)))
    end.

Definition resolves (ref : string) (e : EvidenceRow) : bool :=
  (ev_event_id e =s ref) || ("saoaf://evidence/" +:+ ev_event_id e =s ref).
Definition broken (d : OpsDb) (r : MetricRow) : bool :=
  let ref := EvidenceRef (mr_result r) in
  (ref =s "") || negb (any_where (resolves ref) (o_evidence d)).
Definition broken_view (r : MetricRow) : View :=
  VBroken (mr_result r) (mr_at r)
    (if EvidenceRef (mr_result r) =s "" then "evidence_ref is empty"
     else "evidence_ref does not resolve to an indexed evidence record").
Definition brokenEvidence (id : option Authn.Identity) (q : Values) : Ops Answer :=
  match scope id q with
  | None => ret forbidden
  | Some (tenant, envs) =>
      list_page q (fun d => Some (latest_page q (fun r => broken d r && confined tenant envs (mr_result r)) d))
        (fun r => Some (broken_view r))
  end.

(** *** Evidence and alerts *)

Definition evidence_since (v : string) : Since :=
  if v =s "" then NoSince
  else match GoTime.parse_rfc3339_nano v with Some _ => SinceText v | None => BadSince end.
Definition evidence_where (q : Values) (tenant : string) (since : option Z) (e : EvidenceRow) : bool :=
  given (if tenant =s "" then Get q "tenant" else tenant) (fun v => ev_tenant e =s v) &&
  given (Get q "plan_id") (fun v => ev_plan e =s v) &&
  match since with None => true | Some s => s <=? ev_occurred_at e end.
(** ORDER BY f DESC *)
Definition latest_first {A} (f : A -> Z) (a b : A) : Prop := f b <= f a.
#[local] Instance latest_first_dec {A} (f : A -> Z) a b : Decision (latest_first f a b).
Proof using. unfold latest_first. apply _. Defined.
Definition page_by {A} (q : Values) (f : A -> Z) (p : A -> bool) (t : list A) : list A :=
  let l := parseLimit q in
  let o := parseOffset q in
  page l o (merge_sort (latest_first f) (rows_where p (arrange l o t))).
Definition evidence_view (e : EvidenceRow) : View :=
  VEvidence (ev_event_id e) (ev_topic e) (ev_kind e) (ev_aggregate e) (ev_revision e) (ev_tenant e)
    (ev_occurred_at e) (ev_digest e) (ev_plan e) (ev_class e) (ev_until e) (ev_worm e).
Definition listEvidence (id : option Authn.Identity) (q : Values) : Ops Answer :=
  match scope id q with
  | None => ret forbidden
  | Some (tenant, _) =>
      match evidence_since (Get q "since") with
      | BadSince => ret (Refused 400 "VALIDATION_INVALID_ENUM")
      | s => list_page q (timed s (fun since d => page_by q ev_occurred_at (evidence_where q tenant since) (o_evidence d)))
               (fun e => Some (evidence_view e))
      end
  end.

(** The detail is scanned into a map. *)
Definition alert_view (a : AlertRow) : option View :=
  match ra_detail a with
  | JObj _ | JNull => Some (VAlert (ra_rule a) (ra_kind a) (ra_entity a) (ra_severity a) (ra_detail a) (ra_state a)
                              (ra_first a) (ra_last a))
  | _ => None
  end.
Definition unresolved (a : AlertRow) : bool := negb (ra_state a =s "RESOLVED").
Definition listAlerts (q : Values) : Ops Answer :=
  list_page q (fun d => Some (page_by q ra_last unresolved (alerts (o_metrics d)))) alert_view.

(** *** Exit packs *)

Definition pack_state (s : XpState) : string :=
  match s with
  | XpDraft => "DRAFT" | XpValidated => "VALIDATED" | XpActive => "ACTIVE"
  | XpExpired => "EXPIRED" | XpSuperseded => "SUPERSEDED"
  end.
Definition by_pack (a b : XpRow) : comparison :=
  Extract.then_by (text_compare (xp_vendor a) (xp_vendor b))
    (Extract.then_by (text_compare (xp_key a) (xp_key b)) (xp_rev b ?= xp_rev a)).
Definition pack_le (a b : XpRow) : Prop := by_pack a b <> Gt.
#[local] Instance pack_le_dec a b : Decision (pack_le a b).
Proof using. unfold pack_le. apply _. Defined.
Definition pack_where (q : Values) (p : XpRow) : bool :=
  given (Get q "vendor") (fun v => xp_vendor p =s v) &&
  given (Get q "state") (fun v => pack_state (xp_state p) =s v).
(** jsonb_array_length, which refuses what is not an array. *)
Definition array_length (j : json) : option Z :=
  match j with JArr l => Some (Z.of_nat (length l)) | _ => None end.
Definition lengths (p : XpRow) : option (XpRow * Z * Z) :=
  n ← array_length (xp_steps p); m ← array_length (xp_refs p); Some (p, n, m).
(** The rows until the first whose select list fails. *)
Fixpoint until_failure {A B} (f : A -> option B) (l : list A) : list B :=
  match l with
  | [] => []
  | x :: l' => match f x with Some y => y :: until_failure f l' | None => [] end
  end.
Definition sent_rows {A B} (f : A -> option B) (l o : Z) (xs : list A) : list B :=
  if eager && existsb (fun x => negb (bool_decide (is_Some (f x)))) xs then []
  else drop (Z.to_nat o) (until_failure f (take (Z.to_nat o + Z.to_nat l) xs)).
Definition pack_rows (q : Values) (d : OpsDb) : list (XpRow * Z * Z) :=
  let l := parseLimit q in
  let o := parseOffset q in
  sent_rows lengths l o (merge_sort pack_le (rows_where (pack_where q) (arrange l o (xpacks (o_xp d))))).
Definition expired_now (t : Z) (p : XpRow) : bool :=
  (xp_state p =d XpActive) && match xp_until p with Some u => u <? t | None => false end.
Definition pack_view (t : Z) (x : XpRow * Z * Z) : option View :=
  let '(p, steps, refs) := x in
  Some (VPack (xp_key p) (xp_vendor p) (xp_rev p) (if expired_now t p then "EXPIRED" else pack_state (xp_state p))
          (pack_state (xp_state p)) (xp_owner p) (xp_subst p) (xp_until p) (xp_digest p) steps refs (xp_created_at p)).
Definition listExitPacks (q : Values) : Ops Answer :=
  or_500 (query_rows (fun d => Some (pack_rows q d)))
    (fun l => let! t := now in shown (pack_view t) (Listing q) l).

(** *** Drills *)

Definition drill_state (s : DrillState) : string :=
  match s with
  | StateDraft => "DRAFT" | StateApproved => "APPROVED" | StateScheduled => "SCHEDULED"
  | StateRunning => "RUNNING" | StateSucceeded => "SUCCEEDED" | StateFailed => "FAILED"
  | StateAborted => "ABORTED" | StateRemediationOpen => "REMEDIATION_OPEN" | StateClosed => "CLOSED"
  end.
Definition drill_where (q : Values) (r : DrillRow) : bool :=
  given (Get q "vendor") (fun v => dr_vendor r =s v) &&
  given (Get q "state") (fun v => drill_state (dr_state r) =s v).
Definition open_findings (key : string) (d : OpsDb) : Z :=
  count_where (fun f => of_drill key f && fi_open f) (findings (o_drill d)).
Definition drill_view (x : DrillRow * option Z) : View :=
  let '(r, open) := x in
  VDrill (dr_key r) (dr_vendor r) (drill_state (dr_state r)) (dr_initiator r) (dr_approver r)
    (dr_created_at r) (dr_evidence r) open.
Definition listDrills (q : Values) : Ops Answer :=
  list_page q
    (fun d => Some (map (fun r => (r, Some (open_findings (dr_key r) d)))
                      (page_by q dr_created_at (drill_where q) (drills (o_drill d)))))
    (fun x => Some (drill_view x)).

Definition finding_view (f : FindingRow) : View :=
  VFinding (fi_key f) (fi_description f) (fi_severity f) (if fi_open f then "OPEN" else "RESOLVED")
    (fi_remediation f) (fi_evidence f) (fi_created_at f) (fi_resolved_at f).
Definition created_le (a b : FindingRow) : Prop := fi_created_at a <= fi_created_at b.
#[local] Instance created_le_dec a b : Decision (created_le a b).
Proof using. unfold created_le. apply _. Defined.
(** A drill, without the count of its open findings, and its findings. *)
Definition getDrill (key : string) : Ops Answer :=
  found_or_404 (query_row (fun d => first_where (is_drill key) (drills (o_drill d)))) (fun r =>
    or_500 (query_rows (fun d => Some (merge_sort created_le
              (rows_where (of_drill key) (arrange (-1) 0 (findings (o_drill d)))))))
      (shown (fun f => Some (finding_view f)) (Detail (drill_view (r, None))))).
#[local] Existing Instance DrillStore.trans_le_dec.
Definition transition_view (x : TransRow) : View :=
  VTransition (drill_state (tr_from x)) (drill_state (tr_to x)) (tr_actor x) (tr_at x).
Definition log_rows (key : string) (d : OpsDb) : list TransRow :=
  merge_sort DrillStore.trans_le (rows_where (fun x => tr_drill x =s key) (arrange (-1) 0 (transitions (o_drill d)))).
Definition drillLog (key : string) : Ops Answer :=
  or_500 (query (fun d => any_where (is_drill key) (drills (o_drill d)))) (fun known =>
    if known : bool then
      or_500 (query_rows (fun d => Some (log_rows key d))) (shown (fun x => Some (transition_view x)) Items)
    else ret (Refused 404 "NOT_FOUND")).

(** *** The dashboard *)

(** No row of the series is later, and the status is not OK. *)
Definition unknown_now (d : OpsDb) (m : MetricRow) : bool :=
  forallb (fun m2 => negb (bool_decide (series m2 = series m)) || (mr_at m2 <=? mr_at m)) (results (o_metrics d)) &&
  negb (Status (mr_result m) =s StatusOK).
Definition overview : Ops Answer :=
  or_500 (query (fun d => count_where unresolved (alerts (o_metrics d)))) (fun open_alerts =>
  let! t := now in
  or_500 (query (fun d => count_where (expired_now t) (xpacks (o_xp d)))) (fun expired_packs =>
  or_500 (query (fun d => count_where (fun r =>
            (dr_state r =d StateApproved) || (dr_state r =d StateScheduled) || (dr_state r =d StateRunning))
            (drills (o_drill d)))) (fun active_drills =>
  or_500 (query (fun d => count_where fi_open (findings (o_drill d)))) (fun open_findings =>
  let! quarantine := attempt (query (fun d => count_where (fun e => ev_worm e =d WormPending) (o_evidence d))) in
  let! unknown := attempt (query (fun d => count_where (unknown_now d) (results (o_metrics d)))) in
  ret (Overview open_alerts expired_packs active_drills open_findings
         (match quarantine with inr n => n | inl _ => 0 end)
         ((match quarantine with inr _ => [] | inl _ => ["quarantine_depth"] end) ++
          (match unknown with inr _ => [] | inl _ => ["unknown_metrics"] end))
         (match unknown with inr n => Some n | inl _ => None end)))))).

(** *** The routes *)

Inductive Route : Type :=
| GetOverview | GetMetrics | GetHistory | GetBroken | GetAlerts | GetEvidence | GetExitPacks | GetDrills
| GetDrill (id : string) | GetLog (id : string).
(** Each behind RequireScope("ops.read"). *)
Definition serve (r : Route) (id : option Authn.Identity) (q : Values) : Ops Answer :=
  match id with
  | Some i =>
      if Authn.HasScope i "ops.read" then
        match r with
        | GetOverview => overview
        | GetMetrics => listMetrics id q
        | GetHistory => metricHistory id q
        | GetBroken => brokenEvidence id q
        | GetAlerts => listAlerts q
        | GetEvidence => listEvidence id q
        | GetExitPacks => listExitPacks q
        | GetDrills => listDrills q
        | GetDrill key => getDrill key
        | GetLog key => drillLog key
        end
      else ret forbidden
  | None => ret forbidden
  end.
End Views.
End OpsApi.

Module HubApi.
Section Hub.
Context `{Reads}.

Definition binding_le (a b : BindingRow) : Prop := text_compare (cb_key a) (cb_key b) <> Gt.
#[local] Instance binding_le_dec a b : Decision (binding_le a b).
Proof using. unfold binding_le. apply _. Defined.
Definition listBindings : Db Answer :=
  or_500 (query_rows (fun d => Some (page 200 0 (merge_sort binding_le
            (rows_where cb_is_active (arrange 200 0 (bindings d)))))))
    (shown (fun b => Some (VBinding (cb_key b) (cb_scope_hash b) (cb_priority b) (cb_state b) (cb_revision b))) Items).

Definition plan_le (a b : PlanRow) : Prop := pl_created_at b <= pl_created_at a.
#[local] Instance plan_le_dec a b : Decision (plan_le a b).
Proof using. unfold plan_le. apply _. Defined.
Definition plan_view (p : PlanRow) : View := VPlan (pl_id p) (pl_fingerprint p) (pl_status p).
(** Each plan of the list has an empty list of items. *)
Definition listPlans : Db Answer :=
  or_500 (query_rows (fun d => Some (page 200 0 (merge_sort plan_le (arrange 200 0 (plans d))))))
    (shown (fun p => Some (plan_view p)) Items).

Definition item_le (a b : PlanItemRow) : Prop := text_compare (pt_requirement_id a) (pt_requirement_id b) <> Gt.
#[local] Instance item_le_dec a b : Decision (item_le a b).
Proof using. unfold item_le. apply _. Defined.
Definition getPlan (id : string) : Db Answer :=
  found_or_404 (query_row (fun d => first_where (fun p => pl_id p =s id) (plans d))) (fun p =>
    let! items := attempt (query_rows (fun d => Some (merge_sort item_le
                    (rows_where (fun i => pt_plan_id i =s pl_id p) (arrange (-1) 0 (plan_items d)))))) in
    ret (Detail (plan_view p)
           (map (fun i => VItem (pt_requirement_id i) (pt_provider_key i))
              (match items with inr l => l | inl _ => [] end)))).
End Hub.
End HubApi.

(** ** Reads that fail *)

Section Failing.
Context {DB : Type}.

Lemma next_rows_ok {A} (l : list A) (d : DB) t : next_rows l (MkWorld d [] t) = (inr l, MkWorld d [] t).
Proof.
  induction l as [|x l IH]; [done|]. cbn [next_rows]. unfold bind at 1, attempt. rewrite query_ok.
  unfold bind. by rewrite IH.
Qed.
Lemma next_rows_take {A} (l : list A) (w : World DB) :
  exists n w', next_rows l w = (inr (take n l), w') /\ store w' = store w /\ clock w' = clock w.
Proof.
  revert w. induction l as [|x l IH]; intros [d fl t]; [by exists 0%nat; eexists|]. cbn [next_rows].
  unfold bind at 1, attempt, query, stmt, failing, pop_fault. cbn [store faults clock set_store].
  destruct fl as [|[] fl]; cbn [hd tail].
  - destruct (IH (MkWorld d [] t)) as (n & w' & E & Hs & Hc). exists (S n), w'.
    unfold bind, set_store. cbn -[next_rows take]. by rewrite E.
  - exists 0%nat. eexists. by rewrite take_0.
  - destruct (IH (MkWorld d fl t)) as (n & w' & E & Hs & Hc). exists (S n), w'.
    unfold bind, set_store. cbn -[next_rows take]. by rewrite E.
Qed.
Lemma query_rows_ok {A} (rows : DB -> option (list A)) d t :
  query_rows rows (MkWorld d [] t) = (inr (default [] (rows d)), MkWorld d [] t).
Proof. unfold query_rows, bind at 1. rewrite query_ok. apply next_rows_ok. Qed.
Lemma query_rows_take {A} (rows : DB -> option (list A)) w :
  exists r w', query_rows rows w = (r, w') /\ store w' = store w /\ clock w' = clock w /\
    (r = inl (ESql Fault) \/ exists n, r = inr (take n (default [] (rows (store w))))).
Proof.
  unfold query_rows, bind, query, stmt. destruct (failing w) eqn:F.
  - eexists _, _. split; [done|]. split_and!; auto.
  - cbn -[next_rows]. destruct (next_rows_take (default [] (rows (store w))) (set_store (store w) (pop_fault w)))
      as (n & w' & E & Hs & Hc). eexists _, w'. split; [exact E|]. split_and!; eauto.
Qed.
Lemma or_500_run {A} (m : M DB A) k w a w' :
  or_500 m k w = (inr a, w') ->
  exists r w1, m w = (r, w1) /\ match r with
    | inl _ => a = Refused 500 "INTERNAL" /\ w' = w1
    | inr x => k x w1 = (inr a, w')
    end.
Proof.
  unfold or_500, bind, attempt. destruct (m w) as [[e|x] w1]; intros E; eexists _, w1; (split; [done|]); simpl in *.
  - by injection E as <- <-.
  - done.
Qed.
End Failing.

Lemma mapM_take {A B} (f : A -> option B) l out n : mapM f l = Some out -> mapM f (take n l) = Some (take n out).
Proof.
  intros H. apply mapM_Some in H. apply mapM_Some. by apply Forall2_take.
Qed.

Module OpsProps.
Import Matrix OpsApi.
Section Confined.
Context `{R : Reads}.

(** Every list handler answers 500 or shows the first rows of its page, and
    changes nothing. *)
Lemma list_page_run {A} q (rows : OpsDb -> option (list A)) view w a w' :
  list_page q rows view w = (inr a, w') ->
  store w' = store w /\ (a = Refused 500 "INTERNAL" \/ exists n out,
    mapM view (take n (default [] (rows (store w)))) = Some out /\ a = Listing q out).
Proof using.
  intros E. apply or_500_run in E as (r & w1 & E & Hk). destruct (query_rows_take rows w) as (r' & w2 & E' & Hs & _ & Hr).
  rewrite E in E'. injection E' as -> ->. destruct Hr as [->|(n & ->)]; [destruct Hk as [-> ->]; auto|].
  apply ret_inr in Hk as [-> ->]. split; [done|]. destruct (mapM view _) as [out|] eqn:Em; eauto.
Qed.

(** *** Confinement *)

Definition of_tenant (t : string) (v : View) : bool :=
  match v with
  | VMetric r _ | VPoint r _ | VBroken r _ _ => dim_is "tenant" t r
  | VEvidence _ _ _ _ _ tenant _ _ _ _ _ _ => tenant =s t
  | _ => false
  end.
Definition in_environments (envs : list string) (v : View) : bool :=
  match v with
  | VMetric r _ | VPoint r _ | VBroken r _ _ => existsb (fun e => dim_is "environment" e r) envs
  | _ => false
  end.
(** The views of tenants, and those of environments. *)
Definition by_environment (r : Route) : bool :=
  match r with GetMetrics | GetHistory | GetBroken => true | _ => false end.
Definition by_tenant (r : Route) : bool := by_environment r || match r with GetEvidence => true | _ => false end.

Definition tenant_filter (id : Authn.Identity) : string :=
  if Authn.HasScope id "ops.all-tenants" then "" else Authn.TenantRef id.
Lemma scope_inr id q tenant envs :
  scope (Some id) q = Some (tenant, envs) ->
  tenant = tenant_filter id /\ envs = Authn.Environments id /\
  (Authn.HasScope id "ops.all-tenants" = false -> Get q "tenant" ∈ ["" ; Authn.TenantRef id]) /\
  (envs <> [] -> Get q "environment" ∈ "" :: envs).
Proof using.
  unfold scope, tenant_filter. set (e := Get q "environment"). set (t := Get q "tenant").
  destruct (negb (is_nil _) && _ && _) eqn:Ee; [discriminate|]. intros Hs.
  assert (He : Authn.Environments id <> [] -> e ∈ "" :: Authn.Environments id).
  { intros Hn. destruct (Authn.Environments id) as [|x l] eqn:El; [done|]. simpl in Ee. unfold contains in Ee.
    destruct (String.eqb_spec e "") as [->|]; [left|]. right. simpl in Ee. apply str_mem_spec.
    by apply negb_false_iff in Ee. }
  destruct (Authn.HasScope id "ops.all-tenants") eqn:Ha.
  - injection Hs as <- <-. split_and!; done.
  - destruct (negb (t =s "") && _) eqn:Et; [discriminate|]. injection Hs as <- <-. split_and!; try done.
    intros _. b2p. destruct Et as [->| ->]; [left|right; left].
Qed.
Lemma confined_spec tenant envs r :
  confined tenant envs r = true ->
  (tenant <> "" -> dim_is "tenant" tenant r = true) /\
  (envs <> [] -> existsb (fun e => dim_is "environment" e r) envs = true).
Proof using.
  unfold confined, given. intros Hc. apply andb_true_iff in Hc as [H1 H2]. apply orb_true_iff in H1, H2. split.
  - intros Hn. destruct H1 as [H1|H1]; [|done]. by apply String.eqb_eq in H1.
  - intros Hn. destruct H2 as [H2|H2]; [|done]. by destruct envs.
Qed.
Lemma elem_of_page {A} l o (xs : list A) x : x ∈ page l o xs -> x ∈ xs.
Proof using.
  unfold page. intros (i & Hi & _)%elem_of_take. rewrite lookup_drop in Hi. by eapply list_elem_of_lookup_2.
Qed.

(** The row a view is taken from. *)
Definition is_row (d : OpsDb) (v : View) : Prop :=
  match v with
  | VMetric r t | VPoint r t | VBroken r t _ =>
      exists x, x ∈ results (o_metrics d) /\ mr_result x = r /\ mr_at x = t
  | VEvidence _ _ _ _ _ _ _ _ _ _ _ _ => exists e, e ∈ o_evidence d /\ evidence_view e = v
  | _ => False
  end.
Definition allowed (tenant : string) (envs : list string) (v : View) : Prop :=
  (tenant <> "" -> of_tenant tenant v = true) /\ (envs <> [] -> in_environments envs v = true).

Lemma distinct_on_elem seen l r : r ∈ Ledger.distinct_on seen l -> r ∈ l.
Proof using.
  revert seen. induction l as [|x l IH]; intros seen; simpl; [done|].
  case_bool_decide; [intros H1%IH; by right|]. intros [->|H1%IH]%elem_of_cons; [left|by right].
Qed.
Lemma elem_of_latest l o d r : r ∈ latest l o d -> r ∈ results (o_metrics d).
Proof using. intros Hr%distinct_on_elem. by rewrite merge_sort_Permutation, arrange_perm in Hr. Qed.
Lemma elem_of_latest_page q p d r : r ∈ latest_page q p d -> r ∈ results (o_metrics d) /\ p r = true.
Proof using.
  intros Hr%elem_of_page. rewrite merge_sort_Permutation in Hr. apply elem_of_rows_where in Hr as [Hr Hp].
  split; [by eapply elem_of_latest|done].
Qed.

(** What a page of a list shows satisfies [P] if each of its rows does. *)
Lemma list_page_all {A} (P : View -> Prop) q (rows : OpsDb -> option (list A)) view w a w' items l o :
  list_page q rows view w = (inr a, w') -> a = Page items l o ->
  (forall xs x v, rows (store w) = Some xs -> x ∈ xs -> view x = Some v -> P v) -> forall v, v ∈ items -> P v.
Proof using.
  intros E -> Hx v Hv. apply list_page_run in E as (_ & [|(n & out & Em & Ea)]); [done|]. unfold Listing in Ea. injection Ea as -> _ _.
  apply mapM_Some in Em. apply list_elem_of_lookup_1 in Hv as (i & Hi).
  destruct (Forall2_lookup_r _ _ _ _ _ Em Hi) as (x & Hl & Hxv). apply lookup_take_Some in Hl as [Hl _].
  destruct (rows (store w)) as [xs|] eqn:Er; [|done]. apply list_elem_of_lookup_2 in Hl. by eapply Hx.
Qed.
Lemma timed_row {A} s (rows : option Z -> OpsDb -> list A) d xs x :
  timed s rows d = Some xs -> x ∈ xs -> exists since, x ∈ rows since d.
Proof using.
  unfold timed. intros E Hx. destruct s; simplify_eq; eauto.
  destruct (timestamptz_in text); simplify_eq/=. eauto.
Qed.

(** What the filters keep is confined. *)
Ltac kept H := repeat (apply andb_true_iff in H as [H ?]); done.
Lemma metric_where_confined q tenant envs since r :
  metric_where q tenant envs since r = true -> confined tenant envs (mr_result r) = true.
Proof using. unfold metric_where. intros H. kept H. Qed.
Lemma history_where_confined key q tenant envs r :
  history_where key q tenant envs r = true -> confined tenant envs (mr_result r) = true.
Proof using. unfold history_where. intros H. kept H. Qed.
Lemma evidence_where_tenant q tenant since e :
  evidence_where q tenant since e = true -> tenant <> "" -> (ev_tenant e =s tenant) = true.
Proof using.
  unfold evidence_where, given. intros H Hn. apply andb_true_iff in H as [[H _]%andb_true_iff _].
  apply String.eqb_neq in Hn. by rewrite !Hn in H.
Qed.

Lemma serve_confined r id q w items l o w' :
  serve r (Some id) q w = (inr (Page items l o), w') -> by_tenant r = true ->
  exists tenant envs, scope (Some id) q = Some (tenant, envs) /\
    forall v, v ∈ items -> is_row (store w) v /\
      allowed tenant (if by_environment r then envs else []) v.
Proof using.
  unfold serve. destruct (Authn.HasScope id "ops.read"); [|done].
  intros E Hr. destruct r; try done; simpl in E;
    unfold listMetrics, metricHistory, brokenEvidence, listEvidence in E.
  - destruct (scope _ _) as [[tenant envs]|]; [|done]. exists tenant, envs. split; [done|].
    destruct (metric_since _) as [| |text] eqn:Es; [|done|];
      (eapply list_page_all; [exact E|done|]; intros xs x v Hxs Hx [= <-];
       eapply timed_row in Hxs as [since Hin]; [|exact Hx]; apply elem_of_latest_page in Hin as [Hin Hp];
       split; [by exists x|]; by apply metric_where_confined, confined_spec in Hp).
  - destruct (_ =s ""); [done|]. destruct (scope _ _) as [[tenant envs]|]; [|done]. exists tenant, envs. split; [done|].
    eapply list_page_all; [exact E|done|]. intros xs x v [= <-] Hx [= <-]. apply elem_of_page in Hx.
    rewrite merge_sort_Permutation in Hx. apply elem_of_rows_where in Hx as [Hx Hp]. rewrite arrange_perm in Hx.
    split; [by exists x|]. by apply history_where_confined, confined_spec in Hp.
  - destruct (scope _ _) as [[tenant envs]|]; [|done]. exists tenant, envs. split; [done|].
    eapply list_page_all; [exact E|done|]. intros xs x v [= <-] Hx [= <-].
    apply elem_of_latest_page in Hx as [Hx Hp]. split; [by exists x|]. apply andb_true_iff in Hp as [_ Hp]. by apply confined_spec in Hp.
  - destruct (scope _ _) as [[tenant envs]|]; [|done]. exists tenant, envs. split; [done|].
    destruct (evidence_since _) as [| |text] eqn:Es; [|done|];
      (eapply list_page_all; [exact E|done|]; intros xs x v Hxs Hx [= <-];
       eapply timed_row in Hxs as [since Hin]; [|exact Hx]; apply elem_of_page in Hin;
       rewrite merge_sort_Permutation in Hin; apply elem_of_rows_where in Hin as [Hin Hp]; rewrite arrange_perm in Hin;
       split; [by exists x|]; split; [|done]; by eapply evidence_where_tenant).
Qed.
End Confined.

(** *** The pages of the metrics list *)

(** A comparison that sorts; one of a total order. *)
Record ordering {A} (c : A -> A -> comparison) : Prop := {
  ord_opp : forall a b, c b a = CompOpp (c a b);
  ord_trans : forall a b d, c a b <> Gt -> c b d <> Gt -> c a d <> Gt;
}.
Definition total_order {A} (c : A -> A -> comparison) : Prop :=
  ordering c /\ forall a b, c a b = Eq -> a = b.
(** The collation and the order of jsonb are total orders. *)
Class ReadsLaws `{Reads} : Prop := {
  text_order : total_order text_compare;
  dims_order : total_order dims_compare;
}.

Section Ordering.
Context {A : Type}.
Lemma ordering_then (c d : A -> A -> comparison) :
  ordering c -> ordering d -> ordering (fun a b => Extract.then_by (c a b) (d a b)).
Proof using.
  intros [Oc Tc] [Od Td]. split.
  - intros a b. rewrite (Oc a b), (Od a b). by destruct (c a b).
  - intros a b e. unfold Extract.then_by. intros H1 H2.
    assert (Hc : c a e <> Gt) by (apply (Tc a b e); [by destruct (c a b)|by destruct (c b e)]).
    destruct (c a e) eqn:Eae; [|done|done].
    assert (Eba : c b a <> Gt) by (apply (Tc b e a); [by destruct (c b e)|rewrite (Oc a e), Eae; done]).
    assert (Eeb : c e b <> Gt) by (apply (Tc e a b); [rewrite (Oc a e), Eae; done|by destruct (c a b)]).
    rewrite (Oc a b) in Eba. rewrite (Oc b e) in Eeb.
    destruct (c a b); [|done|done]. destruct (c b e); [|done|done]. by apply (Td a b e).
Qed.
Lemma ordering_on {B} (f : A -> B) (c : B -> B -> comparison) : ordering c -> ordering (fun a b => c (f a) (f b)).
Proof using. intros [O T]. split; [intros a b; apply O|intros a b e; apply T]. Qed.
Lemma ordering_rev (c : A -> A -> comparison) : ordering c -> ordering (fun a b => c b a).
Proof using. intros [O T]. split; [intros a b; apply O|intros a b e H1 H2; by apply (T e b a)]. Qed.
Lemma ordering_le (c : A -> A -> comparison) :
  ordering c -> Transitive (fun a b => c a b <> Gt) /\ Total (fun a b => c a b <> Gt).
Proof using.
  intros [O T]. split; [intros a b e; apply T|]. intros a b. rewrite (O a b).
  destruct (c a b); [by left..|by right].
Qed.
End Ordering.
Lemma ordering_Z : ordering Z.compare.
Proof. split; [intros a b; apply Z.compare_antisym|]. exact Z.le_trans. Qed.

Section Pages.
Context `{L : ReadsLaws}.

(** *** DISTINCT ON *)


Lemma metric_order : ordering (Ledger.by_metric text_compare dims_compare).
Proof using L.
  destruct text_order as [Ht _], dims_order as [Hd _]. unfold Ledger.by_metric.
  apply (ordering_then (fun a b => text_compare (MetricKey (mr_result a)) (MetricKey (mr_result b)))
    (fun a b => Extract.then_by (dims_compare (Dimensions (mr_result a)) (Dimensions (mr_result b))) (mr_at b ?= mr_at a))).
  - exact (ordering_on (fun r => MetricKey (mr_result r)) _ Ht).
  - apply (ordering_then (fun a b => dims_compare (Dimensions (mr_result a)) (Dimensions (mr_result b)))
      (fun a b => mr_at b ?= mr_at a)).
    + exact (ordering_on (fun r => Dimensions (mr_result r)) _ Hd).
    + exact (ordering_rev _ (ordering_on mr_at _ ordering_Z)).
Qed.
Definition key_compare (a b : string * Dims) : comparison := Extract.then_by (text_compare a.1 b.1) (dims_compare a.2 b.2).
Definition key_le (a b : string * Dims) : Prop := key_compare a b <> Gt.
Lemma key_order : total_order key_compare.
Proof using L.
  destruct text_order as [Ht Et], dims_order as [Hd Ed]. split.
  - apply (ordering_then (fun a b : string * Dims => text_compare a.1 b.1) (fun a b => dims_compare a.2 b.2)).
    + exact (ordering_on fst _ Ht).
    + exact (ordering_on snd _ Hd).
  - intros [a1 a2] [b1 b2]. unfold key_compare, Extract.then_by. simpl.
    destruct (text_compare a1 b1) eqn:E1; [|done..]. intros E2. f_equal; [by apply Et|by apply Ed].
Qed.
#[local] Instance key_le_trans : Transitive key_le.
Proof using L. apply (ordering_le _ (proj1 key_order)). Qed.
#[local] Instance key_le_anti : AntiSymm (=) key_le.
Proof using L.
  intros a b Hab Hba. apply key_order. unfold key_le in *. rewrite (ord_opp _ (proj1 key_order) a b) in Hba.
  by destruct (key_compare a b).
Qed.

(** Among rows of one series, the later first. *)
Lemma metric_le_series a b :
  Ledger.metric_le text_compare dims_compare a b -> series a = series b -> mr_at b <= mr_at a.
Proof using L.
  unfold Ledger.metric_le, Ledger.by_metric, series. intros Hle [= E1 E2]. rewrite E1, E2 in Hle.
  assert (Ht : forall s, text_compare s s = Eq).
  { intros s. destruct text_order as [[O _] _]. specialize (O s s). by destruct (text_compare s s). }
  assert (Hd : forall s, dims_compare s s = Eq).
  { intros s. destruct dims_order as [[O _] _]. specialize (O s s). by destruct (dims_compare s s). }
  rewrite Ht, Hd in Hle. exact Hle.
Qed.
Lemma distinct_on_first seen l r :
  StronglySorted (Ledger.metric_le text_compare dims_compare) l -> r ∈ Ledger.distinct_on seen l ->
  (series r ∉ seen) /\ forall r', r' ∈ l -> series r' = series r -> mr_at r' <= mr_at r.
Proof using L.
  revert seen. induction l as [|x l IH]; intros seen Hs Hr; [by apply elem_of_nil in Hr|].
  inversion Hs as [|? ? Hs' Hx]; subst. simpl in Hr. fold (series x) in Hr.
  assert (Hle : forall r', r' ∈ l -> series r' = series x -> mr_at r' <= mr_at x).
  { intros r' Hr' He. rewrite Forall_forall in Hx. by apply metric_le_series; [apply Hx|]. }
  case_bool_decide as Hseen.
  - destruct (IH _ Hs' Hr) as [Hn Hmax]. split; [done|]. intros r' [->|Hr']%elem_of_cons He; [|by apply Hmax].
    destruct Hn. by rewrite <- He.
  - apply elem_of_cons in Hr as [->|Hr].
    + split; [done|]. intros r' [->|Hr']%elem_of_cons He; [lia|by apply Hle].
    + destruct (IH _ Hs' Hr) as [Hn Hmax]. apply not_elem_of_cons in Hn as [Hn1 Hn2]. split; [done|].
      intros r' [->|Hr']%elem_of_cons He; [by destruct Hn1|by apply Hmax].
Qed.
Lemma distinct_on_has seen l r :
  r ∈ l -> series r ∉ seen -> exists r', r' ∈ Ledger.distinct_on seen l /\ series r' = series r.
Proof using.
  revert seen. induction l as [|x l IH]; intros seen Hr Hn; [by apply elem_of_nil in Hr|]. simpl. fold (series x).
  case_bool_decide as Hseen.
  - apply elem_of_cons in Hr as [->|Hr]; [done|by apply IH].
  - destruct (decide (series x = series r)) as [He|He]; [exists x; split; [left|done]|].
    apply elem_of_cons in Hr as [->|Hr]; [done|].
    destruct (IH (series x :: seen) Hr) as (r' & Hr' & E); [by apply not_elem_of_cons|]. exists r'. split; [by right|done].
Qed.
Lemma distinct_on_once seen l :
  NoDup (map series (Ledger.distinct_on seen l)) /\ forall r, r ∈ Ledger.distinct_on seen l -> series r ∉ seen.
Proof using.
  revert seen. induction l as [|x l IH]; intros seen; simpl; [split; [constructor|by intros r Hr%elem_of_nil]|].
  fold (series x). case_bool_decide as Hseen; [apply IH|]. destruct (IH (series x :: seen)) as [Hn Hs]. split.
  - simpl. constructor; [|done]. intros (r & E & Hr)%list_elem_of_fmap. apply (Hs r Hr). rewrite E. left.
  - intros r [->|Hr]%elem_of_cons; [done|]. specialize (Hs r Hr). by apply not_elem_of_cons in Hs as [_ Hs].
Qed.

(** *** The series of a page *)

(** No row of its series was computed later. *)
Definition newest (d : OpsDb) (r : MetricRow) : Prop :=
  r ∈ results (o_metrics d) /\ forall r', r' ∈ results (o_metrics d) -> series r' = series r -> mr_at r' <= mr_at r.
Lemma latest_newest l o d r : r ∈ latest l o d -> newest d r.
Proof using L.
  intros Hr. split; [by eapply elem_of_latest|]. intros r' Hr' He. unfold latest in Hr.
  destruct (ordering_le _ metric_order) as [Ht Hto].
  eapply distinct_on_first in Hr as [_ Hmax]; [apply Hmax; [|done]|].
  - by rewrite merge_sort_Permutation, arrange_perm.
  - apply Sorted_StronglySorted; [exact Ht|]. apply Sorted_merge_sort. exact Hto.
Qed.
Lemma newest_latest l o d r : newest d r -> exists r', r' ∈ latest l o d /\ series r' = series r /\ mr_at r' = mr_at r.
Proof using L.
  intros [Hr Hmax]. unfold latest.
  destruct (distinct_on_has [] (merge_sort (Ledger.metric_le text_compare dims_compare) (arrange l o (results (o_metrics d)))) r)
    as (r' & Hr' & E); [by rewrite merge_sort_Permutation, arrange_perm|apply not_elem_of_nil|].
  exists r'. split; [done|split; [done|]]. destruct (latest_newest l o d r' Hr') as [Hin Hmax'].
  apply Z.le_antisymm; [by apply Hmax|]. by apply Hmax'.
Qed.

(** A filter that looks at the series and the time of a row. *)
Definition by_series (p : MetricRow -> bool) : Prop :=
  forall a b, series a = series b -> mr_at a = mr_at b -> p a = p b.
Definition listed (l o : Z) (p : MetricRow -> bool) (d : OpsDb) : list (string * Dims) :=
  map series (merge_sort series_le (rows_where p (latest l o d))).
Lemma elem_of_listed l o p d s :
  by_series p -> s ∈ listed l o p d <-> exists r, newest d r /\ series r = s /\ p r = true.
Proof using L.
  intros Hp. unfold listed. rewrite list_elem_of_fmap. setoid_rewrite merge_sort_Permutation.
  setoid_rewrite elem_of_rows_where. split.
  - intros (r & -> & Hr & Hpr). exists r. split; [by eapply latest_newest|done].
  - intros (r & Hn & <- & Hpr). destruct (newest_latest l o d r Hn) as (r' & Hr' & Es & Et).
    exists r'. split; [done|]. split; [done|]. by rewrite (Hp r' r).
Qed.
Lemma listed_sorted l o p d : Sorted key_le (listed l o p d).
Proof using L.
  unfold listed. assert (Hto : Total series_le).
  { apply (ordering_le (fun a b => key_compare (series a) (series b))), (ordering_on series _ (proj1 key_order)). }
  pose proof (Sorted_merge_sort series_le (rows_where p (latest l o d))) as Hs.
  induction Hs as [|r rs Hs IH Hr]; simpl; [constructor|]. constructor; [done|]. by destruct Hr; constructor.
Qed.
Lemma listed_once l o p d : NoDup (listed l o p d).
Proof using.
  unfold listed. rewrite merge_sort_Permutation.
  assert (Hs : forall xs, map series (rows_where p xs) `sublist_of` map series xs).
  { unfold rows_where. induction xs as [|x xs IH]; simpl; [constructor|]. destruct (p x); by constructor. }
  eapply sublist_NoDup; [|apply Hs]. apply (distinct_on_once []).
Qed.
(** The list does not depend on the order in which rows reach the sorts. *)
Lemma listed_same l o l' o' p d : by_series p -> listed l o p d = listed l' o' p d.
Proof using L.
  intros Hp. apply (Sorted_unique key_le); [apply listed_sorted..|].
  apply NoDup_Permutation; [apply listed_once..|]. intros s. by rewrite !elem_of_listed.
Qed.

Definition same_filters (q q' : Values) : Prop := forall k, k <> "limit" -> k <> "offset" -> Get q k = Get q' k.
Lemma metric_where_same q q' : same_filters q q' -> metric_where q = metric_where q'.
Proof using.
  intros Hq. unfold metric_where, axes. cbn [forallb].
  by rewrite (Hq "metric"), (Hq "capability"), (Hq "provider"), (Hq "vendor"), (Hq "environment"), (Hq "tenant") by done.
Qed.
Lemma scope_same id q q' : same_filters q q' -> scope id q = scope id q'.
Proof using. intros Hq. unfold scope. by rewrite (Hq "environment"), (Hq "tenant") by done. Qed.
Lemma metric_where_series q tenant envs since : by_series (metric_where q tenant envs since).
Proof using.
  intros a b [= E1 E2] Et. unfold metric_where, confined, dim_is. by rewrite E1, E2, Et.
Qed.
Lemma pages_take {A} l (xs : list A) n :
  concat (map (fun i : nat => page l (Z.of_nat i * l) xs) (seq 0 n)) = take (n * Z.to_nat l) xs.
Proof using.
  induction n as [|n IH]; [done|]. rewrite seq_S, map_app, concat_app, IH. simpl. rewrite app_nil_r. unfold page.
  replace (Z.to_nat (Z.of_nat n * l)) with (n * Z.to_nat l)%nat by lia.
  rewrite take_take_drop. f_equal. lia.
Qed.

(** The instant the rows of a request start from; [None] is a refusal. *)
Definition window (q : Values) : option (option Z) :=
  match metric_since (Get q "since") with
  | NoSince => Some None
  | BadSince => None
  | SinceText text => t ← timestamptz_in text; Some (Some t)
  end.
Definition metric_view (r : MetricRow) : View := VMetric (mr_result r) (mr_at r).
Definition view_series (v : View) : string * Dims :=
  match v with VMetric r _ => (MetricKey r, Dimensions r) | _ => ("", None) end.
Lemma mapM_total {A B} (f : A -> B) l : mapM (fun x => Some (f x)) l = Some (map f l).
Proof using. induction l as [|x l IH]; [done|]. simpl. by rewrite IH. Qed.
Lemma metrics_answer id q d t tenant envs since :
  Authn.HasScope id "ops.read" = true -> scope (Some id) q = Some (tenant, envs) -> window q = Some since ->
  serve GetMetrics (Some id) q (MkWorld d [] t) =
    (inr (Listing q (map metric_view (latest_page q (metric_where q tenant envs since) d))), MkWorld d [] t).
Proof using.
  intros Hr Hs Hw. unfold serve. rewrite Hr. unfold listMetrics. rewrite Hs. unfold window in Hw.
  assert (Hl : forall s, timed s (fun since => latest_page q (metric_where q tenant envs since)) d =
                         Some (latest_page q (metric_where q tenant envs since) d) ->
    list_page q (timed s (fun since => latest_page q (metric_where q tenant envs since)))
               (fun r => Some (VMetric (mr_result r) (mr_at r))) (MkWorld d [] t) =
    (inr (Listing q (map metric_view (latest_page q (metric_where q tenant envs since) d))), MkWorld d [] t)).
  { intros s Ht. unfold list_page, or_500, bind at 1, attempt. rewrite query_rows_ok, Ht. unfold shown, ret.
    cbn [default]. by rewrite (mapM_total metric_view). }
  destruct (metric_since _) as [| |text] eqn:Es; [|done|].
  - injection Hw as <-. by apply Hl.
  - apply Hl. unfold timed. destruct (timestamptz_in text); [|done]. by injection Hw as <-.
Qed.
End Pages.

(** *** Truncation *)

Section Truncated.
Context `{R : Reads}.

(** The answer [full] cut short, or a refusal. *)
Definition cut_short (full a : Answer) : Prop :=
  a = Refused 500 "INTERNAL" \/
  match full with
  | Page items l o => exists n, a = Page (take n items) l o
  | _ => False
  end.
Lemma list_cut {A} q (m : World OpsDb -> A -> option View) (rows : OpsDb -> option (list A)) d t fl w1 items l o :
  (forall w w', clock w = clock w' -> m w = m w') ->
  or_500 (query_rows rows) (fun xs w => shown (m w) (Listing q) xs w) (MkWorld d [] t) = (inr (Page items l o), w1) ->
  exists a w', or_500 (query_rows rows) (fun xs w => shown (m w) (Listing q) xs w) (MkWorld d fl t) = (inr a, w') /\
    store w' = d /\ cut_short (Page items l o) a.
Proof using.
  intros Hm E. apply or_500_run in E as (r & w2 & E & Hk). rewrite query_rows_ok in E. injection E as <- <-.
  apply ret_inr in Hk as [Ha _]. destruct (mapM _ _) as [out|] eqn:Em; [|done].
  unfold Listing in Ha. injection Ha as -> -> ->.
  destruct (query_rows_take rows (MkWorld d fl t)) as (r & w2 & E & Hs & Hc & Hr). simpl in Hs, Hc.
  unfold or_500, bind, attempt. rewrite E. destruct Hr as [->|(n & ->)].
  - eexists _, w2. split; [done|]. split; [done|by left].
  - eexists _, w2. split; [done|]. split; [done|]. right. exists n.
    rewrite (Hm w2 (MkWorld d [] t)) by done. apply (mapM_take _ _ _ n) in Em. cbn [store] in *. by rewrite Em.
Qed.
Lemma list_page_cut {A} q (view : A -> option View) (rows : OpsDb -> option (list A)) d t fl w1 items l o :
  list_page q rows view (MkWorld d [] t) = (inr (Page items l o), w1) ->
  exists a w', list_page q rows view (MkWorld d fl t) = (inr a, w') /\ store w' = d /\ cut_short (Page items l o) a.
Proof using. exact (list_cut q (fun _ => view) rows d t fl w1 items l o (fun _ _ _ => eq_refl)). Qed.
End Truncated.
End OpsProps.

Export OpsProps.
Import OpsApi.

(** Whatever statements fail, a list read answers either 500 or the first
    rows of the page it would have answered, and never changes the database:
    a read that is cut short is answered like a complete one. *)
Theorem failing_reads `{Reads} r id q d t items l o w1 :
  serve r id q (MkWorld d [] t) = (inr (Page items l o), w1) ->
  forall fl, exists a w', serve r id q (MkWorld d fl t) = (inr a, w') /\ store w' = d /\
    (a = Refused 500 "INTERNAL" \/ exists n, a = Page (take n items) l o).
Proof.
  intros E fl. unfold serve in *. destruct id as [i|]; [|done]. destruct (Authn.HasScope i "ops.read"); [|done].
  destruct r; unfold listMetrics, metricHistory, brokenEvidence, listAlerts, listEvidence, listDrills in *.
  - exfalso. unfold overview in E. apply or_500_run in E as (? & ? & Eq & E). injection Eq as <- <-.
    cbn in E. discriminate.
  - destruct (scope _ _) as [[tenant envs]|]; [|done].
    destruct (metric_since _); try done; by eapply list_page_cut.
  - destruct (_ =s ""); [done|]. destruct (scope _ _) as [[tenant envs]|]; [|done]. by eapply list_page_cut.
  - destruct (scope _ _) as [[tenant envs]|]; [|done]. by eapply list_page_cut.
  - by eapply list_page_cut.
  - destruct (scope _ _) as [[tenant envs]|]; [|done].
    destruct (evidence_since _); try done; by eapply list_page_cut.
  - exact (list_cut q (fun w => pack_view (clock w)) _ d t fl w1 items l o
      (fun w w' Hc => f_equal pack_view Hc) E).
  - by eapply list_page_cut.
  - exfalso. unfold getDrill, found_or_404, bind, attempt in E. destruct (query_row _ _) as [[e|x] w] eqn:Eq.
    + by destruct (is_no_rows e).
    + apply or_500_run in E as (r & ? & ? & Hk). destruct r; [by destruct Hk|].
      apply ret_inr in Hk as [Ha _]. by destruct (mapM _ _).
  - exfalso. unfold drillLog in E. apply or_500_run in E as (r & ? & _ & Hk). destruct r as [|b]; [by destruct Hk|].
    destruct b; [|done]. apply or_500_run in Hk as (r & ? & _ & Hk). destruct r; [by destruct Hk|].
    apply ret_inr in Hk as [Ha _]. by destruct (mapM _ _).
Qed.

(** C6. The views of metrics and evidence show stored rows only; a caller
    without ops.all-tenants is shown rows of its tenant only, if its token names
    one, and metrics of its environments only, if its token names any; a request
    for another tenant or environment is refused. *)
Theorem reads_confined `{Reads} r id q w items l o w' :
  serve r (Some id) q w = (inr (Page items l o), w') -> by_tenant r = true ->
  (forall v, v ∈ items -> is_row (store w) v) /\
  (Authn.HasScope id "ops.all-tenants" = false ->
     Get q "tenant" ∈ [""; Authn.TenantRef id] /\
     (Authn.TenantRef id <> "" -> forall v, v ∈ items -> of_tenant (Authn.TenantRef id) v = true)) /\
  (Authn.Environments id <> [] ->
     Get q "environment" ∈ "" :: Authn.Environments id /\
     (by_environment r = true -> forall v, v ∈ items -> in_environments (Authn.Environments id) v = true)).
Proof.
  intros E Hr. destruct (serve_confined _ _ _ _ _ _ _ _ E Hr) as (tenant & envs & Hs & Hv).
  apply scope_inr in Hs as (-> & -> & Ht & He). unfold tenant_filter in Hv. split; [by intros v [? _]%Hv|]. split.
  - intros Hn. split; [by apply Ht|]. rewrite Hn in Hv. intros Hne v (_ & Hall & _)%Hv. by apply Hall.
  - intros Hn. split; [by apply He|]. intros Hb v (_ & _ & Hall)%Hv. rewrite Hb in Hall. by apply Hall.
Qed.

(** C27. The pages of the metrics list, requested with one limit, the offsets
    0, l, 2l, ... and the same filters, show each series that has a newest row
    passing the filters exactly once, in one order, by a newest row, however
    rows of equal keys are arranged in each request. *)
Theorem metrics_pages `{ReadsLaws} id q tenant envs since d t l :
  Authn.HasScope id "ops.read" = true -> scope (Some id) q = Some (tenant, envs) -> window q = Some since ->
  exists all,
    NoDup all /\
    (forall s, s ∈ all <-> exists r, newest d r /\ series r = s /\ metric_where q tenant envs since r = true) /\
    forall n (qs : nat -> Values),
      (forall i, (i < n)%nat ->
         parseLimit (qs i) = l /\ parseOffset (qs i) = Z.of_nat i * l /\ same_filters (qs i) q) ->
      exists items,
        (forall i, (i < n)%nat ->
           serve GetMetrics (Some id) (qs i) (MkWorld d [] t) =
             (inr (Page (items i) l (Z.of_nat i * l)), MkWorld d [] t) /\
           forall v, v ∈ items i -> exists r, newest d r /\ v = metric_view r) /\
        map view_series (concat (map items (seq 0 n))) = take (n * Z.to_nat l) all.
Proof.
  intros Hread Hs Hw. set (p := metric_where q tenant envs since). exists (listed l 0 p d).
  split; [apply listed_once|]. split; [intros s; apply elem_of_listed, metric_where_series|]. intros n qs Hq.
  exists (fun i => map metric_view (latest_page (qs i) p d)). split.
  - intros i Hi. destruct (Hq i Hi) as (Hl & Ho & Hf). split.
    + unfold p. rewrite <- (metric_where_same _ _ Hf).
      erewrite metrics_answer; [unfold Listing; by rewrite Hl, Ho|done|by rewrite (scope_same _ _ _ Hf)|].
      rewrite <- Hw. unfold window. by rewrite (Hf "since") by done.
    + intros v (r & -> & Hr%elem_of_page)%list_elem_of_fmap. exists r. split; [|done].
      rewrite merge_sort_Permutation in Hr. apply elem_of_rows_where in Hr as [Hr _]. by eapply latest_newest.
  - rewrite <- (pages_take l), concat_map, map_map. f_equal. apply map_ext_in. intros i Hi%in_seq.
    destruct (Hq i) as (Hl & Ho & _); [lia|]. unfold latest_page. rewrite Hl, Ho, map_map.
    rewrite (listed_same l 0 l (Z.of_nat i * l) p d) by apply metric_where_series.
    unfold page, listed. by rewrite <- fmap_drop, <- fmap_take.
Qed.

(** The log of a drill. *)
Definition clock_forward (l : list TransRow) : Prop :=
  StronglySorted (fun a b => tr_at a <= tr_at b /\ tr_id a < tr_id b) l.
Lemma sorted_pair {A} (R : A -> A -> Prop) l x y : StronglySorted R l -> x ∈ l -> y ∈ l -> x = y \/ R x y \/ R y x.
Proof.
  induction 1 as [|z l Hs IH Hz]; intros Hx Hy; [by apply elem_of_nil in Hx|]. rewrite Forall_forall in Hz.
  apply elem_of_cons in Hx as [->|Hx]; apply elem_of_cons in Hy as [->|Hy]; auto.
Qed.
#[local] Existing Instance DrillStore.trans_le_dec.
Lemma log_in_order (l l' : list TransRow) :
  clock_forward l -> l' ≡ₚ l -> merge_sort DrillStore.trans_le l' = l.
Proof.
  intros Hl Hp. assert (Ht : Transitive DrillStore.trans_le) by (intros a b c; unfold DrillStore.trans_le; lia).
  assert (Hm : merge_sort DrillStore.trans_le l' ≡ₚ l)
    by (etrans; [apply merge_sort_Permutation|done]).
  apply (Sorted_unique_strong DrillStore.trans_le); [| | |done].
  - intros x y Hx Hy Hxy Hyx. rewrite Hm in Hx.
    destruct (sorted_pair _ _ _ _ Hl Hx Hy) as [?|[?|?]]; [done|..]; unfold DrillStore.trans_le in *; lia.
  - apply Sorted_merge_sort. intros a b. unfold DrillStore.trans_le. lia.
  - apply StronglySorted_Sorted. clear Hm Hp. induction Hl as [|a l Hl IH Ha]; constructor; [done|].
    eapply Forall_impl; [exact Ha|]. unfold DrillStore.trans_le. intros; lia.
Qed.

(** When the ids of its transitions increase and the clock did not run
    backwards, the log of a drill is its audit trail in order, and following
    it from DRAFT over legal transitions ends in the state the drill is shown
    with. *)
Theorem drill_log_follows `{Reads} d key r t :
  star drill_step empty_drills (o_drill d) ->
  first_where (is_drill key) (drills (o_drill d)) = Some r ->
  clock_forward (trail key (o_drill d)) ->
  exists rows, drillLog key (MkWorld d [] t) = (inr (Items (map transition_view rows)), MkWorld d [] t) /\
    rows = trail key (o_drill d) /\ follow Matrix.StateDraft rows = Some (dr_state r) /\
    exists findings, getDrill key (MkWorld d [] t) = (inr (Detail (drill_view (r, None)) findings), MkWorld d [] t).
Proof.
  intros Hst Hf Hl. exists (trail key (o_drill d)).
  assert (Hrows : log_rows key d = trail key (o_drill d)).
  { unfold log_rows. apply log_in_order; [done|]. unfold trail. by rewrite arrange_perm. }
  assert (Ha : any_where (is_drill key) (drills (o_drill d)) = true).
  { apply first_where_some in Hf as [Hin Hk]. apply existsb_exists. exists r. by rewrite <- list_elem_of_In. }
  split_and!; [|done|..].
  - unfold drillLog, or_500, bind at 1, attempt. rewrite query_ok, Ha. unfold bind, attempt.
    rewrite query_rows_ok, Hrows. unfold shown, ret. cbn [default id]. by rewrite (mapM_total transition_view).
  - destruct (drill_star_later _ _ DrillProps.empty_drills_ok Hst) as [[Htr _ _] _ _ _].
    apply first_drill in Hf as [Hin Hk]. rewrite <- Hk. by apply (tk_trail _ Htr).
  - unfold getDrill, found_or_404, bind at 1, attempt.
    rewrite query_row_ok, Hf. unfold or_500, bind, attempt. rewrite query_rows_ok. unfold shown, ret. eexists.
    by rewrite (mapM_total finding_view).
Qed.

(** *** What the views do not say *)

(** A token without a tenant is not confined to one: it reads what the holder
    of ops.all-tenants reads. *)
Theorem no_tenant_reads_all `{Reads} r id id' q w :
  Authn.HasScope id "ops.read" = Authn.HasScope id' "ops.read" ->
  Authn.TenantRef id = "" -> Authn.HasScope id "ops.all-tenants" = false ->
  Authn.HasScope id' "ops.all-tenants" = true -> Authn.Environments id = Authn.Environments id' ->
  Get q "tenant" = "" -> serve r (Some id) q w = serve r (Some id') q w.
Proof.
  intros Hr Ht Ha Ha' He Hq. assert (Hs : scope (Some id) q = scope (Some id') q).
  { unfold scope. by rewrite Ha, Ha', He, Hq, Ht. }
  unfold serve. rewrite Hr. destruct (Authn.HasScope id' "ops.read"); [|done].
  destruct r; try done; unfold listMetrics, metricHistory, brokenEvidence, listEvidence; by rewrite Hs.
Qed.

(** Every metric formula v1 computes is listed as broken, unless the id of an
    indexed event begins with "dataset:": its reference names a dataset. *)
Theorem computed_metrics_broken `{MapOrder} ds d r :
  mr_result r ∈ Formula.ComputeV1 ds ->
  (forall e, e ∈ o_evidence d -> String.substring 0 8 (ev_event_id e) <> "dataset:") ->
  broken d r = true.
Proof.
  intros Hr He. assert (Href : exists s, EvidenceRef (mr_result r) = "dataset:" +:+ s).
  { unfold Formula.ComputeV1, Formula.sortResults in Hr. rewrite merge_sort_Permutation in Hr. unfold Formula.computed in Hr.
    rewrite !elem_of_app, list_elem_of_singleton, !list_elem_of_fmap in Hr.
    destruct Hr as [(c & -> & _)|[->|(c & -> & _)]];
      unfold Formula.substitution, Formula.concentration, Formula.compatibility, Formula.mr;
      repeat case_match; by eexists. }
  destruct Href as [s Href]. unfold broken. rewrite Href. apply orb_true_iff. right. apply negb_true_iff.
  apply not_true_iff_false. intros (e & Hin & Hres)%existsb_exists. apply list_elem_of_In in Hin. unfold resolves in Hres.
  apply orb_true_iff in Hres as [Hres|Hres]; b2p; [|done]. apply (He e Hin). rewrite Hres. simpl. f_equal.
  by destruct s.
Qed.

(** The quarantine depth of the dashboard counts records waiting for the
    archive: with none, quarantined records do not show. *)
Theorem quarantine_not_counted `{Reads} d t a :
  (forall e, e ∈ o_evidence d -> ev_worm e <> WormPending) -> overview (MkWorld d [] t) = (inr a, MkWorld d [] t) ->
  exists al ep ad fi um, a = Overview al ep ad fi 0 [] um.
Proof.
  intros He. unfold overview, or_500. cbn. intros [= <-]. do 5 eexists. f_equal.
  unfold count_where. assert (Hn : forall l, (forall e, e ∈ l -> ev_worm e <> WormPending) ->
    List.filter (fun e => ev_worm e =d WormPending) l = []); [|by rewrite Hn].
  clear He. induction l as [|e l IH]; intros Hl; [done|]. simpl. rewrite bool_decide_eq_false_2 by (apply Hl; left).
  apply IH. intros e' He'. apply Hl. by right.
Qed.

(** One pack whose steps are not an array, as a draft without steps is stored,
    and the list shows no pack at all when the select list is evaluated first. *)
Theorem null_steps_hide_packs `{Reads} q d t p :
  eager = true -> p ∈ xpacks (o_xp d) -> pack_where q p = true -> xp_steps p = JNull ->
  listExitPacks q (MkWorld d [] t) = (inr (Page [] (parseLimit q) (parseOffset q)), MkWorld d [] t).
Proof.
  intros He Hp Hw Hs. assert (Hrows : pack_rows q d = []).
  { unfold pack_rows, sent_rows. rewrite He.
    replace (existsb _ _) with true; [done|]. symmetry. apply existsb_exists. exists p. split.
    - apply list_elem_of_In. rewrite merge_sort_Permutation. apply elem_of_rows_where. by rewrite arrange_perm.
    - unfold lengths. by rewrite Hs. }
  unfold listExitPacks, or_500, bind at 1, attempt. rewrite query_rows_ok. cbn [default id]. by rewrite Hrows.
Qed.

(** *** At concrete databases *)

Lemma encode_order {A} `{Countable A} : total_order (fun a b : A => Pos.compare (encode a) (encode b)).
Proof.
  split.
  - split; [intros a b; apply Pos.compare_antisym|]. intros a b d. exact (Pos.le_trans _ _ _).
  - intros a b E%Pos.compare_eq. by apply (inj encode).
Qed.
#[local] Instance plain_reads : Reads := {|
  text_compare a b := Pos.compare (encode a) (encode b);
  dims_compare a b := Pos.compare (encode a) (encode b);
  arrange A l o xs := if o =? 0 then xs else rev xs;
  arrange_perm A l o xs := match o =? 0 as b return (if b then xs else rev xs) ≡ₚ xs with
                           | true => Permutation_refl xs
                           | false => symmetry (Permutation_rev xs)
                           end;
  eager := true;
  timestamptz_in := GoTime.parse_rfc3339_nano;
|}.
#[local] Instance plain_reads_laws : ReadsLaws.
Proof. split; apply encode_order. Qed.

Definition point (key tenant env : string) (status : string) (at_ : Z) : MetricRow :=
  MkMetricRow at_ (MkMetricResult key (Some [("environment", env); ("tenant", tenant)]) None status "" 1 "v1" "dataset:1@v1") at_.
Definition points : list MetricRow :=
  [point "a" "t1" "prod" StatusOK 1; point "a" "t1" "prod" StatusUnknown 2; point "a" "t2" "prod" StatusOK 3;
   point "b" "t1" "test" StatusOK 4; point "b" "t1" "prod" StatusOK 5].
Definition event0 (id : string) (at_ : Z) (st : EvidenceState) : EvidenceRow :=
  MkEvidenceRow 1 id "topic" "plan" "p1" 1 "t1" at_ at_ "sha256:0" JNull "p1" "STANDARD" None WormNone st "" at_.
Definition no_steps : XpRow :=
  MkXpRow "vendor-a" "vendor-a" 1 XpDraft "" "" JNull (JArr []) (JObj []) None None None "alice" None None None None 7.
Definition odb : OpsDb :=
  MkOpsDb (store DrillProps.dw_run)
    (MkXpDb [no_steps] (MkEvDb empty_db [event0 "e1" 7 StateQuarantined; event0 "e2" 7 StateLinked] [] 1))
    (MkMetricsDb empty_db 13 points [] 6).

Definition reader (tenant : string) (scopes envs : list string) : Authn.Identity :=
  Authn.MkIdentity "alice" tenant ("ops.read" :: scopes) "jti" None envs.
Definition t1_prod : Authn.Identity := reader "t1" [] ["prod"].
Definition wide : Authn.Identity := reader "" ["ops.all-tenants"] [].
Definition at9 (fl : list bool) : World OpsDb := MkWorld odb fl 9.

Definition evidence_page : list View := [evidence_view (event0 "e1" 7 StateQuarantined); evidence_view (event0 "e2" 7 StateLinked)].
Lemma evidence_read : serve GetEvidence (Some wide) [] (at9 []) = (inr (Page evidence_page 50 0), at9 []).
Proof. vm_compute. reflexivity. Qed.
Lemma failing_reads_witness :
  exists a w', serve GetEvidence (Some wide) [] (at9 [false; false; true]) = (inr a, w') /\ store w' = odb /\
    (a = Refused 500 "INTERNAL" \/ exists n, a = Page (take n evidence_page) 50 0).
Proof. exact (failing_reads GetEvidence (Some wide) [] odb 9 evidence_page 50 0 _ evidence_read [false; false; true]). Defined.
(** What it answers: the first record, as if it were the only one. *)
Example half_read :
  (serve GetEvidence (Some wide) [] (at9 [false; false; true])).1 =
  inr (Page [evidence_view (event0 "e1" 7 StateQuarantined)] 50 0).
Proof. vm_compute. reflexivity. Qed.

Definition t1_page : list View :=
  [metric_view (point "a" "t1" "prod" StatusUnknown 2); metric_view (point "b" "t1" "prod" StatusOK 5)].
Lemma t1_read : serve GetMetrics (Some t1_prod) [] (at9 []) = (inr (Page t1_page 50 0), at9 []).
Proof. vm_compute. reflexivity. Qed.
Lemma reads_confined_witness :
  (forall v, v ∈ t1_page -> of_tenant "t1" v = true) /\ (forall v, v ∈ t1_page -> in_environments ["prod"] v = true).
Proof.
  destruct (reads_confined GetMetrics t1_prod [] (at9 []) t1_page 50 0 (at9 []) t1_read eq_refl) as (_ & Ht & He).
  split; [by apply Ht|by apply He].
Defined.

Definition page_of_one (i : nat) : Values := [("limit", "1"); ("offset", if decide (i = 0%nat) then "0" else "1")].
Lemma metrics_pages_witness :
  exists all items, NoDup all /\ map view_series (concat (map items (seq 0 2))) = take 2 all /\
    serve GetMetrics (Some t1_prod) (page_of_one 1) (at9 []) = (inr (Page (items 1%nat) 1 1), at9 []).
Proof.
  destruct (metrics_pages t1_prod [] "t1" ["prod"] None odb 9 1 eq_refl eq_refl eq_refl) as (all & Hn & _ & Hpages).
  destruct (Hpages 2%nat page_of_one) as (items & Hi & Hall).
  - intros i Hi. destruct i as [|[|i]]; [..|lia]; (split; [done|split; [done|]]); intros k Hl Ho;
      unfold Get; cbn [page_of_one List.find fst]; apply not_eq_sym, String.eqb_neq in Hl, Ho; by rewrite Hl, Ho.
  - exists all, items. split; [done|]. split; [exact Hall|]. by apply (Hi 1%nat); lia.
Defined.

Definition drill1 : DrillRow :=
  MkDrillRow "drill-1" "vendor-a" "" "alice" "bob" Matrix.StateRunning "" (Some 10) None 10.
Lemma drill_log_follows_witness :
  exists rows, (drillLog "drill-1" (at9 [])).1 = inr (Items (map transition_view rows)) /\ length rows = 3%nat /\
    follow Matrix.StateDraft rows = Some Matrix.StateRunning.
Proof.
  destruct (drill_log_follows odb "drill-1" drill1 9) as (rows & E & -> & Hf & _).
  - exact DrillProps.dw_history.
  - vm_compute. reflexivity.
  - repeat constructor; simpl; lia.
  - exists (trail "drill-1" (o_drill odb)). split; [|split; [vm_compute; reflexivity|exact Hf]]. unfold at9. by rewrite E.
Defined.

(** Two pages of one record each show one record twice and the other never. *)
Example overlapping_pages :
  map (fun o => (serve GetEvidence (Some wide) [("limit", "1"); ("offset", o)] (at9 [])).1) ["0"; "1"] =
  [inr (Page [evidence_view (event0 "e1" 7 StateQuarantined)] 1 0); inr (Page [evidence_view (event0 "e1" 7 StateQuarantined)] 1 1)].
Proof. vm_compute. reflexivity. Qed.
Example quarantined_unseen : (serve GetOverview (Some wide) [] (at9 [])).1 = inr (Overview 0 0 1 0 0 [] (Some 1)).
Proof. vm_compute. reflexivity. Qed.
Example unread_quarantine_is_zero :
  (serve GetOverview (Some wide) [] (at9 [false; false; false; false; true; true])).1 =
  inr (Overview 0 0 1 0 0 ["quarantine_depth"; "unknown_metrics"] None).
Proof. vm_compute. reflexivity. Qed.
Example tenant_refused :
  (serve GetMetrics (Some t1_prod) [("tenant", "t2")] (at9 [])).1 = inr (Refused 403 "FORBIDDEN").
Proof. vm_compute. reflexivity. Qed.
Example no_packs_shown : (serve GetExitPacks (Some wide) [] (at9 [])).1 = inr (Page [] 50 0).
Proof. vm_compute. reflexivity. Qed.
