(* ===== verification/WorkerProc.v ===== *)
(** * The worker process

    [Loop] is src/internal/platform/worker/loop.go, [Probes]
    src/internal/platform/httpapi/health.go, [WorkerMain] what
    src/cmd/control-plane-worker/main.go makes of them: the archive loop and
    the admin endpoints.  The ticks of a loop and its cancellation come from
    the environment as a list of [Wake]s.  The theorems: each tick runs the
    function once, whatever it returns and whether it panics, until the loop is
    cancelled; the archive loop, run by the process, is a sequence of steps of
    the archive system. *)

From S2P Require Import Prelude GoStd GoJson GoHttp Sql Schema Events Evidence EvidenceLog EvidencePack ArchiveLog Gateway.

(** ** worker/loop.go *)

Module Loop.
Section Loop.
Context {DB : Type}.

(** How a tick's function ends. *)
Inductive Ended : Type := Returned (r : err + unit) | Panicked.
Definition Fn : Type := World DB -> Ended * World DB.
Record Loop_ : Type := MkLoop { interval : Z; fn : Fn }.
(** [None] is a panic of the constructor. *)
Definition NewLoop (i : Z) (f : option Fn) : option Loop_ :=
  match f with
  | Some f => if i <=? 0 then None else Some (MkLoop i f)
  | None => None
  end.

(** What the logger is told. *)
Inductive LogEntry : Type := TickPanicked | TickFailed (e : err).
Definition tick (l : Loop_) (w : World DB) : list LogEntry * World DB :=
  let '(r, w') := fn l w in
  (match r with
   | Returned (inr _) => []
   | Returned (inl e) => [TickFailed e]
   | Panicked => [TickPanicked]
   end, w').

(** What select wakes the loop with: the ticker, at its time, or the end of
    the context. *)
Inductive Wake : Type := WTick (t : Z) | WDone.
Definition at_time (t : Z) (w : World DB) : World DB := MkWorld (store w) (faults w) (Z.max (clock w) t).
(** Whether it returned (always nil), its log and the state. *)
Fixpoint Run (l : Loop_) (wakes : list Wake) (w : World DB) : bool * list LogEntry * World DB :=
  match wakes with
  | [] => (false, [], w)
  | WDone :: _ => (true, [], w)
  | WTick t :: rest =>
      let '(log, w1) := tick l (at_time t w) in
      let '(r, log', w2) := Run l rest w1 in
      (r, log ++ log', w2)
  end.
(** A function that does not panic. *)
Definition returning (m : M DB unit) : Fn := fun w => let '(r, w') := m w in (Returned r, w').
End Loop.
Arguments Fn : clear implicits.
Arguments Loop_ : clear implicits.
End Loop.

(** ** httpapi/health.go *)

Module Probes.
Definition NewHealth (ready : option bool) : bool := match ready with Some b => b | None => true end.
(** [uptime]: the text of the time since the process started. *)
Definition LivenessHandler (uptime : string) : Response :=
  MkResponse 200 (JObj [("probe", JStr "healthz"); ("status", JStr "alive"); ("uptime", JStr uptime)]).
Definition ReadinessHandler (ready : bool) : Response :=
  if ready then MkResponse 200 (JObj [("probe", JStr "readyz"); ("status", JStr "ready")])
  else MkResponse 503 (JObj [("probe", JStr "readyz"); ("status", JStr "not-ready")]).
(** NewRouter: the two probes, 404 and 405 for the rest. *)
Definition route (uptime : string) (ready : bool) (method path : string) : Response :=
  if (path =s "/healthz") || (path =s "/readyz") then
    if method =s "GET" then
      if path =s "/healthz" then LivenessHandler uptime else ReadinessHandler ready
    else MkResponse 405 (JObj [("error", JStr "method_not_allowed")])
  else MkResponse 404 (JObj [("error", JStr "not_found")]).
End Probes.

(** ** control-plane-worker/main.go *)

Module WorkerMain.
Import Loop Transport Worker Pack PackStore Archive.

(** os.Getenv: an unset variable is "". *)
Definition Env : Type := string -> string.
Definition envOr (e : Env) (key fallback : string) : string := if e key =s "" then fallback else e key.
Definition envInt (e : Env) (key : string) (fallback : Z) : Z :=
  if e key =s "" then fallback else default fallback (atoi (e key)).
(** What is wired: the outbox worker, the evidence consumer, the archive loop. *)
Definition outbox_on (e : Env) : bool := negb (e "SAOAF_DB_DSN" =s "") && negb (e "SAOAF_NATS_URL" =s "").
Definition consumer_on (e : Env) : bool := outbox_on e && (envInt e "SAOAF_EVIDENCE_CONSUMER" 0 =? 1).
Definition archive_on (e : Env) : bool := outbox_on e && negb (e "SAOAF_WORM_ENDPOINT" =s "").

Section Archive.
Context {T : Type} `{OS : ObjectStore T, WS : !WormStore T} `{JS : Jsonb}.
Context (error_text : err -> string) (hashtext : string -> Z).

(** The function of the archive loop: an error is logged and dropped. *)
Definition archive_tick (e : Env) : M (Archiver T) unit :=
  let! _ := attempt (ArchiveOnce error_text hashtext (envOr e "SAOAF_WORM_POLICY_VERSION" "v1")
                       (envInt e "SAOAF_WORM_RETENTION_DAYS" 3650)
                       (envOr e "SAOAF_WORM_CONSUMER_ID" "archive-1") (envInt e "SAOAF_WORM_BATCH" 100)) in
  ret tt.
Definition archiveLoop (e : Env) : option (Loop_ (Archiver T)) :=
  NewLoop (Int64.wrap (envInt e "SAOAF_WORM_INTERVAL_MS" 30000 * 1000000)) (Some (returning (archive_tick e))).
End Archive.

(** *** The admin endpoints *)

Definition unavailable : Response := MkResponse 500 (JObj [("error", JStr "evidence metrics unavailable")]).
Definition metrics_evidence (consumer : string) : M EvDb Response :=
  let! depth := attempt Index.QuarantineDepth in
  let! cp := attempt (Index.Checkpoint consumer) in
  ret (match depth, cp with
       | inr n, inr c => MkResponse 200 (JObj [("checkpoint", JNum (dec c)); ("quarantine_depth", JNum (dec n))])
       | _, _ => unavailable
       end).
Section Outbox.
Context {T : Type} `{EventTransport T}.
Definition worker_ready (outbox : option (Proc T)) : bool :=
  match outbox with None => true | Some p => Healthy (pr_transport p) end.
Definition metrics (outbox : option (Proc T)) : Response :=
  match outbox with
  | None => MkResponse 200 (JObj [("outbox", JStr "disabled")])
  | Some p =>
      let s := pr_stats p in
      MkResponse 200 (JObj
        [("backlog_depth", JNum (dec (BacklogDepth s))); ("dlq_depth", JNum (dec (DLQDepth s)));
         ("failed", JNum (dec (Failed s))); ("publish_errors", JNum (dec (PublishErrors s)));
         ("publish_max_ms", JNum (dec (PublishMaxMS s))); ("published", JNum (dec (Published s)));
         ("retries", JNum (dec (Retries s)))])
  end.
Definition disabled : Response := MkResponse 503 (JObj [("error", JStr "outbox disabled")]).
Definition worker_pause (outbox : option (Proc T)) : Response * option (Proc T) :=
  match outbox with
  | None => (disabled, None)
  | Some p => (MkResponse 200 (JObj [("status", JStr "paused")]), Some (Pause p))
  end.
Definition worker_resume (outbox : option (Proc T)) : Response * option (Proc T) :=
  match outbox with
  | None => (disabled, None)
  | Some p => (MkResponse 200 (JObj [("status", JStr "resumed")]), Some (Resume p))
  end.
End Outbox.
End WorkerMain.

(** ** Properties *)

Module WorkerProps.
Import Loop Pack PackStore Archive WorkerMain.

(** The ticks before the loop is cancelled. *)
Fixpoint ticks_of (wakes : list Wake) : list Z :=
  match wakes with
  | WTick t :: rest => t :: ticks_of rest
  | _ => []
  end.
(** However its ticks end, with nil, an error or a panic, the loop runs the
    function once for each of them, in order, until it is cancelled, and only
    then returns; each error and each panic is logged once. *)
Lemma loop_runs {DB} (l : Loop_ DB) wakes w returned log w' :
  Run l wakes w = (returned, log, w') ->
  (returned = true <-> WDone ∈ wakes) /\
  w' = fold_left (fun v t => (fn l (at_time t v)).2) (ticks_of wakes) w /\
  (length log <= length (ticks_of wakes))%nat /\
  ((forall v, exists v', fn l v = (Returned (inr tt), v')) -> log = []).
Proof.
  revert w returned log w'. induction wakes as [|[t|] rest IH]; intros w returned log w'; cbn [Run ticks_of].
  - intros [= <- <- <-]. split; [|split; [done|split; [done|done]]]. split; [done|]. by intros H%elem_of_nil.
  - unfold tick. destruct (fn l (at_time t w)) as [r w1] eqn:E. destruct (Run l rest w1) as [[b log'] w2] eqn:E2.
    intros [= <- <- <-]. destruct (IH _ _ _ _ E2) as (H1 & H2 & H3 & H4).
    cbn [fold_left length]. rewrite E. split; [|split; [exact H2|split]].
    + rewrite H1, elem_of_cons. split; [by right|]. intros [|]; done.
    + rewrite length_app. destruct r as [[e|u]|]; simpl; lia.
    + intros Hf. destruct (Hf (at_time t w)) as (v & Ev). rewrite E in Ev. injection Ev as -> _. by rewrite H4.
  - intros [= <- <- <-]. split; [|split; [done|split; [simpl; lia|done]]]. split; [|done]. intros _. left.
Qed.
(** A relation every call keeps is kept by the loop. *)
Lemma ticks_keep {DB} (R : World DB -> World DB -> Prop) (l : Loop_ DB) ts w :
  (forall v, R v v) -> (forall a b c, R a b -> R b c -> R a c) -> (forall t v, R v (at_time t v)) ->
  (forall v, R v (fn l v).2) -> R w (fold_left (fun v t => (fn l (at_time t v)).2) ts w).
Proof.
  intros Hr Ht Ha Hf. revert w. induction ts as [|t ts IH]; intros w; [apply Hr|]. simpl.
  eapply Ht; [|apply IH]. eapply Ht; [apply Ha|apply Hf].
Qed.

Section ArchiveLoop.
Context {T : Type} `{OS : ObjectStore T, WS : !WormStore T} `{JS : Jsonb}.
Context (error_text : err -> string) (hashtext : string -> Z).

Lemma archive_tick_steps e (w : World (Archiver T)) :
  exists w', archive_tick error_text hashtext e w = (inr tt, w') /\
    star archive_step (pair_of (store w)) (pair_of (store w')).
Proof using WS.
  unfold archive_tick, bind, attempt. destruct (ArchiveOnce _ _ _ _ _ _ w) as [x w'] eqn:E.
  exists w'. split; [done|]. by destruct (goes_ArchiveOnce _ _ _ _ _ _ w x w' I E).
Qed.

(** C29. The archive loop of the worker process, over any sequence of ticks,
    whatever fails in the database or the object store: what it does is a
    sequence of the archive system's steps, so that packs keep what later
    states keep of them and stored objects stay under locks that only move
    later; it logs nothing of its own and returns only when it is cancelled. *)
Theorem archive_loop_refines e l wakes (w : World (Archiver T)) returned log w' :
  archiveLoop error_text hashtext e = Some l -> Run l wakes w = (returned, log, w') ->
  star archive_step (pair_of (store w)) (pair_of (store w')) /\ log = [] /\
  (returned = true <-> WDone ∈ wakes) /\
  (ledger_ok (pair_of (store w)) ->
   ledger_ok (pair_of (store w')) /\ rows_kept pack_later (packs (ar_db (store w))) (packs (ar_db (store w'))) /\
   forall b k v body u, holds (ar_objects (store w)) b k v body u ->
     exists u', u <= u' /\ holds (ar_objects (store w')) b k v body u').
Proof using WS.
  intros Hl Hr. unfold archiveLoop, NewLoop in Hl. destruct (_ <=? 0); [discriminate|]. injection Hl as <-.
  destruct (loop_runs _ _ _ _ _ _ Hr) as (H1 & H2 & _ & H4).
  assert (Hst : star archive_step (pair_of (store w)) (pair_of (store w'))).
  { rewrite H2. apply (ticks_keep (fun a b => star archive_step (pair_of (store a)) (pair_of (store b)))).
    - intros v. constructor.
    - intros a b c. apply star_trans.
    - intros t v. constructor.
    - intros v. cbn [fn]. unfold returning. destruct (archive_tick_steps e v) as (v' & -> & Hv). exact Hv. }
  split; [done|]. split; [|split; [done|]].
  - apply H4. intros v. cbn [fn]. unfold returning. destruct (archive_tick_steps e v) as (v' & -> & _). eauto.
  - intros Hok. destruct (star_archive _ _ Hst Hok) as (Hok' & K1 & _ & K3). done.
Qed.
End ArchiveLoop.

(** Two ticks of the archive loop under the default settings, then the end. *)
#[local] Existing Instances ArchiveProps.shelf_store ArchiveProps.shelf_worm EvidenceProps.json_text.
Definition no_env : Env := fun _ => "".
Definition archive_loop : Loop_ (Archiver (list ArchiveProps.Obj)) :=
  MkLoop 30000000000 (returning (archive_tick ArchiveProps.no_text ArchiveProps.no_hash no_env)).
Definition two_ticks : list Wake := [WTick 30000000000; WTick 60000000000; WDone].
Definition loop_end : World (Archiver (list ArchiveProps.Obj)) :=
  Eval vm_compute in (Run archive_loop two_ticks ArchiveProps.start).2.
Lemma loop_run : Run archive_loop two_ticks ArchiveProps.start = (true, [], loop_end).
Proof. vm_compute. reflexivity. Qed.
Lemma archive_loop_refines_witness :
  ledger_ok (pair_of (store loop_end)) /\ exists l, links (ar_db (store loop_end)) = [l].
Proof.
  split; [|eexists; vm_compute; reflexivity].
  destruct (archive_loop_refines ArchiveProps.no_text ArchiveProps.no_hash no_env archive_loop two_ticks
              ArchiveProps.start true [] loop_end eq_refl loop_run) as (_ & _ & _ & H).
  exact (proj1 (H ArchiveProps.db1_ok)).
Defined.

Example env_numbers :
  map (fun v => envInt (fun _ => v) "K" 7) [""; "12"; "-3"; "x"; "1.5"] = [7; 12; -3; 7; 7].
Proof. vm_compute. reflexivity. Qed.
Example panics_do_not_stop :
  Run (MkLoop 1 (fun w : World Z => (Panicked, MkWorld (store w + 1) [] (clock w)))) [WTick 1; WTick 2; WDone; WTick 3]
    (MkWorld 0 [] 0) = (true, [TickPanicked; TickPanicked], MkWorld 2 [] 2).
Proof. vm_compute. reflexivity. Qed.
End WorkerProps.
