(* ===== verification/ApiProc.v ===== *)
(** * The API process

    What src/cmd/control-plane-api/main.go serves: which routes are there for
    which environment, and the gates in front of each.  [ApiMain] has main's
    wiring, MountAdmin with the routes of hub and ops mounted inside it, and
    MountResolver; the handlers behind the gates are a parameter, the router
    chi is the interface [Chi], which says that it picks a registered route.
    The theorems: a handler other than a probe runs only for an accepted token
    with the route's scope and a token left in its bucket, and an environment
    without an issuer serves nothing else; mounting does not panic. *)

From S2P Require Import Prelude GoStd GoJson GoHttp Sql Schema BindingStore Auth Gateway Ops WorkerProc.

(** chi: of the routes registered on a router, the one a request goes to.  The
    methods of a mounted subtree are a star.  A path that only routes of other
    methods match is not allowed. *)
Inductive Picked : Type := Routed (key : string * string) | NotAllowed | NotFound.
Class Chi : Type := {
  pick : list (string * string) -> string -> string -> Picked;
  pick_in routes method path r : pick routes method path = Routed r -> r ∈ routes;
}.

Module ApiMain.
Import Middleware Admin WorkerMain.

(** What a route leads to. *)
Inductive Endpoint : Type :=
| Whoami
| PublishRoute
| HubBindings | HubPlans | HubPlan
| OpsRead (r : OpsApi.Route)
| ResolveRoute | GetPlanRoute.
(** A registration with the gates of its With. *)
Record Route : Type := MkRoute {
  rt_reg : Registration; rt_scope : option string; rt_approval : option string; rt_end : Endpoint }.
Definition plain (r : Registration) (e : Endpoint) : Route := MkRoute r None None e.

(** hub.Mount *)
Definition hub_routes : list Route :=
  [plain (Get "/bindings") HubBindings; plain (Get "/resource-plans") HubPlans;
   plain (Get "/resource-plans/{id}") HubPlan].
(** ops.Mount; the name of a drill is the request's. *)
Definition ops_routes : list Route :=
  map (fun pr => MkRoute (Get pr.1) (Some "ops.read") None (OpsRead pr.2))
    [("/ops/overview", OpsApi.GetOverview); ("/ops/metrics", OpsApi.GetMetrics);
     ("/ops/metrics/history", OpsApi.GetHistory); ("/ops/metrics/broken", OpsApi.GetBroken);
     ("/ops/alerts", OpsApi.GetAlerts); ("/ops/evidence", OpsApi.GetEvidence);
     ("/ops/exit-packs", OpsApi.GetExitPacks); ("/ops/drills", OpsApi.GetDrills);
     ("/ops/drills/{id}", OpsApi.GetDrill ""); ("/ops/drills/{id}/log", OpsApi.GetLog "")].
(** MountAdmin: its own routes, then the extensions', all through one recorder;
    [None] is its panic. *)
Definition admin_own : list Route :=
  [plain (Get "/whoami") Whoami;
   MkRoute (Post "/bindings/{id}/publish") (Some "resource.publish") (Some "resource.publish") PublishRoute].
Definition MountAdmin (extend : list (list Route)) : option (list Route) :=
  let routes := admin_own ++ concat extend in
  match record_routes (map rt_reg routes) ∅ with
  | Some _ => Some routes
  | None => None
  end.
(** MountResolver: the routes below its identity gate; the three probes are
    registered outside. *)
Definition resolver_routes : list Route :=
  [MkRoute (Post "/resource-plans:resolve") (Some "resource.resolve") None ResolveRoute;
   MkRoute (Get "/resource-plans/{id}") (Some "resource.read") None GetPlanRoute].
Definition resolver_base : string := "/api/ai-resource-resolver/v1".
Definition resolver_probes : list (string * string) :=
  map (fun p => ("GET", resolver_base +:+ p)) ["/health/live"; "/health/ready"; "/health/startup"].

Record AdminCfg : Type := MkAdminCfg { ac_Authn : Authn.Validator; ac_PDP : string; ac_Approvals : string; ac_db : bool }.
Record Process : Type := MkProcess {
  pr_admin : option (AdminCfg * list Route);
  pr_resolver : option Authn.Validator;
}.

Section Main.
(** url.Parse, and whether a pool can be made for a data source name. *)
Context (url_parses pool_ok : string -> bool).

Definition new_validator (issuer : string) : M Net (option Authn.Validator) :=
  let! r := attempt (Authn.NewValidator url_parses issuer "saoaf-control-plane") in
  ret (match r with inr v => Some v | inl _ => None end).
Definition adminConfigFromEnv (e : Env) : M Net (option AdminCfg) :=
  let issuer := e "SAOAF_OIDC_ISSUER" in
  let pdp := e "SAOAF_PDP_URL" in
  let appr := e "SAOAF_APPROVAL_URL" in
  if (issuer =s "") || (pdp =s "") || (appr =s "") then ret None
  else
    let! v := new_validator issuer in
    ret ((fun v => MkAdminCfg v pdp appr (negb (e "SAOAF_DB_DSN" =s ""))) <$> v).
Definition resolverConfigFromEnv (e : Env) : M Net (option Authn.Validator) :=
  let issuer := e "SAOAF_OIDC_ISSUER" in
  let dsn := e "SAOAF_DB_DSN" in
  if (issuer =s "") || (dsn =s "") then ret None
  else
    let! v := new_validator issuer in
    ret (if pool_ok dsn then v else None).
Definition extensions (e : Env) : list (list Route) :=
  let dsn := e "SAOAF_DB_DSN" in
  if (dsn =s "") || negb (pool_ok dsn) then [] else [hub_routes; ops_routes].
(** main, up to the listening server; [None] is a panic. *)
Definition main (e : Env) : M Net (option Process) :=
  let! cfg := adminConfigFromEnv e in
  match cfg with
  | None => let! res := resolverConfigFromEnv e in ret (Some (MkProcess None res))
  | Some cfg =>
      match MountAdmin (extensions e) with
      | None => ret None
      | Some routes => let! res := resolverConfigFromEnv e in ret (Some (MkProcess (Some (cfg, routes)) res))
      end
  end.
End Main.

(** *** Serving *)

Definition admin_base : string := "/admin/v1".
Definition below (base : string) : string * string := ("*", base +:+ "/*").
(** The routes of the process's router. *)
Definition top_routes (p : Process) : list (string * string) :=
  [("GET", "/healthz"); ("GET", "/readyz")] ++
  (match pr_admin p with Some _ => [below admin_base] | None => [] end) ++
  (match pr_resolver p with Some _ => resolver_probes ++ [below resolver_base] | None => [] end).
(** chi's answers of its own. *)
Definition not_found : Response := MkResponse 404 JNull.
Definition method_not_allowed : Response := MkResponse 405 JNull.

Section Serve.
Context `{Chi} `{Authn.Jwt}.
(** The handlers, given the rest of the path. *)
Context (handle : Endpoint -> Incoming -> Handler).

Definition gates (pdp approvals : string) (r : Route) (q : Incoming) : Handler :=
  let h := handle (rt_end r) q in
  let h := match rt_approval r with Some a => ApprovalGate pdp approvals a h q | None => h end in
  match rt_scope r with Some s => RequireScope s h | None => h end.
Definition find_route (routes : list Route) (key : string * string) : option Route :=
  List.find (fun r => bool_decide (route (rt_reg r) = key)) routes.
(** A subtree: identity, rate limit, then its routes. *)
Definition subtree (v : Authn.Validator) (pdp approvals : string) (routes : list Route)
    (method path : string) (q : Incoming) : Http Response :=
  RequireIdentity v (RateLimit 100 200 (fun ctx =>
    match pick (map (fun r => route (rt_reg r)) routes) method path with
    | Routed key =>
        match find_route routes key with
        | Some r => gates pdp approvals r q ctx
        | None => ret not_found (* not reached: the key is a route's *)
        end
    | NotAllowed => ret method_not_allowed
    | NotFound => ret not_found
    end)) q.

(** A request by its method and path.  The subtrees have states of their own,
    a key cache and buckets each: a request runs in the one it goes to. *)
Definition serve (p : Process) (uptime : string) (db_ready : bool) (method path : string) (q : Incoming) : Http Response :=
  match pick (top_routes p) method path with
  | NotFound => ret not_found
  | NotAllowed => ret method_not_allowed
  | Routed key =>
      if bool_decide (key = ("GET", "/healthz")) then ret (Probes.LivenessHandler uptime)
      else if bool_decide (key = ("GET", "/readyz")) then ret (Probes.ReadinessHandler true)
      else if bool_decide (key = below admin_base) then
        match pr_admin p with
        | Some (cfg, routes) =>
            subtree (ac_Authn cfg) (ac_PDP cfg) (ac_Approvals cfg) routes method (GoString.trim_prefix path admin_base) q
        | None => ret not_found
        end
      else if bool_decide (key = below resolver_base) then
        match pr_resolver p with
        | Some v => subtree v "" "" resolver_routes method (GoString.trim_prefix path resolver_base) q
        | None => ret not_found
        end
      else if bool_decide (key = ("GET", resolver_base +:+ "/health/live")) then ret (Probes.LivenessHandler uptime)
      else ret (Probes.ReadinessHandler db_ready)
  end.
End Serve.
End ApiMain.

Module ApiProps.
Import Middleware Admin WorkerMain ApiMain.

(** *** Mounting *)

Lemma MountAdmin_total pool_ok e : exists routes, MountAdmin (extensions pool_ok e) = Some routes.
Proof.
  enough (Hx : match MountAdmin (extensions pool_ok e) with Some _ => true | None => false end = true)
    by (destruct (MountAdmin _); [eauto|done]).
  unfold extensions. destruct (_ || _); vm_compute; reflexivity.
Qed.

Section Wiring.
Context (url_parses pool_ok : string -> bool) (e : Env).

(** What main makes of the environment. *)
Record wired (p : Process) : Prop := {
  wd_admin cfg routes : pr_admin p = Some (cfg, routes) ->
    e "SAOAF_OIDC_ISSUER" <> "" /\ e "SAOAF_PDP_URL" <> "" /\ e "SAOAF_APPROVAL_URL" <> "" /\
    Authn.issuer (ac_Authn cfg) = e "SAOAF_OIDC_ISSUER" /\ Authn.audience (ac_Authn cfg) = "saoaf-control-plane" /\
    MountAdmin (extensions pool_ok e) = Some routes;
  wd_resolver v : pr_resolver p = Some v ->
    e "SAOAF_OIDC_ISSUER" <> "" /\ e "SAOAF_DB_DSN" <> "" /\
    Authn.issuer v = e "SAOAF_OIDC_ISSUER" /\ Authn.audience v = "saoaf-control-plane";
}.

Lemma new_validator_inr iss w o w' :
  new_validator url_parses iss w = (inr o, w') ->
  forall v, o = Some v -> Authn.issuer v = iss /\ Authn.audience v = "saoaf-control-plane".
Proof using.
  unfold new_validator, bind at 1, attempt at 1. destruct (Authn.NewValidator url_parses iss _ w) as [r w1] eqn:E.
  intros [= <- <-] v. destruct r as [er|v']; [done|]. intros [= ->]. unfold Authn.NewValidator in E.
  apply bind_inr in E as (? & ? & _ & E). apply bind_inr in E as (? & ? & _ & E).
  apply bind_inr in E as (? & ? & _ & E). by apply ret_inr in E as [-> _].
Qed.

Lemma resolverConfig_inr w o w' :
  resolverConfigFromEnv url_parses pool_ok e w = (inr o, w') ->
  forall v, o = Some v -> e "SAOAF_OIDC_ISSUER" <> "" /\ e "SAOAF_DB_DSN" <> "" /\
    Authn.issuer v = e "SAOAF_OIDC_ISSUER" /\ Authn.audience v = "saoaf-control-plane".
Proof using.
  unfold resolverConfigFromEnv. cbv zeta. destruct (_ || _) eqn:Ee.
  { intros [-> _]%ret_inr v. done. }
  intros Hr v ->. apply orb_false_iff in Ee as [E1 E2]. apply String.eqb_neq in E1, E2.
  apply bind_inr in Hr as (o & w1 & Hv & Hr). apply ret_inr in Hr as [Ho _].
  destruct (pool_ok _); [|done]. destruct (new_validator_inr _ _ _ _ Hv v) as [? ?]; auto.
Qed.

Lemma main_wired w p w' : main url_parses pool_ok e w = (inr (Some p), w') -> wired p.
Proof using.
  unfold main. intros Hr. apply bind_inr in Hr as (cfg & w1 & Hc & Hr). destruct cfg as [cfg|].
  - destruct (MountAdmin _) as [routes|] eqn:Em; [|by apply ret_inr in Hr as [[=] _]].
    apply bind_inr in Hr as (res & w2 & Hres & Hr). apply ret_inr in Hr as [[= ->] _]. split; simpl.
    + intros cfg' routes' [= <- <-]. unfold adminConfigFromEnv in Hc. cbv zeta in Hc.
      destruct (_ || _) eqn:Ee; [by apply ret_inr in Hc as [[=] _]|].
      rewrite !orb_false_iff, !String.eqb_neq in Ee. destruct Ee as [[E1 E2] E3].
      apply bind_inr in Hc as (o & w3 & Hv & Hc). apply ret_inr in Hc as [Ho _].
      destruct o as [v|]; [|done]. simpl in Ho. injection Ho as ->. simpl.
      destruct (new_validator_inr _ _ _ _ Hv v eq_refl). auto 6.
    + intros v ->. by eapply resolverConfig_inr.
  - apply bind_inr in Hr as (res & w2 & Hres & Hr). apply ret_inr in Hr as [[= ->] _]. split; simpl; [done|].
    intros v ->. by eapply resolverConfig_inr.
Qed.
End Wiring.

(** main does not panic: no route is registered twice, whatever is configured. *)
Lemma main_no_panic url_parses pool_ok e w : (main url_parses pool_ok e w).1 <> inr None.
Proof.
  destruct (main url_parses pool_ok e w) as [[er|[p|]] w'] eqn:Hr; [done..|]. exfalso.
  unfold main in Hr. apply bind_inr in Hr as (cfg & w1 & _ & Hr). destruct cfg as [cfg|].
  - destruct (MountAdmin_total pool_ok e) as [routes Em]. rewrite Em in Hr.
    apply bind_inr in Hr as (res & w2 & _ & Hr). by apply ret_inr in Hr as [[=] _].
  - apply bind_inr in Hr as (res & w2 & _ & Hr). by apply ret_inr in Hr as [[=] _].
Qed.

(** *** Behind the gates *)

(** The scope a handler asks for. *)
Definition scope_of (ep : Endpoint) : option string :=
  match ep with
  | Whoami | HubBindings | HubPlans | HubPlan => None
  | PublishRoute => Some "resource.publish"
  | OpsRead _ => Some "ops.read"
  | ResolveRoute => Some "resource.resolve"
  | GetPlanRoute => Some "resource.read"
  end.
Lemma routes_scoped pool_ok e routes r :
  MountAdmin (extensions pool_ok e) = Some routes \/ routes = resolver_routes ->
  r ∈ routes -> rt_scope r = scope_of (rt_end r).
Proof.
  assert (Hall : forall l, Forall (fun r => rt_scope r = scope_of (rt_end r)) l -> r ∈ l -> rt_scope r = scope_of (rt_end r))
    by (intros l Hl Hr; by rewrite Forall_forall in Hl; apply Hl).
  intros [Hm| ->].
  - unfold MountAdmin in Hm. destruct (record_routes _ _); [|done]. injection Hm as <-. unfold extensions.
    destruct (_ || _); apply Hall; repeat constructor.
  - apply Hall. repeat constructor.
Qed.

Lemma admin_ends pool_ok e routes r :
  MountAdmin (extensions pool_ok e) = Some routes -> r ∈ routes ->
  match rt_end r with ResolveRoute | GetPlanRoute => False | _ => True end.
Proof.
  intros Hm Hr.
  assert (Hall : Forall (fun r => match rt_end r with ResolveRoute | GetPlanRoute => False | _ => True end) routes).
  { unfold MountAdmin in Hm. destruct (record_routes _ _); [|done]. injection Hm as <-. unfold extensions.
    destruct (_ || _); repeat constructor. }
  rewrite Forall_forall in Hall. by apply Hall.
Qed.
Lemma resolver_ends r : r ∈ resolver_routes -> rt_end r = ResolveRoute \/ rt_end r = GetPlanRoute.
Proof. unfold resolver_routes. rewrite !elem_of_cons, elem_of_nil. intros [->|[->|[]]]; auto. Qed.

Section Served.
Context `{Chi} `{Authn.Jwt} (handle : Endpoint -> Incoming -> Handler).

(** The handler of an endpoint ran for an identity that passed the gates: its
    token was accepted when the request came in, its bucket had a token at that
    time, which it has paid with ([admitted]), and it holds the scope. *)
Definition ran (v : Authn.Validator) (ep : Endpoint) (q : Incoming) (w : World Api) (x : err + Response) (w' : World Api) : Prop :=
  exists id w1, admitted v 100 200 q w w1 id /\
    (forall s, scope_of ep = Some s -> Authn.HasScope id s = true) /\
    adb (store w1) = adb (store w) /\
    handle ep q (MkCtx (Some id) (requestID q)) w1 = (x, w').
(** Refused, not found or not allowed, without a change of the database. *)
Definition turned_away (w : World Api) (x : err + Response) (w' : World Api) : Prop :=
  (refusal x \/ x = inr not_found \/ x = inr method_not_allowed) /\ adb (store w') = adb (store w).

Lemma gates_run pdp approvals r q ctx w x w' :
  gates handle pdp approvals r q ctx w = (x, w') ->
  turned_away w x w' \/
  exists w1, clock w <= clock w1 /\ buckets (store w1) = buckets (store w) /\
    (forall s id, rt_scope r = Some s -> IdentityFrom ctx = Some id -> Authn.HasScope id s = true) /\
    adb (store w1) = adb (store w) /\ handle (rt_end r) q ctx w1 = (x, w').
Proof using.
  unfold gates. cbv zeta. set (h := match rt_approval r with Some a => _ | None => _ end).
  assert (Hh : forall w x w', h ctx w = (x, w') -> turned_away w x w' \/
    exists w1, clock w <= clock w1 /\ buckets (store w1) = buckets (store w) /\
      adb (store w1) = adb (store w) /\ handle (rt_end r) q ctx w1 = (x, w')).
  { clear. intros w x w'. subst h. destruct (rt_approval r) as [a|]; [|intros Hr; right; exists w; split_and!; auto; lia].
    intros [[Hx Hd]|(w1 & c & (-> & Hc & Hb & _) & Hd & Hr)]%ApprovalGate_gate; [left; split; auto|right].
    exists w1. split_and!; auto. }
  destruct (rt_scope r) as [s|] eqn:Es.
  - intros [[Hx Hd]|(w1 & c & (-> & -> & id & Hi & Hs) & _ & Hr)]%(RequireScope_gate s h q); [left; split; auto|].
    apply Hh in Hr as [Hr|(w1 & Hc & Hb & Hd & Hr)]; [by left|right]. exists w1. split_and!; auto.
    intros s' id' [= <-] Hi'. congruence.
  - intros [Hr|(w1 & Hc & Hb & Hd & Hr)]%Hh; [by left|right]. exists w1. by split_and!.
Qed.

Lemma subtree_run v pdp approvals routes method path q w x w' :
  (forall r, r ∈ routes -> rt_scope r = scope_of (rt_end r)) ->
  subtree handle v pdp approvals routes method path q w = (x, w') ->
  turned_away w x w' \/ exists r, r ∈ routes /\ ran v (rt_end r) q w x w'.
Proof using.
  intros Hsc. unfold subtree. intros [[Hx Hd]|(id & w2 & Hadm & Hd & _ & Hr)]%admitted_run; [left; split; auto|].
  destruct (pick _ method path) as [key| |]; [|injection Hr as <- <-; left; split; auto..].
  destruct (find_route routes key) as [r|] eqn:Ef; [|injection Hr as <- <-; left; split; auto].
  apply find_some in Ef as [Hin _]. apply list_elem_of_In in Hin.
  apply gates_run in Hr as [[Hx Hd']|(w3 & Hc & Hb & Hs & Hd' & Hr)]; [left; split; [done|congruence]|right].
  exists r. split; [done|]. exists id, w3. split; [by eapply admitted_later|].
  split; [|split; [congruence|done]]. intros s Es. apply (Hs s id); [by rewrite Hsc|done].
Qed.

(** C10. Whatever the environment and whatever the router picks, a request to
    the API process is answered by a probe, turned away without a change of the
    database, or handed to a handler for an identity whose token the configured
    issuer's validator accepted when the request came in, that holds the
    handler's scope and at that time had a token left in its bucket, which the
    request has paid with.  The handlers of the admin API are there only with
    an issuer, a decision point and an approval service configured, those of
    the resolver only with an issuer and a database. *)
Theorem served_behind_gates url_parses pool_ok e w0 p w0' uptime ready method path q w x w'
    (Hmain : main url_parses pool_ok e w0 = (inr (Some p), w0'))
    (Hserve : serve handle p uptime ready method path q w = (x, w')) :
  (w' = w /\ exists r, x = inr r /\ (r = Probes.LivenessHandler uptime \/ exists b, r = Probes.ReadinessHandler b)) \/
  turned_away w x w' \/
  exists v ep, ran v ep q w x w' /\ e "SAOAF_OIDC_ISSUER" <> "" /\ Authn.issuer v = e "SAOAF_OIDC_ISSUER" /\
    Authn.audience v = "saoaf-control-plane" /\
    match ep with
    | ResolveRoute | GetPlanRoute => e "SAOAF_DB_DSN" <> ""
    | _ => e "SAOAF_PDP_URL" <> "" /\ e "SAOAF_APPROVAL_URL" <> ""
    end.
Proof using.
  apply main_wired in Hmain as [Ha Hres]. unfold serve in Hserve.
  assert (Hprobe : forall r, (r = Probes.LivenessHandler uptime \/ exists b, r = Probes.ReadinessHandler b) ->
    ret r w = (x, w') -> w' = w /\ exists r, x = inr r /\ (r = Probes.LivenessHandler uptime \/ exists b, r = Probes.ReadinessHandler b)).
  { intros r Hr [= <- <-]. eauto. }
  assert (Hnone : ret not_found w = (x, w') -> turned_away w x w').
  { intros [= <- <-]. split; auto. }
  destruct (pick _ method path) as [key| |]; [|right; left; injection Hserve as <- <-; split; auto|auto].
  repeat match type of Hserve with (if ?b then _ else _) _ = _ => destruct b end;
    try (left; eapply Hprobe; [|exact Hserve]; by eauto).
  - destruct (pr_admin p) as [[cfg routes]|] eqn:Ep; [|auto].
    destruct (Ha cfg routes eq_refl) as (E1 & E2 & E3 & E4 & E5 & Em).
    apply subtree_run in Hserve as [Hs|(r & Hr & Hran)]; [auto| |].
    + right. right. exists (ac_Authn cfg), (rt_end r). split_and!; try done.
      pose proof (admin_ends _ _ _ _ Em Hr). by destruct (rt_end r).
    + intros r Hr. eapply routes_scoped; [by left|done].
  - destruct (pr_resolver p) as [v|] eqn:Ep; [|auto].
    destruct (Hres v eq_refl) as (E1 & E2 & E3 & E4).
    apply subtree_run in Hserve as [Hs|(r & Hr & Hran)]; [auto| |].
    + right. right. exists v, (rt_end r). split_and!; try done.
      destruct (resolver_ends r Hr) as [->| ->]; done.
    + intros r Hr. by apply (routes_scoped pool_ok e resolver_routes r); [right|].
Qed.
End Served.

(** Without an issuer the process answers its two probes and nothing else. *)
Lemma closed_without_issuer `{Chi} `{Authn.Jwt} handle url_parses pool_ok e w0 p w0' uptime ready method path q w :
  e "SAOAF_OIDC_ISSUER" = "" -> main url_parses pool_ok e w0 = (inr (Some p), w0') ->
  exists r, serve handle p uptime ready method path q w = (inr r, w) /\
    (r = not_found \/ r = method_not_allowed \/ r = Probes.LivenessHandler uptime \/ r = Probes.ReadinessHandler true).
Proof.
  intros He Hm. apply main_wired in Hm as [Ha Hr]. unfold serve.
  destruct (pr_admin p) as [[cfg routes]|] eqn:Ep; [by destruct (Ha cfg routes eq_refl) as [? _]|].
  destruct (pr_resolver p) as [v|] eqn:Ev; [by destruct (Hr v eq_refl) as [? _]|].
  destruct (pick _ method path) as [key| |] eqn:Ek; [|eauto 6..].
  apply pick_in in Ek. unfold top_routes in Ek. rewrite Ep, Ev in Ek.
  rewrite !elem_of_app, !elem_of_cons, !elem_of_nil in Ek.
  destruct Ek as [[->|[->|[]]]|[[]|[]]]; rewrite ?bool_decide_true by done; eauto 7.
Qed.

(** The publish route is the endpoint of [Gateway]. *)
Lemma publish_is_admin_publish `{Chi} `{Authn.Jwt} hook sink v pdp approvals routes method path q w :
  pick (map (fun r => route (rt_reg r)) (admin_own ++ routes)) method path = Routed ("POST", "/bindings/{id}/publish") ->
  subtree (fun ep q => match ep with PublishRoute => publishBinding hook sink q | _ => whoami_handler end)
    v pdp approvals (admin_own ++ routes) method path q w =
  admin_publish v pdp approvals 100 200 hook sink q w.
Proof.
  intros Hp. unfold subtree, admin_publish, RequireIdentity, bind. destruct (attempt _ w) as [[er|[er|id]] w1]; [done..|].
  unfold RateLimit. replace (refill 100 =? 0) with false by done. unfold bind, now, gets, modify.
  destruct (draw _ _ _ _) as [[] b]; [|done]. rewrite Hp. reflexivity.
Qed.

(** *** A process and a request *)

(** Patterns by segments: a star takes the rest, braces any segment. *)
Fixpoint segments_match (ps ss : list string) : bool :=
  match ps, ss with
  | ["*"], _ => true
  | p :: ps', s :: ss' => ((p =s s) || GoString.has_prefix p "{") && segments_match ps' ss'
  | [], [] => true
  | _, _ => false
  end.
Definition path_of (path : string) (r : string * string) : bool :=
  segments_match (GoString.split_at "/" r.2) (GoString.split_at "/" path).
#[local, refine] Instance plain_chi : Chi := {|
  pick routes method path :=
    match List.filter (path_of path) routes with
    | [] => NotFound
    | rs => match List.find (fun r => (r.1 =s "*") || (r.1 =s method)) rs with
            | Some r => Routed r
            | None => NotAllowed
            end
    end |}.
Proof.
  intros routes method path r. destruct (List.filter _ routes) as [|r0 rs] eqn:E; [discriminate|].
  destruct (List.find _ _) as [r1|] eqn:Ef; [|discriminate]. intros [= ->]. apply find_some in Ef as [H _].
  rewrite <- E in H. apply List.filter_In in H as [H _]. by apply list_elem_of_In.
Defined.
#[local] Existing Instance AuthProps.jwt1.

Definition api_env : Env := fun k =>
  if k =s "SAOAF_OIDC_ISSUER" then "https://idp" else if k =s "SAOAF_PDP_URL" then "https://pdp"
  else if k =s "SAOAF_APPROVAL_URL" then "https://approvals" else if k =s "SAOAF_DB_DSN" then "postgres://db" else "".
Definition discovery : Reply := MkReply 1 (Some (200, marshal (JObj [("jwks_uri", JStr "https://idp/certs")]))).
Definition start_net : World Net := MkWorld (MkNet [discovery; discovery] []) [] 0.
Definition api_start : (err + option Process) * World Net :=
  Eval vm_compute in main (fun _ => true) (fun _ => true) api_env start_net.
Definition api_process : Process :=
  Eval vm_compute in match api_start.1 with inr (Some p) => p | _ => MkProcess None None end.
(** Handlers that answer whose request they got. *)
Definition echo (ep : Endpoint) (q : Incoming) : Handler := fun ctx =>
  ret (MkResponse 200 (match IdentityFrom ctx with Some id => JStr (Authn.Subject id) | None => JNull end)).
Definition ask (method path token : string) : (err + Response) * World Api :=
  serve echo api_process "1s" true method path (MkIncoming [("Authorization", ["Bearer " +:+ token])] "" None "rid")
    (GatewayProps.api_of [GatewayProps.keys_reply] []).
Definition answer (x : (err + Response) * World Api) : Z * json :=
  match x.1 with inr r => (status r, body r) | inl _ => (0, JNull) end.
Example asked :
  (answer (ask "GET" "/admin/v1/ops/drills/d1/log" "token"), answer (ask "GET" "/admin/v1/bindings" "other"),
   (answer (ask "GET" "/admin/v1/nothing" "other")).1, (answer (ask "GET" "/admin/v1/nothing" "token")).1,
   (answer (ask "POST" "/admin/v1/bindings" "token")).1, (answer (ask "POST" "/healthz" "")).1,
   (answer (ask "GET" "/api/ai-resource-resolver/v1/resource-plans/p" "token")).1,
   (answer (ask "GET" "/api/ai-resource-resolver/v1/health/live" "other")).1, (answer (ask "GET" "/metrics" "token")).1) =
  ((200, JStr "user:alice"), (401, JObj [("error_code", JStr "UNAUTHENTICATED")]), 401, 404, 405, 405, 403, 200, 404).
Proof. vm_compute. reflexivity. Qed.

Definition log_request : Incoming := MkIncoming [("Authorization", ["Bearer token"])] "" None "rid".
Definition api_w0 : World Api := GatewayProps.api_of [GatewayProps.keys_reply] [].
Definition log_out : (err + Response) * World Api := Eval vm_compute in ask "GET" "/admin/v1/ops/drills/d1/log" "token".
Lemma served_behind_gates_witness :
  exists v ep, ran echo v ep log_request api_w0 log_out.1 log_out.2 /\ Authn.issuer v = "https://idp".
Proof.
  destruct (served_behind_gates echo (fun _ => true) (fun _ => true) api_env start_net api_process api_start.2 "1s" true
    "GET" "/admin/v1/ops/drills/d1/log" log_request api_w0 log_out.1 log_out.2)
    as [(_ & r & Hr & [->|[b ->]])|[[[[Hr|[Hr|Hr]]|[Hr|Hr]] _]|(v & ep & Hran & _ & Hi & _)]].
  - vm_compute. reflexivity.
  - vm_compute. reflexivity.
  - discriminate Hr.
  - destruct b; discriminate Hr.
  - discriminate Hr.
  - discriminate Hr.
  - discriminate Hr.
  - discriminate Hr.
  - discriminate Hr.
  - exists v, ep. by split.
Defined.
End ApiProps.
