(* ===== verification/WorkerStart.v ===== *)
(** * Starting the worker, and its admin surface

    [Start] is main of src/cmd/control-plane-worker/main.go up to its
    goroutines, with NewNATSTransport (events/transport.go) and NewMinIOStore
    (evidencepack/minio_store.go): what runs for an environment and for
    services that answer or not.  [AdminSurface] has the routes of its admin
    router.  The theorems: what is wired is what the environment asks for, with
    the settings the loops' theorems want; when main panics; the admin routes
    change nothing but the pause. *)

From S2P Require Import Prelude GoStd GoJson GoTime GoHttp Sql Schema Events Evidence EvidenceLog EvidencePack ArchiveLog Gateway WorkerProc ApiProc.

Module Start.
Import Loop Transport Worker Pack PackStore Archive WorkerMain.

(** *** NewNATSTransport *)

Record NATSConfig : Type := MkNATSConfig {
  nc_URL : string; nc_Replicas : Z; nc_MaxAge : Z; nc_MaxBytes : Z; nc_DuplicateWin : Z }.
(** jetstream.StreamConfig; the stream keeps to its limits, on files, and
    discards the old. *)
Record StreamConfig : Type := MkStreamConfig {
  sc_Name : string; sc_Subjects : list string; sc_MaxAge : Z; sc_MaxBytes : Z; sc_Replicas : Z; sc_Duplicates : Z }.
Definition or_else (n d : Z) : Z := if n =? 0 then d else n.
Definition ensureStream (name : string) (subjects : list string) (c : NATSConfig) : StreamConfig :=
  MkStreamConfig name subjects (or_else (nc_MaxAge c) (7 * 24 * 3600 * GoTime.Second))
    (or_else (nc_MaxBytes c) (Z.shiftl 10 30)) (or_else (nc_Replicas c) 1) (or_else (nc_DuplicateWin c) (120 * GoTime.Second)).

(** *** NewMinIOStore *)

Record MinIOConfig : Type := MkMinIOConfig {
  mc_Endpoint : string; mc_AccessKeyID : string; mc_SecretAccessKey : string; mc_UseTLS : bool; mc_Bucket : string }.
(** The buckets of the server; whether one has object lock. *)
Definition Buckets : Type := gmap string bool.

(** What the services answer: a pool for a data source name, a connection and
    its JetStream, the stream, a client for a configuration, the probe and the
    creation of a bucket. *)
Record Services : Type := MkServices {
  pool_ok : string -> bool;
  nats_connect : string -> bool;
  jetstream_ok : bool;
  stream_ok : StreamConfig -> bool;
  minio_ok : MinIOConfig -> bool;
  probe_ok : bool;
  make_ok : bool;
}.

Section Main.
Context (s : Services).
Definition NewNATSTransport (c : NATSConfig) : option StreamConfig :=
  let stream := ensureStream "SAOAF_EVENTS" ["saoaf.>"] c in
  if nats_connect s (nc_URL c) && jetstream_ok s && stream_ok s stream then Some stream else None.
(** The bucket of the store, and the server's buckets. *)
Definition NewMinIOStore (c : MinIOConfig) (bs : Buckets) : option string * Buckets :=
  if (mc_Endpoint c =s "") || (mc_Bucket c =s "") then (None, bs)
  else if negb (minio_ok s c) then (None, bs)
  else if negb (probe_ok s) then (None, bs)
  else match bs !! mc_Bucket c with
       | Some _ => (Some (mc_Bucket c), bs)
       | None => if make_ok s then (Some (mc_Bucket c), <[mc_Bucket c := true]> bs) else (None, bs)
       end.

(** *** main *)

Section Archive.
Context {T : Type} `{OS : ObjectStore T} `{JS : Jsonb} (error_text : err -> string) (hashtext : string -> Z).

(** What is running; the archive loop with its bucket. *)
Record Wiring : Type := MkWiring {
  wi_outbox : option (WorkerConfig * StreamConfig);
  wi_consumer : option Evidence.Loop.Consumer;
  wi_archive : option (string * Loop_ (Archiver T));
  wi_skeleton : Loop_ unit;
}.
(** Exit status 1, a panic, or the servers are started. *)
Inductive Started : Type := Exit1 | Panics | Running (w : Wiring).

Definition outbox_config (e : Env) : WorkerConfig :=
  NewOutboxWorker (MkWorkerConfig 0 0 0 0 0 (envOr e "SAOAF_WORKER_ID" "worker-1") 0
                     (envInt e "SAOAF_OUTBOX_BACKLOG_ALERT" 10000)).
Definition nats_config (e : Env) : NATSConfig :=
  MkNATSConfig (e "SAOAF_NATS_URL") (envInt e "SAOAF_NATS_REPLICAS" 1) 0 0 0.
Definition consumer_config (e : Env) : Evidence.Loop.Consumer :=
  Evidence.Loop.MkConsumer (envOr e "SAOAF_EVIDENCE_CONSUMER_ID" "evidence-1")
    (envInt e "SAOAF_EVIDENCE_BATCH" 100) (Int64.wrap (envInt e "SAOAF_EVIDENCE_INTERVAL_MS" 250 * 1000000)).
Definition minio_config (e : Env) : MinIOConfig :=
  MkMinIOConfig (e "SAOAF_WORM_ENDPOINT") (e "SAOAF_WORM_ACCESS_KEY") (e "SAOAF_WORM_SECRET_KEY")
    (envInt e "SAOAF_WORM_TLS" 0 =? 1) (envOr e "SAOAF_WORM_BUCKET" "saoaf-evidence").

(** The last part: the skeleton loop of the -interval flag. *)
Definition with_skeleton (interval : Z) outbox consumer archive : Started :=
  match NewLoop interval (Some (returning (ret tt))) with
  | Some l => Running (MkWiring outbox consumer archive l)
  | None => Panics
  end.
Definition main (e : Env) (interval : Z) (bs : Buckets) : Started * Buckets :=
  if (e "SAOAF_DB_DSN" =s "") || (e "SAOAF_NATS_URL" =s "") then (with_skeleton interval None None None, bs)
  else if negb (pool_ok s (e "SAOAF_DB_DSN")) then (Exit1, bs)
  else
    match NewNATSTransport (nats_config e) with
    | None => (Exit1, bs)
    | Some stream =>
        let outbox := Some (outbox_config e, stream) in
        let consumer := if envInt e "SAOAF_EVIDENCE_CONSUMER" 0 =? 1 then Some (consumer_config e) else None in
        if e "SAOAF_WORM_ENDPOINT" =s "" then (with_skeleton interval outbox consumer None, bs)
        else
          match NewMinIOStore (minio_config e) bs with
          | (None, bs') => (Exit1, bs')
          | (Some bucket, bs') =>
              (match archiveLoop error_text hashtext e with
               | Some l => with_skeleton interval outbox consumer (Some (bucket, l))
               | None => Panics
               end, bs')
          end
    end.
End Archive.
End Main.
Arguments Wiring : clear implicits.
Arguments Started : clear implicits.
Arguments Exit1 {T}.
Arguments Panics {T}.
Arguments Running {T}.
End Start.

(** The admin router: no gates. *)
Module AdminSurface.
Import Transport Worker WorkerMain Probes.

Section Surface.
Context `{Chi} {T : Type} `{EventTransport T}.

Definition worker_routes (consumer : option Evidence.Loop.Consumer) : list (string * string) :=
  (match consumer with Some _ => [("GET", "/metrics/evidence")] | None => [] end) ++
  [("GET", "/healthz"); ("GET", "/readyz"); ("GET", "/metrics");
   ("POST", "/admin/v1/events/worker:pause"); ("POST", "/admin/v1/events/worker:resume")].
(** The outbox worker's process and the database of the consumer's index. *)
Definition State : Type := option (Proc T) * World EvDb.
Definition serve (consumer : option Evidence.Loop.Consumer) (uptime method path : string) (st : State) : (err + Response) * State :=
  let '(outbox, w) := st in
  match pick (worker_routes consumer) method path with
  | NotFound => (inr ApiMain.not_found, st)
  | NotAllowed => (inr ApiMain.method_not_allowed, st)
  | Routed key =>
      if bool_decide (key = ("GET", "/metrics/evidence")) then
        match consumer with
        | Some c => let '(x, w') := metrics_evidence (Evidence.Loop.ConsumerID c) w in (x, (outbox, w'))
        | None => (inr ApiMain.not_found, st)
        end
      else if bool_decide (key = ("GET", "/healthz")) then (inr (LivenessHandler uptime), st)
      else if bool_decide (key = ("GET", "/readyz")) then (inr (ReadinessHandler (worker_ready outbox)), st)
      else if bool_decide (key = ("GET", "/metrics")) then (inr (metrics outbox), st)
      else if bool_decide (key = ("POST", "/admin/v1/events/worker:pause")) then
        let '(r, outbox') := worker_pause outbox in (inr r, (outbox', w))
      else let '(r, outbox') := worker_resume outbox in (inr r, (outbox', w))
  end.
End Surface.
End AdminSurface.

Module StartProps.
Import Loop Transport Worker Pack PackStore Archive WorkerMain Start AdminSurface.

(** Starting leaves every bucket as it was and makes none without object lock. *)
Lemma NewMinIOStore_buckets s c bs o bs' :
  NewMinIOStore s c bs = (o, bs') ->
  bs ⊆ bs' /\ (forall b, bs !! b = None -> bs' !! b <> Some false) /\ (forall b, o = Some b -> is_Some (bs' !! b)).
Proof.
  unfold NewMinIOStore, Buckets in *. intros Hn.
  assert (Hkeep : bs ⊆ bs /\ (forall b, bs !! b = None -> bs !! b <> Some false)) by (split; [done|naive_solver]).
  destruct (_ || _); [injection Hn as <- <-; naive_solver|].
  destruct (negb _); [injection Hn as <- <-; naive_solver|].
  destruct (negb _); [injection Hn as <- <-; naive_solver|].
  destruct (bs !! mc_Bucket c) as [lock|] eqn:E; [injection Hn as <- <-; naive_solver|].
  destruct (make_ok s); injection Hn as <- <-; [|naive_solver].
  split; [by apply insert_subseteq|]. split.
  - intros b Hb. destruct (decide (b = mc_Bucket c)) as [->|]; [by rewrite lookup_insert_eq|by rewrite lookup_insert_ne, Hb].
  - intros b [= <-]. rewrite lookup_insert_eq. eauto.
Qed.

Section Wired.
Context {T : Type} `{OS : ObjectStore T} `{JS : Jsonb} (error_text : err -> string) (hashtext : string -> Z).

Lemma with_skeleton_running interval o c a (w : Wiring T) :
  with_skeleton interval o c a = Running w ->
  wi_outbox w = o /\ wi_consumer w = c /\ wi_archive w = a /\ 0 < interval.
Proof using.
  unfold with_skeleton, NewLoop. destruct (Z.leb_spec interval 0); [done|]. by intros [= <-].
Qed.
Lemma with_skeleton_panics interval o c a : with_skeleton (T := T) interval o c a = Panics <-> interval <= 0.
Proof using. unfold with_skeleton, NewLoop. destruct (Z.leb_spec interval 0); [done|]. split; [done|lia]. Qed.
Lemma archiveLoop_none e :
  archiveLoop (T := T) error_text hashtext e = None <-> Int64.wrap (envInt e "SAOAF_WORM_INTERVAL_MS" 30000 * 1000000) <= 0.
Proof using. unfold archiveLoop, NewLoop. destruct (Z.leb_spec (Int64.wrap (envInt e "SAOAF_WORM_INTERVAL_MS" 30000 * 1000000)) 0); [done|]. split; [done|lia]. Qed.

(** A worker that starts runs what the environment asks for and nothing else,
    the outbox worker with every default in place, the archive loop with a
    bucket that is there. *)
Lemma worker_wired s e interval bs w bs' :
  Start.main (T := T) s error_text hashtext e interval bs = (Running w, bs') ->
  (wi_outbox w = if outbox_on e then Some (outbox_config e, ensureStream "SAOAF_EVENTS" ["saoaf.>"] (nats_config e)) else None) /\
  (wi_consumer w = if consumer_on e then Some (consumer_config e) else None) /\
  (if archive_on e
   then exists b l, wi_archive w = Some (b, l) /\ archiveLoop error_text hashtext e = Some l /\ is_Some (bs' !! b)
   else wi_archive w = None) /\
  0 < interval /\ bs ⊆ bs'.
Proof using.
  unfold Start.main, archive_on, consumer_on, outbox_on.
  destruct (e "SAOAF_DB_DSN" =s ""); [intros [= Hs <-]; apply with_skeleton_running in Hs; simpl; naive_solver|].
  destruct (e "SAOAF_NATS_URL" =s ""); [intros [= Hs <-]; apply with_skeleton_running in Hs; simpl; naive_solver|].
  cbn [orb negb andb]. destruct (negb (pool_ok _ _)); [done|].
  unfold NewNATSTransport. cbv zeta. destruct (_ && _); [|done].
  destruct (e "SAOAF_WORM_ENDPOINT" =s ""); [intros [= Hs <-]; apply with_skeleton_running in Hs; simpl; naive_solver|].
  destruct (NewMinIOStore s _ bs) as [[b|] bs1] eqn:En; [|done]. apply NewMinIOStore_buckets in En as (Hb & _ & Hin).
  destruct (archiveLoop _ _ e) as [l|]; [|done]. intros [= Hs <-]. apply with_skeleton_running in Hs as (-> & -> & -> & ?).
  split_and!; try done. exists b, l. auto.
Qed.
(** The only panics at start: an interval that is not positive, of the flag or,
    in int64 nanoseconds, of the archive loop. *)
Lemma worker_panics s e interval bs bs' :
  Start.main (T := T) s error_text hashtext e interval bs = (Panics, bs') ->
  interval <= 0 \/ archive_on e = true /\ Int64.wrap (envInt e "SAOAF_WORM_INTERVAL_MS" 30000 * 1000000) <= 0.
Proof using.
  unfold Start.main, archive_on, outbox_on.
  destruct (e "SAOAF_DB_DSN" =s ""); [intros [= Hs <-]; apply with_skeleton_panics in Hs; auto|].
  destruct (e "SAOAF_NATS_URL" =s ""); [intros [= Hs <-]; apply with_skeleton_panics in Hs; auto|].
  cbn [orb negb andb]. destruct (negb (pool_ok _ _)); [done|]. destruct (NewNATSTransport s _); [|done]. cbv zeta.
  destruct (e "SAOAF_WORM_ENDPOINT" =s ""); [intros [= Hs <-]; apply with_skeleton_panics in Hs; auto|].
  destruct (NewMinIOStore s _ bs) as [[b|] bs1]; [|done].
  destruct (archiveLoop _ _ e) as [l|] eqn:El.
  - intros [= Hs <-]. apply with_skeleton_panics in Hs. auto.
  - intros _. apply archiveLoop_none in El. auto.
Qed.
End Wired.

(** An interval of 9223372036855 milliseconds wraps to a negative one: the
    worker panics, and the evidence consumer of the same setting falls back to
    its default. *)
Definition start_env (ms : string) : Env := fun k =>
  if k =s "SAOAF_DB_DSN" then "postgres://db" else if k =s "SAOAF_NATS_URL" then "nats://n"
  else if k =s "SAOAF_EVIDENCE_CONSUMER" then "1" else if k =s "SAOAF_WORM_ENDPOINT" then "minio:9000"
  else if k =s "SAOAF_WORM_INTERVAL_MS" then ms else if k =s "SAOAF_EVIDENCE_INTERVAL_MS" then ms else "".
Definition all_up : Services := MkServices (fun _ => true) (fun _ => true) true (fun _ => true) (fun _ => true) true true.
#[local] Existing Instances ArchiveProps.shelf_store EvidenceProps.json_text.
Definition started (ms : string) (bs : Buckets) : Started (list ArchiveProps.Obj) * Buckets :=
  Start.main all_up ArchiveProps.no_text ArchiveProps.no_hash (start_env ms) 1000000000 bs.
Example archive_interval_panics :
  map (fun ms => match (started ms ∅).1 with Running _ => 0 | Panics => 1 | Exit1 => 2 end) ["1000"; "0"; "-5"; "9223372036855"] = [0; 1; 1; 1] /\
  Evidence.Loop.interval (consumer_config (start_env "9223372036855")) = 250000000.
Proof. split; vm_compute; reflexivity. Qed.
(** A bucket without object lock is taken as it is. *)
Example unlocked_bucket_accepted :
  (match (started "1000" {["saoaf-evidence" := false]}).1 with Running w => fst <$> wi_archive w | _ => None end,
   (started "1000" {["saoaf-evidence" := false]}).2 !! "saoaf-evidence", (started "1000" ∅).2 !! "saoaf-evidence") =
  (Some "saoaf-evidence", Some false, Some true).
Proof. vm_compute. reflexivity. Qed.

(** *** The admin surface *)

Section Admin.
Context `{Chi} {T : Type} `{EventTransport T}.

Lemma metrics_evidence_run c w x w' : metrics_evidence c w = (x, w') -> (exists r, x = inr r) /\ store w' = store w.
Proof using.
  unfold metrics_evidence, bind, attempt. destruct (Index.QuarantineDepth w) as [r1 w1] eqn:E1.
  destruct (Index.Checkpoint c w1) as [r2 w2] eqn:E2. intros [= <- <-]. split; [eauto|].
  assert (store w1 = store w) as <-.
  { destruct r1 as [er|]; [|by apply query_inr in E1 as (_ & ? & _)].
    revert E1. unfold Index.QuarantineDepth, query, stmt. destruct (failing w); [by intros [= _ <-]|done]. }
  destruct r2 as [er|]; [by eapply query_row_inl|by apply query_row_inr in E2 as (_ & ? & _)].
Qed.
(** Whatever is sent, the admin surface answers, writes nothing to the
    database, and of the worker changes only whether it is paused; its pause
    and resume routes ask nothing of the sender. *)
Lemma admin_changes_only_pause consumer uptime method path outbox w x outbox' w' :
  serve consumer uptime method path (outbox, w) = (x, (outbox', w')) ->
  (exists r, x = inr r) /\ store w' = store w /\
  (outbox' = outbox \/
   exists p key, outbox = Some p /\ pick (worker_routes consumer) method path = Routed ("POST", key) /\
     outbox' = Some (if bool_decide (key = "/admin/v1/events/worker:pause") then Pause p else Resume p)).
Proof using.
  unfold serve. destruct (pick _ method path) as [key| |] eqn:Ek; [|intros [= <- <- <-]; eauto..].
  pose proof (pick_in _ _ _ _ Ek) as Hin. unfold worker_routes in Hin.
  rewrite elem_of_app, !elem_of_cons, elem_of_nil in Hin.
  assert (Hc : key = ("GET", "/metrics/evidence") \/ key = ("GET", "/healthz") \/ key = ("GET", "/readyz") \/ key = ("GET", "/metrics") \/
    key = ("POST", "/admin/v1/events/worker:pause") \/ key = ("POST", "/admin/v1/events/worker:resume"))
    by (destruct consumer; set_solver).
  clear Hin. destruct Hc as [->|[->|[->|[->|[->| ->]]]]]; cbn.
  - destruct consumer as [c|]; [|intros [= <- <- <-]; eauto].
    destruct (metrics_evidence _ w) as [y w1] eqn:E. apply metrics_evidence_run in E as [[r ->] Hs].
    intros [= <- <- <-]. eauto.
  - intros [= <- <- <-]. eauto.
  - intros [= <- <- <-]. eauto.
  - intros [= <- <- <-]. eauto.
  - destruct outbox; intros [= <- <- <-]; [|eauto]. split; [eauto|]. split; [done|]. right. by eexists _, _.
  - destruct outbox; intros [= <- <- <-]; [|eauto]. split; [eauto|]. split; [done|]. right. by eexists _, _.
Qed.
End Admin.
End StartProps.
