(* ===== verification/System.v ===== *)
(** * From ingest and policy to resolve

    What src/cmd/control-plane-api/main.go wires.  [PolicyAdapter]: the policy
    module behind the resolver's policy engine, and the resolver's settings.
    The theorems: a plan of the configured process was allowed, requirement by
    requirement, by the activated revision of the policy set; and the
    registry's ingest and the resolver meet in the snapshot table, where what
    the registry writes decides what a resolve can answer. *)

From S2P Require Import Prelude GoStd GoJson Sql Schema.
From S2P Require Policy.
From S2P Require Import Registry Resolver PlanStore SnapCache ResolveService.

(** ** The policy engine of the process *)

Module PolicyAdapter.
Import Policy.PolicySet.

Definition revision_of (r : Policy.PolicySet.Revision) : PolicyRevision :=
  MkPolicyRevision (SetID r) (Version r) (EligibilityCEL (RevContent r)).
(** ActiveRevision *)
Definition answer_of (r : err + Policy.PolicySet.Revision) : policy_answer :=
  match r with
  | inr r => PolicyActive (revision_of r)
  | inl e => if e =d Policy.ErrNotFound then PolicyNone else PolicyError
  end.
(** The input has no vendor. *)
Definition eligibility (i : PolicyInput) : Policy.Cel.EligibilityInput :=
  Policy.Cel.MkEligibilityInput (in_region i) (in_class i) "" (in_environment i) (in_tenant i).
Definition evaluate (g : Policy.Cel.Engine) (rev : PolicyRevision) (i : PolicyInput) : option (bool * string) :=
  match Policy.Cel.Evaluate g (pr_expression rev) (pr_set rev) (pr_version rev) "" (eligibility i) with
  | inl _ => None
  | inr ev => Some (Policy.Cel.Allow ev, "")
  end.
Definition policyEngine (g : Policy.Cel.Engine) (a : policy_answer) : PolicyEngine :=
  MkPolicyEngine (fun _ => a) (evaluate g).

(** resolverConfigFromEnv: the settings, with SAOAF_RESOLVER_POLICY_SET. *)
Definition service (set : string) (engine : option PolicyEngine) : Service :=
  MkService engine set (300 * 1000000000) (3600 * 1000000000) (30 * 1000000000).

Section Process.
Context `{Printer} (g : Policy.Cel.Engine) (set : string).
(** Resolve over the adapter, which reads the activated revision after the
    request has been validated, if a set is configured. *)
Definition Resolve (req : Request) (meta : CallerMeta) (idemKey newID : string) : Proc (Plan * bool) :=
  match ValidateRequest req with
  | Some e => throw e
  | None =>
      if set =s "" then ResolveService.Resolve (service "" None) req meta idemKey newID
      else
        let! r := attempt (on_db (Policy.PolicyStore.ActiveRevision set)) in
        ResolveService.Resolve (service set (Some (policyEngine g (answer_of r)))) req meta idemKey newID
  end.
End Process.
End PolicyAdapter.


Module PolicyProps.
Import PolicyAdapter.

(** What a successful evaluation by the adapter means. *)
Lemma evaluate_true g rev i reason :
  evaluate g rev i = Some (true, reason) ->
  GoString.len (pr_expression rev) <= 4096 /\
  exists e, Policy.Cel.parse_check g (pr_expression rev) = Some e /\
    (forall x, Policy.Cel.occurs x e -> Policy.Cel.forbidden x = false) /\
    Policy.Cel.eval g e (eligibility i) = Policy.Cel.OutBool true.
Proof.
  unfold evaluate, Policy.Cel.Evaluate, Policy.Cel.ValidateExpression, Policy.Cel.MaxCELLength.
  destruct (GoString.len (pr_expression rev) >? 4096) eqn:El; [done|].
  destruct (Policy.Cel.parse_check g (pr_expression rev)) as [e|]; [|done].
  destruct (Policy.Cel.checkCalls e) eqn:Ec; [done|].
  destruct (Policy.Cel.eval g e (eligibility i)) eqn:Ev; try done. simpl. intros [= -> _].
  split; [lia|]. exists e. split; [done|]. split; [by apply Policy.Cel.checkCalls_none|done].
Qed.
(** What the adapter reads. *)
Lemma active_read set w r w' :
  attempt (on_db (Policy.PolicyStore.ActiveRevision set)) w = (inr r, w') ->
  database (store w') = database (store w) /\
  match answer_of r with
  | PolicyActive rev => exists row, row ∈ policies (database (store w)) /\ po_set_id row = set /\
      po_state row = PolActivated /\ rev = MkPolicyRevision set (po_version row) (EligibilityCEL (po_content row))
  | PolicyNone => forall row, row ∈ policies (database (store w)) -> po_set_id row = set -> po_state row <> PolActivated
  | PolicyError => True
  end.
Proof.
  intros Hr. apply attempt_inr, on_db_run in Hr as (v & v' & Hv & _ & Hm & Hd & _). rewrite <- Hv, Hd. clear Hv Hd.
  destruct v as [d fl t]. cbn [store].
  unfold Policy.PolicyStore.ActiveRevision, bind, connect, query, catch, query_row, stmt, throw, set_store,
    pop_fault, failing in Hm. cbn [store faults clock tail] in Hm.
  destruct fl as [|[] [|[] fl]]; cbn [hd tail] in Hm;
    try (injection Hm as <- <-; split; [done|exact I]);
    (destruct (first_where _ _) as [row|] eqn:Ef; cbn in Hm; injection Hm as <- <-; (split; [done|]);
     [apply first_where_some in Ef as [Hin Hp]; apply andb_true_iff in Hp as [<-%String.eqb_eq Ha%bool_decide_eq_true];
      by exists row
     |intros row Hin <- Ha; eapply first_where_none in Ef; [|exact Hin]; apply not_true_iff_false in Ef;
      apply Ef, andb_true_iff; split; [apply str_eqb_refl|by apply bool_decide_eq_true]]).
Qed.

(** C9. With a policy set configured, the process answers a resolve with a plan
    only if the set has no activated revision, or its activated revision's
    expression is short, parses, calls nothing forbidden and evaluates to true
    on the region, data class, environment and tenant of every requirement; a
    plan that is created names that revision. *)
Theorem resolve_enforces_policy `{Printer} g set req meta idemKey newID w plan created w' :
  set <> "" -> Resolve g set req meta idemKey newID w = (inr (plan, created), w') ->
  let rows := policies (database (store w)) in
  (forall row, row ∈ rows -> po_set_id row = set -> po_state row <> PolActivated) /\
    (created = true -> p_policy_set plan = "") \/
  exists row e, row ∈ rows /\ po_set_id row = set /\ po_state row = PolActivated /\
    GoString.len (EligibilityCEL (po_content row)) <= 4096 /\
    Policy.Cel.parse_check g (EligibilityCEL (po_content row)) = Some e /\
    (forall x, Policy.Cel.occurs x e -> Policy.Cel.forbidden x = false) /\
    (forall r, r ∈ Requirements req ->
       Policy.Cel.eval g e (Policy.Cel.MkEligibilityInput (strConstraint (Constraints r) "region")
         (strConstraint (Constraints r) "data_classification_max") "" (Environment meta) (TenantRef meta))
       = Policy.Cel.OutBool true) /\
    (created = true -> p_policy_set plan = set /\ p_policy_version plan = po_version row).
Proof.
  intros Hset Hr rows. unfold Resolve in Hr. destruct (ValidateRequest req) eqn:Hv; [discriminate|].
  apply String.eqb_neq in Hset as Hs. rewrite Hs in Hr.
  apply bind_inr in Hr as (a & w1 & Ha & Hr). apply active_read in Ha as [_ Ha].
  unfold ResolveService.Resolve in Hr. rewrite Hv in Hr.
  destruct (policy_step _ _ _) as [e|pol] eqn:Hpol; [discriminate|].
  assert (Hplan : created = true -> p_policy_set plan = pol.1 /\ p_policy_version plan = pol.2).
  { apply bind_inr in Hr as (t & w2 & _ & Hr). apply bind_inr in Hr as (its & w3 & _ & Hr).
    apply bind_inr in Hr as (x & w4 & Hx & Hr). apply ret_inr in Hr as [[= -> ->] _].
    apply on_db_run in Hx as (v & v' & _ & _ & Hx & _). apply CreatePlan_inr in Hx. unfold create_answer in Hx.
    intros Hc. rewrite Hc in Hx. by destruct Hx as [-> _]. }
  apply policy_step_inr in Hpol. unfold policy_allowed in Hpol. cbn [Policy PolicySetID service policyEngine ActiveRevision] in Hpol.
  rewrite Hs in Hpol. destruct (answer_of a) as [rev| |]; [|left|done].
  - destruct Ha as (row & Hin & Hid & Hact & ->). destruct Hpol as [-> Hall]. right. cbn [pr_set pr_version] in Hplan.
    assert (Hne : exists r, r ∈ Requirements req).
    { destruct (Requirements req) as [|r rs] eqn:El; [|exists r; left]. exfalso. unfold ValidateRequest in Hv.
      rewrite El in Hv. repeat case_match; discriminate. }
    rewrite Forall_forall in Hall. destruct Hne as [r0 Hr0]. destruct (Hall r0 Hr0) as [reason Hev].
    apply evaluate_true in Hev as (Hlen & e & Hp & Hf & _). exists row, e. do 6 (split; [done|]). split; [|done].
    intros r Hin'. destruct (Hall r Hin') as [reason' Hev]. apply evaluate_true in Hev as (_ & e' & Hp' & _ & Hev).
    cbn [pr_expression] in Hp, Hp'. by simplify_eq.
  - subst pol. split; [exact Ha|]. intros Hc. by apply Hplan.
Qed.

(** A process with a policy that demands a region, a tenant and no vendor. *)
#[local] Instance no_printing : Printer := { sprint_v := fun _ => "" }.
Definition eu_expr : Policy.Cel.Expr := Policy.Cel.EIdent "region_is_eu".
Definition eu_engine : Policy.Cel.Engine := {|
  Policy.Cel.parse_check s := if s =s "region == 'eu'" then Some eu_expr else None;
  Policy.Cel.eval e i := Policy.Cel.OutBool (Policy.Cel.in_region i =s "eu");
|}.
Definition eu_row (st : PolicyState) : PolicyRow :=
  MkPolicyRow 1 "set" 3 st (MkContent [] "" [] [] "region == 'eu'") "" 0 (Some 0) (Some 0) "t1".
Definition eu_w (st : PolicyState) : World Process :=
  MkWorld (MkProcess (with_policies [eu_row st] ResolveProps.rs_db) NewSnapshotCache) [] 100.
Definition eu_req (r : Requirement) : Request := ResolveProps.rs_req [r].
Definition eu_out := Eval vm_compute in
  Resolve eu_engine "set" (eu_req ResolveProps.rs_a) ResolveProps.rs_meta "key" "p1" (eu_w PolActivated).
Definition eu_plan : Plan := Eval vm_compute in
  match eu_out.1 with inr (p, _) => p | inl _ => MkPlan "" "" "" "" None "" "" "" "" 0 "" 0 0 [] end.
Lemma eu_run :
  Resolve eu_engine "set" (eu_req ResolveProps.rs_a) ResolveProps.rs_meta "key" "p1" (eu_w PolActivated) =
  (inr (eu_plan, true), eu_out.2).
Proof. vm_compute. reflexivity. Qed.
Lemma resolve_enforces_policy_witness : p_policy_set eu_plan = "set" /\ p_policy_version eu_plan = 3.
Proof.
  destruct (resolve_enforces_policy eu_engine "set" (eu_req ResolveProps.rs_a) ResolveProps.rs_meta "key" "p1"
    (eu_w PolActivated) eu_plan true _ ltac:(done) eu_run) as [[Hn _]|(row & e & Hin & _ & _ & _ & _ & _ & _ & Hp)].
  - exfalso. apply (Hn (eu_row PolActivated)); [left|done|done].
  - apply list_elem_of_singleton in Hin as ->. by apply Hp.
Defined.
(** Another region is refused; a set without an activated revision lets all pass. *)
Example other_region :
  (Resolve eu_engine "set" (eu_req ResolveProps.rs_b) ResolveProps.rs_meta "key" "p1" (eu_w PolActivated)).1 =
  inl (resErr CodeNoCompatibleProvider 422 [("b", [ReasonPolicyDenied; ""])]).
Proof. vm_compute. reflexivity. Qed.
Example not_activated :
  exists p, (Resolve eu_engine "set" (eu_req ResolveProps.rs_b) ResolveProps.rs_meta "key" "p1" (eu_w PolPublished)).1 =
    inr (p, true).
Proof. eexists. vm_compute. reflexivity. Qed.
End PolicyProps.

(** The databases whose snapshot table only registry calls have written since
    [d0]; the other components' tables are as they may be. *)
Definition ingested (d0 : Database) (_ : Z) (d : Database) : Prop :=
  exists dr, star RegistryProps.registry_step d0 dr /\ snapshots d = snapshots dr.

Module SystemProps.

(** C35. No snapshot that came in through the registry can be resolved: the
    registry stores an empty profile list for every snapshot it is given, so
    from a registry that held no snapshot, after any sequence of registry
    calls, with any capabilities, bindings, policies and cache, every resolve
    fails. *)
Theorem ingested_never_resolve `{Printer} svc d0 req meta idemKey newID w
    (H0 : RegistryProps.registry_ok d0) (Hempty : snapshots d0 = [])
    (Hcache : cache_ok (RefreshTTL svc) (ingested d0) (cache (store w)))
    (Hdb : ingested d0 (clock w) (database (store w))) :
  exists e, (Resolve svc req meta idemKey newID w).1 = inl e.
Proof.
  destruct (Resolve svc req meta idemKey newID w) as [[e|[plan created]] w'] eqn:E; [by exists e|].
  exfalso. apply (Resolve_inr svc (ingested d0)) in E as (Hv & pol & its & _ & Hf & _); [|done..].
  assert (Hbare : forall t d id s, ingested d0 t d -> active_published id d s -> ls_profiles s = []).
  { intros t d id s (dr & Hst & Hsn) (r & p & x & Hr & _ & _ & _ & _ & _ & _ & _ & _ & ->). simpl.
    rewrite Hsn in Hr. apply RegistryProps.registry_history in Hst; [|done].
    destruct Hst as (_ & _ & _ & _ & Hadd). apply list_elem_of_lookup_1 in Hr as [i Hi].
    apply (Hadd i r Hi). rewrite Hempty. simpl. lia. }
  assert (Hne : ordered (Requirements req) <> []).
  { apply valid_nodup in Hv as Hnd. destruct Hnd as [_ Hnd]. intros Hnil.
    pose proof (ordered_permutation _ Hnd) as Hp. rewrite Hnil in Hp. apply Permutation_nil in Hp.
    unfold ValidateRequest in Hv. rewrite Hp in Hv. by repeat case_match. }
  destruct Hf as [|r i rs its' (cap & top & snap & profile & Hj & _) _]; [done|].
  destruct (jb_active _ _ _ _ _ _ _ _ _ Hj) as (t0 & dl & Hs & Ha).
  destruct (jb_profile _ _ _ _ _ _ _ _ _ Hj) as [Hp _].
  rewrite (Hbare _ _ _ _ Hs Ha) in Hp. by apply elem_of_nil in Hp.
Qed.

(** *** A snapshot that came in, and a resolve that asks for it

    The run of [RegistryProps]: version 3 of provider mmr is ingested with an
    available profile for chat, and activated.  A published capability and a
    live binding of the profile are there, and the request asks for nothing
    else. *)
#[local] Instance no_print : Printer := { sprint_v := fun _ => "" }.
Definition sys_svc : Service := MkService None "" 300000000000 900000000000 60000000000.
Definition sys_req : Request :=
  MkRequest "1.0" "task" [MkRequirement "a" "chat" 1 "MODEL_PROVIDER" ∅] (MkOptions 60 false) ∅.
Definition sys_meta : CallerMeta := MkCallerMeta "agent" "t" "production" "tr".
Definition sys_registry : Database := Eval vm_compute in store RegistryProps.run_w.2.
Definition bound (d : Database) : Database :=
  with_bindings [MkBindingRow 9 "k" 1 1 2 "fast" "production" (MkScope [] [] [] []) "" (JObj [])
                   5 BindPublished 2 true "" "" "" (Some 0) "t"]
  (with_capabilities [MkCapabilityRow 1 "chat" 1 1 "MODEL" (JObj []) RegPublished] d).
Definition sys_w (d : Database) : World Process := MkWorld (MkProcess (bound d) NewSnapshotCache) [] 50.
Definition sys_resolve (d : Database) : (err + Plan * bool) * World Process :=
  Resolve sys_svc sys_req sys_meta "k" "p" (sys_w d).

Lemma ingested_never_resolve_witness :
  (exists s, snapshots sys_registry = [s] /\ ps_version s = 3 /\ ps_state s = RegPublished /\
     exists p, pointers sys_registry = [p] /\ pp_snapshot_id p = ps_id s) /\
  exists e, (sys_resolve sys_registry).1 = inl e.
Proof.
  split; [eexists; split; [reflexivity|]; split; [reflexivity|]; split; [reflexivity|];
          eexists; split; reflexivity|].
  apply (ingested_never_resolve sys_svc RegistryProps.db_w).
  - apply RegistryProps.reg_db_ok.
  - reflexivity.
  - intros id e Hl. simpl in Hl. by rewrite lookup_empty in Hl.
  - exists sys_registry. split; [|reflexivity]. apply star_one.
    exists (Registry.Ingest.handleIngest RegistryProps.config_w (RegistryProps.incoming_w 3) ;! ret tt),
      (MkWorld RegistryProps.db_w [] 5).
    split; [apply RegistryProps.call_ingest|]. split; [reflexivity|]. vm_compute. reflexivity.
Defined.
(** What the resolve fails with, and what it would answer had the profiles been
    stored. *)
Definition with_profile (s : SnapshotRow) : SnapshotRow :=
  MkSnapshotRow (ps_id s) (ps_provider_id s) (ps_version s) (ps_contract s) (ps_digest s) (ps_signature s)
    (ps_workload s)
    [JObj [("profile_id", JStr "fast"); ("status", JStr "AVAILABLE"); ("capability_keys", jstrings ["chat"])]]
    (ps_generated_at s) (ps_valid_until s) (ps_state s).
Example profile_not_stored :
  (sys_resolve sys_registry).1 = inl (resErr CodeNoCompatibleProvider 422 [("a", [ReasonProfileUnavailable])]) /\
  exists plan, (sys_resolve (with_snapshots (map with_profile (snapshots sys_registry)) sys_registry)).1 = inr (plan, true).
Proof. split; [vm_compute; reflexivity|]. eexists. vm_compute. reflexivity. Qed.

End SystemProps.
