(* ===== verification/Contract.v ===== *)
(** * The breaking-change gate (src/tools/contractlint/breaking.go)

    [Breaking] compares the contract files of a base revision with those of the
    working tree.  A [Doc] is a document decoded into an [any]; a reason
    against the change is a [Break] with the values its message prints.  git,
    the file system and the two decoders are parameters, the order of each
    range over a map is the interface [RangeOrder].  The theorems: what is
    reported, independently of the traversal and of the orders; that the gate
    passes exactly the compatible revisions; which changes it never reports;
    what reaches git's command line. *)

From Stdlib Require Import SpecFloat.
From S2P Require Import Prelude GoStd GoJson GoUnmarshal GoFloat GoHttp GoText.

Module Breaking.
Import GoString GoText.

(** ** Documents *)

(** What yaml.v3 and encoding/json make of a scalar.  The zone of an instant
    is what [reflect.DeepEqual] sees of its location. *)
Inductive Scalar : Type :=
| Null
| Bool (b : bool)
| Int (z : Z)
| Float (f : Float64.t)
| Str (s : string)
| Time (t : Z) (zone : string).

(** A map[string]any is [DMap], a map[any]any (YAML with a key that is no
    string) [DAny]; the entries of both in no particular order. *)
#[warnings="-register-all,-automation"]
Inductive Doc : Type :=
| DScalar (s : Scalar)
| DList (l : list Doc)
| DMap (fs : list (string * Doc))
| DAny (fs : list (Scalar * Doc)).

(** [c[k]] of a map[string]any. *)
Fixpoint entry {A} (fs : list (string * A)) (k : string) : option A :=
  match fs with
  | [] => None
  | (k', v) :: fs' => if k' =s k then Some v else entry fs' k
  end.

(** Go's [==] on the scalars as interface values. *)
Definition scalar_eqb (x y : Scalar) : bool :=
  match x, y with
  | Null, Null => true
  | Bool a, Bool b => Bool.eqb a b
  | Int a, Int b => a =? b
  | Float a, Float b => SFeqb a b
  | Str a, Str b => a =s b
  | Time a z, Time b z' => (a =? b) && (z =s z')
  | _, _ => false
  end.
Fixpoint any_entry {A} (fs : list (Scalar * A)) (k : Scalar) : option A :=
  match fs with
  | [] => None
  | (k', v) :: fs' => if scalar_eqb k' k then Some v else any_entry fs' k
  end.

(** [reflect.DeepEqual] *)
Fixpoint deep_equal (a b : Doc) {struct a} : bool :=
  match a, b with
  | DScalar x, DScalar y => scalar_eqb x y
  | DList l, DList m =>
      (fix go (l m : list Doc) {struct l} : bool :=
         match l, m with
         | [], [] => true
         | x :: l', y :: m' => deep_equal x y && go l' m'
         | _, _ => false
         end) l m
  | DMap f, DMap g =>
      Nat.eqb (length f) (length g) &&
      forallb (fun kv => match entry g kv.1 with Some y => deep_equal kv.2 y | None => false end) f
  | DAny f, DAny g =>
      Nat.eqb (length f) (length g) &&
      forallb (fun kv => match any_entry g kv.1 with Some y => deep_equal kv.2 y | None => false end) f
  | _, _ => false
  end.

(** The verb [%v]: of a float, an instant, and a map[any]any. *)
Class Verbs : Type := {
  float_v : Float64.t -> string;
  time_v : Z -> string -> string;
  compound_v : Doc -> string;
}.
Definition sprint `{Verbs} (d : Doc) : string :=
  match d with
  | DScalar Null => "<nil>"
  | DScalar (Bool b) => if b then "true" else "false"
  | DScalar (Int z) => dec z
  | DScalar (Float f) => float_v f
  | DScalar (Str s) => s
  | DScalar (Time t z) => time_v t z
  | _ => compound_v d
  end.

(** The order of the n-th range over the map at a path. *)
Class RangeOrder : Type := {
  ranged : list string -> nat -> list string -> list string;
  ranged_perm p n l : ranged p n l ≡ₚ l;
}.

(** ** findBreaking *)

Inductive Kind := EnumValue | RequiredEntry | TypeValue.
Inductive Break : Type :=
| NotObject (at_ : string)
| RequiredKey (k at_ : string)
| EnumKey (k at_ : string)
| PropertyGone (k at_ : string)
| FieldGone (k at_ : string)
| PathGone (k at_ : string)
| ConstAdded (v : Doc) (at_ : string)
| NotArray (at_ : string)
| ValueGone (kind : Kind) (v : Doc) (at_ : string)
| EntryGone (at_ : string) (i : nat)
| ValueChanged (at_ : string) (base cur : Doc).

Definition is_scalar (d : Doc) : bool := match d with DMap _ | DList _ => false | _ => true end.
Definition allScalars (a : list Doc) : bool := forallb is_scalar a.

Definition at_key (at_ k : string) : string := at_ +:+ "." +:+ k.
Definition at_index (at_ : string) (i : nat) : string := at_ +:+ "[" +:+ dec (Z.of_nat i) +:+ "]".

Definition keys {A} (fs : list (string * A)) : list string := map fst fs.
(** [for k := range b { if _, still := c[k]; !still { .. } }] *)
Definition gone {A} (c : list (string * A)) (ks : list string) : list string :=
  List.filter (fun k => match entry c k with None => true | Some _ => false end) ks.
(** The rules that compare the keys of two objects. *)
Definition required_at (at_ : string) : bool := (at_ =s "$.required") || has_suffix at_ ".required".
Definition map_breaks `{RangeOrder} (p : list string) (b c : list (string * Doc)) (at_ : string) : list Break :=
  let missing n mk := map (fun k => mk k at_) (gone c (ranged p n (keys b))) in
  (if required_at at_ then missing 0%nat RequiredKey else []) ++
  (if has_suffix at_ ".enum" then missing 1%nat EnumKey else []) ++
  (if has_suffix at_ ".properties" then missing 2%nat PropertyGone else []) ++
  (if contains at_ ".paths." then missing 3%nat FieldGone else []) ++
  (if has_suffix at_ ".paths" then missing 4%nat PathGone else []) ++
  match entry b "const", entry c "const" with
  | None, Some nv => [ConstAdded nv at_]
  | _, _ => []
  end.
(** Arrays of scalars, as sets of their texts. *)
Definition kind_at (at_ : string) : option Kind :=
  if has_suffix at_ ".enum" then Some EnumValue
  else if has_suffix at_ ".required" then Some RequiredEntry
  else if has_suffix at_ ".type" then Some TypeValue
  else None.
Definition scalar_breaks `{Verbs} (b c : list Doc) (at_ : string) : list Break :=
  match kind_at at_ with
  | Some kind =>
      let curSet := map sprint c in
      map (fun v => ValueGone kind v at_) (List.filter (fun v => negb (str_mem (sprint v) curSet)) b)
  | None => []
  end.
Definition exempt (at_ : string) : bool :=
  contains at_ ".enum" || contains at_ "examples" || contains at_ "description" ||
  contains at_ "summary" || contains at_ ".title" || (at_ =s "$.version") || contains at_ "x-saoaf".
Definition shrinkage (b c : list Doc) (at_ : string) : list Break :=
  map (EntryGone at_) (seq (length c) (length b - length c)).

Section Walk.
Context `{RO : RangeOrder, V : Verbs}.

Fixpoint findBreaking (p : list string) (base cur : Doc) (at_ : string) {struct base} : list Break :=
  match base with
  | DMap b =>
      match cur with
      | DMap c =>
          let below := map (fun kv =>
            (kv.1, match entry c kv.1 with
                   | Some cv => findBreaking (p ++ [kv.1]) kv.2 cv (at_key at_ kv.1)
                   | None => []
                   end)) b in
          map_breaks p b c at_ ++
          concat (map (fun k => default [] (entry below k)) (ranged p 5%nat (keys b)))
      | _ => [NotObject at_]
      end
  | DList b =>
      match cur with
      | DList c =>
          if allScalars b && allScalars c then scalar_breaks b c at_
          else shrinkage b c at_ ++
            (fix go (i : nat) (l m : list Doc) {struct l} : list Break :=
               match l, m with
               | x :: l', y :: m' =>
                   findBreaking (p ++ [dec (Z.of_nat i)]) x y (at_index at_ i) ++ go (S i) l' m'
               | _, _ => []
               end) O b c
      | _ => [NotArray at_]
      end
  | _ => if negb (deep_equal base cur) && negb (exempt at_) then [ValueChanged at_ base cur] else []
  end.
End Walk.

(** ** The gate over git and the working tree *)

(** A value set in a map: a repeated name keeps its last value. *)
Fixpoint set_entry {A} (k : string) (v : A) (fs : list (string * A)) : list (string * A) :=
  match fs with
  | [] => [(k, v)]
  | (k', v') :: fs' => if k' =s k then (k, v) :: fs' else (k', v') :: set_entry k v fs'
  end.
Definition to_map {A} (fs : list (string * A)) : list (string * A) :=
  fold_left (fun m kv => set_entry kv.1 kv.2 m) fs [].

(** How the git process ended. *)
Inductive GitReply : Type :=
| Ran (out : string)
| Exited (stderr : string)
| NotRun.

Definition contractsDir : string := "contracts".

Definition alnum (c : ascii) : bool :=
  Regex.in_range "A" "Z" c || Regex.in_range "a" "z" c || Regex.in_range "0" "9" c.
Definition ref_char (c : ascii) : bool := alnum c || Regex.is_in "._/~-" c.
Definition path_char (c : ascii) : bool := alnum c || Regex.is_in "._/+-" c.
Definition gitRefPattern : Regex.re := Regex.RSeq (Regex.RSet alnum) (Regex.RStar (Regex.RSet ref_char)).
Definition gitPathPattern : Regex.re := Regex.RSeq (Regex.RSet alnum) (Regex.RStar (Regex.RSet path_char)).
Definition validateGitRef (ref : string) : bool := Regex.match_full gitRefPattern ref.

Definition fixed (a : string) : bool := str_mem a ["show"; "ls-tree"; "-r"; "--name-only"; "--"].
Definition arg_ok (a : string) : bool :=
  fixed a ||
  match cut ":" a with
  | (ref, path, true) => validateGitRef ref && Regex.match_full gitPathPattern path
  | _ => validateGitRef a
  end.

Inductive Finding : Type :=
| DeletedFile (f : string)
| Broken (f : string) (b : Break).
Inductive Outcome : Type :=
| Passed (changed deleted : nat)
| Refused (found : list Finding)
| Failed.

Section Gate.
Context `{RO : RangeOrder, V : Verbs}.
(** strconv.ParseFloat of a number of a JSON document; yaml.Unmarshal. *)
Context (parse_float : string -> Float64.t) (yaml_unmarshal : string -> option Doc).
(** The git process on an argument list, filepath.Walk of [contractsDir] and
    os.ReadFile; [None] is an error. *)
Context (git : list string -> GitReply) (walk : option (list string)) (read_file : string -> option string).

(** [json.Unmarshal] into an [any]. *)
Fixpoint of_json (j : json) : Doc :=
  match j with
  | JNull => DScalar Null
  | JBool b => DScalar (Bool b)
  | JNum lit => DScalar (Float (parse_float lit))
  | JStr s => DScalar (Str s)
  | JArr l => DList (map of_json l)
  | JObj fs => DMap (to_map (map (fun kv => (kv.1, of_json kv.2)) fs))
  end.
Definition decodeDoc (raw : string) : option Doc :=
  if has_prefix (trim_space raw) "{" then of_json <$> unmarshal raw else yaml_unmarshal raw.

Definition gitOut (args : list string) : option string :=
  if forallb arg_ok args then
    match git args with
    | Ran out => Some out
    | Exited stderr =>
        if contains stderr "does not exist" || contains stderr "exists on disk, but not in" then Some "" else None
    | NotRun => None
    end
  else None.
Definition show (base f : string) : option string := gitOut ["show"; base +:+ ":" +:+ f].

Definition diffBreaking (base path : string) : option (list Break) :=
  baseRaw ← show base path;
  curRaw ← read_file path;
  baseDoc ← decodeDoc baseRaw;
  curDoc ← decodeDoc curRaw;
  Some (findBreaking [] baseDoc curDoc "$").

(** Whether a file of the working tree counts as changed; [None] stops the gate. *)
Definition file_changed (base f : string) : option bool :=
  match show base f with
  | None => Some true
  | Some baseContent => curContent ← read_file f; Some (negb (baseContent =s curContent))
  end.
Fixpoint changed_files (base : string) (fs : list string) : option (list string) :=
  match fs with
  | [] => Some []
  | f :: fs' =>
      ch ← file_changed base f;
      rest ← changed_files base fs';
      Some (if ch : bool then f :: rest else rest)
  end.
Fixpoint diff_all (base : string) (fs : list string) : option (list Finding) :=
  match fs with
  | [] => Some []
  | f :: fs' =>
      breaks ← diffBreaking base f;
      rest ← diff_all base fs';
      Some (map (Broken f) breaks ++ rest)
  end.

Definition base_files (raw : string) : list string :=
  remove_dups (List.filter (fun f => negb (f =s "")) (split_at "010" (trim_space raw))).

Definition cmdBreaking (base : string) : Outcome :=
  let base := if base =s "" then "HEAD" else base in
  match gitOut ["ls-tree"; "-r"; "--name-only"; base; "--"; contractsDir], walk with
  | Some raw, Some files =>
      let baseFiles := base_files raw in
      let deleted := sort_strings (List.filter (fun f => negb (str_mem f files)) baseFiles) in
      match changed_files base (List.filter (fun f => str_mem f baseFiles) (remove_dups files)) with
      | None => Failed
      | Some changed =>
          match diff_all base (sort_strings changed) with
          | None => Failed
          | Some breaks =>
              match map DeletedFile deleted ++ breaks with
              | [] => Passed (length changed) (length deleted)
              | found => Refused found
              end
          end
      end
  | _, _ => Failed
  end.
End Gate.
End Breaking.

(** ** What the walk reports *)

Module BreakingWalk.
Import GoString GoText Breaking.

(** Induction over documents and the documents nested in them. *)
Section DocInd.
Context (P : Doc -> Prop) (Hscalar : forall s, P (DScalar s))
  (Hlist : forall l, Forall P l -> P (DList l))
  (Hmap : forall fs, Forall (fun kv => P kv.2) fs -> P (DMap fs))
  (Hany : forall fs, Forall (fun kv => P kv.2) fs -> P (DAny fs)).
Fixpoint doc_nested (d : Doc) : P d :=
  let all {K} := fix go (l : list (K * Doc)) : Forall (fun kv => P kv.2) l :=
    match l with [] => Forall_nil_2 _ | kv :: l' => Forall_cons_2 _ kv _ (doc_nested kv.2) (go l') end in
  match d with
  | DScalar s => Hscalar s
  | DList l => Hlist l ((fix go l : Forall P l :=
      match l with [] => Forall_nil_2 _ | x :: l' => Forall_cons_2 _ _ _ (doc_nested x) (go l') end) l)
  | DMap fs => Hmap fs (all fs)
  | DAny fs => Hany fs (all fs)
  end.
End DocInd.

Lemma entry_elem {A} (fs : list (string * A)) k v : entry fs k = Some v -> (k, v) ∈ fs.
Proof.
  induction fs as [|[k' w] fs IH]; simpl; [done|]. case_eq (k' =s k); intros E H; b2p; subst.
  - injection H as ->. left.
  - right. auto.
Qed.
Lemma entry_keys {A} (fs : list (string * A)) k : k ∈ keys fs <-> exists v, entry fs k = Some v.
Proof.
  unfold keys. induction fs as [|[k' w] fs IH]; simpl.
  - split; [by intros ?%elem_of_nil|by intros []].
  - rewrite elem_of_cons, IH. case_eq (k' =s k); intros E; b2p.
    + subst. split; eauto.
    + split; [intros [->|?]; [done|auto]|auto].
Qed.
Lemma entry_map {A B} (f : string -> A -> B) (fs : list (string * A)) k :
  entry (map (fun kv => (kv.1, f kv.1 kv.2)) fs) k = f k <$> entry fs k.
Proof.
  induction fs as [|[k' w] fs IH]; simpl; [done|]. case_eq (k' =s k); intros E; b2p; by subst.
Qed.
Lemma gone_spec {A} (c : list (string * A)) ks k : k ∈ gone c ks <-> k ∈ ks /\ k ∉ keys c.
Proof.
  unfold gone. rewrite list_elem_of_In, filter_In, <- list_elem_of_In, entry_keys.
  destruct (entry c k) as [v|].
  - split; [by intros []|]. intros [_ []]. by exists v.
  - split; [|by intros []]. intros [? _]. by split; [|intros []].
Qed.

(** *** Where the walk goes and what it says there *)

(** From a pair of documents at a place to the pairs compared below it. *)
Inductive visits : Doc -> Doc -> string -> Doc -> Doc -> string -> Prop :=
| visits_here b c at_ : visits b c at_ b c at_
| visits_key b c at_ k bv cv b' c' at' :
    entry b k = Some bv -> entry c k = Some cv ->
    visits bv cv (at_key at_ k) b' c' at' -> visits (DMap b) (DMap c) at_ b' c' at'
| visits_index b c at_ i bv cv b' c' at' :
    allScalars b && allScalars c = false -> b !! i = Some bv -> c !! i = Some cv ->
    visits bv cv (at_index at_ i) b' c' at' -> visits (DList b) (DList c) at_ b' c' at'.

(** What is reported of one pair. *)
Inductive breaks_here `{Verbs} : Doc -> Doc -> string -> Break -> Prop :=
| here_object b c at_ : (forall c', c <> DMap c') -> breaks_here (DMap b) c at_ (NotObject at_)
| here_array b c at_ : (forall c', c <> DList c') -> breaks_here (DList b) c at_ (NotArray at_)
| here_required b c at_ k : required_at at_ = true -> k ∈ keys b -> k ∉ keys c ->
    breaks_here (DMap b) (DMap c) at_ (RequiredKey k at_)
| here_enum b c at_ k : has_suffix at_ ".enum" = true -> k ∈ keys b -> k ∉ keys c ->
    breaks_here (DMap b) (DMap c) at_ (EnumKey k at_)
| here_property b c at_ k : has_suffix at_ ".properties" = true -> k ∈ keys b -> k ∉ keys c ->
    breaks_here (DMap b) (DMap c) at_ (PropertyGone k at_)
| here_field b c at_ k : contains at_ ".paths." = true -> k ∈ keys b -> k ∉ keys c ->
    breaks_here (DMap b) (DMap c) at_ (FieldGone k at_)
| here_path b c at_ k : has_suffix at_ ".paths" = true -> k ∈ keys b -> k ∉ keys c ->
    breaks_here (DMap b) (DMap c) at_ (PathGone k at_)
| here_const b c at_ v : "const" ∉ keys b -> entry c "const" = Some v ->
    breaks_here (DMap b) (DMap c) at_ (ConstAdded v at_)
| here_value b c at_ kind v : allScalars b = true -> allScalars c = true -> kind_at at_ = Some kind ->
    v ∈ b -> sprint v ∉ map sprint c -> breaks_here (DList b) (DList c) at_ (ValueGone kind v at_)
| here_entry b c at_ i : allScalars b && allScalars c = false -> (length c <= i < length b)%nat ->
    breaks_here (DList b) (DList c) at_ (EntryGone at_ i)
| here_changed b c at_ : (forall fs, b <> DMap fs) -> (forall l, b <> DList l) ->
    deep_equal b c = false -> exempt at_ = false -> breaks_here b c at_ (ValueChanged at_ b c).

Section Walk.
Context `{RO : RangeOrder, V : Verbs}.

Lemma walk_map p b c at_ x :
  x ∈ findBreaking p (DMap b) (DMap c) at_ <->
  x ∈ map_breaks p b c at_ \/
  exists k bv cv, entry b k = Some bv /\ entry c k = Some cv /\
    x ∈ findBreaking (p ++ [k]) bv cv (at_key at_ k).
Proof using.
  cbn [findBreaking]. rewrite elem_of_app, (list_elem_of_In (concat _)), in_concat. f_equiv.
  setoid_rewrite in_map_iff. setoid_rewrite <- list_elem_of_In.
  set (f := fun k bv => match entry c k with
                        | Some cv => findBreaking (p ++ [k]) bv cv (at_key at_ k) | None => [] end).
  change (map _ b) with (map (fun kv => (kv.1, f kv.1 kv.2)) b).
  setoid_rewrite (entry_map f). setoid_rewrite ranged_perm. setoid_rewrite entry_keys. split.
  - intros (l & (k & <- & bv & Hk) & Hx). rewrite Hk in Hx. unfold f in Hx. simpl in Hx.
    destruct (entry c k) as [cv|] eqn:Ec; [|by apply elem_of_nil in Hx]. by exists k, bv, cv.
  - intros (k & bv & cv & Hb & Hc & Hx). exists (f k bv). split; [|unfold f; by rewrite Hc].
    exists k. rewrite Hb. eauto.
Qed.

Lemma walk_list p b c at_ x :
  allScalars b && allScalars c = false ->
  x ∈ findBreaking p (DList b) (DList c) at_ <->
  x ∈ shrinkage b c at_ \/
  exists i bv cv, b !! i = Some bv /\ c !! i = Some cv /\
    x ∈ findBreaking (p ++ [dec (Z.of_nat i)]) bv cv (at_index at_ i).
Proof using.
  intros Hs. cbn [findBreaking]. rewrite Hs, elem_of_app. f_equiv. clear Hs.
  enough (G : forall n, x ∈ (fix go (i : nat) (l m : list Doc) {struct l} : list Break :=
             match l, m with
             | x :: l', y :: m' =>
                 findBreaking (p ++ [dec (Z.of_nat i)]) x y (at_index at_ i) ++ go (S i) l' m'
             | _, _ => []
             end) n b c <->
    exists i bv cv, b !! i = Some bv /\ c !! i = Some cv /\
      x ∈ findBreaking (p ++ [dec (Z.of_nat (n + i))]) bv cv (at_index at_ (n + i))) by apply (G O).
  revert c. induction b as [|bv b IH]; intros c n.
  - split; [by intros ?%elem_of_nil|]. by intros (i & ? & ? & ? & _).
  - destruct c as [|cv c].
    + split; [by intros ?%elem_of_nil|]. by intros (i & ? & ? & _ & ? & _).
    + rewrite elem_of_app, IH. split.
      * intros [Hx|(i & y & z & Hb & Hc & Hx)].
        -- exists O, bv, cv. rewrite Nat.add_0_r. auto.
        -- exists (S i), y, z. rewrite Nat.add_succ_r. auto.
      * intros (i & y & z & Hb & Hc & Hx). destruct i as [|i].
        -- rewrite Nat.add_0_r in Hx. simpl in Hb, Hc. simplify_eq. auto.
        -- rewrite Nat.add_succ_r in Hx. right. exists i, y, z. auto.
Qed.

Lemma missing_elem p n (b c : list (string * Doc)) (mk : string -> string -> Break) at_ (cond : bool) x :
  x ∈ (if cond then map (fun k => mk k at_) (gone c (ranged p n (keys b))) else []) <->
  cond = true /\ exists k, x = mk k at_ /\ k ∈ keys b /\ k ∉ keys c.
Proof using.
  destruct cond; [|split; [by intros ?%elem_of_nil|by intros []]].
  rewrite list_elem_of_fmap. setoid_rewrite gone_spec. setoid_rewrite ranged_perm.
  split; [intros (k & -> & ? & ?)|intros [_ (k & -> & ? & ?)]]; eauto.
Qed.

Lemma const_elem (b c : list (string * Doc)) at_ x :
  x ∈ (match entry b "const", entry c "const" with None, Some nv => [ConstAdded nv at_] | _, _ => [] end) <->
  exists v, x = ConstAdded v at_ /\ ("const" ∉ keys b) /\ entry c "const" = Some v.
Proof using.
  setoid_rewrite entry_keys. destruct (entry b "const") as [v|], (entry c "const") as [w|];
    rewrite ?list_elem_of_singleton; (split; [|naive_solver]).
  - by intros ?%elem_of_nil.
  - by intros ?%elem_of_nil.
  - intros ->. exists w. repeat split; try done. by intros [].
  - by intros ?%elem_of_nil.
Qed.

Lemma map_breaks_spec p b c at_ x :
  x ∈ map_breaks p b c at_ <-> breaks_here (DMap b) (DMap c) at_ x.
Proof using.
  unfold map_breaks. cbv zeta. rewrite !elem_of_app, !missing_elem, const_elem. split.
  - intros [[? (k & -> & ? & ?)]|[[? (k & -> & ? & ?)]|[[? (k & -> & ? & ?)]|
            [[? (k & -> & ? & ?)]|[[? (k & -> & ? & ?)]|(v & -> & ? & ?)]]]]]; by constructor.
  - intros H. inversion H; subst; try naive_solver.
Qed.

Lemma shrinkage_spec b c at_ x :
  x ∈ shrinkage b c at_ <-> exists i, x = EntryGone at_ i /\ (length c <= i < length b)%nat.
Proof using.
  unfold shrinkage. rewrite list_elem_of_fmap. setoid_rewrite elem_of_seq.
  split; intros (i & -> & ?); exists i; (split; [done|lia]).
Qed.

Lemma scalar_breaks_spec b c at_ x :
  x ∈ scalar_breaks b c at_ <->
  exists kind v, x = ValueGone kind v at_ /\ kind_at at_ = Some kind /\ v ∈ b /\ sprint v ∉ map sprint c.
Proof using.
  unfold scalar_breaks. destruct (kind_at at_) as [kind|].
  - rewrite list_elem_of_fmap. setoid_rewrite list_elem_of_In. setoid_rewrite filter_In.
    setoid_rewrite negb_true_iff. setoid_rewrite <- list_elem_of_In. setoid_rewrite str_mem_false. naive_solver.
  - split; [by intros ?%elem_of_nil|naive_solver].
Qed.

End Walk.
End BreakingWalk.
Module BreakingProps.
Import GoString GoText Breaking BreakingWalk.

Definition is_leaf (d : Doc) : Prop := (forall fs, d <> DMap fs) /\ (forall l, d <> DList l).

Section Spec.
Context `{RO : RangeOrder, V : Verbs}.

Lemma leaf_breaks p b c at_ x :
  is_leaf b ->
  x ∈ findBreaking p b c at_ <->
  x = ValueChanged at_ b c /\ deep_equal b c = false /\ exempt at_ = false.
Proof using.
  intros [H1 H2]. rewrite <- !negb_true_iff.
  assert (E : findBreaking p b c at_ =
    if negb (deep_equal b c) && negb (exempt at_) then [ValueChanged at_ b c] else [])
    by (destruct b; [done|by destruct (H2 l)|by destruct (H1 fs)|done]).
  rewrite E. destruct (negb (deep_equal b c)), (negb (exempt at_)); simpl;
    rewrite ?list_elem_of_singleton, ?elem_of_nil; naive_solver.
Qed.

(** The walk reports what is reported of the pairs it visits. *)
Lemma findBreaking_spec base p cur at_ x :
  x ∈ findBreaking p base cur at_ <->
  exists b c at', visits base cur at_ b c at' /\ breaks_here b c at' x.
Proof using.
  revert p cur at_. induction base as [s|l IH|fs IH|fs IH] using doc_nested; intros p cur at_.
  - rewrite leaf_breaks by done. split.
    + intros (-> & ? & ?). eexists _, _, _. split; [constructor|by constructor].
    + intros (b & c & at' & Hv & Hb). inversion Hv; subst. by inversion Hb; subst.
  - destruct cur as [s|c|c|c]; try (cbn [findBreaking]; rewrite list_elem_of_singleton; split;
      [intros ->; eexists _, _, _; split; [constructor|by constructor]
      |intros (? & ? & ? & Hv & Hb); inversion Hv; subst; inversion Hb; subst; naive_solver]).
    destruct (allScalars l && allScalars c) eqn:Es.
    + cbn [findBreaking]. rewrite Es, scalar_breaks_spec. apply andb_true_iff in Es as [Hl Hc]. split.
      * intros (kind & v & -> & ? & ? & ?). eexists _, _, _. split; [constructor|by constructor].
      * intros (? & ? & ? & Hv & Hb). inversion Hv; subst; [|by rewrite Hl, Hc in *].
        inversion Hb; subst; try (rewrite Hl, Hc in *; done); naive_solver.
    + rewrite walk_list, shrinkage_spec by done. split.
      * intros [(i & -> & ?)|(i & bv & cv & Hb & Hc & Hx)].
        -- eexists _, _, _. split; [constructor|by constructor].
        -- rewrite Forall_lookup in IH. eapply IH in Hx as (b & c' & at' & Hv & Hh); [|done].
           eexists _, _, _. split; [by eapply visits_index|done].
      * intros (? & ? & ? & Hv & Hb). inversion Hv; subst.
        -- left. inversion Hb; subst; try (rewrite ?andb_false_iff in *; naive_solver congruence); naive_solver.
        -- right. rewrite Forall_lookup in IH. eexists _, _, _. split; [done|]. split; [done|].
           eapply IH; eauto.
  - destruct cur as [s|c|c|c]; try (cbn [findBreaking]; rewrite list_elem_of_singleton; split;
      [intros ->; eexists _, _, _; split; [constructor|by constructor]
      |intros (? & ? & ? & Hv & Hb); inversion Hv; subst; inversion Hb; subst; naive_solver]).
    rewrite walk_map, map_breaks_spec. rewrite Forall_forall in IH. split.
    + intros [Hx|(k & bv & cv & Hb & Hc & Hx)].
      * eexists _, _, _. split; [constructor|done].
      * eapply (IH (k, bv)) in Hx as (b & c' & at' & Hv & Hh); [|by apply entry_elem].
        eexists _, _, _. split; [by eapply visits_key|done].
    + intros (? & ? & ? & Hv & Hb). inversion Hv; subst; [by left|right].
      eexists _, _, _. split; [done|]. split; [done|].
      eapply (IH (_, _)); [by apply entry_elem|eauto].
  - rewrite leaf_breaks by done. split.
    + intros (-> & ? & ?). eexists _, _, _. split; [constructor|by constructor].
    + intros (b & c & at' & Hv & Hb). inversion Hv; subst. by inversion Hb; subst.
Qed.

Lemma nil_iff {A} (l : list A) : l = [] <-> forall x, x ∉ l.
Proof using.
  split; [intros -> x; apply not_elem_of_nil|]. destruct l as [|a l]; [done|].
  intros H. destruct (H a). left.
Qed.

(** Nothing is lost where losing a key is refused. *)
Definition kept (at_ : string) : bool :=
  required_at at_ || has_suffix at_ ".enum" || has_suffix at_ ".properties" ||
  contains at_ ".paths." || has_suffix at_ ".paths".

(** What the gate accepts, as a relation between the two documents. *)
Inductive compatible : string -> Doc -> Doc -> Prop :=
| compatible_map at_ b c :
    (kept at_ = true -> forall k, k ∈ keys b -> k ∈ keys c) ->
    ("const" ∈ keys c -> "const" ∈ keys b) ->
    (forall k bv cv, entry b k = Some bv -> entry c k = Some cv -> compatible (at_key at_ k) bv cv) ->
    compatible at_ (DMap b) (DMap c)
| compatible_set at_ b c :
    allScalars b && allScalars c = true ->
    (kind_at at_ <> None -> forall v, v ∈ b -> sprint v ∈ map sprint c) ->
    compatible at_ (DList b) (DList c)
| compatible_list at_ b c :
    allScalars b && allScalars c = false -> (length b <= length c)%nat ->
    (forall i bv cv, b !! i = Some bv -> c !! i = Some cv -> compatible (at_index at_ i) bv cv) ->
    compatible at_ (DList b) (DList c)
| compatible_leaf at_ b c :
    is_leaf b -> deep_equal b c = true \/ exempt at_ = true -> compatible at_ b c.

Lemma map_breaks_none p b c at_ :
  (forall x, x ∉ map_breaks p b c at_) <->
  (kept at_ = true -> forall k, k ∈ keys b -> k ∈ keys c) /\ ("const" ∈ keys c -> "const" ∈ keys b).
Proof using RO V.
  setoid_rewrite map_breaks_spec. unfold kept. split.
  - intros H. split.
    + intros Hk k Hb. destruct (decide (k ∈ keys c)) as [|Hc]; [done|exfalso].
      b2p. destruct Hk as [[[[]|]|]|]; (eapply H; constructor; eassumption).
    + intros [v Hv]%entry_keys. destruct (decide ("const" ∈ keys b)) as [|Hb]; [done|].
      edestruct H. by apply here_const.
  - intros [Hk Hc] x Hx. inversion Hx as [? ? ? Hn|? ? ? Hn| | | | | |? ? ? ? Hn Hv| | |? ? ? Hn]; subst;
      try (by edestruct Hn); try (by destruct Hn; apply Hc, entry_keys; eauto).
    all: match goal with H : ?k ∈ _, H' : ?k ∉ _ |- _ => destruct H'; apply Hk; [b2p; tauto|exact H] end.
Qed.

Lemma leaf_compatible p b c at_ :
  is_leaf b -> (forall x, x ∉ findBreaking p b c at_) <-> compatible at_ b c.
Proof using.
  intros Hb. setoid_rewrite leaf_breaks; [|done]. split.
  - intros H. apply compatible_leaf; [done|].
    destruct (deep_equal b c) eqn:Ed; [by left|]. destruct (exempt at_) eqn:Ee; [by right|]. by edestruct H.
  - destruct Hb as [Hm Hl]. intros H x (-> & Hd & He). inversion H; subst.
    + by edestruct Hm.
    + by edestruct Hl.
    + by edestruct Hl.
    + destruct H1; congruence.
Qed.

Lemma compatible_walk base p cur at_ :
  findBreaking p base cur at_ = [] <-> compatible at_ base cur.
Proof using.
  revert p cur at_. induction base as [s|l IH|fs IH|fs IH] using doc_nested; intros p cur at_; rewrite nil_iff.
  - apply leaf_compatible. done.
  - destruct cur as [s|c|c|c].
    2: destruct (allScalars l && allScalars c) eqn:Es.
    2: { cbn [findBreaking]. rewrite Es. setoid_rewrite scalar_breaks_spec. split.
      - intros H. apply compatible_set; [done|]. intros Hk v Hv.
        destruct (kind_at at_) as [kind|] eqn:Ek; [|done].
        destruct (decide (sprint v ∈ map sprint c)) as [|Hn]; [done|]. by destruct (H (ValueGone kind v at_)); eauto 8.
      - intros H x (kind & v & -> & Hk & Hv & Hn). inversion H as [|? ? ? ? Hs| |? ? ? [_ Hl]]; subst;
          [|congruence|by destruct (Hl l)]. apply Hn, Hs; [congruence|done]. }
    2: { setoid_rewrite walk_list; [|done]. setoid_rewrite shrinkage_spec. rewrite Forall_lookup in IH. split.
      - intros H. apply compatible_list; [done| |].
        + destruct (decide (length l <= length c)%nat) as [|Hn]; [done|].
          destruct (H (EntryGone at_ (length c))). left. exists (length c). split; [done|lia].
        + intros i bv cv Hb Hc. apply (IH i bv Hb (p ++ [dec (Z.of_nat i)])), nil_iff.
          intros x Hx. apply (H x). right. eauto 8.
      - intros H. inversion H as [| |? ? ? _ Hlen Hi|? ? ? [_ Hl]]; subst;
          [congruence| |by destruct (Hl l)].
        intros x [(i & -> & ?)|(i & bv & cv & Hb & Hc & Hx)]; [lia|].
        specialize (Hi i bv cv Hb Hc). eapply IH in Hi; [|done]. rewrite Hi in Hx. by apply elem_of_nil in Hx. }
    all: cbn [findBreaking]; setoid_rewrite list_elem_of_singleton; split;
      [intros H; by edestruct H|intros H; inversion H as [| | |? ? ? [_ Hl]]; by destruct (Hl l)].
  - destruct cur as [s|c|c|c].
    3: { setoid_rewrite walk_map. rewrite Forall_forall in IH. split.
      - intros H. assert (Hm : forall x, x ∉ map_breaks p fs c at_) by (intros x Hx; apply (H x); by left).
        apply map_breaks_none in Hm as [Hk Hc]. apply compatible_map; [done..|].
        intros k bv cv Hb Hv. apply (IH (k, bv) (entry_elem _ _ _ Hb) (p ++ [k])), nil_iff.
        intros x Hx. apply (H x). right. eauto 8.
      - intros H. inversion H as [? ? ? Hk Hc Hi| | |? ? ? [Hl _]]; subst; [|by destruct (Hl fs)].
        intros x [Hx|(k & bv & cv & Hb & Hv & Hx)].
        + by apply (proj2 (map_breaks_none p fs c at_) (conj Hk Hc)) in Hx.
        + specialize (Hi k bv cv Hb Hv). eapply (IH (k, bv)) in Hi; [|by apply entry_elem].
          simpl in Hi. rewrite Hi in Hx. by apply elem_of_nil in Hx. }
    all: cbn [findBreaking]; setoid_rewrite list_elem_of_singleton; split;
      [intros H; by edestruct H|intros H; inversion H as [| | |? ? ? [Hl _]]; by destruct (Hl fs)].
  - apply leaf_compatible. done.
Qed.
End Spec.

(** ** The whole gate *)

Section Gate.
Context `{RO : RangeOrder, V : Verbs}.
Context (parse_float : string -> Float64.t) (yaml_unmarshal : string -> option Doc).
Context (git : list string -> GitReply) (walk : option (list string)) (read_file : string -> option string).
Abbreviation decode := (decodeDoc parse_float yaml_unmarshal).
Abbreviation show := (Breaking.show git).

(** A file that stays as it was, or becomes a compatible document. *)
Definition file_ok (base f : string) : Prop :=
  exists content, read_file f = Some content /\
    (show base f = Some content \/
     exists old b c, show base f = Some old /\ decode old = Some b /\ decode content = Some c /\
       compatible "$" b c).

Lemma file_changed_ok base f :
  file_changed git read_file base f = Some false -> file_ok base f.
Proof.
  unfold file_changed, file_ok. destruct (show base f) as [old|]; [|done].
  destruct (read_file f) as [c|]; [|done]. simpl. intros H. injection H as H. b2p. subst. eauto.
Qed.

Lemma diffBreaking_ok base f :
  diffBreaking parse_float yaml_unmarshal git read_file base f = Some [] <->
  exists old content b c, show base f = Some old /\ read_file f = Some content /\
    decode old = Some b /\ decode content = Some c /\ compatible "$" b c.
Proof.
  unfold diffBreaking. setoid_rewrite <- (compatible_walk _ []). split.
  - destruct (show base f) as [old|]; [|done]. destruct (read_file f) as [content|]; [|done].
    simpl. destruct (decode old) as [b|] eqn:Eb; [|done]. destruct (decode content) as [c|] eqn:Ec; [|done].
    simpl. intros H. injection H as H. by exists old, content, b, c.
  - intros (old & content & b & c & -> & -> & Hb & Hc & H). simpl. rewrite Hb. simpl. rewrite Hc. simpl. by rewrite H.
Qed.

Lemma changed_files_spec base fs ch :
  changed_files git read_file base fs = Some ch ->
  (forall f, f ∈ fs -> exists b, file_changed git read_file base f = Some b) /\
  (forall f, f ∈ ch <-> f ∈ fs /\ file_changed git read_file base f = Some true).
Proof.
  revert ch. induction fs as [|g fs IH]; intros ch; simpl.
  - intros H. injection H as <-. split; [by intros ? ?%elem_of_nil|]. intros f. rewrite elem_of_nil. tauto.
  - destruct (file_changed git read_file base g) as [b|] eqn:Eg; [|done]. simpl.
    destruct (changed_files git read_file base fs) as [rest|]; [|done]. simpl. intros H. injection H as <-.
    destruct (IH rest eq_refl) as [Ht Hr]. split.
    + intros f [->|Hf]%elem_of_cons; [by exists b|auto].
    + intros f. destruct b; rewrite ?elem_of_cons, ?Hr; [naive_solver|].
      split; [naive_solver|]. intros [[->|?] ?]; [congruence|tauto].
Qed.
Lemma changed_files_total base fs :
  (forall f, f ∈ fs -> exists b, file_changed git read_file base f = Some b) ->
  exists ch, changed_files git read_file base fs = Some ch.
Proof.
  induction fs as [|g fs IH]; simpl; intros H; [eauto|].
  destruct (H g) as [b ->]; [left|]. destruct IH as [ch ->]; [intros f Hf; apply H; by right|].
  destruct b; simpl; eauto.
Qed.

Lemma diff_all_nil base fs :
  diff_all parse_float yaml_unmarshal git read_file base fs = Some [] <->
  forall f, f ∈ fs -> diffBreaking parse_float yaml_unmarshal git read_file base f = Some [].
Proof.
  induction fs as [|g fs IH]; cbn [diff_all].
  - split; [by intros _ ? ?%elem_of_nil|done].
  - destruct (diffBreaking _ _ _ _ _ g) as [bs|] eqn:Eg.
    2: { split; [done|]. intros H. by rewrite H in Eg by left. }
    simpl. destruct (diff_all _ _ _ _ base fs) as [rest|].
    + simpl. split.
      * intros H. injection H as H. apply app_eq_nil in H as [H ->]. apply map_eq_nil in H as ->.
        destruct IH as [IH _]. intros f [->|Hf]%elem_of_cons; [done|auto].
      * intros H. assert (bs = []) as -> by (assert (Some bs = Some []) by (rewrite <- Eg; apply H; left); congruence).
        change (Some rest = Some []). destruct IH as [_ IH]. apply IH. intros f Hf. apply H. by right.
    + split; [done|]. intros H. destruct IH as [_ IH]. discriminate IH. intros f Hf. apply H. by right.
Qed.

Lemma file_ok_changed base f :
  file_ok base f <->
  exists b, file_changed git read_file base f = Some b /\
    (b = true -> diffBreaking parse_float yaml_unmarshal git read_file base f = Some []).
Proof.
  split.
  - intros (content & Hr & [Hs|(old & b & c & Hs & Hb & Hc & H)]); unfold file_changed; rewrite Hs, Hr; simpl.
    + exists false. by rewrite str_eqb_refl.
    + eexists. split; [done|]. intros _. apply diffBreaking_ok. eauto 10.
  - intros ([] & Hc & Hd).
    + apply diffBreaking_ok in Hd as (old & content & b & c & Hs & Hr & Hb & Hcc & H); [|done].
      exists content. eauto 10.
    + by apply file_changed_ok.
Qed.

Lemma files_pass base fs :
  (exists ch, changed_files git read_file base fs = Some ch /\
     diff_all parse_float yaml_unmarshal git read_file base (sort_strings ch) = Some []) <->
  forall f, f ∈ fs -> file_ok base f.
Proof.
  setoid_rewrite diff_all_nil. setoid_rewrite elem_of_sort_strings. setoid_rewrite file_ok_changed. split.
  - intros (ch & Hch & Hd) f Hf. destruct (changed_files_spec _ _ _ Hch) as [Ht Hr].
    destruct (Ht f Hf) as [b Hb]. exists b. split; [done|]. intros ->. apply Hd, Hr. auto.
  - intros H. destruct (changed_files_total base fs) as [ch Hch].
    { intros f Hf. destruct (H f Hf) as (b & ? & _). eauto. }
    destruct (changed_files_spec _ _ _ Hch) as [_ Hr]. exists ch. split; [done|].
    intros f Hf. apply Hr in Hf as [Hf Ht]. destruct (H f Hf) as (b & Hb & Hd). apply Hd. congruence.
Qed.
End Gate.

(** ** Properties *)

(** C31. The gate passes exactly when git lists the published contract files,
    the working tree can be walked, and every published file is still there and
    can be read, with the bytes it had or with a document compatible with the
    one it had.  [compatible] says what may change: keys may go except where
    losing one is refused, [const] may not come, a set of scalars may grow, an
    array of objects may grow at its end, and a scalar may change where it is
    exempt. *)
Theorem cmdBreaking_passes `{RO : RangeOrder, V : Verbs} parse_float yaml_unmarshal git walk read_file base :
  (exists changed deleted, cmdBreaking parse_float yaml_unmarshal git walk read_file base = Passed changed deleted) <->
  let b := if base =s "" then "HEAD" else base in
  exists raw files,
    gitOut git ["ls-tree"; "-r"; "--name-only"; b; "--"; contractsDir] = Some raw /\ walk = Some files /\
    forall f, f ∈ base_files raw -> f ∈ files /\ file_ok parse_float yaml_unmarshal git read_file b f.
Proof.
  cbv zeta. unfold cmdBreaking. cbv zeta. set (b := if base =s "" then _ else _).
  destruct (gitOut git _) as [raw|]; [|split; [by intros (? & ? & ?)|by intros (? & ? & ? & _)]].
  destruct walk as [files|]; [|split; [by intros (? & ? & ?)|by intros (? & ? & _ & ? & _)]].
  set (fs := List.filter _ (remove_dups files)).
  assert (Hfs : forall f, f ∈ fs <-> f ∈ base_files raw /\ f ∈ files).
  { intros f. unfold fs. rewrite list_elem_of_In, filter_In, <- list_elem_of_In, elem_of_remove_dups, str_mem_spec. tauto. }
  set (del := List.filter _ (base_files raw)).
  assert (Hdel : map DeletedFile (sort_strings del) = [] <-> forall f, f ∈ base_files raw -> f ∈ files).
  { assert (E : forall l, map DeletedFile l = [] <-> l = []) by (by intros []). rewrite E, nil_iff. setoid_rewrite elem_of_sort_strings.
    unfold del. setoid_rewrite list_elem_of_In. setoid_rewrite filter_In. setoid_rewrite negb_true_iff.
    setoid_rewrite <- list_elem_of_In. setoid_rewrite str_mem_false. split.
    - intros H f Hf. destruct (decide (f ∈ files)) as [|Hn]; [done|]. by destruct (H f).
    - intros H f [Hf Hn]. auto. }
  pose proof (files_pass parse_float yaml_unmarshal git read_file b fs) as Hp. split.
  - intros (n & m & H). exists raw, files. split; [done|]. split; [done|].
    destruct (changed_files _ _ _ _) as [ch|] eqn:Ech; [|done].
    destruct (diff_all _ _ _ _ _ _) as [bs|] eqn:Ed; [|done].
    destruct (map DeletedFile _ ++ bs) eqn:En; [|done]. apply app_eq_nil in En as [Hd ->].
    intros f Hf. pose proof (proj1 Hdel Hd f Hf). split; [done|].
    apply (proj1 Hp); [eauto|]. by apply Hfs.
  - intros (raw' & files' & Er & Ef & H). injection Er as <-. injection Ef as <-.
    destruct (proj2 Hp) as (ch & Hch & Hd). { intros f [Hf _]%Hfs. by apply H. }
    rewrite Hch, Hd, app_nil_r. rewrite (proj2 Hdel) by (intros f Hf; by apply H). eauto.
Qed.

(** *** What reaches git *)

Definition harmless_char (c : ascii) : bool := alnum c || Regex.is_in "._/~-+:" c.
(** A word of the program, or a text that starts with a letter or digit and
    has no character a shell or git would read as more than a name. *)
Definition harmless (a : string) : Prop :=
  fixed a = true \/
  exists c l, bytes_of_string a = c :: l /\ alnum c = true /\ Forall (fun x => harmless_char x = true) l.

Lemma cut_split sep s a b : cut sep s = (a, b, true) -> bytes_of_string s = bytes_of_string a ++ sep :: bytes_of_string b.
Proof.
  revert a b. induction s as [|c s IH]; intros a b; simpl; [done|].
  case_eq (Ascii.eqb c sep); intros Ec.
  - apply Ascii.eqb_eq in Ec as ->. intros H. by injection H as <- <-.
  - destruct (cut sep s) as [[a' b'] found]. intros H. injection H as <- <- ->.
    unfold bytes_of_string in *. simpl. f_equal. by apply (IH a' b').
Qed.

Lemma star_set f l : Regex.lang (Regex.RStar (Regex.RSet f)) l -> Forall (fun x => f x = true) l.
Proof.
  induction l as [|c l IH]; intros H; [constructor|].
  apply Regex.lang_star_cons in H as (l1 & l2 & -> & H1 & H2).
  apply Regex.lang_set in H1 as (c' & E & Hc). injection E as <- ->. constructor; auto.
Qed.
Lemma word_pattern f s :
  Regex.match_full (Regex.RSeq (Regex.RSet alnum) (Regex.RStar (Regex.RSet f))) s = true ->
  exists c l, bytes_of_string s = c :: l /\ alnum c = true /\ Forall (fun x => f x = true) l.
Proof.
  unfold Regex.match_full. rewrite Regex.full_spec, Regex.lang_seq.
  intros (l1 & l2 & E & H1 & H2). apply Regex.lang_set in H1 as (c & -> & Hc). apply star_set in H2. by exists c, l2.
Qed.

Lemma arg_harmless a : arg_ok a = true -> harmless a.
Proof.
  assert (Hr : forall c, ref_char c = true -> harmless_char c = true).
  { intros c. unfold ref_char, harmless_char, Regex.is_in. simpl. rewrite !orb_true_iff. tauto. }
  assert (Hp : forall c, path_char c = true -> harmless_char c = true).
  { intros c. unfold path_char, harmless_char, Regex.is_in. simpl. rewrite !orb_true_iff. tauto. }
  assert (Ha : forall c, alnum c = true -> harmless_char c = true) by (intros c H; unfold harmless_char; by rewrite H).
  unfold arg_ok, harmless. rewrite orb_true_iff. intros [H|H]; [by left|right].
  destruct (cut ":" a) as [[ref path] []] eqn:Ec.
  - apply andb_true_iff in H as [H1 H2]. apply cut_split in Ec.
    apply word_pattern in H1 as (c & l & E1 & Hc & Hl). apply word_pattern in H2 as (d & m & E2 & Hd & Hm).
    rewrite E1, E2 in Ec. exists c, (l ++ ":"%char :: d :: m). split; [done|]. split; [done|].
    apply Forall_app. split; [eapply Forall_impl; eauto|]. repeat constructor; auto. eapply Forall_impl; eauto.
  - apply word_pattern in H as (c & l & E & Hc & Hl). exists c, l. split; [done|]. split; [done|].
    eapply Forall_impl; eauto.
Qed.

Section Guarded.
Context `{RO : RangeOrder, V : Verbs}.
Context (parse_float : string -> Float64.t) (yaml_unmarshal : string -> option Doc).
Context (walk : option (list string)) (read_file : string -> option string).
Context (git1 git2 : list string -> GitReply).
Context (same : forall args, Forall harmless args -> git1 args = git2 args).

Lemma gitOut_same args : gitOut git1 args = gitOut git2 args.
Proof using same.
  unfold gitOut. destruct (forallb arg_ok args) eqn:E; [|done]. rewrite same; [done|].
  rewrite forallb_forall in E. apply Forall_forall. intros a Ha. apply arg_harmless, E. by apply list_elem_of_In.
Qed.
Lemma changed_same base fs : changed_files git1 read_file base fs = changed_files git2 read_file base fs.
Proof using same.
  induction fs as [|f fs IH]; [done|]. simpl. unfold file_changed, Breaking.show. by rewrite gitOut_same, IH.
Qed.
Lemma diff_same base fs :
  diff_all parse_float yaml_unmarshal git1 read_file base fs = diff_all parse_float yaml_unmarshal git2 read_file base fs.
Proof using same.
  induction fs as [|f fs IH]; [done|]. simpl. unfold diffBreaking, Breaking.show. by rewrite gitOut_same, IH.
Qed.
End Guarded.

(** Whatever base the caller names and whatever files git and the working
    tree list, git is only run on harmless arguments: two gits that agree on
    those give the same outcome.  In particular no argument but the five fixed
    words starts with a hyphen. *)
Theorem cmdBreaking_git_args `{RO : RangeOrder, V : Verbs} parse_float yaml_unmarshal walk read_file git1 git2 base :
  (forall args, Forall harmless args -> git1 args = git2 args) ->
  cmdBreaking parse_float yaml_unmarshal git1 walk read_file base =
  cmdBreaking parse_float yaml_unmarshal git2 walk read_file base.
Proof.
  intros same. unfold cmdBreaking. cbv zeta. rewrite (gitOut_same _ _ same).
  destruct (gitOut git2 _); [|done]. destruct walk; [|done].
  rewrite (changed_same _ _ _ same). destruct (changed_files _ _ _ _); [|done].
  by rewrite (diff_same _ _ _ _ _ same).
Qed.

(** *** Which changes pass *)

Lemma set_entry_elem {A} k (v : A) fs kv : kv ∈ set_entry k v fs -> kv = (k, v) \/ kv ∈ fs.
Proof.
  induction fs as [|[k' w] fs IH]; simpl.
  - rewrite list_elem_of_singleton. auto.
  - destruct (k' =s k); rewrite !elem_of_cons; tauto.
Qed.
Lemma to_map_elem {A} (fs : list (string * A)) kv : kv ∈ to_map fs -> kv ∈ fs.
Proof.
  unfold to_map. enough (G : forall m, kv ∈ fold_left (fun m kv => set_entry kv.1 kv.2 m) fs m -> kv ∈ m \/ kv ∈ fs).
  { intros H%G. destruct H as [H|H]; [by apply elem_of_nil in H|done]. }
  induction fs as [|[k v] fs IH]; intros m H; simpl in H; [by left|].
  apply IH in H as [H|H]; [|right; by right]. apply set_entry_elem in H as [->|H]; [right; by left|by left].
Qed.

(** A file written differently that decodes to the same JSON document passes:
    white space, the order of keys and the notation of numbers are free. *)
Lemma same_json_passes `{V : Verbs} parse_float j at_ :
  (forall lit, SFeqb (parse_float lit) (parse_float lit) = true) ->
  compatible at_ (of_json parse_float j) (of_json parse_float j).
Proof.
  intros Hf. revert at_. induction j as [|b|lit|s|l IH|fs IH] using json_ind_nested; intros at_; cbn [of_json].
  - by apply compatible_leaf; [|left].
  - apply compatible_leaf; [done|left; by destruct b].
  - apply compatible_leaf; [done|left; apply Hf].
  - apply compatible_leaf; [done|left; apply str_eqb_refl].
  - destruct (allScalars (map (of_json parse_float) l) && allScalars (map (of_json parse_float) l)) eqn:E.
    + apply compatible_set; [done|]. intros _ v Hv. by apply (list_elem_of_fmap_2 sprint).
    + apply compatible_list; [done|done|]. intros i bv cv Hb Hc. replace cv with bv by congruence.
      apply list_lookup_fmap_Some_1 in Hb as (x & -> & Hx). rewrite Forall_lookup in IH. by eapply IH.
  - apply compatible_map; [done|done|]. intros k bv cv Hb Hc. replace cv with bv by congruence.
    apply entry_elem, to_map_elem, list_elem_of_fmap in Hb as ([k' j] & E & Hj). injection E as -> ->.
    rewrite Forall_forall in IH. by apply (IH _ Hj).
Qed.

Lemma contains_step at_ t sub : contains at_ sub = true -> contains (at_ +:+ t) sub = true.
Proof. apply (contains_app ""). Qed.
Lemma exempt_below `{V : Verbs} b c at_ b' c' at' sub :
  visits b c at_ b' c' at' -> contains at_ sub = true -> contains at' sub = true.
Proof.
  induction 1 as [|b c at_ k bv cv b' c' at' _ _ _ IH|b c at_ i bv cv b' c' at' _ _ _ _ IH]; intros H; [done|..];
    apply IH; by apply contains_step.
Qed.
(** Below a place whose name contains a text of the exempt list no change of a
    scalar is reported, whatever the place is: a property called description
    may change its type. *)
Lemma description_exempt `{RO : RangeOrder, V : Verbs} p b c at_ at' x y :
  contains at_ "description" = true -> ValueChanged at' x y ∉ findBreaking p b c at_.
Proof.
  intros H Hx. apply findBreaking_spec in Hx as (b' & c' & at'' & Hv & Hb).
  inversion Hb; subst. pose proof (exempt_below _ _ _ _ _ _ _ Hv H) as Hc.
  match goal with He : exempt _ = false |- _ => unfold exempt in He; rewrite Hc in He end.
  by rewrite !orb_true_r in *.
Qed.

(** *** The gate at work *)

Definition plain_float (lit : string) : Float64.t := Float64.of_int (Z.of_nat (String.length lit)).
#[local] Instance plain_verbs : Verbs := {| float_v _ := "1"; time_v _ _ := "t"; compound_v _ := "map[]" |}.
#[local] Instance plain_ranges : RangeOrder.
Proof. by refine {| ranged _ _ l := l |}. Defined.
Definition no_yaml (_ : string) : option Doc := None.
(** A repository with one contract at the base revision. *)
Definition repo (file old : string) (args : list string) : GitReply :=
  match args with
  | "ls-tree" :: _ => Ran (file +:+ String "010" "")
  | ["show"; a] => if a =s "HEAD:" +:+ file then Ran old else Exited "fatal: path does not exist"
  | _ => NotRun
  end.
Definition gate (old new : string) : Outcome :=
  cmdBreaking plain_float no_yaml (repo "contracts/a.json" old) (Some ["contracts/a.json"; "contracts/b.json"])
    (fun f => if f =s "contracts/a.json" then Some new else None) "".
(** A text with single quotes for double ones. *)
Definition q (s : string) : string := replace_bytes (fun c => if Ascii.eqb c "'" then "034"%char else c) s.

Definition order_schema (v r : string) : string :=
  q ("{'v':" +:+ v +:+ ",'required':[" +:+ r +:+ "],'enum':['a','b']}").
Example gate_unchanged : gate (order_schema "2" "'x','y'") (order_schema "2" "'x','y'") = Passed 0 0.
Proof. vm_compute. reflexivity. Qed.
Example gate_grown : gate (order_schema "2" "'x','y'") (order_schema "2" "'y','x','z'") = Passed 1 0.
Proof. vm_compute. reflexivity. Qed.
Example gate_shrunk :
  gate (order_schema "2" "'x','y'") (order_schema "2" "'x'") =
  Refused [Broken "contracts/a.json" (ValueGone RequiredEntry (DScalar (Str "y")) "$.required")].
Proof. vm_compute. reflexivity. Qed.
Example gate_deleted :
  cmdBreaking plain_float no_yaml (repo "contracts/a.json" "{}") (Some ["contracts/b.json"]) (fun _ => Some "{}") "" =
  Refused [DeletedFile "contracts/a.json"].
Proof. vm_compute. reflexivity. Qed.
(** A base revision with a character outside the pattern is refused. *)
Example gate_bad_base :
  cmdBreaking plain_float no_yaml (repo "contracts/a.json" "{}") (Some ["contracts/a.json"]) (fun _ => Some "{}") "HEAD^" =
  Failed.
Proof. vm_compute. reflexivity. Qed.

(** Narrowings the gate lets pass: a union made a single type, a type or a
    required list that was not there, a property called description that
    changes its type. *)
Example narrowed_union :
  gate (q "{'properties':{'p':{'anyOf':[{'type':'string'},{'type':'integer'}]}}}")
       (q "{'properties':{'p':{'type':'string'}}}") = Passed 1 0.
Proof. vm_compute. reflexivity. Qed.
Example narrowed_required : gate (q "{'properties':{}}") (q "{'properties':{},'required':['x']}") = Passed 1 0.
Proof. vm_compute. reflexivity. Qed.
Example retyped_description :
  gate (q "{'properties':{'description':{'type':'string'}}}") (q "{'properties':{'description':{'type':'integer'}}}") =
  Passed 1 0.
Proof. vm_compute. reflexivity. Qed.
(** Two changes pass one after the other and not at once: the gate compares
    neighbouring revisions only. *)
Example two_steps :
  (gate (q "{'enum':['a','b']}") "{}", gate "{}" (q "{'enum':['a']}"), gate (q "{'enum':['a','b']}") (q "{'enum':['a']}")) =
  (Passed 1 0, Passed 1 0,
   Refused [Broken "contracts/a.json" (ValueGone EnumValue (DScalar (Str "b")) "$.enum")]).
Proof. vm_compute. reflexivity. Qed.
(** Two dots pass the pattern of paths, which a comment says they do not. *)
Example dots_pass : arg_ok "HEAD:contracts/../../x" = true.
Proof. reflexivity. Qed.

(** A git that obeys an option given as an argument, and one that has none. *)
Lemma cmdBreaking_git_args_witness :
  let plain := repo "contracts/a.json" "{}" in
  let obeying args :=
    if existsb (fun a => has_prefix a "-" && negb (fixed a)) args then Ran "injected" else plain args in
  cmdBreaking plain_float no_yaml plain (Some ["contracts/a.json"]) (fun _ => Some "{}") "--output=x" =
  cmdBreaking plain_float no_yaml obeying (Some ["contracts/a.json"]) (fun _ => Some "{}") "--output=x".
Proof.
  intros plain obeying. apply cmdBreaking_git_args. intros args Hargs. unfold obeying.
  destruct (existsb _ args) eqn:E; [|done]. exfalso.
  apply existsb_exists in E as (a & Ha & Hd). apply andb_true_iff in Hd as [Hp Hn].
  rewrite Forall_forall in Hargs. destruct (Hargs a) as [Hf|(c & l & El & Hc & _)]; [by apply list_elem_of_In| |].
  - by rewrite Hf in Hn.
  - destruct a as [|c' a]; [done|]. injection El as -> _.
    cbn [has_prefix] in Hp. rewrite andb_true_r in Hp. apply Ascii.eqb_eq in Hp as <-. vm_compute in Hc. discriminate Hc.
Defined.
End BreakingProps.
