(* ===== verification/ContractLint.v ===== *)
(** * The other contract gates (src/tools/contractlint/main.go)

    [Tree] is the file tree the tool runs in, with filepath.Glob, filepath.Walk
    and the reads it uses.  [Lint] holds the subcommands validate,
    sync-infra-scan and deployable-scan.  YAML, the JSON Schema library, the
    text of floats and the lower case of letters beyond ASCII are parameters.
    The theorems: what a pass of validate says of the examples, fixtures and
    migrations; when the two scans pass; which code a negative fixture gets;
    which names the scans can not miss and which they miss. *)

From Stdlib Require Import SpecFloat.
From S2P Require Import Prelude GoStd GoJson GoUnmarshal GoTime GoFloat GoHttp GoText Contract.

(** ** Files *)

Module Tree.
Import GoString GoText.

(** An entry whose content or listing can not be read is [None].  Entries are
    in the order of their names. *)
#[warnings="-register-all,-automation"]
Inductive Node : Type :=
| File (content : option string)
| Dir (entries : option (list (string * Node))).
(** A path is the list of its components. *)
Definition Path : Type := list string.
Definition base_name (p : Path) : string := default "" (last p).

Definition children (n : Node) : list (string * Node) :=
  match n with Dir (Some es) => es | _ => [] end.
(** os.Stat *)
Fixpoint node_at (n : Node) (p : Path) : option Node :=
  match p with
  | [] => Some n
  | c :: p' => match Breaking.entry (children n) c with Some n' => node_at n' p' | None => None end
  end.
(** os.ReadFile *)
Definition read_file (root : Node) (p : Path) : option string :=
  match node_at root p with Some (File c) => c | _ => None end.

(** A pattern of path.Match whose only special character is the star. *)
Definition star_re (pat : string) : Regex.re :=
  fold_right (fun c r => Regex.RSeq (if Ascii.eqb c "*" then Regex.RStar (Regex.RSet (fun x => negb (Ascii.eqb x "/")))
                                     else Regex.char c) r) Regex.REps (bytes_of_string pat).
Definition matches (pat name : string) : bool := Regex.match_full (star_re pat) name.
(** filepath.Glob, component by component. *)
Fixpoint glob (n : Node) (pats : list string) : list Path :=
  match pats with
  | [] => [[]]
  | pat :: pats' =>
      concat (map (fun e => map (cons e.1) (glob e.2 pats'))
                  (List.filter (fun e => matches pat e.1) (children n)))
  end.

(** The calls filepath.Walk makes; a directory named in [skip] is left out
    with what it holds. *)
Inductive Visit : Type :=
| OnDir (p : Path)
| OnFile (p : Path)
| OnError (p : Path).
Fixpoint walk (skip : string -> bool) (p : Path) (n : Node) {struct n} : list Visit :=
  match n with
  | File _ => [OnFile p]
  | Dir es =>
      if skip (base_name p) then []
      else OnDir p :: match es with
                      | None => [OnError p]
                      | Some es => concat (map (fun e => walk skip (p ++ [e.1]) e.2) es)
                      end
  end.
Definition walk_at (root : Node) (p : Path) : list Visit :=
  match node_at root p with Some n => walk (fun _ => false) p n | None => [OnError p] end.
End Tree.

(** ** The subcommands *)

(** [strings.ToLower]. *)
Definition plain_text (s : string) : Prop := Forall (fun c => (N_of_ascii c < 128)%N) (bytes_of_string s).
Class CaseMap : Type := {
  ToLower : string -> string;
  ToLower_ascii s : plain_text s -> ToLower s = to_lower s;
}.

Module Lint.
Import GoString GoText Breaking Tree.

Definition maxPayloadBytes : Z := Z.shiftl 1 20.
Definition maxPayloadDepth : Z := 64.
Definition forbiddenKeyPatterns : list string :=
  ["prompt"; "credential"; "secret"; "api_key"; "apikey"; "password";
   "tool_parameter"; "toolparam"; "model_response"; "agent_message";
   "routing_table"; "cascade_path"; "backend_health"; "candidate_model"].

(** *** sync-infra-scan *)

Definition foldAlts (ws : list string) : Regex.re := Regex.alts (map Regex.fold_word ws).
Definition two_words (a b : string) : Regex.re :=
  Regex.RSeq (Regex.fold_word a) (Regex.RSeq (Regex.opt (Regex.one_of "- ")) (Regex.fold_word b)).
Definition plural (a : string) : Regex.re := Regex.RSeq (Regex.fold_word a) (Regex.opt (Regex.fold_word "s")).
Definition syncVerbRe : Regex.re :=
  Regex.alts (map Regex.fold_word ["create"; "provision"; "deploy"; "allocate"; "resize"] ++
              [two_words "scale" "out"; two_words "spin" "up"] ++ map Regex.fold_word ["launch"; "destroy"]).
Definition syncNounRe : Regex.re :=
  Regex.alts (map plural ["gpu"; "node"; "cluster"; "instance"; "machine"; "vm"] ++
              [Regex.fold_word "infrastructure"; plural "hardware accelerator"]).
Definition syncAllowRe : Regex.re := foldAlts ["async"; "placement plan"; "control-plane"; "plan id"; "proposal"].

(** A space between a small letter or digit and a capital.  Matches of the
    pattern do not overlap. *)
Fixpoint split_camel (s : string) : string :=
  match s with
  | String a ((String b _) as s') =>
      if (Regex.in_range "a" "z" a || Regex.digit a) && Regex.in_range "A" "Z" b
      then String a (String " " (split_camel s')) else String a (split_camel s')
  | _ => s
  end.
Definition syncNormalize `{CaseMap} (s : string) : string := ToLower (split_camel s).

Definition syncInfraViolation `{CaseMap} (method path opID summary desc : string) : bool :=
  let pathNorm := syncNormalize path in
  let idNorm := syncNormalize opID in
  let proseNorm := syncNormalize (summary +:+ " " +:+ desc) in
  let pathVerb := match_word syncVerbRe pathNorm in
  let pathNoun := match_word syncNounRe pathNorm in
  let idVerb := match_word syncVerbRe idNorm in
  let idNoun := match_word syncNounRe idNorm in
  let postOnInfraNoun := ((method =s "post") || (method =s "put") || (method =s "patch")) && pathNoun in
  let namingLevel := (pathVerb && pathNoun) || (idVerb && idNoun) || (idVerb && pathNoun) || (pathVerb && idNoun) in
  let proseLevel := match_word syncVerbRe proseNorm &&
    match_word syncNounRe (pathNorm +:+ " " +:+ idNorm +:+ " " +:+ proseNorm) &&
    negb (match_word syncAllowRe proseNorm) in
  postOnInfraNoun || namingLevel || proseLevel.

(** [s, _ := m[k].(string)] *)
Definition str_member (m : list (string * Doc)) (k : string) : string :=
  match entry m k with Some (DScalar (Str s)) => s | _ => "" end.
(** The operations of a path item that the scans look at. *)
Definition operation (method : string) (op : Doc) : option (list (string * Doc)) :=
  match op with
  | DMap m => if method =s "parameters" then None else Some m
  | _ => None
  end.

Inductive SyncHit : Type :=
| Unparseable (f : Path)
| Creates (f : Path) (method path : string).

Section Scans.
Context `{CM : CaseMap}.
(** yaml.Unmarshal into a struct with the member paths. *)
Context (yaml_paths : string -> option (list (string * list (string * Doc)))).

Definition scan_operation (f : Path) (p : string) (mo : string * Doc) : list SyncHit :=
  match operation mo.1 mo.2 with
  | Some m =>
      if syncInfraViolation mo.1 p (str_member m "operationId") (str_member m "summary") (str_member m "description")
      then [Creates f mo.1 p] else []
  | None => []
  end.
Definition scan_file (root : Node) (f : Path) : list SyncHit :=
  match read_file root f with
  | None => []
  | Some raw =>
      match yaml_paths raw with
      | None => [Unparseable f]
      | Some paths => concat (map (fun po => concat (map (scan_operation f po.1) po.2)) paths)
      end
  end.
Definition corpus (root : Node) : list Path :=
  concat (map (fun dir => glob root [contractsDir; dir; "v*"; "*.yaml"] ++ glob root [contractsDir; dir; "*"; "*.yaml"])
              ["openapi"; "protocols"]).
(** The hits; the scan passes when there are none. *)
Definition cmdSyncInfraScan (root : Node) : list SyncHit := concat (map (scan_file root) (corpus root)).

(** *** deployable-scan *)

Definition fabricMarkers : list string :=
  ["mcpfabric"; "a2afabric"; "placementfabric"; "mcp-gateway"; "a2a-gateway"; "placement-fabric"].
(** filepath.Ext *)
Definition ext (name : string) : string :=
  match cut_last "." name with Some (_, e) => "." +:+ e | None => "" end.
Definition dash (c : ascii) : ascii := if Ascii.eqb c "_" || Ascii.eqb c "." then "-"%char else c.
Definition matchesFabricMarker (name : string) (markers : list string) : bool :=
  let n := replace_bytes dash (ToLower (trim_suffix name (ext name))) in
  existsb (contains n) markers.

Definition is_yaml (name : string) : bool := has_suffix name ".yaml" || has_suffix name ".yml".
Definition path_text (p : Path) : string := join "/" p.
Definition referencesFabricBinary (root : Node) (p : Path) (markers : list string) : bool :=
  match read_file root p with
  | None => false
  | Some raw =>
      let s := ToLower raw in
      existsb (fun m => contains s m &&
        (negb (is_yaml (ToLower (path_text p))) || contains s "apiversion:" || contains s "kind:")) markers
  end.
Definition deploy_file (name : string) : bool :=
  let base := ToLower name in
  contains base "dockerfile" || contains base "containerfile" || has_suffix base ".yaml" || has_suffix base ".yml".
Definition skipped (name : string) : bool := str_mem name [".git"; "node_modules"; "dist"].

Inductive DeployHit : Type :=
| RuntimeDir (p : Path)
| DeployUnit (p : Path).
Definition on_visit (root : Node) (v : Visit) : list DeployHit :=
  match v with
  | OnDir p => if matchesFabricMarker (base_name p) fabricMarkers then [RuntimeDir p] else []
  | OnFile p => if deploy_file (base_name p) && referencesFabricBinary root p fabricMarkers then [DeployUnit p] else []
  | OnError _ => []
  end.
(** The root is visited as [.], a name without a marker. *)
Definition cmdDeployableScan (root : Node) : list DeployHit :=
  concat (map (on_visit root) (walk skipped [] root)).
End Scans.

(** *** validate: schemas and examples *)

(** filepath.Join of relative paths. *)
Fixpoint clean_from (acc : list string) (cs : list string) : Path :=
  match cs with
  | [] => List.rev acc
  | c :: cs' =>
      if (c =s "") || (c =s ".") then clean_from acc cs'
      else if c =s ".." then
        match acc with
        | a :: acc' => if a =s ".." then clean_from (c :: acc) cs' else clean_from acc' cs'
        | [] => clean_from [c] cs'
        end
      else clean_from (c :: acc) cs'
  end.
Definition clean (cs : list string) : Path := clean_from [] cs.
Definition split_path (s : string) : list string := split_at "/" s.
Definition join2 (a b : string) : string := path_text (clean (split_path a ++ split_path b)).

Definition schemas_dir : Path := [contractsDir; "schemas"; "v1"].
Definition valid_dir : Path := [contractsDir; "examples"; "valid"].
(** [try]: whether a schema of that name exists. *)
Definition try_schema (root : Node) (rel : string) : bool :=
  match node_at root (clean (schemas_dir ++ split_path rel)) with Some _ => true | None => false end.

Definition exampleSchemaOverrides : list (string * string) := [("cloudevents-published", "cloudevents-envelope.json")].
Definition first_existing (root : Node) (rels : list string) : option string := List.find (try_schema root) rels.
(** Before the first hyphen and after it, when it is not the first byte. *)
Definition cut_hyphen (s : string) : option (string * string) :=
  match cut "-" s with
  | (a, b, true) => if a =s "" then None else Some (a, b)
  | _ => None
  end.
Definition exampleSchemaFor (root : Node) (name : string) : string :=
  let base := trim_suffix name ".json" in
  match entry exampleSchemaOverrides base with
  | Some m => m
  | None =>
      default "" (first_existing root
        ([base +:+ ".json"; first_part "-" base +:+ ".json"] ++
         match cut_hyphen base with
         | Some (dir, rest) =>
             [join2 dir (rest +:+ ".json")] ++
             (match cut_hyphen rest with Some (sub, _) => [join2 dir (sub +:+ ".json")] | None => [] end) ++
             [dir +:+ ".json"]
         | None => []
         end))
  end.
Definition module_schema (root : Node) (module rest : string) : option string :=
  let name := trim_suffix rest ".json" in
  first_existing root
    ([join2 module (name +:+ ".json")] ++
     match cut_last "-" name with
     | Some (stem, _) => if stem =s "" then [] else [join2 module (stem +:+ ".json")]
     | None => []
     end).
(** filepath.Rel to the directory of the valid examples. *)
Definition below_valid (p : Path) : option Path :=
  if bool_decide (take 3 p = valid_dir) then Some (skipn 3 p) else None.
Definition exampleSchemaForPath (root : Node) (p : Path) : string :=
  let by_name := exampleSchemaFor root (base_name p) in
  match below_valid p with
  | Some (module :: (r :: rest)) =>
      if has_prefix module ".." then by_name
      else default by_name (module_schema root module (path_text (r :: rest)))
  | _ => by_name
  end.

Definition json_files (root : Node) (dir : Path) : list Path :=
  glob root (dir ++ ["*.json"]) ++ glob root (dir ++ ["*"; "*.json"]).
(** [None]: no schema at the top level. *)
Definition schemaGlob (root : Node) : option (list Path) :=
  match glob root (schemas_dir ++ ["*.json"]) with
  | [] => None
  | _ => Some (json_files root schemas_dir)
  end.
Definition schemaRelPath (p : Path) : string := path_text (skipn 3 p).
Definition schema_url (rel : string) : string := "https://contracts.saoaf.dev/schemas/v1/" +:+ rel.

(** [jsonDepth] *)
Fixpoint jsonDepth (d : Doc) : Z :=
  match d with
  | DMap fs => 1 + fold_right (fun kv m => Z.max (jsonDepth kv.2) m) 0 fs
  | DList l => 1 + fold_right (fun x m => Z.max (jsonDepth x) m) 0 l
  | _ => 1
  end.

Definition classifySchemaError (msg : string) : string :=
  if contains msg "additional properties" && contains msg "not allowed" then "VALIDATION_UNKNOWN_FIELD"
  else if contains msg "value must be" then "VALIDATION_INVALID_ENUM"
  else if contains msg "missing property" then "VALIDATION_MISSING_REQUIRED"
  else "SEMANTIC_INVALID".

(** A fixture; [fx_Input] is the text of the member as it stands in the file. *)
Record negativeFixture : Type := MkFixture {
  fx_Schema : string; fx_Input : string; fx_PadToBytes : Z; fx_ExpectedErr : string }.

(** The members of an object with the text of each value, after the brace. *)
Fixpoint raw_members (n : nat) (s : list ascii) : list (string * string) :=
  match n, skip_ws s with
  | S n', "034"%char :: s1 =>
      match str_lit s1 with
      | Some (k, s2) =>
          match skip_ws s2 with
          | ":"%char :: s3 =>
              let s3 := skip_ws s3 in
              match value (S (2 * length s3)) 0 s3 with
              | Some (_, s4) =>
                  (k, String.string_of_list_ascii (take (length s3 - length s4) s3)) ::
                  match skip_ws s4 with
                  | ","%char :: s5 => raw_members n' s5
                  | _ => []
                  end
              | None => []
              end
          | _ => []
          end
      | None => []
      end
  | _, _ => []
  end.
(** An int; an error leaves it as it was. *)
Definition int_value : decoder Z := fun old j =>
  match j with
  | JNull => (false, old)
  | JNum lit => match atoi lit with Some z => (false, z) | None => (true, old) end
  | _ => (true, old)
  end.
(** [json.Unmarshal(raw, &fx)]; [None] is an error. *)
Definition decode_fixture (raw : string) : option negativeFixture :=
  j ← unmarshal raw;
  fs ← struct_members j;
  let '(bad1, _) := field string_value "" "case" fs in
  let '(bad2, schema) := field string_value "" "schema" fs in
  let '(bad3, pad) := field int_value 0 "pad_to_bytes" fs in
  let '(bad4, expected) := field string_value "" "expected_error_code" fs in
  let raws := raw_members (String.length raw) (tail (skip_ws (bytes_of_string raw))) in
  let input := default "" (snd <$> last (List.filter (fun kv => names "input" kv.1) raws)) in
  if (bad1 || bad2) || (bad3 || bad4) then None else Some (MkFixture schema input pad expected).

Definition repeat_p (n : Z) : string := String.string_of_list_ascii (repeat "p"%char (Z.to_nat n)).
Definition padded (fx : negativeFixture) : string :=
  if 0 <? fx_PadToBytes fx then replace_first "@pad@" (repeat_p (fx_PadToBytes fx)) (fx_Input fx) else fx_Input fx.

Section Schemas.
Context {Compiler Sch : Type}.
(** The JSON Schema library: a new compiler that asserts formats, AddResource
    and Compile, whose errors are [None], and Validate, which answers an error
    text. *)
Context (AddResource : Compiler -> string -> Doc -> option Compiler)
  (Compile : Compiler -> string -> option Sch) (Validate : Sch -> Doc -> option string).
Context (parse_float : string -> Float64.t).

Definition json_doc (raw : string) : option Doc := of_json parse_float <$> unmarshal raw.

Fixpoint load_schemas (root : Node) (c : Compiler) (fs : list Path) : option Compiler :=
  match fs with
  | [] => Some c
  | f :: fs' =>
      raw ← read_file root f;
      doc ← json_doc raw;
      c' ← AddResource c (schema_url (schemaRelPath f)) doc;
      load_schemas root c' fs'
  end.
Definition schemaFor (c : Compiler) (stem : string) : option Sch := Compile c (schema_url stem).

Definition validateExample (root : Node) (c : Compiler) (stem : string) (p : Path) : bool :=
  match read_file root p with
  | None => false
  | Some raw =>
      if maxPayloadBytes <? len raw then false
      else match json_doc raw with
           | None => false
           | Some doc =>
               if maxPayloadDepth <? jsonDepth doc then false
               else match schemaFor c stem with
                    | None => false
                    | Some s => match Validate s doc with None => true | Some _ => false end
                    end
           end
  end.

(** The code a payload is refused with, [None] when it is accepted or the
    schema does not compile. *)
Definition refusal (c : Compiler) (schema input : string) (doc : Doc) : option string :=
  if maxPayloadBytes <? len input then Some "VALIDATION_PAYLOAD_TOO_LARGE"
  else if maxPayloadDepth <? jsonDepth doc then Some "VALIDATION_PAYLOAD_TOO_DEEP"
  else s ← schemaFor c schema; classifySchemaError <$> Validate s doc.
Definition checkNegative (root : Node) (c : Compiler) (p : Path) : bool :=
  match raw ← read_file root p; decode_fixture raw with
  | None => false
  | Some fx =>
      if fx_ExpectedErr fx =s "" then false
      else match json_doc (padded fx) with
           | None => false
           | Some doc =>
               match refusal c (fx_Schema fx) (padded fx) doc with
               | None => false
               | Some code => code =s fx_ExpectedErr fx
               end
           end
  end.
End Schemas.

(** *** validate: texts of contracts, migrations and APIs *)

Inductive Problem : Type :=
| Unmapped (p : Path)
| BadExample (p : Path)
| Uncovered (p : Path)
| BadNegative (p : Path)
| UnmappedConsumer (p : Path)
| BadConsumer (p : Path)
| Forbidden (p : Path) (pat : string)
| Destructive (p : Path) (pat : string)
| NotYaml (p : Path)
| WrongVersion (p : Path)
| NoPaths (p : Path)
| NoErrorResponse (p : Path)
| NoEnvelope (p : Path) (method path code : string).

Definition dquote : string := String "034" "".
Definition needles (pat : string) : list string :=
  [dquote +:+ pat +:+ dquote; dquote +:+ pat +:+ "_"; "_" +:+ pat +:+ dquote; dquote +:+ pat +:+ "-"].
Definition forbidden_in `{CaseMap} (raw : string) : list string :=
  List.filter (fun pat => existsb (contains (ToLower raw)) (needles pat)) forbiddenKeyPatterns.
(** [None] stops the walk with an error. *)
Definition forbidden_visit `{CaseMap} (root : Node) (v : Visit) : option (list Problem) :=
  match v with
  | OnDir _ => Some []
  | OnError _ => None
  | OnFile p => raw ← read_file root p; Some (map (Forbidden p) (forbidden_in raw))
  end.
(** The results of all, unless one is an error. *)
Definition collect {A B} (f : A -> option (list B)) (l : list A) : option (list B) :=
  fold_right (fun a acc => x ← f a; rest ← acc; Some (x ++ rest)) (Some []) l.
Definition walkForbidden `{CaseMap} (root : Node) (dir : Path) : option (list Problem) :=
  collect (forbidden_visit root) (walk_at root dir).

Definition isContractPhase (raw : string) : bool := contains raw "-- +goose contract".
Definition splitUpSection (raw : string) : string := default raw (before "-- +goose Down" raw).
(** Upper case is ASCII's: no other letter becomes one of the letters searched
    for. *)
Definition matchesOutsideComments (raw needle : string) : bool :=
  let n := to_upper needle in
  existsb (fun line => let trimmed := trim_space line in
             negb (has_prefix trimmed "--") && contains trimmed n)
    (split_at "010" (to_upper raw)).
Definition destructive : list string := ["DROP TABLE"; "DROP COLUMN"; "ALTER TYPE"; "RENAME TO"].
Definition lint_migration (root : Node) (m : Path) : option (list Problem) :=
  raw ← read_file root m;
  if isContractPhase raw then Some []
  else Some (map (Destructive m) (List.filter (matchesOutsideComments (splitUpSection raw)) destructive)).

Record openapiDoc : Type := MkOpenapi {
  oa_OpenAPI : string; oa_Paths : list (string * list (string * Doc)); oa_Responses : list (string * Doc) }.

Section OpenAPI.
(** The JSON texts of a float, with an error for those that have none, and of
    an instant; yaml.Unmarshal into an openapiDoc. *)
Context (float_json : Float64.t -> option string) (time_json : Z -> string -> string).
Context (yaml_openapi : string -> option openapiDoc).

(** [json.Marshal] of a decoded document; a map[any]any is an error. *)
Fixpoint doc_json (d : Doc) : option json :=
  match d with
  | DScalar Null => Some JNull
  | DScalar (Bool b) => Some (JBool b)
  | DScalar (Int z) => Some (JNum (dec z))
  | DScalar (Float f) => JNum <$> float_json f
  | DScalar (Str s) => Some (JStr s)
  | DScalar (Time t z) => Some (JStr (time_json t z))
  | DList l => JArr <$> mapM doc_json l
  | DMap fs =>
      let below := map (fun kv => (kv.1, doc_json kv.2)) fs in
      JObj <$> mapM (fun k => pair k <$> mjoin (entry below k)) (sort_strings (keys fs))
  | DAny _ => None
  end.
Definition blob (d : Doc) : string := default "" (marshal <$> doc_json d).

Definition has_envelope (responses : list (string * Doc)) (r : Doc) : bool :=
  let named :=
    match r with
    | DMap m =>
        match entry m "$ref" with
        | Some (DScalar (Str ref)) =>
            match entry responses (trim_prefix ref "#/components/responses/") with
            | Some d => blob d
            | None => ""
            end
        | _ => ""
        end
    | _ => ""
    end in
  let text := blob r +:+ named in
  contains text "Error" || contains text "error-envelope".
Definition lint_response (p : Path) (doc : openapiDoc) (path method : string) (cr : string * Doc) : list Problem :=
  if (has_prefix cr.1 "4" || has_prefix cr.1 "5") && negb (has_envelope (oa_Responses doc) cr.2)
  then [NoEnvelope p method path cr.1] else [].
Definition lint_operation (p : Path) (doc : openapiDoc) (path : string) (mo : string * Doc) : list Problem :=
  match m ← operation mo.1 mo.2; entry m "responses" with
  | Some (DMap resps) => concat (map (lint_response p doc path mo.1) resps)
  | _ => []
  end.
Definition lint_doc (p : Path) (doc : openapiDoc) : list Problem :=
  (if has_prefix (oa_OpenAPI doc) "3.1" then [] else [WrongVersion p]) ++
  match oa_Paths doc with [] => [NoPaths p] | _ => [] end ++
  match entry (oa_Responses doc) "Error" with Some _ => [] | None => [NoErrorResponse p] end ++
  concat (map (fun po => concat (map (lint_operation p doc po.1) po.2)) (oa_Paths doc)).
Definition lintOpenAPI (root : Node) (p : Path) : option (list Problem) :=
  raw ← read_file root p;
  Some match yaml_openapi raw with None => [NotYaml p] | Some doc => lint_doc p doc end.
End OpenAPI.

(** *** validate *)

Inductive Verdict : Type :=
| Pass
| Problems (l : list Problem)
| Fail.

Section Validate.
Context {Compiler Sch : Type} `{CM : CaseMap}.
Context (NewCompiler : Compiler) (AddResource : Compiler -> string -> Doc -> option Compiler)
  (Compile : Compiler -> string -> option Sch) (Validate : Sch -> Doc -> option string)
  (parse_float : string -> Float64.t) (float_json : Float64.t -> option string)
  (time_json : Z -> string -> string) (yaml_openapi : string -> option openapiDoc).

Definition example_problems (unmapped bad : Path -> Problem) (root : Node) (c : Compiler) (p : Path) : list Problem :=
  let stem := exampleSchemaForPath root p in
  if stem =s "" then [unmapped p]
  else if validateExample Compile Validate parse_float root c stem p then [] else [bad p].
Definition uncovered (root : Node) (examples : list Path) : list Problem :=
  concat (map (fun v => match v with
                        | OnFile p =>
                            if has_suffix (path_text p) ".json" && negb (bool_decide (p ∈ examples))
                            then [Uncovered p] else []
                        | _ => []
                        end) (walk_at root valid_dir)).

Definition examples_of (root : Node) : list Path := json_files root valid_dir.
Definition negatives_of (root : Node) : list Path := glob root [contractsDir; "examples"; "negative"; "*.json"].
Definition consumers_of (root : Node) : list Path :=
  glob root [contractsDir; "compatibility"; "*"; "consumer-fixtures"; "*.json"].
Definition migrations_of (root : Node) : list Path := glob root ["migrations"; "*.sql"].
Definition apis_of (root : Node) : list Path :=
  glob root [contractsDir; "openapi"; "v*"; "*.yaml"] ++ glob root [contractsDir; "protocols"; "*"; "*.yaml"].

Definition all_problems (root : Node) (c : Compiler) : option (list Problem) :=
  let examples := examples_of root in
  forbidden ← walkForbidden root [contractsDir];
  ddl ← collect (lint_migration root) (migrations_of root);
  apis ← collect (lintOpenAPI float_json time_json yaml_openapi root) (apis_of root);
  Some (concat (map (example_problems Unmapped BadExample root c) examples) ++
        uncovered root examples ++
        concat (map (fun p => if checkNegative Compile Validate parse_float root c p then [] else [BadNegative p])
                    (negatives_of root)) ++
        concat (map (example_problems UnmappedConsumer BadConsumer root c) (consumers_of root)) ++
        forbidden ++ ddl ++ apis).
Definition cmdValidate (root : Node) : Verdict :=
  match schemaFiles ← schemaGlob root; load_schemas AddResource parse_float root NewCompiler schemaFiles with
  | None => Fail
  | Some c =>
      match all_problems root c with
      | None => Fail
      | Some [] => Pass
      | Some l => Problems l
      end
  end.
End Validate.
End Lint.

(** ** Properties *)

Module LintProps.
Import GoString GoText Breaking BreakingWalk Tree Lint.

(** *** The walk over a tree *)

Section NodeInd.
Context (P : Node -> Prop) (Hfile : forall c, P (File c)) (Hlocked : P (Dir None))
  (Hdir : forall es, Forall (fun e => P e.2) es -> P (Dir (Some es))).
Fixpoint node_nested (n : Node) : P n :=
  match n with
  | File c => Hfile c
  | Dir None => Hlocked
  | Dir (Some es) => Hdir es ((fix go l : Forall (fun e => P e.2) l :=
      match l with [] => Forall_nil_2 _ | e :: l' => Forall_cons_2 _ e _ (node_nested e.2) (go l') end) es)
  end.
End NodeInd.

(** What lies at or below an entry, outside the skipped directories. *)
Inductive reaches (skip : string -> bool) : Path -> Node -> Path -> Node -> Prop :=
| reach_file p c : reaches skip p (File c) p (File c)
| reach_dir p es : skip (base_name p) = false -> reaches skip p (Dir es) p (Dir es)
| reach_below p es e q n : skip (base_name p) = false -> e ∈ es ->
    reaches skip (p ++ [e.1]) e.2 q n -> reaches skip p (Dir (Some es)) q n.

Definition visit_of (v : Visit) (n : Node) : Prop :=
  match v, n with
  | OnFile _, File _ => True
  | OnDir _, Dir _ => True
  | OnError _, Dir None => True
  | _, _ => False
  end.
Definition visit_path (v : Visit) : Path := match v with OnDir p | OnFile p | OnError p => p end.

Lemma walk_spec skip p n v :
  v ∈ walk skip p n <-> exists n', reaches skip p n (visit_path v) n' /\ visit_of v n'.
Proof.
  revert p. induction n as [c| |es IH] using node_nested; intros p; cbn [walk].
  - rewrite list_elem_of_singleton. split.
    + intros ->. exists (File c). by split; [constructor|].
    + intros (n' & Hr & Hv). inversion Hr; subst. destruct v as [q|q|q]; by simpl in *; subst.
  - destruct (skip (base_name p)) eqn:Es.
    + split; [by intros ?%elem_of_nil|]. intros (n' & Hr & _). inversion Hr; congruence.
    + rewrite !elem_of_cons, elem_of_nil. split.
      * intros [->|[->|[]]]; exists (Dir None); (split; [by constructor|done]).
      * intros (n' & Hr & Hv). inversion Hr; subst. destruct v; simpl in *; subst; tauto.
  - destruct (skip (base_name p)) eqn:Es.
    + split; [by intros ?%elem_of_nil|]. intros (n' & Hr & _). inversion Hr; congruence.
    + rewrite elem_of_cons, (list_elem_of_In (concat _) v), in_concat. setoid_rewrite in_map_iff.
      setoid_rewrite <- list_elem_of_In. rewrite Forall_forall in IH. split.
      * intros [->|(l & (e & <- & He) & Hv)].
        -- exists (Dir (Some es)). by split; [constructor|].
        -- apply (IH e He) in Hv as (n' & Hr & Hv). exists n'. split; [by eapply reach_below|done].
      * intros (n' & Hr & Hv). inversion Hr; subst.
        -- left. destruct v; simpl in *; by subst.
        -- right. eexists. split; [eexists; split; [reflexivity|eassumption]|]. apply IH; [done|]. eauto.
Qed.

Lemma concat_nil {A B} (f : A -> list B) l : concat (map f l) = [] <-> forall a, a ∈ l -> f a = [].
Proof.
  induction l as [|a l IH]; simpl.
  - split; [by intros _ ? ?%elem_of_nil|done].
  - split.
    + intros [Ha Hl]%app_eq_nil b [->|Hb]%elem_of_cons; [done|]. by apply IH.
    + intros H. rewrite H by left. apply IH. intros b Hb. apply H. by right.
Qed.

(** The deployable scan passes exactly when no directory outside .git,
    node_modules and dist has a name with a marker of a contract-only module,
    and no readable container or YAML file there refers to one. *)
Theorem deployable_passes `{CM : CaseMap} root :
  cmdDeployableScan root = [] <->
  forall p n, reaches skipped [] root p n ->
    match n with
    | Dir _ => matchesFabricMarker (base_name p) fabricMarkers = false
    | File _ => deploy_file (base_name p) = true -> referencesFabricBinary root p fabricMarkers = false
    end.
Proof.
  unfold cmdDeployableScan. rewrite concat_nil. setoid_rewrite walk_spec. split.
  - intros H p n Hr. destruct n as [c|es].
    + specialize (H (OnFile p) (ex_intro _ _ (conj Hr I))). cbn [on_visit] in H. intros Hd. rewrite Hd in H.
      by destruct (referencesFabricBinary root p fabricMarkers).
    + specialize (H (OnDir p) (ex_intro _ _ (conj Hr I))). cbn [on_visit] in H. by destruct (matchesFabricMarker _ _).
  - intros H v (n & Hr & Hv). apply H in Hr. destruct v as [p|p|p], n as [c|es]; try done; cbn [on_visit visit_path] in *.
    + by rewrite Hr.
    + destruct (deploy_file (base_name p)); [|done]. by rewrite Hr.
Qed.

(** The scan for synchronous interfaces passes exactly when every readable
    file of the corpus parses and no operation in it is a violation. *)
Theorem sync_passes `{CM : CaseMap} yaml_paths root :
  cmdSyncInfraScan yaml_paths root = [] <->
  forall f raw, f ∈ corpus root -> read_file root f = Some raw ->
    exists paths, yaml_paths raw = Some paths /\
      forall path ops method op m, (path, ops) ∈ paths -> (method, op) ∈ ops -> operation method op = Some m ->
        syncInfraViolation method path (str_member m "operationId") (str_member m "summary")
          (str_member m "description") = false.
Proof.
  unfold cmdSyncInfraScan. rewrite concat_nil. unfold scan_file, scan_operation. split.
  - intros H f raw Hf Hr. specialize (H f Hf). rewrite Hr in H. destruct (yaml_paths raw) as [paths|]; [|done].
    exists paths. split; [done|]. rewrite concat_nil in H.
    intros path ops method op m Hp Ho Hm. specialize (H _ Hp). rewrite concat_nil in H. specialize (H _ Ho).
    simpl in H. rewrite Hm in H. by destruct (syncInfraViolation _ _ _ _ _).
  - intros H f Hf. destruct (read_file root f) as [raw|] eqn:Er; [|done].
    destruct (H f raw Hf Er) as (paths & -> & Hp). apply concat_nil. intros [path ops] Hin.
    apply concat_nil. intros [method op] Ho. simpl.
    destruct (operation method op) as [m|] eqn:Em; [|done]. by rewrite (Hp _ _ _ _ _ Hin Ho Em).
Qed.

(** *** validate *)

Lemma collect_nil {A B} (f : A -> option (list B)) l :
  collect f l = Some [] <-> forall a, a ∈ l -> f a = Some [].
Proof.
  induction l as [|a l IH]; simpl.
  - split; [by intros _ ? ?%elem_of_nil|done].
  - destruct (f a) as [x|] eqn:Ef; simpl.
    2: { split; [done|]. intros H. by rewrite H in Ef by left. }
    destruct (collect f l) as [rest|]; simpl.
    + split.
      * intros H. injection H as [-> ->]%app_eq_nil. intros b [->|Hb]%elem_of_cons; [done|]. by apply IH.
      * intros H. rewrite H in Ef by left. injection Ef as <-. apply IH. intros b Hb. apply H. by right.
    + split; [done|]. intros H. exfalso. destruct IH as [_ IH]. discriminate IH. intros b Hb. apply H. by right.
Qed.
Lemma filter_nil {A} (f : A -> bool) l : List.filter f l = [] <-> forall a, a ∈ l -> f a = false.
Proof.
  induction l as [|a l IH]; simpl.
  - split; [by intros _ ? ?%elem_of_nil|done].
  - destruct (f a) eqn:Ef.
    + split; [done|]. intros H. by rewrite H in Ef by left.
    + rewrite IH. split; [|intros H b Hb; apply H; by right].
      intros H b [->|Hb]%elem_of_cons; auto.
Qed.
Lemma map_nil {A B} (f : A -> B) l : map f l = [] <-> l = [].
Proof. by destruct l. Qed.

Lemma app_nil_iff {A} (a b : list A) : a ++ b = [] <-> a = [] /\ b = [].
Proof. split; [apply app_eq_nil|by intros [-> ->]]. Qed.

Section Sound.
Context {Compiler Sch : Type} `{CM : CaseMap}.
Context (NewCompiler : Compiler) (AddResource : Compiler -> string -> Doc -> option Compiler)
  (Compile : Compiler -> string -> option Sch) (Validate : Sch -> Doc -> option string)
  (parse_float : string -> Float64.t) (float_json : Float64.t -> option string)
  (time_json : Z -> string -> string) (yaml_openapi : string -> option openapiDoc).

(** A sample has a schema, is small and shallow enough, and valid. *)
Definition sample_ok (root : Node) (c : Compiler) (p : Path) : Prop :=
  exampleSchemaForPath root p <> "" /\
  exists raw doc s, read_file root p = Some raw /\ len raw <= maxPayloadBytes /\
    json_doc parse_float raw = Some doc /\ jsonDepth doc <= maxPayloadDepth /\
    schemaFor Compile c (exampleSchemaForPath root p) = Some s /\ Validate s doc = None.
(** A fixture is refused with the code it names: too large before too deep
    before the schema's own. *)
Definition negative_ok (root : Node) (c : Compiler) (p : Path) : Prop :=
  exists raw fx doc, read_file root p = Some raw /\ decode_fixture raw = Some fx /\ fx_ExpectedErr fx <> "" /\
    json_doc parse_float (padded fx) = Some doc /\
    refusal Compile Validate c (fx_Schema fx) (padded fx) doc = Some (fx_ExpectedErr fx).
Definition contract_ok (root : Node) (p : Path) : Prop :=
  exists raw, read_file root p = Some raw /\
    forall pat nd, pat ∈ forbiddenKeyPatterns -> nd ∈ needles pat -> contains (ToLower raw) nd = false.
Definition migration_ok (root : Node) (p : Path) : Prop :=
  exists raw, read_file root p = Some raw /\
    (isContractPhase raw = true \/
     forall pat, pat ∈ destructive -> matchesOutsideComments (splitUpSection raw) pat = false).
Definition api_ok (root : Node) (p : Path) : Prop :=
  exists raw doc, read_file root p = Some raw /\ yaml_openapi raw = Some doc /\
    lint_doc float_json time_json p doc = [].

Lemma example_ok unmapped bad root c p :
  example_problems Compile Validate parse_float unmapped bad root c p = [] <-> sample_ok root c p.
Proof.
  unfold example_problems, sample_ok, validateExample. cbv zeta. case_eq (exampleSchemaForPath root p =s ""); intros Es; b2p.
  { split; [done|]. by intros []. }
  destruct (read_file root p) as [raw|]; [|split; [done|by intros (_ & ? & ? & ? & ? & _)]].
  case_eq (maxPayloadBytes <? len raw); intros El; b2p.
  { split; [done|]. intros (_ & ? & ? & ? & E & ? & _). injection E as <-. lia. }
  destruct (json_doc parse_float raw) as [doc|] eqn:Ed.
  2: { split; [done|]. intros (_ & ? & ? & ? & E & _ & E' & _). congruence. }
  case_eq (maxPayloadDepth <? jsonDepth doc); intros Ej; b2p.
  { split; [done|]. intros (_ & ? & ? & ? & E & _ & E' & ? & _). replace x0 with doc in * by congruence. lia. }
  destruct (schemaFor Compile c _) as [s|] eqn:Ec.
  2: { split; [done|]. intros (_ & ? & ? & ? & _ & _ & _ & _ & E & _). congruence. }
  destruct (Validate s doc) eqn:Ev.
  - split; [done|]. intros (_ & ? & ? & ? & E & _ & E' & _ & E'' & ?). congruence.
  - split; [|done]. intros _. split; [done|]. by exists raw, doc, s.
Qed.
Lemma negative_iff root c p :
  (if checkNegative Compile Validate parse_float root c p then [] else [BadNegative p]) = [] <-> negative_ok root c p.
Proof.
  unfold checkNegative, negative_ok. destruct (read_file root p) as [raw|]; simpl.
  2: { split; [done|]. by intros (? & ? & ? & ? & _). }
  destruct (decode_fixture raw) as [fx|] eqn:Ef.
  2: { split; [done|]. intros (? & ? & ? & E & E' & _). congruence. }
  case_eq (fx_ExpectedErr fx =s ""); intros Ex; b2p.
  { split; [done|]. intros (? & ? & ? & E & E' & ? & _). congruence. }
  destruct (json_doc parse_float (padded fx)) as [doc|] eqn:Ed.
  2: { split; [done|]. intros (? & ? & ? & E & E' & _ & ? & _). congruence. }
  destruct (refusal _ _ _ _ _ _) as [code|] eqn:Er.
  2: { split; [done|]. intros (? & ? & ? & E & E' & _ & ? & ?). congruence. }
  case_eq (code =s fx_ExpectedErr fx); intros Ec; b2p.
  - split; [|done]. intros _. exists raw, fx, doc. rewrite Er, Ec. auto 6.
  - split; [done|]. intros (? & ? & ? & E & E' & _ & ? & ?). congruence.
Qed.
Lemma forbidden_iff root v :
  forbidden_visit root v = Some [] <->
  match v with OnDir _ => True | OnFile p => contract_ok root p | OnError _ => False end.
Proof.
  destruct v as [p|p|p]; cbn [forbidden_visit]; [done| |done]. unfold contract_ok.
  destruct (read_file root p) as [raw|]; cbn [mbind option_bind].
  2: { split; [done|]. by intros (? & ? & _). }
  unfold forbidden_in. split.
  - intros H. apply (inj Some) in H. exists raw. split; [done|]. intros pat nd Hp Hn.
    apply map_nil in H. rewrite filter_nil in H. specialize (H pat Hp).
    destruct (contains (ToLower raw) nd) eqn:E; [|done]. rewrite <- H. symmetry. apply existsb_exists.
    exists nd. split; [by apply list_elem_of_In|done].
  - intros (raw' & E & H). injection E as <-. f_equal. apply map_nil, filter_nil. intros pat Hp.
    destruct (existsb _ _) eqn:E; [|done]. apply existsb_exists in E as (nd & Hn & E).
    rewrite <- E. apply (H pat); [done|]. by apply list_elem_of_In.
Qed.
Lemma migration_iff root p : lint_migration root p = Some [] <-> migration_ok root p.
Proof.
  unfold lint_migration, migration_ok. destruct (read_file root p) as [raw|]; cbn [mbind option_bind].
  2: { split; [done|]. by intros (? & ? & _). }
  destruct (isContractPhase raw) eqn:Ec.
  - split; [|done]. intros _. exists raw. split; [done|]. by left.
  - split.
    + intros H. apply (inj Some), map_nil in H. rewrite filter_nil in H. exists raw. split; [done|]. by right.
    + intros (raw' & E & [H|H]); injection E as <-; [congruence|]. f_equal. by apply map_nil, filter_nil.
Qed.
Lemma api_iff root p : lintOpenAPI float_json time_json yaml_openapi root p = Some [] <-> api_ok root p.
Proof.
  unfold lintOpenAPI, api_ok. destruct (read_file root p) as [raw|]; simpl.
  2: { split; [done|]. by intros (? & ? & ? & _). }
  destruct (yaml_openapi raw) as [doc|] eqn:Ey.
  - split.
    + intros H. apply (inj Some) in H. by exists raw, doc.
    + intros (raw' & doc' & E & E' & H). f_equal. congruence.
  - split; [done|]. intros (raw' & doc' & E & E' & H). congruence.
Qed.
Lemma uncovered_nil root examples :
  uncovered root examples = [] <->
  forall p, OnFile p ∈ walk_at root valid_dir -> has_suffix (path_text p) ".json" = true -> p ∈ examples.
Proof.
  unfold uncovered. rewrite concat_nil. split.
  - intros H p Hp Hs. specialize (H _ Hp). cbv beta iota in H. rewrite Hs in H. simpl in H.
    destruct (decide (p ∈ examples)) as [|Hn]; [done|]. by rewrite bool_decide_false in H.
  - intros H [p|p|p] Hp; try done. destruct (has_suffix (path_text p) ".json") eqn:Es; [|done]. simpl.
    by rewrite bool_decide_true by auto.
Qed.
Lemma all_problems_nil root c :
  all_problems Compile Validate parse_float float_json time_json yaml_openapi root c = Some [] <->
  (forall p, OnFile p ∈ walk_at root valid_dir -> has_suffix (path_text p) ".json" = true -> p ∈ examples_of root) /\
  (forall p, p ∈ examples_of root \/ p ∈ consumers_of root -> sample_ok root c p) /\
  (forall p, p ∈ negatives_of root -> negative_ok root c p) /\
  (forall v, v ∈ walk_at root [contractsDir] ->
     match v with OnDir _ => True | OnFile p => contract_ok root p | OnError _ => False end) /\
  (forall p, p ∈ migrations_of root -> migration_ok root p) /\
  (forall p, p ∈ apis_of root -> api_ok root p).
Proof.
  rewrite <- uncovered_nil.
  assert (Hf : walkForbidden root [contractsDir] = Some [] <-> forall v, v ∈ walk_at root [contractsDir] ->
     match v with OnDir _ => True | OnFile p => contract_ok root p | OnError _ => False end).
  { unfold walkForbidden. rewrite collect_nil. by setoid_rewrite forbidden_iff. }
  assert (Hm : collect (lint_migration root) (migrations_of root) = Some [] <->
               forall p, p ∈ migrations_of root -> migration_ok root p).
  { rewrite collect_nil. by setoid_rewrite migration_iff. }
  assert (Hp : collect (lintOpenAPI float_json time_json yaml_openapi root) (apis_of root) = Some [] <->
               forall p, p ∈ apis_of root -> api_ok root p).
  { rewrite collect_nil. by setoid_rewrite api_iff. }
  rewrite <- Hf, <- Hm, <- Hp. unfold all_problems. cbv zeta. split.
  - destruct (walkForbidden root _) as [fb|]; [|done]. destruct (collect _ (migrations_of root)) as [ddl|]; [|done].
    destruct (collect _ (apis_of root)) as [apis|]; [|done]. cbn [mbind option_bind]. intros H. apply (inj Some) in H.
    rewrite !app_nil_iff, !concat_nil in H. destruct H as (H1 & H2 & H3 & H4 & -> & -> & ->).
    split; [done|]. split; [|split; [|done]].
    + intros p [Hq|Hq]; [eapply example_ok, H1|eapply example_ok, H4]; done.
    + intros p Hq. by apply negative_iff, H3.
  - intros (H1 & H2 & H3 & -> & -> & ->). cbn [mbind option_bind]. f_equal. rewrite !app_nil_r, H1.
    rewrite !app_nil_iff, !concat_nil. repeat split.
    + intros p Hq. apply example_ok. auto.
    + intros p Hq. by apply negative_iff, H3.
    + intros p Hq. apply example_ok. auto.
Qed.
End Sound.

(** C32. validate passes exactly when the schemas load; every JSON file under
    examples/valid, at any depth, is among the examples it found; every example
    and consumer sample has a schema and is valid within the limits of size and
    depth; every negative fixture is refused with the code it names; every file
    under contracts can be read and has no forbidden key; no migration outside
    the contract phase has destructive DDL before its Down section; and every
    API file lints clean. *)
Theorem validate_passes {Compiler Sch : Type} `{CM : CaseMap} (NewCompiler : Compiler) AddResource Compile
    (Validate : Sch -> Doc -> option string) parse_float float_json time_json yaml_openapi root :
  cmdValidate NewCompiler AddResource Compile Validate parse_float float_json time_json yaml_openapi root = Pass <->
  exists schemas c, schemaGlob root = Some schemas /\
    load_schemas AddResource parse_float root NewCompiler schemas = Some c /\
    (forall p, OnFile p ∈ walk_at root valid_dir -> has_suffix (path_text p) ".json" = true -> p ∈ examples_of root) /\
    (forall p, p ∈ examples_of root \/ p ∈ consumers_of root -> sample_ok Compile Validate parse_float root c p) /\
    (forall p, p ∈ negatives_of root -> negative_ok Compile Validate parse_float root c p) /\
    (forall v, v ∈ walk_at root [contractsDir] ->
       match v with OnDir _ => True | OnFile p => contract_ok root p | OnError _ => False end) /\
    (forall p, p ∈ migrations_of root -> migration_ok root p) /\
    (forall p, p ∈ apis_of root -> api_ok float_json time_json yaml_openapi root p).
Proof.
  unfold cmdValidate. destruct (schemaGlob root) as [schemas|]; simpl.
  2: { split; [done|]. by intros (? & ? & ? & _). }
  destruct (load_schemas _ _ _ _ schemas) as [c|] eqn:El.
  2: { split; [done|]. intros (? & ? & E & E' & _). congruence. }
  pose proof (all_problems_nil Compile Validate parse_float float_json time_json yaml_openapi root c) as Ha. split.
  - intros H. exists schemas, c. split; [done|]. split; [done|]. apply Ha.
    destruct (all_problems _ _ _ _ _ _ root c) as [[|x l]|]; done.
  - intros (schemas' & c' & E & E' & H). injection E as <-. rewrite El in E'. injection E' as <-.
    by rewrite (proj2 Ha H).
Qed.

(** *** Names the scan can not miss *)

Lemma split_camel_two x y s :
  split_camel (String x (String y s)) =
  if (Regex.in_range "a" "z" x || Regex.digit x) && Regex.in_range "A" "Z" y
  then String x (String " " (split_camel (String y s))) else String x (split_camel (String y s)).
Proof. reflexivity. Qed.
(** Camel case is split at capitals only, so a text without capitals that
    follows a slash stays whole. *)
Lemma split_camel_slash a b : split_camel (a +:+ String "/" b) = split_camel a +:+ String "/" (split_camel b).
Proof.
  assert (Hs : split_camel (String "/" b) = String "/" (split_camel b)).
  { destruct b as [|d b]; [done|]. rewrite split_camel_two.
    by replace (Regex.in_range "a" "z" "/" || Regex.digit "/") with false by done. }
  induction a as [|x a IH]; [apply Hs|]. destruct a as [|y a].
  - change (String x "" +:+ String "/" b) with (String x (String "/" b)). rewrite split_camel_two, Hs.
    replace (Regex.in_range "A" "Z" "/") with false by done. by rewrite andb_false_r.
  - change (String x (String y a) +:+ String "/" b) with (String x (String y (a +:+ String "/" b))).
    change (String y a +:+ String "/" b) with (String y (a +:+ String "/" b)) in IH.
    rewrite !split_camel_two, IH. by destruct (_ && _).
Qed.
Lemma split_camel_small w b :
  forallb (fun c => negb (Regex.in_range "A" "Z" c)) (bytes_of_string w) = true ->
  (b = "" \/ exists b', b = String "/" b') -> split_camel (w +:+ b) = w +:+ split_camel b.
Proof.
  intros Hw Hb. induction w as [|x w IH]; [done|].
  apply andb_true_iff in Hw as [Hx Hw]. specialize (IH Hw).
  change (String x w +:+ b) with (String x (w +:+ b)).
  change (String x w +:+ split_camel b) with (String x (w +:+ split_camel b)). rewrite <- IH.
  destruct w as [|y w].
  - change ("" +:+ b) with b. destruct Hb as [->|[b' ->]]; [done|]. rewrite split_camel_two.
    replace (Regex.in_range "A" "Z" "/") with false by done. by rewrite andb_false_r.
  - apply andb_true_iff in Hw as [Hy _]. apply negb_true_iff in Hy.
    change (String y w +:+ b) with (String y (w +:+ b)). by rewrite split_camel_two, Hy, andb_false_r.
Qed.

Lemma to_lower_app a b : to_lower (a +:+ b) = to_lower a +:+ to_lower b.
Proof.
  unfold to_lower. rewrite Sha256.bytes_of_app, map_app. induction (map lower (bytes_of_string a)) as [|c l IH]; [done|].
  simpl. exact (f_equal (String c) IH).
Qed.
Lemma plain_app a b : plain_text (a +:+ b) <-> plain_text a /\ plain_text b.
Proof. unfold plain_text. by rewrite Sha256.bytes_of_app, Forall_app. Qed.
Lemma split_camel_plain s : plain_text s -> plain_text (split_camel s).
Proof.
  unfold plain_text, bytes_of_string. induction s as [|x s IH]; [done|]. intros H. inversion H as [|? ? Hx Hs]; subst.
  specialize (IH Hs). destruct s as [|y s]; [done|]. rewrite split_camel_two.
  destruct (_ && _); by repeat constructor.
Qed.

(** The nouns of infrastructure, as the code writes them, singular and plural. *)
Definition nouns : list string :=
  ["gpu"; "node"; "cluster"; "instance"; "machine"; "vm"; "infrastructure"; "hardware accelerator";
   "gpus"; "nodes"; "clusters"; "instances"; "machines"; "vms"; "hardware accelerators"].

Lemma noun_small w : w ∈ nouns ->
  Regex.match_full syncNounRe w = true /\ to_lower w = w /\ plain_text w /\
  forallb (fun c => negb (Regex.in_range "A" "Z" c)) (bytes_of_string w) = true /\
  wordy (head (bytes_of_string w)) = true /\ wordy (last (bytes_of_string w)) = true.
Proof.
  assert (H : forallb (fun w => Regex.match_full syncNounRe w && (to_lower w =s w) &&
      forallb (fun c => N.ltb (N_of_ascii c) 128) (bytes_of_string w) &&
      forallb (fun c => negb (Regex.in_range "A" "Z" c)) (bytes_of_string w) &&
      wordy (head (bytes_of_string w)) && wordy (last (bytes_of_string w))) nouns = true) by (vm_compute; reflexivity).
  rewrite forallb_forall in H. intros Hw%list_elem_of_In%H. rewrite !andb_true_iff, String.eqb_eq in Hw.
  destruct Hw as (((((? & ?) & Hp) & ?) & ?) & ?). repeat split; try done.
  unfold plain_text. apply Forall_forall. intros c Hc. rewrite forallb_forall in Hp.
  apply N.ltb_lt, Hp. by apply list_elem_of_In.
Qed.

Lemma noun_matches `{CM : CaseMap} w a b :
  w ∈ nouns -> (b = "" \/ exists b', b = String "/" b') -> plain_text a -> plain_text b ->
  match_word syncNounRe (syncNormalize (a +:+ String "/" (w +:+ b))) = true.
Proof.
  intros Hw Hb Ha Hpb. destruct (noun_small w Hw) as (Hm & Hl & Hp & Hc & Hh & Ht).
  unfold syncNormalize. rewrite split_camel_slash, split_camel_small by done.
  rewrite ToLower_ascii.
  2: { change (String "/" (w +:+ split_camel b)) with (String "/" "" +:+ (w +:+ split_camel b)).
       rewrite !plain_app. repeat split; auto using split_camel_plain. by repeat constructor. }
  change (String "/" (w +:+ split_camel b)) with (String "/" "" +:+ (w +:+ split_camel b)).
  rewrite !to_lower_app, Hl. apply match_word_spec.
  exists (bytes_of_string (to_lower (split_camel a)) ++ ["/"%char]), (bytes_of_string w), (bytes_of_string (to_lower (split_camel b))).
  rewrite !Sha256.bytes_of_app, <- app_assoc. split; [done|]. split; [by apply Regex.full_spec|].
  rewrite last_snoc, head_app, last_app.
  destruct (bytes_of_string w) as [|c l] eqn:Ew; [done|]. rewrite <- Ew in *.
  assert (Hb' : wordy (head (bytes_of_string (to_lower (split_camel b)))) = false).
  { destruct Hb as [->|[b' ->]]; [done|]. by destruct b'. }
  rewrite Ew in Ht |- *. destruct (last (c :: l)) as [d|] eqn:El; [|done].
  unfold boundary. rewrite Ht, Hb'. rewrite Ew in Hh. simpl in Hh |- *. by rewrite Hh.
Qed.

(** A request to write to a path one of whose segments is a noun of
    infrastructure is a violation, whatever the operation is called and
    whatever its summary and description say. *)
Theorem noun_segment_refused `{CM : CaseMap} method a w b opID summary desc :
  method ∈ ["post"; "put"; "patch"] -> w ∈ nouns -> (b = "" \/ exists b', b = String "/" b') ->
  plain_text a -> plain_text b ->
  syncInfraViolation method (a +:+ String "/" (w +:+ b)) opID summary desc = true.
Proof.
  intros Hm Hw Hb Ha Hpb. unfold syncInfraViolation. cbv zeta. rewrite noun_matches by done.
  rewrite !elem_of_cons, elem_of_nil in Hm. by destruct Hm as [->|[->|[->|[]]]].
Qed.

#[local] Instance plain_case : CaseMap := {| ToLower := to_lower; ToLower_ascii _ _ := eq_refl |}.
Lemma noun_segment_refused_witness :
  syncInfraViolation "put" ("/v1/Pools" +:+ String "/" ("gpus" +:+ "/{gpuId}")) "replace" "async proposal" "plan id" = true.
Proof.
  apply noun_segment_refused; [right; left|by apply list_elem_of_In; vm_compute; tauto|right; by exists "{gpuId}"|..];
    unfold plain_text; by repeat constructor.
Defined.

(** What the naming rules miss: an initialism runs into the next word, and an
    underscore is no boundary. *)
Example camel_found : syncInfraViolation "get" "/v1/x" "createGpuNode" "" "" = true.
Proof. vm_compute. reflexivity. Qed.
Example initialism_missed : syncInfraViolation "post" "/v1/x" "createGPUNode" "" "" = false.
Proof. vm_compute. reflexivity. Qed.
Example underscore_missed : syncInfraViolation "post" "/v1/x" "create_gpu_node" "" "" = false.
Proof. vm_compute. reflexivity. Qed.

(** *** The gates at work *)

Definition plain_number (lit : string) : Float64.t := Float64.of_int (Z.of_nat (String.length lit)).
Definition file (s : string) : Node := File (Some s).
Definition dir (es : list (string * Node)) : Node := Dir (Some es).
(** A library whose schemas accept objects. *)
Definition add_resource (c : list string) (url : string) (_ : Doc) : option (list string) := Some (url :: c).
Definition compile (c : list string) (url : string) : option unit := if str_mem url c then Some tt else None.
Definition accepts (_ : unit) (d : Doc) : option string :=
  match d with DMap _ => None | _ => Some "value must be an object" end.
Definition no_openapi (_ : string) : option openapiDoc := None.
Definition run (root : Node) : Verdict :=
  cmdValidate [] add_resource compile accepts plain_number (fun _ => None) (fun _ _ => "") no_openapi root.
Definition tree (valid negative : list (string * Node)) (migration : string) : Node :=
  dir [("contracts", dir [("examples", dir [("negative", dir negative); ("valid", dir valid)]);
                          ("schemas", dir [("v1", dir [("a2a", dir [("task.json", file "{}")]); ("plan.json", file "{}")])])]);
       ("migrations", dir [("1.sql", file migration)])].
Definition fixture : string := BreakingProps.q "{'case':'c','schema':'plan.json','input':[1],'expected_error_code':'VALIDATION_INVALID_ENUM'}".

Example validate_run :
  run (tree [("a2a", dir [("task-done.json", file "{}")]); ("plan.json", file "{}"); ("plan-x.json", file "{}")]
            [("n.json", file fixture)] "ALTER TABLE t ADD c int; -- +goose Down") = Pass.
Proof. vm_compute. reflexivity. Qed.
(** An example too deep in the tree, one without a schema, a fixture that is
    accepted, a destructive migration and a forbidden key. *)
Example validate_problems :
  run (tree [("a2a", dir [("x", dir [("task.json", file "{}")])]); ("error-envelope-variant.json", file "{}");
             ("plan.json", file (BreakingProps.q "{'secret':1}"))]
            [("n.json", file (BreakingProps.q "{'schema':'plan.json','input':{},'expected_error_code':'E'}"))]
            "alter table t drop column c") =
  Problems [Unmapped ["contracts"; "examples"; "valid"; "error-envelope-variant.json"];
            Uncovered ["contracts"; "examples"; "valid"; "a2a"; "x"; "task.json"];
            BadNegative ["contracts"; "examples"; "negative"; "n.json"];
            Forbidden ["contracts"; "examples"; "valid"; "plan.json"] "secret";
            Destructive ["migrations"; "1.sql"] "DROP COLUMN"].
Proof. vm_compute. reflexivity. Qed.
(** Destructive statements the lint does not see. *)
Example ddl_missed :
  run (tree [] [] (String.concat (String "010" "") ["drop  table t;"; "alter table t drop"; "column c;"])) = Pass.
Proof. vm_compute. reflexivity. Qed.
(** The example named in the comment of exampleSchemaFor has no schema even
    when error-envelope.json is there. *)
Example variant_unmapped :
  exampleSchemaFor (dir [("contracts", dir [("schemas", dir [("v1", dir [("error-envelope.json", file "{}")])])])])
    "error-envelope-variant.json" = "".
Proof. vm_compute. reflexivity. Qed.
(** A key of a YAML file is seen by the forbidden scan only when it is quoted. *)
Example yaml_key_unseen : forbidden_in "password: hunter2" = [].
Proof. vm_compute. reflexivity. Qed.
Example quoted_key_seen : forbidden_in (BreakingProps.q "'password': hunter2") = ["password"].
Proof. vm_compute. reflexivity. Qed.
(** Too large is answered before too deep. *)
Example size_before_depth :
  refusal compile accepts [] "s" (repeat_p 1048577) (DList (repeat (DScalar Null) 3)) = Some "VALIDATION_PAYLOAD_TOO_LARGE".
Proof. vm_compute. reflexivity. Qed.

Definition gateway_deploy : string := BreakingProps.q "apiVersion: v1, image: mcp-gateway".
Example deploy_found :
  cmdDeployableScan (dir [(".git", dir [("mcpfabric", dir [])]); ("internal", dir [("A2AFabric", dir [])]);
                          ("k8s", dir [("gw.yaml", file gateway_deploy); ("notes.yaml", file "mcp-gateway")])]) =
  [RuntimeDir ["internal"; "A2AFabric"]; DeployUnit ["k8s"; "gw.yaml"]].
Proof. vm_compute. reflexivity. Qed.
(** What follows the last dot of a directory's name is taken for an extension. *)
Example dotted_missed : cmdDeployableScan (dir [("app.mcp-gateway", dir [])]) = [].
Proof. vm_compute. reflexivity. Qed.
(** A response map with a number for a key is not looked at. *)
Example number_codes_unseen :
  lint_doc (fun _ => None) (fun _ _ => "") [] (MkOpenapi "3.1.0"
    [("/x", [("get", DMap [("responses", DAny [(Int 500, DMap [])])])])] [("Error", DMap [])]) = [].
Proof. vm_compute. reflexivity. Qed.
Example text_codes_seen :
  lint_doc (fun _ => None) (fun _ _ => "") [] (MkOpenapi "3.1.0"
    [("/x", [("get", DMap [("responses", DMap [("500", DMap [])])])])] [("Error", DMap [])]) =
  [NoEnvelope [] "get" "/x" "500"].
Proof. vm_compute. reflexivity. Qed.
End LintProps.
