(* ===== verification/DevTools.v ===== *)
(** * The build tools (src/tools/boundarycheck, licensecheck, migrator)

    [Boundary] checks which module of the repository imports which,
    [License] that every dependency is on an allow list.  [Migrator] is the
    runner of the database migrations as processes that compete for an
    advisory lock.  The output of the go command, the files and the database
    server are the environment.  The theorems: a graph that passes the check
    keeps the modules apart, transitively; what is on the allow lists when the
    check passes; that one runner migrates at a time as long as its session
    lives. *)

From S2P Require Import Prelude GoStd GoJson GoUnmarshal GoHttp GoText.

(** ** boundarycheck *)

Module Boundary.
Import GoString GoText.

Record pkg : Type := MkPkg {
  ImportPath : string; Imports : list string; TestImports : list string; XTestImports : list string }.
Record violation : Type := MkViolation { From : string; To : string; FromBucket : string; ToBucket : string }.

Definition under (rel dir : string) : bool := (rel =s dir) || has_prefix rel (dir +:+ "/").
(** The bucket of a package; empty outside the repository. *)
Definition moduleOf (importPath modulePath : string) : string :=
  if importPath =s modulePath then "root"
  else if negb (has_prefix importPath (modulePath +:+ "/")) then ""
  else
    let rel := trim_prefix importPath (modulePath +:+ "/") in
    if under rel "cmd" then "cmd"
    else if under rel "tools" then "tools"
    else if under rel "internal/platform" then "platform"
    else if has_prefix rel "internal/" then "internal:" +:+ first_part "/" (trim_prefix rel "internal/")
    else "root".

Definition allowedEdge (src dst : string) : bool :=
  if src =s dst then true
  else if src =s "cmd" then (dst =s "platform") || has_prefix dst "internal:"
  else if (src =s "platform") || (src =s "tools") || (src =s "root") then false
  else dst =s "platform".

Definition allImports (p : pkg) : list string := Imports p ++ TestImports p ++ XTestImports p.
Definition edge_key (p imp : string) : string := p +:+ "->" +:+ imp.

(** The range over the packages and their imports; [seen] holds the keys of the
    edges reported. *)
Fixpoint check_imports (modulePath src path : string) (seen : list string) (imps : list string)
    : list violation * list string :=
  match imps with
  | [] => ([], seen)
  | imp :: imps' =>
      let dst := moduleOf imp modulePath in
      if (dst =s "") || allowedEdge src dst || str_mem (edge_key path imp) seen
      then check_imports modulePath src path seen imps'
      else let '(out, seen') := check_imports modulePath src path (edge_key path imp :: seen) imps' in
           (MkViolation path imp src dst :: out, seen')
  end.
Fixpoint check_from (modulePath : string) (seen : list string) (packages : list pkg) : list violation :=
  match packages with
  | [] => []
  | p :: ps =>
      let src := moduleOf (ImportPath p) modulePath in
      if src =s "" then check_from modulePath seen ps
      else let '(out, seen') := check_imports modulePath src (ImportPath p) seen (allImports p) in
           out ++ check_from modulePath seen' ps
  end.
Definition check (packages : list pkg) (modulePath : string) : list violation := check_from modulePath [] packages.

(** *** main *)

(** A line of the second listing: a package and an import of its tests. *)
Definition test_edge (line : string) : option (string * string) :=
  match cut " " line with
  | (a, b, true) => Some (a, b)
  | _ => None
  end.
Definition test_edges (testRaw : string) : list (string * string) :=
  omap test_edge (split_at "010" (trim_space testRaw)).
Definition with_tests (edges : list (string * string)) (p : pkg) : pkg :=
  MkPkg (ImportPath p) (Imports p)
    (TestImports p ++ map snd (List.filter (fun e => e.1 =s ImportPath p) edges)) (XTestImports p).
(** The answers of go list: the module path, the packages, as decoded, and the
    test imports; [None] is an error. *)
Inductive Outcome := Passed | Violations (l : list violation) | Broken.
Definition main (module_out : option string) (packages : option (list pkg)) (testRaw : option string) : Outcome :=
  match module_out, packages, testRaw with
  | Some m, Some ps, Some t =>
      match check (map (with_tests (test_edges t)) ps) (trim_space m) with
      | [] => Passed
      | l => Violations l
      end
  | _, _, _ => Broken
  end.
End Boundary.

(** ** licensecheck *)

Module License.
Import GoString GoText.

Record goModule : Type := MkModule { Path : string; Main : bool }.

(** bufio.Scanner gives up on a line that fills its buffer. *)
Definition MaxScanTokenSize : Z := 65536.
Definition too_long (raw : string) : bool := existsb (fun l => MaxScanTokenSize <=? len l) (split_at "010" raw).
(** The entries of an allow list; [None] is an error. *)
Definition loadAllowlist (file : option string) : option (list string) :=
  raw ← file;
  if too_long raw then None
  else Some (List.filter (fun l => negb (l =s "")) (map (fun l => trim_space (first_part "#" l)) (scan_lines raw))).

(** A map[string]string and a map[string]struct with a version: their names. *)
Definition map_value {A} (f : decoder A) (zero : A) : decoder (list string) := fun old j =>
  match j with
  | JObj fs => (existsb (fun kv => (f zero kv.2).1) fs, old ++ map fst fs)
  | JNull => (false, [])
  | _ => (true, old)
  end.
Definition version_value : decoder string := fun old j =>
  match struct_members j with
  | Some fs => field string_value old "version" fs
  | None => (true, old)
  end.
Definition decode_names (names_of : list (string * json) -> bool * list string) (file : option string) : option (list string) :=
  raw ← file;
  j ← unmarshal raw;
  fs ← struct_members j;
  let '(bad, ks) := names_of fs in
  if bad then None else Some ks.
Definition sorted_keys (ks : list string) : list string := sort_strings (remove_dups ks).
(** The direct dependencies of package.json. *)
Definition package_names (fs : list (string * json)) : bool * list string :=
  let '(bad1, _) := field string_value "" "name" fs in
  let '(bad2, deps) := field (map_value string_value "") [] "dependencies" fs in
  let '(bad3, dev) := field (map_value string_value "") [] "devDependencies" fs in
  (bad1 || bad2 || bad3, sorted_keys deps ++ sorted_keys dev).
(** The keys of the packages of package-lock.json. *)
Definition lock_names (fs : list (string * json)) : bool * list string :=
  let '(bad, ks) := field (map_value version_value "") [] "packages" fs in
  (bad, remove_dups ks).

Definition npm_name (parts : list string) : string :=
  match List.rev parts with
  | name :: scope :: _ :: _ => if has_prefix scope "@" then scope +:+ "/" +:+ name else name
  | name :: _ => name
  | [] => ""
  end.
Definition npmResolvedPackages (lock : list string) : list string :=
  sort_strings (map (fun p => npm_name (split_at "/" p))
                    (List.filter (fun p => negb (p =s "") && has_prefix p "node_modules/") lock)).

Inductive Problem : Type :=
| GoModule (path : string)
| NpmDirect (name : string)
| NpmResolved (name : string).
Inductive Outcome := Passed | Problems (l : list Problem) | Broken.

Definition not_listed (allow : list string) (mk : string -> Problem) (names : list string) : list Problem :=
  map mk (List.filter (fun n => negb (str_mem n allow)) names).
(** The files named in the constants, and the modules the go command lists. *)
Definition main (allow_go allow_npm package_json package_lock : option string) (mods : option (list goModule)) : Outcome :=
  match loadAllowlist allow_go, mods, loadAllowlist allow_npm,
        decode_names package_names package_json, decode_names lock_names package_lock with
  | Some goAllow, Some mods, Some npmAllow, Some direct, Some lock =>
      let go := map Path (List.filter (fun m => negb (Main m)) mods) in
      match not_listed goAllow GoModule go ++ not_listed npmAllow NpmDirect direct ++
            not_listed npmAllow NpmResolved (npmResolvedPackages lock) with
      | [] => Passed
      | l => Problems l
      end
  | _, _, _, _, _ => Broken
  end.
End License.

(** ** migrator *)

Module Migrator.

Definition lockKey : Z := 781927001.
Definition goose_first (c : ascii) : bool :=
  Regex.in_range "A" "Z" c || Regex.in_range "a" "z" c || Regex.in_range "0" "9" c || Ascii.eqb c "/".
Definition goose_char (c : ascii) : bool := goose_first c || Regex.is_in "._-" c.
Definition goosePathPattern : Regex.re := Regex.RSeq (Regex.RSet goose_first) (Regex.RStar (Regex.RSet goose_char)).

(** The flags and arguments of a run, GOOSE_BIN, and what LookPath finds. *)
Record Config : Type := MkConfig {
  dsn : string; dir : string; args : list string; goose_bin : string; look_path : option string }.
Definition choose (c : Config) : option string :=
  goose ← (if goose_bin c =s "" then look_path c else Some (goose_bin c));
  if Regex.match_full goosePathPattern goose then Some goose else None.
Definition argv (c : Config) (goose : string) : list string :=
  [goose; "-dir"; dir c; "postgres"; dsn c; default "up" (head (args c))].

(** Where a runner is; [Orphan]: it is gone and the goose it started is not. *)
Inductive Phase : Type :=
| Starting
| Connected
| Holding
| Migrating (argv : list string)
| Orphan (argv : list string)
| Exited (code : Z).
(** What happens to a runner next. *)
Inductive Event : Type :=
| ConnectOk
| ConnectErr
| LockErr
| LockAnswered
| Prepare
| GooseEnds (code : Z)
| Killed
| SessionLost.
Inductive Effect := Keep | Take | Release.

(** One step of main, [free] telling whether nobody holds the lock.  An exit
    ends the session, which releases its lock. *)
Definition next (c : Config) (free : bool) (ph : Phase) (e : Event) : option (Phase * Effect) :=
  match ph, e with
  | Starting, ConnectOk => if dsn c =s "" then Some (Exited 2, Keep) else Some (Connected, Keep)
  | Starting, ConnectErr => Some (Exited 2, Keep)
  | Connected, LockErr => Some (Exited 2, Keep)
  | Connected, LockAnswered => if free then Some (Holding, Take) else Some (Exited 3, Keep)
  | Holding, Prepare =>
      match choose c with
      | Some goose => Some (Migrating (argv c goose), Keep)
      | None => Some (Exited 2, Release)
      end
  | Migrating _, GooseEnds code => Some (Exited code, Release)
  | Orphan _, GooseEnds code => Some (Exited code, Keep)
  | Migrating a, Killed => Some (Orphan a, Release)
  | (Starting | Connected | Holding), Killed => Some (Exited 137, Release)
  | (Holding | Migrating _), SessionLost => Some (ph, Release)
  | _, _ => None
  end.

(** Runners against one database. *)
Record Sys : Type := MkSys { holder : option nat; procs : list (Config * Phase) }.
Definition start (cs : list Config) : Sys := MkSys None (map (fun c => (c, Starting)) cs).
Definition lock_after (i : nat) (e : Effect) (h : option nat) : option nat :=
  match e with
  | Keep => h
  | Take => Some i
  | Release => if bool_decide (h = Some i) then None else h
  end.
Definition apply (s : Sys) (ie : nat * Event) : option Sys :=
  cp ← procs s !! ie.1;
  pe ← next cp.1 (bool_decide (holder s = None)) cp.2 ie.2;
  Some (MkSys (lock_after ie.1 pe.2 (holder s)) (<[ie.1 := (cp.1, pe.1)]> (procs s))).
Fixpoint run (s : Sys) (evs : list (nat * Event)) : option Sys :=
  match evs with
  | [] => Some s
  | ie :: evs' => s' ← apply s ie; run s' evs'
  end.

(** A goose is at work. *)
Definition at_work (s : Sys) (i : nat) (a : list string) : Prop :=
  exists c, procs s !! i = Some (c, Migrating a) \/ procs s !! i = Some (c, Orphan a).
End Migrator.

(** ** Properties *)

Module DevProps.
Import GoString GoText Boundary.

(** *** Modules stay apart *)

(** An edge that is not allowed and was not seen makes the check fail. *)
Lemma check_imports_nil m src path seen imps seen' :
  check_imports m src path seen imps = ([], seen') ->
  seen' = seen /\
  forall imp, imp ∈ imps -> moduleOf imp m <> "" -> allowedEdge src (moduleOf imp m) = true \/ edge_key path imp ∈ seen.
Proof.
  induction imps as [|imp imps IH]; simpl.
  - intros [= <-]. split; [done|]. by intros ? ?%elem_of_nil.
  - destruct (_ || _) eqn:E.
    + intros H. destruct (IH H) as [-> Hi]. split; [done|]. intros x [->|Hx]%elem_of_cons Hm; [|auto].
      rewrite !orb_true_iff, String.eqb_eq, str_mem_spec in E. destruct E as [[?|?]|?]; auto.
    + destruct (check_imports _ _ _ (_ :: _) _) as [out s]. intros [=].
Qed.
Lemma check_imports_ok m src path seen imps :
  (forall imp, imp ∈ imps -> moduleOf imp m <> "" -> allowedEdge src (moduleOf imp m) = true) ->
  check_imports m src path seen imps = ([], seen).
Proof.
  induction imps as [|imp imps IH]; simpl; [done|]. intros H.
  case_eq (moduleOf imp m =s ""); intros E; b2p; simpl.
  - apply IH. intros x Hx. apply H. by right.
  - rewrite (H imp) by (done || left). simpl. apply IH. intros x Hx. apply H. by right.
Qed.

(** The check passes exactly when every import inside the repository is
    allowed. *)
Definition edges_ok (packages : list pkg) (m : string) : Prop :=
  forall p imp, p ∈ packages -> imp ∈ allImports p -> moduleOf (ImportPath p) m <> "" -> moduleOf imp m <> "" ->
    allowedEdge (moduleOf (ImportPath p) m) (moduleOf imp m) = true.
Lemma check_passes packages m : check packages m = [] <-> edges_ok packages m.
Proof.
  unfold check, edges_ok. induction packages as [|p ps IH]; simpl.
  - split; [by intros _ ? ? ?%elem_of_nil|done].
  - case_eq (moduleOf (ImportPath p) m =s ""); intros E; b2p.
    + rewrite IH. split; intros H q imp Hq; [apply elem_of_cons in Hq as [->|Hq]; [by intros _ Hm|by apply H]|apply H; by right].
    + split.
      * destruct (check_imports m _ _ [] _) as [out seen'] eqn:Ec. intros [-> H]%app_eq_nil.
        apply check_imports_nil in Ec as [-> Hi]. intros q imp [->|Hq]%elem_of_cons Himp Hq0 Hm; [|by apply (proj1 IH H)].
        destruct (Hi imp Himp Hm) as [?|?%elem_of_nil]; done.
      * intros H. rewrite check_imports_ok. { simpl. apply IH. intros q imp Hq. apply H. by right. }
        intros imp Hi Hm. apply H; [left|done..].
Qed.

Lemma internal_names b : has_prefix b "internal:" = true -> b <> "cmd" /\ b <> "platform" /\ b <> "tools" /\ b <> "root".
Proof. intros H. repeat split; by intros ->. Qed.
Lemma allowed_trans a b c : allowedEdge a b = true -> allowedEdge b c = true -> allowedEdge a c = true.
Proof.
  unfold allowedEdge. destruct (String.eqb_spec a b) as [->|Hab]; [done|].
  destruct (String.eqb_spec b c) as [->|Hbc]; [by destruct (a =s c)|].
  destruct (a =s c); [done|]. destruct (String.eqb_spec a "cmd") as [->|Ha].
  - rewrite orb_true_iff, String.eqb_eq. intros [->|Hp]; [done|].
    destruct (internal_names _ Hp) as (H1 & H2 & H3 & H4). apply String.eqb_neq in H1, H2, H3, H4.
    rewrite H1, H2, H3, H4. simpl. by intros ->.
  - destruct (_ || _); [done|]. rewrite String.eqb_eq. by intros ->.
Qed.
Lemma allowed_antisym a b : allowedEdge a b = true -> a <> b -> allowedEdge b a = false.
Proof.
  unfold allowedEdge. rewrite (String.eqb_sym b a). destruct (String.eqb_spec a b) as [->|Hab]; [done|].
  destruct (String.eqb_spec a "cmd") as [->|Ha].
  - rewrite orb_true_iff, String.eqb_eq. intros [->|Hp] _; [done|].
    destruct (internal_names _ Hp) as (H1 & H2 & H3 & H4). apply String.eqb_neq in H1, H2, H3, H4.
    by rewrite H1, H2, H3, H4.
  - destruct (_ || _); [done|]. rewrite String.eqb_eq. by intros -> _.
Qed.

(** One import between packages of the repository that go list names. *)
Definition imports_step (packages : list pkg) (m : string) (a b : string) : Prop :=
  exists p, p ∈ packages /\ ImportPath p = a /\ b ∈ allImports p /\ moduleOf a m <> "" /\ moduleOf b m <> "".

(** C37. When the boundary check passes, whatever a package imports directly or
    through others is what its module may import: no internal module reaches
    another, the platform reaches nothing else, and neither do the tools and the
    root; so no two modules import each other. *)
Theorem modules_apart packages testRaw m a b :
  main (Some m) (Some packages) (Some testRaw) = Passed ->
  star (imports_step (map (with_tests (test_edges testRaw)) packages) (trim_space m)) a b ->
  let x := moduleOf a (trim_space m) in
  let y := moduleOf b (trim_space m) in
  allowedEdge x y = true /\ (x <> y -> allowedEdge y x = false).
Proof.
  intros Hm Hs x y.
  assert (Hok : edges_ok (map (with_tests (test_edges testRaw)) packages) (trim_space m)).
  { apply check_passes. unfold main in Hm. by destruct (check _ _). }
  assert (Hxy : allowedEdge x y = true).
  { subst x y. induction Hs as [a|a b c Hab IH (p & Hp & <- & Hi & Ha & Hb)]; [unfold allowedEdge; by rewrite str_eqb_refl|].
    eapply allowed_trans; [exact IH|]. by apply Hok. }
  split; [done|]. by apply allowed_antisym.
Qed.

Definition m0 : string := "github.com/x/saoaf".
Definition pk (path : string) (imps : list string) : pkg := MkPkg (m0 +:+ path) (map (fun i => m0 +:+ i) imps) [] [].
Definition good_graph : list pkg :=
  [pk "/cmd/api" ["/internal/registry"; "/internal/platform/worker"]; pk "/internal/registry" ["/internal/registry/db"];
   pk "/internal/registry/db" ["/internal/platform/worker"]; pk "/internal/platform/worker" []].
Lemma modules_apart_witness :
  let a := m0 +:+ "/internal/registry" in
  let b := m0 +:+ "/internal/platform/worker" in
  allowedEdge (moduleOf a m0) (moduleOf b m0) = true /\
  (moduleOf a m0 <> moduleOf b m0 -> allowedEdge (moduleOf b m0) (moduleOf a m0) = false).
Proof.
  intros a b. apply (modules_apart good_graph "" m0 a b); [vm_compute; reflexivity|].
  set (ps := map (with_tests (test_edges "")) good_graph).
  assert (Hst : forall n x y,
    match nth_error ps n with
    | Some q => (ImportPath q =s x) && str_mem y (allImports q) &&
                negb (moduleOf x m0 =s "") && negb (moduleOf y m0 =s "")
    | None => false
    end = true -> imports_step ps (trim_space m0) x y).
  { intros n x y H. destruct (nth_error ps n) as [q|] eqn:E; [|done]. apply nth_error_In, list_elem_of_In in E.
    b2p. destruct_and_hyps. exists q. repeat split; try done. by apply str_mem_spec. }
  apply star_next with (m0 +:+ "/internal/registry/db"); [apply star_one, (Hst 1%nat)|apply (Hst 2%nat)];
    vm_compute; reflexivity.
Defined.
(** An import of the tests counts. *)
Example test_import_found :
  main (Some (m0 +:+ String "010" "")) (Some [pk "/internal/registry" []; pk "/internal/resolver" []])
    (Some (m0 +:+ "/internal/registry " +:+ m0 +:+ "/internal/resolver" +:+ String "010" "")) =
  Violations [MkViolation (m0 +:+ "/internal/registry") (m0 +:+ "/internal/resolver") "internal:registry" "internal:resolver"].
Proof. vm_compute. reflexivity. Qed.

(** *** Allow lists *)

Lemma not_listed_nil allow mk names : License.not_listed allow mk names = [] <-> forall n, n ∈ names -> n ∈ allow.
Proof.
  unfold License.not_listed. induction names as [|n ns IH]; simpl.
  - split; [by intros _ ? ?%elem_of_nil|done].
  - destruct (str_mem n allow) eqn:E; simpl.
    + apply str_mem_spec in E. rewrite IH. split; [|intros H x Hx; apply H; by right].
      intros H x [->|Hx]%elem_of_cons; auto.
    + split; [done|]. apply str_mem_false in E. intros H. destruct E. apply H. left.
Qed.

(** The check passes exactly when the files can be read, every module but the
    main one is on the list for Go, and every direct dependency and the name of
    every key under node_modules is on the list for npm. *)
Theorem license_passes allow_go allow_npm package_json package_lock mods :
  License.main allow_go allow_npm package_json package_lock mods = License.Passed <->
  exists go ms npm direct lock,
    License.loadAllowlist allow_go = Some go /\ mods = Some ms /\ License.loadAllowlist allow_npm = Some npm /\
    License.decode_names License.package_names package_json = Some direct /\
    License.decode_names License.lock_names package_lock = Some lock /\
    (forall m, m ∈ ms -> License.Main m = false -> License.Path m ∈ go) /\
    (forall n, n ∈ direct -> n ∈ npm) /\
    (forall p, p ∈ lock -> has_prefix p "node_modules/" = true -> License.npm_name (split_at "/" p) ∈ npm).
Proof.
  unfold License.main. set (direct := License.decode_names License.package_names _).
  set (lock := License.decode_names License.lock_names _). clearbody direct lock.
  destruct (License.loadAllowlist allow_go) as [go|]; [|split; [done|naive_solver]].
  destruct mods as [ms|]; [|split; [done|naive_solver]].
  destruct (License.loadAllowlist allow_npm) as [npm|]; [|split; [done|naive_solver]].
  destruct direct as [direct|]; [|split; [done|naive_solver]].
  destruct lock as [lock|]; [|split; [done|naive_solver]].
  assert (Hgo : License.not_listed go License.GoModule (map License.Path (List.filter (fun m => negb (License.Main m)) ms)) = [] <->
                forall m, m ∈ ms -> License.Main m = false -> License.Path m ∈ go).
  { rewrite not_listed_nil. setoid_rewrite list_elem_of_fmap. setoid_rewrite list_elem_of_In.
    setoid_rewrite filter_In. setoid_rewrite negb_true_iff. naive_solver. }
  assert (Hl : License.not_listed npm License.NpmResolved (License.npmResolvedPackages lock) = [] <->
               forall p, p ∈ lock -> has_prefix p "node_modules/" = true -> License.npm_name (split_at "/" p) ∈ npm).
  { rewrite not_listed_nil. unfold License.npmResolvedPackages. setoid_rewrite elem_of_sort_strings.
    setoid_rewrite list_elem_of_fmap. setoid_rewrite list_elem_of_In. setoid_rewrite filter_In.
    setoid_rewrite andb_true_iff. setoid_rewrite negb_true_iff. setoid_rewrite String.eqb_neq. split.
    - intros H p Hp Hn. apply H. exists p. repeat split; try done. by intros ->.
    - intros H n (p & -> & Hp & _ & Hn). auto. }
  pose proof (not_listed_nil npm License.NpmDirect direct) as Hd. split.
  - intros H. destruct (License.not_listed go _ _) eqn:E1; [|done]. destruct (License.not_listed npm License.NpmDirect _) eqn:E2; [|done].
    destruct (License.not_listed npm License.NpmResolved _) eqn:E3; [|done].
    exists go, ms, npm, direct, lock. repeat (split; [done|]). split; [by apply Hgo|]. split; [by apply Hd|by apply Hl].
  - intros (? & ? & ? & ? & ? & [= <-] & [= <-] & [= <-] & [= <-] & [= <-] & H1 & H2 & H3).
    by rewrite (proj2 Hgo H1), (proj2 Hd H2), (proj2 Hl H3).
Qed.

(** The name of a key: what follows its last node_modules. *)
Lemma split_at_cons sep s : exists w ws, split_at sep s = w :: ws.
Proof.
  destruct s as [|c s]; simpl; [eauto|]. destruct (Ascii.eqb c sep); [eauto|]. destruct (split_at sep s); eauto.
Qed.
Lemma split_at_app sep a b : split_at sep (a +:+ String sep b) = split_at sep a ++ split_at sep b.
Proof.
  induction a as [|c a IH].
  - change ("" +:+ String sep b) with (String sep b). cbn [split_at]. by rewrite Ascii.eqb_refl.
  - change (String c a +:+ String sep b) with (String c (a +:+ String sep b)). cbn [split_at]. rewrite IH.
    destruct (Ascii.eqb c sep); [done|]. by destruct (split_at_cons sep a) as (w & ws & ->).
Qed.
Lemma split_at_whole sep n : sep ∉ bytes_of_string n -> split_at sep n = [n].
Proof.
  induction n as [|c n IH]; [done|]. unfold bytes_of_string. simpl. intros [Hc Hn]%not_elem_of_cons.
  rewrite (IH Hn). case_eq (Ascii.eqb c sep); intros E; [apply Ascii.eqb_eq in E; by subst|done].
Qed.
Lemma npm_name_plain parents n : License.npm_name (parents ++ ["node_modules"; n]) = n.
Proof. unfold License.npm_name. rewrite rev_app_distr. simpl. by destruct (List.rev parents). Qed.
Lemma npm_name_scoped parents s n :
  License.npm_name (parents ++ ["node_modules"; "@" +:+ s; n]) = "@" +:+ s +:+ "/" +:+ n.
Proof. unfold License.npm_name. rewrite rev_app_distr. simpl. by rewrite append_assoc. Qed.
(** Below whatever package another is installed, plain or scoped, its name is
    found. *)
Lemma npm_name_of_key parents s n :
  "/"%char ∉ bytes_of_string n -> "/"%char ∉ bytes_of_string s ->
  License.npm_name (split_at "/" (parents +:+ "/node_modules/" +:+ n)) = n /\
  License.npm_name (split_at "/" (parents +:+ "/node_modules/@" +:+ s +:+ "/" +:+ n)) = "@" +:+ s +:+ "/" +:+ n.
Proof.
  intros Hn Hs. split.
  - change ("/node_modules/" +:+ n) with (String "/" ("node_modules" +:+ String "/" n)).
    rewrite !split_at_app, (split_at_whole _ n) by done. apply npm_name_plain.
  - change ("/node_modules/@" +:+ s +:+ "/" +:+ n) with
      (String "/" ("node_modules" +:+ String "/" (("@" +:+ s) +:+ String "/" n))).
    rewrite !split_at_app, (split_at_whole _ n), (split_at_whole _ ("@" +:+ s)); [apply npm_name_scoped| |done].
    by intros [?|?]%elem_of_cons.
Qed.

Definition q := replace_bytes (fun c => if Ascii.eqb c "'" then "034"%char else c).
Definition npm_run (package lock : string) : License.Outcome :=
  License.main (Some "a/b # vetted") (Some (String.concat (String "010" "") ["# list"; "react"; "@types/node "]))
    (Some (q package)) (Some (q lock)) (Some [License.MkModule "saoaf" true; License.MkModule "a/b" false]).
Example license_run :
  npm_run "{'name':'web','dependencies':{'react':'1'}}"
    "{'packages':{'':{},'node_modules/react':{'version':'1'},'node_modules/x/node_modules/@types/node':{'version':'2'}}}" =
  License.Passed.
Proof. vm_compute. reflexivity. Qed.
Example license_found :
  npm_run "{'dependencies':{'left-pad':'1'}}" "{'packages':{'node_modules/react/node_modules/left-pad':{}}}" =
  License.Problems [License.NpmDirect "left-pad"; License.NpmResolved "left-pad"].
Proof. vm_compute. reflexivity. Qed.
(** What is installed below a workspace is not looked at. *)
Example workspace_unseen :
  npm_run "{}" "{'packages':{'packages/ui/node_modules/left-pad':{'version':'1'}}}" = License.Passed.
Proof. vm_compute. reflexivity. Qed.

(** *** One migration at a time *)

Section Runners.
Import Migrator.
Context (cs : list Config).

(** Runs in which no runner is killed and no session is lost while its goose is
    at work. *)
Definition undisturbed (evs : list (nat * Event)) : Prop :=
  Forall (fun ie => ie.2 <> Killed /\ ie.2 <> SessionLost) evs.

Definition in_charge (ph : Phase) : bool := match ph with Holding | Migrating _ => true | _ => false end.
Record safe (s : Sys) : Prop := {
  safe_holder i c ph : procs s !! i = Some (c, ph) -> in_charge ph = true -> holder s = Some i;
  safe_argv i c a : procs s !! i = Some (c, Migrating a) ->
    exists g, choose c = Some g /\ a = argv c g;
  safe_orphan i c a : procs s !! i <> Some (c, Orphan a);
}.

Lemma start_safe : safe (start cs).
Proof.
  assert (H : forall i c ph, procs (start cs) !! i = Some (c, ph) -> ph = Starting).
  { intros i c ph Hi. apply list_lookup_fmap_Some_1 in Hi as (c' & E & _). congruence. }
  split.
  - by intros i c ph ->%H.
  - by intros i c a ?%H.
  - by intros i c a ?%H.
Qed.

Lemma next_facts c free ph e ph' eff :
  next c free ph e = Some (ph', eff) -> e <> Killed -> e <> SessionLost ->
  (in_charge ph' = true -> (eff = Take) \/ (eff = Keep /\ in_charge ph = true)) /\
  (eff = Take -> free = true) /\
  (forall a, ph' = Migrating a -> exists g, choose c = Some g /\ a = argv c g) /\
  (forall a, ph' <> Orphan a).
Proof.
  intros H Hk Hl. destruct ph, e; simpl in H; try done; try destruct (dsn c =s ""); try destruct free;
    try destruct (choose c) as [g|] eqn:Eg; try discriminate; injection H as <- <-;
    (split; [simpl; intros; first [discriminate|auto]|split; [done|split; [|done]]]); intros ? [=]; subst; eauto.
Qed.

Lemma apply_safe s ie s' :
  ie.2 <> Killed -> ie.2 <> SessionLost -> safe s -> Migrator.apply s ie = Some s' -> safe s'.
Proof.
  destruct ie as [i e]. simpl. intros Hk Hl [Hh Ha Ho] H. unfold Migrator.apply in H. simpl in H.
  destruct (procs s !! i) as [[c ph]|] eqn:Ei; [|done]. simpl in H.
  destruct (next c _ ph e) as [[ph' eff]|] eqn:En; [|done]. simpl in H. injection H as <-.
  destruct (next_facts _ _ _ _ _ _ En Hk Hl) as (H1 & H2 & H3 & H4).
  assert (Hlt : (i < length (procs s))%nat) by by eapply lookup_lt_Some.
  split; simpl.
  - intros j d qh Hj Hc. destruct (decide (j = i)) as [->|Hji].
    + rewrite list_lookup_insert_eq in Hj by done. injection Hj as <- <-.
      destruct (H1 Hc) as [->|[-> Hc']]; [done|]. by eapply Hh.
    + rewrite list_lookup_insert_ne in Hj by done. specialize (Hh j d qh Hj Hc). destruct eff; simpl; [done| |].
      * specialize (H2 eq_refl). apply bool_decide_eq_true in H2. congruence.
      * rewrite bool_decide_false; [done|]. congruence.
  - intros j d a Hj. destruct (decide (j = i)) as [->|Hji].
    + rewrite list_lookup_insert_eq in Hj by done. injection Hj as <- ->. by apply H3.
    + rewrite list_lookup_insert_ne in Hj by done. by eapply Ha.
  - intros j d a Hj. destruct (decide (j = i)) as [->|Hji].
    + rewrite list_lookup_insert_eq in Hj by done. injection Hj as <- ->. by eapply H4.
    + rewrite list_lookup_insert_ne in Hj by done. by eapply Ho.
Qed.
Lemma run_safe evs : undisturbed evs -> forall s s', safe s -> run s evs = Some s' -> safe s'.
Proof.
  induction 1 as [|ie evs [Hk Hl] _ IH]; intros s s' Hs Hr; simpl in Hr; [by injection Hr as <-|].
  destruct (Migrator.apply s ie) as [s1|] eqn:E; [|done]. eapply (IH s1); [|exact Hr]. by eapply apply_safe.
Qed.
Lemma run_configs evs s s' : run s evs = Some s' -> map fst (procs s') = map fst (procs s).
Proof.
  revert s. induction evs as [|[i e] evs IH]; intros s Hr; simpl in Hr; [by injection Hr as <-|].
  unfold Migrator.apply in Hr. simpl in Hr.
  destruct (procs s !! i) as [[c ph]|] eqn:Ei; [|done]. simpl in Hr.
  destruct (next c _ ph e) as [[ph' eff]|]; [|done]. simpl in Hr. rewrite (IH _ Hr). simpl.
  change (fst <$> <[i := (c, ph')]> (procs s) = fst <$> procs s).
  rewrite list_fmap_insert. apply list_insert_id. simpl. by rewrite list_lookup_fmap, Ei.
Qed.
End Runners.

(** C38. Among any number of migration runners, in any order of their steps and
    whatever fails, at most one goose is at work, as long as no runner is killed
    and no session is lost; its command line is the configured one, and its path
    has no character outside the pattern. *)
Theorem one_migrator cs evs s :
  undisturbed evs -> Migrator.run (Migrator.start cs) evs = Some s ->
  (forall i j a b, Migrator.at_work s i a -> Migrator.at_work s j b -> i = j) /\
  (forall i a, Migrator.at_work s i a -> exists c g rest, cs !! i = Some c /\ a = g :: rest /\
     Migrator.argv c g = a /\ Migrator.choose c = Some g).
Proof.
  intros Hu Hr. destruct (run_safe evs Hu _ _ (start_safe cs) Hr) as [Hh Ha Ho].
  apply run_configs in Hr. simpl in Hr. rewrite map_map, map_id in Hr.
  assert (Hw : forall i a, Migrator.at_work s i a -> exists c, Migrator.procs s !! i = Some (c, Migrator.Migrating a)).
  { intros i a (c & [H|H]); [by exists c|by destruct (Ho i c a)]. }
  split.
  - intros i j a b (c & Hi)%Hw (d & Hj)%Hw. pose proof (Hh _ _ _ Hi eq_refl). pose proof (Hh _ _ _ Hj eq_refl). congruence.
  - intros i a (c & Hi)%Hw. destruct (Ha _ _ _ Hi) as (g & Hg & ->). exists c, g, (tail (Migrator.argv c g)).
    repeat split; try done. rewrite <- Hr.
    rewrite list_lookup_fmap, Hi. done.
Qed.

Definition mig (args : list string) : Migrator.Config := Migrator.MkConfig "postgres://db" "migrations" args "" (Some "/usr/bin/goose").
Definition race : list (nat * Migrator.Event) :=
  [(0%nat, Migrator.ConnectOk); (1%nat, Migrator.ConnectOk); (1%nat, Migrator.LockAnswered); (0%nat, Migrator.LockAnswered);
   (1%nat, Migrator.Prepare)].
Lemma one_migrator_witness :
  exists s, Migrator.run (Migrator.start [mig []; mig ["down"]]) race = Some s /\
  (forall i j a b, Migrator.at_work s i a -> Migrator.at_work s j b -> i = j) /\
  (forall i a, Migrator.at_work s i a -> exists c g rest, [mig []; mig ["down"]] !! i = Some c /\ a = g :: rest /\
     Migrator.argv c g = a /\ Migrator.choose c = Some g).
Proof.
  eexists. split; [vm_compute; reflexivity|].
  apply (one_migrator [mig []; mig ["down"]] race); [by repeat constructor|vm_compute; reflexivity].
Defined.
Example race_result :
  map snd (Migrator.procs (default (Migrator.start []) (Migrator.run (Migrator.start [mig []; mig ["down"; "2"]]) race))) =
  [Migrator.Exited 3; Migrator.Migrating ["/usr/bin/goose"; "-dir"; "migrations"; "postgres"; "postgres://db"; "down"]].
Proof. vm_compute. reflexivity. Qed.
(** The lock belongs to the runner's session, not to goose's: when the session
    is lost, or the runner is killed, another runner migrates beside the goose
    that is still at work. *)
Definition alone (i : nat) : list (nat * Migrator.Event) :=
  [(i, Migrator.ConnectOk); (i, Migrator.LockAnswered); (i, Migrator.Prepare)].
Lemma lost_session_two ev :
  ev = Migrator.SessionLost \/ ev = Migrator.Killed ->
  exists s a, Migrator.run (Migrator.start [mig []; mig []]) (alone 0 ++ [(0%nat, ev)] ++ alone 1) = Some s /\
    Migrator.at_work s 0 a /\ Migrator.at_work s 1 a.
Proof.
  intros [->| ->]; eexists _, _; (split; [vm_compute; reflexivity|]); (split; exists (mig [])); [left|left|right|left]; reflexivity.
Qed.
End DevProps.
